(* ===== verification/_CoqProject ===== *)
-Q . S2P
Prelude.v
Binary64.v
Core.v
CpuList.v
Actuator.v
Topology.v
Collector.v
DomainPlanner.v
UnionFind.v
DomainSolver.v
DomainSolverFacts.v
DomainPlanFacts.v
DomainTheorems.v
DomainProperties.v
GraphWindow.v
GraphFacts.v
GraphProperties.v
ThreadProfile.v
ProfileProperties.v
Config.v
ConfigProperties.v
Hotspot.v
HotspotProperties.v
Incremental.v
SnapshotSolver.v
NodePlan.v
Pinning.v
Optimizer.v
IncrementalPropose.v
IncrementalFacts.v
SnapshotProperties.v
PinningFacts.v
OptimizerFacts.v
IncrementalInvariant.v
IncrementalProperties.v
Runtime.v
RuntimeSolve.v
RuntimeFacts.v
RuntimeProperties.v
BpfPending.v
BpfProbe.v
BpfReader.v
BpfReaderProperties.v
BpfPipeline.v
BpfSystem.v
RuntimeEvents.v
Supervisor.v
SupervisorProperties.v
ProcMaps.v
Json.v
JsonProperties.v
ProfileWriter.v
ProfilePieces.v
ProfileRoundTrip.v
RuntimeLog.v
RuntimeStatus.v
DomainReplay.v
DomainReplayProperties.v
RuntimeLogProperties.v
StartupLog.v
Replay.v
ReplaySequence.v
EventLines.v
EventLineProperties.v
ReplayReport.v
ReplayProperties.v
ReplaySequenceProperties.v
ReplayReportProperties.v
RuntimeEventFacts.v
RuntimeEventProperties.v
Control.v
ControlProperties.v
RuntimeStop.v
