(* ===== verification/Prelude.v ===== *)
(** * AffinityGraph: a verified model of the affinity runtime

    AffinityGraph watches the threads of a workload (a BPF program reports
    forks, exits, futex hand-offs, shared file accesses and the application's own
    affinity calls; [/proc] gives the rest), keeps a sliding window of this
    evidence, derives a placement of thread families on NUMA domains (or of
    threads on CPUs), and writes CPU affinity masks, which it can take back.
    This development translates its C++ code ([src/src], [src/include]) and its
    BPF program ([src/bpf]) into executable definitions and proves what makes
    them correct.

    ** Parts, files and sources

    - [Prelude], [Binary64]: exceptions as values ([result]), [std::sort],
      ordered traversal of maps and sets, 64-bit wrap-around, and IEEE-754
      binary64 ([double]) with the order facts the comparators need.
    - [Core]: the value types of [core.hpp].
    - [CpuList], [Config], [ConfigProperties]: [config.cpp], the CPU-list syntax
      and the configuration loader.
    - [Topology]: [topology.cpp], discovery over a [sysfs] reader, calibration.
    - [Actuator]: [actuator.cpp], batches of mask changes with rollback over an
      abstract backend (class [AffinityBackend] with its laws
      [AffinityBackendLaws]); the Linux backend is one instance, a table of masks
      the other.
    - [DomainPlanner], [UnionFind], [DomainSolver]: [domain_solver.cpp], the
      domain selector; facts in [DomainSolverFacts], [DomainPlanFacts],
      [DomainTheorems]; properties in [DomainProperties].
    - [GraphWindow]: [graph.cpp], the evidence window; [GraphFacts],
      [GraphProperties].
    - [ThreadProfile], [ProfileProperties]: [thread_profile.cpp], reading,
      validation and matching.  [ProfileWriter]: its writer and the export of a
      profile; [ProfilePieces], [ProfileRoundTrip]: what an exported profile is
      read back as.
    - [Hotspot], [Incremental], [NodePlan], [Pinning], [Optimizer],
      [IncrementalPropose]: [solver.cpp], the legacy CPU selector; facts in
      [HotspotProperties], [IncrementalFacts], [PinningFacts], [OptimizerFacts],
      [IncrementalInvariant]; properties in [IncrementalProperties].
    - [SnapshotSolver], [SnapshotProperties]: [Solver] of [solver.cpp], which
      places one snapshot of demands from scratch.
    - [BpfProbe]: [bpf/affinitygraph.bpf.c], every program of the object over its
      maps and the ring buffer.  [BpfReader], [BpfReaderProperties]:
      [bpf_reader.cpp], the ring buffer and the batches of aggregates read from
      user space.  [BpfPipeline]: the reader's drain of
      the aggregate maps against the contract of the [bpf] commands.
      [BpfSystem]: runs of the probes and the reader.
    - [Collector]: [collector.cpp], the scan of [/proc].
    - [Runtime], [RuntimeSolve]: [runtime.cpp], the state, the mutex and the
      solve window, in a monad whose computations return, throw, or block on the
      mutex their own thread holds; [RuntimeFacts], [RuntimeProperties].
    - [BpfPending]: the buffers the BPF worker thread and the runtime's thread
      share, one function per critical section.
    - [RuntimeEvents]: the loop of the runtime's thread: events, health,
      reconciliation, control commands; [RuntimeEventFacts],
      [RuntimeEventProperties].
    - [Supervisor], [SupervisorProperties]: [affinity_run.cpp], the command line,
      [preflight], the BPF session, and the supervision of the target, as
      computations that record their system calls.
    - [ProcMaps]: [module_offset] of [runtime.cpp], and its agreement with the
      supervisor's own reading of [/proc/<pid>/maps].
    - [RuntimeStop]: the destructor of the runtime, up to the last restore.
    - [Json], [JsonProperties]: the text of numbers, strings and documents, and a
      reader for them.  [RuntimeLog], [RuntimeStatus], [RuntimeLogProperties],
      [StartupLog]: the lines of the runtime's log that a replay needs, and the
      status document.  [EventLines], [EventLineProperties]: every kind of line as one
      type, and the file they make.
    - [Control], [ControlProperties]: [affinityctl.cpp] and one connection with the
      runtime's control socket, as a step relation over both processes.
    - [DomainReplay], [DomainReplayProperties]: [affinity_domain_replay.cpp], the
      replay of a log.  [Replay], [ReplayProperties]: [affinity_replay.cpp], one
      snapshot and its verdict.  [ReplaySequence], [ReplaySequenceProperties]: a
      sequence of snapshots through one incremental solver.  [ReplayReport],
      [ReplayReportProperties]: the command line of the first tool and the text of
      all three reports.

    ** How they interact

    The supervisor checks the configuration, loads the probes, starts the target
    and then the runtime, which owns the other parts.  The probes write events to
    the ring buffer and hand-offs to tables of aggregates; the BPF worker thread
    drains both into the pending buffers.  Each iteration of [run] swaps out the
    pending buffers, feeds lifecycle and relation events to the window, judges
    the collector's health, reconciles its thread records with [/proc], and every
    few seconds opens a solve window: the window's demands and edges go to the
    selector, its proposal to the actuator, and the actuator's answer decides
    whether the proposal is committed or discarded.  The runtime logs the inputs
    and the outcome of every window; the replay tools read such a log, or
    snapshots, and run the same selectors over them.  The client side of each
    interface is proved against the interface: the actuator against the backend's
    laws, the runtime against the contracts of the solver ([planned_by]) and of
    the actuator ([batch_applied]).

    ** What the theorems show

    - Actuator: a failed batch puts every completed thread back, a successful one
      reports exactly what it changed, and restoring undoes any history of batches,
      declared, inherited and cloned masks and exits, except on the threads a
      failed rollback left astray, which the theorem names.
    - Window: histories, aggregates, caches and emitted deltas stay coherent over
      any sequence of operations; the deltas replay to the current graph.
    - Domain selector: total; plans only masks inside the hardware, the
      application's envelope and the capacity rule; one owner per thread; optimal
      nodes; confirmations, dwell and grace as configured; components are the
      connected components of the confirmed pairs.
    - CPU selector: slot caps, budgets, confirmations, and the meaning of
      [effective].
    - Runtime: the protocol between selector and actuator is followed in every
      window, the masks on record are the kernel's, plan and observe mode never
      act, pausing and fatal errors write the original masks back, no exception
      ends the loop, every event of a batch is handled or the batch's overflow is
      fatal, and the health window judges the right interval.
    - Snapshot solver: its result is a placement with its true score, within the
      migration budget.
    - Probes and reader: every event and hand-off the probes had to record is
      counted as emitted or as dropped, and every one counted as emitted is in the
      ring's log, still in a table, or taken (each probe and each take being one
      step; what two of them can lose by running at once is stated apart); the
      drain delivers exactly the committed records, once and in order, and
      terminates; aggregates are taken once, and all of them unless a batch gives
      up or a removal fails.
    - Collector: a line of [/proc/<pid>/stat] is read as the kernel writes it,
      also when the name of the command has spaces or parentheses in it.
    - Supervisor: every run follows the protocol of [SupervisorProperties]
      (an automaton over the recorded calls), gives back what it owns, and leaves
      the target killed, waited for, or, in one characterised case, abandoned;
      what [preflight] accepts [run] can start.
    - Inputs: configuration, CPU lists, profiles and strategies are accepted only
      in range, and what is printed is read back; an exported profile, written
      beside its place and renamed, is either the old file or loads as the profile
      that was exported with its ratio as six significant digits give it (exactly
      for thousandths).
    - End: a run from construction does not throw; when it returns (it can only
      fail to by blocking on its own mutex) the destructor restores every mask
      still held, or the thread is gone or counted as failed.
    - Control: every interleaving of a client with the runtime ends in one of three
      ways, in one of which a valid command is lost.
    - Replay: in plan mode the replay of a log goes through the runtime's own
      states; the topology and the windows are read back from the lines, the
      distances and the demands only to six decimals (the kernel's 8-bit distances
      exactly), which can change a plan; a snapshot is judged
      by gates that mean what they are called; every row of a sequence describes
      its snapshot, and the two runs of a tool agree whatever their times; the
      reports are JSON that says what was computed.
    - Log: for any sequence of events, of every kind the runtime writes, the file
      splits into one line per event, each line is JSON, and it is read as the
      event's type and fields, less the control characters the writer drops.
    - Some theorems state behaviour that differs from the documentation or from
      the evident intent (a batch that erases silent relations, a failed release
      that blocks the runtime, an identifier that keeps its old mask, and others).

    ** Fuel and bounds

    Every loop of the source is a structural recursion, a fold, or a function
    with fuel that is proved to suffice: the union-find's path recursion runs on
    the number of families ([root_fuel], [root_correct]); growing and refining the
    managed set run on the size limit; the optimiser's repair loop on the deficit
    it repairs and its ordering loop on the number of threads.  Unsigned 64-bit
    arithmetic wraps around through [u64]; identifiers cross 32 bits through
    [int_of_u32].  The confirmation counters of the domain selector, [int] in the
    source, count windows and are integers here.  [Optimizer.swap_fits] reads the
    number of CPUs of a node without the entry that [operator[]] would add for a
    CPU outside the hardware.

    ** Parameters

    libm's [log1p]; the kernel (backend, the [bpf] commands on a map with the
    contract [LawfulBpfMap], [sysfs], what [/proc] returns, the
    clock, the answers of the supervisor's system calls) and libbpf, both as the
    records [Env] and [Libbpf]; boost's JSON reader (the class [JsonReader] states
    what is used of it, on texts of the JSON grammar in 7-bit characters only, and
    has an instance, the reader of [Json]) and its [ptree] accessors; the file
    system of the profile writer ([ProfileFs]) and the files, outputs and measured
    times of the replay tools ([ReplayEnv], [DomainReplayEnv]); the iteration order
    of [std::unordered_map] where it can be observed.  The runtime's theorems hold
    for every function in the place of [module_offset].

    ** Not modelled

    The forwarding of signals to the target; the creation of descriptors, their
    closing and the removal of the socket file; [PendingRelationHash], whose values
    cannot be observed; the time stamp of an exported profile; and the scheduling of
    the two worker threads beyond their critical sections.  The runtime's model
    records a log line by its type and outcome; the text of the lines is modelled
    beside it. *)
From stdpp Require Export sorting numbers strings.
From stdpp Require Export base list gmap fin_maps.


Declare Scope ag_scope.
Delimit Scope ag_scope with ag.

(** ** Development-wide hint databases and tactics *)
Create HintDb ag discriminated.
Create Rewrite HintDb ag_lookup.

(** Splits every boolean conjunction, disjunction and negation found in the
    hypotheses, and turns boolean integer comparisons into propositions. *)
Ltac bool_hyps :=
  repeat match goal with
  | H : _ && _ = true |- _ => apply andb_true_iff in H; destruct H
  | H : _ || _ = true |- _ => apply orb_true_iff in H
  | H : _ || _ = false |- _ => apply orb_false_iff in H; destruct H
  | H : negb _ = true |- _ => apply negb_true_iff in H
  | H : negb _ = false |- _ => apply negb_false_iff in H
  | H : bool_decide _ = true |- _ => apply bool_decide_eq_true_1 in H
  | H : bool_decide _ = false |- _ => apply bool_decide_eq_false_1 in H
  | H : (_ <? _)%Z = true |- _ => apply Z.ltb_lt in H
  | H : (_ <? _)%Z = false |- _ => apply Z.ltb_ge in H
  | H : (_ <=? _)%Z = true |- _ => apply Z.leb_le in H
  | H : (_ <=? _)%Z = false |- _ => apply Z.leb_gt in H
  | H : (_ =? _)%Z = true |- _ => apply Z.eqb_eq in H
  | H : (_ =? _)%Z = false |- _ => apply Z.eqb_neq in H
  end.

(** Case analysis on the scrutinee of the first [match] or [if] of the goal,
    keeping its equation. *)
Ltac case_step :=
  match goal with
  | |- context [ match ?x with _ => _ end ] => destruct x eqn:?
  end.

(** ** C++ exceptions

    The code reports failures by throwing subclasses of [std::exception]; a
    computation that may throw returns a [result]. *)
Inductive exn :=
  | logic_error (what : string)
  | runtime_error (what : string)
  | invalid_argument (what : string)
  | out_of_range (what : string).

Inductive result (A : Type) :=
  | Ok (a : A)
  | Throw (e : exn).
Arguments Ok {_} _.
Arguments Throw {_} _.

#[export] Instance exn_eq_dec : EqDecision exn.
Proof. solve_decision. Defined.
#[export] Instance result_eq_dec {A} `{EqDecision A} : EqDecision (result A).
Proof. solve_decision. Defined.

#[export] Instance result_ret : MRet result := λ A a, Ok a.
#[export] Instance result_bind : MBind result := λ A B f r,
  match r with Ok a => f a | Throw e => Throw e end.
#[export] Instance result_fmap : FMap result := λ A B f r,
  match r with Ok a => Ok (f a) | Throw e => Throw e end.

(** [guard_throw b e]: throw [e] when the condition [b] holds. *)
Definition throw_if (b : bool) (e : exn) : result unit :=
  if b then Throw e else Ok tt.

Definition is_ok {A} (r : result A) : bool :=
  match r with Ok _ => true | Throw _ => false end.

Section result_lemmas.
Context {A B : Type}.

Lemma result_bind_Ok (r : result A) (f : A → result B) b :
  (r ≫= f) = Ok b ↔ ∃ a, r = Ok a ∧ f a = Ok b.
Proof.
  destruct r as [a|e]; cbn; split.
  - intros; by exists a.
  - by intros (? & [= ->] & ?).
  - done.
  - by intros (? & ? & ?).
Qed.

Lemma throw_if_Ok b e u : throw_if b e = Ok u ↔ b = false.
Proof. destruct b, u; cbn; split; congruence. Qed.
End result_lemmas.

(** Loop of fallible steps: stops at the first exception. *)
Fixpoint foldlM {A B} (f : A → B → result A) (a : A) (l : list B) : result A :=
  match l with
  | [] => Ok a
  | b :: l => a' ← f a b; foldlM f a' l
  end.

Lemma foldlM_invariant {A B} (f : A → B → result A) (P : A → Prop) l a a' :
  P a → (∀ x b y, b ∈ l → P x → f x b = Ok y → P y) →
  foldlM f a l = Ok a' → P a'.
Proof.
  revert a. induction l as [|b l IH]; intros a Ha Hstep; cbn.
  - by intros [= <-].
  - intros (x & Hx & Hl)%result_bind_Ok.
    eapply IH; [|intros; eapply Hstep; eauto; by right|done].
    eapply Hstep; [by left|done..].
Qed.

(** A loop whose body never throws under an invariant that mentions the
    elements already visited. *)
Lemma foldlM_total_prefix {A B} (f : A → B → result A) (P : list B → A → Prop) l a :
  P [] a →
  (∀ pre b rest x, l = pre ++ b :: rest → P pre x → ∃ y, f x b = Ok y ∧ P (pre ++ [b]) y) →
  ∃ a', foldlM f a l = Ok a' ∧ P l a'.
Proof.
  intros Ha Hstep.
  cut (∀ rest pre x, l = pre ++ rest → P pre x → ∃ a', foldlM f x rest = Ok a' ∧ P l a').
  { intros H. by apply (H l [] a). }
  induction rest as [|b rest IH]; intros pre x Hl Hx; cbn.
  - rewrite app_nil_r in Hl. subst. eauto.
  - destruct (Hstep pre b rest x Hl Hx) as (y & -> & Hy). cbn.
    apply (IH (pre ++ [b])); [by rewrite <-app_assoc|done].
Qed.

Lemma foldl_invariant {A B} (f : A → B → A) (P : A → Prop) l a :
  P a → (∀ x b, b ∈ l → P x → P (f x b)) → P (foldl f a l).
Proof.
  revert a. induction l as [|b l IH]; intros a Ha Hstep; cbn; [done|].
  apply IH; [|intros; apply Hstep; [by right|done]].
  apply Hstep; [by left|done].
Qed.

(** An invariant that also mentions the part of the list already consumed. *)
Lemma foldl_invariant_prefix {A B} (f : A → B → A) (P : list B → A → Prop) l a :
  P [] a →
  (∀ done b rest x, l = done ++ b :: rest → P done x → P (done ++ [b]) (f x b)) →
  P l (foldl f a l).
Proof.
  intros Ha Hstep.
  cut (∀ rest pre x, l = pre ++ rest → P pre x → P l (foldl f x rest)).
  { intros H. by apply (H l [] a). }
  induction rest as [|b rest IH]; intros pre x Hl Hx; cbn.
  - rewrite app_nil_r in Hl. by subst.
  - apply (IH (pre ++ [b])); [by rewrite <-app_assoc|]. by eapply Hstep.
Qed.

(** ** [std::sort]

    Insertion of each element behind the elements that are not greater, the
    algorithm libstdc++ uses for short ranges.  The standard leaves the order
    of equivalent elements open; the theorems below only use that the result
    is a sorted permutation. *)
Fixpoint sort_insert {A} (ltb : A → A → bool) (x : A) (l : list A) : list A :=
  match l with
  | [] => [x]
  | y :: l' => if ltb x y then x :: y :: l' else y :: sort_insert ltb x l'
  end.

Definition std_sort {A} (ltb : A → A → bool) (l : list A) : list A :=
  foldl (λ acc x, sort_insert ltb x acc) [] l.

Section std_sort.
Context {A : Type} (ltb : A → A → bool).

Lemma sort_insert_perm x l : sort_insert ltb x l ≡ₚ x :: l.
Proof.
  induction l as [|y l IH]; cbn; [done|].
  destruct (ltb x y); [done|]. rewrite IH. constructor.
Qed.

Lemma std_sort_perm_aux l acc :
  foldl (λ acc x, sort_insert ltb x acc) acc l ≡ₚ acc ++ l.
Proof.
  revert acc. induction l as [|x l IH]; intros acc; cbn.
  - by rewrite app_nil_r.
  - rewrite IH, sort_insert_perm. cbn. by rewrite <-Permutation_middle.
Qed.

Lemma std_sort_perm l : std_sort ltb l ≡ₚ l.
Proof. apply (std_sort_perm_aux l []). Qed.

Lemma elem_of_std_sort x l : x ∈ std_sort ltb l ↔ x ∈ l.
Proof. by rewrite std_sort_perm. Qed.

Lemma length_std_sort l : length (std_sort ltb l) = length l.
Proof. by rewrite std_sort_perm. Qed.

Lemma NoDup_std_sort l : NoDup (std_sort ltb l) ↔ NoDup l.
Proof. by rewrite std_sort_perm. Qed.

(** The comparator needs to be a strict weak order only on the values that
    are actually sorted (a comparison of doubles is one away from NaN). *)
Context (P : A → Prop).
Hypothesis ltb_asym : ∀ x y, P x → P y → ltb x y = true → ltb y x = false.
Hypothesis ltb_negtrans : ∀ x y z,
  P x → P y → P z → ltb x y = false → ltb y z = false → ltb x z = false.

Local Abbreviation sorted := (StronglySorted (λ x y, ltb y x = false)).

Lemma sort_insert_sorted x l :
  P x → Forall P l → sorted l → sorted (sort_insert ltb x l).
Proof.
  intros Hx Hl Hs. induction Hs as [|y l Hs IH Hy]; cbn.
  { repeat constructor. }
  apply Forall_cons_iff in Hl as [Py Hl].
  destruct (ltb x y) eqn:Hxy.
  - apply SSorted_cons; [by apply SSorted_cons|].
    apply Forall_cons_iff; split; [by apply ltb_asym|].
    rewrite Forall_forall in Hy, Hl. apply Forall_forall. intros z Hz.
    apply (ltb_negtrans z y x); eauto.
  - apply SSorted_cons; [by apply IH|].
    rewrite sort_insert_perm. by apply Forall_cons_iff.
Qed.

Lemma std_sort_sorted l : Forall P l → sorted (std_sort ltb l).
Proof.
  unfold std_sort. intros Hl.
  assert (∀ acc, Forall P acc → sorted acc →
    sorted (foldl (λ acc x, sort_insert ltb x acc) acc l)) as H.
  { induction l as [|x l IH]; intros acc Hacc Hs; cbn; [done|].
    apply Forall_cons_iff in Hl as [Px Hl]. apply IH; [done| |].
    - rewrite sort_insert_perm. by apply Forall_cons_iff.
    - by apply sort_insert_sorted. }
  apply H; constructor.
Qed.
End std_sort.

(** ** Ordered keys: the [operator<] of [std::map] and [std::set] keys *)
Class KeyOrder (K : Type) := {
  key_ltb : K → K → bool;
  key_ltb_irrefl : ∀ a, key_ltb a a = false;
  key_ltb_trans : ∀ a b c, key_ltb a b = true → key_ltb b c = true → key_ltb a c = true;
  key_ltb_total : ∀ a b, key_ltb a b = false → key_ltb b a = false → a = b;
}.

Section key_order.
Context {K} `{KeyOrder K}.

Lemma key_ltb_asym (a b : K) : key_ltb a b = true → key_ltb b a = false.
Proof.
  intros Hab. destruct (key_ltb b a) eqn:Hba; [|done].
  by rewrite <-(key_ltb_irrefl a), (key_ltb_trans a b a).
Qed.

Lemma key_ltb_negtrans (a b c : K) :
  key_ltb a b = false → key_ltb b c = false → key_ltb a c = false.
Proof.
  intros Hab Hbc. destruct (key_ltb a c) eqn:Hac; [|done].
  destruct (key_ltb b a) eqn:Hba.
  - by rewrite <-Hbc, (key_ltb_trans b a c).
  - by rewrite <-Hbc, (key_ltb_total b a).
Qed.

Definition key_lt (a b : K) : Prop := key_ltb a b = true.
#[export] Instance key_lt_dec a b : Decision (key_lt a b).
Proof. unfold key_lt. apply _. Defined.
End key_order.

#[export, program] Instance Z_key_order : KeyOrder Z := {| key_ltb := Z.ltb |}.
Next Obligation. intros. apply Z.ltb_irrefl. Qed.
Next Obligation. intros. bool_hyps. apply Z.ltb_lt. lia. Qed.
Next Obligation. intros. bool_hyps. lia. Qed.

(** [std::string] compares by unsigned character codes, like [String.ltb]. *)
Lemma string_compare_lt_trans (a b c : string) :
  String.compare a b = Lt → String.compare b c = Lt → String.compare a c = Lt.
Proof.
  revert b c. induction a as [|x a IH]; intros [|y b] [|z c]; cbn; try done.
  unfold Ascii.compare.
  destruct (N.compare_spec (Ascii.N_of_ascii x) (Ascii.N_of_ascii y)) as [Hxy|Hxy|Hxy];
    destruct (N.compare_spec (Ascii.N_of_ascii y) (Ascii.N_of_ascii z)) as [Hyz|Hyz|Hyz];
    try done; intros; destruct (N.compare_spec (Ascii.N_of_ascii x) (Ascii.N_of_ascii z));
    try lia; eauto.
Qed.

Lemma string_compare_refl (a : string) : String.compare a a = Eq.
Proof.
  induction a as [|x a IH]; cbn; [done|]. unfold Ascii.compare. by rewrite N.compare_refl.
Qed.

#[export, program] Instance string_key_order : KeyOrder string := {| key_ltb := String.ltb |}.
Next Obligation.
  intros a. unfold String.ltb. rewrite string_compare_refl. done.
Qed.
Next Obligation.
  intros a b c. unfold String.ltb.
  destruct (String.compare a b) eqn:Hab; try done.
  destruct (String.compare b c) eqn:Hbc; try done.
  by rewrite (string_compare_lt_trans a b c).
Qed.
Next Obligation.
  intros a b. unfold String.ltb. rewrite (String.compare_antisym b a).
  destruct (String.compare a b) eqn:Hab; cbn; try done.
  intros _ _. by apply String.compare_eq_iff.
Qed.

(** [std::pair] compares lexicographically. *)
Definition pair_ltb {A B} `{KeyOrder A, KeyOrder B} (x y : A * B) : bool :=
  key_ltb x.1 y.1 || (negb (key_ltb y.1 x.1) && key_ltb x.2 y.2).

#[export, program] Instance pair_key_order {A B} `{KeyOrder A, KeyOrder B} :
  KeyOrder (A * B) := {| key_ltb := pair_ltb |}.
Next Obligation.
  intros A B HA HB [a b]. unfold pair_ltb; cbn. by rewrite !key_ltb_irrefl.
Qed.
Next Obligation.
  intros A B HA HB [a b] [a' b'] [a'' b'']. unfold pair_ltb; cbn. intros H1 H2.
  apply orb_true_iff in H1, H2. rewrite !andb_true_iff, !negb_true_iff in *.
  destruct (key_ltb a a'') eqn:E; [done|].
  assert (key_ltb a a' = false) as E1.
  { destruct H2 as [H2|[H2 _]]; [|by apply (key_ltb_negtrans a a'' a')].
    destruct (key_ltb a a') eqn:E1; [|done].
    by rewrite <-E, (key_ltb_trans a a' a''). }
  destruct H1 as [H1|[H1 Hb]]; [congruence|].
  assert (a = a') as -> by (by apply key_ltb_total). rewrite E in H2.
  destruct H2 as [H2|[H2 Hb']]; [congruence|]. rewrite H2. cbn.
  by apply (key_ltb_trans b b' b'').
Qed.
Next Obligation.
  intros A B HA HB [a b] [a' b']. unfold pair_ltb; cbn. intros H1 H2. bool_hyps.
  assert (a = a') as -> by (by apply key_ltb_total).
  rewrite key_ltb_irrefl in *. cbn in *. f_equal.
  by apply key_ltb_total.
Qed.

(** [std::minmax] on keys and the canonical unordered pair. *)
Definition minmax {K} `{KeyOrder K} (a b : K) : K * K :=
  if key_ltb b a then (b, a) else (a, b).

(** ** Ordered traversal of finite maps and sets

    A [std::map] is a [gmap]; a range-for over it visits [items], the
    bindings in increasing key order.  A [std::set] is a [gset], visited as
    [set_items]. *)
Definition items {K V} `{Countable K, KeyOrder K} (m : gmap K V) : list (K * V) :=
  std_sort (λ a b, key_ltb a.1 b.1) (map_to_list m).
Definition set_items {K} `{Countable K, KeyOrder K} (s : gset K) : list K :=
  std_sort key_ltb (elements s).

Section items.
Context {K V : Type} `{Countable K, !KeyOrder K}.
Implicit Types (m : gmap K V) (s : gset K).

Lemma items_perm m : items m ≡ₚ map_to_list m.
Proof. apply std_sort_perm. Qed.

Lemma elem_of_items m k v : (k, v) ∈ items m ↔ m !! k = Some v.
Proof. by rewrite items_perm, elem_of_map_to_list. Qed.

Lemma NoDup_items_fst m : NoDup (items m).*1.
Proof. rewrite items_perm. apply NoDup_fst_map_to_list. Qed.

Lemma length_items m : length (items m) = size m.
Proof. by rewrite items_perm, length_map_to_list. Qed.

Lemma items_empty : items (∅ : gmap K V) = [].
Proof. unfold items. by rewrite map_to_list_empty. Qed.

Lemma elem_of_set_items s k : k ∈ set_items s ↔ k ∈ s.
Proof. unfold set_items. by rewrite elem_of_std_sort, elem_of_elements. Qed.

Lemma NoDup_set_items s : NoDup (set_items s).
Proof. apply NoDup_std_sort, NoDup_elements. Qed.

Lemma length_set_items s : length (set_items s) = size s.
Proof. unfold set_items. by rewrite length_std_sort. Qed.

(** Sorted without duplicates is strictly increasing. *)
Lemma std_sort_key_sorted (l : list K) :
  StronglySorted (λ x y, key_ltb y x = false) (std_sort key_ltb l).
Proof.
  apply (std_sort_sorted _ (λ _, True)).
  - intros x y _ _. apply key_ltb_asym.
  - intros x y z _ _ _. apply key_ltb_negtrans.
  - by apply Forall_true.
Qed.

Lemma sorted_NoDup_strict (l : list K) :
  NoDup l → StronglySorted (λ x y, key_ltb y x = false) l → StronglySorted key_lt l.
Proof.
  intros Hnd Hs. induction Hs as [|x l Hs IH Hx]; [constructor|].
  apply NoDup_cons in Hnd as [Hxl Hnd]. constructor; [by apply IH|].
  rewrite Forall_forall in *. intros y Hy. unfold key_lt.
  destruct (key_ltb x y) eqn:Hxy; [done|].
  exfalso. apply Hxl. by rewrite (key_ltb_total x y) by auto.
Qed.

Lemma set_items_sorted s : StronglySorted key_lt (set_items s).
Proof.
  apply sorted_NoDup_strict; [apply NoDup_set_items|apply std_sort_key_sorted].
Qed.

Lemma items_sorted m : StronglySorted (λ a b, key_lt a.1 b.1) (items m).
Proof.
  assert (StronglySorted (λ x y : K * V, key_ltb y.1 x.1 = false) (items m)) as Hs.
  { apply (std_sort_sorted _ (λ _, True)).
    - intros x y _ _. apply key_ltb_asym.
    - intros x y z _ _ _. apply key_ltb_negtrans.
    - by apply Forall_true. }
  pose proof (NoDup_items_fst m) as Hnd. revert Hs Hnd. generalize (items m).
  induction l as [|x l IH]; [constructor|]. cbn.
  intros [Hx Hs]%StronglySorted_cons [Hxl Hnd]%NoDup_cons.
  constructor; [by apply IH|]. rewrite Forall_forall in *. intros y Hy. unfold key_lt.
  destruct (key_ltb x.1 y.1) eqn:Hxy; [done|].
  exfalso. apply Hxl. rewrite (key_ltb_total x.1 y.1) by auto.
  by apply list_elem_of_fmap_2.
Qed.

(** Two strictly increasing lists with the same elements are equal. *)
Lemma strict_sorted_unique (l1 l2 : list K) :
  StronglySorted key_lt l1 → StronglySorted key_lt l2 →
  (∀ x, x ∈ l1 ↔ x ∈ l2) → l1 = l2.
Proof.
  intros H1. revert l2. induction H1 as [|x l1 H1 IH Hx]; intros l2 H2 Hin.
  { destruct l2 as [|y l2]; [done|]. specialize (Hin y). set_solver. }
  destruct H2 as [|y l2 H2 Hy]; [specialize (Hin x); set_solver|].
  rewrite Forall_forall in Hx, Hy.
  assert (x = y) as ->.
  { destruct (decide (x = y)) as [|Hne]; [done|].
    assert (x ∈ l2) by (specialize (Hin x); set_solver).
    assert (y ∈ l1) by (specialize (Hin y); set_solver).
    assert (key_lt x y) as Hxy by auto. assert (key_lt y x) as Hyx by auto.
    unfold key_lt in *. apply key_ltb_asym in Hxy. congruence. }
  f_equal. apply IH; [done|]. intros z. specialize (Hin z).
  assert (z ∈ l1 → z ≠ y).
  { intros Hz ->. specialize (Hx y Hz). unfold key_lt in Hx.
    by rewrite key_ltb_irrefl in Hx. }
  assert (z ∈ l2 → z ≠ y).
  { intros Hz ->. specialize (Hy y Hz). unfold key_lt in Hy.
    by rewrite key_ltb_irrefl in Hy. }
  set_solver.
Qed.
End items.
#[export] Hint Rewrite @elem_of_items @elem_of_set_items @elem_of_std_sort
  @length_set_items @length_std_sort using typeclasses eauto : ag_lookup.

(** [std::map::operator[]]: the value, default-constructed when absent.  The
    insertion of the default is written out where it is observable. *)
Definition get_or {K V} `{Countable K} (d : V) (m : gmap K V) (k : K) : V :=
  default d (m !! k).

(** [size_t] and [uint64_t] arithmetic wraps modulo 2^64. *)
Definition u64 (z : Z) : Z := (z `mod` 2 ^ 64)%Z.
Definition u64_sub (a b : Z) : Z := u64 (a - b).

Lemma u64_sub_small a b : (0 ≤ b ≤ a)%Z → (a < 2 ^ 64)%Z → u64_sub a b = (a - b)%Z.
Proof. intros. unfold u64_sub, u64. apply Z.mod_small. lia. Qed.

Lemma u64_range z : (0 ≤ u64 z < 2 ^ 64)%Z.
Proof. apply Z.mod_pos_bound. lia. Qed.

(** Sum of a list of integers (used for counting arguments). *)
Definition Zsize {A} (l : list A) : Z := Z.of_nat (length l).

Lemma Zsize_app {A} (l k : list A) : Zsize (l ++ k) = (Zsize l + Zsize k)%Z.
Proof. unfold Zsize. rewrite length_app. lia. Qed.

(** ** List facts shared by the components *)
Section lists.
Context {A : Type}.

(** [std::unique] + [erase] on a sorted range. *)
Fixpoint unique_adjacent `{EqDecision A} (l : list A) : list A :=
  match l with
  | x :: ((y :: _) as l') =>
      if decide (x = y) then unique_adjacent l' else x :: unique_adjacent l'
  | _ => l
  end.

Lemma unique_adjacent_cons2 `{EqDecision A} x y (l : list A) :
  unique_adjacent (x :: y :: l) =
  if decide (x = y) then unique_adjacent (y :: l) else x :: unique_adjacent (y :: l).
Proof. done. Qed.

Lemma elem_of_unique_adjacent `{EqDecision A} x (l : list A) :
  x ∈ unique_adjacent l ↔ x ∈ l.
Proof.
  induction l as [|y [|z l] IH]; [done|done|]. rewrite unique_adjacent_cons2.
  case_decide as Heq.
  - subst. rewrite IH. set_solver.
  - rewrite !elem_of_cons, IH. set_solver.
Qed.

Lemma sorted_impl (R S : relation A) l :
  (∀ x y, R x y → S x y) → StronglySorted R l → StronglySorted S l.
Proof.
  intros HRS. induction 1 as [|x l Hs IH Hx]; [apply SSorted_nil|].
  apply SSorted_cons; [done|]. eapply Forall_impl; [exact Hx|]. auto.
Qed.

Lemma sorted_filter (R : relation A) (P : A → Prop) `{∀ x, Decision (P x)} l :
  StronglySorted R l → StronglySorted R (filter P l).
Proof.
  induction 1 as [|x l Hs IH Hx]; [apply SSorted_nil|].
  rewrite filter_cons. case_decide; [|done]. apply SSorted_cons; [done|].
  apply Forall_forall. intros y [_ Hy]%list_elem_of_filter. rewrite Forall_forall in Hx. auto.
Qed.

Lemma existsb_elem_of (f : A → bool) l : existsb f l = true ↔ ∃ x, x ∈ l ∧ f x = true.
Proof. rewrite existsb_exists. by setoid_rewrite list_elem_of_In. Qed.

Lemma forallb_elem_of (f : A → bool) l : forallb f l = true ↔ ∀ x, x ∈ l → f x = true.
Proof. rewrite forallb_forall. by setoid_rewrite list_elem_of_In. Qed.
End lists.

Lemma unique_adjacent_strict {K} `{EqDecision K, KeyOrder K} (l : list K) :
  StronglySorted (λ x y, key_ltb y x = false) l → StronglySorted key_lt (unique_adjacent l).
Proof.
  intros Hs. induction Hs as [|x [|y l] Hs IH Hx]; [constructor|repeat constructor|].
  rewrite unique_adjacent_cons2. case_decide as Heq; [done|].
  constructor; [done|]. apply Forall_forall. intros z.
  rewrite elem_of_unique_adjacent. intros Hz. unfold key_lt.
  apply StronglySorted_cons in Hs as [Hy _]. rewrite Forall_forall in Hx, Hy.
  destruct (key_ltb x y) eqn:Hxy.
  - apply elem_of_cons in Hz as [->|Hz]; [done|]. specialize (Hy z Hz).
    destruct (key_ltb x z) eqn:Hxz; [done|].
    by rewrite <-Hxy, (key_ltb_negtrans x z y).
  - exfalso. apply Heq, key_ltb_total; [done|]. apply Hx. by left.
Qed.

Lemma seqZ_sorted (m n : Z) : StronglySorted Z.lt (seqZ m n).
Proof.
  unfold seqZ. generalize 0%nat as i. intros i. revert i.
  induction (Z.to_nat n) as [|k IH]; intros i; cbn; [apply SSorted_nil|].
  apply SSorted_cons; [apply IH|]. apply Forall_forall. intros y.
  rewrite list_elem_of_fmap. intros (j & -> & Hj%elem_of_seq). lia.
Qed.

(** [std::sort] followed by [std::unique]/[erase]. *)
Definition sort_unique {K} `{EqDecision K, KeyOrder K} (l : list K) : list K :=
  unique_adjacent (std_sort key_ltb l).

Lemma elem_of_sort_unique {K} `{Countable K, !KeyOrder K} (l : list K) x :
  x ∈ sort_unique l ↔ x ∈ l.
Proof. unfold sort_unique. by rewrite elem_of_unique_adjacent, elem_of_std_sort. Qed.

Lemma sort_unique_sorted {K} `{Countable K, !KeyOrder K} (l : list K) :
  StronglySorted key_lt (sort_unique l).
Proof. apply unique_adjacent_strict, std_sort_key_sorted. Qed.

(** ** Grouping: [m[k].push_back(x)] *)
Definition push_back {K A} `{Countable K} (k : K) (x : A) (m : gmap K (list A)) : gmap K (list A) :=
  <[k := get_or [] m k ++ [x]]> m.

Lemma get_or_push_back {K A} `{Countable K} (k k' : K) (x : A) m :
  get_or [] (push_back k x m) k' =
  if decide (k' = k) then get_or [] m k ++ [x] else get_or [] m k'.
Proof.
  unfold push_back, get_or. case_decide; simplify_eq.
  - by rewrite lookup_insert_eq.
  - by rewrite lookup_insert_ne.
Qed.

Lemma foldl_union_elem {A} `{Countable A} {B} (f : B → gset A) (l : list B) s x :
  x ∈ foldl (λ acc b, f b ∪ acc) s l ↔ x ∈ s ∨ ∃ b, b ∈ l ∧ x ∈ f b.
Proof.
  revert s. induction l as [|b l IH]; intros s; cbn; [set_solver|]. rewrite IH. set_solver.
Qed.

Lemma sorted_take_drop {A} (R : relation A) k l x y :
  StronglySorted R l → x ∈ take k l → y ∈ drop k l → R x y.
Proof.
  revert k. induction l as [|z l IH]; intros [|k]; cbn; try (intros; set_solver).
  intros [Hz Hs]%StronglySorted_cons. rewrite Forall_forall in Hz.
  intros [->|Hx]%elem_of_cons Hy.
  - apply Hz. by eapply subseteq_drop.
  - by apply (IH k).
Qed.
