(* ===== verification/Binary64.v ===== *)
(** * [double]: IEEE 754 binary64 arithmetic

    The runtime computes demands, relation scores and capacities in C++
    [double].  They are modelled bit for bit by the Standard Library's
    executable specification of IEEE 754 ([SpecFloat]) at 53 bits of precision
    and exponent bound 1024: every operation rounds to nearest even, infinities
    and NaN are values, and comparisons with NaN are false.  This file fixes the
    operators, the literals and the order facts the components use: away from
    NaN the comparisons form a total preorder, and non-negative numbers are
    closed under addition and under division by a positive number. *)
From Stdlib Require Import SpecFloat.
From S2P Require Import Prelude.

Abbreviation double := spec_float (only parsing).

Declare Scope double_scope.
Delimit Scope double_scope with D.
Bind Scope double_scope with spec_float.
Local Open Scope double_scope.

#[export] Instance double_eq_dec : EqDecision spec_float.
Proof. solve_decision. Defined.

Definition dadd (x y : double) : double := SFadd 53 1024 x y.
Definition dsub (x y : double) : double := SFsub 53 1024 x y.
Definition dmul (x y : double) : double := SFmul 53 1024 x y.
Definition ddiv (x y : double) : double := SFdiv 53 1024 x y.
Definition dsqrt (x : double) : double := SFsqrt 53 1024 x.
Definition dabs (x : double) : double := SFabs x.
Definition dltb (x y : double) : bool := SFltb x y.
Definition dleb (x y : double) : bool := SFleb x y.
Definition deqb (x y : double) : bool := SFeqb x y.

Infix "+" := dadd : double_scope.
Infix "-" := dsub : double_scope.
Infix "*" := dmul : double_scope.
Infix "/" := ddiv : double_scope.
Infix "<?" := dltb : double_scope.
Infix "<=?" := dleb : double_scope.
Infix "=?" := deqb : double_scope.

(** [static_cast<double>] of an integer. *)
Definition double_of_Z (z : Z) : double := binary_normalize 53 1024 z 0 false.
Definition double_of_nat (n : nat) : double := double_of_Z (Z.of_nat n).

(** The literal [n / d]: exact operands, one correctly rounded division, hence
    the double nearest to the decimal constant of the source. *)
Definition dlit (n d : Z) : double := ddiv (double_of_Z n) (double_of_Z d).

Definition d0 : double := S754_zero false.
Definition d1 : double := Eval vm_compute in double_of_Z 1.
Definition dinf : double := S754_infinity false.
(** 1e-12, the tolerance used by the solvers. *)
Definition d1em12 : double := Eval vm_compute in dlit 1 (10 ^ 12).
Definition d1em9 : double := Eval vm_compute in dlit 1 (10 ^ 9).
Definition d1e6 : double := Eval vm_compute in double_of_Z (10 ^ 6).
Definition d1e12 : double := Eval vm_compute in double_of_Z (10 ^ 12).
Definition d1e30 : double := Eval vm_compute in double_of_Z (10 ^ 30).

(** [std::min], [std::max], [std::clamp]. *)
Definition dmin (x y : double) : double := if y <? x then y else x.
Definition dmax (x y : double) : double := if x <? y then y else x.
Definition dclamp (v lo hi : double) : double :=
  if v <? lo then lo else if hi <? v then hi else v.

(** [std::isfinite] *)
Definition disfinite (x : double) : bool :=
  match x with S754_zero _ | S754_finite _ _ _ => true | _ => false end.

(** [static_cast<int>(std::floor(x))] and [std::ceil]; a NaN or an infinity
    has no integer value (undefined in C++) and is mapped to 0. *)
Definition dfloor_Z (x : double) : Z :=
  match x with
  | S754_finite s m e =>
      let z := if s then Z.neg m else Z.pos m in
      if (0 <=? e)%Z then Z.shiftl z e else (z `div` 2 ^ (- e))%Z
  | _ => 0%Z
  end.
Definition dceil_Z (x : double) : Z :=
  match x with
  | S754_finite s m e =>
      let z := if s then Z.neg m else Z.pos m in
      if (0 <=? e)%Z then Z.shiftl z e else (- ((- z) `div` 2 ^ (- e)))%Z
  | _ => 0%Z
  end.

(** ** Order away from NaN *)
Definition not_nan (x : double) : Prop := x ≠ S754_nan.

#[export] Instance not_nan_dec x : Decision (not_nan x).
Proof. unfold not_nan. apply _. Defined.

Lemma pos_compare_cont_Eq p q : Pos.compare_cont Eq p q = Pos.compare p q.
Proof. done. Qed.

(** [drank] places every non-NaN double on a lexicographic scale: class
    (negative infinity, negative, zero, positive, infinity), then exponent,
    then mantissa. *)
Definition drank (x : double) : Z * (Z * Z) :=
  match x with
  | S754_infinity true => (-2, (0, 0))%Z
  | S754_finite true m e => (-1, (- e, Z.neg m))%Z
  | S754_zero _ => (0, (0, 0))%Z
  | S754_finite false m e => (1, (e, Z.pos m))%Z
  | S754_infinity false => (2, (0, 0))%Z
  | S754_nan => (0, (0, 0))%Z
  end.

Lemma dltb_drank x y :
  not_nan x → not_nan y → dltb x y = key_ltb (drank x) (drank y).
Proof.
  unfold not_nan, dltb, SFltb. intros Hx Hy.
  destruct x as [[]|[]| |[] m e], y as [[]|[]| |[] m' e']; try done; cbn;
    unfold pair_ltb; cbn; unfold pair_ltb; cbn; rewrite ?pos_compare_cont_Eq;
    try (destruct (Z.compare_spec e e'); subst; destruct (Pos.compare_spec m m'); subst);
    repeat match goal with
    | |- context [(?a <? ?b)%Z] => destruct (Z.ltb_spec a b)
    end; cbn; try done; lia.
Qed.

Lemma dleb_drank x y :
  not_nan x → not_nan y → dleb x y = negb (key_ltb (drank y) (drank x)).
Proof.
  unfold not_nan, dleb, SFleb. intros Hx Hy.
  destruct x as [[]|[]| |[] m e], y as [[]|[]| |[] m' e']; try done; cbn;
    unfold pair_ltb; cbn; unfold pair_ltb; cbn; rewrite ?pos_compare_cont_Eq;
    try (destruct (Z.compare_spec e e'); subst; destruct (Pos.compare_spec m m'); subst);
    repeat match goal with
    | |- context [(?a <? ?b)%Z] => destruct (Z.ltb_spec a b)
    end; cbn; try done; lia.
Qed.

Lemma deqb_drank x y :
  not_nan x → not_nan y → deqb x y = true ↔ drank x = drank y.
Proof.
  unfold not_nan, deqb, SFeqb. intros Hx Hy.
  destruct x as [[]|[]| |[] m e], y as [[]|[]| |[] m' e']; try done; cbn;
    rewrite ?pos_compare_cont_Eq;
    try (destruct (Z.compare_spec e e'); subst; destruct (Pos.compare_spec m m'); subst);
    cbn; split; intros; simplify_eq; try done; lia.
Qed.

Lemma dltb_not_nan x y : dltb x y = true → not_nan x ∧ not_nan y.
Proof. destruct x, y; try done; by split. Qed.
Lemma dleb_not_nan x y : dleb x y = true → not_nan x ∧ not_nan y.
Proof. destruct x, y; try done; by split. Qed.
Lemma deqb_not_nan x y : deqb x y = true → not_nan x ∧ not_nan y.
Proof. destruct x, y; try done; by split. Qed.

Section order.
Context (x y z : double).

Lemma dltb_irrefl : dltb x x = false.
Proof.
  destruct (decide (not_nan x)) as [Hx|Hx].
  - rewrite dltb_drank by done. apply key_ltb_irrefl.
  - unfold not_nan in Hx. destruct (decide (x = S754_nan)) as [->|]; done.
Qed.

Lemma dltb_trans : dltb x y = true → dltb y z = true → dltb x z = true.
Proof.
  intros H1 H2. pose proof (dltb_not_nan _ _ H1). pose proof (dltb_not_nan _ _ H2).
  destruct_and!. rewrite dltb_drank in * by done. eauto using key_ltb_trans.
Qed.

Lemma dltb_asym : dltb x y = true → dltb y x = false.
Proof.
  intros H1. pose proof (dltb_not_nan _ _ H1). destruct_and!.
  rewrite dltb_drank in * by done. by apply key_ltb_asym.
Qed.

Lemma dltb_negtrans :
  not_nan x → not_nan y → not_nan z →
  dltb x y = false → dltb y z = false → dltb x z = false.
Proof.
  intros ???. rewrite !dltb_drank by done. apply key_ltb_negtrans.
Qed.

Lemma dleb_dltb : not_nan x → not_nan y → dleb x y = negb (dltb y x).
Proof. intros. by rewrite dleb_drank, dltb_drank. Qed.

Lemma dltb_eqb_total :
  not_nan x → not_nan y → dltb x y = false → dltb y x = false → deqb x y = true.
Proof.
  intros ??. rewrite !dltb_drank, deqb_drank by done. apply key_ltb_total.
Qed.

Lemma deqb_dltb_l : deqb x y = true → dltb x z = dltb y z.
Proof.
  intros H. pose proof (deqb_not_nan _ _ H) as [Hx Hy].
  destruct (decide (not_nan z)) as [Hz|Hz].
  - rewrite deqb_drank in H by done. by rewrite !dltb_drank, H by done.
  - assert (z = S754_nan) as -> by (unfold not_nan in Hz; by destruct (decide (z = S754_nan))).
    clear. by destruct x, y.
Qed.

Lemma deqb_refl : not_nan x → deqb x x = true.
Proof. intros. by apply deqb_drank. Qed.

Lemma dltb_deqb_false : dltb x y = true → deqb x y = false.
Proof.
  intros H. pose proof (dltb_not_nan _ _ H) as [? ?].
  apply not_true_iff_false. rewrite deqb_drank by done. intros E.
  rewrite dltb_drank, E, key_ltb_irrefl in H by done. done.
Qed.

Lemma deqb_sym : deqb x y = deqb y x.
Proof.
  destruct (deqb x y) eqn:E, (deqb y x) eqn:E'; try done.
  - pose proof (deqb_not_nan _ _ E) as [? ?]. rewrite <-E'. symmetry.
    rewrite deqb_drank in * by done. done.
  - pose proof (deqb_not_nan _ _ E') as [? ?]. rewrite <-E.
    rewrite deqb_drank in * by done. done.
Qed.
End order.

(** ** Non-negative doubles *)
Definition dnonneg (x : double) : bool :=
  match x with
  | S754_zero _ | S754_infinity false | S754_finite false _ _ => true
  | _ => false
  end.

Lemma dnonneg_dleb x : dnonneg x = dleb d0 x.
Proof. by destruct x as [[]|[]| |[]]. Qed.

Lemma dnonneg_not_nan x : dnonneg x = true → not_nan x.
Proof. by destruct x as [[]|[]| |[]]. Qed.

Section rounding.
Local Open Scope Z_scope.

Lemma shr_1_nonneg mrs : 0 ≤ shr_m mrs → 0 ≤ shr_m (shr_1 mrs).
Proof. destruct mrs as [[|[p|p|]|p] r s]; cbn; lia. Qed.

Lemma iter_pos_nonneg p mrs : 0 ≤ shr_m mrs → 0 ≤ shr_m (SpecFloat.iter_pos shr_1 p mrs).
Proof. revert mrs. induction p; cbn; intros; auto using shr_1_nonneg. Qed.

Lemma shr_fexp_nonneg m e l : 0 ≤ m → 0 ≤ shr_m (shr_fexp 53 1024 m e l).1.
Proof.
  intros Hm. unfold shr_fexp, shr.
  assert (0 ≤ shr_m (shr_record_of_loc m l)) by (destruct l as [|[]]; done).
  destruct (_ - e)%Z; cbn; auto using iter_pos_nonneg.
Qed.

Lemma round_nearest_even_nonneg m l : 0 ≤ m → 0 ≤ round_nearest_even m l.
Proof. destruct l as [|[]]; cbn; try destruct (Z.even m); lia. Qed.

(** Rounding a non-negative mantissa keeps the sign it is given. *)
Lemma binary_round_aux_nonneg m e l :
  0 ≤ m → dnonneg (binary_round_aux 53 1024 false m e l) = true.
Proof.
  intros Hm. unfold binary_round_aux.
  destruct (shr_fexp 53 1024 m e l) as [mrs' e'] eqn:E1.
  assert (0 ≤ shr_m mrs') as H1
    by (pose proof (shr_fexp_nonneg m e l Hm) as H; by rewrite E1 in H).
  destruct (shr_fexp _ _ (round_nearest_even _ _) e' _) as [mrs'' e''] eqn:E2.
  assert (0 ≤ shr_m mrs'') as H2.
  { pose proof (shr_fexp_nonneg (round_nearest_even (shr_m mrs') (loc_of_shr_record mrs'))
      e' loc_Exact) as H. rewrite E2 in H. apply H. by apply round_nearest_even_nonneg. }
  destruct (shr_m mrs''); cbn; [done| |lia]. by destruct (_ <=? _)%Z.
Qed.

Lemma binary_round_nonneg m e : dnonneg (binary_round 53 1024 false m e) = true.
Proof. unfold binary_round. destruct (shl_align _ _ _). by apply binary_round_aux_nonneg. Qed.

Lemma binary_normalize_nonneg m e :
  0 ≤ m → dnonneg (binary_normalize 53 1024 m e false) = true.
Proof. destruct m; cbn; [done| |lia]. intros _. apply binary_round_nonneg. Qed.
End rounding.

Lemma double_of_Z_nonneg z : (0 ≤ z)%Z → dnonneg (double_of_Z z) = true.
Proof. apply binary_normalize_nonneg. Qed.

Lemma double_of_nat_nonneg n : dnonneg (double_of_nat n) = true.
Proof. apply double_of_Z_nonneg. lia. Qed.

Lemma dadd_nonneg x y : dnonneg x = true → dnonneg y = true → dnonneg (x + y) = true.
Proof.
  unfold dadd. destruct x as [[]|[]| |[] m e], y as [[]|[]| |[] m' e']; cbn; try done.
  intros _ _. by apply binary_round_nonneg.
Qed.

Lemma dmul_nonneg x y :
  dnonneg x = true → dnonneg y = true → disfinite x = true → disfinite y = true →
  dnonneg (x * y) = true.
Proof.
  unfold dmul. destruct x as [[]|[]| |[] m e], y as [[]|[]| |[] m' e']; cbn; try done.
  intros _ _ _ _. by apply binary_round_aux_nonneg.
Qed.

Lemma ddiv_core_nonneg m e m' e' :
  (0 ≤ (SFdiv_core_binary 53 1024 (Z.pos m) e (Z.pos m') e').1.1)%Z.
Proof.
  unfold SFdiv_core_binary. cbv zeta.
  set (s := (e - e' - Z.min _ _)%Z). destruct (Z.div_eucl _ _) as [q r] eqn:E. cbn.
  pose proof (Z_div_mod (match s with Z0 => Z.pos m | Z.pos _ => Z.shiftl (Z.pos m) s
    | Z.neg _ => 0%Z end) (Z.pos m') ltac:(lia)) as H. rewrite E in H.
  assert (0 ≤ match s with Z0 => Z.pos m | Z.pos _ => Z.shiftl (Z.pos m) s
    | Z.neg _ => 0%Z end)%Z as H0.
  { destruct s; [lia| |lia]. apply Z.shiftl_nonneg. lia. }
  destruct H as [H ?]. nia.
Qed.

(** Division of a non-negative number by a positive one. *)
Lemma ddiv_nonneg x y :
  dnonneg x = true → (d0 <? y) = true → disfinite x = true → dnonneg (x / y) = true.
Proof.
  unfold ddiv. destruct x as [[]|[]| |[] m e], y as [[]|[]| |[] m' e']; cbn; try done.
  intros _ _ _.
  pose proof (ddiv_core_nonneg m e m' e') as H.
  destruct (SFdiv_core_binary _ _ _ _ _ _) as [[q e''] l]. by apply binary_round_aux_nonneg.
Qed.

Lemma dmax_cases x y : dmax x y = x ∨ dmax x y = y.
Proof. unfold dmax. destruct (_ <? _); auto. Qed.
Lemma dmin_cases x y : dmin x y = x ∨ dmin x y = y.
Proof. unfold dmin. destruct (_ <? _); auto. Qed.

Lemma dmax_0_nonneg x : dnonneg (dmax d0 x) = true.
Proof. by destruct x as [[]|[]| |[]]. Qed.

Lemma dmax_not_nan x y : not_nan x → not_nan y → not_nan (dmax x y).
Proof. intros. by destruct (dmax_cases x y) as [->| ->]. Qed.

Lemma dmax_l x y : not_nan x → not_nan y → dltb (dmax x y) x = false.
Proof.
  intros. unfold dmax. destruct (dltb x y) eqn:E; [by apply dltb_asym|apply dltb_irrefl].
Qed.
Lemma dmax_r x y : not_nan x → not_nan y → dltb (dmax x y) y = false.
Proof. intros. unfold dmax. destruct (dltb x y) eqn:E; [apply dltb_irrefl|done]. Qed.

Lemma dclamp_range v lo hi :
  not_nan v → not_nan lo → not_nan hi → dltb hi lo = false →
  dltb (dclamp v lo hi) lo = false ∧ dltb hi (dclamp v lo hi) = false.
Proof.
  intros Hv Hlo Hhi Hle. unfold dclamp.
  destruct (dltb v lo) eqn:E1; [by rewrite dltb_irrefl|].
  destruct (dltb hi v) eqn:E2; [by rewrite dltb_irrefl|]. done.
Qed.

(** ** [std::tuple] comparison

    [operator<=>] of a tuple compares the components in order and returns the
    first result that is not "equivalent"; a comparison with NaN is unordered
    and makes both [<] and [>] false.  [None] is [unordered]. *)
Definition ord : Type := option comparison.

Definition dcmp (x y : double) : ord := SFcompare x y.
Definition zcmp (x y : Z) : ord := Some (x ?= y)%Z.
Definition bcmp (x y : bool) : ord := Some (Bool.compare x y).
Definition kcmp {K} `{KeyOrder K} (x y : K) : ord :=
  Some (if key_ltb x y then Lt else if key_ltb y x then Gt else Eq).

Fixpoint lex (l : list ord) : ord :=
  match l with
  | [] => Some Eq
  | Some Eq :: l' => lex l'
  | c :: _ => c
  end.
Definition tuple_lt (l : list ord) : bool := match lex l with Some Lt => true | _ => false end.
Definition tuple_gt (l : list ord) : bool := match lex l with Some Gt => true | _ => false end.

Lemma tuple_lt_cons c l :
  tuple_lt (c :: l) = true ↔ c = Some Lt ∨ (c = Some Eq ∧ tuple_lt l = true).
Proof. unfold tuple_lt. destruct c as [[]|]; cbn; naive_solver. Qed.
Lemma tuple_gt_cons c l :
  tuple_gt (c :: l) = true ↔ c = Some Gt ∨ (c = Some Eq ∧ tuple_gt l = true).
Proof. unfold tuple_gt. destruct c as [[]|]; cbn; naive_solver. Qed.

(** [std::min_element] with the comparator [ltb]: the first element no later
    one is below. *)
Definition min_from {A} (ltb : A → A → bool) (best : A) (l : list A) : A :=
  foldl (λ best x, if ltb x best then x else best) best l.
Definition min_element {A} (ltb : A → A → bool) (l : list A) : option A :=
  match l with [] => None | x :: l' => Some (min_from ltb x l') end.

Lemma min_from_elem {A} (ltb : A → A → bool) best l : min_from ltb best l ∈ best :: l.
Proof.
  unfold min_from. revert best. induction l as [|x l IH]; intros best; cbn; [by left|].
  specialize (IH (if ltb x best then x else best)). destruct (ltb x best); set_solver.
Qed.
Lemma min_element_elem {A} (ltb : A → A → bool) l x : min_element ltb l = Some x → x ∈ l.
Proof. destruct l as [|y l]; [done|]. intros [= <-]. apply min_from_elem. Qed.
Lemma min_element_Some {A} (ltb : A → A → bool) l : l ≠ [] → is_Some (min_element ltb l).
Proof. destruct l; [done|]. by eexists. Qed.

(** ** Heaviest first, ties by key: the comparator of both edge selections *)
Definition heavy_ltb {K} `{KeyOrder K} (w : double) (k : K) (w' : double) (k' : K) : bool :=
  if negb (w =? w') then w' <? w else key_ltb k k'.

Section heavy.
Context {K : Type} `{KeyOrder K}.
Implicit Types k : K.

Lemma heavy_ltb_rank w k w' k' :
  not_nan w → not_nan w' →
  heavy_ltb w k w' k' =
  if decide (drank w = drank w') then key_ltb k k' else key_ltb (drank w') (drank w).
Proof.
  intros Hl Hr. unfold heavy_ltb. rewrite dltb_drank by done.
  destruct (w =? w')%D eqn:E; case_decide as Hd; cbn; try done.
  - by apply deqb_drank in E.
  - by rewrite (proj2 (deqb_drank _ _ Hl Hr) Hd) in E.
Qed.

Lemma heavy_ltb_asym w k w' k' :
  not_nan w → not_nan w' → heavy_ltb w k w' k' = true → heavy_ltb w' k' w k = false.
Proof.
  intros Hl Hr. rewrite !heavy_ltb_rank by done.
  repeat case_decide; try congruence; apply key_ltb_asym.
Qed.

Lemma heavy_ltb_negtrans w k w' k' w'' k'' :
  not_nan w → not_nan w' → not_nan w'' →
  heavy_ltb w k w' k' = false → heavy_ltb w' k' w'' k'' = false → heavy_ltb w k w'' k'' = false.
Proof.
  intros Ha Hb Hc. rewrite !heavy_ltb_rank by done.
  repeat case_decide; try congruence; intros F1 F2.
  - by eapply key_ltb_negtrans.
  - exfalso. assert (drank w' = drank w) by (apply key_ltb_total; congruence). congruence.
  - by eapply key_ltb_negtrans.
Qed.
End heavy.
