(* ===== verification/Core.v ===== *)
(** * Shared data model ([include/affinitygraph/core.hpp])

    The value types that cross component boundaries: CPUs and the hardware
    graph, thread identities, samples and demands, relation observations and
    edges, and the placement deltas handed to the actuator.  Integers of the
    source ([int], [size_t], [uint64_t], [uintptr_t]) are [Z]; [double] is the
    IEEE binary64 of [Binary64]; [std::map] is [gmap], visited in key order by
    [items]. *)
From S2P Require Import Prelude Binary64.

(** [struct Cpu] *)
Record Cpu := mk_Cpu { cpu_id : Z; cpu_node_id : Z; cpu_online : bool }.

#[export] Instance Cpu_eq_dec : EqDecision Cpu.
Proof. solve_decision. Defined.

(** [struct NodeCalibration] *)
Record NodeCalibration := mk_NodeCalibration {
  handoff_mean_ns : double;
  handoff_p95_ns : double;
  memory_load_mean_ns : double;
  memory_load_cv : double;
  stream_2t_triad_mbps : double;
  stream_32t_triad_mbps : double;
}.

(** [struct HardwareGraph] *)
Record HardwareGraph := mk_HardwareGraph {
  hw_cpus : list Cpu;
  cpu_latency : gmap (Z * Z) double;
  node_distance : gmap (Z * Z) double;
  node_calibration : gmap (Z * Z) NodeCalibration;
}.

(** [struct ThreadIdentity] with its [operator==] and [operator<]. *)
Record ThreadIdentity := mk_ThreadIdentity { tgid : Z; tid : Z; starttime : Z }.

Definition identity_tie (i : ThreadIdentity) : Z * (Z * Z) := (tgid i, (tid i, starttime i)).

#[export] Instance ThreadIdentity_eq_dec : EqDecision ThreadIdentity.
Proof. solve_decision. Defined.
#[export, program] Instance ThreadIdentity_countable : Countable ThreadIdentity :=
  inj_countable' identity_tie (λ '(a, (b, c)), mk_ThreadIdentity a b c) _.
Next Obligation. by intros []. Qed.
#[export, program] Instance ThreadIdentity_key_order : KeyOrder ThreadIdentity :=
  {| key_ltb a b := key_ltb (identity_tie a) (identity_tie b) |}.
Next Obligation. intros. apply key_ltb_irrefl. Qed.
Next Obligation. intros a b c. apply key_ltb_trans. Qed.
Next Obligation.
  intros [] [] H1 H2. pose proof (key_ltb_total _ _ H1 H2) as [= -> -> ->]. done.
Qed.

(** [struct ThreadSample] *)
Record ThreadSample := mk_ThreadSample {
  ts_identity : ThreadIdentity;
  ts_timestamp_ns : Z;
  ts_runtime_ns : Z;
  ts_runqueue_ns : Z;
  ts_voluntary_switches : Z;
  ts_involuntary_switches : Z;
  ts_recent_cpu : Z;
  ts_state : Ascii.ascii;
  ts_comm : string;
  ts_cgroups : list string;
  ts_allowed_cpus : list Z;
  ts_parent_tid : Z;
  ts_start_routine : Z;
  ts_start_symbol : string;
}.

(** [struct RelationObservation] *)
Record RelationObservation := mk_RelationObservation {
  ro_from_tid : Z;
  ro_to_tid : Z;
  ro_from_starttime : Z;
  ro_to_starttime : Z;
  ro_timestamp_ns : Z;
  ro_futex_per_second : double;
  ro_shared_vfs_seconds : double;
  ro_active_overlap : double;
}.

(** [struct ThreadDemand] *)
Record ThreadDemand := mk_ThreadDemand {
  td_identity : ThreadIdentity;
  td_group : string;
  td_demand : double;
  td_confidence : double;
  td_current_cpu : Z;
}.

(** [thread.identity.tid] *)
Definition td_tid (t : ThreadDemand) : Z := tid (td_identity t).

(** [struct ThreadWindowRecord] *)
Record ThreadWindowRecord := mk_ThreadWindowRecord {
  twr_identity : ThreadIdentity;
  twr_comm : string;
  twr_parent_tid : Z;
  twr_start_routine : Z;
  twr_start_symbol : string;
  twr_group : string;
  twr_demand : double;
  twr_confidence : double;
  twr_current_cpu : Z;
  twr_allowed_cpus : list Z;
  twr_state : Ascii.ascii;
  twr_sample_count : Z;
  twr_runtime_delta_ns : Z;
  twr_runqueue_delta_ns : Z;
  twr_voluntary_switches_delta : Z;
  twr_involuntary_switches_delta : Z;
}.

(** [struct RelationEdge] *)
Record RelationEdge := mk_RelationEdge {
  re_from_tid : Z;
  re_to_tid : Z;
  re_activity : double;
  re_sync : double;
  re_share : double;
  re_stability : double;
  re_score : double;
  re_handoff_rate : double;
  re_shared_vfs_seconds : double;
  re_active_overlap : double;
  re_observation_count : Z;
  re_coverage : double;
  re_coefficient_of_variation : double;
}.

(** [edge.score = w] *)
Definition re_with_score (e : RelationEdge) (w : double) : RelationEdge :=
  mk_RelationEdge (re_from_tid e) (re_to_tid e) (re_activity e) (re_sync e)
    (re_share e) (re_stability e) w (re_handoff_rate e) (re_shared_vfs_seconds e)
    (re_active_overlap e) (re_observation_count e) (re_coverage e)
    (re_coefficient_of_variation e).

#[export] Instance ThreadDemand_eq_dec : EqDecision ThreadDemand.
Proof. solve_decision. Defined.
#[export] Instance RelationEdge_eq_dec : EqDecision RelationEdge.
Proof. solve_decision. Defined.

(** [edge_key] of [graph.cpp] and [solver.cpp]: the unordered TID pair. *)
Definition edge_key (a b : Z) : Z * Z := (Z.min a b, Z.max a b).

Lemma edge_key_comm a b : edge_key a b = edge_key b a.
Proof. unfold edge_key. f_equal; lia. Qed.

(** [edge_key] of an edge. *)
Definition re_key (e : RelationEdge) : Z * Z := edge_key (re_from_tid e) (re_to_tid e).

(** [struct GraphDelta] *)
Record GraphDelta := mk_GraphDelta {
  upsert_threads : list ThreadDemand;
  removed_threads : list ThreadIdentity;
  upsert_edges : list RelationEdge;
  removed_edges : list (Z * Z);
}.

(** [GraphDelta::dirty_tids] *)
Definition dirty_tids (d : GraphDelta) : gset Z :=
  let r0 : gset Z := foldl (λ s t, {[td_tid t]} ∪ s) ∅ (upsert_threads d) in
  let r1 := foldl (λ s (t : ThreadIdentity), {[tid t]} ∪ s) r0 (removed_threads d) in
  let r2 := foldl (λ s e, {[re_to_tid e]} ∪ ({[re_from_tid e]} ∪ s)) r1 (upsert_edges d) in
  foldl (λ s (e : Z * Z), {[e.2]} ∪ ({[e.1]} ∪ s)) r2 (removed_edges d).

(** [struct Placement] (the solver's full assignment, as the actuator sees it) *)
Record Placement := mk_Placement {
  pl_tid_to_cpu : gmap Z Z;
  pl_overload : double;
  pl_relation_cost : double;
  pl_migration_cost : double;
  pl_same_cpu_edge_weight : double;
}.

(** [struct PlacementDelta] *)
Record PlacementDelta := mk_PlacementDelta {
  tid_to_cpu : gmap Z Z;
  tid_to_mask : gmap Z (list Z);
}.
