(* ===== verification/CpuList.v ===== *)
(** * CPU lists ([src/config.cpp]: [trim], [parse_cpu_list], [format_cpu_list])

    The textual CPU-list notation ["0-3,8,10-11"] used in the configuration,
    in thread profiles and in [/proc/<pid>/status].  Text is handled as a list
    of characters; [std::stoi] and [std::getline] are modelled with the parts
    of their behaviour the parser relies on (leading blanks and sign, trailing
    garbage ignored, no final empty field). *)
From Stdlib Require Import Ascii.
From S2P Require Import Prelude.
Local Open Scope Z_scope.

(** ** Characters *)
Definition code (c : ascii) : Z := Z.of_N (N_of_ascii c).

(** [std::isspace] in the C locale. *)
Definition isspace (c : ascii) : bool :=
  (code c =? 32) || ((9 <=? code c) && (code c <=? 13)).
Definition isdigit (c : ascii) : bool := (48 <=? code c) && (code c <=? 57).
Definition digit_val (c : ascii) : Z := code c - 48.

Definition chars (s : string) : list ascii := String.list_ascii_of_string s.
Definition text (l : list ascii) : string := String.string_of_list_ascii l.

Fixpoint drop_spaces (l : list ascii) : list ascii :=
  match l with
  | c :: l' => if isspace c then drop_spaces l' else l
  | [] => []
  end.

(** [trim]: erase leading, then trailing blanks. *)
Definition trim (l : list ascii) : list ascii :=
  rev (drop_spaces (rev (drop_spaces l))).

(** [std::string::find(c)] together with the two [substr] around it. *)
Fixpoint split_first (c : ascii) (l : list ascii) : option (list ascii * list ascii) :=
  match l with
  | [] => None
  | x :: l' =>
      if bool_decide (x = c) then Some ([], l')
      else match split_first c l' with
           | Some (a, b) => Some (x :: a, b)
           | None => None
           end
  end.

(** Repeated [std::getline(input, part, sep)] on a string stream. *)
Fixpoint getlines_aux (sep : ascii) (cur : list ascii) (l : list ascii) : list (list ascii) :=
  match l with
  | [] => match cur with [] => [] | _ => [rev cur] end
  | x :: l' =>
      if bool_decide (x = sep) then rev cur :: getlines_aux sep [] l'
      else getlines_aux sep (x :: cur) l'
  end.
Definition getlines (sep : ascii) (l : list ascii) : list (list ascii) := getlines_aux sep [] l.

(** ** [std::stoi] *)
Fixpoint digits_value (acc : Z) (l : list ascii) : Z :=
  match l with
  | c :: l' => if isdigit c then digits_value (acc * 10 + digit_val c) l' else acc
  | [] => acc
  end.

Definition starts_with_digit (l : list ascii) : bool :=
  match l with c :: _ => isdigit c | [] => false end.

Definition stoi (l : list ascii) : result Z :=
  let l := drop_spaces l in
  let '(neg, body) :=
    match l with
    | c :: l' => if bool_decide (c = "-"%char) then (true, l')
                 else if bool_decide (c = "+"%char) then (false, l') else (false, l)
    | [] => (false, l)
    end in
  if negb (starts_with_digit body) then Throw (invalid_argument "stoi") else
  let v := digits_value 0 body in
  let v := if neg then - v else v in
  if (v <? - 2 ^ 31) || (2 ^ 31 - 1 <? v) then Throw (out_of_range "stoi") else Ok v.

(** ** [operator<<(int)] and [std::to_string] of a non-negative integer *)
Definition digit_char (d : Z) : ascii := ascii_of_N (Z.to_N (48 + d)).

Fixpoint dec_digits (fuel : nat) (n : Z) (acc : list ascii) : list ascii :=
  match fuel with
  | O => acc
  | S f => let acc' := digit_char (n `mod` 10) :: acc in
           if n `div` 10 =? 0 then acc' else dec_digits f (n `div` 10) acc'
  end.

(** The number of binary digits bounds the number of decimal ones. *)
Definition print_nonneg (n : Z) : list ascii := dec_digits (Z.to_nat (Z.log2 n) + 1) n [].

Definition print_int (n : Z) : list ascii :=
  if n <? 0 then "-"%char :: print_nonneg (- n) else print_nonneg n.

(** ** [parse_cpu_list] *)
Definition max_cpu : Z := 1048575.

(** The loop body: one comma-separated element added to the set. *)
Definition parse_cpu_part (acc : gset Z) (part : list ascii) : result (gset Z) :=
  let part := trim part in
  if bool_decide (part = []) then Throw (runtime_error "empty CPU-list element") else
  let '(lo, hi) :=
    match split_first "-"%char part with Some (a, b) => (a, Some b) | None => (part, None) end in
  first ← stoi lo;
  last ← match hi with None => Ok first | Some r => stoi r end;
  if (first <? 0) || (last <? first) || (max_cpu <? last)
  then Throw (runtime_error ("invalid CPU range: " +:+ text part))
  else Ok (list_to_set (seqZ first (last - first + 1)) ∪ acc).

Definition parse_cpu_list (s : string) : result (list Z) :=
  r ← foldlM parse_cpu_part ∅ (getlines ","%char (chars s));
  if bool_decide (r = ∅) then Throw (runtime_error "CPU envelope must not be empty")
  else Ok (set_items r).

(** ** [format_cpu_list] *)

(** The inner [while]: the last CPU of the run starting at [x], and what follows. *)
Fixpoint run_end (x : Z) (l : list Z) : Z * list Z :=
  match l with
  | y :: l' => if y =? x + 1 then run_end y l' else (x, l)
  | [] => (x, [])
  end.

(** The outer [for]; each round consumes at least one CPU, so the length of
    the list is enough fuel. *)
Fixpoint cpu_runs (fuel : nat) (l : list Z) : list (Z * Z) :=
  match fuel, l with
  | S f, x :: l' => let '(last, rest) := run_end x l' in (x, last) :: cpu_runs f rest
  | _, _ => []
  end.

Definition run_text (r : Z * Z) : list ascii :=
  print_int r.1 ++ (if r.2 =? r.1 then [] else "-"%char :: print_int r.2).

Fixpoint join_runs (l : list (Z * Z)) : list ascii :=
  match l with
  | [] => []
  | [r] => run_text r
  | r :: l' => run_text r ++ ","%char :: join_runs l'
  end.

Definition format_cpu_list (input : list Z) : string :=
  match input with
  | [] => ""
  | _ => let cpus := sort_unique input in text (join_runs (cpu_runs (length cpus) cpus))
  end.

Example format_example : format_cpu_list [3; 0; 1; 2; 8; 10; 11; 8] = "0-3,8,10-11".
Proof. vm_compute. reflexivity. Qed.
Example parse_example : parse_cpu_list " 0-3, 8,10-11" = Ok [0; 1; 2; 3; 8; 10; 11].
Proof. vm_compute. reflexivity. Qed.
Example parse_bad : parse_cpu_list "1,,2" = Throw (runtime_error "empty CPU-list element").
Proof. vm_compute. reflexivity. Qed.

(** ** Decimal printing and reading are inverse *)
Lemma code_digit_char d : 0 ≤ d < 10 → code (digit_char d) = 48 + d.
Proof. intros. unfold code, digit_char. rewrite N_ascii_embedding; lia. Qed.

Lemma isdigit_digit_char d : 0 ≤ d < 10 → isdigit (digit_char d) = true.
Proof. intros. unfold isdigit. rewrite code_digit_char by done. lia. Qed.

Lemma isdigit_not_space c : isdigit c = true → isspace c = false.
Proof. unfold isdigit, isspace. lia. Qed.

Lemma isdigit_ne c c' : isdigit c = true → isdigit c' = false → c ≠ c'.
Proof. congruence. Qed.

Lemma dec_digits_digits fuel n acc :
  Forall (λ c, isdigit c = true) acc → Forall (λ c, isdigit c = true) (dec_digits fuel n acc).
Proof.
  revert n acc. induction fuel as [|fuel IH]; intros n acc Hacc; cbn; [done|].
  assert (Forall (λ c, isdigit c = true) (digit_char (n `mod` 10) :: acc)).
  { constructor; [|done]. apply isdigit_digit_char, Z.mod_pos_bound. lia. }
  destruct (_ =? _); auto.
Qed.

Lemma dec_digits_value fuel n acc :
  0 ≤ n < 10 ^ Z.of_nat fuel → digits_value 0 (dec_digits fuel n acc) = digits_value n acc.
Proof.
  revert n acc. induction fuel as [|fuel IH]; intros n acc Hn; cbn [dec_digits].
  { cbn in *. by replace n with 0 by lia. }
  assert (0 ≤ n `mod` 10 < 10) as Hm by (apply Z.mod_pos_bound; lia).
  pose proof (Z.div_mod n 10 ltac:(lia)).
  destruct (Z.eqb_spec (n `div` 10) 0) as [E|E].
  - cbn. rewrite isdigit_digit_char by done. unfold digit_val.
    rewrite code_digit_char by done. f_equal. lia.
  - rewrite IH.
    + cbn. rewrite isdigit_digit_char by done. unfold digit_val.
      rewrite code_digit_char by done. f_equal. lia.
    + rewrite Nat2Z.inj_succ, Z.pow_succ_r in Hn by lia. split; [lia|].
      apply Z.div_lt_upper_bound; lia.
Qed.

Lemma dec_digits_nonempty fuel n acc : acc ≠ [] → dec_digits fuel n acc ≠ [].
Proof.
  revert n acc. induction fuel as [|fuel IH]; intros n acc Hacc; cbn; [done|].
  destruct (_ =? _); [done|]. by apply IH.
Qed.

Lemma print_nonneg_spec n :
  0 ≤ n → ∃ c l, print_nonneg n = c :: l ∧ Forall (λ c, isdigit c = true) (c :: l) ∧
                 digits_value 0 (c :: l) = n.
Proof.
  intros Hn. unfold print_nonneg.
  set (fuel := (Z.to_nat (Z.log2 n) + 1)%nat).
  assert (n < 10 ^ Z.of_nat fuel) as Hlt.
  { apply Z.lt_le_trans with (2 ^ Z.of_nat fuel).
    - destruct (decide (n = 0)) as [->|]; [cbn; lia|].
      unfold fuel. rewrite Nat2Z.inj_add, Z2Nat.id by apply Z.log2_nonneg.
      apply Z.log2_spec. lia.
    - apply Z.pow_le_mono_l. lia. }
  pose proof (dec_digits_digits fuel n [] ltac:(constructor)) as Hd.
  pose proof (dec_digits_value fuel n [] ltac:(lia)) as Hv.
  destruct (dec_digits fuel n []) as [|c l] eqn:E; [|by exists c, l].
  exfalso. revert E. unfold fuel. rewrite Nat.add_1_r. cbn.
  destruct (_ =? _); [done|]. by apply dec_digits_nonempty.
Qed.

Lemma digits_no_space l :
  Forall (λ c, isdigit c = true) l → Forall (λ c, isspace c = false) l.
Proof. intros Hl. eapply Forall_impl; [exact Hl|]. cbn. auto using isdigit_not_space. Qed.

Lemma drop_spaces_id l : Forall (λ c, isspace c = false) l → drop_spaces l = l.
Proof. intros Hl. destruct Hl as [|c l Hc]; cbn; [done|]. by rewrite Hc. Qed.

Lemma trim_id l : Forall (λ c, isspace c = false) l → trim l = l.
Proof.
  intros Hl. unfold trim. rewrite (drop_spaces_id l) by done.
  rewrite drop_spaces_id by by apply List.Forall_rev. apply rev_involutive.
Qed.

Lemma stoi_print n : 0 ≤ n < 2 ^ 31 → stoi (print_nonneg n) = Ok n.
Proof.
  intros Hn. destruct (print_nonneg_spec n) as (c & l & -> & Hd & Hv); [lia|].
  unfold stoi. rewrite drop_spaces_id by by apply digits_no_space.
  pose proof (Forall_inv Hd) as Hc. cbn in Hc.
  rewrite !bool_decide_eq_false_2 by (by intros ->). cbn [starts_with_digit].
  rewrite Hc, Hv. cbn.
  destruct (Z.ltb_spec n (- 2 ^ 31)); [lia|]. destruct (Z.ltb_spec (2 ^ 31 - 1) n); [lia|]. done.
Qed.

(** ** Splitting on separators *)
Lemma split_first_None c l : c ∉ l → split_first c l = None.
Proof.
  induction l as [|x l IH]; [done|]. intros [Hx Hl]%not_elem_of_cons. cbn.
  rewrite bool_decide_eq_false_2 by congruence. by rewrite IH.
Qed.

Lemma split_first_app c l r : c ∉ l → split_first c (l ++ c :: r) = Some (l, r).
Proof.
  induction l as [|x l IH]; cbn.
  - intros _. by rewrite bool_decide_eq_true_2.
  - intros [Hx Hl]%not_elem_of_cons. rewrite bool_decide_eq_false_2 by congruence.
    by rewrite IH.
Qed.

Lemma getlines_aux_app sep cur l r :
  sep ∉ l → getlines_aux sep cur (l ++ sep :: r) = (rev cur ++ l) :: getlines_aux sep [] r.
Proof.
  revert cur. induction l as [|x l IH]; intros cur; cbn.
  - intros _. by rewrite bool_decide_eq_true_2, app_nil_r.
  - intros [Hx Hl]%not_elem_of_cons. rewrite bool_decide_eq_false_2 by congruence.
    rewrite IH by done. cbn. by rewrite <-app_assoc.
Qed.

Lemma getlines_aux_last sep cur l :
  sep ∉ l → rev cur ++ l ≠ [] → getlines_aux sep cur l = [rev cur ++ l].
Proof.
  revert cur. induction l as [|x l IH]; intros cur; cbn.
  - intros _. rewrite app_nil_r. destruct cur; [done|]. done.
  - intros [Hx Hl]%not_elem_of_cons _. rewrite bool_decide_eq_false_2 by congruence.
    rewrite IH; cbn; rewrite <-?app_assoc; [done|done|]. by destruct (rev cur).
Qed.

(** ** The text of a run and what the parser reads from it *)
Definition run_ok (r : Z * Z) : Prop := 0 ≤ r.1 ≤ r.2 ∧ r.2 ≤ max_cpu.
Definition run_set (r : Z * Z) : gset Z := list_to_set (seqZ r.1 (r.2 - r.1 + 1)).

Lemma run_text_alt r : run_ok r →
  run_text r = print_nonneg r.1 ++ (if r.2 =? r.1 then [] else "-"%char :: print_nonneg r.2).
Proof.
  intros [? ?]. unfold run_text, print_int.
  destruct (Z.ltb_spec r.1 0); [lia|]. destruct (Z.ltb_spec r.2 0); [lia|]. done.
Qed.

Lemma run_text_chars r c : run_ok r → c ∈ run_text r → isdigit c = true ∨ c = "-"%char.
Proof.
  intros Hr. rewrite run_text_alt by done. destruct Hr as [? ?].
  destruct (print_nonneg_spec r.1) as (c1 & l1 & -> & Hd1 & _); [lia|].
  destruct (print_nonneg_spec r.2) as (c2 & l2 & -> & Hd2 & _); [lia|].
  rewrite Forall_forall in Hd1, Hd2. rewrite elem_of_app. intros [Hc|Hc]; [eauto|].
  destruct (_ =? _); [by apply elem_of_nil in Hc|].
  apply elem_of_cons in Hc as [->|Hc]; eauto.
Qed.

Lemma run_text_nonempty r : run_ok r → run_text r ≠ [].
Proof.
  intros Hr. rewrite run_text_alt by done. destruct Hr as [? ?].
  destruct (print_nonneg_spec r.1) as (c1 & l1 & -> & _); [lia|]. done.
Qed.

Lemma run_text_no_comma r : run_ok r → ","%char ∉ run_text r.
Proof. intros Hr Hc. destruct (run_text_chars r _ Hr Hc) as [H|H]; [by vm_compute in H|done]. Qed.

Lemma parse_run acc r : run_ok r → parse_cpu_part acc (run_text r) = Ok (run_set r ∪ acc).
Proof.
  intros Hr. unfold parse_cpu_part.
  rewrite trim_id.
  2:{ apply Forall_forall. intros c Hc. destruct (run_text_chars r c Hr Hc) as [H| ->];
      [by apply isdigit_not_space|done]. }
  rewrite bool_decide_eq_false_2 by by apply run_text_nonempty.
  pose proof (run_text_alt r Hr) as Htext. destruct Hr as [Hr1 Hr2].
  assert (r.2 < 2 ^ 31) by (unfold max_cpu in Hr2; lia).
  destruct (print_nonneg_spec r.1) as (c1 & l1 & E1 & Hd1 & _); [lia|].
  assert ("-"%char ∉ print_nonneg r.1) as Hdash.
  { rewrite E1. rewrite Forall_forall in Hd1. intros Hin%Hd1. by vm_compute in Hin. }
  rewrite Htext. destruct (Z.eqb_spec r.2 r.1) as [E|E].
  - rewrite app_nil_r, split_first_None by done. cbn [mbind result_bind].
    rewrite stoi_print by lia. cbn [mbind result_bind].
    destruct (Z.ltb_spec r.1 0); [lia|]. rewrite Z.ltb_irrefl.
    destruct (Z.ltb_spec max_cpu r.1); [lia|]. cbn [orb].
    unfold run_set. by rewrite E.
  - rewrite split_first_app by done. cbn [mbind result_bind].
    rewrite stoi_print by lia. cbn [mbind result_bind]. rewrite stoi_print by lia. cbn [mbind result_bind].
    destruct (Z.ltb_spec r.1 0); [lia|]. destruct (Z.ltb_spec r.2 r.1); [lia|].
    destruct (Z.ltb_spec max_cpu r.2); [lia|]. done.
Qed.

Lemma getlines_join rs : Forall run_ok rs → getlines ","%char (join_runs rs) = run_text <$> rs.
Proof.
  unfold getlines. intros Hrs. induction Hrs as [|r [|r' rs] Hr Hrs IH]; [done| |].
  - cbn [join_runs]. rewrite getlines_aux_last; [done|by apply run_text_no_comma|].
    by apply run_text_nonempty.
  - change (join_runs (r :: r' :: rs)) with (run_text r ++ ","%char :: join_runs (r' :: rs)).
    rewrite getlines_aux_app by by apply run_text_no_comma. by rewrite IH.
Qed.

Lemma parse_runs acc rs : Forall run_ok rs →
  foldlM parse_cpu_part acc (run_text <$> rs) = Ok (⋃ (run_set <$> rs) ∪ acc).
Proof.
  intros Hrs. revert acc. induction Hrs as [|r rs Hr Hrs IH]; intros acc; cbn.
  - f_equal. set_solver.
  - rewrite parse_run by done. cbn. rewrite IH. f_equal. set_solver.
Qed.

(** ** Runs cover exactly the CPUs of a strictly increasing list *)
Lemma run_end_spec x l last rest :
  StronglySorted key_lt (x :: l) → run_end x l = (last, rest) →
  x ≤ last ∧ StronglySorted key_lt rest ∧ (length rest ≤ length l)%nat ∧
  last ∈ x :: l ∧ (∀ z, z ∈ x :: l ↔ x ≤ z ≤ last ∨ z ∈ rest).
Proof.
  revert x. induction l as [|y l IH]; intros x Hs; cbn.
  - intros [= <- <-]. repeat split; [lia|apply SSorted_nil|cbn; lia|by left|..].
    + intros ->%list_elem_of_singleton. lia.
    + intros [?|?%elem_of_nil]; [|done]. apply list_elem_of_singleton. lia.
  - pose proof (proj2 (proj1 (StronglySorted_cons _ _ _) Hs)) as Hs'.
    destruct (Z.eqb_spec y (x + 1)) as [->|Hne].
    + intros (? & ? & ? & ? & Hz)%IH; [|done]. repeat split; [lia|done|cbn; lia|by first [left|right]|..].
      * intros [->|Hin]%elem_of_cons; [lia|]. apply Hz in Hin as [?|?]; [left; lia|by right].
      * intros Hin. destruct (decide (z = x)) as [->|]; [by left|]. right. apply Hz.
        destruct Hin; [left; lia|by right].
    + intros [= <- <-]. repeat split; [lia|done|cbn; lia|by first [left|right]|..].
      * intros [->|Hin]%elem_of_cons; [left; lia|by right].
      * intros [?|?]; [|by right]. assert (z = x) as -> by lia. by left.
Qed.

Lemma cpu_runs_spec fuel l :
  (length l ≤ fuel)%nat → StronglySorted key_lt l → Forall (λ c, 0 ≤ c ≤ max_cpu) l →
  Forall run_ok (cpu_runs fuel l) ∧ (∀ z, z ∈ ⋃ (run_set <$> cpu_runs fuel l) ↔ z ∈ l).
Proof.
  revert l. induction fuel as [|fuel IH]; intros [|x l] Hlen Hs Hr; cbn in *;
    [split; [constructor|set_solver]|lia|split; [constructor|set_solver]|].
  destruct (run_end x l) as [last rest] eqn:E.
  destruct (run_end_spec x l last rest Hs E) as (Hle & Hrest & Hl & Hlast & Hz).
  rewrite Forall_forall in Hr.
  destruct (IH rest) as [IH1 IH2]; [lia|done| |].
  { apply Forall_forall. intros z Hin. apply Hr, Hz. by right. }
  split.
  - constructor; [|done]. pose proof (Hr x ltac:(by left)). pose proof (Hr _ Hlast).
    unfold run_ok; cbn. lia.
  - intros z. cbn. rewrite elem_of_union, IH2, Hz. unfold run_set; cbn.
    rewrite elem_of_list_to_set, elem_of_seqZ. intuition lia.
Qed.

(** What a successfully parsed list looks like. *)
Lemma parse_part_range acc part acc' :
  (∀ c, c ∈ acc → 0 ≤ c ≤ max_cpu) → parse_cpu_part acc part = Ok acc' →
  ∀ c, c ∈ acc' → 0 ≤ c ≤ max_cpu.
Proof.
  intros Hacc. unfold parse_cpu_part. case_bool_decide; [done|].
  destruct (match split_first _ _ with Some _ => _ | None => _ end) as [lo hi].
  intros (first & _ & (last & _ & H3)%result_bind_Ok)%result_bind_Ok c.
  destruct (_ || _) eqn:E; [done|]. injection H3 as <-. bool_hyps.
  rewrite elem_of_union, elem_of_list_to_set, elem_of_seqZ. intros [?|?]; [lia|auto].
Qed.

Lemma parse_cpu_list_set s l :
  parse_cpu_list s = Ok l →
  ∃ r, foldlM parse_cpu_part ∅ (getlines ","%char (chars s)) = Ok r ∧ r ≠ ∅ ∧ l = set_items r.
Proof.
  intros (r & Hr & H)%result_bind_Ok. case_bool_decide; [done|].
  injection H as <-. by exists r.
Qed.

Lemma parse_cpu_list_ok s l :
  parse_cpu_list s = Ok l →
  l ≠ [] ∧ StronglySorted Z.lt l ∧ Forall (λ c, 0 ≤ c ≤ max_cpu) l.
Proof.
  intros (r & Hr & Hne & ->)%parse_cpu_list_set. repeat split.
  - intros Hnil. apply Hne, set_eq. intros z. rewrite <-elem_of_set_items, Hnil. set_solver.
  - eapply sorted_impl; [|apply set_items_sorted]. intros a b Hab. by apply Z.ltb_lt.
  - apply Forall_forall. intros c Hc%elem_of_set_items.
    eapply (foldlM_invariant parse_cpu_part (λ acc, ∀ c, c ∈ acc → 0 ≤ c ≤ max_cpu));
      [|intros; by eapply parse_part_range|exact Hr|exact Hc]. set_solver.
Qed.

(** ** Properties *)

Lemma parse_formatted (l : list Z) :
  l ≠ [] → Forall (λ c, 0 ≤ c ≤ max_cpu) l →
  parse_cpu_list (format_cpu_list l) = Ok (sort_unique l).
Proof.
  intros Hne Hr. unfold parse_cpu_list, format_cpu_list.
  destruct l as [|x l0] eqn:El; [done|]. rewrite <-El in *. cbv zeta.
  set (cpus := sort_unique l).
  assert (Forall (λ c, 0 ≤ c ≤ max_cpu) cpus) as Hcpus.
  { rewrite Forall_forall in *. intros c. unfold cpus. rewrite elem_of_sort_unique. auto. }
  destruct (cpu_runs_spec (length cpus) cpus) as [Hok Hin];
    [done|apply sort_unique_sorted|done|].
  unfold chars, text. rewrite String.list_ascii_of_string_of_list_ascii.
  rewrite getlines_join, parse_runs by done. cbn [mbind result_bind].
  rewrite union_empty_r_L. case_bool_decide as Hemp.
  - exfalso. assert (x ∈ (∅ : gset Z)); [|set_solver].
    rewrite <-Hemp. apply Hin. unfold cpus. rewrite elem_of_sort_unique, El. by left.
  - f_equal. apply strict_sorted_unique; [apply set_items_sorted|apply sort_unique_sorted|].
    intros z. rewrite elem_of_set_items. apply Hin.
Qed.

(** The characters of a formatted list. *)
Lemma join_runs_chars rs c :
  Forall run_ok rs → c ∈ join_runs rs → isdigit c = true ∨ c = "-"%char ∨ c = ","%char.
Proof.
  induction 1 as [|r [|r' rs] Hr Hrs IH]; cbn [join_runs]; [by intros ?%elem_of_nil|..].
  - intros Hc. destruct (run_text_chars r c Hr Hc); auto.
  - rewrite elem_of_app, elem_of_cons. intros [Hc|[->|Hc]]; [|auto|auto].
    destruct (run_text_chars r c Hr Hc); auto.
Qed.
Lemma format_cpu_list_chars l c :
  Forall (λ c, 0 ≤ c ≤ max_cpu) l → c ∈ chars (format_cpu_list l) → isdigit c = true ∨ c = "-"%char ∨ c = ","%char.
Proof.
  intros Hr. unfold format_cpu_list. destruct l as [|x l0] eqn:El; [by intros ?%elem_of_nil|]. rewrite <-El in *. cbv zeta.
  unfold chars, text. rewrite String.list_ascii_of_string_of_list_ascii. apply join_runs_chars.
  destruct (cpu_runs_spec (length (sort_unique l)) (sort_unique l)) as [Hok Hin]; [done|apply sort_unique_sorted| |done].
  rewrite Forall_forall in *. intros c'. rewrite elem_of_sort_unique. auto.
Qed.

(** printing a non-empty list of valid CPU numbers with [format_cpu_list]
    and reading the text back with [parse_cpu_list] yields exactly the same
    CPUs, sorted and without duplicates. *)
Theorem parse_format_roundtrip (l : list Z) :
  l ≠ [] → Forall (λ c, 0 ≤ c ≤ max_cpu) l →
  parse_cpu_list (format_cpu_list l) = Ok (sort_unique l).
Proof. exact (parse_formatted l). Qed.

Lemma parse_format_roundtrip_witness :
  parse_cpu_list (format_cpu_list [3; 1; 2; 7; 1]) = Ok [1; 2; 3; 7].
Proof.
  change (Ok [1; 2; 3; 7]) with (Ok (sort_unique [3; 1; 2; 7; 1])).
  apply parse_format_roundtrip; [done|]. repeat constructor; unfold max_cpu; lia.
Defined.

(** every list [parse_cpu_list] returns is non-empty, strictly increasing
    and within the supported CPU numbers 0..1048575; any other outcome is an
    exception. *)
Theorem parse_cpu_list_wf (s : string) (l : list Z) :
  parse_cpu_list s = Ok l →
  l ≠ [] ∧ StronglySorted Z.lt l ∧ Forall (λ c, 0 ≤ c ≤ max_cpu) l.
Proof.
  apply parse_cpu_list_ok.
Qed.

Lemma parse_cpu_list_wf_witness :
  [0; 1; 2; 8] ≠ [] ∧ StronglySorted Z.lt [0; 1; 2; 8] ∧
  Forall (λ c, 0 ≤ c ≤ max_cpu) [0; 1; 2; 8].
Proof. apply (parse_cpu_list_wf "8,0-2"). vm_compute. reflexivity. Defined.
