(* ===== verification/Actuator.v ===== *)
(** * Actuator ([src/actuator.cpp])

    The component that writes affinity masks.  [AffinityBackend] is the
    abstract class of the source; the actuator is modelled against it, with
    the world [W] (the kernel's masks) threaded through every call.
    [AffinityBackendLaws] states what the actuator relies on, and
    [LinuxAffinityBackend] discharges it from the documented behaviour of the
    [sched_getaffinity]/[sched_setaffinity] system calls. *)
From S2P Require Import Prelude Core.
Local Open Scope Z_scope.

(** [errno] values of Linux. *)
Definition ESRCH : Z := 3.
Definition EIO : Z := 5.
Definition EINVAL : Z := 22.

(** ** The backend interface *)
Class AffinityBackend (W : Type) := {
  backend_get : W → Z → list Z;
  backend_set : W → Z → list Z → W * (bool * Z);
}.

(** A backend in a quiescent world: nobody but the caller changes masks.
    [alive] says whether the thread still exists. *)
Class AffinityBackendLaws (W : Type) `{AffinityBackend W} := {
  alive : W → Z → bool;
  set_true : ∀ w t m w' e, backend_set w t m = (w', (true, e)) → backend_get w' t = m;
  set_frame : ∀ w t m w' r t', backend_set w t m = (w', r) → t' ≠ t →
    backend_get w' t' = backend_get w t';
  set_alive : ∀ w t m w' r t', backend_set w t m = (w', r) → alive w' t' = alive w t';
  set_true_alive : ∀ w t m w' e, backend_set w t m = (w', (true, e)) → alive w t = true;
  set_esrch : ∀ w t m w', backend_set w t m = (w', (false, ESRCH)) →
    alive w t = false ∧ backend_get w' t = backend_get w t;
}.

(** ** [struct ApplyResult], [struct RestoreResult] *)
Record ApplyResult := mk_ApplyResult {
  ar_success : bool;
  ar_requested : Z;
  ar_applied : Z;
  ar_committed : Z;
  ar_vanished : Z;
  ar_rolled_back : Z;
  ar_rollback_success : bool;
  ar_error : Z;
  ar_committed_tids : gset Z;
  ar_vanished_tids : gset Z;
}.
Definition ApplyResult_init : ApplyResult := mk_ApplyResult false 0 0 0 0 0 true 0 ∅ ∅.

Record RestoreResult := mk_RestoreResult {
  rr_requested : Z;
  rr_restored : Z;
  rr_vanished : Z;
  rr_failed : Z;
}.
Definition RestoreResult_init : RestoreResult := mk_RestoreResult 0 0 0 0.
(** [RestoreResult::success] *)
Definition rr_success (r : RestoreResult) : bool := rr_failed r =? 0.

(** [class Actuator]: the state it keeps besides the backend. *)
Record Actuator := mk_Actuator {
  restore_masks : gmap Z (list Z);
  acted_tids : gset Z;
}.
Definition Actuator_init : Actuator := mk_Actuator ∅ ∅.

Section actuator.
Context {W : Type} `{AffinityBackend W}.

(** [Actuator::note_application_mask] *)
Definition note_application_mask (a : Actuator) (t : Z) (cpus : list Z) : Actuator :=
  mk_Actuator (<[t := cpus]> (restore_masks a)) (acted_tids a).

(** [Actuator::note_inherited_mask] *)
Definition note_inherited_mask (a : Actuator) (t parent_tid : Z) (observed : list Z) : Actuator :=
  match restore_masks a !! t with
  | Some _ => a
  | None =>
      mk_Actuator
        (<[t := match restore_masks a !! parent_tid with
                | None => observed
                | Some m => m
                end]> (restore_masks a))
        (acted_tids a)
  end.

(** [Actuator::note_policy_action] *)
Definition note_policy_action (a : Actuator) (t : Z) : Actuator :=
  mk_Actuator (restore_masks a) ({[t]} ∪ acted_tids a).

(** *** [apply_delta] *)

(** The locals of the loop, with the objects it mutates. *)
Record apply_state := mk_apply_state {
  ap_world : W;
  ap_act : Actuator;
  ap_result : ApplyResult;
  ap_completed : list Z;
  ap_previous_masks : gmap Z (list Z);
  ap_previously_acted : gmap Z bool;
}.

Definition count_vanished (r : ApplyResult) (t : Z) : ApplyResult :=
  mk_ApplyResult (ar_success r) (ar_requested r) (ar_applied r) (ar_committed r)
    (ar_vanished r + 1) (ar_rolled_back r) (ar_rollback_success r) (ar_error r)
    (ar_committed_tids r) ({[t]} ∪ ar_vanished_tids r).
Definition count_applied (r : ApplyResult) : ApplyResult :=
  mk_ApplyResult (ar_success r) (ar_requested r) (ar_applied r + 1) (ar_committed r)
    (ar_vanished r) (ar_rolled_back r) (ar_rollback_success r) (ar_error r)
    (ar_committed_tids r) (ar_vanished_tids r).

(** One round of the rollback loop. *)
Definition rollback_step (previous : gmap Z (list Z)) (previously_acted : gmap Z bool)
    (st : W * Actuator * ApplyResult) (t : Z) : W * Actuator * ApplyResult :=
  let '(w, a, r) := st in
  let '(w', (ok, ignored)) := backend_set w t (get_or [] previous t) in
  if ok || (ignored =? ESRCH) then
    (w',
     (if get_or false previously_acted t then a
      else mk_Actuator (restore_masks a) (acted_tids a ∖ {[t]})),
     mk_ApplyResult (ar_success r) (ar_requested r) (ar_applied r) (ar_committed r)
       (ar_vanished r) (ar_rolled_back r + 1) (ar_rollback_success r) (ar_error r)
       (ar_committed_tids r) (ar_vanished_tids r))
  else
    (w', a,
     mk_ApplyResult (ar_success r) (ar_requested r) (ar_applied r) (ar_committed r)
       (ar_vanished r) (ar_rolled_back r) false (ar_error r)
       (ar_committed_tids r) (ar_vanished_tids r)).

Definition with_error (r : ApplyResult) (e : Z) : ApplyResult :=
  mk_ApplyResult (ar_success r) (ar_requested r) (ar_applied r) (ar_committed r)
    (ar_vanished r) (ar_rolled_back r) (ar_rollback_success r) e
    (ar_committed_tids r) (ar_vanished_tids r).

(** [if (!restore_masks.contains(tid)) restore_masks[tid] = previous_masks[tid]] *)
Definition save_mask (a : Actuator) (t : Z) (mask : list Z) : Actuator :=
  match restore_masks a !! t with
  | Some _ => a
  | None => mk_Actuator (<[t := mask]> (restore_masks a)) (acted_tids a)
  end.

(** [!(cpus.empty() || !backend.set(tid, cpus, error))] and the resulting error. *)
Definition try_set (w : W) (t : Z) (cpus : list Z) : W * (bool * Z) :=
  if bool_decide (cpus = []) then (w, (false, EINVAL)) else backend_set w t cpus.

(** The loop body: [inl] continues with the next assignment, [inr] is the
    early [return] after a rollback. *)
Definition apply_step (live : gset Z) (st : apply_state) (b : Z * list Z) :
    apply_state + (W * Actuator * ApplyResult) :=
  let '(t, cpus) := b in
  if negb (bool_decide (t ∈ live)) then
    inl (mk_apply_state (ap_world st) (ap_act st) (count_vanished (ap_result st) t)
           (ap_completed st) (ap_previous_masks st) (ap_previously_acted st))
  else
    let w := ap_world st in
    let previous := <[t := backend_get w t]> (ap_previous_masks st) in
    let pacted := <[t := bool_decide (t ∈ acted_tids (ap_act st))]> (ap_previously_acted st) in
    let a := save_mask (ap_act st) t (backend_get w t) in
    let '(w', (ok, error)) := try_set w t cpus in
    if ok then
      inl (mk_apply_state w' (mk_Actuator (restore_masks a) ({[t]} ∪ acted_tids a))
             (count_applied (ap_result st)) (ap_completed st ++ [t]) previous pacted)
    else if error =? ESRCH then
      inl (mk_apply_state w' a (count_vanished (ap_result st) t)
             (ap_completed st) previous pacted)
    else
      inr (foldl (rollback_step previous pacted) (w', a, with_error (ap_result st) error)
             (rev (ap_completed st))).

(** The code after the loop. *)
Definition apply_finish (st : apply_state) : W * Actuator * ApplyResult :=
  let r := ap_result st in
  (ap_world st, ap_act st,
   mk_ApplyResult true (ar_requested r) (ar_applied r) (ar_applied r) (ar_vanished r)
     (ar_rolled_back r) (ar_rollback_success r) (ar_error r)
     (list_to_set (ap_completed st) ∪ ar_committed_tids r) (ar_vanished_tids r)).

Fixpoint apply_loop (live : gset Z) (st : apply_state) (l : list (Z * list Z)) :
    W * Actuator * ApplyResult :=
  match l with
  | [] => apply_finish st
  | b :: l' =>
      match apply_step live st b with
      | inl st' => apply_loop live st' l'
      | inr out => out
      end
  end.

Definition apply_delta (w : W) (a : Actuator) (assignments : gmap Z (list Z))
    (live : gset Z) : W * Actuator * ApplyResult :=
  apply_loop live
    (mk_apply_state w a
       (mk_ApplyResult false (Z.of_nat (size assignments)) 0 0 0 0 true 0 ∅ ∅) [] ∅ ∅)
    (items assignments).

(** [singleton_masks] *)
Definition singleton_masks (assignments : gmap Z Z) : gmap Z (list Z) :=
  (λ cpu, [cpu]) <$> assignments.

(** [Actuator::apply(const Placement &, ...)] *)
Definition apply_placement (w : W) (a : Actuator) (p : Placement) (live : gset Z) :
    W * Actuator * ApplyResult :=
  apply_delta w a (singleton_masks (pl_tid_to_cpu p)) live.

(** [Actuator::apply(const PlacementDelta &, ...)]: masks win over CPUs. *)
Definition delta_masks (d : PlacementDelta) : gmap Z (list Z) :=
  tid_to_mask d ∪ singleton_masks (tid_to_cpu d).
Definition apply (w : W) (a : Actuator) (d : PlacementDelta) (live : gset Z) :
    W * Actuator * ApplyResult :=
  apply_delta w a (delta_masks d) live.

(** *** [Actuator::restore_all]

  [restore_masks_.at(tid)] throws when the TID has no saved mask; the world
  has then been changed for the TIDs already visited. *)
Definition count_restore (r : RestoreResult) (ok : bool) (error : Z) : RestoreResult :=
  if ok then mk_RestoreResult (rr_requested r) (rr_restored r + 1) (rr_vanished r) (rr_failed r)
  else if error =? ESRCH then
    mk_RestoreResult (rr_requested r) (rr_restored r) (rr_vanished r + 1) (rr_failed r)
  else mk_RestoreResult (rr_requested r) (rr_restored r) (rr_vanished r) (rr_failed r + 1).

Fixpoint restore_all_loop (masks : gmap Z (list Z)) (w : W) (r : RestoreResult) (l : list Z) :
    W * result RestoreResult :=
  match l with
  | [] => (w, Ok r)
  | t :: l' =>
      match masks !! t with
      | None => (w, Throw (out_of_range "map::at"))
      | Some cpus =>
          let '(w', (ok, error)) := backend_set w t cpus in
          restore_all_loop masks w' (count_restore r ok error) l'
      end
  end.

Definition restore_all (w : W) (a : Actuator) : W * Actuator * result RestoreResult :=
  let r0 := mk_RestoreResult (Z.of_nat (size (acted_tids a))) 0 0 0 in
  match restore_all_loop (restore_masks a) w r0 (set_items (acted_tids a)) with
  | (w', Ok r) => (w', Actuator_init, Ok r)
  | (w', Throw e) => (w', a, Throw e)
  end.

(** *** [Actuator::restore] *)
Definition forget (a : Actuator) (t : Z) : Actuator :=
  mk_Actuator (delete t (restore_masks a)) (acted_tids a ∖ {[t]}).

Fixpoint restore_loop (w : W) (a : Actuator) (r : RestoreResult) (l : list Z) :
    W * Actuator * result RestoreResult :=
  match l with
  | [] => (w, a, Ok r)
  | t :: l' =>
      if negb (bool_decide (t ∈ acted_tids a)) then restore_loop w a r l' else
      match restore_masks a !! t with
      | None => (w, a, Throw (out_of_range "map::at"))
      | Some cpus =>
          let r := mk_RestoreResult (rr_requested r + 1) (rr_restored r) (rr_vanished r)
                     (rr_failed r) in
          let '(w', (ok, error)) := backend_set w t cpus in
          let a' := if ok || (error =? ESRCH) then forget a t else a in
          restore_loop w' a' (count_restore r ok error) l'
      end
  end.

Definition restore (w : W) (a : Actuator) (tids : gset Z) :
    W * Actuator * result RestoreResult :=
  restore_loop w a RestoreResult_init (set_items tids).
End actuator.
Arguments apply_state : clear implicits.

(** ** [LinuxAffinityBackend] over the system calls

    The kernel is code outside the repository: its two system calls are
    parameters, with the behaviour their manual page documents. *)
Definition CPU_SETSIZE : Z := 1024.

Class Kernel (W : Type) := {
  (** [None]: the call failed. *)
  sched_getaffinity : W → Z → option (gset Z);
  (** the world after the call, and 0 or the [errno] *)
  sched_setaffinity : W → Z → gset Z → W * Z;
}.

Class KernelLaws (W : Type) `{Kernel W} := {
  thread_exists : W → Z → bool;
  k_set_frame : ∀ w t s w' rc t', sched_setaffinity w t s = (w', rc) → t' ≠ t →
    sched_getaffinity w' t' = sched_getaffinity w t';
  k_set_exists : ∀ w t s w' rc t', sched_setaffinity w t s = (w', rc) →
    thread_exists w' t' = thread_exists w t';
  k_set_ok : ∀ w t s w', sched_setaffinity w t s = (w', 0) → thread_exists w t = true;
  k_set_fail : ∀ w t s w' rc, sched_setaffinity w t s = (w', rc) → rc ≠ 0 → w' = w;
  k_set_esrch : ∀ w t s w', sched_setaffinity w t s = (w', ESRCH) → thread_exists w t = false;
}.

Section linux.
Context {W : Type} `{Kernel W}.

(** [LinuxAffinityBackend::get] *)
Definition linux_get (w : W) (t : Z) : list Z :=
  match sched_getaffinity w t with
  | None => []
  | Some s => filter (λ cpu, cpu ∈ s) (seqZ 0 CPU_SETSIZE)
  end.

(** [LinuxAffinityBackend::set] *)
Definition linux_set (w : W) (t : Z) (cpus : list Z) : W * (bool * Z) :=
  if existsb (λ cpu, (cpu <? 0) || (CPU_SETSIZE <=? cpu)) cpus then (w, (false, EINVAL)) else
  let '(w', rc) := sched_setaffinity w t (list_to_set cpus) in
  if negb (rc =? 0) then (w', (false, rc)) else
  if negb (bool_decide (linux_get w' t = cpus)) then (w', (false, EIO)) else (w', (true, 0)).

#[export] Instance LinuxAffinityBackend : AffinityBackend W :=
  {| backend_get := linux_get; backend_set := linux_set |}.

Lemma linux_set_inv w t cpus w' ok e :
  linux_set w t cpus = (w', (ok, e)) →
  (w' = w ∧ ok = false ∧ e = EINVAL) ∨
  ∃ rc, sched_setaffinity w t (list_to_set cpus) = (w', rc) ∧
    ((rc ≠ 0 ∧ ok = false ∧ e = rc) ∨
     (rc = 0 ∧ ok = false ∧ e = EIO ∧ linux_get w' t ≠ cpus) ∨
     (rc = 0 ∧ ok = true ∧ e = 0 ∧ linux_get w' t = cpus)).
Proof.
  unfold linux_set. destruct (existsb _ _); [intros; simplify_eq; by left|].
  destruct (sched_setaffinity _ _ _) as [w1 rc] eqn:E. intros Hr. right.
  destruct (Z.eqb_spec rc 0); cbn in Hr.
  - case_bool_decide; cbn in Hr; simplify_eq; exists 0; naive_solver.
  - simplify_eq. exists e. naive_solver.
Qed.

#[export, program] Instance LinuxAffinityBackendLaws `{!KernelLaws W} : AffinityBackendLaws W :=
  {| alive := thread_exists |}.
Next Obligation. intros ? w t m w' e Hs%linux_set_inv. cbn. naive_solver. Qed.
Next Obligation.
  intros ? w t m w' [ok e] t' Hs%linux_set_inv Hne. cbn. unfold linux_get.
  destruct Hs as [(-> & _)|(rc & Hs & _)]; [done|]. by rewrite (k_set_frame _ _ _ _ _ _ Hs Hne).
Qed.
Next Obligation.
  intros ? w t m w' [ok e] t' Hs%linux_set_inv.
  destruct Hs as [(-> & _)|(rc & Hs & _)]; [done|]. by apply (k_set_exists _ _ _ _ _ _ Hs).
Qed.
Next Obligation.
  intros ? w t m w' e Hs%linux_set_inv.
  destruct Hs as [(-> & ? & _)|(rc & Hs & Hc)]; [done|].
  assert (rc = 0) as -> by naive_solver. by eapply k_set_ok.
Qed.
Next Obligation.
  intros ? w t m w' Hs%linux_set_inv.
  destruct Hs as [(-> & _ & ?)|(rc & Hs & Hc)]; [done|].
  assert (rc = ESRCH) as -> by (unfold ESRCH, EIO in *; naive_solver).
  split; [by eapply k_set_esrch|]. cbn. by rewrite (k_set_fail _ _ _ _ _ Hs).
Qed.
End linux.

(** A concrete kernel: every thread has a mask and lives in one cpuset, with
    which requested masks are silently intersected. *)
Record cpuset_kernel := mk_cpuset_kernel { ck_masks : gmap Z (gset Z); ck_cpuset : gset Z }.

#[export] Instance cpuset_Kernel : Kernel cpuset_kernel := {|
  sched_getaffinity w t := ck_masks w !! t;
  sched_setaffinity w t s :=
    match ck_masks w !! t with
    | None => (w, ESRCH)
    | Some _ =>
        if bool_decide (s ∩ ck_cpuset w = ∅) then (w, EINVAL)
        else (mk_cpuset_kernel (<[t := s ∩ ck_cpuset w]> (ck_masks w)) (ck_cpuset w), 0)
    end |}.

#[export, program] Instance cpuset_KernelLaws : KernelLaws cpuset_kernel :=
  {| thread_exists w t := bool_decide (is_Some (ck_masks w !! t)) |}.
Next Obligation.
  intros w t s w' rc t'. cbn. destruct (ck_masks w !! t); [|congruence].
  case_bool_decide; intros Hs Hne; injection Hs as <- <-; cbn; [done|]. by rewrite lookup_insert_ne.
Qed.
Next Obligation.
  intros w t s w' rc t'. cbn. destruct (ck_masks w !! t) eqn:E; [|intros Hs; by injection Hs as <- <-].
  case_bool_decide; intros Hs; injection Hs as <- <-; cbn; [done|]. apply bool_decide_ext.
  rewrite lookup_insert. case_decide; [subst; rewrite E|done]. split; by eexists.
Qed.
Next Obligation.
  intros w t s w'. cbn. destruct (ck_masks w !! t) eqn:E; [|done]. done.
Qed.
Next Obligation.
  intros w t s w' rc. cbn. destruct (ck_masks w !! t); [|congruence]. case_bool_decide; congruence.
Qed.
Next Obligation.
  intros w t s w'. cbn. destruct (ck_masks w !! t) eqn:E; [|done].
  case_bool_decide; intros; simplify_eq.
Qed.

(** ** Invariants of the actuator *)

(** Every TID the policy has acted on has a saved mask, so that
    [restore_masks_.at(tid)] cannot throw. *)
Definition act_ok (a : Actuator) : Prop :=
  ∀ t, t ∈ acted_tids a → is_Some (restore_masks a !! t).

Section proofs.
Context {W : Type} `{AffinityBackendLaws W}.
Implicit Types (w : W) (a : Actuator) (t : Z) (orig : Z → list Z).

Lemma try_set_frame w t cpus w' r t' :
  try_set w t cpus = (w', r) → t' ≠ t → backend_get w' t' = backend_get w t'.
Proof.
  unfold try_set. case_bool_decide; intros Hs ?; [by injection Hs as <- <-|].
  by eapply set_frame.
Qed.
Lemma try_set_alive w t cpus w' r t' :
  try_set w t cpus = (w', r) → alive w' t' = alive w t'.
Proof.
  unfold try_set. case_bool_decide; intros Hs; [by injection Hs as <- <-|].
  by eapply set_alive.
Qed.
Lemma try_set_true w t cpus w' e :
  try_set w t cpus = (w', (true, e)) → backend_get w' t = cpus ∧ alive w t = true.
Proof.
  unfold try_set. case_bool_decide; [done|]. intros Hs.
  split; [by eapply set_true|by eapply set_true_alive].
Qed.
Lemma try_set_esrch w t cpus w' :
  try_set w t cpus = (w', (false, ESRCH)) →
  alive w t = false ∧ backend_get w' t = backend_get w t.
Proof. unfold try_set. case_bool_decide; [done|]. apply set_esrch. Qed.

Lemma save_mask_acted a t m : acted_tids (save_mask a t m) = acted_tids a.
Proof. unfold save_mask. by destruct (restore_masks a !! t). Qed.

Lemma save_mask_lookup a t m t' m' :
  restore_masks (save_mask a t m) !! t' = Some m' →
  restore_masks a !! t' = Some m' ∨ (t' = t ∧ m' = m ∧ restore_masks a !! t = None).
Proof.
  unfold save_mask. destruct (restore_masks a !! t) eqn:E; [by left|]. cbn.
  rewrite lookup_insert. case_decide; naive_solver.
Qed.

Lemma save_mask_is_Some a t m t' :
  t' = t ∨ is_Some (restore_masks a !! t') → is_Some (restore_masks (save_mask a t m) !! t').
Proof.
  unfold save_mask. destruct (restore_masks a !! t) eqn:E; cbn.
  - intros [->|?]; [by rewrite E|done].
  - rewrite lookup_insert. case_decide; naive_solver.
Qed.

(** Induction principle for the loop of [apply_delta]. *)
Lemma apply_loop_ind live (P : list (Z * list Z) → apply_state W → Prop)
    (Q : W * Actuator * ApplyResult → Prop) :
  (∀ st, P [] st → Q (apply_finish st)) →
  (∀ b l st st', P (b :: l) st → apply_step live st b = inl st' → P l st') →
  (∀ b l st out, P (b :: l) st → apply_step live st b = inr out → Q out) →
  ∀ l st, P l st → Q (apply_loop live st l).
Proof.
  intros Hfin Hl Hr l. induction l as [|b l IH]; intros st HP; cbn; [by apply Hfin|].
  destruct (apply_step live st b) eqn:E; [by eapply IH, Hl|by eapply Hr].
Qed.

(** The three ways a live assignment can go, and the dead one. *)
Lemma apply_step_inv live st t cpus out :
  apply_step live st (t, cpus) = out →
  let a := save_mask (ap_act st) t (backend_get (ap_world st) t) in
  let previous := <[t := backend_get (ap_world st) t]> (ap_previous_masks st) in
  let pacted := <[t := bool_decide (t ∈ acted_tids (ap_act st))]> (ap_previously_acted st) in
  (t ∉ live ∧
    out = inl (mk_apply_state (ap_world st) (ap_act st) (count_vanished (ap_result st) t)
      (ap_completed st) (ap_previous_masks st) (ap_previously_acted st))) ∨
  (t ∈ live ∧ ∃ w' e, try_set (ap_world st) t cpus = (w', (true, e)) ∧
    out = inl (mk_apply_state w' (mk_Actuator (restore_masks a) ({[t]} ∪ acted_tids a))
      (count_applied (ap_result st)) (ap_completed st ++ [t]) previous pacted)) ∨
  (t ∈ live ∧ ∃ w', try_set (ap_world st) t cpus = (w', (false, ESRCH)) ∧
    out = inl (mk_apply_state w' a (count_vanished (ap_result st) t)
      (ap_completed st) previous pacted)) ∨
  (t ∈ live ∧ ∃ w' e, try_set (ap_world st) t cpus = (w', (false, e)) ∧ e ≠ ESRCH ∧
    out = inr (foldl (rollback_step previous pacted) (w', a, with_error (ap_result st) e)
      (rev (ap_completed st)))).
Proof.
  intros <-. unfold apply_step. case_bool_decide; cbn [negb]; [|by left].
  destruct (try_set _ _ _) as [w' [[] e]]; [naive_solver|].
  destruct (Z.eqb_spec e ESRCH); [subst|]; naive_solver.
Qed.

(** *** Saved masks *)
Lemma rollback_step_act_ok prev pacted st t :
  act_ok st.1.2 → act_ok (rollback_step prev pacted st t).1.2.
Proof.
  destruct st as [[w a] r]. unfold act_ok, rollback_step. cbn. intros Ha.
  destruct (backend_set _ _ _) as [w' [ok e]]. destruct (ok || _); cbn; [|done].
  destruct (get_or _ _ _); cbn; [done|]. set_solver.
Qed.

Lemma rollback_act_ok prev pacted l st :
  act_ok st.1.2 → act_ok (foldl (rollback_step prev pacted) st l).1.2.
Proof.
  intros Hst. apply (foldl_invariant _ (λ st, act_ok st.1.2)); [done|].
  intros. by apply rollback_step_act_ok.
Qed.

Lemma save_mask_act_ok a t m : act_ok a → act_ok (save_mask a t m).
Proof.
  intros Ha t'. rewrite save_mask_acted. intros Ht'. apply save_mask_is_Some. auto.
Qed.

Lemma apply_delta_act_ok w a asg live :
  act_ok a → act_ok (apply_delta w a asg live).1.2.
Proof.
  intros Ha. unfold apply_delta.
  apply (apply_loop_ind live (λ _ st, act_ok (ap_act st)) (λ out, act_ok out.1.2)); [done| | |done].
  - intros [t cpus] l st st' Hok Hs. cbv beta in *.
    destruct (apply_step_inv _ _ _ _ _ Hs) as
      [(_ & [= ->])|[(_ & w' & e & _ & [= ->])|[(_ & w' & _ & [= ->])|(_ & ? & ? & _ & _ & ?)]]];
      cbn; [done| |by apply save_mask_act_ok|done].
    intros t'; cbn. rewrite save_mask_acted. intros [->%elem_of_singleton|?]%elem_of_union;
      apply save_mask_is_Some; auto.
  - intros [t cpus] l st out Hok Hs. cbv beta in *.
    destruct (apply_step_inv _ _ _ _ _ Hs) as
      [(_ & ?)|[(_ & w' & e & _ & ?)|[(_ & w' & _ & ?)|(_ & w' & e & _ & _ & [= ->])]]]; try done.
    apply rollback_act_ok. cbn. by apply save_mask_act_ok.
Qed.

Lemma restore_loop_act_ok w a r l :
  act_ok a → act_ok (restore_loop w a r l).1.2.
Proof.
  revert w a r. induction l as [|t l IH]; intros w a r Ha; cbn; [done|].
  case_bool_decide; cbn; [|by apply IH].
  destruct (restore_masks a !! t); [|done].
  destruct (backend_set _ _ _) as [w' [ok e]]. apply IH.
  destruct (ok || _); [|done]. intros t'; cbn. intros [? ?]%elem_of_difference.
  rewrite lookup_delete_ne by set_solver. by apply Ha.
Qed.

Lemma restore_all_loop_counts masks w r l :
  (∀ t, t ∈ l → is_Some (masks !! t)) →
  ∃ w' r', restore_all_loop masks w r l = (w', Ok r') ∧
    rr_requested r' = rr_requested r ∧
    rr_restored r' + rr_vanished r' + rr_failed r' =
      rr_restored r + rr_vanished r + rr_failed r + Z.of_nat (length l).
Proof.
  revert w r. induction l as [|t l IH]; intros w r Hl; cbn.
  { exists w, r. repeat split. lia. }
  destruct (Hl t) as [cpus Hm]; [by left|]. rewrite Hm.
  destruct (backend_set w t cpus) as [w' [ok e]].
  destruct (IH w' (count_restore r ok e)) as (w2 & r2 & -> & Hreq & Hsum);
    [intros; apply Hl; by right|].
  exists w2, r2. unfold count_restore in *. split; [done|].
  destruct ok; [|destruct (e =? ESRCH)]; cbn in *; lia.
Qed.
End proofs.

(** ** Transactional behaviour of [apply_delta] *)
Section transaction.
Context {W : Type} `{AffinityBackendLaws W}.
Implicit Types (w : W) (a : Actuator) (t : Z).

(** What the loop has established after a prefix [done] of the assignments,
    when it started in world [w0] with actuator [a0]. *)
Record loop_inv (w0 : W) (a0 : Actuator) (req : Z) (pre : list (Z * list Z))
    (st : apply_state W) : Prop := {
  li_keys : NoDup pre.*1;
  li_completed : NoDup (ap_completed st);
  li_partition : ∀ t, t ∈ pre.*1 ↔ t ∈ ap_completed st ∨ t ∈ ar_vanished_tids (ap_result st);
  li_disjoint : ∀ t, t ∈ ap_completed st → t ∉ ar_vanished_tids (ap_result st);
  li_result : ∃ vt, ap_result st =
    mk_ApplyResult false req (Z.of_nat (length (ap_completed st))) 0 (Z.of_nat (size vt)) 0
      true 0 ∅ vt;
  li_target : ∀ t m, (t, m) ∈ pre → t ∈ ap_completed st → backend_get (ap_world st) t = m;
  li_frame : ∀ t, t ∉ ap_completed st → backend_get (ap_world st) t = backend_get w0 t;
  li_alive : ∀ t, alive (ap_world st) t = alive w0 t;
  li_completed_alive : ∀ t, t ∈ ap_completed st → alive w0 t = true;
  li_previous : ∀ t, t ∈ ap_completed st → ap_previous_masks st !! t = Some (backend_get w0 t);
  li_pacted : ∀ t, t ∈ ap_completed st →
    ap_previously_acted st !! t = Some (bool_decide (t ∈ acted_tids a0));
  li_acted : acted_tids (ap_act st) = acted_tids a0 ∪ list_to_set (ap_completed st);
  li_masks : ∀ t m, restore_masks (ap_act st) !! t = Some m →
    restore_masks a0 !! t = Some m ∨ (restore_masks a0 !! t = None ∧ m = backend_get w0 t);
  li_masks_keep : ∀ t, is_Some (restore_masks a0 !! t) → is_Some (restore_masks (ap_act st) !! t);
}.

Lemma loop_inv_save_mask w0 a0 a t w :
  (∀ t m, restore_masks a !! t = Some m →
    restore_masks a0 !! t = Some m ∨ (restore_masks a0 !! t = None ∧ m = backend_get w0 t)) →
  (∀ t, is_Some (restore_masks a0 !! t) → is_Some (restore_masks a !! t)) →
  backend_get w t = backend_get w0 t →
  ∀ t' m, restore_masks (save_mask a t (backend_get w t)) !! t' = Some m →
    restore_masks a0 !! t' = Some m ∨ (restore_masks a0 !! t' = None ∧ m = backend_get w0 t').
Proof.
  intros Hm Hk Hg t' m [?|(-> & -> & Hn)]%save_mask_lookup; [auto|]. right.
  split; [|done]. destruct (restore_masks a0 !! t) eqn:E; [|done].
  destruct (Hk t) as [? ?]; [by eexists|]. congruence.
Qed.

Lemma loop_inv_init w a req :
  loop_inv w a req []
    (mk_apply_state w a (mk_ApplyResult false req 0 0 0 0 true 0 ∅ ∅) [] ∅ ∅).
Proof.
  split; cbn; try set_solver; try apply NoDup_nil_2. by exists ∅.
Qed.

Lemma loop_inv_vanished w0 a0 req pre st t m :
  loop_inv w0 a0 req pre st → t ∉ pre.*1 →
  loop_inv w0 a0 req (pre ++ [(t, m)])
    (mk_apply_state (ap_world st) (ap_act st) (count_vanished (ap_result st) t)
       (ap_completed st) (ap_previous_masks st) (ap_previously_acted st)).
Proof.
  intros [] Ht. assert (t ∉ ap_completed st ∧ t ∉ ar_vanished_tids (ap_result st)) as [Htc Htv]
    by (rewrite li_partition0 in Ht; tauto).
  split; cbn; try done.
  - rewrite fmap_app. apply NoDup_app. cbn. split; [done|]. split; [set_solver|apply NoDup_singleton].
  - intros t'. rewrite fmap_app. cbn. rewrite elem_of_app, li_partition0. set_solver.
  - set_solver.
  - destruct li_result0 as [vt Hr]. rewrite Hr in *. cbn in *. exists ({[t]} ∪ vt).
    unfold count_vanished; cbn. f_equal. rewrite size_union, size_singleton by set_solver. lia.
  - intros t' m' [Hin| [= -> ->]%list_elem_of_singleton]%elem_of_app; [eauto|done].
Qed.

Lemma loop_inv_step live w0 a0 req pre st b st' :
  loop_inv w0 a0 req pre st → b.1 ∉ pre.*1 → apply_step live st b = inl st' →
  loop_inv w0 a0 req (pre ++ [b]) st'.
Proof.
  destruct b as [t m]. cbn. intros Hinv Ht Hs.
  destruct (apply_step_inv _ _ _ _ _ Hs) as
    [(_ & [= ->])|[(_ & w' & e & Hset & [= ->])|[(_ & w' & Hset & [= ->])|(_ & ? & ? & _ & _ & ?)]]];
    [by apply loop_inv_vanished| | |done].
  - destruct Hinv. destruct (try_set_true _ _ _ _ _ Hset) as [Hget Hal].
    assert (t ∉ ap_completed st ∧ t ∉ ar_vanished_tids (ap_result st)) as [Htc Htv]
      by (rewrite li_partition0 in Ht; tauto).
    split; cbn.
    + rewrite fmap_app. apply NoDup_app. split; [done|]. split; [set_solver|apply NoDup_singleton].
    + apply NoDup_app. split; [done|]. split; [set_solver|apply NoDup_singleton].
    + intros t'. rewrite fmap_app, !elem_of_app, li_partition0. set_solver.
    + set_solver.
    + destruct li_result0 as [vt Hr]. exists vt. rewrite Hr. unfold count_applied; cbn.
      rewrite length_app. cbn. f_equal. lia.
    + intros t' m' [Hin| [= -> ->]%list_elem_of_singleton]%elem_of_app Hc; [|done].
      assert (t' ≠ t) as Hne.
      { intros ->. apply Ht. by apply (list_elem_of_fmap_2 fst) in Hin. }
      rewrite (try_set_frame _ _ _ _ _ _ Hset Hne). apply li_target0; [done|set_solver].
    + intros t' Ht'. rewrite (try_set_frame _ _ _ _ _ _ Hset) by set_solver.
      apply li_frame0. set_solver.
    + intros t'. rewrite (try_set_alive _ _ _ _ _ _ Hset). done.
    + intros t' [?| ->%list_elem_of_singleton]%elem_of_app; [auto|]. by rewrite <-li_alive0.
    + intros t' [?| ->%list_elem_of_singleton]%elem_of_app; rewrite lookup_insert.
      * rewrite decide_False by set_solver. auto.
      * rewrite decide_True by done. by rewrite li_frame0.
    + intros t' [?| ->%list_elem_of_singleton]%elem_of_app; rewrite lookup_insert.
      * rewrite decide_False by set_solver. auto.
      * rewrite decide_True by done. do 2 f_equal. rewrite li_acted0.
        apply bool_decide_ext. set_solver.
    + rewrite save_mask_acted, li_acted0, list_to_set_app_L. set_solver.
    + apply loop_inv_save_mask; auto.
    + intros t' ?. apply save_mask_is_Some. auto.
  - destruct (try_set_esrch _ _ _ _ Hset) as [Hdead Hget].
    destruct (loop_inv_vanished _ _ _ _ _ t m Hinv Ht). cbn in *.
    assert (∀ t', backend_get w' t' = backend_get (ap_world st) t') as Hsame.
    { intros t'. destruct (decide (t' = t)) as [->|]; [done|]. by eapply try_set_frame. }
    assert (t ∉ ap_completed st) as Htc.
    { rewrite (li_partition _ _ _ _ _ Hinv) in Ht. tauto. }
    split; cbn; try done.
    + intros t' m' ? ?. rewrite Hsame. auto.
    + intros t' ?. rewrite Hsame. auto.
    + intros t'. rewrite (try_set_alive _ _ _ _ _ _ Hset). auto.
    + intros t' ?. rewrite lookup_insert_ne by set_solver. auto.
    + intros t' ?. rewrite lookup_insert_ne by set_solver. auto.
    + by rewrite save_mask_acted.
    + apply loop_inv_save_mask; auto.
    + intros t' ?. apply save_mask_is_Some. auto.
Qed.

(** Rolling back the completed TIDs [l]: what the reverse loop does. *)
Record rollback_inv (prev : gmap Z (list Z)) (pacted : gmap Z bool)
    (w : W) (a : Actuator) (r : ApplyResult) (l : list Z) (out : W * Actuator * ApplyResult) : Prop := {
  rb_frame : ∀ t, t ∉ l → backend_get out.1.1 t = backend_get w t;
  rb_alive : ∀ t, alive out.1.1 t = alive w t;
  rb_success : ar_success out.2 = ar_success r;
  rb_error : ar_error out.2 = ar_error r;
  rb_committed : ar_committed_tids out.2 = ar_committed_tids r;
  rb_masks : restore_masks out.1.2 = restore_masks a;
  rb_acted : ∀ t, t ∉ l → t ∈ acted_tids out.1.2 ↔ t ∈ acted_tids a;
  rb_applied : ar_applied out.2 = ar_applied r;
  rb_each : ∀ t, t ∈ l → t ∈ acted_tids a → t ∉ acted_tids out.1.2 →
    backend_get out.1.1 t = get_or [] prev t ∧ get_or false pacted t = false;
  rb_all : ar_rollback_success out.2 = true →
    ar_rollback_success r = true ∧
    (∀ t, t ∈ l → backend_get out.1.1 t = get_or [] prev t) ∧
    (∀ t, t ∈ l → t ∈ acted_tids out.1.2 ↔ t ∈ acted_tids a ∧ get_or false pacted t = true) ∧
    ar_rolled_back out.2 = ar_rolled_back r + Z.of_nat (length l);
}.

Lemma rollback_spec prev pacted w a r l :
  NoDup l → (∀ t, t ∈ l → alive w t = true) →
  rollback_inv prev pacted w a r l (foldl (rollback_step prev pacted) (w, a, r) l).
Proof.
  revert w a r. induction l as [|t l IH]; intros w a r Hnd Hal; cbn.
  { split; cbn; try done. intros ?. split; [done|]. split; [set_solver|]. split; [set_solver|lia]. }
  apply NoDup_cons in Hnd as [Htl Hnd].
  destruct (backend_set w t (get_or [] prev t)) as [w' [ok e]] eqn:Hset.
  assert (∀ t', t' ∈ l → alive w' t' = true) as Hal'.
  { intros t' ?. rewrite (set_alive _ _ _ _ _ _ Hset). apply Hal. by right. }
  destruct (ok || (e =? ESRCH)) eqn:Hok.
  - destruct ok.
    2:{ cbn in Hok. bool_hyps. subst e. destruct (set_esrch _ _ _ _ Hset) as [Hd _].
        specialize (Hal t ltac:(by left)). congruence. }
    pose proof (set_true _ _ _ _ _ Hset) as Hget.
    match goal with |- context [foldl _ (w', ?a', ?r') l] =>
      pose proof (IH w' a' r' Hnd Hal') as [F A S E C M T N X L] end.
    split; try done.
    + intros t' [? ?]%not_elem_of_cons. rewrite F by done. by apply (set_frame _ _ _ _ _ _ Hset).
    + intros t'. rewrite A. by apply (set_alive _ _ _ _ _ _ Hset).
    + rewrite M. by destruct (get_or false pacted t).
    + intros t' [? ?]%not_elem_of_cons. rewrite T by done.
      destruct (get_or false pacted t); cbn; set_solver.
    + intros t' [->|Ht']%elem_of_cons Hact Hnot.
      * rewrite F by done. split; [done|]. rewrite T in Hnot by done.
        by destruct (get_or false pacted t).
      * apply X; [done| |done]. assert (t' ≠ t) by (by intros ->).
        destruct (get_or false pacted t); cbn; set_solver.
    + intros Hrb. destruct (L Hrb) as (Lr & Lg & La & Ln). cbn in *. split; [done|].
      split; [|split].
      * intros t' [->|?]%elem_of_cons; [by rewrite F|auto].
      * intros t' [->|Ht']%elem_of_cons.
        -- rewrite T by done. destruct (get_or false pacted t); cbn; set_solver.
        -- rewrite La by done. destruct (get_or false pacted t); cbn; [done|].
           assert (t' ≠ t) by (by intros ->). set_solver.
      * rewrite Ln. lia.
  - match goal with |- context [foldl _ (w', ?a', ?r') l] =>
      pose proof (IH w' a' r' Hnd Hal') as [F A S E C M T N X L] end.
    split; try done.
    + intros t' [? ?]%not_elem_of_cons. rewrite F by done. by apply (set_frame _ _ _ _ _ _ Hset).
    + intros t'. rewrite A. by apply (set_alive _ _ _ _ _ _ Hset).
    + intros t' [? ?]%not_elem_of_cons. by apply T.
    + intros t' [->|Ht']%elem_of_cons Hact Hnot; [|by apply X].
      rewrite T in Hnot by done. done.
    + intros Hrb. by destruct (L Hrb) as [? _].
Qed.

(** The outcome of a whole batch: either it finished, or it stopped at one
    assignment [t := m] and was rolled back. *)
Lemma apply_delta_cases w a asg live out :
  apply_delta w a asg live = out →
  (∃ st, loop_inv w a (Z.of_nat (size asg)) (items asg) st ∧ out = apply_finish st) ∨
  (∃ pre t m rest st w' e, items asg = pre ++ (t, m) :: rest ∧
     loop_inv w a (Z.of_nat (size asg)) pre st ∧ t ∉ pre.*1 ∧
     try_set (ap_world st) t m = (w', (false, e)) ∧ e ≠ ESRCH ∧
     rollback_inv
       (<[t := backend_get (ap_world st) t]> (ap_previous_masks st))
       (<[t := bool_decide (t ∈ acted_tids (ap_act st))]> (ap_previously_acted st))
       w' (save_mask (ap_act st) t (backend_get (ap_world st) t))
       (with_error (ap_result st) e) (rev (ap_completed st)) out).
Proof.
  intros <-. unfold apply_delta. set (req := Z.of_nat (size asg)).
  match goal with |- context [apply_loop live ?st (items asg)] =>
    pattern (apply_loop live st (items asg)) end.
  apply (apply_loop_ind live
    (λ l st, ∃ pre, items asg = pre ++ l ∧ loop_inv w a req pre st)); cbv beta.
  - intros st (pre & Hpre & Hinv). rewrite app_nil_r in Hpre. left. exists st.
    by rewrite Hpre.
  - intros b l st st' (pre & Hpre & Hinv) Hs. exists (pre ++ [b]).
    split; [by rewrite <-app_assoc|]. eapply loop_inv_step; [done| |done].
    pose proof (NoDup_items_fst asg) as Hnd. rewrite Hpre, fmap_app in Hnd.
    apply NoDup_app in Hnd as (_ & Hd & _). intros Hin. apply (Hd _ Hin). by left.
  - intros [t m] l st out (pre & Hpre & Hinv) Hs. right.
    assert (t ∉ pre.*1) as Ht.
    { pose proof (NoDup_items_fst asg) as Hnd. rewrite Hpre, fmap_app in Hnd.
      apply NoDup_app in Hnd as (_ & Hd & _). intros Hin. apply (Hd _ Hin). by left. }
    destruct (apply_step_inv _ _ _ _ _ Hs) as
      [(_ & ?)|[(_ & w' & e & _ & ?)|[(_ & w' & _ & ?)|(_ & w' & e & Hset & He & [= ->])]]]; try done.
    exists pre, t, m, l, st, w', e. repeat (split; [done|]).
    apply rollback_spec.
    + apply NoDup_ListNoDup, NoDup_rev, NoDup_ListNoDup. apply Hinv.
    + intros t' Hin. rewrite (try_set_alive _ _ _ _ _ _ Hset), (li_alive _ _ _ _ _ Hinv).
      apply (li_completed_alive _ _ _ _ _ Hinv). apply list_elem_of_In, in_rev, list_elem_of_In.
      done.
  - exists []. split; [done|]. apply loop_inv_init.
Qed.
End transaction.

(** ** Restoration of the application's own masks

    [orig t] is the mask the application wants for thread [t]: the one it had
    before the policy intervened, the one its parent had when it was cloned from
    a bound parent, or the one it declared last.  [stray] holds the threads that
    may have another mask although the actuator has not acted on them.  The
    actuator tracks [orig] when every saved mask of a live thread is [orig], every
    live thread that is neither acted on nor stray still has [orig], and every
    stray one has a saved mask. *)
Record tracks {W} `{AffinityBackendLaws W} (orig : Z → list Z) (stray : gset Z) (w : W)
    (a : Actuator) : Prop := {
  tr_ok : act_ok a;
  tr_saved : ∀ t m, alive w t = true → restore_masks a !! t = Some m → m = orig t;
  tr_free : ∀ t, alive w t = true → t ∉ acted_tids a → t ∉ stray → backend_get w t = orig t;
  tr_stray : ∀ t, alive w t = true → t ∈ stray → is_Some (restore_masks a !! t);
}.

(** A backend whose failing [set] leaves the mask as it was. *)
Class AtomicSet (W : Type) `{AffinityBackend W} : Prop :=
  set_false : ∀ w t m w' e, backend_set w t m = (w', (false, e)) →
    backend_get w' t = backend_get w t.

Section restoration.
Context {W : Type} `{AffinityBackendLaws W}.
Implicit Types (w : W) (a : Actuator) (t : Z) (orig : Z → list Z).

Lemma try_set_false `{!AtomicSet W} w t cpus w' e :
  try_set w t cpus = (w', (false, e)) → backend_get w' t = backend_get w t.
Proof.
  unfold try_set. case_bool_decide; [|apply set_false]. intros Hs. by injection Hs as <- <-.
Qed.

Lemma tracks_init w : tracks (backend_get w) ∅ w Actuator_init.
Proof.
  split; [by intros t ?%elem_of_empty| |done|set_solver]. intros t m _. cbn. by rewrite lookup_empty.
Qed.

Lemma tracks_saved orig stray w a a' t m :
  tracks orig stray w a → alive w t = true →
  (restore_masks a !! t = Some m ∨ (restore_masks a !! t = None ∧ m = backend_get w t)) →
  m = orig t.
Proof.
  intros [Hok Hs Hf Hx] Hal [?|[Hn ->]]; [by eapply Hs|]. apply Hf; [done|..].
  - intros [? Hin]%Hok. congruence.
  - intros Hin. destruct (Hx t Hal Hin). congruence.
Qed.

(** The threads of a batch that end it with another mask and are not recorded
    as acted upon. *)
Definition strays (w w' : W) (a' : Actuator) (asg : gmap Z (list Z)) : gset Z :=
  filter (λ t, t ∉ acted_tids a' ∧ backend_get w' t ≠ backend_get w t) (dom asg).

Lemma elem_of_dom_items (asg : gmap Z (list Z)) t : t ∈ dom asg ↔ t ∈ (items asg).*1.
Proof.
  rewrite elem_of_dom, list_elem_of_fmap. split.
  - intros [m Hm%elem_of_items]. by exists (t, m).
  - intros ([t' m] & -> & Hm%elem_of_items). by exists m.
Qed.

(** What any batch, finished or rolled back, does to the books. *)
Lemma apply_delta_books w a asg live w' a' r :
  apply_delta w a asg live = (w', a', r) →
  (∀ t, alive w' t = alive w t) ∧ acted_tids a ⊆ acted_tids a' ∧
  (∀ t, t ∉ dom asg → backend_get w' t = backend_get w t) ∧
  (∀ t, is_Some (restore_masks a !! t) → is_Some (restore_masks a' !! t)) ∧
  (∀ t m, restore_masks a' !! t = Some m →
     restore_masks a !! t = Some m ∨ (restore_masks a !! t = None ∧ m = backend_get w t)) ∧
  (∀ t, t ∈ strays w w' a' asg → is_Some (restore_masks a' !! t)).
Proof.
  intros Happ.
  destruct (apply_delta_cases w a asg live _ Happ) as
    [(st & Hinv & [= -> -> ->])|(pre & f & m & rest & st & wf & e & Hit & Hinv & Hf & Hset & He & Hrb)].
  - split_and!.
    + apply Hinv.
    + rewrite (li_acted _ _ _ _ _ Hinv). set_solver.
    + intros t Ht. apply (li_frame _ _ _ _ _ Hinv). intros Hc. apply Ht, elem_of_dom_items.
      apply (li_partition _ _ _ _ _ Hinv). by left.
    + apply Hinv.
    + apply (li_masks _ _ _ _ _ Hinv).
    + intros t [[Hna Hne] _]%elem_of_filter. exfalso. apply Hne, (li_frame _ _ _ _ _ Hinv).
      rewrite (li_acted _ _ _ _ _ Hinv) in Hna. set_solver.
  - pose proof (rb_masks _ _ _ _ _ _ _ Hrb) as Hms. cbn in Hms.
    assert (∀ t, t ∈ rev (ap_completed st) ↔ t ∈ ap_completed st) as Hrev.
    { intros t. by rewrite !list_elem_of_In, <-in_rev. }
    assert (f ∉ ap_completed st) as Hfc.
    { intros Hin. apply Hf. apply (li_partition _ _ _ _ _ Hinv). by left. }
    assert (∀ t, t ∈ ap_completed st → t ∈ dom asg) as Hdom.
    { intros t Hc. apply elem_of_dom_items. rewrite Hit, fmap_app, elem_of_app. left.
      apply (li_partition _ _ _ _ _ Hinv). by left. }
    assert (f ∈ dom asg) as Hfd.
    { apply elem_of_dom_items. rewrite Hit, fmap_app. set_solver. }
    assert (∀ t, t ∉ ap_completed st → t ≠ f → backend_get w' t = backend_get w t) as Hsame.
    { intros t Hc Hne. rewrite (rb_frame _ _ _ _ _ _ _ Hrb) by by rewrite Hrev.
      rewrite (try_set_frame _ _ _ _ _ _ Hset) by done. by apply (li_frame _ _ _ _ _ Hinv). }
    assert (∀ t, t ∈ acted_tids a → t ∈ acted_tids a') as Hacted.
    { intros t Hin. destruct (decide (t ∈ ap_completed st)) as [Hc|Hc].
      - destruct (decide (t ∈ acted_tids a')) as [?|Hna]; [done|]. exfalso.
        destruct (rb_each _ _ _ _ _ _ _ Hrb t) as [_ Hp]; [by apply Hrev| |done|].
        { rewrite save_mask_acted, (li_acted _ _ _ _ _ Hinv). set_solver. }
        unfold get_or in Hp. rewrite lookup_insert_ne in Hp by (by intros ->).
        rewrite (li_pacted _ _ _ _ _ Hinv) in Hp by done. cbn in Hp. by bool_hyps.
      - apply (rb_acted _ _ _ _ _ _ _ Hrb); [by rewrite Hrev|].
        rewrite save_mask_acted, (li_acted _ _ _ _ _ Hinv). set_solver. }
    split_and!.
    + intros t. rewrite <-(li_alive _ _ _ _ _ Hinv), <-(try_set_alive _ _ _ _ _ _ Hset).
      apply (rb_alive _ _ _ _ _ _ _ Hrb).
    + exact Hacted.
    + intros t Ht. apply Hsame; [by intros ?%Hdom|by intros ->].
    + intros t Ht. rewrite Hms. apply save_mask_is_Some. right. by apply (li_masks_keep _ _ _ _ _ Hinv).
    + intros t m' Hm'. rewrite Hms in Hm'.
      eapply (loop_inv_save_mask w a (ap_act st) f (ap_world st)); [apply Hinv..| |exact Hm'].
      by apply (li_frame _ _ _ _ _ Hinv).
    + intros t [[Hna Hne] _]%elem_of_filter. rewrite Hms. destruct (decide (t = f)) as [->|Htf].
      { apply save_mask_is_Some. by left. }
      destruct (decide (t ∈ ap_completed st)) as [Hc|Hc]; [|by destruct Hne; apply Hsame].
      exfalso. apply Hne.
      destruct (rb_each _ _ _ _ _ _ _ Hrb t) as [Hg _]; [by apply Hrev| |done|].
      { rewrite save_mask_acted, (li_acted _ _ _ _ _ Hinv). set_solver. }
      cbn in Hg. rewrite Hg. unfold get_or. rewrite lookup_insert_ne by congruence.
      by rewrite (li_previous _ _ _ _ _ Hinv).
Qed.

(** A batch keeps the actuator on track, whatever its outcome. *)
Lemma apply_delta_tracks orig stray w a asg live w' a' r :
  tracks orig stray w a → apply_delta w a asg live = (w', a', r) →
  tracks orig (stray ∪ strays w w' a' asg) w' a'.
Proof.
  intros Htr Happ.
  pose proof (apply_delta_act_ok w a asg live (tr_ok _ _ _ _ Htr)) as Hok. rewrite Happ in Hok.
  destruct (apply_delta_books _ _ _ _ _ _ _ Happ) as (Hal & Hsub & Hfr & Hkeep & Hm & Hst).
  split; [done|..].
  - intros t m Ht Hs. rewrite Hal in Ht. eapply tracks_saved; [done..|]. by apply Hm.
  - intros t Ht Hna [Hx Hns]%not_elem_of_union. rewrite Hal in Ht.
    rewrite <-(tr_free _ _ _ _ Htr t) by set_solver.
    destruct (decide (backend_get w' t = backend_get w t)) as [?|Hne]; [done|].
    destruct (decide (t ∈ dom asg)); [|by apply Hfr]. destruct Hns. by apply elem_of_filter.
  - intros t Ht [Hx|Hx]%elem_of_union; [|by apply Hst]. rewrite Hal in Ht.
    by apply Hkeep, (tr_stray _ _ _ _ Htr).
Qed.

(** A batch that succeeds leaves no stray, and one on a backend whose failing
    [set] changes nothing neither. *)
Lemma strays_empty w a asg live w' a' r :
  apply_delta w a asg live = (w', a', r) → ar_success r = true ∨ AtomicSet W →
  strays w w' a' asg = ∅.
Proof.
  intros Happ Hor. apply set_eq. intros t. rewrite elem_of_empty. split; [|done].
  intros [[Hna Hne] _]%elem_of_filter. apply Hne.
  destruct (apply_delta_cases w a asg live _ Happ) as
    [(st & Hinv & [= -> -> ->])|(pre & f & m & rest & st & wf & e & _ & Hinv & Hf & Hset & He & Hrb)].
  - apply (li_frame _ _ _ _ _ Hinv). rewrite (li_acted _ _ _ _ _ Hinv) in Hna. set_solver.
  - destruct Hor as [Hsucc|Hatomic].
    { pose proof (rb_success _ _ _ _ _ _ _ Hrb) as Hs. cbn in Hs.
      destruct (li_result _ _ _ _ _ Hinv) as [vt Hvt]. rewrite Hvt in Hs. cbn in Hs. congruence. }
    assert (t ∈ rev (ap_completed st) ↔ t ∈ ap_completed st) as Hrev
      by (by rewrite !list_elem_of_In, <-in_rev).
    destruct (decide (t ∈ ap_completed st)) as [Hc|Hc].
    + destruct (rb_each _ _ _ _ _ _ _ Hrb t) as [Hg Hp]; [by apply Hrev| |done|].
      { rewrite save_mask_acted, (li_acted _ _ _ _ _ Hinv). set_solver. }
      cbn in Hg. rewrite Hg. unfold get_or in *.
      assert (f ≠ t).
      { intros ->. apply Hf. apply (li_partition _ _ _ _ _ Hinv). by left. }
      rewrite lookup_insert_ne by done. by rewrite (li_previous _ _ _ _ _ Hinv).
    + rewrite (rb_frame _ _ _ _ _ _ _ Hrb) by by rewrite Hrev.
      rewrite <-(li_frame _ _ _ _ _ Hinv) by done.
      destruct (decide (t = f)) as [->|]; [by eapply try_set_false|by eapply try_set_frame].
Qed.

Lemma restore_loop_tracks orig stray w a r l w' a' out :
  tracks orig stray w a → restore_loop w a r l = (w', a', out) →
  tracks orig (stray ∖ (acted_tids a ∖ acted_tids a')) w' a' ∧ acted_tids a' ⊆ acted_tids a.
Proof.
  revert stray w a r. induction l as [|t l IH]; intros stray w a r Htr; cbn.
  { intros Hr. injection Hr as <- <- <-. rewrite difference_diag_L, difference_empty_L. done. }
  case_bool_decide as Hin; cbn; [|by apply IH].
  destruct (restore_masks a !! t) as [cpus|] eqn:Hm.
  2:{ intros Hr; injection Hr as <- <- <-. rewrite difference_diag_L, difference_empty_L. done. }
  destruct (backend_set w t cpus) as [w1 [ok e]] eqn:Hset.
  assert (∀ t', alive w1 t' = alive w t') as Hal by (intros; by eapply set_alive).
  destruct (ok || (e =? ESRCH)) eqn:Hok.
  - intros Hr. apply (IH (stray ∖ {[t]})) in Hr as [Htr' Hsub]; cbn in *.
    { split; [|set_solver].
      replace (stray ∖ (acted_tids a ∖ acted_tids a'))
        with (stray ∖ {[t]} ∖ (acted_tids a ∖ {[t]} ∖ acted_tids a')); [done|].
      apply set_eq. intros x. rewrite !elem_of_difference, elem_of_singleton.
      destruct (decide (x = t)) as [->|]; [|set_solver]. set_solver. }
    split; cbn.
    + intros t' [? ?]%elem_of_difference. cbn. rewrite lookup_delete_ne by set_solver.
      by apply (tr_ok _ _ _ _ Htr).
    + intros t' m Ht'. rewrite Hal in Ht'. intros [_ ?]%lookup_delete_Some.
      by apply (tr_saved _ _ _ _ Htr).
    + intros t' Ht' Hna Hx. rewrite Hal in Ht'. destruct (decide (t' = t)) as [->|Hne].
      * destruct ok; [rewrite (set_true _ _ _ _ _ Hset); by apply (tr_saved _ _ _ _ Htr)|].
        cbn in Hok. bool_hyps. subst. destruct (set_esrch _ _ _ _ Hset). congruence.
      * rewrite (set_frame _ _ _ _ _ _ Hset Hne). apply (tr_free _ _ _ _ Htr); set_solver.
    + intros t' Ht' [Hx Hne]%elem_of_difference. rewrite Hal in Ht'. rewrite lookup_delete_ne by set_solver.
      by apply (tr_stray _ _ _ _ Htr).
  - apply IH. split; [apply Htr| | |].
    + intros t' m Ht'. rewrite Hal in Ht'. by apply (tr_saved _ _ _ _ Htr).
    + intros t' Ht' Hna. rewrite Hal in Ht'.
      rewrite (set_frame _ _ _ _ _ _ Hset) by set_solver. by apply (tr_free _ _ _ _ Htr).
    + intros t' Ht'. rewrite Hal in Ht'. by apply (tr_stray _ _ _ _ Htr).
Qed.

Lemma restore_all_loop_gets masks w r l w' r' :
  NoDup l → restore_all_loop masks w r l = (w', Ok r') →
  (∀ t, alive w' t = alive w t) ∧
  (∀ t, t ∉ l → backend_get w' t = backend_get w t) ∧
  rr_failed r ≤ rr_failed r' ∧
  (rr_failed r' = rr_failed r → ∀ t m, t ∈ l → alive w t = true → masks !! t = Some m →
    backend_get w' t = m).
Proof.
  revert w r. induction l as [|t l IH]; intros w r Hnd; cbn.
  { intros Hr. injection Hr as <- <-. repeat split; [lia|set_solver]. }
  apply NoDup_cons in Hnd as [Htl Hnd].
  destruct (masks !! t) as [cpus|] eqn:Hm; [|done].
  destruct (backend_set w t cpus) as [w1 [ok e]] eqn:Hset. intros Hr.
  destruct (IH _ _ Hnd Hr) as (IHa & IHf & IHle & IHg).
  assert (rr_failed r ≤ rr_failed (count_restore r ok e)) as Hle
    by (unfold count_restore; destruct ok; [|destruct (e =? ESRCH)]; cbn; lia).
  split; [intros; rewrite IHa; by eapply set_alive|].
  split; [|split; [lia|]].
  - intros t' [? ?]%not_elem_of_cons. rewrite IHf by done. by eapply set_frame.
  - intros Hfail t' m [->|Hin]%elem_of_cons Hal Hm'.
    + rewrite IHf by done. rewrite Hm in Hm'. injection Hm' as <-.
      destruct ok; [by eapply set_true|]. destruct (Z.eqb_spec e ESRCH) as [->|He].
      * destruct (set_esrch _ _ _ _ Hset). congruence.
      * unfold count_restore in IHle. apply Z.eqb_neq in He. rewrite He in IHle. cbn in IHle. lia.
    + apply IHg; [|done| |done].
      * lia.
      * rewrite <-Hal. by eapply set_alive.
Qed.
End restoration.

(** A mask table, the backend of the repository's own unit tests: atomic, and
    a missing thread is [ESRCH]. *)
Abbreviation mask_table := (gmap Z (list Z)).

#[export] Instance table_Backend : AffinityBackend mask_table := {|
  backend_get w t := get_or [] w t;
  backend_set w t m :=
    match w !! t with
    | None => (w, (false, ESRCH))
    | Some _ =>
        (* the test backend rejects CPU 99 *)
        if bool_decide (99 ∈ m) then (w, (false, EINVAL)) else (<[t := m]> w, (true, 0))
    end |}.

#[export, program] Instance table_BackendLaws : AffinityBackendLaws mask_table :=
  {| alive w t := bool_decide (is_Some (w !! t)) |}.
Next Obligation.
  intros w t m w' e. cbn. destruct (w !! t); [|done]. case_bool_decide; [done|].
  intros Hs. injection Hs as <- _. unfold get_or. by rewrite lookup_insert_eq.
Qed.
Next Obligation.
  intros w t m w' r t' Hs Hne. cbn in *. unfold get_or. revert Hs.
  destruct (w !! t); [|intros Hs; by injection Hs as <- _].
  case_bool_decide; intros Hs; injection Hs as <- _; [done|]. by rewrite lookup_insert_ne.
Qed.
Next Obligation.
  intros w t m w' r t' Hs. cbn in *. revert Hs.
  destruct (w !! t) eqn:E; [|intros Hs; by injection Hs as <- _].
  case_bool_decide; intros Hs; injection Hs as <- _; [done|]. apply bool_decide_ext.
  rewrite lookup_insert. case_decide; [subst; rewrite E|done]. split; by eexists.
Qed.
Next Obligation. intros w t m w' e. cbn. by destruct (w !! t). Qed.
Next Obligation.
  intros w t m w'. cbn. destruct (w !! t) eqn:E; [case_bool_decide; done|].
  intros Hs. by injection Hs as <-.
Qed.

#[export] Instance table_AtomicSet : AtomicSet mask_table.
Proof.
  intros w t m w' e. cbn. destruct (w !! t); [case_bool_decide; [|done]|]; intros Hs; by injection Hs as <- _.
Qed.

(** What a batch that reports success has done. *)
Record batch_applied {W} `{AffinityBackendLaws W} (w : W) (a : Actuator) (asg : gmap Z (list Z))
    (w' : W) (a' : Actuator) (r : ApplyResult) : Prop := {
  ba_requested : ar_requested r = ar_applied r + ar_vanished r;
  ba_committed : ar_committed r = ar_applied r ∧ ar_committed r = Z.of_nat (size (ar_committed_tids r));
  ba_all : ar_committed_tids r ∪ ar_vanished_tids r = dom asg;
  ba_disjoint : ar_committed_tids r ## ar_vanished_tids r;
  ba_masks : ∀ t m, asg !! t = Some m → t ∈ ar_committed_tids r → backend_get w' t = m;
  ba_frame : ∀ t, t ∉ ar_committed_tids r → backend_get w' t = backend_get w t;
  ba_acted : acted_tids a' = acted_tids a ∪ ar_committed_tids r;
  ba_alive : ∀ t, alive w' t = alive w t;
}.

Lemma apply_delta_applied {W} `{AffinityBackendLaws W} (w : W) a asg live w' a' r :
  apply_delta w a asg live = (w', a', r) → ar_success r = true → batch_applied w a asg w' a' r.
Proof.
  intros Happ Hs.
  destruct (apply_delta_cases _ _ _ _ _ Happ) as
    [(st & Hinv & [= -> -> ->])|(pre & f & m & rest & st & wf & e & _ & Hinv & _ & _ & _ & Hrb)].
  2:{ pose proof (rb_success _ _ _ _ _ _ _ Hrb) as Hf. cbn in Hf.
      destruct (li_result _ _ _ _ _ Hinv) as [vt Hvt]. rewrite Hvt in Hf. cbn in Hf. congruence. }
  destruct Hinv. destruct li_result0 as [vt Hr]. rewrite Hr in *. cbn in *.
  assert (list_to_set (ap_completed st) ∪ ∅ ∪ vt = dom asg) as Hdom.
  { apply set_eq. intros t. rewrite elem_of_dom, !elem_of_union, elem_of_list_to_set.
    transitivity (t ∈ (items asg).*1); [rewrite li_partition0; set_solver|].
    rewrite list_elem_of_fmap. split.
    - intros ([t' m] & -> & Hin%elem_of_items). by exists m.
    - intros [m Hm]. exists (t, m). split; [done|]. by apply elem_of_items. }
  assert (list_to_set (ap_completed st) ∪ ∅ ## vt) as Hdisj by set_solver.
  assert (size (list_to_set (ap_completed st) ∪ ∅ : gset Z) = length (ap_completed st)) as Hsize.
  { rewrite union_empty_r_L. by rewrite size_list_to_set. }
  constructor; cbn; try done.
  - rewrite <-size_dom, <-Hdom, size_union by done. lia.
  - by rewrite Hsize.
  - intros t m Hm Ht. apply li_target0; [by apply elem_of_items|set_solver].
  - intros t Ht. apply li_frame0. set_solver.
  - rewrite li_acted0. set_solver.
Qed.

Lemma apply_delta_alive {W} `{AffinityBackendLaws W} (w : W) a asg live w' a' r t :
  apply_delta w a asg live = (w', a', r) → alive w' t = alive w t.
Proof.
  intros Happ. destruct (apply_delta_cases _ _ _ _ _ Happ) as
    [(st & Hinv & [= -> -> ->])|(pre & f & m & rest & st & wf & e & _ & Hinv & _ & Hset & _ & Hrb)].
  - apply (li_alive _ _ _ _ _ Hinv).
  - pose proof (rb_alive _ _ _ _ _ _ _ Hrb t) as Hal. cbn in Hal. rewrite Hal.
    rewrite (try_set_alive _ _ _ _ _ _ Hset). apply (li_alive _ _ _ _ _ Hinv).
Qed.

(** A selective restore does not throw on a consistent actuator, and only
    touches the threads it was given. *)
Lemma restore_loop_total {W} `{AffinityBackendLaws W} (w : W) a r l :
  act_ok a → ∃ w' a' r', restore_loop w a r l = (w', a', Ok r') ∧ act_ok a' ∧
    (∀ t, t ∉ l → backend_get w' t = backend_get w t) ∧ (∀ t, alive w' t = alive w t).
Proof.
  revert w a r. induction l as [|t l IH]; intros w a r Ha; cbn; [by exists w, a, r|].
  case_bool_decide as Hin; cbn.
  - destruct (Ha t Hin) as [cpus ->]. destruct (backend_set w t cpus) as [w1 [ok e]] eqn:Hset.
    edestruct IH as (w' & a' & r' & -> & Ha' & Hf & Hl);
      [|exists w', a', r'; split_and!; [done|done| |]].
    + destruct (ok || _); [|done]. intros t'; cbn. intros [? ?]%elem_of_difference.
      rewrite lookup_delete_ne by set_solver. by apply Ha.
    + intros t' [Hne Ht']%not_elem_of_cons. rewrite Hf by done. by apply (set_frame _ _ _ _ _ _ Hset).
    + intros t'. rewrite Hl. by apply (set_alive _ _ _ _ _ _ Hset).
  - destruct (IH w a r Ha) as (w' & a' & r' & -> & Ha' & Hf & Hl).
    exists w', a', r'. split_and!; try done. intros t' Ht'. apply Hf. set_solver.
Qed.

(** ** Properties *)

(** C2: a batch that reports success accounts for every requested TID exactly
    once (committed or vanished), leaves each committed TID with exactly the
    requested mask, leaves every other thread's mask alone, and records exactly
    the committed TIDs as acted upon. *)
Theorem apply_success_commits {W} `{AffinityBackendLaws W} (w : W) a d live w' a' r :
  apply w a d live = (w', a', r) → ar_success r = true →
  ar_requested r = ar_applied r + ar_vanished r ∧
  ar_committed r = ar_applied r ∧ ar_committed r = Z.of_nat (size (ar_committed_tids r)) ∧
  ar_committed_tids r ∪ ar_vanished_tids r = dom (delta_masks d) ∧
  ar_committed_tids r ## ar_vanished_tids r ∧
  (∀ t m, delta_masks d !! t = Some m → t ∈ ar_committed_tids r → backend_get w' t = m) ∧
  (∀ t, t ∉ ar_committed_tids r → backend_get w' t = backend_get w t) ∧
  acted_tids a' = acted_tids a ∪ ar_committed_tids r.
Proof.
  intros Happ Hs. destruct (apply_delta_applied _ _ _ _ _ _ _ Happ Hs) as [? [] ? ? ? ? ? _]. done.
Qed.

Definition table3 : mask_table := {[1 := [0; 1]; 2 := [0; 1]; 3 := [2; 3]]}.
Definition delta12 : PlacementDelta := mk_PlacementDelta {[1 := 3]} {[2 := [2; 3]]}.

Lemma apply_success_commits_witness :
  let '(w', a', r) := apply table3 Actuator_init delta12 {[1; 2; 3]} in
  ar_committed_tids r ∪ ar_vanished_tids r = dom (delta_masks delta12) ∧
  backend_get w' 1 = [3] ∧ backend_get w' 3 = [2; 3].
Proof.
  destruct (apply table3 Actuator_init delta12 {[1; 2; 3]}) as [[w' a'] r] eqn:E.
  assert (ar_success r = true) as Hs by (vm_compute in E; by injection E as <- <- <-).
  destruct (apply_success_commits _ _ _ _ _ _ _ E Hs) as (_ & _ & _ & Hd & _ & Hm & Hf & _).
  split; [exact Hd|]. vm_compute in E. injection E as <- <- <-. split; reflexivity.
Defined.

(** C1: when a batch fails and the rollback reports success, no TID is
    committed, every completed TID has been rolled back, and every thread other
    than the one whose write failed has the mask it had before the batch; the
    set of TIDs the policy has acted on is unchanged. *)
Theorem apply_failure_rolls_back {W} `{AffinityBackendLaws W} (w : W) a d live w' a' r :
  apply w a d live = (w', a', r) → ar_success r = false → ar_rollback_success r = true →
  ar_committed_tids r = ∅ ∧ ar_rolled_back r = ar_applied r ∧ ar_error r ≠ ESRCH ∧
  acted_tids a' = acted_tids a ∧
  ∃ failing, failing ∈ dom (delta_masks d) ∧
    ∀ t, t ≠ failing → backend_get w' t = backend_get w t.
Proof.
  intros Happ Hs Hrs. unfold apply in Happ.
  destruct (apply_delta_cases _ _ _ _ _ Happ) as
    [(st & Hinv & [= -> -> ->])|(pre & f & m & rest & st & wf & e & Hit & Hinv & Hf & Hset & He & Hrb)];
    [done|].
  destruct (li_result _ _ _ _ _ Hinv) as [vt Hvt].
  destruct Hrb as [F A S E C M T N X L]. cbn in *. destruct (L Hrs) as (_ & Lg & La & Ln).
  rewrite Hvt in *. cbn in *. rewrite length_rev in Ln.
  assert (∀ t, t ∈ rev (ap_completed st) ↔ t ∈ ap_completed st) as Hrev.
  { intros t. by rewrite !list_elem_of_In, <-in_rev. }
  assert (f ∉ ap_completed st) as Hfc.
  { intros Hin. apply Hf. apply (li_partition _ _ _ _ _ Hinv). by left. }
  split; [done|]. split; [lia|]. split; [congruence|]. split.
  - apply set_eq. intros t. destruct (decide (t ∈ ap_completed st)) as [Hc|Hc].
    + rewrite La by by rewrite Hrev. unfold get_or. rewrite lookup_insert_ne by (by intros ->).
      rewrite (li_pacted _ _ _ _ _ Hinv) by done. cbn.
      rewrite save_mask_acted, (li_acted _ _ _ _ _ Hinv), bool_decide_eq_true. set_solver.
    + rewrite T by by rewrite Hrev. rewrite save_mask_acted, (li_acted _ _ _ _ _ Hinv). set_solver.
  - exists f. split.
    { apply elem_of_dom. exists m. apply elem_of_items. rewrite Hit. set_solver. }
    intros t Hne. destruct (decide (t ∈ ap_completed st)) as [Hc|Hc].
    + rewrite Lg by by rewrite Hrev. unfold get_or. rewrite lookup_insert_ne by congruence.
      by rewrite (li_previous _ _ _ _ _ Hinv).
    + rewrite F by by rewrite Hrev. rewrite (try_set_frame _ _ _ _ _ _ Hset) by done.
      by apply (li_frame _ _ _ _ _ Hinv).
Qed.

Definition delta_bad : PlacementDelta := mk_PlacementDelta ∅ {[1 := [3]; 2 := [2]; 3 := [99]]}.

Lemma apply_failure_rolls_back_witness :
  let '(w', a', r) := apply table3 Actuator_init delta_bad {[1; 2; 3]} in
  ar_rolled_back r = 2 ∧ ar_error r = EINVAL ∧ acted_tids a' = ∅ ∧ backend_get w' 1 = [0; 1].
Proof.
  destruct (apply table3 Actuator_init delta_bad {[1; 2; 3]}) as [[w' a'] r] eqn:E.
  assert (ar_success r = false ∧ ar_rollback_success r = true) as [Hs Hr]
    by (vm_compute in E; by injection E as <- <- <-).
  destruct (apply_failure_rolls_back _ _ _ _ _ _ _ E Hs Hr) as (_ & _ & _ & Ha & _).
  assert (ar_rolled_back r = 2 ∧ ar_error r = EINVAL ∧ backend_get w' 1 = [0; 1]) as (? & ? & ?)
    by (vm_compute in E; injection E as <- <- <-; repeat split; reflexivity).
  auto.
Defined.

(** *** The actuator as a transition system

    A configuration is the application's wish for every thread, the stray
    threads, the world and the actuator.  The steps are the calls the runtime
    makes and what happens around them: a batch, with any outcome; a selective
    restore; [application_affinity], where the application changes its own mask
    and the runtime notes it; the first scan of a thread, which saves its
    parent's mask for it when there is one and the mask it is seen with
    otherwise; a clone, under an identifier the actuator has no record of, and an
    exit. *)
Record Binding (W : Type) := mk_Binding {
  bd_orig : Z → list Z;
  bd_stray : gset Z;
  bd_world : W;
  bd_actuator : Actuator;
}.
Arguments mk_Binding {W} _ _ _ _.
Arguments bd_orig {W} _.
Arguments bd_stray {W} _.
Arguments bd_world {W} _.
Arguments bd_actuator {W} _.

Definition wish (orig : Z → list Z) (t : Z) (m : list Z) : Z → list Z :=
  λ t', if decide (t' = t) then m else orig t'.

Section lifecycle.
Context {W : Type} `{AffinityBackendLaws W}.

(** Only thread [t] differs. *)
Definition differs_at (t : Z) (w w' : W) : Prop :=
  ∀ t', t' ≠ t → alive w' t' = alive w t' ∧ backend_get w' t' = backend_get w t'.

Inductive actuator_step : Binding W → Binding W → Prop :=
  | step_apply orig stray w a d live w' a' r :
      apply w a d live = (w', a', r) →
      actuator_step (mk_Binding orig stray w a)
        (mk_Binding orig (stray ∪ strays w w' a' (delta_masks d)) w' a')
  | step_restore orig stray w a tids w' a' r :
      restore w a tids = (w', a', r) →
      actuator_step (mk_Binding orig stray w a)
        (mk_Binding orig (stray ∖ (acted_tids a ∖ acted_tids a')) w' a')
  | step_declare orig stray w a t m w' e :
      backend_set w t m = (w', (true, e)) →
      actuator_step (mk_Binding orig stray w a)
        (mk_Binding (wish orig t m) (stray ∖ {[t]}) w' (note_application_mask a t m))
  | step_inherit orig stray w a t parent m :
      let a' := note_inherited_mask a t parent (backend_get w t) in
      restore_masks a' !! t = Some m →
      actuator_step (mk_Binding orig stray w a)
        (mk_Binding (wish orig t m)
           (if decide (m = backend_get w t) then stray else {[t]} ∪ stray) w a')
  | step_clone orig stray w a t w' :
      differs_at t w w' → alive w' t = true → restore_masks a !! t = None →
      actuator_step (mk_Binding orig stray w a)
        (mk_Binding (wish orig t (backend_get w' t)) (stray ∖ {[t]}) w' a)
  | step_exit orig stray w a t w' :
      differs_at t w w' → alive w' t = false →
      actuator_step (mk_Binding orig stray w a) (mk_Binding orig stray w' a).

Definition binding_tracks (b : Binding W) : Prop :=
  tracks (bd_orig b) (bd_stray b) (bd_world b) (bd_actuator b).

Lemma declare_tracks orig stray w a t m w' e :
  backend_set w t m = (w', (true, e)) → tracks orig stray w a →
  tracks (wish orig t m) (stray ∖ {[t]}) w' (note_application_mask a t m).
Proof.
  intros Hset Htr. assert (∀ t', alive w' t' = alive w t') as Hal by (intros; by eapply set_alive).
  unfold wish. split.
  - intros t' Ht'. cbn in *. rewrite lookup_insert. case_decide; [by eexists|].
    by apply (tr_ok _ _ _ _ Htr).
  - intros t' m'. rewrite Hal. cbn. rewrite lookup_insert. intros Ht'.
    destruct (decide (t = t')) as [->|]; [rewrite decide_True by done; congruence|].
    rewrite decide_False by done. by apply (tr_saved _ _ _ _ Htr).
  - intros t' Ht' Hna Hx. cbn in Hna. rewrite Hal in Ht'. case_decide as Heq.
    + subst. by eapply set_true.
    + rewrite (set_frame _ _ _ _ _ _ Hset Heq). apply (tr_free _ _ _ _ Htr); [done..|]. set_solver.
  - intros t' Ht' Hx. rewrite Hal in Ht'. cbn. rewrite lookup_insert. case_decide; [by eexists|].
    apply (tr_stray _ _ _ _ Htr); [done|]. set_solver.
Qed.

Lemma inherit_tracks orig stray w a t parent m :
  restore_masks (note_inherited_mask a t parent (backend_get w t)) !! t = Some m →
  tracks orig stray w a →
  tracks (wish orig t m) (if decide (m = backend_get w t) then stray else {[t]} ∪ stray) w
    (note_inherited_mask a t parent (backend_get w t)).
Proof.
  intros Hm Htr.
  assert (acted_tids (note_inherited_mask a t parent (backend_get w t)) = acted_tids a) as Hact
    by (unfold note_inherited_mask; by destruct (restore_masks a !! t)).
  assert (∀ t', t' ≠ t → restore_masks (note_inherited_mask a t parent (backend_get w t)) !! t' =
    restore_masks a !! t') as Hother.
  { intros t' Hne. unfold note_inherited_mask. destruct (restore_masks a !! t); [done|].
    cbn. by rewrite lookup_insert_ne. }
  unfold wish. split.
  - intros t'. rewrite Hact. intros Ht'. destruct (decide (t' = t)) as [->|]; [by eexists|].
    rewrite Hother by done. by apply (tr_ok _ _ _ _ Htr).
  - intros t' m' Ht' Hm'. case_decide as Heq; [subst; congruence|]. rewrite Hother in Hm' by done.
    by apply (tr_saved _ _ _ _ Htr).
  - intros t' Ht'. rewrite Hact. intros Hna Hx. destruct (decide (t' = t)) as [->|Hne].
    + case_decide; [done|set_solver].
    + apply (tr_free _ _ _ _ Htr); [done..|]. case_decide; set_solver.
  - intros t' Ht' Hx. destruct (decide (t' = t)) as [->|Hne]; [by eexists|]. rewrite Hother by done.
    apply (tr_stray _ _ _ _ Htr); [done|]. case_decide; set_solver.
Qed.

Lemma clone_tracks orig stray w a t w' :
  differs_at t w w' → restore_masks a !! t = None → tracks orig stray w a →
  tracks (wish orig t (backend_get w' t)) (stray ∖ {[t]}) w' a.
Proof.
  intros Hd Hn Htr. unfold wish. split; [apply Htr|..].
  - intros t' m Ht' Hm. case_decide as Heq; [subst; congruence|]. destruct (Hd t' Heq) as [Hal _].
    rewrite Hal in Ht'. by apply (tr_saved _ _ _ _ Htr).
  - intros t' Ht' Hna Hx. case_decide as Heq; [by subst|]. destruct (Hd t' Heq) as [Hal ->].
    rewrite Hal in Ht'. apply (tr_free _ _ _ _ Htr); [done..|]. set_solver.
  - intros t' Ht' [Hx Hne]%elem_of_difference. rewrite elem_of_singleton in Hne.
    destruct (Hd t' Hne) as [Hal _]. rewrite Hal in Ht'. by apply (tr_stray _ _ _ _ Htr).
Qed.

Lemma exit_tracks orig stray w a t w' :
  differs_at t w w' → alive w' t = false → tracks orig stray w a → tracks orig stray w' a.
Proof.
  intros Hd Hdead Htr.
  assert (∀ t', alive w' t' = true → alive w t' = true ∧ backend_get w' t' = backend_get w t') as Hal.
  { intros t' Ht'. destruct (decide (t' = t)) as [->|Hne]; [congruence|].
    destruct (Hd t' Hne) as [<- ?]. done. }
  split; [apply Htr|..].
  - intros t' m [Ht' _]%Hal. by apply (tr_saved _ _ _ _ Htr).
  - intros t' [Ht' ->]%Hal. by apply (tr_free _ _ _ _ Htr).
  - intros t' [Ht' _]%Hal. by apply (tr_stray _ _ _ _ Htr).
Qed.

Lemma actuator_step_tracks c c' : actuator_step c c' → binding_tracks c → binding_tracks c'.
Proof.
  unfold binding_tracks. intros Hstep Htr. destruct Hstep; cbn in *.
  - by eapply apply_delta_tracks.
  - by eapply restore_loop_tracks.
  - by eapply declare_tracks.
  - by apply inherit_tracks.
  - by eapply clone_tracks.
  - by eapply exit_tracks.
Qed.

(** Everything since the actuator was last empty. *)
Definition history (w0 : W) : Binding W → Prop :=
  rtc actuator_step (mk_Binding (backend_get w0) ∅ w0 Actuator_init).

Lemma history_tracks w0 b : history w0 b → binding_tracks b.
Proof.
  intros Hrtc. apply (rtc_ind_r binding_tracks) with (3 := Hrtc).
  - apply tracks_init.
  - intros. by eapply actuator_step_tracks.
Qed.
End lifecycle.

Lemma restore_all_tracks {W} `{AffinityBackendLaws W} (w : W) orig stray a :
  tracks orig stray w a →
  ∃ w' r, restore_all w a = (w', Actuator_init, Ok r) ∧
    rr_requested r = Z.of_nat (size (acted_tids a)) ∧
    rr_restored r + rr_vanished r + rr_failed r = rr_requested r ∧
    (∀ t, alive w' t = alive w t) ∧
    (∀ t, t ∉ acted_tids a → backend_get w' t = backend_get w t) ∧
    (rr_success r = true → ∀ t, alive w' t = true → t ∈ acted_tids a ∨ t ∉ stray →
       backend_get w' t = orig t).
Proof.
  intros [Hok Hs Hf _].
  destruct (restore_all_loop_counts (restore_masks a) w
    (mk_RestoreResult (Z.of_nat (size (acted_tids a))) 0 0 0) (set_items (acted_tids a)))
    as (w' & r & Hl & Hreq & Hsum).
  { intros t Ht%elem_of_set_items. by apply Hok. }
  exists w', r. unfold restore_all. rewrite Hl. rewrite length_set_items in Hsum. cbn in *.
  destruct (restore_all_loop_gets _ _ _ _ _ _ (NoDup_set_items _) Hl) as (Ha & Hfr & _ & Hg).
  split; [done|]. split; [done|]. split; [lia|]. split; [done|]. split.
  { intros t Ht. apply Hfr. by rewrite elem_of_set_items. }
  intros Hsucc t Hal Hor. rewrite Ha in Hal. unfold rr_success in Hsucc. bool_hyps. cbn in *.
  destruct (decide (t ∈ acted_tids a)) as [Hin|Hin].
  - destruct (Hok t Hin) as [m Hm]. rewrite (Hg Hsucc t m); [by apply Hs| |done|done].
    by apply elem_of_set_items.
  - rewrite Hfr by by rewrite elem_of_set_items. apply Hf; [done..|]. by destruct Hor.
Qed.

(** after any history, [restore_all] does not throw, handles every acted TID
    exactly once, leaves the actuator empty, and, when it reports no failure,
    every live thread that was acted on or is no stray has the application's own
    mask again. *)
Theorem full_restore {W} `{AffinityBackendLaws W} (w0 : W) b :
  history w0 b →
  ∃ w' r, restore_all (bd_world b) (bd_actuator b) = (w', Actuator_init, Ok r) ∧
    rr_requested r = Z.of_nat (size (acted_tids (bd_actuator b))) ∧
    rr_restored r + rr_vanished r + rr_failed r = rr_requested r ∧
    (rr_success r = true → ∀ t, alive w' t = true →
       t ∈ acted_tids (bd_actuator b) ∨ t ∉ bd_stray b → backend_get w' t = bd_orig b t).
Proof.
  intros Hrtc%history_tracks.
  destruct (restore_all_tracks _ _ _ _ Hrtc) as (w' & r & H1 & H2 & H3 & _ & _ & H4). by exists w', r.
Qed.

Lemma full_restore_witness :
  let '(w, a, _) := apply table3 Actuator_init delta12 {[1; 2; 3]} in
  ∃ w' r, restore_all w a = (w', Actuator_init, Ok r) ∧ rr_restored r = 2 ∧
    backend_get w' 1 = [0; 1] ∧ backend_get w' 2 = [0; 1].
Proof.
  destruct (apply table3 Actuator_init delta12 {[1; 2; 3]}) as [[w a] r0] eqn:E.
  assert (history table3 (mk_Binding (backend_get table3)
    (∅ ∪ strays table3 w a (delta_masks delta12)) w a)) as Hrtc.
  { eapply rtc_l; [|apply rtc_refl]. eapply step_apply. exact E. }
  destruct (full_restore table3 _ Hrtc) as (w' & r & Hr & _ & _ & Hg).
  exists w', r. split; [exact Hr|]. cbn in Hg.
  vm_compute in E. injection E as <- <- <-. vm_compute in Hr. injection Hr as <- <-.
  split; [reflexivity|].
  split; [apply (Hg eq_refl 1 eq_refl)|apply (Hg eq_refl 2 eq_refl)]; left;
    apply (bool_decide_unpack _); vm_compute; exact I.
Defined.

(** [restore_all] and [restore] never write a thread the policy has not
    acted on.  In particular a thread that was only registered by
    [note_inherited_mask] (it was cloned with its parent's policy mask, and the
    solver recorded it as inherited, without a system call) keeps that policy
    mask: its saved application mask is dropped without being written back. *)
Theorem restore_all_skips_inherited {W} `{AffinityBackendLaws W} (w : W) a t parent observed :
  act_ok a → t ∉ acted_tids a →
  ∃ w' r, restore_all w (note_inherited_mask a t parent observed) = (w', Actuator_init, Ok r) ∧
    backend_get w' t = backend_get w t.
Proof.
  intros Hok Ht. set (a' := note_inherited_mask a t parent observed).
  assert (acted_tids a' = acted_tids a) as Hacted
    by (unfold a', note_inherited_mask; by destruct (restore_masks a !! t)).
  assert (act_ok a') as Hok'.
  { intros t'. rewrite Hacted. intros Ht'%Hok. unfold a', note_inherited_mask.
    destruct (restore_masks a !! t); [done|]. cbn. rewrite lookup_insert.
    case_decide; [by eexists|done]. }
  destruct (restore_all_loop_counts (restore_masks a') w
    (mk_RestoreResult (Z.of_nat (size (acted_tids a'))) 0 0 0) (set_items (acted_tids a')))
    as (w' & r & Hl & _).
  { intros t' Ht'%elem_of_set_items. by apply Hok'. }
  exists w', r. unfold restore_all. rewrite Hl. split; [done|].
  destruct (restore_all_loop_gets _ _ _ _ _ _ (NoDup_set_items _) Hl) as (_ & Hfr & _).
  apply Hfr. by rewrite elem_of_set_items, Hacted.
Qed.

(** Thread 1 (application mask 0-1) is pinned to CPU 3, then clones thread 4,
    which inherits the pin; after [restore_all] thread 4 is still pinned. *)
Lemma restore_all_skips_inherited_witness :
  let '(w, a, _) := apply table3 Actuator_init delta12 {[1; 2; 3]} in
  let w := <[4 := [3]]> w in
  ∃ w' r, restore_all w (note_inherited_mask a 4 1 [3]) = (w', Actuator_init, Ok r) ∧
    backend_get w' 4 = [3] ∧ restore_masks (note_inherited_mask a 4 1 [3]) !! 4 = Some [0; 1].
Proof.
  destruct (apply table3 Actuator_init delta12 {[1; 2; 3]}) as [[w a] r0] eqn:E.
  assert (act_ok a) as Hok.
  { pose proof (apply_delta_act_ok table3 Actuator_init (delta_masks delta12) {[1; 2; 3]}) as Hk.
    unfold apply in E. rewrite E in Hk. apply Hk. by intros t ?%elem_of_empty. }
  assert (4 ∉ acted_tids a) as Hn.
  { apply (bool_decide_eq_false_1 (4 ∈ acted_tids a)).
    vm_compute in E. injection E as <- <- <-. reflexivity. }
  destruct (restore_all_skips_inherited (<[4 := [3]]> w) a 4 1 [3] Hok Hn) as (w' & r & Hr & Hg).
  exists w', r. split; [exact Hr|]. split.
  - rewrite Hg. vm_compute in E. injection E as <- <- <-. reflexivity.
  - vm_compute in E. injection E as <- <- <-. reflexivity.
Defined.

(** a failing write is not undone.  Under a cpuset the kernel silently
    intersects the requested mask, [LinuxAffinityBackend::set] then reports
    [EIO] because the mask read back differs, and [apply_delta] returns
    [rollback_success] with that thread's mask changed, not recorded as acted
    upon, and out of reach of [restore_all]. *)
Theorem apply_eio_leaves_mask :
  let w0 := mk_cpuset_kernel {[7 := {[0; 1]}]} {[0; 1]} in
  let '(w1, a1, r) :=
    apply w0 Actuator_init (mk_PlacementDelta ∅ {[7 := [1; 2]]}) {[7]} in
  let '(w2, a2, r2) := restore_all w1 a1 in
  ar_success r = false ∧ ar_error r = EIO ∧ ar_rollback_success r = true ∧
  acted_tids a1 = ∅ ∧ is_ok r2 = true ∧
  backend_get w0 7 = [0; 1] ∧ backend_get w1 7 = [1] ∧ backend_get w2 7 = [1].
Proof. vm_compute. repeat split; reflexivity. Qed.

(** [LinuxAffinityBackend::set] reports success on a non-empty request only
    for a strictly increasing list of CPUs below [CPU_SETSIZE] that the kernel
    holds exactly: an unsorted or repeated list is reported as an error even
    when the kernel accepts the set. *)
Theorem linux_set_exact {W} `{Kernel W} (w : W) t cpus w' e :
  linux_set w t cpus = (w', (true, e)) → cpus ≠ [] →
  StronglySorted Z.lt cpus ∧ Forall (λ c, 0 ≤ c < CPU_SETSIZE) cpus ∧
  ∃ s, sched_getaffinity w' t = Some s ∧ ∀ c, 0 ≤ c < CPU_SETSIZE → c ∈ s ↔ c ∈ cpus.
Proof.
  intros Hs Hne. destruct (linux_set_inv _ _ _ _ _ _ Hs) as [(_ & ? & _)|(rc & Hk & Hc)]; [done|].
  assert (linux_get w' t = cpus) as Hget by naive_solver. unfold linux_get in Hget.
  destruct (sched_getaffinity w' t) as [s|] eqn:Es; [|congruence]. subst cpus. split; [|split].
  - apply sorted_filter, seqZ_sorted.
  - apply Forall_forall. intros c [_ Hin%elem_of_seqZ]%list_elem_of_filter. lia.
  - exists s. split; [done|]. intros c Hr. rewrite list_elem_of_filter, elem_of_seqZ. intuition lia.
Qed.

Lemma linux_set_exact_witness :
  StronglySorted Z.lt [0; 1] ∧ Forall (λ c, 0 ≤ c < CPU_SETSIZE) [0; 1].
Proof.
  destruct (linux_set_exact (mk_cpuset_kernel {[7 := {[0; 1; 2]}]} {[0; 1; 2]}) 7 [0; 1]
    (mk_cpuset_kernel {[7 := {[0; 1]}]} {[0; 1; 2]}) 0) as (H1 & H2 & _);
    [vm_compute; reflexivity|discriminate|exact (conj H1 H2)].
Defined.
