(* ===== verification/Topology.v ===== *)
(** * Hardware topology ([src/topology.cpp])

    [HardwareGraph]: discovery from sysfs, loading of the latency calibration,
    and the queries the solvers use.  The file system is outside the
    repository: [SysFs] gives the few facts read from it (which CPU
    directories exist, their [online] word and entries, the NUMA distance rows)
    and [load_calibration] takes the lines of the calibration file. *)
From Stdlib Require Import SpecFloat Ascii.
From S2P Require Import Prelude Binary64 Core CpuList.
Local Open Scope Z_scope.

(** ** [std::stod]

    [strtod] in the C locale, then the [ERANGE] test of [std::stod]: optional
    blanks and sign, then [inf]/[infinity] or [nan] in any case, a hexadecimal
    literal, or decimal digits with an optional fraction and exponent; trailing
    text is ignored.  An overflow, or a tiny result that had to be rounded, is
    [ERANGE] and throws [std::out_of_range]; an explicit [inf] does not. *)
Fixpoint span (p : ascii → bool) (l : list ascii) : list ascii * list ascii :=
  match l with
  | c :: l' => if p c then let '(a, b) := span p l' in (c :: a, b) else ([], l)
  | [] => ([], [])
  end.

(** An optional sign. *)
Definition sign_of (l : list ascii) : bool * list ascii :=
  match l with
  | c :: l' => if bool_decide (c = "-"%char) then (true, l')
               else if bool_decide (c = "+"%char) then (false, l') else (false, l)
  | [] => (false, l)
  end.

Definition lower (c : ascii) : ascii :=
  if (65 <=? code c) && (code c <=? 90) then ascii_of_N (Z.to_N (code c + 32)) else c.

(** The text starts with the lower-case [word], in any case. *)
Fixpoint has_word (word l : list ascii) : bool :=
  match word, l with
  | [], _ => true
  | w :: word', c :: l' => bool_decide (lower c = w) && has_word word' l'
  | _, [] => false
  end.

(** The exponent part after the letter [c0], or 0 when it is absent or has no
    digits. *)
Definition exponent_of (c0 : ascii) (l : list ascii) : Z :=
  match l with
  | c :: l' =>
      if bool_decide (lower c = c0) then
        let '(neg, body) := sign_of l' in
        let v := digits_value 0 body in if neg then - v else v
      else 0
  | [] => 0
  end.

(** Digits, optionally followed by a point and more digits. *)
Definition digits_and_fraction (p : ascii → bool) (l : list ascii) :
    list ascii * list ascii * list ascii :=
  let '(ip, rest) := span p l in
  match rest with
  | c :: r => if bool_decide (c = "."%char) then let '(fp, r') := span p r in (ip, fp, r')
              else (ip, [], rest)
  | [] => (ip, [], [])
  end.

(** [m * 10 ^ e], rounded once. *)
Definition decimal_double (neg : bool) (m e : Z) : double :=
  match m with
  | Z.pos p =>
      if (0 <=? e)%Z then
        match (Z.pos p * 10 ^ e)%Z with
        | Z.pos q => binary_round 53 1024 neg q 0
        | _ => S754_zero neg
        end
      else SFdiv 53 1024 (S754_finite neg p 0) (S754_finite false (Z.to_pos (10 ^ (- e))%Z) 0)
  | _ => S754_zero neg
  end.

Definition is_hex (c : ascii) : bool :=
  isdigit c || ((97 <=? code (lower c)) && (code (lower c) <=? 102)).
Definition hex_val (c : ascii) : Z :=
  if isdigit c then digit_val c else code (lower c) - 87.
Definition hex_value (l : list ascii) : Z := foldl (λ acc c, acc * 16 + hex_val c) 0 l.

Definition hex_double (neg : bool) (m e : Z) : double :=
  match m with Z.pos p => binary_round 53 1024 neg p e | _ => S754_zero neg end.

(** [errno == ERANGE] for the value [num / den] ([num], [den] positive or
    [num = 0]) rounded to [d]: overflow, or a subnormal (or zero) result that
    is not exact. *)
Definition erange (num den : Z) (d : double) : bool :=
  match d with
  | S754_finite _ m e =>
      (Z.pos m <? 2 ^ 52) && negb (num * 2 ^ Z.max 0 (- e) =? Z.pos m * 2 ^ Z.max 0 e * den)
  | S754_zero _ => negb (num =? 0)
  | _ => true
  end.

Definition hex_literal (l : list ascii) : option (list ascii * list ascii * list ascii) :=
  match l with
  | z :: x :: l' =>
      if bool_decide (z = "0"%char) && bool_decide (lower x = "x"%char) then
        let '(ip, fp, rest) := digits_and_fraction is_hex l' in
        if bool_decide (ip = []) && bool_decide (fp = []) then None else Some (ip, fp, rest)
      else None
  | _ => None
  end.

Definition stod (l : list ascii) : result double :=
  let '(neg, body) := sign_of (drop_spaces l) in
  if has_word (chars "inf") body then Ok (S754_infinity neg) else
  if has_word (chars "nan") body then Ok S754_nan else
  match hex_literal body with
  | Some (ip, fp, rest) =>
      let m := hex_value (ip ++ fp) in
      let e := exponent_of "p"%char rest - 4 * Z.of_nat (length fp) in
      let d := hex_double neg m e in
      if erange (m * 2 ^ Z.max 0 e) (2 ^ Z.max 0 (- e)) d
      then Throw (out_of_range "stod") else Ok d
  | None =>
      let '(ip, fp, rest) := digits_and_fraction isdigit body in
      if bool_decide (ip = []) && bool_decide (fp = []) then Throw (invalid_argument "stod") else
      let m := digits_value 0 (ip ++ fp) in
      let e := exponent_of "e"%char rest - Z.of_nat (length fp) in
      let d := decimal_double neg m e in
      if erange (m * 10 ^ Z.max 0 e) (10 ^ Z.max 0 (- e)) d
      then Throw (out_of_range "stod") else Ok d
  end.

Example stod_example : stod (chars " 0.0645,") = Ok (dlit 645 10000).
Proof. vm_compute. reflexivity. Qed.
Example stod_exponent : stod (chars "-2.5e3") = Ok (double_of_Z (-2500)).
Proof. vm_compute. reflexivity. Qed.
Example stod_hex : stod (chars "0x1.8p1") = Ok (double_of_Z 3).
Proof. vm_compute. reflexivity. Qed.
Example stod_erange : stod (chars "1e-330") = Throw (out_of_range "stod").
Proof. vm_compute. reflexivity. Qed.
Example stod_nan : stod (chars "NaN") = Ok S754_nan.
Proof. vm_compute. reflexivity. Qed.

(** ** Queries *)

(** [HardwareGraph::nodes] *)
Definition nodes (h : HardwareGraph) : list Z :=
  set_items (foldl (λ s c, {[cpu_node_id c]} ∪ s) (∅ : gset Z) (hw_cpus h)).

(** [HardwareGraph::cpus_in_node] *)
Definition cpus_in_node (h : HardwareGraph) (node : Z) : list Z :=
  std_sort Z.ltb
    (cpu_id <$> filter (λ c, cpu_node_id c = node ∧ cpu_online c = true) (hw_cpus h)).

(** The scan of [latency]: the node of the last listed CPU with that id. *)
Definition last_node_of (cpus : list Cpu) (cpu : Z) : Z :=
  foldl (λ n c, if cpu_id c =? cpu then cpu_node_id c else n) (-1) cpus.

(** [HardwareGraph::latency] *)
Definition latency (h : HardwareGraph) (from_cpu to_cpu : Z) : double :=
  if (from_cpu =? to_cpu)%Z then d0 else
  match cpu_latency h !! (from_cpu, to_cpu) with
  | Some v => v
  | None =>
      let from_node := last_node_of (hw_cpus h) from_cpu in
      let to_node := last_node_of (hw_cpus h) to_cpu in
      match node_distance h !! (from_node, to_node) with
      | Some v => v
      | None => if (from_node =? to_node)%Z then double_of_Z 10 else double_of_Z 20
      end
  end.

(** ** [HardwareGraph::discover] *)
Class SysFs := {
  (** [fs::exists(sys_root/devices/system/cpu/cpu<id>)] *)
  cpu_path_exists : Z → bool;
  (** [read_one(cpu_path / "online")], empty when unreadable *)
  cpu_online_word : Z → string;
  (** the names listed by [fs::directory_iterator(cpu_path)] *)
  cpu_entries : Z → list string;
  (** the numbers of [node<from>/distance] *)
  node_distance_row : Z → list double;
}.

Section discover.
Context `{SysFs}.

(** The inner loop: the first entry named [node...] decides. *)
Fixpoint entry_node (names : list (list ascii)) : result Z :=
  match names with
  | [] => Ok (-1)
  | name :: rest =>
      if bool_decide (take 4 name = chars "node") then stoi (drop 4 name) else entry_node rest
  end.

Definition discover_cpu (id : Z) : result Cpu :=
  if negb (cpu_path_exists id) then
    Throw (runtime_error ("CPU " +:+ text (print_int id) +:+ " is outside host topology"))
  else
    let online := (id =? 0) || negb (bool_decide (cpu_online_word id = "0"%string)) in
    if negb online then
      Throw (runtime_error ("CPU " +:+ text (print_int id) +:+ " is offline"))
    else
      node ← entry_node (chars <$> cpu_entries id);
      Ok (mk_Cpu id (if node <? 0 then 0 else node) online).

(** [while (input >> value) node_distance[{from, to++}] = value] *)
Fixpoint add_distance_row (from to : Z) (row : list double) (m : gmap (Z * Z) double) :
    gmap (Z * Z) double :=
  match row with
  | [] => m
  | v :: row' => add_distance_row from (to + 1) row' (<[(from, to) := v]> m)
  end.

Definition discover (envelope : list Z) : result HardwareGraph :=
  cpus ← foldlM (λ acc id, c ← discover_cpu id; Ok (acc ++ [c])) [] envelope;
  let h := mk_HardwareGraph cpus ∅ ∅ ∅ in
  Ok (mk_HardwareGraph cpus ∅
        (foldl (λ m from, add_distance_row from 0 (node_distance_row from) m) ∅ (nodes h)) ∅).
End discover.

(** ** [HardwareGraph::load_calibration] *)
Definition calibration_header : string :=
  "source_node,destination_node,same_socket,numa_distance,core_handoff_mean_ns,core_handoff_p95_ns,memory_load_mean_ns,memory_load_cv,stream_2t_triad_mbps,stream_32t_triad_mbps".

(** One row of the table, as the loop body stores it. *)
Definition load_row (h : HardwareGraph) (line : list ascii) : result HardwareGraph :=
  let cells := getlines ","%char line in
  if negb ((Nat.eqb (length cells) 10) || (Nat.eqb (length cells) 11)) then
    Throw (runtime_error "invalid hardware calibration row")
  else
    let cell i := default [] (cells !! i) in
    from ← stoi (cell 0%nat);
    to ← stoi (cell 1%nat);
    distance ← stod (cell 3%nat);
    handoff ← stod (cell 4%nat);
    c5 ← stod (cell 5%nat);
    c6 ← stod (cell 6%nat);
    c7 ← stod (cell 7%nat);
    c8 ← stod (cell 8%nat);
    c9 ← stod (cell 9%nat);
    let lat := foldl (λ m (ab : Cpu * Cpu),
      let '(a, b) := ab in
      if (cpu_node_id a =? from) && (cpu_node_id b =? to)
      then <[(cpu_id a, cpu_id b) := if cpu_id a =? cpu_id b then d0 else handoff]> m
      else m) (cpu_latency h) (cprod (hw_cpus h) (hw_cpus h)) in
    Ok (mk_HardwareGraph (hw_cpus h) lat (<[(from, to) := distance]> (node_distance h))
          (<[(from, to) := mk_NodeCalibration handoff c5 c6 c7 c8 c9]> (node_calibration h))).

(** [path] empty: nothing to load.  [lines] is [None] when the file (or the
    [hardware-node-edges.csv] of the directory) cannot be opened. *)
Definition load_calibration (h : HardwareGraph) (path : string)
    (lines : option (list (list ascii))) : result HardwareGraph :=
  if bool_decide (path = ""%string) then Ok h else
  match lines with
  | None => Throw (runtime_error ("cannot open hardware calibration: " +:+ path))
  | Some [] => Throw (runtime_error ("unsupported hardware calibration schema: " +:+ path))
  | Some (header :: rows) =>
      if negb (bool_decide (text header = calibration_header)) &&
         negb (bool_decide (text header = calibration_header +:+ ",is_estimated")) then
        Throw (runtime_error ("unsupported hardware calibration schema: " +:+ path))
      else
        h' ← foldlM load_row h rows;
        if negb (forallb (λ '(from, to), bool_decide (is_Some (node_distance h' !! (from, to))))
                   (cprod (nodes h') (nodes h'))) then
          Throw (runtime_error "calibration does not cover resource envelope nodes")
        else if bool_decide (rows = []) then Throw (runtime_error "empty hardware calibration")
        else Ok h'
  end.

(** ** Facts *)
Lemma elem_of_node_set (cpus : list Cpu) (s : gset Z) n :
  n ∈ foldl (λ s c, {[cpu_node_id c]} ∪ s) s cpus ↔ n ∈ s ∨ ∃ c, c ∈ cpus ∧ cpu_node_id c = n.
Proof.
  revert s. induction cpus as [|c cpus IH]; intros s; cbn; [set_solver|].
  rewrite IH. set_solver.
Qed.

Lemma elem_of_nodes h n : n ∈ nodes h ↔ ∃ c, c ∈ hw_cpus h ∧ cpu_node_id c = n.
Proof. unfold nodes. rewrite elem_of_set_items, elem_of_node_set. set_solver. Qed.

Lemma nodes_sorted h : StronglySorted key_lt (nodes h).
Proof. apply set_items_sorted. Qed.

Lemma NoDup_nodes h : NoDup (nodes h).
Proof. apply NoDup_set_items. Qed.

Lemma elem_of_cpus_in_node h n cpu :
  cpu ∈ cpus_in_node h n ↔
  ∃ c, c ∈ hw_cpus h ∧ cpu_node_id c = n ∧ cpu_online c = true ∧ cpu_id c = cpu.
Proof.
  unfold cpus_in_node. rewrite elem_of_std_sort, list_elem_of_fmap.
  setoid_rewrite list_elem_of_filter. naive_solver.
Qed.

Lemma load_row_cpus h line h' : load_row h line = Ok h' → hw_cpus h' = hw_cpus h.
Proof.
  unfold load_row. destruct (negb _); [done|]. cbv zeta.
  repeat (intros (? & _ & H)%result_bind_Ok; revert H). intros H. by injection H as <-.
Qed.

Lemma foldlM_load_row_cpus rows h h' : foldlM load_row h rows = Ok h' → hw_cpus h' = hw_cpus h.
Proof.
  apply (foldlM_invariant load_row (λ x, hw_cpus x = hw_cpus h)); [done|].
  intros x b y _ Hx Hy. by rewrite (load_row_cpus _ _ _ Hy).
Qed.

Lemma discover_cpu_Ok `{SysFs} id c :
  discover_cpu id = Ok c → cpu_id c = id ∧ cpu_online c = true ∧ 0 ≤ cpu_node_id c.
Proof.
  unfold discover_cpu. destruct (negb (cpu_path_exists id)); [done|].
  destruct (negb (_ || _)) eqn:Eon; [done|]. apply negb_false_iff in Eon. rewrite Eon.
  intros (node & _ & Hc)%result_bind_Ok. injection Hc as <-. cbn.
  destruct (Z.ltb_spec node 0); lia || (repeat split; lia).
Qed.

Lemma discover_cpus `{SysFs} envelope acc cpus :
  foldlM (λ acc id, c ← discover_cpu id; Ok (acc ++ [c])) acc envelope = Ok cpus →
  ∃ new, cpus = acc ++ new ∧ cpu_id <$> new = envelope ∧
    Forall (λ c, cpu_online c = true ∧ 0 ≤ cpu_node_id c) new.
Proof.
  revert acc. induction envelope as [|id l IH]; intros acc; cbn.
  { intros [= <-]. exists []. by rewrite app_nil_r. }
  intros (acc' & (c & Hc & [= <-])%result_bind_Ok & Hl)%result_bind_Ok.
  destruct (IH _ Hl) as (new & -> & Hids & Hall).
  destruct (discover_cpu_Ok _ _ Hc) as (Hid & Hon & Hn).
  exists (c :: new). rewrite <-app_assoc. cbn. split; [done|]. split; [by rewrite Hid, Hids|].
  by constructor.
Qed.

(** ** Properties *)

(** a graph returned by [discover] lists exactly the CPUs of the resource
    envelope, in its order, each online and on a non-negative node; the nodes
    are strictly increasing, every node has at least one CPU, and every CPU of
    the envelope is listed by [cpus_in_node] of its node. *)
Theorem discover_wf `{SysFs} envelope h :
  discover envelope = Ok h →
  cpu_id <$> hw_cpus h = envelope ∧
  Forall (λ c, cpu_online c = true ∧ 0 ≤ cpu_node_id c) (hw_cpus h) ∧
  StronglySorted Z.lt (nodes h) ∧
  (∀ n, n ∈ nodes h → cpus_in_node h n ≠ []) ∧
  (∀ c, c ∈ hw_cpus h → cpu_id c ∈ cpus_in_node h (cpu_node_id c)).
Proof.
  intros (cpus & Hc & [= <-])%result_bind_Ok.
  destruct (discover_cpus _ _ _ Hc) as (new & Hnew & Hids & Hall). cbn in Hnew. subst cpus.
  rewrite Forall_forall in Hall. cbn [hw_cpus].
  assert (∀ c, c ∈ new → ∀ h, hw_cpus h = new → cpu_id c ∈ cpus_in_node h (cpu_node_id c)) as Hin.
  { intros c Hc' h Hh. apply elem_of_cpus_in_node. exists c. rewrite Hh.
    by destruct (Hall c Hc'). }
  split; [done|]. split; [by apply Forall_forall|]. split; [|split].
  - eapply sorted_impl; [|apply nodes_sorted]. intros a b Hab. by apply Z.ltb_lt.
  - intros n (c & Hc' & <-)%elem_of_nodes Hnil. cbn [hw_cpus] in Hc'.
    eapply elem_of_nil. rewrite <-Hnil. by apply Hin.
  - intros c Hc'. by apply Hin.
Qed.

(** Four CPUs on two nodes. *)
Definition demo_sysfs : SysFs := {|
  cpu_path_exists id := (0 <=? id) && (id <? 4);
  cpu_online_word _ := "1";
  cpu_entries id := if id <? 2 then ["cache"; "node0"] else ["node1"];
  node_distance_row n := if n =? 0 then [double_of_Z 10; double_of_Z 20]
                         else [double_of_Z 20; double_of_Z 10] |}.

Lemma discover_wf_witness :
  ∃ h, @discover demo_sysfs [0; 1; 3] = Ok h ∧ cpu_id <$> hw_cpus h = [0; 1; 3] ∧
    nodes h = [0; 1].
Proof.
  destruct (@discover demo_sysfs [0; 1; 3]) as [h|] eqn:E; [|by vm_compute in E].
  exists h. split; [reflexivity|].
  destruct (@discover_wf demo_sysfs [0; 1; 3] h E) as (Hids & _).
  split; [exact Hids|]. vm_compute in E. injection E as <-. reflexivity.
Defined.

(** when [load_calibration] accepts a file, every ordered pair of nodes of
    the resource envelope has a distance afterwards and the CPUs are untouched;
    a header it does not know, a row with the wrong number of cells, an
    uncovered node pair or an empty table are all rejected. *)
Theorem load_calibration_covers h path lines h' :
  path ≠ ""%string → load_calibration h path lines = Ok h' →
  hw_cpus h' = hw_cpus h ∧
  (∀ from to, from ∈ nodes h → to ∈ nodes h → is_Some (node_distance h' !! (from, to))) ∧
  ∃ header rows, lines = Some (header :: rows) ∧ rows ≠ [] ∧
    (text header = calibration_header ∨ text header = calibration_header +:+ ",is_estimated") ∧
    Forall (λ row, length (getlines ","%char row) = 10%nat ∨
                   length (getlines ","%char row) = 11%nat) rows.
Proof.
  intros Hp. unfold load_calibration. rewrite bool_decide_eq_false_2 by done.
  destruct lines as [[|header rows]|]; [done| |done].
  destruct (negb (bool_decide (text header = calibration_header)) && _) eqn:Eh; [done|].
  intros (h1 & Hrows & Hcov)%result_bind_Ok.
  destruct (forallb _ _) eqn:Ec; cbn in Hcov; [|done].
  case_bool_decide as Hne; [done|]. injection Hcov as <-.
  pose proof (foldlM_load_row_cpus _ _ _ Hrows) as Hcpus. split; [done|]. split.
  - intros from to Hf Ht. rewrite forallb_elem_of in Ec.
    assert (nodes h1 = nodes h) as Hn by (unfold nodes; by rewrite Hcpus).
    specialize (Ec (from, to)). cbn in Ec. eapply bool_decide_eq_true_1, Ec.
    apply list_elem_of_cprod. by rewrite Hn.
  - exists header, rows. split; [done|]. split; [done|]. split.
    + apply andb_false_iff in Eh. rewrite !negb_false_iff, !bool_decide_eq_true in Eh. done.
    + clear -Hrows. revert h Hrows. induction rows as [|row rows IH]; intros h; [constructor|].
      cbn. intros (h2 & Hrow & Hl)%result_bind_Ok. constructor; [|by eapply IH].
      unfold load_row in Hrow. destruct (_ || _) eqn:El; [|done].
      apply orb_true_iff in El. rewrite !Nat.eqb_eq in El. done.
Qed.

Definition demo_hardware : HardwareGraph :=
  mk_HardwareGraph [mk_Cpu 0 0 true; mk_Cpu 1 0 true; mk_Cpu 2 1 true; mk_Cpu 3 1 true] ∅
    (list_to_map [((0, 0), double_of_Z 10); ((0, 1), double_of_Z 20);
                  ((1, 0), double_of_Z 20); ((1, 1), double_of_Z 10)]) ∅.

Lemma load_calibration_covers_witness :
  ∃ h', load_calibration demo_hardware "cal.csv"
    (Some (chars <$> [calibration_header; "0,0,1,10,50,60,90,0.1,1000,9000";
                      "0,1,0,32,120,150,140,0.2,800,7000"])) = Ok h' ∧
    is_Some (node_distance h' !! (0, 1)) ∧ latency h' 0 2 = double_of_Z 120.
Proof.
  destruct (load_calibration demo_hardware "cal.csv"
    (Some (chars <$> [calibration_header; "0,0,1,10,50,60,90,0.1,1000,9000";
                      "0,1,0,32,120,150,140,0.2,800,7000"]))) as [h'|] eqn:E;
    [|by vm_compute in E].
  exists h'. split; [reflexivity|].
  destruct (load_calibration_covers demo_hardware "cal.csv" _ h' ltac:(discriminate) E)
    as (_ & Hcov & _).
  split; [apply Hcov; apply list_elem_of_In; vm_compute; auto|].
  vm_compute in E. injection E as <-. reflexivity.
Defined.
