(* ===== verification/Collector.v ===== *)
(** * The process collector ([src/collector.cpp])

    [ProcCollector::sample] and [ProcCollector::numa_pages]: the threads of a
    process and its memory per node, parsed from the text files of [/proc].
    The files are parameters; a file that cannot be opened reads as no lines. *)
From Stdlib Require Import Ascii.
From S2P Require Import Prelude Core CpuList Topology.
Local Open Scope Z_scope.

(** [monotonic_ns]: the boot clock in nanoseconds. *)
Definition monotonic_ns (tv_sec tv_nsec : Z) : Z := u64 (u64 tv_sec * 1000000000 + tv_nsec).

(** ** Text *)
Definition newline_char : ascii := ascii_of_nat 10.
Definition lines_of (file : string) : list (list ascii) := getlines newline_char (chars file).

(** [while (fields >> value)] *)
Fixpoint words_aux (cur l : list ascii) : list (list ascii) :=
  match l with
  | [] => match cur with [] => [] | _ => [rev cur] end
  | c :: l' =>
      if isspace c
      then match cur with [] => words_aux [] l' | _ => rev cur :: words_aux [] l' end
      else words_aux (c :: cur) l'
  end.
Definition words (l : list ascii) : list (list ascii) := words_aux [] l.

(** [std::string::rfind(c)] with the text around it. *)
Definition split_last (c : ascii) (l : list ascii) : option (list ascii * list ascii) :=
  match split_first c (rev l) with Some (b, a) => Some (rev a, rev b) | None => None end.

(** [std::stoull]: blanks, a sign, digits; a negative number wraps. *)
Definition stoull (l : list ascii) : result Z :=
  let l := drop_spaces l in
  let '(neg, body) := sign_of l in
  if negb (starts_with_digit body) then Throw (invalid_argument "stoull") else
  let v := digits_value 0 body in
  if 2 ^ 64 - 1 <? v then Throw (out_of_range "stoull") else
  Ok (if neg then u64 (- v) else v).

Fixpoint drop_digits (l : list ascii) : list ascii :=
  match l with
  | c :: l' => if isdigit c then drop_digits l' else l
  | [] => []
  end.

(** [stream >> x] for an unsigned 64-bit [x]: the value stored and the rest of
    the stream, or [None] once it has failed (no digits store 0, an overflow the
    largest value). *)
Definition extract_u64 (l : list ascii) : Z * option (list ascii) :=
  let '(neg, body) := sign_of (drop_spaces l) in
  if negb (starts_with_digit body) then (0, None) else
  let v := digits_value 0 body in
  if 2 ^ 64 - 1 <? v then (2 ^ 64 - 1, None)
  else (if neg then u64 (- v) else v, Some (drop_digits body)).

(** ** [/proc] *)
Class ProcFs := {
  (** the names in [<tgid>/task], in the order of the directory *)
  task_entries : Z → list string;
  (** the files of one thread *)
  stat_file : Z → string → string;
  schedstat_file : Z → string → string;
  status_file : Z → string → string;
  cgroup_file : Z → string → string;
  numa_maps_file : Z → string;
  (** the boot clock when the thread is sampled: seconds and nanoseconds *)
  sample_clock : Z → string → Z * Z;
}.

(** The fields of [stat] the sample keeps: the name, the state, the start time
    and the CPU.  [None] skips the thread. *)
Record StatFields := mk_StatFields {
  sf_comm : string;
  sf_state : ascii;
  sf_starttime : Z;
  sf_recent_cpu : Z;
}.

Definition parse_stat (line : list ascii) : result (option StatFields) :=
  match split_first "("%char line, split_last ")"%char line with
  | Some (pre, _), Some (upto, _) =>
      let op := length pre in
      let cl := length upto in
      if (length line <=? cl + 2)%nat then Ok None else
      (* [close - open - 1] wraps when the parentheses are swapped *)
      let comm := if (op <? cl)%nat then take (cl - op - 1) (drop (op + 1) line)
                  else drop (op + 1) line in
      let values := words (drop (cl + 2) line) in
      match values !! 0%nat, values !! 19%nat, values !! 36%nat with
      | Some (state :: _), Some start, Some cpu =>
          starttime ← stoull start;
          recent_cpu ← stoi cpu;
          Ok (Some (mk_StatFields (text comm) state starttime recent_cpu))
      | _, _, _ => Ok None
      end
  | _, _ => Ok None
  end.

Record StatusFields := mk_StatusFields {
  su_voluntary : Z;
  su_involuntary : Z;
  su_allowed : list Z;
}.

(** One line of [status]. *)
Definition parse_status_line (s : StatusFields) (line : list ascii) : result StatusFields :=
  match split_first ":"%char line with
  | None => Ok s
  | Some (key, body) =>
      if bool_decide (text key = "voluntary_ctxt_switches") then
        v ← stoull body; Ok (mk_StatusFields v (su_involuntary s) (su_allowed s))
      else if bool_decide (text key = "nonvoluntary_ctxt_switches") then
        v ← stoull body; Ok (mk_StatusFields (su_voluntary s) v (su_allowed s))
      else if bool_decide (text key = "Cpus_allowed_list") then
        match parse_cpu_list (text body) with
        | Ok cpus => Ok (mk_StatusFields (su_voluntary s) (su_involuntary s) cpus)
        | Throw _ => Ok s
        end
      else Ok s
  end.

Definition parse_schedstat (file : list ascii) : Z * Z :=
  match extract_u64 file with
  | (runtime, None) => (runtime, 0)
  | (runtime, Some rest) => (runtime, (extract_u64 rest).1)
  end.

Definition parse_cgroups (file : string) : list string :=
  omap (λ line, match split_last ":"%char line with
                | Some (_, path) => Some (text path)
                | None => None
                end) (lines_of file).

Section sample.
Context `{ProcFs} (tgid : Z).

Definition sample_thread (entry : string) : result (option ThreadSample) :=
  match stoi (chars entry) with
  | Throw _ => Ok None
  | Ok tid =>
      match lines_of (stat_file tgid entry) with
      | [] => Ok None
      | line :: _ =>
          fields ← parse_stat line;
          match fields with
          | None => Ok None
          | Some f =>
              let '(sec, nsec) := sample_clock tgid entry in
              let '(runtime, runqueue) := parse_schedstat (chars (schedstat_file tgid entry)) in
              status ← foldlM parse_status_line (mk_StatusFields 0 0 [])
                         (lines_of (status_file tgid entry));
              Ok (Some (mk_ThreadSample (mk_ThreadIdentity tgid tid (sf_starttime f))
                (monotonic_ns sec nsec) runtime runqueue (su_voluntary status)
                (su_involuntary status) (sf_recent_cpu f) (sf_state f) (sf_comm f)
                (parse_cgroups (cgroup_file tgid entry)) (su_allowed status) (-1) 0 ""))
          end
      end
  end.

Definition sample : result (list ThreadSample) :=
  r ← foldlM (λ acc entry,
        x ← sample_thread entry;
        Ok match x with Some t => acc ++ [t] | None => acc end) [] (task_entries tgid);
  Ok (std_sort (λ a b, tid (ts_identity a) <? tid (ts_identity b)) r).

(** One token of [numa_maps]; every exception is swallowed. *)
Definition add_pages (m : gmap Z Z) (token : list ascii) : gmap Z Z :=
  match token with
  | n :: rest =>
      if (length token <? 4)%nat || negb (bool_decide (n = "N"%char)) then m else
      match split_first "="%char token with
      | None => m
      | Some (key, pages) =>
          match stoull pages, stoi (drop 1 key) with
          | Ok v, Ok node => <[node := u64 (get_or 0 m node + v)]> m
          | _, _ => m
          end
      end
  | [] => m
  end.

Definition numa_pages : gmap Z Z :=
  foldl (λ m line, foldl add_pages m (words line)) ∅ (lines_of (numa_maps_file tgid)).
End sample.

(** ** Facts *)
Lemma words_aux_word cur w rest :
  Forall (λ c, isspace c = false) w →
  words_aux cur (w ++ rest) = words_aux (rev w ++ cur) rest.
Proof.
  intros Hw. revert cur. induction Hw as [|c w Hc _ IH]; intros cur; cbn; [done|].
  rewrite Hc, IH. by rewrite <-app_assoc.
Qed.

(** Words joined by single blanks. *)
Fixpoint join_words (ws : list (list ascii)) : list ascii :=
  match ws with
  | [] => []
  | [w] => w
  | w :: ws' => w ++ " "%char :: join_words ws'
  end.
Definition word_ok (w : list ascii) : Prop := w ≠ [] ∧ Forall (λ c, isspace c = false) w.

Lemma words_join ws : Forall word_ok ws → words (join_words ws) = ws.
Proof.
  unfold words. induction 1 as [|w ws [Hne Hw] Hws IH]; [done|].
  assert (rev w ≠ []) as Hrev by (intros Hr; apply Hne; by rewrite <-(rev_involutive w), Hr).
  destruct ws as [|w' ws].
  - cbn [join_words]. rewrite <-(app_nil_r w) at 1. rewrite words_aux_word, app_nil_r by done.
    cbn. destruct (rev w) eqn:E; [done|]. by rewrite <-E, rev_involutive.
  - change (join_words (w :: w' :: ws)) with (w ++ " "%char :: join_words (w' :: ws))%list.
    rewrite words_aux_word, app_nil_r by done. cbn [words_aux].
    change (isspace " "%char) with true. cbv iota.
    destruct (rev w) eqn:E; [done|]. by rewrite IH, <-E, rev_involutive.
Qed.

Lemma split_last_app c l r : c ∉ r → split_last c (l ++ c :: r) = Some (l, r).
Proof.
  intros Hr. unfold split_last. rewrite rev_app_distr. cbn. rewrite <-app_assoc. cbn.
  rewrite split_first_app by by rewrite <-Permutation_rev. by rewrite !rev_involutive.
Qed.

Lemma stoull_print n : 0 ≤ n < 2 ^ 64 → stoull (print_nonneg n) = Ok n.
Proof.
  intros Hn. destruct (print_nonneg_spec n) as (c & l & -> & Hd & Hv); [lia|].
  unfold stoull, sign_of. rewrite drop_spaces_id by by apply digits_no_space.
  pose proof (Forall_inv Hd) as Hc. cbn in Hc.
  rewrite !bool_decide_eq_false_2 by (by intros ->). cbn [starts_with_digit].
  rewrite Hc, Hv. cbn. destruct (Z.ltb_spec (2 ^ 64 - 1) n); [lia|]. done.
Qed.

(** the line the kernel prints for a thread is read back, whatever the
    thread is called.  For every name (blanks and parentheses included) and
    every list of at least 37 further fields, the collector finds the name, the
    state, the start time and the CPU. *)
Theorem stat_line_parsed (pid comm : list ascii) (state : ascii) (more : list ascii)
    (values : list (list ascii)) (starttime cpu : Z) :
  "("%char ∉ pid → Forall word_ok values → Forall (λ w, ")"%char ∉ w) values →
  values !! 0%nat = Some (state :: more) →
  values !! 19%nat = Some (print_nonneg starttime) → values !! 36%nat = Some (print_nonneg cpu) →
  0 ≤ starttime < 2 ^ 64 → 0 ≤ cpu < 2 ^ 31 →
  parse_stat (pid ++ "("%char :: comm ++ ")"%char :: " "%char :: join_words values) =
  Ok (Some (mk_StatFields (text comm) state starttime cpu)).
Proof.
  intros Hpid Hok Hparen H0 H19 H36 Hst Hcpu. unfold parse_stat.
  rewrite split_first_app by done.
  assert (")"%char ∉ " "%char :: join_words values) as Htail.
  { apply not_elem_of_cons. split; [done|]. clear -Hparen.
    induction Hparen as [|w ws Hw _ IH]; [set_solver|]. destruct ws; cbn in *; set_solver. }
  assert (pid ++ "("%char :: comm ++ ")"%char :: " "%char :: join_words values =
    (pid ++ "("%char :: comm) ++ ")"%char :: " "%char :: join_words values)%list as ->
    by by rewrite <-app_assoc.
  rewrite split_last_app by done. set (upto := (pid ++ "("%char :: comm)%list).
  assert (join_words values ≠ []) as Hne.
  { intros Hj. pose proof (words_join values Hok) as Hw. rewrite Hj in Hw. by rewrite <-Hw in H0. }
  destruct (Nat.leb_spec (length (upto ++ ")"%char :: " "%char :: join_words values)) (length upto + 2))
    as [Hle|_].
  { rewrite length_app in Hle. destruct (join_words values); cbn in Hle; [done|lia]. }
  rewrite (drop_app_add' _ _ (length upto) 2) by done. cbn [drop]. rewrite drop_0.
  rewrite words_join, H0, H19, H36, stoull_print, stoi_print by done. cbn [mbind result_bind].
  assert (length upto = length pid + S (length comm))%nat as Hup by (unfold upto; by rewrite length_app).
  destruct (Nat.ltb_spec (length pid) (length upto)); [|lia]. do 4 f_equal. unfold upto at 2.
  rewrite <-app_assoc, (drop_app_add' _ _ (length pid) 1) by done. cbn [drop app]. rewrite drop_0.
  replace (length upto - length pid - 1)%nat with (length comm) by lia. apply take_app_length.
Qed.
Definition demo_stat_values : list (list ascii) :=
  replicate 1 ["S"%char] ++ replicate 18 (print_nonneg 7) ++ [print_nonneg 98765] ++
  replicate 16 (print_nonneg 0) ++ [print_nonneg 3].
Lemma stat_line_parsed_witness :
  parse_stat (chars "42 (" ++ chars "a) (b c" ++ ")"%char :: " "%char :: join_words demo_stat_values) =
  Ok (Some (mk_StatFields "a) (b c" "S"%char 98765 3)).
Proof.
  refine (stat_line_parsed (chars "42 ") (chars "a) (b c") "S"%char [] demo_stat_values 98765 3
    _ _ _ _ _ _ _ _).
  - apply (bool_decide_eq_true_1 _). vm_compute. reflexivity.
  - repeat (apply Forall_cons; split; [split; [discriminate|repeat constructor]|]). apply Forall_nil.
    exact I.
  - apply Forall_forall. intros w Hw. apply (bool_decide_eq_true_1 _).
    revert w Hw. apply (proj1 (Forall_forall (λ w, bool_decide (")"%char ∉ w) = true) _)).
    repeat (apply Forall_cons; split; [vm_compute; reflexivity|]). apply Forall_nil. exact I.
  - reflexivity.
  - reflexivity.
  - reflexivity.
  - split; [discriminate|reflexivity].
  - split; [discriminate|reflexivity].
Defined.

(** ** The sample *)
Section sample_facts.
Context `{ProcFs} (tgid : Z).

Lemma sample_threads_exact entries : ∀ acc l,
  foldlM (λ acc entry,
    x ← sample_thread tgid entry; Ok match x with Some t => acc ++ [t] | None => acc end) acc entries
  = Ok l →
  ∀ t, t ∈ l ↔ t ∈ acc ∨ ∃ entry, entry ∈ entries ∧ sample_thread tgid entry = Ok (Some t).
Proof.
  induction entries as [|e entries IH]; intros acc l; cbn.
  - intros [= ->] t. set_solver.
  - intros (acc' & (x & Hx & [= <-])%result_bind_Ok & Hl)%result_bind_Ok t.
    rewrite (IH _ _ Hl). destruct x as [u|].
    + rewrite elem_of_app, list_elem_of_singleton. split.
      * intros [[| ->]|(e' & ? & ?)]; [by left|right; exists e; set_solver|right; exists e'; set_solver].
      * intros [|(e' & [->|He']%elem_of_cons & ?)]; [by left; left| |right; eauto].
        left. right. congruence.
    + split; [intros [|(e' & ? & ?)]; [by left|right; exists e'; set_solver]|].
      intros [|(e' & [->|He']%elem_of_cons & ?)]; [by left|congruence|right; eauto].
Qed.

Lemma sample_thread_identity entry t :
  sample_thread tgid entry = Ok (Some t) →
  tgid = Core.tgid (ts_identity t) ∧ stoi (chars entry) = Ok (tid (ts_identity t)).
Proof.
  unfold sample_thread. destruct (stoi _) as [n|]; [|done]. destruct (lines_of _); [done|].
  intros (f & _ & Hf)%result_bind_Ok. destruct f as [f|]; [|done].
  destruct (sample_clock _ _), (parse_schedstat _). apply result_bind_Ok in Hf as (u & _ & [= <-]). done.
Qed.

(** a sample lists exactly the threads whose directory entry and [stat] line
    can be read, each under the process and the TID of its entry, in the order
    of their TIDs; a thread that has vanished or whose line is cut short is
    left out without disturbing the others. *)
Theorem sample_exact l :
  sample tgid = Ok l →
  StronglySorted (λ a b, tid (ts_identity a) ≤ tid (ts_identity b)) l ∧
  (∀ t, t ∈ l ↔ ∃ entry, entry ∈ task_entries tgid ∧ sample_thread tgid entry = Ok (Some t)) ∧
  (∀ t, t ∈ l → Core.tgid (ts_identity t) = tgid ∧
     ∃ entry, entry ∈ task_entries tgid ∧ stoi (chars entry) = Ok (tid (ts_identity t))).
Proof.
  unfold sample. intros (r & Hr & [= <-])%result_bind_Ok.
  pose proof (sample_threads_exact _ _ _ Hr) as Hin. split_and!.
  - eapply sorted_impl; [|apply (std_sort_sorted _ (λ _, True))].
    + cbn. intros a b Hab. bool_hyps. lia.
    + intros a b _ _ Hab. bool_hyps. apply Z.ltb_ge. lia.
    + intros a b c _ _ _ Hab Hbc. bool_hyps. apply Z.ltb_ge. lia.
    + by apply Forall_true.
  - intros t. rewrite elem_of_std_sort, Hin. set_solver.
  - intros t. rewrite elem_of_std_sort, Hin. intros [Ht|(e & He & Ht)]; [set_solver|].
    apply sample_thread_identity in Ht as [-> Ht]. eauto.
Qed.
End sample_facts.

(** Two threads and a directory entry that is gone. *)
Definition demo_proc : ProcFs := {|
  task_entries _ := ["43"; "42"; "44"];
  stat_file _ e := if bool_decide (e = "44") then ""
    else text (chars (e +:+ " (db) ") ++ join_words demo_stat_values);
  schedstat_file _ _ := "100 5 2";
  status_file _ _ := "Cpus_allowed_list:	0-3";
  cgroup_file _ _ := "0::/svc";
  numa_maps_file _ := "7f default N0=12 N1=3";
  sample_clock _ _ := (1, 5);
|}.
Definition demo_proc_sample : list ThreadSample := Eval vm_compute in
  match @sample demo_proc 42 with Ok l => l | Throw _ => [] end.
Lemma sample_exact_witness :
  (tid ∘ ts_identity) <$> demo_proc_sample = [42; 43] ∧
  StronglySorted (λ a b, tid (ts_identity a) ≤ tid (ts_identity b)) demo_proc_sample.
Proof.
  split; [reflexivity|].
  refine (proj1 (@sample_exact demo_proc 42 demo_proc_sample _)). vm_compute. reflexivity.
Defined.
