(* ===== verification/DomainPlanner.v ===== *)
(** * Masks, family edges and node planning ([src/domain_solver.cpp], anonymous namespace)

    The stateless helpers of the NUMA-domain solver: mask intersection, node
    masks, heavy-hitter pruning of the family graph, and the enumeration that
    picks the NUMA nodes of a domain. *)
From Stdlib Require Import Ascii.
From S2P Require Import Prelude Binary64 Core CpuList Topology.
Local Open Scope Z_scope.

(** ** Masks *)

(** [std::set_intersection] on two sorted ranges. *)
Fixpoint set_intersection (a : list Z) : list Z → list Z :=
  fix inner (b : list Z) : list Z :=
    match a, b with
    | x :: a', y :: b' =>
        if x <? y then set_intersection a' b
        else if y <? x then inner b'
        else x :: set_intersection a' b'
    | _, _ => []
    end.

Definition intersect_masks (l r : list Z) : list Z :=
  set_intersection (std_sort Z.ltb l) (std_sort Z.ltb r).

Definition mask_for_nodes (h : HardwareGraph) (ns : list Z) : list Z :=
  sort_unique (ns ≫= cpus_in_node h).

Definition cpu_in_nodes (h : HardwareGraph) (cpu : Z) (ns : list Z) : bool :=
  match list_find (λ c, cpu_id c = cpu) (hw_cpus h) with
  | Some (_, c) => bool_decide (cpu_node_id c ∈ ns)
  | None => false
  end.

(** ** [select_family_edges] *)
Abbreviation fam_pair := (string * string)%type.
Abbreviation candidate := (double * fam_pair)%type.

Definition candidate_ltb (l r : candidate) : bool :=
  if negb (l.1 =? r.1)%D then (r.1 <? l.1)%D else key_ltb l.2 r.2.

Definition add_incident (m : gmap string (list candidate)) (e : fam_pair * double) :
    gmap string (list candidate) :=
  let '(pr, weight) := e in
  push_back pr.2 (weight, pr) (push_back pr.1 (weight, pr) m).

Definition incident_edges (cross : gmap fam_pair double) : gmap string (list candidate) :=
  foldl add_incident ∅ (items cross).

Definition select_family_edges (cross : gmap fam_pair double) (edges_per_family : nat) :
    gset fam_pair :=
  foldl (λ sel '(_, candidates),
      list_to_set (take edges_per_family (std_sort candidate_ltb candidates)).*2 ∪ sel)
    ∅ (items (incident_edges cross)).

(** ** [NodeChoice], [evaluate_nodes] *)
Record NodeChoice := mk_NodeChoice {
  nc_nodes : list Z;
  nc_online_cpu_count : Z;
  nc_capacity_limit : double;
  nc_capacity_headroom : double;
  nc_relation_latency : double;
  nc_background_demand : double;
  nc_initial_migrations : Z;
}.
Definition NodeChoice_init : NodeChoice := mk_NodeChoice [] 0 d0 d0 d0 d0 0.

Section planner.
Context (h : HardwareGraph) (demand capacity_ratio : double)
  (members all_threads : list ThreadDemand)
  (placed_domains : list (list string * list Z))
  (families : list string) (cross : gmap fam_pair double).

(** The weight between this domain's families and an already placed one. *)
Definition cross_weight (other_families : list string) : double :=
  foldl (λ w '(family, other),
      match cross !! minmax family other with Some v => (w + v)%D | None => w end)
    d0 (cprod families other_families).

Definition closest_distance (ns other_nodes : list Z) : double :=
  foldl (λ d '(node, other),
      dmin d (match node_distance h !! (node, other) with None => d1e6 | Some v => v end))
    d1e30 (cprod ns other_nodes).

Definition evaluate_nodes (ns : list Z) : NodeChoice :=
  let online := length (mask_for_nodes h ns) in
  let limit := (double_of_nat online * capacity_ratio)%D in
  let member_tids : gset Z := list_to_set (td_tid <$> members) in
  let migrations :=
    foldl (λ n t, if cpu_in_nodes h (td_current_cpu t) ns then n else n + 1) 0 members in
  let background :=
    foldl (λ b t, if negb (bool_decide (td_tid t ∈ member_tids)) &&
                     cpu_in_nodes h (td_current_cpu t) ns
                  then (b + td_demand t)%D else b) d0 all_threads in
  let relation :=
    foldl (λ acc '(other_families, other_nodes),
        let weight := cross_weight other_families in
        let distance := closest_distance ns other_nodes in
        (acc + weight * (if (distance =? d1e30)%D then d0 else distance))%D)
      d0 placed_domains in
  mk_NodeChoice ns (Z.of_nat online) limit (limit - demand)%D relation background migrations.

(** The lexicographic order of [choose_nodes]: fewest nodes, relation
    latency, background demand, first migrations, node ids. *)
Definition nodes_ltb (a b : list Z) : bool :=
  (fix go (a b : list Z) : bool :=
     match a, b with
     | _, [] => false
     | [], _ :: _ => true
     | x :: a', y :: b' => (x <? y) || (negb (y <? x) && go a' b')
     end) a b.

Definition better (cur best : NodeChoice) : bool :=
  let n := length (nc_nodes cur) in
  let n' := length (nc_nodes best) in
  let lat := nc_relation_latency cur in
  let lat' := nc_relation_latency best in
  let bg := nc_background_demand cur in
  let bg' := nc_background_demand best in
  let mg := nc_initial_migrations cur in
  let mg' := nc_initial_migrations best in
  (n <? n')%nat ||
  ((n =? n')%nat && (lat <? lat')%D) ||
  ((n =? n')%nat && (lat =? lat')%D && (bg <? bg')%D) ||
  ((n =? n')%nat && (lat =? lat')%D && (bg =? bg')%D && (mg <? mg')) ||
  ((n =? n')%nat && (lat =? lat')%D && (bg =? bg')%D && (mg =? mg') &&
     nodes_ltb (nc_nodes cur) (nc_nodes best)).

(** [current.capacity_headroom + 1e-12 < 0] rejects a candidate. *)
Definition feasible (c : NodeChoice) : bool :=
  negb ((nc_capacity_headroom c + d1em12)%D <? d0)%D.

(** The leaf of [visit]. *)
Definition consider (best : NodeChoice) (cand : list Z) : NodeChoice :=
  if bool_decide (cand = []) then best else
  let current := evaluate_nodes cand in
  if negb (feasible current) then best else
  if bool_decide (nc_nodes best = []) || better current best then current else best.

(** [visit(index)] with [candidate] = [prefix]: take the node, then skip it. *)
Fixpoint visit (prefix rest : list Z) (best : NodeChoice) : NodeChoice :=
  match rest with
  | [] => consider best prefix
  | n :: rest' => visit prefix rest' (visit (prefix ++ [n]) rest' best)
  end.

Definition choose_nodes : NodeChoice :=
  let ns := nodes h in
  if bool_decide (ns = []) then NodeChoice_init else visit [] ns NodeChoice_init.
End planner.

(** ** Facts on masks *)
Lemma set_intersection_nil_l b : set_intersection [] b = [].
Proof. by destruct b. Qed.
Lemma set_intersection_nil_r a : set_intersection a [] = [].
Proof. by destruct a. Qed.
Lemma set_intersection_cons x a y b :
  set_intersection (x :: a) (y :: b) =
  if x <? y then set_intersection a (y :: b)
  else if y <? x then set_intersection (x :: a) b
  else x :: set_intersection a b.
Proof. done. Qed.

Lemma elem_of_set_intersection a b :
  StronglySorted Z.le a → StronglySorted Z.le b →
  ∀ z, z ∈ set_intersection a b ↔ z ∈ a ∧ z ∈ b.
Proof.
  intros Ha. revert b. induction Ha as [|x a Ha IHa Hx]; intros b Hb z.
  { rewrite set_intersection_nil_l. set_solver. }
  induction Hb as [|y b Hb IHb Hy].
  { rewrite set_intersection_nil_r. set_solver. }
  rewrite set_intersection_cons. rewrite Forall_forall in Hx, Hy.
  assert (StronglySorted Z.le (y :: b)) by (constructor; [done|by apply Forall_forall]).
  destruct (Z.ltb_spec x y); [|destruct (Z.ltb_spec y x)].
  - rewrite IHa by done. split; [intros []; split; [by right|done]|].
    intros [[->|]%elem_of_cons Hin]; [|done]. exfalso.
    apply elem_of_cons in Hin as [->|Hin%Hy]; lia.
  - rewrite IHb. split; [intros []; split; [done|by right]|].
    intros [Hin [->|]%elem_of_cons]; [|done]. exfalso.
    apply elem_of_cons in Hin as [->|Hin%Hx]; lia.
  - assert (x = y) as -> by lia. pose proof (IHa b Hb z) as IH.
    pose proof (elem_of_cons (set_intersection a b) z y). set_solver.
Qed.

Lemma std_sort_Z_sorted l : StronglySorted Z.le (std_sort Z.ltb l).
Proof.
  eapply sorted_impl; [|exact (std_sort_key_sorted (K:=Z) l)]. cbn. intros x y ?. bool_hyps. lia.
Qed.

Lemma elem_of_intersect_masks l r z : z ∈ intersect_masks l r ↔ z ∈ l ∧ z ∈ r.
Proof.
  unfold intersect_masks. rewrite elem_of_set_intersection by apply std_sort_Z_sorted.
  by rewrite !elem_of_std_sort.
Qed.

Lemma elem_of_mask_for_nodes h ns cpu :
  cpu ∈ mask_for_nodes h ns ↔ ∃ n, n ∈ ns ∧ cpu ∈ cpus_in_node h n.
Proof.
  unfold mask_for_nodes. rewrite elem_of_sort_unique, list_elem_of_bind. naive_solver.
Qed.

Lemma mask_for_nodes_sorted h ns : StronglySorted key_lt (mask_for_nodes h ns).
Proof. apply sort_unique_sorted. Qed.

(** ** [choose_nodes] is optimal *)
Lemma nodes_ltb_irrefl a : nodes_ltb a a = false.
Proof. induction a as [|x a IH]; cbn; [done|]. by rewrite Z.ltb_irrefl. Qed.

Lemma nodes_ltb_trans a b c :
  nodes_ltb a b = true → nodes_ltb b c = true → nodes_ltb a c = true.
Proof.
  revert b c. induction a as [|x a IH]; intros [|y b] [|z c]; cbn; try done.
  specialize (IH b c). unfold nodes_ltb in IH.
  destruct (Z.ltb_spec x y), (Z.ltb_spec y x), (Z.ltb_spec y z), (Z.ltb_spec z y),
    (Z.ltb_spec x z), (Z.ltb_spec z x); cbn; try lia; try done; auto.
Qed.

(** The order as a proposition. *)
Lemma better_spec cur best :
  better cur best = true ↔
  (length (nc_nodes cur) < length (nc_nodes best))%nat ∨
  (length (nc_nodes cur) = length (nc_nodes best) ∧
   ((nc_relation_latency cur <? nc_relation_latency best)%D = true ∨
    ((nc_relation_latency cur =? nc_relation_latency best)%D = true ∧
     ((nc_background_demand cur <? nc_background_demand best)%D = true ∨
      ((nc_background_demand cur =? nc_background_demand best)%D = true ∧
       (nc_initial_migrations cur < nc_initial_migrations best ∨
        (nc_initial_migrations cur = nc_initial_migrations best ∧
         nodes_ltb (nc_nodes cur) (nc_nodes best) = true))))))).
Proof.
  unfold better. rewrite !orb_true_iff, !andb_true_iff, Nat.ltb_lt, Nat.eqb_eq, Z.ltb_lt, Z.eqb_eq.
  tauto.
Qed.

Lemma dlt_lex_trans (R S T : Prop) (a b c : double) :
  ((a <? b)%D = true ∨ ((a =? b)%D = true ∧ R)) →
  ((b <? c)%D = true ∨ ((b =? c)%D = true ∧ S)) → (R → S → T) →
  (a <? c)%D = true ∨ ((a =? c)%D = true ∧ T).
Proof.
  intros [Hab|[Hab HR]] [Hbc|[Hbc HS]] HT.
  - left. by eapply dltb_trans.
  - left. pose proof (dltb_not_nan _ _ Hab) as [? ?]. pose proof (deqb_not_nan _ _ Hbc) as [? ?].
    rewrite dltb_drank in * by done. rewrite deqb_drank in Hbc by done. by rewrite <-Hbc.
  - left. by rewrite (deqb_dltb_l a b c Hab).
  - right. split; [|auto]. pose proof (deqb_not_nan _ _ Hab) as [? ?].
    pose proof (deqb_not_nan _ _ Hbc) as [? ?]. rewrite deqb_drank in * by done. congruence.
Qed.

Lemma better_trans a b c : better a b = true → better b c = true → better a c = true.
Proof.
  rewrite !better_spec. intros [Hab|[Hn Hab]] [Hbc|[Hn' Hbc]]; [left; lia|left; lia|left; lia|].
  right. split; [congruence|]. eapply dlt_lex_trans; [exact Hab|exact Hbc|].
  intros Hr Hs. eapply dlt_lex_trans; [exact Hr|exact Hs|].
  intros [|[? ?]] [|[? ?]]; [left; lia|left; lia|left; lia|]. right. split; [lia|].
  by eapply nodes_ltb_trans.
Qed.

Lemma better_irrefl a : better a a = false.
Proof.
  apply not_true_iff_false. rewrite better_spec. rewrite !dltb_irrefl, nodes_ltb_irrefl.
  intros [|[_ [|[_ [|[_ [|[_ ?]]]]]]]]; try done; lia.
Qed.

Section optimal.
Context (h : HardwareGraph) (demand ratio : double) (members all : list ThreadDemand)
  (placed : list (list string * list Z)) (fams : list string) (cross : gmap fam_pair double).
Local Abbreviation eval := (evaluate_nodes h demand ratio members all placed fams cross).
Local Abbreviation vis := (visit h demand ratio members all placed fams cross).

(** [best] is optimal among the candidates seen so far. *)
Definition best_of (seen : list (list Z)) (best : NodeChoice) : Prop :=
  (nc_nodes best = [] ∧ best = NodeChoice_init ∧
     ∀ c, c ∈ seen → c ≠ [] → feasible (eval c) = false) ∨
  (nc_nodes best ∈ seen ∧ nc_nodes best ≠ [] ∧ best = eval (nc_nodes best) ∧
     feasible best = true ∧
     ∀ c, c ∈ seen → c ≠ [] → feasible (eval c) = true → better (eval c) best = false).

Lemma consider_best seen best cand :
  best_of seen best →
  best_of (seen ++ [cand]) (consider h demand ratio members all placed fams cross best cand).
Proof.
  intros Hb. unfold consider. case_bool_decide as Hc.
  { subst. destruct Hb as [(? & ? & Hb)|(? & ? & ? & ? & Hb)]; [left|right];
      repeat (split; [set_solver|]); intros c [?| ->%list_elem_of_singleton]%elem_of_app; auto; done. }
  destruct (feasible (eval cand)) eqn:Hf; cbn.
  2:{ destruct Hb as [(? & ? & Hb)|(? & ? & ? & ? & Hb)]; [left|right];
      repeat (split; [set_solver|]); intros c [?| ->%list_elem_of_singleton]%elem_of_app; auto.
      congruence. }
  assert (nc_nodes (eval cand) = cand) as Hcand by done.
  destruct Hb as [(Hn & -> & Hb)|(Hin & Hn & Heq & Hfe & Hb)].
  - right. rewrite bool_decide_eq_true_2 by done. cbn [orb]. rewrite Hcand.
    repeat split; [set_solver|done|done|].
    intros c [?| ->%list_elem_of_singleton]%elem_of_app Hne Hfc; [|apply better_irrefl].
    rewrite Hb in Hfc by done. done.
  - right. rewrite bool_decide_eq_false_2 by done. cbn [orb].
    destruct (better (eval cand) best) eqn:Hbt.
    + rewrite Hcand. repeat split; [set_solver|done|done|].
      intros c [?| ->%list_elem_of_singleton]%elem_of_app Hne Hfc; [|apply better_irrefl].
      destruct (better (eval c) (eval cand)) eqn:Hcc; [|done].
      rewrite <-(Hb c) by done. by rewrite (better_trans _ _ _ Hcc Hbt).
    + repeat split; [set_solver|done|done|done|].
      intros c [?| ->%list_elem_of_singleton]%elem_of_app; auto.
Qed.

(** The candidates [visit] reaches, in its order. *)
Fixpoint candidates (prefix rest : list Z) : list (list Z) :=
  match rest with
  | [] => [prefix]
  | n :: rest' => candidates (prefix ++ [n]) rest' ++ candidates prefix rest'
  end.

Lemma visit_best seen prefix rest best :
  best_of seen best → best_of (seen ++ candidates prefix rest) (vis prefix rest best).
Proof.
  revert seen prefix best. induction rest as [|n rest IH]; intros seen prefix best Hb; cbn.
  - by apply consider_best.
  - rewrite app_assoc. by apply IH, IH.
Qed.

Lemma elem_of_candidates prefix rest c :
  c ∈ candidates prefix rest ↔ ∃ s, s `sublist_of` rest ∧ c = prefix ++ s.
Proof.
  revert prefix. induction rest as [|n rest IH]; intros prefix; cbn.
  - rewrite list_elem_of_singleton. split.
    + intros ->. exists []. by rewrite app_nil_r.
    + intros (s & ->%sublist_nil_r & ->). by rewrite app_nil_r.
  - rewrite elem_of_app, !IH. split.
    + intros [(s & Hs & ->)|(s & Hs & ->)].
      * exists (n :: s). rewrite <-app_assoc. split; [by apply sublist_skip|done].
      * exists s. split; [by apply sublist_cons|done].
    + intros (s & Hs & ->). apply sublist_cons_r in Hs as [Hs|(s' & -> & Hs)].
      * right. by exists s.
      * left. exists s'. by rewrite <-app_assoc.
Qed.

Lemma choose_nodes_best :
  best_of (candidates [] (nodes h)) (choose_nodes h demand ratio members all placed fams cross).
Proof.
  unfold choose_nodes. case_bool_decide as Hn.
  - rewrite Hn. left. repeat split. intros c ->%list_elem_of_singleton. done.
  - apply (visit_best [] [] (nodes h) NodeChoice_init). left. repeat split. set_solver.
Qed.
End optimal.

(** ** Heavy-hitter pruning keeps every family's heaviest edges *)
Definition incident (f : string) (p : fam_pair) : Prop := p.1 = f ∨ p.2 = f.
#[export] Instance incident_dec f p : Decision (incident f p).
Proof. unfold incident. apply _. Defined.

(** The candidates recorded for a family are its incident edges, in the order
    of the map, once each when no edge joins a family to itself. *)
Lemma incident_edges_get cross f :
  (∀ p w, cross !! p = Some w → p.1 ≠ p.2) →
  get_or [] (incident_edges cross) f =
  (λ e : fam_pair * double, (e.2, e.1)) <$> filter (λ e, incident f e.1) (items cross).
Proof.
  intros Hne. unfold incident_edges.
  apply (foldl_invariant_prefix add_incident
    (λ l m, get_or [] m f =
       (λ e : fam_pair * double, (e.2, e.1)) <$> filter (λ e, incident f e.1) l)); [done|].
  intros pre [pr w] rest m Hl Hm. rewrite filter_app, fmap_app, <-Hm.
  assert (pr.1 ≠ pr.2) as Hpr.
  { apply (Hne pr w), elem_of_items. rewrite Hl. set_solver. }
  rewrite filter_cons, filter_nil. cbn [fst].
  cbn [add_incident]. rewrite !get_or_push_back. unfold incident.
  repeat case_decide; simplify_eq; cbn; rewrite ?app_nil_r; naive_solver.
Qed.

Lemma incident_edges_dom cross f :
  f ∈ dom (incident_edges cross) ↔ ∃ p w, cross !! p = Some w ∧ incident f p.
Proof.
  unfold incident_edges.
  assert ((∃ p w, cross !! p = Some w ∧ incident f p) ↔
          ∃ p w, (p, w) ∈ items cross ∧ incident f p) as ->.
  { split; intros (p & w & H1 & ?); exists p, w; by rewrite elem_of_items in *. }
  refine (foldl_invariant_prefix add_incident
    (λ l m, f ∈ dom m ↔ ∃ p w, (p, w) ∈ l ∧ incident f p) (items cross) ∅ _ _); [set_solver|].
  intros pre [pr w] rest m Hl Hm. unfold add_incident, push_back. rewrite !dom_insert, !elem_of_union, Hm.
  unfold incident. setoid_rewrite elem_of_app. setoid_rewrite list_elem_of_singleton.
  rewrite !elem_of_singleton. split.
  - intros [->|[->|(p & w' & ? & ?)]]; [exists pr, w|exists pr, w|exists p, w']; auto.
  - intros (p & w' & [Hin|[= -> ->]] & Hi); [|naive_solver]. right; right. eauto.
Qed.

Lemma elem_of_select_family_edges cross k p :
  p ∈ select_family_edges cross k ↔
  ∃ f l, incident_edges cross !! f = Some l ∧ p ∈ (take k (std_sort candidate_ltb l)).*2.
Proof.
  unfold select_family_edges.
  pose proof (foldl_union_elem (λ e : string * list candidate,
    list_to_set (C:=gset fam_pair) (take k (std_sort candidate_ltb e.2)).*2)
    (items (incident_edges cross)) ∅ p) as Hf.
  assert (∀ l s, foldl (λ sel '(_, candidates),
      list_to_set (take k (std_sort candidate_ltb candidates)).*2 ∪ sel) s l =
    foldl (λ acc (b : string * list candidate),
      list_to_set (C:=gset fam_pair) (take k (std_sort candidate_ltb b.2)).*2 ∪ acc) s l) as ->.
  { intros l. induction l as [|[? ?] l IH]; intros s0; cbn; [done|apply IH]. }
  rewrite Hf. setoid_rewrite elem_of_list_to_set. split.
  - intros [?|([f l] & Hin & Hp)]; [set_solver|]. apply elem_of_items in Hin. eauto.
  - intros (f & l & Hin%elem_of_items & Hp). right. by exists (f, l).
Qed.

Lemma candidate_ltb_asym l r :
  not_nan l.1 → not_nan r.1 → candidate_ltb l r = true → candidate_ltb r l = false.
Proof.
  apply heavy_ltb_asym.
Qed.

Lemma candidate_ltb_negtrans a b c :
  not_nan a.1 → not_nan b.1 → not_nan c.1 →
  candidate_ltb a b = false → candidate_ltb b c = false → candidate_ltb a c = false.
Proof.
  apply heavy_ltb_negtrans.
Qed.

Lemma list_to_set_size_le {A} `{Countable A} (l : list A) :
  (size (list_to_set (C:=gset A) l) ≤ length l)%nat.
Proof.
  induction l as [|x l IH]; cbn; [by rewrite size_empty|].
  rewrite size_union_alt, size_singleton.
  assert (size (list_to_set (C:=gset A) l ∖ {[x]}) ≤ size (list_to_set (C:=gset A) l))%nat
    by (apply subseteq_size; set_solver). lia.
Qed.

Lemma incident_edges_lookup cross f l :
  (∀ p w, cross !! p = Some w → p.1 ≠ p.2) → incident_edges cross !! f = Some l →
  NoDup l.*2 ∧ ∀ w p, (w, p) ∈ l ↔ cross !! p = Some w ∧ incident f p.
Proof.
  intros Hne Hl. pose proof (incident_edges_get cross f Hne) as Hg.
  unfold get_or in Hg. rewrite Hl in Hg. cbn in Hg. subst l. split.
  - rewrite <-list_fmap_compose. unfold compose; cbn.
    eapply sublist_NoDup; [apply (NoDup_items_fst cross)|].
    apply fmap_sublist, sublist_filter.
  - intros w p. rewrite list_elem_of_fmap. setoid_rewrite list_elem_of_filter. split.
    + intros ([q v] & [= -> ->] & Hi & Hin). by rewrite elem_of_items in Hin.
    + intros [Hc%elem_of_items Hi]. by exists (p, w).
Qed.

Lemma select_family_edges_size cross k :
  (size (select_family_edges cross k) ≤ k * size (dom (incident_edges cross)))%nat.
Proof.
  unfold select_family_edges. rewrite size_dom, <-length_items.
  change (k * ?n)%nat with (size (∅ : gset fam_pair) + k * n)%nat.
  assert (∀ l s, (size (foldl (λ sel '(_, candidates),
      list_to_set (C:=gset fam_pair) (take k (std_sort candidate_ltb candidates)).*2 ∪ sel) s l)
    ≤ size s + k * length (A:=string * list candidate) l)%nat) as H; [|apply H].
  intros l. induction l as [|[f c] l IH]; intros s; cbn; [lia|]. etrans; [apply IH|].
  rewrite size_union_alt.
  assert (size (list_to_set (C:=gset fam_pair) (take k (std_sort candidate_ltb c)).*2) ≤ k)%nat.
  { etrans; [apply list_to_set_size_le|]. rewrite length_fmap, length_take. lia. }
  assert (size (s ∖ list_to_set (C:=gset fam_pair) (take k (std_sort candidate_ltb c)).*2)
    ≤ size s)%nat by (apply subseteq_size; set_solver).
  lia.
Qed.

(** ** Properties *)

(** C26: [choose_nodes] returns the best NUMA-node set by the documented
    lexicographic order (fewest nodes, relation latency, background demand,
    first migrations, node ids) among all non-empty sets of online nodes that
    leave the required headroom; it returns no node exactly when no such set
    exists. *)
Theorem choose_nodes_optimal h demand ratio members all placed fams cross :
  let choice := choose_nodes h demand ratio members all placed fams cross in
  let eval := evaluate_nodes h demand ratio members all placed fams cross in
  (nc_nodes choice = [] ↔
     ∀ c, c `sublist_of` nodes h → c ≠ [] → feasible (eval c) = false) ∧
  (nc_nodes choice ≠ [] →
     nc_nodes choice `sublist_of` nodes h ∧ choice = eval (nc_nodes choice) ∧
     feasible choice = true ∧
     ∀ c, c `sublist_of` nodes h → c ≠ [] → feasible (eval c) = true →
       better (eval c) choice = false).
Proof.
  cbv zeta. set (choice := choose_nodes _ _ _ _ _ _ _ _).
  assert (∀ c, c ∈ candidates [] (nodes h) ↔ c `sublist_of` nodes h) as Hc.
  { intros c. rewrite elem_of_candidates. naive_solver. }
  destruct (choose_nodes_best h demand ratio members all placed fams cross)
    as [(Hn & _ & Hb)|(Hin & Hn & Heq & Hf & Hb)]; fold choice in Hn |- *.
  - split; [|done]. split; [|done]. intros _ c Hs. by apply Hb, Hc.
  - fold choice in Hin, Heq, Hf, Hb. split.
    + split; [done|]. intros Hall. rewrite Heq, Hall in Hf; [done|by apply Hc|done].
    + intros _. rewrite <-Hc. repeat split; [done|done|done|]. intros c Hs. by apply Hb, Hc.
Qed.

(** intersecting a domain mask with an application mask yields exactly the
    common CPUs, in increasing order; a node mask is the strictly increasing
    list of the online CPUs of its nodes. *)
Theorem masks_spec h ns l r :
  StronglySorted Z.le (intersect_masks l r) ∧
  (∀ c, c ∈ intersect_masks l r ↔ c ∈ l ∧ c ∈ r) ∧
  StronglySorted Z.lt (mask_for_nodes h ns) ∧
  (∀ c, c ∈ mask_for_nodes h ns ↔
     ∃ x, x ∈ hw_cpus h ∧ cpu_id x = c ∧ cpu_online x = true ∧ cpu_node_id x ∈ ns).
Proof.
  split; [|split; [intros; apply elem_of_intersect_masks|split]].
  - unfold intersect_masks. pose proof (std_sort_Z_sorted l) as Hl.
    pose proof (std_sort_Z_sorted r) as Hr. revert Hl Hr.
    generalize (std_sort Z.ltb l) (std_sort Z.ltb r). intros a b Ha. revert b.
    induction Ha as [|x a Ha IHa Hx]; intros b Hb.
    { rewrite set_intersection_nil_l. apply SSorted_nil. }
    induction Hb as [|y b Hb IHb Hy].
    { rewrite set_intersection_nil_r. apply SSorted_nil. }
    rewrite set_intersection_cons.
    assert (StronglySorted Z.le (y :: b)) by by apply SSorted_cons.
    destruct (x <? y); [by apply IHa|]. destruct (y <? x); [done|].
    apply SSorted_cons; [by apply IHa|]. apply Forall_forall. intros z Hz.
    apply elem_of_set_intersection in Hz as [Hz _]; [|done|done].
    rewrite Forall_forall in Hx. auto.
  - eapply sorted_impl; [|apply mask_for_nodes_sorted]. intros a b Hab. by apply Z.ltb_lt.
  - intros c. rewrite elem_of_mask_for_nodes. setoid_rewrite elem_of_cpus_in_node. naive_solver.
Qed.

(** pruning the family graph only keeps edges of the graph, at most [k] per
    family; an edge it drops is, for each of its two families, preceded by [k]
    kept edges of that family in the documented order (heavier first, then the
    pair of names). *)
Theorem select_family_edges_heaviest cross k
    (Hne : ∀ p w, cross !! p = Some w → p.1 ≠ p.2)
    (Hnan : ∀ p w, cross !! p = Some w → not_nan w) :
  select_family_edges cross k ⊆ dom cross ∧
  (size (select_family_edges cross k) ≤ k * size (dom (incident_edges cross)))%nat ∧
  ∀ f p w, cross !! p = Some w → incident f p → p ∉ select_family_edges cross k →
    ∃ kept : list candidate, length kept = k ∧ NoDup kept.*2 ∧
      ∀ w' p', (w', p') ∈ kept →
        cross !! p' = Some w' ∧ incident f p' ∧ p' ∈ select_family_edges cross k ∧
        candidate_ltb (w, p) (w', p') = false.
Proof.
  split; [|split; [apply select_family_edges_size|]].
  - intros p (f & l & Hl & Hp)%elem_of_select_family_edges.
    apply list_elem_of_fmap in Hp as ([w q] & -> & Hq). apply subseteq_take in Hq.
    apply elem_of_std_sort in Hq. apply (incident_edges_lookup cross f l Hne Hl) in Hq as [Hq _].
    by apply elem_of_dom_2 in Hq.
  - intros f p w Hp Hi Hsel.
    assert (f ∈ dom (incident_edges cross)) as Hd by (apply incident_edges_dom; eauto).
    apply elem_of_dom in Hd as [l Hl].
    destruct (incident_edges_lookup cross f l Hne Hl) as [Hnd Hin].
    assert (∀ q, q ∈ (take k (std_sort candidate_ltb l)).*2 → q ∈ select_family_edges cross k)
      as Hk by (intros; apply elem_of_select_family_edges; eauto).
    assert (StronglySorted (λ x y, candidate_ltb y x = false) (std_sort candidate_ltb l)) as Hs.
    { apply (std_sort_sorted _ (λ c, not_nan c.1)).
      - intros. by apply candidate_ltb_asym.
      - intros x y z. apply candidate_ltb_negtrans.
      - apply Forall_forall. intros [v q] [Hq _]%Hin. by eapply Hnan. }
    assert ((w, p) ∈ drop k (std_sort candidate_ltb l)) as Hdrop.
    { assert ((w, p) ∈ std_sort candidate_ltb l) as H by (by apply elem_of_std_sort, Hin).
      rewrite <-(take_drop k (std_sort candidate_ltb l)) in H.
      apply elem_of_app in H as [H|H]; [|done]. destruct Hsel. apply Hk.
      by apply (list_elem_of_fmap_2 snd) in H. }
    exists (take k (std_sort candidate_ltb l)). split; [|split].
    + rewrite length_take. destruct (decide (k ≤ length (std_sort candidate_ltb l))%nat); [lia|].
      rewrite drop_ge in Hdrop by lia. set_solver.
    + eapply (sublist_NoDup _ (std_sort candidate_ltb l).*2).
      * by rewrite (std_sort_perm candidate_ltb l).
      * apply fmap_sublist, sublist_take.
    + intros w' p' Ht. pose proof (subseteq_take _ _ _ Ht) as Hs'.
      apply elem_of_std_sort, Hin in Hs' as [? ?]. split_and!; [done|done| |].
      * apply Hk. by apply (list_elem_of_fmap_2 snd) in Ht.
      * by apply (sorted_take_drop _ k _ (w', p') (w, p) Hs).
Qed.

Definition demo_cross : gmap fam_pair double :=
  {[ ("a", "b") := double_of_Z 3; ("b", "c") := double_of_Z 2; ("a", "c") := double_of_Z 1 ]}.

Lemma select_family_edges_heaviest_witness :
  select_family_edges demo_cross 1 = {[ ("a", "b"); ("b", "c") ]} ∧
  ∃ kept : list candidate, length kept = 1%nat ∧
    ∀ w' p', (w', p') ∈ kept → candidate_ltb (double_of_Z 1, ("a", "c")) (w', p') = false.
Proof.
  split; [by vm_compute|].
  assert (∀ p w, demo_cross !! p = Some w → p ∈ [("a", "b"); ("b", "c"); ("a", "c")] ∧
    w ∈ [double_of_Z 3; double_of_Z 2; double_of_Z 1]) as H.
  { intros p w. unfold demo_cross. rewrite !lookup_insert_Some, lookup_singleton_Some.
    set_solver. }
  assert (∀ p w, demo_cross !! p = Some w → p.1 ≠ p.2) as Hne.
  { intros p w [Hp _]%H. rewrite !elem_of_cons in Hp. destruct Hp as [->|[->|[->|Hp]]]; [done..|].
    by apply elem_of_nil in Hp. }
  assert (∀ p w, demo_cross !! p = Some w → not_nan w) as Hnan.
  { intros p w [_ Hw]%H. rewrite !elem_of_cons in Hw. destruct Hw as [->|[->|[->|Hw]]]; [done..|].
    by apply elem_of_nil in Hw. }
  destruct (select_family_edges_heaviest demo_cross 1 Hne Hnan) as (_ & _ & Hk).
  destruct (Hk "c" ("a", "c") (double_of_Z 1)) as (kept & Hl & _ & Hc);
    [by vm_compute|by right|by vm_compute|].
  exists kept. split; [done|]. intros w' p' Hin. by apply Hc.
Defined.
