(* ===== verification/UnionFind.v ===== *)
(** * Family components ([src/domain_solver.cpp], union-find of [propose])

    The [parent] map, the recursive [root] lambda with path compression, the
    merge of every confirmed seed and the grouping of the anchors.  The
    refinement theorem states that the groups are the connected components of
    the seed graph. *)
From stdpp Require Import relations.
From S2P Require Import Prelude.

Abbreviation parent_map := (gmap string string).

(** [std::map::operator[]] inserts the default value for a missing key. *)
Definition touch {K V} `{Countable K} (k : K) (d : V) (m : gmap K V) : gmap K V :=
  match m !! k with Some _ => m | None => <[k := d]> m end.

(** [root(name)]; [None] when the fuel does not cover the recursion. *)
Fixpoint root (fuel : nat) (parent : parent_map) (name : string) :
    option (string * parent_map) :=
  match fuel with
  | O => None
  | S fuel =>
      let parent := touch name ""%string parent in
      let up := get_or ""%string parent name in
      if bool_decide (up = name) then Some (name, parent) else
      match root fuel parent up with
      | None => None
      | Some (r, parent') => Some (r, <[name := r]> parent')
      end
  end.

(** A recursion visits a strictly decreasing chain of keys; one more call than
    there are keys (counting the one it may insert) is enough. *)
Definition root_fuel (parent : parent_map) : nat := S (S (size parent)).

Definition find_root (parent : parent_map) (name : string) : option (string * parent_map) :=
  root (root_fuel parent) parent name.

(** The body of the loop over [confirmed_seeds]. *)
Definition merge_seed (parent : parent_map) (s : string * string) : option parent_map :=
  '(a, parent) ← find_root parent s.1;
  '(b, parent) ← find_root parent s.2;
  Some (if bool_decide (a = b) then parent
        else if key_ltb a b then <[b := a]> parent else <[a := b]> parent).

Fixpoint merge_seeds (parent : parent_map) (seeds : list (string * string)) : option parent_map :=
  match seeds with
  | [] => Some parent
  | s :: seeds => parent' ← merge_seed parent s; merge_seeds parent' seeds
  end.

(** [components[root(name)].push_back(name)] over the anchors in order. *)
Fixpoint group (parent : parent_map) (components : gmap string (list string))
    (names : list string) : option (gmap string (list string)) :=
  match names with
  | [] => Some components
  | name :: names =>
      '(r, parent') ← find_root parent name;
      group parent' (<[r := get_or [] components r ++ [name]]> components) names
  end.

(** [for (name : anchors) parent[name] = name] *)
Definition self_parent (anchors : gset string) : parent_map :=
  foldl (λ m name, <[name := name]> m) ∅ (set_items anchors).

Definition components_of (anchors : gset string) (seeds : list (string * string)) :
    option (gmap string (list string)) :=
  parent ← merge_seeds (self_parent anchors) seeds;
  group parent ∅ (set_items anchors).

(** ** Roots as a relation *)
Inductive root_of (m : parent_map) : string → string → Prop :=
  | root_self x : m !! x = Some x → root_of m x x
  | root_step x y r : m !! x = Some y → y ≠ x → root_of m y r → root_of m x r.

(** Every key points to itself or to a smaller key. *)
Definition parent_wf (m : parent_map) : Prop :=
  ∀ x y, m !! x = Some y → (y = x ∨ key_lt y x) ∧ is_Some (m !! y).

Lemma root_of_det m x r r' : root_of m x r → root_of m x r' → r = r'.
Proof.
  intros H. revert r'. induction H as [x Hx|x y r Hx Hne _ IH]; inversion 1; simplify_eq; auto.
Qed.

Lemma root_of_is_root m x r : root_of m x r → m !! r = Some r.
Proof. by induction 1. Qed.

Lemma root_of_le m x r : parent_wf m → root_of m x r → r = x ∨ key_lt r x.
Proof.
  intros Hwf. induction 1 as [x Hx|x y r Hx Hne _ IH]; [by left|].
  destruct (Hwf x y Hx) as [[->|Hlt] _]; [done|]. right.
  destruct IH as [->|IH]; [done|]. by eapply key_ltb_trans.
Qed.

(** Keys below [x]: the measure of the recursion. *)
Definition below (m : parent_map) (x : string) : gset string :=
  filter (λ k, key_lt k x) (dom m).

Lemma below_decreases m x y :
  key_lt y x → is_Some (m !! y) → (size (below m y) < size (below m x))%nat.
Proof.
  intros Hlt Hy. apply subset_size. unfold below. split.
  - intros k [Hk ?]%elem_of_filter. apply elem_of_filter. split; [by eapply key_ltb_trans|done].
  - intros Hsub. assert (y ∈ filter (λ k, key_lt k y) (dom m)) as [Hbad _]%elem_of_filter.
    { apply Hsub, elem_of_filter. split; [done|by apply elem_of_dom]. }
    unfold key_lt in Hbad. by rewrite key_ltb_irrefl in Hbad.
Qed.

Lemma below_size m x : (size (below m x) ≤ size m)%nat.
Proof. rewrite <-size_dom. apply subseteq_size. unfold below. intros k Hk%elem_of_filter. by destruct Hk. Qed.

(** Pointing a key at its root keeps every root: path compression. *)
Lemma compress_root_of m x r :
  parent_wf m → root_of m x r → ∀ z t, root_of (<[x := r]> m) z t ↔ root_of m z t.
Proof.
  intros Hwf Hx.
  assert (∀ z t, root_of m z t → root_of (<[x := r]> m) z t) as Hto.
  { induction 1 as [z Hz|z y t Hz Hne Ht IH].
    - apply root_self. destruct (decide (z = x)) as [->|].
      + assert (r = x) as -> by (eapply root_of_det; [exact Hx|by apply root_self]).
        apply lookup_insert_eq.
      + by rewrite lookup_insert_ne.
    - destruct (decide (z = x)) as [->|].
      + assert (r = t) as -> by (eapply root_of_det; [exact Hx|by eapply root_step]).
        assert (t ≠ x) as Htx.
        { intros ->. apply root_of_is_root in Hx. simplify_eq. }
        eapply root_step; [apply lookup_insert_eq|done|].
        apply root_self. rewrite lookup_insert_ne by done. by eapply root_of_is_root.
      + eapply root_step; [by rewrite lookup_insert_ne|done|done]. }
  intros z t. split; [|apply Hto].
  intros Ht. assert (∃ u, root_of m z u) as [u Hu].
  { clear Hto. induction Ht as [z Hz|z y t Hz Hne _ IH].
    - destruct (decide (z = x)) as [->|]; [eauto|]. exists z. apply root_self.
      by rewrite lookup_insert_ne in Hz.
    - destruct (decide (z = x)) as [->|]; [eauto|]. rewrite lookup_insert_ne in Hz by done.
      destruct IH as [u Hu]. exists u. by eapply root_step. }
  pose proof (Hto z u Hu) as Hu'. by rewrite (root_of_det _ _ _ _ Ht Hu').
Qed.

Lemma compress_wf m x r : parent_wf m → root_of m x r → parent_wf (<[x := r]> m).
Proof.
  intros Hwf Hx z y. rewrite lookup_insert_Some. intros [[<- <-]|[Hne Hz]].
  - split; [by eapply root_of_le|]. rewrite lookup_insert_is_Some.
    destruct (decide (x = r)); [by left|right]. split; [done|].
    exists r. by eapply root_of_is_root.
  - destruct (Hwf z y Hz) as [? ?]. split; [done|]. rewrite lookup_insert_is_Some.
    destruct (decide (x = y)); [by left|by right].
Qed.

Lemma touch_present {K V} `{Countable K} (k : K) (d : V) m : is_Some (m !! k) → touch k d m = m.
Proof. unfold touch. by intros [? ->]. Qed.

(** The two maps have the same keys and the same roots. *)
Definition same_roots (m m' : parent_map) : Prop :=
  dom m' = dom m ∧ ∀ z t, root_of m' z t ↔ root_of m z t.

Lemma root_correct fuel m x :
  parent_wf m → is_Some (m !! x) → (size (below m x) < fuel)%nat →
  ∃ r m', root fuel m x = Some (r, m') ∧ root_of m x r ∧ parent_wf m' ∧ same_roots m m'.
Proof.
  intros Hwf Hx. revert x Hx. induction fuel as [|fuel IH]; intros x [y Hx] Hfuel; [lia|].
  cbn. rewrite touch_present by eauto. unfold get_or. rewrite Hx. cbn.
  destruct (Hwf x y Hx) as [Hle Hy]. case_bool_decide as Hyx.
  - subst y. exists x, m. split_and!; [done|by apply root_self|done|done].
  - destruct Hle as [|Hlt]; [done|]. pose proof (below_decreases m x y Hlt Hy).
    destruct (IH y Hy ltac:(lia)) as (r & m' & -> & Hr & Hwf' & Hdom & Heq).
    assert (root_of m x r) as Hxr by (by eapply root_step).
    exists r, (<[x := r]> m'). split_and!; [done|done| |split].
    + apply compress_wf; [done|]. by apply Heq.
    + rewrite dom_insert_L, Hdom. assert (x ∈ dom m) by (by eapply elem_of_dom_2). set_solver.
    + intros z t. rewrite compress_root_of; [apply Heq|done|by apply Heq].
Qed.

Lemma find_root_correct m x :
  parent_wf m → is_Some (m !! x) →
  ∃ r m', find_root m x = Some (r, m') ∧ root_of m x r ∧ parent_wf m' ∧ same_roots m m'.
Proof.
  intros Hwf Hx. apply root_correct; [done..|]. unfold root_fuel.
  pose proof (below_size m x). lia.
Qed.

(** ** Linking two roots *)
Lemma link_root_of m lo hi :
  m !! lo = Some lo → m !! hi = Some hi → lo ≠ hi →
  ∀ z t, root_of (<[hi := lo]> m) z t ↔
    ∃ u, root_of m z u ∧ t = (if decide (u = hi) then lo else u).
Proof.
  intros Hlo Hhi Hne.
  assert (∀ z u, root_of m z u →
    root_of (<[hi := lo]> m) z (if decide (u = hi) then lo else u)) as Hto.
  { induction 1 as [z Hz|z y u Hz Hzy _ IH].
    - case_decide as Hd.
      + subst z. eapply root_step; [apply lookup_insert_eq|done|].
        apply root_self. by rewrite lookup_insert_ne.
      + apply root_self. by rewrite lookup_insert_ne.
    - eapply root_step; [|done|exact IH]. rewrite lookup_insert_ne; [done|]. congruence. }
  intros z t. split.
  - intros Ht. assert (∃ u, root_of m z u) as [u Hu].
    { induction Ht as [z Hz|z y t Hz Hzy _ [u Hu]].
      - apply lookup_insert_Some in Hz as [[-> ->]|[? Hz]]; [done|]. exists z. by apply root_self.
      - apply lookup_insert_Some in Hz as [[<- <-]|[? Hz]].
        + exists hi. by apply root_self.
        + exists u. by eapply root_step. }
    exists u. split; [done|]. eapply root_of_det; [exact Ht|]. by apply Hto.
  - intros (u & Hu & ->). by apply Hto.
Qed.

Lemma link_wf m lo hi :
  parent_wf m → is_Some (m !! lo) → key_lt lo hi → parent_wf (<[hi := lo]> m).
Proof.
  intros Hwf Hlo Hlt x y. rewrite lookup_insert_Some. intros [[<- <-]|[Hne Hx]].
  - split; [by right|]. rewrite lookup_insert_is_Some. destruct (decide (hi = lo)); auto.
  - destruct (Hwf x y Hx). split; [done|]. rewrite lookup_insert_is_Some.
    destruct (decide (hi = y)); auto.
Qed.

(** ** The partition a parent map represents *)
Definition eqv (m : parent_map) (x y : string) : Prop :=
  x = y ∨ ∃ r, root_of m x r ∧ root_of m y r.

#[export] Instance eqv_equivalence m : Equivalence (eqv m).
Proof.
  split.
  - by left.
  - intros x y [->|(r & ? & ?)]; [by left|right; eauto].
  - intros x y z [->|(r & Hx & Hy)] Hyz; [done|].
    destruct Hyz as [<-|(r' & Hy' & Hz)]; [by right; exists r|].
    right. exists r. by rewrite (root_of_det _ _ _ _ Hy Hy') in *.
Qed.

Lemma eqv_same_roots m m' x y : same_roots m m' → eqv m' x y ↔ eqv m x y.
Proof. intros [_ H]. unfold eqv. setoid_rewrite H. done. Qed.

(** [E'] is [E] with the classes of [a] and [b] joined. *)
Definition joins (E E' : relation string) (a b : string) : Prop :=
  ∀ x y, E' x y ↔ E x y ∨ (E x a ∧ E b y) ∨ (E x b ∧ E a y).

Lemma link_joins m lo hi a b :
  m !! lo = Some lo → m !! hi = Some hi → lo ≠ hi →
  (root_of m a lo ∧ root_of m b hi) ∨ (root_of m a hi ∧ root_of m b lo) →
  joins (eqv m) (eqv (<[hi := lo]> m)) a b.
Proof.
  intros Hlo Hhi Hne Hab x y. pose proof (link_root_of m lo hi Hlo Hhi Hne) as Hl.
  split.
  - intros [->|(r & Hx & Hy)]; [by left; left|].
    apply Hl in Hx as (u & Hx & ->), Hy as (v & Hy & Huv).
    destruct (decide (u = v)) as [->|Huv']; [left; right; eauto|].
    assert ((u = lo ∧ v = hi) ∨ (u = hi ∧ v = lo)) as Hcase by (repeat case_decide; subst; auto; done).
    destruct Hcase as [[-> ->]|[-> ->]], Hab as [[Ha Hb]|[Ha Hb]];
      [right; left|right; right|right; right|right; left]; split; right; eauto.
  - assert (∀ z w, eqv m z w → eqv (<[hi := lo]> m) z w) as Hmono.
    { intros z w [->|(r & ? & ?)]; [by left|]. right.
      exists (if decide (r = hi) then lo else r). rewrite !Hl. split; by exists r. }
    assert (eqv (<[hi := lo]> m) a b) as Hjoin.
    { right. exists lo. rewrite !Hl. destruct Hab as [[Ha Hb]|[Ha Hb]].
      - split; [exists lo|exists hi]; (split; [done|]); by case_decide.
      - split; [exists hi|exists lo]; (split; [done|]); by case_decide. }
    intros [H|[[H1 H2]|[H1 H2]]]; [by apply Hmono| |].
    + etrans; [by apply Hmono|]. etrans; [exact Hjoin|]. by apply Hmono.
    + etrans; [by apply Hmono|]. etrans; [symmetry; exact Hjoin|]. by apply Hmono.
Qed.

Lemma merge_seed_correct m s :
  parent_wf m → is_Some (m !! s.1) → is_Some (m !! s.2) →
  ∃ m', merge_seed m s = Some m' ∧ parent_wf m' ∧ dom m' = dom m ∧
    joins (eqv m) (eqv m') s.1 s.2.
Proof.
  intros Hwf H1 H2. unfold merge_seed.
  destruct (find_root_correct m s.1 Hwf H1) as (a & m1 & -> & Ha & Hwf1 & Hd1 & Hr1). cbn -[find_root key_ltb].
  assert (is_Some (m1 !! s.2)) as H2'.
  { apply elem_of_dom. rewrite Hd1. by apply elem_of_dom. }
  destruct (find_root_correct m1 s.2 Hwf1 H2') as (b & m2 & -> & Hb & Hwf2 & Hd2 & Hr2). cbn -[find_root key_ltb].
  assert (same_roots m m2) as Hs.
  { split; [by rewrite Hd2|]. intros. by rewrite Hr2. }
  assert (root_of m2 s.1 a) as Ha2 by (by apply Hs).
  assert (root_of m2 s.2 b) as Hb2 by (by apply Hr2).
  assert (∀ m', joins (eqv m2) (eqv m') s.1 s.2 → joins (eqv m) (eqv m') s.1 s.2) as Hj.
  { intros m' H x y. rewrite (H x y). by rewrite !(eqv_same_roots m m2) by done. }
  eexists. split; [done|]. case_bool_decide as Hab; [|destruct (key_ltb a b) eqn:Hlt].
  - subst b. split_and!; [done|by rewrite Hd2|]. apply Hj. intros x y.
    assert (eqv m2 s.1 s.2) as Hj' by (right; eauto).
    split; [by left|]. intros [H|[[Hx Hy]|[Hx Hy]]]; [done| |].
    + by rewrite Hx, Hj'.
    + by rewrite Hx, <-Hj'.
  - pose proof (root_of_is_root _ _ _ Ha2). pose proof (root_of_is_root _ _ _ Hb2).
    split_and!; [apply link_wf; [done|by eexists|done]|rewrite dom_insert_lookup_L by (by eexists); by rewrite Hd2|].
    apply Hj, link_joins; auto.
  - assert (key_lt b a) as Hlt'.
    { unfold key_lt. destruct (key_ltb b a) eqn:E; [done|]. destruct Hab. by apply key_ltb_total. }
    pose proof (root_of_is_root _ _ _ Ha2). pose proof (root_of_is_root _ _ _ Hb2).
    split_and!; [apply link_wf; [done|by eexists|done]|rewrite dom_insert_lookup_L by (by eexists); by rewrite Hd2|].
    apply Hj, link_joins; auto.
Qed.

(** ** The whole loop: classes are the connected components of the seeds *)
Lemma rtsc_subrel {A} (R R' : relation A) x y :
  (∀ a b, R a b → R' a b) → rtsc R x y → rtsc R' x y.
Proof. intros H. by apply (rtsc_congruence id). Qed.

Lemma joins_rtsc (E E' R R' : relation string) a b :
  Equivalence E → (∀ x y, E x y ↔ rtsc R x y) → joins E E' a b →
  (∀ x y, R' x y ↔ R x y ∨ (x = a ∧ y = b)) →
  ∀ x y, E' x y ↔ rtsc R' x y.
Proof.
  intros HE HR Hj HR' x y.
  assert (∀ u v, rtsc R u v → rtsc R' u v) as Hmono.
  { intros u v. apply rtsc_subrel. intros u' v' H. apply HR'. by left. }
  assert (rtsc R' a b) as Hab by (apply rtsc_lr, HR'; auto).
  split.
  - rewrite (Hj x y), !HR. intros [H|[[H1 H2]|[H1 H2]]]; [by apply Hmono| |].
    + etrans; [by apply Hmono|]. etrans; [exact Hab|]. by apply Hmono.
    + etrans; [by apply Hmono|]. etrans; [symmetry; exact Hab|]. by apply Hmono.
  - unfold rtsc. induction 1 as [x|x z y Hxz _ IH]; [apply (Hj x x); by left|].
    assert (∀ u v, R u v → E u v) as HRE.
    { intros u v H. apply HR. by apply rtsc_lr. }
    assert (E x z ∨ (x = a ∧ z = b) ∨ (x = b ∧ z = a)) as Hstep.
    { destruct Hxz as [H|H]; apply HR' in H as [H|[-> ->]]; auto.
      left. symmetry. auto. }
    apply (Hj z y) in IH. apply (Hj x y).
    destruct Hstep as [Hxz'|[[-> ->]|[-> ->]]].
    + destruct IH as [IH|[[? ?]|[? ?]]].
      * left. by etrans.
      * right; left. split; [by etrans|done].
      * right; right. split; [by etrans|done].
    + destruct IH as [IH|[[H1 H2]|[H1 H2]]].
      * right; left. by split.
      * left. etrans; [symmetry; exact H1|done].
      * by left.
    + destruct IH as [IH|[[H1 H2]|[H1 H2]]].
      * right; right. by split.
      * by left.
      * left. etrans; [symmetry; exact H1|done].
Qed.

Lemma self_parent_lookup anchors x :
  self_parent anchors !! x = if decide (x ∈ anchors) then Some x else None.
Proof.
  unfold self_parent.
  assert (∀ l (m : parent_map), foldl (λ m name, <[name := name]> m) m l !! x =
    if decide (x ∈ l) then Some x else m !! x) as H.
  { intros l. induction l as [|y l IH]; intros m; cbn; [by rewrite decide_False by set_solver|].
    rewrite IH. destruct (decide (x = y)) as [->|].
    - rewrite lookup_insert_eq, (decide_True (P:=y ∈ y :: l)) by set_solver. by case_decide.
    - rewrite lookup_insert_ne by done. apply decide_ext. set_solver. }
  rewrite H. apply decide_ext. apply elem_of_set_items.
Qed.

Lemma self_parent_wf anchors : parent_wf (self_parent anchors).
Proof.
  intros x y. rewrite self_parent_lookup. case_decide; [|done]. intros [= <-].
  split; [by left|]. rewrite self_parent_lookup, decide_True by done. eauto.
Qed.

Lemma self_parent_eqv anchors x y : eqv (self_parent anchors) x y ↔ x = y.
Proof.
  split; [|by left]. intros [|(r & Hx & Hy)]; [done|].
  assert (∀ z t, root_of (self_parent anchors) z t → z = t) as H.
  { intros z t. inversion 1 as [|? u ? Hz]; [done|].
    rewrite self_parent_lookup in Hz. by case_decide; simplify_eq. }
  apply H in Hx, Hy. congruence.
Qed.

Lemma merge_seeds_correct seeds : ∀ m (R : relation string),
  parent_wf m → (∀ s, s ∈ seeds → is_Some (m !! s.1) ∧ is_Some (m !! s.2)) →
  (∀ x y, eqv m x y ↔ rtsc R x y) →
  ∃ m', merge_seeds m seeds = Some m' ∧ parent_wf m' ∧ dom m' = dom m ∧
    ∀ x y, eqv m' x y ↔ rtsc (λ a b, R a b ∨ (a, b) ∈ seeds) x y.
Proof.
  induction seeds as [|s seeds IH]; intros m R Hwf Hs HR; cbn -[merge_seed].
  { exists m. split_and!; [done..|]. intros x y. rewrite HR.
    split; apply rtsc_subrel; set_solver. }
  destruct (Hs s ltac:(set_solver)) as [H1 H2].
  destruct (merge_seed_correct m s Hwf H1 H2) as (m1 & -> & Hwf1 & Hd1 & Hj). cbn -[merge_seed].
  destruct (IH m1 (λ a b, R a b ∨ (a = s.1 ∧ b = s.2))) as (m2 & -> & Hwf2 & Hd2 & He).
  - done.
  - intros s' Hin. rewrite <-!elem_of_dom, Hd1, !elem_of_dom. apply Hs. set_solver.
  - eapply joins_rtsc; [apply (eqv_equivalence m)|exact HR|exact Hj|done].
  - exists m2. split_and!; [done|done|by rewrite Hd2|]. intros x y. rewrite He.
    split; apply rtsc_subrel; intros a b; destruct s; set_solver.
Qed.

(** ** Grouping *)
Definition grouped (m : parent_map) (names : list string) (c : gmap string (list string)) : Prop :=
  (∀ r l, c !! r = Some l →
     l ≠ [] ∧ l `sublist_of` names ∧ ∀ x, x ∈ l ↔ x ∈ names ∧ root_of m x r) ∧
  (∀ x, x ∈ names → ∃ r, root_of m x r ∧ is_Some (c !! r)).

Lemma grouped_same_roots m m' names c : same_roots m m' → grouped m names c → grouped m' names c.
Proof.
  intros [_ Hr] [H1 H2]. split.
  - intros r l Hl. setoid_rewrite Hr. by apply H1.
  - intros x Hx. setoid_rewrite Hr. by apply H2.
Qed.

Lemma grouped_push m names c x r :
  grouped m names c → root_of m x r → x ∉ names →
  grouped m (names ++ [x]) (<[r := get_or [] c r ++ [x]]> c).
Proof.
  intros [H1 H2] Hx Hn. split.
  - intros r' l. rewrite lookup_insert_Some. intros [[<- <-]|[Hne Hl]].
    + split; [by destruct (get_or [] c r)|]. unfold get_or.
      destruct (c !! r) as [l0|] eqn:Hc; cbn.
      * destruct (H1 r l0 Hc) as (_ & Hs & Hin). split; [by apply sublist_app|].
        intros y. rewrite !elem_of_app, list_elem_of_singleton, Hin. naive_solver.
      * split; [apply (sublist_app [] names [x] [x]); [apply sublist_nil_l|done]|].
        intros y. rewrite elem_of_app, !list_elem_of_singleton. split; [intros ->; auto|].
        intros [[Hy|Hy] Hr]; [|done]. destruct (H2 y Hy) as (r' & Hr' & Hd).
        rewrite (root_of_det _ _ _ _ Hr' Hr), Hc in Hd. by destruct Hd.
    + destruct (H1 r' l Hl) as (? & Hs & Hin). split_and!; [done|by apply sublist_inserts_r|].
      intros y. rewrite elem_of_app, list_elem_of_singleton, Hin.
      split; [naive_solver|]. intros [[?| ->] Hr]; [done|].
      by rewrite (root_of_det _ _ _ _ Hx Hr) in Hne.
  - intros y. rewrite elem_of_app, list_elem_of_singleton. intros [Hy| ->].
    + destruct (H2 y Hy) as (r' & ? & ?). exists r'. split; [done|].
      rewrite lookup_insert_is_Some. destruct (decide (r = r')); auto.
    + exists r. split; [done|]. rewrite lookup_insert_eq. eauto.
Qed.

Lemma group_correct names : ∀ pre m c,
  parent_wf m → (∀ x, x ∈ names → is_Some (m !! x)) → NoDup (pre ++ names) →
  grouped m pre c →
  ∃ c', group m c names = Some c' ∧ grouped m (pre ++ names) c'.
Proof.
  induction names as [|x names IH]; intros pre m c Hwf Hin Hnd Hg; cbn -[find_root].
  { exists c. by rewrite app_nil_r. }
  destruct (find_root_correct m x Hwf (Hin x ltac:(set_solver)))
    as (r & m1 & -> & Hr & Hwf1 & Hs). cbn -[find_root].
  destruct (IH (pre ++ [x]) m1 (<[r := get_or [] c r ++ [x]]> c)) as (c' & Hc' & Hg').
  - done.
  - intros y Hy. apply elem_of_dom. rewrite (proj1 Hs). apply elem_of_dom, Hin. set_solver.
  - by rewrite <-app_assoc.
  - apply grouped_push; [by eapply grouped_same_roots|by apply Hs|].
    apply NoDup_app in Hnd as (_ & Hd & _). intros Hx. by apply (Hd x Hx); left.
  - exists c'. split; [done|]. rewrite <-app_assoc in Hg'.
    eapply grouped_same_roots; [|exact Hg']. destruct Hs as [Hd Heq].
    split; [done|]. intros. by rewrite Heq.
Qed.

Lemma sublist_sorted {A} (R : relation A) l k :
  l `sublist_of` k → StronglySorted R k → StronglySorted R l.
Proof.
  induction 1 as [|x l k Hlk IH|x l k Hlk IH]; intros Hs; [done|..];
    apply StronglySorted_cons in Hs as [Hx Hs]; [|by apply IH].
  constructor; [by apply IH|]. rewrite Forall_forall in *.
  intros y Hy. apply Hx. by eapply sublist_subseteq.
Qed.

(** ** Specification: the connected components of the seed graph *)
Record connected_components (anchors : gset string) (seeds : list (string * string))
    (c : gmap string (list string)) : Prop := {
  cc_cover : ∀ x, x ∈ anchors → ∃ r l, c !! r = Some l ∧ x ∈ l;
  cc_group : ∀ r l, c !! r = Some l → StronglySorted key_lt l ∧ head l = Some r ∧
    ∀ x, x ∈ l → x ∈ anchors;
  cc_same : ∀ r r' l l' x y, c !! r = Some l → c !! r' = Some l' → x ∈ l → y ∈ l' →
    (r = r' ↔ rtsc (λ a b, (a, b) ∈ seeds) x y);
}.

Lemma components_of_correct anchors seeds :
  (∀ s, s ∈ seeds → s.1 ∈ anchors ∧ s.2 ∈ anchors) →
  ∃ c, components_of anchors seeds = Some c ∧ connected_components anchors seeds c.
Proof.
  intros Hs. unfold components_of.
  destruct (merge_seeds_correct seeds (self_parent anchors) (λ _ _, False))
    as (m & -> & Hwf & Hd & He).
  { apply self_parent_wf. }
  { intros s Hin. rewrite !self_parent_lookup, !decide_True by (by apply Hs). eauto. }
  { intros x y. rewrite self_parent_eqv. split; [by intros ->|].
    unfold rtsc. intros Hr. by inversion Hr as [|? ? ? [Hf|Hf]]. }
  assert (∀ x, is_Some (m !! x) ↔ x ∈ anchors) as Hdom.
  { intros x. rewrite <-elem_of_dom, Hd, elem_of_dom, self_parent_lookup.
    case_decide; split; intros Hd'; done. }
  cbn -[group].
  destruct (group_correct (set_items anchors) [] m ∅) as (c & -> & Hg1 & Hg2).
  { done. }
  { intros x Hx%elem_of_set_items. by apply Hdom. }
  { apply NoDup_set_items. }
  { split; [by intros ? ? ?%lookup_empty_Some|set_solver]. }
  rewrite app_nil_l in Hg1, Hg2. exists c. split; [done|]. split.
  - intros x Hx%elem_of_set_items. destruct (Hg2 x Hx) as (r & Hr & [l Hl]).
    exists r, l. split; [done|]. by apply (Hg1 r l Hl).
  - intros r l Hl. destruct (Hg1 r l Hl) as (Hne & Hsub & Hin).
    assert (StronglySorted key_lt l) as Hsl by (eapply sublist_sorted, set_items_sorted; done).
    split_and!; [done| |intros x [Hx _]%Hin; by apply elem_of_set_items].
    destruct l as [|x l]; [done|]. cbn. f_equal.
    destruct (proj1 (Hin x) ltac:(set_solver)) as [_ Hx].
    assert (r ∈ x :: l) as Hr.
    { pose proof (root_of_is_root _ _ _ Hx) as Hrr. apply Hin. split; [|by apply root_self].
      apply elem_of_set_items, Hdom. eauto. }
    apply StronglySorted_cons in Hsl as [Hlt _]. rewrite Forall_forall in Hlt.
    destruct (root_of_le m x r Hwf Hx) as [->|Hrx]; [done|].
    apply elem_of_cons in Hr as [->|Hr]; [done|]. specialize (Hlt r Hr).
    unfold key_lt in *. apply key_ltb_asym in Hlt. congruence.
  - intros r r' l l' x y Hl Hl' Hx Hy.
    destruct (proj1 (proj2 (proj2 (Hg1 r l Hl)) x) Hx) as [_ Hxr].
    destruct (proj1 (proj2 (proj2 (Hg1 r' l' Hl')) y) Hy) as [_ Hyr].
    assert (rtsc (λ a b, (a, b) ∈ seeds) x y ↔ eqv m x y) as ->.
    { rewrite He. split; apply rtsc_subrel; naive_solver. }
    split; [intros ->; right; eauto|].
    intros [->|(t & ? & ?)]; [by eapply root_of_det|].
    transitivity t; [by eapply root_of_det|symmetry; by eapply root_of_det].
Qed.

(** C27: the domains built from a set of anchor families and the confirmed
    seeds are the connected components of the seed graph: the union-find never
    runs out of the recursion it needs, every anchor is in a group, two
    anchors share a group exactly when a chain of seeds connects them, and
    every group is a strictly increasing list headed by its key. *)
Theorem components_connected anchors seeds
    (Hs : ∀ s, s ∈ seeds → s.1 ∈ anchors ∧ s.2 ∈ anchors) :
  ∃ c, components_of anchors seeds = Some c ∧
    (∀ x, x ∈ anchors → ∃ r l, c !! r = Some l ∧ x ∈ l) ∧
    (∀ r l, c !! r = Some l → StronglySorted key_lt l ∧ head l = Some r ∧
       ∀ x, x ∈ l → x ∈ anchors) ∧
    (∀ r r' l l' x y, c !! r = Some l → c !! r' = Some l' → x ∈ l → y ∈ l' →
       (r = r' ↔ rtsc (λ a b, (a, b) ∈ seeds) x y)).
Proof.
  destruct (components_of_correct anchors seeds Hs) as (c & Hc & [H1 H2 H3]).
  exists c. split_and!; done.
Qed.

Lemma components_connected_witness :
  components_of {[ "a"; "b"; "c"; "d" ]} [("b", "d"); ("a", "d")] =
    Some {[ "a" := ["a"; "b"; "d"]; "c" := ["c"] ]} ∧
  rtsc (λ a b, (a, b) ∈ [("b", "d"); ("a", "d")]) "a" "b".
Proof.
  split; [by vm_compute|].
  destruct (components_connected {[ "a"; "b"; "c"; "d" ]} [("b", "d"); ("a", "d")])
    as (c & Hc & _ & _ & Hi).
  { set_solver. }
  assert (c = {[ "a" := ["a"; "b"; "d"]; "c" := ["c"] ]}) as ->.
  { vm_compute in Hc. injection Hc as <-. by vm_compute. }
  refine (proj1 (Hi "a" "a" ["a"; "b"; "d"] ["a"; "b"; "d"] "a" "b" _ _ _ _) eq_refl);
    [reflexivity|reflexivity|left|right; left].
Defined.
