(* ===== verification/DomainSolver.v ===== *)
(** * The NUMA-domain solver ([src/domain_solver.cpp], class [NumaDomainSolver])

    The stateful solver: [propose] in the order of its phases (aggregation,
    family metrics, pair confirmation, grace, anchors, components, capacity
    planning, dwell, mask rebuild, plan confirmation, actions), [commit],
    [discard], [reset] and [remove_thread].  Confirmation counters and [size_t]
    counts are unbounded [Z]; time differences wrap modulo 2^64. *)
From S2P Require Import Prelude Binary64 Core CpuList Topology DomainPlanner UnionFind.
Local Open Scope string_scope.
Local Open Scope Z_scope.

(** ** Data ([core.hpp]) *)
Record FamilyMetric := mk_FamilyMetric {
  fm_name : string;
  fm_thread_count : Z;
  fm_demand : double;
  fm_internal_relation : double;
  fm_external_relation : double;
  fm_self_containment : double;
  fm_relative_internal : double;
  fm_demand_eligible : bool;
  fm_internal_relation_eligible : bool;
  fm_self_containment_eligible : bool;
  fm_relative_internal_eligible : bool;
  fm_cohesive_eligible : bool;
  fm_confirmation : Z;
  fm_seed_confirmation : Z;
  fm_cohesive_anchor : bool;
  fm_cross_pending : bool;
  fm_cross_seed : bool;
  fm_anchor : bool;
}.

(** The fields later phases write. *)
Definition fm_update (m : FamilyMetric) (seed_confirmation : Z) (cross_pending cross_seed anchor : bool) :
    FamilyMetric :=
  mk_FamilyMetric (fm_name m) (fm_thread_count m) (fm_demand m) (fm_internal_relation m)
    (fm_external_relation m) (fm_self_containment m) (fm_relative_internal m)
    (fm_demand_eligible m) (fm_internal_relation_eligible m) (fm_self_containment_eligible m)
    (fm_relative_internal_eligible m) (fm_cohesive_eligible m) (fm_confirmation m)
    seed_confirmation (fm_cohesive_anchor m) cross_pending cross_seed anchor.

Record FamilyPairMetric := mk_FamilyPairMetric {
  fp_left : string;
  fp_right : string;
  fp_cross_relation : double;
  fp_denominator : double;
  fp_merge_ratio : double;
  fp_endpoints_eligible : bool;
  fp_qualifies : bool;
  fp_confirmation : Z;
  fp_confirmed : bool;
}.

Record NumaDomain := mk_NumaDomain {
  nd_id : string;
  nd_families : list string;
  nd_tids : list Z;
  nd_target_nodes : list Z;
  nd_target_mask : list Z;
  nd_demand : double;
  nd_previous_nodes : list Z;
  nd_online_cpu_count : Z;
  nd_capacity_limit : double;
  nd_capacity_headroom : double;
  nd_relation_latency : double;
  nd_background_demand : double;
  nd_initial_migrations : Z;
  nd_expand_confirmation : Z;
  nd_shrink_confirmation : Z;
  nd_node_decision : string;
  nd_confirmation : Z;
  nd_valid : bool;
  nd_invalid_reason : string;
}.

Definition nd_set_validity (d : NumaDomain) (valid : bool) (reason : string) : NumaDomain :=
  mk_NumaDomain (nd_id d) (nd_families d) (nd_tids d) (nd_target_nodes d) (nd_target_mask d)
    (nd_demand d) (nd_previous_nodes d) (nd_online_cpu_count d) (nd_capacity_limit d)
    (nd_capacity_headroom d) (nd_relation_latency d) (nd_background_demand d)
    (nd_initial_migrations d) (nd_expand_confirmation d) (nd_shrink_confirmation d)
    (nd_node_decision d) (nd_confirmation d) valid reason.

Definition nd_set_confirmation (c : Z) (d : NumaDomain) : NumaDomain :=
  mk_NumaDomain (nd_id d) (nd_families d) (nd_tids d) (nd_target_nodes d) (nd_target_mask d)
    (nd_demand d) (nd_previous_nodes d) (nd_online_cpu_count d) (nd_capacity_limit d)
    (nd_capacity_headroom d) (nd_relation_latency d) (nd_background_demand d)
    (nd_initial_migrations d) (nd_expand_confirmation d) (nd_shrink_confirmation d)
    (nd_node_decision d) c (nd_valid d) (nd_invalid_reason d).

Record NumaDomainOptions := mk_NumaDomainOptions {
  family_minimum_demand : double;
  family_minimum_internal_relation : double;
  family_minimum_self_containment : double;
  family_minimum_relative_internal : double;
  domain_merge_ratio : double;
  family_edges_per_family : nat;
  family_stability_confirmations : Z;
  domain_stability_confirmations : Z;
  plan_confirmations : Z;
  maximum_threads_per_domain : Z;
  capacity_ratio : double;
  expand_ratio : double;
  opt_expand_confirmations : Z;
  shrink_ratio : double;
  opt_shrink_confirmations : Z;
  minimum_dwell_ns : Z;
}.

(** The defaults of [struct NumaDomainOptions]. *)
Definition NumaDomainOptions_default : NumaDomainOptions :=
  mk_NumaDomainOptions d1 d1 (dlit 20 100) (dlit 10 100) (dlit 25 100) 4 3 3 3 1024
    (dlit 80 100) (dlit 90 100) 3 (dlit 55 100) 6 300000000000.

Record NumaDomainAction := mk_NumaDomainAction {
  na_identity : ThreadIdentity;
  na_from_mask : list Z;
  na_target_mask : list Z;
  na_target_nodes : list Z;
  na_forced_migration : bool;
}.
Definition na_tid (a : NumaDomainAction) : Z := tid (na_identity a).

Record NumaDomainProposal := mk_NumaDomainProposal {
  np_id : Z;
  np_delta : PlacementDelta;
  np_planned_masks : gmap Z (list Z);
  np_inherited_tids : gset Z;
  np_families : list FamilyMetric;
  np_family_pairs : list FamilyPairMetric;
  np_domains : list NumaDomain;
  np_actions : list NumaDomainAction;
  np_released_tids : gset Z;
  np_input_family_count : Z;
  np_input_cross_family_pair_count : Z;
  np_selected_family_pair_count : Z;
  np_total_demand : double;
  np_total_relation : double;
  np_ready : bool;
  np_valid : bool;
  np_invalid_reason : string;
}.

(** [class NumaDomainSolver]: its private state. *)
Record NumaDomainSolver := mk_NumaDomainSolver {
  next_proposal_id : Z;
  ds_generation : Z;
  family_confirmations : gmap string Z;
  merge_confirmations : gmap fam_pair Z;
  merge_pending_grace : gmap fam_pair Z;
  global_plan_confirmation : Z;
  ds_expand_confirmations : gmap string Z;
  ds_shrink_confirmations : gmap string Z;
  last_changed_ns : gmap string Z;
  last_confirmed_domain_evidence_ns : gmap string Z;
  domain_nodes : gmap string (list Z);
  ds_placement : gmap Z (list Z);
  ds_domains : list NumaDomain;
  ds_families : list FamilyMetric;
  pending_signature : string;
  ds_outstanding : option NumaDomainProposal;
}.

Definition NumaDomainSolver_init : NumaDomainSolver :=
  mk_NumaDomainSolver 1 0 ∅ ∅ ∅ 0 ∅ ∅ ∅ ∅ ∅ ∅ [] [] "" None.

(** [effective()] *)
Definition ds_effective (s : NumaDomainSolver) : bool := negb (bool_decide (ds_placement s = ∅)).

(** ** Names *)
Fixpoint domain_id (families : list string) : string :=
  match families with
  | [] => ""
  | [f] => f
  | f :: fs => f +:+ "+" +:+ domain_id fs
  end.

Definition domain_signature (d : NumaDomain) : string :=
  nd_id d +:+ ":" +:+
  foldr (λ n acc, String.string_of_list_ascii (print_int n) +:+ "," +:+ acc) "" (nd_target_nodes d) +:+
  ":" +:+ (if nd_valid d then "valid" else nd_invalid_reason d) +:+ ";".

Definition plan_signature (domains : list NumaDomain) : string :=
  foldr (λ d acc, domain_signature d +:+ acc) "" domains.

(** ** Aggregation *)
Definition by_tid_of (threads : list ThreadDemand) : gmap Z ThreadDemand :=
  foldl (λ m t, <[td_tid t := t]> m) ∅ threads.

Definition by_family_of (threads : list ThreadDemand) : gmap string (list ThreadDemand) :=
  foldl (λ m t, push_back (td_group t) t m) ∅ threads.

Definition sum_demand (threads : list ThreadDemand) : double :=
  foldl (λ d t, (d + td_demand t)%D) d0 threads.

Record EdgeTotals := mk_EdgeTotals {
  et_total_relation : double;
  et_internal : gmap string double;
  et_external : gmap string double;
  et_cross : gmap fam_pair double;
}.

(** [map[key] += value] *)
Definition add_to {K} `{Countable K} (k : K) (v : double) (m : gmap K double) : gmap K double :=
  <[k := (get_or d0 m k + v)%D]> m.

Definition add_edge (by_tid : gmap Z ThreadDemand) (t : EdgeTotals) (e : RelationEdge) : EdgeTotals :=
  let total := (et_total_relation t + re_score e)%D in
  match by_tid !! re_from_tid e, by_tid !! re_to_tid e with
  | Some from, Some to =>
      let a := td_group from in
      let b := td_group to in
      if bool_decide (a = b)
      then mk_EdgeTotals total (add_to a (re_score e) (et_internal t)) (et_external t) (et_cross t)
      else mk_EdgeTotals total (et_internal t)
             (add_to b (re_score e) (add_to a (re_score e) (et_external t)))
             (add_to (minmax a b) (re_score e) (et_cross t))
  | _, _ => mk_EdgeTotals total (et_internal t) (et_external t) (et_cross t)
  end.

Definition aggregate_edges (by_tid : gmap Z ThreadDemand) (edges : list RelationEdge) : EdgeTotals :=
  foldl (add_edge by_tid) (mk_EdgeTotals d0 ∅ ∅ ∅) edges.

Definition maximum_internal (internal : gmap string double) : double :=
  foldl (λ m '(_, value), dmax m value) d0 (items internal).

(** ** Family metrics *)
Definition family_metric (o : NumaDomainOptions) (t : EdgeTotals) (maxint : double)
    (conf : gmap string Z) (name : string) (members : list ThreadDemand) : FamilyMetric :=
  let demand := sum_demand members in
  let internal := get_or d0 (et_internal t) name in
  let external := get_or d0 (et_external t) name in
  let total := (internal + external)%D in
  let self_containment := if (d0 <? total)%D then (internal / total)%D else d0 in
  let relative_internal := if (d0 <? maxint)%D then (internal / maxint)%D else d0 in
  let demand_eligible := (family_minimum_demand o <=? demand)%D in
  let internal_eligible := (family_minimum_internal_relation o <=? internal)%D in
  let self_eligible := (family_minimum_self_containment o <=? self_containment)%D in
  let relative_eligible := (family_minimum_relative_internal o <=? relative_internal)%D in
  let cohesive := demand_eligible && internal_eligible && self_eligible && relative_eligible in
  let confirmation := if cohesive then get_or 0 conf name + 1 else 0 in
  mk_FamilyMetric name (Zsize members) demand internal external self_containment
    relative_internal demand_eligible internal_eligible self_eligible relative_eligible cohesive
    confirmation 0 (family_stability_confirmations o <=? confirmation) false false false.

(** One family: its metric, and the confirmation counter of the same value. *)
Definition family_step (o : NumaDomainOptions) (t : EdgeTotals) (maxint : double)
    (acc : gmap string FamilyMetric * gmap string Z) (f : string * list ThreadDemand) :
    gmap string FamilyMetric * gmap string Z :=
  let '(metrics, conf) := acc in
  let m := family_metric o t maxint conf f.1 f.2 in
  (<[f.1 := m]> metrics, <[f.1 := fm_confirmation m]> conf).

Definition family_metrics (o : NumaDomainOptions) (t : EdgeTotals)
    (by_family : gmap string (list ThreadDemand)) (conf : gmap string Z) :
    gmap string FamilyMetric * gmap string Z :=
  let '(metrics, conf) :=
    foldl (family_step o t (maximum_internal (et_internal t))) (∅, conf) (items by_family) in
  (metrics, map_imap (λ name c, Some (if bool_decide (name ∈ dom by_family) then c else 0)) conf).

(** ** Pair confirmation *)
Record PairState := mk_PairState {
  ps_metrics : gmap string FamilyMetric;
  ps_merge : gmap fam_pair Z;
  ps_grace : gmap fam_pair Z;
  ps_pairs : list FamilyPairMetric;
  ps_evaluated : gset fam_pair;
  ps_qualifying : gset fam_pair;
  ps_seeds : list fam_pair;
}.

(** [std::map::at] *)
Definition at_key {K V} `{Countable K} (m : gmap K V) (k : K) : result V :=
  match m !! k with Some v => Ok v | None => Throw (out_of_range "map::at") end.

Definition endpoints_eligible (o : NumaDomainOptions) (l r : FamilyMetric) : bool :=
  (family_minimum_demand o <=? fm_demand l)%D && (family_minimum_demand o <=? fm_demand r)%D &&
  (family_minimum_internal_relation o <=? fm_internal_relation l)%D &&
  (family_minimum_internal_relation o <=? fm_internal_relation r)%D.

(** [metrics[name].seed_confirmation = max(…)], and [cross_seed] when confirmed. *)
Definition note_seed (confirmation : Z) (confirmed : bool) (m : FamilyMetric) : FamilyMetric :=
  fm_update m (Z.max (fm_seed_confirmation m) confirmation) (fm_cross_pending m)
    (confirmed || fm_cross_seed m) (fm_anchor m).

Definition evaluate_pair (o : NumaDomainOptions) (t : EdgeTotals) (st : PairState)
    (p : fam_pair) : result PairState :=
  weight ← at_key (et_cross t) p;
  l ← at_key (ps_metrics st) p.1;
  r ← at_key (ps_metrics st) p.2;
  let eligible := endpoints_eligible o l r in
  let denominator := dmin (get_or d0 (et_internal t) p.1) (get_or d0 (et_internal t) p.2) in
  let qualifies := eligible && (d0 <? denominator)%D &&
                   (domain_merge_ratio o <=? weight / denominator)%D in
  let confirmation := if qualifies then get_or 0 (ps_merge st) p + 1 else 0 in
  let confirmed := domain_stability_confirmations o <=? confirmation in
  let ratio := if (d0 <? denominator)%D then (weight / denominator)%D else d0 in
  Ok (mk_PairState
    (alter (note_seed confirmation confirmed) p.2
       (alter (note_seed confirmation confirmed) p.1 (ps_metrics st)))
    (<[p := confirmation]> (ps_merge st))
    (if qualifies then <[p := plan_confirmations o]> (ps_grace st) else ps_grace st)
    (ps_pairs st ++ [mk_FamilyPairMetric p.1 p.2 weight denominator ratio eligible qualifies
                       confirmation confirmed])
    ({[p]} ∪ ps_evaluated st)
    (if qualifies then {[p]} ∪ ps_qualifying st else ps_qualifying st)
    (if confirmed then ps_seeds st ++ [p] else ps_seeds st)).

(** One entry of [merge_pending_grace_]: age it, then mark both families while
    the pair is still being confirmed. *)
Definition grace_step (o : NumaDomainOptions) (qualifying : gset fam_pair)
    (acc : gmap string FamilyMetric * gmap fam_pair Z * gmap fam_pair Z)
    (e : fam_pair * Z) : gmap string FamilyMetric * gmap fam_pair Z * gmap fam_pair Z :=
  let '(metrics, merge, graces) := acc in
  let '(p, grace) := e in
  let grace := if negb (bool_decide (p ∈ qualifying)) && (0 <? grace) then grace - 1 else grace in
  let merge := touch p 0 merge in
  let confirmation := get_or 0 merge p in
  let pending m := fm_update m (fm_seed_confirmation m) true (fm_cross_seed m) (fm_anchor m) in
  let metrics :=
    if (0 <? grace) && (confirmation <? domain_stability_confirmations o) &&
       bool_decide (is_Some (metrics !! p.1)) && bool_decide (is_Some (metrics !! p.2))
    then alter pending p.2 (alter pending p.1 metrics) else metrics in
  (metrics, merge, <[p := grace]> graces).

Definition evaluate_pairs (o : NumaDomainOptions) (t : EdgeTotals) (selected : gset fam_pair)
    (metrics : gmap string FamilyMetric) (merge grace : gmap fam_pair Z) : result PairState :=
  st ← foldlM (evaluate_pair o t) (mk_PairState metrics merge grace [] ∅ ∅ []) (set_items selected);
  let merge1 := map_imap (λ p c, Some (if bool_decide (p ∈ ps_evaluated st) then c else 0))
                  (ps_merge st) in
  let '(metrics2, merge2, grace2) :=
    foldl (grace_step o (ps_qualifying st)) (ps_metrics st, merge1, ps_grace st)
      (items (ps_grace st)) in
  Ok (mk_PairState metrics2 merge2 grace2 (ps_pairs st) (ps_evaluated st) (ps_qualifying st)
        (ps_seeds st)).

(** ** Anchors *)
Definition set_anchor (m : FamilyMetric) : FamilyMetric :=
  fm_update m (fm_seed_confirmation m) (fm_cross_pending m) (fm_cross_seed m)
    (fm_cross_seed m || (fm_cohesive_anchor m && negb (fm_cross_pending m))).

Definition anchors_of (metrics : gmap string FamilyMetric) : gset string :=
  list_to_set (filter (λ f, fm_anchor (set_anchor f.2) = true) (items metrics)).*1.

Definition families_of (metrics : gmap string FamilyMetric) : list FamilyMetric :=
  (λ f, set_anchor f.2) <$> items metrics.

(** ** Capacity planning of one domain *)
Definition empty_intersection : string := "empty_application_mask_intersection".

(** [allowed == end ? target_mask : intersect_masks(target_mask, allowed)] *)
Definition effective_mask (allowed : gmap Z (list Z)) (target_mask : list Z) (t : Z) : list Z :=
  match allowed !! t with None => target_mask | Some a => intersect_masks target_mask a end.

(** What the expand/shrink lifecycle decides for one domain. *)
Record Lifecycle := mk_Lifecycle {
  lc_required : list Z;
  lc_previous : list Z;
  lc_decision : string;
  lc_expand : gmap string Z;
  lc_shrink : gmap string Z;
  lc_changed : gmap string Z;
}.

Section lifecycle.
Context (h : HardwareGraph) (o : NumaDomainOptions) (now_ns : Z) (nodes_map : gmap string (list Z)).

Definition node_lifecycle (id : string) (valid : bool) (demand : double) (required : list Z)
    (expands shrinks changed : gmap string Z) : Lifecycle :=
  match nodes_map !! id with
  | Some previous =>
      if negb (bool_decide (previous = [])) && valid then
        let previous_mask := mask_for_nodes h previous in
        let utilization := if bool_decide (previous_mask = []) then d1
                           else (demand / double_of_nat (length previous_mask))%D in
        let expand := (length previous <? length required)%nat &&
                      (expand_ratio o <? utilization)%D in
        let may_shrink := (length required <? length previous)%nat &&
                          (utilization <? shrink_ratio o)%D in
        let changed := if may_shrink then touch id 0 changed else changed in
        let shrink := may_shrink && (minimum_dwell_ns o <=? u64_sub now_ns (get_or 0 changed id)) in
        let expands := <[id := if expand then get_or 0 expands id + 1 else 0]> expands in
        let shrinks := <[id := if shrink then get_or 0 shrinks id + 1 else 0]> shrinks in
        let expand_confirmed := expand && (opt_expand_confirmations o <=? get_or 0 expands id) in
        let shrink_confirmed := shrink && (opt_shrink_confirmations o <=? get_or 0 shrinks id) in
        if expand_confirmed then mk_Lifecycle required previous "expanded" expands shrinks changed
        else if shrink_confirmed then
          mk_Lifecycle required previous "shrunk" expands shrinks changed
        else
          mk_Lifecycle previous previous
            (if bool_decide (required = previous) then "stable"
             else if expand then "held_expand_pending"
             else if shrink then "held_shrink_pending" else "held_existing")
            expands shrinks changed
      else mk_Lifecycle required [] (if valid then "initial" else "") expands shrinks changed
  | None => mk_Lifecycle required [] (if valid then "initial" else "") expands shrinks changed
  end.
End lifecycle.

(** The loop over the members that fills [proposal.delta.tid_to_mask]; [false]
    when it stopped at an empty intersection. *)
Fixpoint member_masks (allowed : gmap Z (list Z)) (target_mask : list Z)
    (members : list ThreadDemand) (delta : gmap Z (list Z)) : bool * gmap Z (list Z) :=
  match members with
  | [] => (true, delta)
  | m :: members =>
      let target := effective_mask allowed target_mask (td_tid m) in
      if bool_decide (target = []) then (false, delta)
      else member_masks allowed target_mask members (<[td_tid m := target]> delta)
  end.

Record PlanState := mk_PlanState {
  pl_domains : list NumaDomain;
  pl_placed : list (list string * list Z);
  pl_delta : gmap Z (list Z);
  pl_valid : bool;
  pl_reason : string;
  pl_expand : gmap string Z;
  pl_shrink : gmap string Z;
  pl_changed : gmap string Z;
}.

Section plan.
Context (h : HardwareGraph) (o : NumaDomainOptions) (now_ns : Z)
  (threads : list ThreadDemand) (by_family : gmap string (list ThreadDemand))
  (cross : gmap fam_pair double) (allowed : gmap Z (list Z))
  (nodes_map : gmap string (list Z)).

Definition plan_domain (st : PlanState) (component : string * list string) : PlanState :=
  let family_names := std_sort key_ltb component.2 in
  let id := domain_id family_names in
  let members := family_names ≫= get_or [] by_family in
  let tids := std_sort Z.ltb (td_tid <$> members) in
  let demand := sum_demand members in
  let too_many := maximum_threads_per_domain o <? Zsize tids in
  let choice :=
    choose_nodes h demand (capacity_ratio o) members threads (pl_placed st) family_names cross in
  let no_nodes := bool_decide (nc_nodes choice = []) in
  let valid := negb too_many && negb no_nodes in
  let reason := if no_nodes then "insufficient_node_capacity"
                else if too_many then "maximum_threads_per_domain_exceeded" else "" in
  let lc := node_lifecycle h o now_ns nodes_map id valid demand (nc_nodes choice)
              (pl_expand st) (pl_shrink st) (pl_changed st) in
  let expands := touch id 0 (lc_expand lc) in
  let shrinks := touch id 0 (lc_shrink lc) in
  let required := lc_required lc in
  let final := evaluate_nodes h demand (capacity_ratio o) members threads (pl_placed st)
                 family_names cross required in
  let target_mask := mask_for_nodes h required in
  let '(nonempty, delta) := member_masks allowed target_mask members (pl_delta st) in
  let valid := valid && nonempty in
  let reason := if nonempty then reason else empty_intersection in
  let domain :=
    mk_NumaDomain id family_names tids required target_mask demand (lc_previous lc)
      (nc_online_cpu_count final) (nc_capacity_limit final) (nc_capacity_headroom final)
      (nc_relation_latency final) (nc_background_demand final) (nc_initial_migrations final)
      (get_or 0 expands id) (get_or 0 shrinks id) (lc_decision lc) 0 valid reason in
  mk_PlanState (pl_domains st ++ [domain]) (pl_placed st ++ [(family_names, required)])
    (if valid then delta else ∅) (valid && pl_valid st)
    (if valid then pl_reason st else id +:+ ":" +:+ reason) expands shrinks (lc_changed lc).
End plan.

(** ** Dwell *)
Definition covers (families : list string) (candidate : NumaDomain) : bool :=
  forallb (λ f, bool_decide (f ∈ nd_families candidate)) families.

(** Refresh of [last_confirmed_domain_evidence_ns_]. *)
Definition refresh_evidence (now_ns : Z) (candidates : list NumaDomain)
    (evidence : gmap string Z) (committed : NumaDomain) : gmap string Z :=
  if existsb (λ c, nd_valid c && covers (nd_families committed) c) candidates
  then <[nd_id committed := now_ns]> evidence else evidence.

Record HoldState := mk_HoldState {
  hs_domains : list NumaDomain;
  hs_valid : bool;
  hs_reason : string;
}.

(** [held]: the committed domain re-populated with the threads observed now. *)
Definition held_domain (o : NumaDomainOptions) (committed : NumaDomain)
    (members : list ThreadDemand) : NumaDomain :=
  let tids := std_sort Z.ltb (td_tid <$> members) in
  let demand := sum_demand members in
  let online := length (nd_target_mask committed) in
  let limit := (double_of_nat online * capacity_ratio o)%D in
  let too_many := maximum_threads_per_domain o <? Zsize tids in
  mk_NumaDomain (nd_id committed) (nd_families committed) tids (nd_target_nodes committed)
    (nd_target_mask committed) demand (nd_target_nodes committed) (Z.of_nat online) limit
    (limit - demand)%D (nd_relation_latency committed) (nd_background_demand committed) 0
    (nd_expand_confirmation committed) (nd_shrink_confirmation committed) "held_domain_dwell"
    (nd_confirmation committed) (if too_many then false else nd_valid committed)
    (if too_many then "maximum_threads_per_domain_exceeded" else nd_invalid_reason committed).

Definition hold_domain (o : NumaDomainOptions) (now_ns : Z)
    (by_family : gmap string (list ThreadDemand)) (evidence : gmap string Z)
    (st : HoldState) (committed : NumaDomain) : HoldState :=
  match evidence !! nd_id committed with
  | None => st
  | Some confirmed =>
      if minimum_dwell_ns o <=? u64_sub now_ns confirmed then st else
      if existsb (covers (nd_families committed)) (hs_domains st) then st else
      let members := nd_families committed ≫= get_or [] by_family in
      if bool_decide (members = []) then st else
      let kept := filter (λ c, existsb (λ f, bool_decide (f ∈ nd_families committed))
                                 (nd_families c) = false) (hs_domains st) in
      let held := held_domain o committed members in
      let too_many := maximum_threads_per_domain o <? Zsize (nd_tids held) in
      mk_HoldState (kept ++ [held]) (negb too_many && hs_valid st)
        (if too_many then nd_id held +:+ ":" +:+ nd_invalid_reason held else hs_reason st)
  end.

(** ** Rebuilding the masks from the final domains *)
Fixpoint tid_masks (by_tid : gmap Z ThreadDemand) (allowed : gmap Z (list Z))
    (target_mask : list Z) (tids : list Z) (delta : gmap Z (list Z)) : option (gmap Z (list Z)) :=
  match tids with
  | [] => Some delta
  | t :: tids =>
      if bool_decide (by_tid !! t = None) then tid_masks by_tid allowed target_mask tids delta else
      let target := effective_mask allowed target_mask t in
      if bool_decide (target = []) then None
      else tid_masks by_tid allowed target_mask tids (<[t := target]> delta)
  end.

(** The domains, the masks, and [proposal.invalid_reason] when it stopped. *)
Fixpoint rebuild_masks (by_tid : gmap Z ThreadDemand) (allowed : gmap Z (list Z))
    (domains : list NumaDomain) (delta : gmap Z (list Z)) :
    list NumaDomain * gmap Z (list Z) * option string :=
  match domains with
  | [] => ([], delta, None)
  | d :: ds =>
      if negb (nd_valid d) then
        let '(ds', delta', e) := rebuild_masks by_tid allowed ds delta in (d :: ds', delta', e)
      else
        match tid_masks by_tid allowed (nd_target_mask d) (nd_tids d) delta with
        | None => (nd_set_validity d false empty_intersection :: ds, ∅,
                   Some (nd_id d +:+ ":" +:+ empty_intersection))
        | Some delta1 =>
            let '(ds', delta', e) := rebuild_masks by_tid allowed ds delta1 in (d :: ds', delta', e)
        end
  end.

(** ** Actions of a ready plan *)
Record ActionState := mk_ActionState {
  as_actions : list NumaDomainAction;
  as_inherited : gset Z;
}.

Definition find_domain (domains : list NumaDomain) (t : Z) : result NumaDomain :=
  match list_find (λ d, t ∈ nd_tids d) domains with
  | Some (_, d) => Ok d
  | None => Throw (logic_error "no domain holds the thread")
  end.

Definition plan_action (by_tid : gmap Z ThreadDemand) (allowed placement : gmap Z (list Z))
    (domains : list NumaDomain) (st : ActionState) (e : Z * list Z) : result ActionState :=
  let '(t, target) := e in
  if bool_decide (placement !! t = Some target) then Ok st else
  thread ← at_key by_tid t;
  let from := get_or [] allowed t in
  if bool_decide (placement !! t = None) && bool_decide (from = target)
  then Ok (mk_ActionState (as_actions st) ({[t]} ∪ as_inherited st)) else
  domain ← find_domain domains t;
  Ok (mk_ActionState
        (as_actions st ++ [mk_NumaDomainAction (td_identity thread) from target
           (nd_target_nodes domain) (bool_decide (td_current_cpu thread ∉ target))])
        (as_inherited st)).

Definition plan_actions (by_tid : gmap Z ThreadDemand) (allowed placement : gmap Z (list Z))
    (domains : list NumaDomain) (planned : gmap Z (list Z)) : result ActionState :=
  foldlM (plan_action by_tid allowed placement domains) (mk_ActionState [] ∅) (items planned).

(** [changed[action.identity.tid] = action.target_mask] *)
Definition changed_masks (actions : list NumaDomainAction) : gmap Z (list Z) :=
  foldl (λ m a, <[na_tid a := na_target_mask a]> m) ∅ actions.

(** ** [propose] *)
Definition run_out : exn := runtime_error "union-find recursion".

(** The stateless front of [propose]: aggregation, metrics, pairs, anchors,
    components. *)
Record Evidence := mk_Evidence {
  ev_totals : EdgeTotals;
  ev_selected : gset fam_pair;
  ev_family_confirmations : gmap string Z;
  ev_pairs : PairState;
  ev_components : gmap string (list string);
}.

Definition gather_evidence (s : NumaDomainSolver) (o : NumaDomainOptions)
    (threads : list ThreadDemand) (edges : list RelationEdge) : result Evidence :=
  let by_family := by_family_of threads in
  let totals := aggregate_edges (by_tid_of threads) edges in
  let '(metrics, family_conf) := family_metrics o totals by_family (family_confirmations s) in
  let selected := select_family_edges (et_cross totals) (family_edges_per_family o) in
  ps ← evaluate_pairs o totals selected metrics (merge_confirmations s) (merge_pending_grace s);
  match components_of (anchors_of (ps_metrics ps)) (ps_seeds ps) with
  | None => Throw run_out
  | Some components => Ok (mk_Evidence totals selected family_conf ps components)
  end.

(** The domains of the window: capacity planning, then dwell. *)
Definition plan_domains (s : NumaDomainSolver) (h : HardwareGraph) (o : NumaDomainOptions)
    (now_ns : Z) (threads : list ThreadDemand) (allowed : gmap Z (list Z)) (ev : Evidence) : PlanState :=
  foldl (plan_domain h o now_ns threads (by_family_of threads) (et_cross (ev_totals ev)) allowed
           (domain_nodes s))
    (mk_PlanState [] [] ∅ true "" (ds_expand_confirmations s) (ds_shrink_confirmations s)
       (last_changed_ns s))
    (items (ev_components ev)).

Definition new_evidence (s : NumaDomainSolver) (now_ns : Z) (candidates : list NumaDomain) :
    gmap string Z :=
  foldl (refresh_evidence now_ns candidates) (last_confirmed_domain_evidence_ns s) (ds_domains s).

Definition hold_domains (s : NumaDomainSolver) (o : NumaDomainOptions) (now_ns : Z)
    (threads : list ThreadDemand) (evidence : gmap string Z) (pl : PlanState) : HoldState :=
  foldl (hold_domain o now_ns (by_family_of threads) evidence)
    (mk_HoldState (pl_domains pl) (pl_valid pl) (pl_reason pl)) (ds_domains s).

Definition domain_ltb (a b : NumaDomain) : bool := key_ltb (nd_id a) (nd_id b).

(** The final plan: domains, planned masks, validity. *)
Record FinalPlan := mk_FinalPlan {
  fi_domains : list NumaDomain;
  fi_planned : gmap Z (list Z);
  fi_valid : bool;
  fi_reason : string;
}.

Definition final_plan (by_tid : gmap Z ThreadDemand) (allowed : gmap Z (list Z)) (hs : HoldState) :
    FinalPlan :=
  let sorted := std_sort domain_ltb (hs_domains hs) in
  if hs_valid hs then
    let '(ds, delta, e) := rebuild_masks by_tid allowed sorted ∅ in
    mk_FinalPlan ds delta (bool_decide (e = None)) (default (hs_reason hs) e)
  else mk_FinalPlan sorted ∅ false (hs_reason hs).

Definition propose (h : HardwareGraph) (threads : list ThreadDemand) (edges : list RelationEdge)
    (allowed : gmap Z (list Z)) (o : NumaDomainOptions) (now_ns : Z) (s : NumaDomainSolver) :
    result (NumaDomainProposal * NumaDomainSolver) :=
  _ ← throw_if (bool_decide (is_Some (ds_outstanding s)))
        (logic_error "outstanding NUMA domain proposal");
  let by_tid := by_tid_of threads in
  let by_family := by_family_of threads in
  ev ← gather_evidence s o threads edges;
  let pl := plan_domains s h o now_ns threads allowed ev in
  let evidence := new_evidence s now_ns (pl_domains pl) in
  let hs := hold_domains s o now_ns threads evidence pl in
  let fi := final_plan by_tid allowed hs in
  let released := dom (ds_placement s) ∖ dom (fi_planned fi) in
  let signature := plan_signature (fi_domains fi) in
  let same := bool_decide (signature = pending_signature s) in
  let confirmation := if same then global_plan_confirmation s + 1 else 1 in
  let empty := bool_decide (fi_domains fi = []) in
  let all_confirmed := negb empty && (plan_confirmations o <=? confirmation) in
  let domains := nd_set_confirmation confirmation <$> fi_domains fi in
  let ready := fi_valid fi && (all_confirmed || (empty && negb (bool_decide (released = ∅)))) in
  acts ← (if ready then plan_actions by_tid allowed (ds_placement s) domains (fi_planned fi)
          else Ok (mk_ActionState [] ∅));
  let families := families_of (ps_metrics (ev_pairs ev)) in
  let proposal :=
    mk_NumaDomainProposal (next_proposal_id s)
      (mk_PlacementDelta ∅ (if ready then changed_masks (as_actions acts) else ∅))
      (fi_planned fi) (as_inherited acts) families (ps_pairs (ev_pairs ev)) domains
      (as_actions acts) released (Z.of_nat (size by_family))
      (Z.of_nat (size (et_cross (ev_totals ev)))) (Z.of_nat (size (ev_selected ev)))
      (sum_demand threads) (et_total_relation (ev_totals ev)) ready (fi_valid fi) (fi_reason fi) in
  Ok (proposal,
      mk_NumaDomainSolver (u64 (next_proposal_id s + 1)) (ds_generation s)
        (ev_family_confirmations ev) (ps_merge (ev_pairs ev)) (ps_grace (ev_pairs ev))
        confirmation (pl_expand pl) (pl_shrink pl) (pl_changed pl) evidence (domain_nodes s)
        (ds_placement s) (ds_domains s) families signature (Some proposal)).

(** ** [commit], [discard], [reset], [remove_thread] *)
Definition commit_planned (p : NumaDomainProposal) (committed : gset Z)
    (placement : gmap Z (list Z)) (e : Z * list Z) : gmap Z (list Z) :=
  let action_tids : gset Z := list_to_set (na_tid <$> np_actions p) in
  if bool_decide (is_Some (placement !! e.1)) || bool_decide (e.1 ∈ np_inherited_tids p) ||
     (bool_decide (e.1 ∈ action_tids) &&
      (bool_decide (committed = ∅) || bool_decide (e.1 ∈ committed)))
  then <[e.1 := e.2]> placement else placement.

Definition commit_action (committed : gset Z) (placement : gmap Z (list Z)) (a : NumaDomainAction) :
    gmap Z (list Z) :=
  if negb (bool_decide (committed = ∅)) && negb (bool_decide (na_tid a ∈ committed))
  then placement else <[na_tid a := na_target_mask a]> placement.

Definition commit_placement (p : NumaDomainProposal) (committed : gset Z)
    (placement : gmap Z (list Z)) : gmap Z (list Z) :=
  let placement := foldl (λ m t, delete t m) placement (set_items (np_released_tids p)) in
  let placement := foldl (commit_planned p committed) placement (items (np_planned_masks p)) in
  foldl (commit_action committed) placement (np_actions p).

Definition commit_domain (now_ns : Z) (active : gset string)
    (acc : gmap string Z * gmap string Z * gmap string (list Z)) (d : NumaDomain) :
    gmap string Z * gmap string Z * gmap string (list Z) :=
  let '(changed, evidence, nodes_map) := acc in
  let id := nd_id d in
  let changed := if bool_decide (get_or [] nodes_map id = nd_target_nodes d) then changed
                 else <[id := now_ns]> changed in
  let evidence := if bool_decide (id ∈ active) then evidence else <[id := now_ns]> evidence in
  (changed, evidence, <[id := nd_target_nodes d]> nodes_map).

Definition commit (p : NumaDomainProposal) (now_ns : Z) (committed : gset Z)
    (s : NumaDomainSolver) : result NumaDomainSolver :=
  _ ← throw_if (match ds_outstanding s with None => true | Some q => negb (np_id q =? np_id p) end)
        (logic_error "NUMA domain proposal is not outstanding");
  let active : gset string := list_to_set (nd_id <$> ds_domains s) in
  let '(changed, evidence, nodes_map) :=
    foldl (commit_domain now_ns active)
      (last_changed_ns s, last_confirmed_domain_evidence_ns s, domain_nodes s) (np_domains p) in
  Ok (mk_NumaDomainSolver (next_proposal_id s) (u64 (ds_generation s + 1))
        (family_confirmations s) (merge_confirmations s) (merge_pending_grace s)
        (global_plan_confirmation s) (ds_expand_confirmations s) (ds_shrink_confirmations s)
        changed evidence nodes_map (commit_placement p committed (ds_placement s))
        (np_domains p) (ds_families s) (pending_signature s) None).

Definition set_outstanding (o : option NumaDomainProposal) (s : NumaDomainSolver) : NumaDomainSolver :=
  mk_NumaDomainSolver (next_proposal_id s) (ds_generation s) (family_confirmations s)
    (merge_confirmations s) (merge_pending_grace s) (global_plan_confirmation s)
    (ds_expand_confirmations s) (ds_shrink_confirmations s) (last_changed_ns s)
    (last_confirmed_domain_evidence_ns s) (domain_nodes s) (ds_placement s) (ds_domains s)
    (ds_families s) (pending_signature s) o.

Definition discard (p : NumaDomainProposal) (s : NumaDomainSolver) : NumaDomainSolver :=
  match ds_outstanding s with
  | Some q => if np_id q =? np_id p then set_outstanding None s else s
  | None => s
  end.

Definition reset (s : NumaDomainSolver) : NumaDomainSolver := NumaDomainSolver_init.

Definition remove_thread (t : Z) (s : NumaDomainSolver) : NumaDomainSolver :=
  mk_NumaDomainSolver (next_proposal_id s) (ds_generation s) (family_confirmations s)
    (merge_confirmations s) (merge_pending_grace s) (global_plan_confirmation s)
    (ds_expand_confirmations s) (ds_shrink_confirmations s) (last_changed_ns s)
    (last_confirmed_domain_evidence_ns s) (domain_nodes s) (delete t (ds_placement s))
    (ds_domains s) (ds_families s) (pending_signature s) (ds_outstanding s).

(** ** A small run: two cohesive families on two nodes *)
Definition demo_thread (t cpu : Z) (g : string) (d : double) : ThreadDemand :=
  mk_ThreadDemand (mk_ThreadIdentity 1 t 100) g d d1 cpu.
Definition demo_edge (a b : Z) (score : double) : RelationEdge :=
  mk_RelationEdge a b d0 d0 d0 d0 score d0 d0 d0 1 d0 d0.
Definition demo_threads : list ThreadDemand :=
  [demo_thread 11 0 "a" d1; demo_thread 12 3 "a" (dlit 1 2); demo_thread 21 1 "b" (dlit 11 10)].
Definition demo_edges : list RelationEdge :=
  [demo_edge 11 12 (double_of_Z 5); demo_edge 11 21 (dlit 1 2)].
Definition demo_options : NumaDomainOptions :=
  mk_NumaDomainOptions d1 d1 (dlit 20 100) (dlit 10 100) (dlit 25 100) 4 1 1 1 1024
    (dlit 80 100) (dlit 90 100) 3 (dlit 55 100) 6 300000000000.
Definition demo_allowed : gmap Z (list Z) := {[ 11 := [0; 1; 2; 3]; 12 := [0; 1; 2] ]}.
Definition demo_cpus : HardwareGraph :=
  mk_HardwareGraph [mk_Cpu 0 0 true; mk_Cpu 1 0 true; mk_Cpu 2 1 true; mk_Cpu 3 1 true] ∅
    {[ (0, 0) := d1; (0, 1) := double_of_Z 2; (1, 0) := double_of_Z 2; (1, 1) := d1 ]} ∅.
Definition demo_propose : result (NumaDomainProposal * NumaDomainSolver) :=
  propose demo_cpus demo_threads demo_edges demo_allowed demo_options 1000 NumaDomainSolver_init.
