(* ===== verification/DomainSolverFacts.v ===== *)
(** * Facts on the NUMA-domain solver

    The lemmas behind the theorems on [propose] and [commit]: what each phase
    guarantees to the next one.  [propose] never throws once no proposal is
    outstanding, because every [.at] and every dereferenced [find_if] it
    performs is covered by one of these invariants. *)
From S2P Require Import Prelude Binary64 Core CpuList Topology DomainPlanner UnionFind DomainSolver.
Local Open Scope string_scope.
Local Open Scope Z_scope.

(** ** Aggregation *)
Lemma by_tid_of_Some threads t th :
  by_tid_of threads !! t = Some th → th ∈ threads ∧ td_tid th = t.
Proof.
  unfold by_tid_of. revert th.
  refine (foldl_invariant (λ m t, <[td_tid t := t]> m)
    (λ m, ∀ th, m !! t = Some th → th ∈ threads ∧ td_tid th = t) threads ∅ _ _).
  - intros th. by rewrite lookup_empty.
  - intros m th0 Hin Hm th. rewrite lookup_insert_Some. naive_solver.
Qed.

Lemma by_tid_of_dom threads t : is_Some (by_tid_of threads !! t) ↔ ∃ th, th ∈ threads ∧ td_tid th = t.
Proof.
  split; [intros [th ?%by_tid_of_Some]; eauto|].
  unfold by_tid_of. intros (th & Hin & <-). rewrite <-elem_of_dom. revert Hin.
  refine (foldl_invariant_prefix (λ m t, <[td_tid t := t]> m)
    (λ l m, th ∈ l → td_tid th ∈ dom m) threads ∅ _ _); [set_solver|].
  intros pre b rest m _ Hm [?|Hb]%elem_of_app; rewrite dom_insert_L; [set_solver|].
  apply list_elem_of_singleton in Hb as ->. set_solver.
Qed.

Lemma by_family_of_get threads f :
  get_or [] (by_family_of threads) f = filter (λ t, td_group t = f) threads.
Proof.
  unfold by_family_of.
  refine (foldl_invariant_prefix (λ m t, push_back (td_group t) t m)
    (λ l m, get_or [] m f = filter (λ t, td_group t = f) l) threads ∅ _ _); [done|].
  intros pre b rest m _ Hm. rewrite get_or_push_back, filter_app, filter_cons, filter_nil.
  repeat case_decide; try congruence. by rewrite app_nil_r.
Qed.

Lemma by_family_of_dom threads f :
  f ∈ dom (by_family_of threads) ↔ ∃ t, t ∈ threads ∧ td_group t = f.
Proof.
  unfold by_family_of.
  refine (foldl_invariant_prefix (λ m t, push_back (td_group t) t m)
    (λ l m, f ∈ dom m ↔ ∃ t, t ∈ l ∧ td_group t = f) threads ∅ _ _); [set_solver|].
  intros pre b rest m _ Hm. unfold push_back. rewrite dom_insert, elem_of_union, Hm. set_solver.
Qed.

Lemma by_family_lookup threads f l :
  by_family_of threads !! f = Some l → l = filter (λ t, td_group t = f) threads.
Proof. intros Hl. rewrite <-by_family_of_get. unfold get_or. by rewrite Hl. Qed.

Lemma minmax_distinct (a b : string) :
  a ≠ b → (minmax a b).1 ≠ (minmax a b).2 ∧
  (∀ x, x = (minmax a b).1 ∨ x = (minmax a b).2 ↔ x = a ∨ x = b).
Proof. unfold minmax. intros Hne. destruct (key_ltb b a); cbn; naive_solver. Qed.

(** Every cross-family entry joins two distinct observed families. *)
Definition cross_wf (families : gset string) (cross : gmap fam_pair double) : Prop :=
  ∀ p w, cross !! p = Some w → p.1 ≠ p.2 ∧ p.1 ∈ families ∧ p.2 ∈ families.

Lemma aggregate_edges_cross_wf threads edges :
  cross_wf (dom (by_family_of threads)) (et_cross (aggregate_edges (by_tid_of threads) edges)).
Proof.
  unfold aggregate_edges. apply foldl_invariant; [intros p w; cbn; by rewrite lookup_empty|].
  intros t e _ Ht. unfold add_edge.
  destruct (by_tid_of threads !! re_from_tid e) as [from|] eqn:Hf; [|done].
  destruct (by_tid_of threads !! re_to_tid e) as [to|] eqn:Hto; [|done].
  apply by_tid_of_Some in Hf as [Hf _], Hto as [Hto _].
  case_bool_decide as Hab; [done|]. cbn. intros p w. unfold add_to.
  rewrite lookup_insert_Some. intros [[<- _]|[_ Hp]]; [|by eapply Ht].
  destruct (minmax_distinct (td_group from) (td_group to) Hab) as [Hne Hmm].
  split; [done|]. rewrite !by_family_of_dom. split.
  - destruct (proj1 (Hmm _) (or_introl eq_refl)) as [->| ->]; eauto.
  - destruct (proj1 (Hmm _) (or_intror eq_refl)) as [->| ->]; eauto.
Qed.

Lemma select_family_edges_dom families cross k p :
  cross_wf families cross → p ∈ select_family_edges cross k →
  is_Some (cross !! p) ∧ p.1 ≠ p.2 ∧ p.1 ∈ families ∧ p.2 ∈ families.
Proof.
  intros Hwf (f & l & Hl & Hp)%elem_of_select_family_edges.
  apply list_elem_of_fmap in Hp as ([w q] & -> & Hq). apply subseteq_take in Hq.
  apply elem_of_std_sort in Hq.
  apply (incident_edges_lookup cross f l) in Hq as [Hq _]; [|by intros ? ? [? _]%Hwf|done].
  split; [eauto|]. by eapply Hwf.
Qed.

(** ** Family metrics *)
Lemma family_metrics_dom o t by_family conf :
  dom (family_metrics o t by_family conf).1 = dom by_family.
Proof.
  unfold family_metrics. destruct (foldl _ _ _) as [metrics conf'] eqn:E. cbn.
  replace metrics with (foldl (family_step o t (maximum_internal (et_internal t))) (∅, conf)
    (items by_family)).1 by (by rewrite E). clear E.
  apply set_eq. intros f. rewrite <-(list_to_map_to_list by_family) at 2.
  rewrite dom_list_to_map_L, <-items_perm, elem_of_list_to_set.
  refine (foldl_invariant_prefix (family_step o t (maximum_internal (et_internal t)))
    (λ l m, f ∈ dom m.1 ↔ f ∈ l.*1) (items by_family) (∅, conf) _ _); [set_solver|].
  intros pre b rest [m c] _ Hm. cbn. rewrite dom_insert, elem_of_union, Hm, fmap_app. set_solver.
Qed.

Lemma family_metrics_name o t by_family conf f m :
  (family_metrics o t by_family conf).1 !! f = Some m → fm_name m = f.
Proof.
  unfold family_metrics. destruct (foldl _ _ _) as [metrics conf'] eqn:E. cbn.
  replace metrics with (foldl (family_step o t (maximum_internal (et_internal t))) (∅, conf)
    (items by_family)).1 by (by rewrite E). clear E. revert m.
  refine (foldl_invariant (family_step o t (maximum_internal (et_internal t)))
    (λ s, ∀ m, s.1 !! f = Some m → fm_name m = f) _ _ _ _); [intros m; cbn; by rewrite lookup_empty|].
  intros [ms c] b _ Hm m. cbn. rewrite lookup_insert_Some. intros [[<- <-]|[_ ?]]; [done|auto].
Qed.

Lemma family_metrics_internal o t by_family conf f m :
  (family_metrics o t by_family conf).1 !! f = Some m →
  fm_internal_relation m = get_or d0 (et_internal t) f.
Proof.
  unfold family_metrics. destruct (foldl _ _ _) as [metrics conf'] eqn:E. cbn.
  replace metrics with (foldl (family_step o t (maximum_internal (et_internal t))) (∅, conf)
    (items by_family)).1 by (by rewrite E). clear E. revert m.
  refine (foldl_invariant (family_step o t (maximum_internal (et_internal t)))
    (λ s, ∀ m, s.1 !! f = Some m → fm_internal_relation m = get_or d0 (et_internal t) f) _ _ _ _);
    [intros m; cbn; by rewrite lookup_empty|].
  intros [ms c] b _ Hm m. cbn. rewrite lookup_insert_Some. intros [[<- <-]|[_ ?]]; [done|auto].
Qed.

(** ** Pair confirmation *)

(** A metric without the fields the pair phases write. *)
Definition fm_base (m : FamilyMetric) : FamilyMetric := fm_update m 0 false false false.
Definition same_base (ms ms' : gmap string FamilyMetric) : Prop :=
  ∀ f, fm_base <$> ms' !! f = fm_base <$> ms !! f.

Lemma same_base_alter ms g f :
  (∀ m, fm_base (g m) = fm_base m) → same_base ms (alter g f ms).
Proof.
  intros Hg f'. destruct (decide (f = f')) as [->|].
  - rewrite lookup_alter_eq. destruct (ms !! f'); cbn; [by rewrite Hg|done].
  - by rewrite lookup_alter_ne.
Qed.

Lemma same_base_trans m1 m2 m3 : same_base m1 m2 → same_base m2 m3 → same_base m1 m3.
Proof. intros H1 H2 f. by rewrite H2. Qed.

Lemma same_base_alter2 ms ms' g f1 f2 :
  (∀ m, fm_base (g m) = fm_base m) → same_base ms ms' →
  same_base ms (alter g f2 (alter g f1 ms')).
Proof.
  intros Hg Hs. eapply same_base_trans; [exact Hs|].
  eapply same_base_trans; by apply same_base_alter.
Qed.

Lemma same_base_dom ms ms' : same_base ms ms' → dom ms' = dom ms.
Proof.
  intros Hs. apply set_eq. intros f. rewrite !elem_of_dom.
  specialize (Hs f). destruct (ms' !! f), (ms !! f); cbn in Hs; naive_solver.
Qed.

Lemma same_base_lookup ms ms' f m' :
  same_base ms ms' → ms' !! f = Some m' → ∃ m, ms !! f = Some m ∧ fm_base m' = fm_base m.
Proof.
  intros Hs Hm'. specialize (Hs f). rewrite Hm' in Hs.
  destruct (ms !! f) as [m|]; [|done]. exists m. split; [done|]. by apply (inj Some) in Hs.
Qed.

Lemma alter2_lookup (g : FamilyMetric → FamilyMetric) p (ms : gmap string FamilyMetric) f :
  p.1 ≠ p.2 →
  alter g p.2 (alter g p.1 ms) !! f =
  if decide (incident f p) then g <$> ms !! f else ms !! f.
Proof.
  intros Hne. unfold incident. case_decide as Hd.
  - destruct Hd as [<-|<-].
    + rewrite lookup_alter_ne by congruence. by rewrite lookup_alter_eq.
    + rewrite lookup_alter_eq. by rewrite lookup_alter_ne.
  - rewrite !lookup_alter_ne; [done|naive_solver..].
Qed.

Lemma exists_elem_last {A B} (key : A → B) (test : A → bool) (l : list A) x q :
  (∃ y, y ∈ (l ++ [x])%list ∧ key y = q ∧ test y = true) ↔
  (∃ y, y ∈ l ∧ key y = q ∧ test y = true) ∨ (key x = q ∧ test x = true).
Proof. set_solver. Qed.

Definition fp_key (fp : FamilyPairMetric) : fam_pair := (fp_left fp, fp_right fp).

Section pairs.
Context (o : NumaDomainOptions) (t : EdgeTotals) (ms0 : gmap string FamilyMetric)
  (merge0 grace0 : gmap fam_pair Z).

Definition pair_qualifies (p : fam_pair) (weight : double) (l r : FamilyMetric) : bool :=
  let denominator := dmin (get_or d0 (et_internal t) p.1) (get_or d0 (et_internal t) p.2) in
  endpoints_eligible o l r && (d0 <? denominator)%D &&
  (domain_merge_ratio o <=? weight / denominator)%D.

(** The log entry of a pair is computed from the window's totals and the
    counter the previous windows left. *)
Definition pair_metric_ok (fp : FamilyPairMetric) : Prop :=
  ∃ weight l r, et_cross t !! fp_key fp = Some weight ∧
    ms0 !! fp_left fp = Some l ∧ ms0 !! fp_right fp = Some r ∧
    fp_cross_relation fp = weight ∧
    fp_endpoints_eligible fp = endpoints_eligible o l r ∧
    fp_qualifies fp = pair_qualifies (fp_key fp) weight l r ∧
    fp_confirmation fp = (if fp_qualifies fp then get_or 0 merge0 (fp_key fp) + 1 else 0) ∧
    fp_confirmed fp = (domain_stability_confirmations o <=? fp_confirmation fp) ∧
    fp_denominator fp =
      dmin (get_or d0 (et_internal t) (fp_left fp)) (get_or d0 (et_internal t) (fp_right fp)) ∧
    fp_merge_ratio fp = (if (d0 <? fp_denominator fp)%D then weight / fp_denominator fp else d0)%D.

(** What the loop over [selected_cross] has established after [visited]. *)
Record pairs_inv (visited : list fam_pair) (st : PairState) : Prop := {
  pi_base : same_base ms0 (ps_metrics st);
  pi_keys : fp_key <$> ps_pairs st = visited;
  pi_pairs : ∀ fp, fp ∈ ps_pairs st → pair_metric_ok fp;
  pi_evaluated : ∀ p, p ∈ ps_evaluated st ↔ p ∈ visited;
  pi_merge : ∀ fp, fp ∈ ps_pairs st → ps_merge st !! fp_key fp = Some (fp_confirmation fp);
  pi_merge_rest : ∀ p, p ∉ visited → ps_merge st !! p = merge0 !! p;
  pi_qualifying : ∀ p, p ∈ ps_qualifying st ↔
    ∃ fp, fp ∈ ps_pairs st ∧ fp_key fp = p ∧ fp_qualifies fp = true;
  pi_grace : ∀ p, ps_grace st !! p =
    if decide (p ∈ ps_qualifying st) then Some (plan_confirmations o) else grace0 !! p;
  pi_seeds : ∀ p, p ∈ ps_seeds st ↔
    ∃ fp, fp ∈ ps_pairs st ∧ fp_key fp = p ∧ fp_confirmed fp = true;
  pi_flag : ∀ f m, ps_metrics st !! f = Some m →
    fm_cross_pending m = false ∧
    (fm_cross_seed m = true ↔ ∃ p, p ∈ ps_seeds st ∧ incident f p);
}.

Lemma endpoints_eligible_base l l' r r' :
  fm_base l' = fm_base l → fm_base r' = fm_base r →
  endpoints_eligible o l' r' = endpoints_eligible o l r.
Proof.
  intros Hl Hr. unfold fm_base, fm_update in *. unfold endpoints_eligible.
  injection Hl as _ _ -> -> _. by injection Hr as _ _ -> -> _.
Qed.

Lemma evaluate_pair_inv visited st p :
  pairs_inv visited st → p ∉ visited → p.1 ≠ p.2 →
  is_Some (et_cross t !! p) → is_Some (ms0 !! p.1) → is_Some (ms0 !! p.2) →
  ∃ st', evaluate_pair o t st p = Ok st' ∧ pairs_inv (visited ++ [p]) st'.
Proof.
  intros [Hb Hk Hp He Hm Hmr Hq Hg Hs Hf] Hnew Hne [weight Hw] [l0 Hl0] [r0 Hr0].
  assert (∃ l, ps_metrics st !! p.1 = Some l ∧ fm_base l = fm_base l0) as (l & Hl & Hlb).
  { specialize (Hb p.1). rewrite Hl0 in Hb.
    destruct (ps_metrics st !! p.1) as [l|]; [|done]. exists l. by apply (inj Some) in Hb. }
  assert (∃ r, ps_metrics st !! p.2 = Some r ∧ fm_base r = fm_base r0) as (r & Hr & Hrb).
  { specialize (Hb p.2). rewrite Hr0 in Hb.
    destruct (ps_metrics st !! p.2) as [r|]; [|done]. exists r. by apply (inj Some) in Hb. }
  unfold evaluate_pair, at_key. rewrite Hw, Hl, Hr. cbn [mbind result_bind].
  rewrite (endpoints_eligible_base l0 l r0 r) by done.
  fold (pair_qualifies p weight l0 r0).
  assert (get_or 0 (ps_merge st) p = get_or 0 merge0 p) as ->.
  { unfold get_or. by rewrite Hmr. }
  set (qual := pair_qualifies p weight l0 r0).
  set (conf := if qual then get_or 0 merge0 p + 1 else 0).
  set (ok := domain_stability_confirmations o <=? conf).
  set (fp := mk_FamilyPairMetric _ _ _ _ _ _ _ _ _).
  assert (fp_key fp = p) as Hkey by (by destruct p).
  assert (∀ test : FamilyPairMetric → bool, ∀ q,
    (∃ fp', fp' ∈ (ps_pairs st ++ [fp])%list ∧ fp_key fp' = q ∧ test fp' = true) ↔
    (∃ fp', fp' ∈ ps_pairs st ∧ fp_key fp' = q ∧ test fp' = true) ∨ (p = q ∧ test fp = true))
    as Hlast by (intros; rewrite <-Hkey; apply exists_elem_last).
  eexists. split; [done|]. split; cbn.
  - by apply same_base_alter2.
  - rewrite fmap_app, Hk. cbn. by rewrite Hkey.
  - intros fp' [?| ->%list_elem_of_singleton]%elem_of_app; [auto|].
    exists weight, l0, r0. rewrite Hkey. done.
  - set_solver.
  - intros fp' [Hin| ->%list_elem_of_singleton]%elem_of_app.
    + rewrite lookup_insert_ne; [auto|]. intros Heq. apply Hnew. rewrite <-Hk, Heq.
      by apply list_elem_of_fmap_2.
    + rewrite Hkey. apply lookup_insert_eq.
  - intros q Hq'. rewrite lookup_insert_ne by set_solver. apply Hmr. set_solver.
  - intros q. rewrite Hlast, <-Hq. cbn [fp_qualifies fp]. destruct qual; set_solver.
  - intros q. destruct qual; [|done]. destruct (decide (p = q)) as [<-|].
    + rewrite lookup_insert_eq, decide_True by set_solver. done.
    + rewrite lookup_insert_ne, Hg by done. apply decide_ext. set_solver.
  - intros q. rewrite Hlast, <-Hs. cbn [fp_confirmed fp]. destruct ok; set_solver.
  - intros f m. rewrite alter2_lookup by done.
    case_decide as Hi.
    + intros (m0 & Hm0 & ->)%fmap_Some. destruct (Hf f m0 Hm0) as [? Hseed].
      split; [done|]. cbn. rewrite orb_true_iff, Hseed. destruct ok; set_solver.
    + intros Hm0. destruct (Hf f m Hm0) as [? Hseed]. split; [done|]. rewrite Hseed.
      destruct ok; set_solver.
Qed.

Lemma evaluate_pair_loop selected :
  (∀ f m, ms0 !! f = Some m → fm_cross_pending m = false ∧ fm_cross_seed m = false) →
  (∀ p, p ∈ selected → is_Some (et_cross t !! p) ∧ p.1 ≠ p.2 ∧
     is_Some (ms0 !! p.1) ∧ is_Some (ms0 !! p.2)) →
  ∃ st, foldlM (evaluate_pair o t) (mk_PairState ms0 merge0 grace0 [] ∅ ∅ [])
          (set_items selected) = Ok st ∧ pairs_inv (set_items selected) st.
Proof.
  intros Hms Hsel.
  apply (foldlM_total_prefix (evaluate_pair o t) pairs_inv).
  - clear Hsel. split; cbn; try done; try (clear Hms; set_solver).
    intros f m Hm. destruct (Hms f m Hm) as [? ->].
    set_solver.
  - intros pre p rest st Hl Hst.
    assert (p ∈ selected) as Hp by (apply elem_of_set_items; rewrite Hl; set_solver).
    destruct (Hsel p Hp) as (? & ? & ? & ?). apply evaluate_pair_inv; try done.
    pose proof (NoDup_set_items selected) as Hnd. rewrite Hl in Hnd.
    apply NoDup_app in Hnd as (_ & Hd & _). intros Hin. by apply (Hd p Hin); left.
Qed.
End pairs.

(** ** The grace period *)
Definition aged (qualifying : gset fam_pair) (p : fam_pair) (g : Z) : Z :=
  if negb (bool_decide (p ∈ qualifying)) && (0 <? g) then g - 1 else g.

Definition mark_pending (m : FamilyMetric) : FamilyMetric :=
  fm_update m (fm_seed_confirmation m) true (fm_cross_seed m) (fm_anchor m).

Lemma alter2_lookup_idem (g : FamilyMetric → FamilyMetric) p (ms : gmap string FamilyMetric) f :
  (∀ m, g (g m) = g m) →
  alter g p.2 (alter g p.1 ms) !! f = if decide (incident f p) then g <$> ms !! f else ms !! f.
Proof.
  intros Hg. destruct (decide (p.1 = p.2)) as [He|]; [|by apply alter2_lookup].
  rewrite He. case_decide as Hd; unfold incident in Hd; rewrite He in Hd.
  - assert (p.2 = f) as -> by naive_solver. rewrite !lookup_alter_eq.
    destruct (ms !! f); cbn; [by rewrite Hg|done].
  - rewrite !lookup_alter_ne; naive_solver.
Qed.

Section grace.
Context (o : NumaDomainOptions) (qualifying : gset fam_pair) (ms0 : gmap string FamilyMetric)
  (merge0 grace0 : gmap fam_pair Z).

(** The condition under which a pair keeps its families pending. *)
Definition holds_back (p : fam_pair) (g : Z) : Prop :=
  0 < aged qualifying p g ∧ get_or 0 merge0 p < domain_stability_confirmations o ∧
  is_Some (ms0 !! p.1) ∧ is_Some (ms0 !! p.2).

Record grace_inv (visited : list (fam_pair * Z))
    (acc : gmap string FamilyMetric * gmap fam_pair Z * gmap fam_pair Z) : Prop := {
  gi_base : same_base ms0 acc.1.1;
  gi_merge : ∀ p, get_or 0 acc.1.2 p = get_or 0 merge0 p;
  gi_merge_keep : ∀ p c, merge0 !! p = Some c → acc.1.2 !! p = Some c;
  gi_grace : ∀ p, acc.2 !! p =
    if decide (p ∈ visited.*1) then aged qualifying p <$> grace0 !! p else grace0 !! p;
  gi_flags : ∀ f m, acc.1.1 !! f = Some m → ∃ m0, ms0 !! f = Some m0 ∧
    fm_cross_seed m = fm_cross_seed m0 ∧
    (fm_cross_pending m = true ↔ fm_cross_pending m0 = true ∨
       ∃ p g, (p, g) ∈ visited ∧ incident f p ∧ holds_back p g);
}.

Lemma get_or_touch {K} `{Countable K} (k k' : K) (m : gmap K Z) :
  get_or 0 (touch k 0 m) k' = get_or 0 m k'.
Proof.
  unfold touch, get_or. destruct (m !! k) eqn:E; [done|].
  destruct (decide (k = k')) as [->|]; [by rewrite lookup_insert_eq, E|by rewrite lookup_insert_ne].
Qed.

Lemma touch_Some {K} `{Countable K} (k k' : K) (m : gmap K Z) c :
  m !! k' = Some c → touch k 0 m !! k' = Some c.
Proof.
  unfold touch. destruct (m !! k) eqn:E; [done|]. intros Hk'.
  rewrite lookup_insert_ne; congruence.
Qed.

Lemma grace_step_inv visited acc p g :
  grace_inv visited acc → grace0 !! p = Some g → p ∉ visited.*1 →
  grace_inv (visited ++ [(p, g)]) (grace_step o qualifying acc (p, g)).
Proof.
  destruct acc as [[ms merge] graces]. intros [Hb Hm Hmk Hg Hf] Hp Hnew. cbn in *.
  fold (aged qualifying p g). fold mark_pending. rewrite get_or_touch, Hm.
  assert (∀ q, is_Some (ms !! q) ↔ is_Some (ms0 !! q)) as Hdom.
  { intros q. rewrite <-!elem_of_dom. by rewrite (same_base_dom _ _ Hb). }
  rewrite !(bool_decide_ext _ _ (Hdom _)).
  assert (∀ f, (∃ q g', (q, g') ∈ (visited ++ [(p, g)])%list ∧ incident f q ∧ holds_back q g') ↔
    (∃ q g', (q, g') ∈ visited ∧ incident f q ∧ holds_back q g') ∨
    (incident f p ∧ holds_back p g)) as Hlast by set_solver.
  assert (∀ q, <[p := aged qualifying p g]> graces !! q =
    if decide (q ∈ (visited ++ [(p, g)])%list.*1)
    then aged qualifying q <$> grace0 !! q else grace0 !! q) as Hgr.
  { intros q. rewrite fmap_app. destruct (decide (p = q)) as [<-|Hpq].
    - rewrite lookup_insert_eq, decide_True by set_solver. by rewrite Hp.
    - rewrite lookup_insert_ne, Hg by done. apply decide_ext. set_solver. }
  split; cbn [fst snd]; [|intros q; by rewrite get_or_touch|
    intros q c ?%Hmk; by apply touch_Some|done|].
  - destruct (_ && _); [|done]. by apply same_base_alter2.
  - intros f m. pose proof (Hlast f). destruct (_ && _) eqn:Hc.
    + assert (holds_back p g) as Hh by (unfold holds_back; bool_hyps; done).
      rewrite alter2_lookup_idem by done. case_decide as Hi.
      * intros (m1 & Hm1 & ->)%fmap_Some. destruct (Hf f m1 Hm1) as (m0 & ? & ? & Hpend).
        exists m0. split_and!; [done|done|]. cbn. tauto.
      * intros Hm1. destruct (Hf f m Hm1) as (m0 & ? & ? & Hpend).
        exists m0. split_and!; [done|done|]. tauto.
    + assert (¬ holds_back p g) as Hh.
      { intros (H1 & H2 & H3 & H4). rewrite (proj2 (Z.ltb_lt _ _) H1),
          (proj2 (Z.ltb_lt _ _) H2), !bool_decide_eq_true_2 in Hc by done. done. }
      intros Hm1. destruct (Hf f m Hm1) as (m0 & ? & ? & Hpend).
      exists m0. split_and!; [done|done|]. tauto.
Qed.

Lemma grace_loop :
  grace_inv (items grace0)
    (foldl (grace_step o qualifying) (ms0, merge0, grace0) (items grace0)).
Proof.
  apply (foldl_invariant_prefix (grace_step o qualifying) grace_inv).
  - split; cbn; [done..| |].
    + intros p. by rewrite decide_False by set_solver.
    + intros f m Hm. exists m. split_and!; [done|done|]. set_solver.
  - intros pre [p g] rest acc Hl Hacc. apply grace_step_inv; [done| |].
    + apply elem_of_items. rewrite Hl. set_solver.
    + pose proof (NoDup_items_fst grace0) as Hnd. rewrite Hl, fmap_app in Hnd.
      apply NoDup_app in Hnd as (_ & Hd & _). intros Hin. by apply (Hd p Hin); left.
Qed.
End grace.

(** ** The evidence of one window *)
Lemma elem_of_anchors_of metrics f :
  f ∈ anchors_of metrics ↔ ∃ m, metrics !! f = Some m ∧ fm_anchor (set_anchor m) = true.
Proof.
  unfold anchors_of. rewrite elem_of_list_to_set, list_elem_of_fmap.
  setoid_rewrite list_elem_of_filter. split.
  - intros ([f' m] & -> & Ha & Hin). apply elem_of_items in Hin. eauto.
  - intros (m & Hm%elem_of_items & Ha). by exists (f, m).
Qed.

Lemma map_imap_get_or (keep : fam_pair → bool) (m : gmap fam_pair Z) p :
  get_or 0 (map_imap (λ p c, Some (if keep p then c else 0)) m) p =
  if keep p then get_or 0 m p else 0.
Proof.
  unfold get_or. rewrite map_lookup_imap. destruct (m !! p); cbn; by destruct (keep p).
Qed.

Section evidence.
Context (s : NumaDomainSolver) (o : NumaDomainOptions) (threads : list ThreadDemand)
  (edges : list RelationEdge).

Definition window_totals : EdgeTotals := aggregate_edges (by_tid_of threads) edges.
Definition window_metrics : gmap string FamilyMetric :=
  (family_metrics o window_totals (by_family_of threads) (family_confirmations s)).1.

Record evidence_ok (ev : Evidence) : Prop := {
  eo_totals : ev_totals ev = window_totals;
  eo_base : same_base window_metrics (ps_metrics (ev_pairs ev));
  eo_keys : fp_key <$> ps_pairs (ev_pairs ev) = set_items (ev_selected ev);
  eo_selected : ev_selected ev =
    select_family_edges (et_cross window_totals) (family_edges_per_family o);
  eo_pairs : ∀ fp, fp ∈ ps_pairs (ev_pairs ev) →
    pair_metric_ok o window_totals window_metrics (merge_confirmations s) fp;
  eo_merge : ∀ fp, fp ∈ ps_pairs (ev_pairs ev) →
    ps_merge (ev_pairs ev) !! fp_key fp = Some (fp_confirmation fp);
  eo_merge_rest : ∀ p, p ∉ ev_selected ev → get_or 0 (ps_merge (ev_pairs ev)) p = 0;
  eo_qualifying : ∀ p, p ∈ ps_qualifying (ev_pairs ev) ↔
    ∃ fp, fp ∈ ps_pairs (ev_pairs ev) ∧ fp_key fp = p ∧ fp_qualifies fp = true;
  eo_grace : ∀ p, ps_grace (ev_pairs ev) !! p =
    if decide (p ∈ ps_qualifying (ev_pairs ev)) then Some (plan_confirmations o)
    else (λ g, if 0 <? g then g - 1 else g) <$> merge_pending_grace s !! p;
  eo_seeds : ∀ p, p ∈ ps_seeds (ev_pairs ev) ↔
    ∃ fp, fp ∈ ps_pairs (ev_pairs ev) ∧ fp_key fp = p ∧ fp_confirmed fp = true;
  eo_seed_flag : ∀ f m, ps_metrics (ev_pairs ev) !! f = Some m →
    (fm_cross_seed m = true ↔ ∃ p, p ∈ ps_seeds (ev_pairs ev) ∧ incident f p);
  eo_pending_flag : ∀ f m, ps_metrics (ev_pairs ev) !! f = Some m →
    (fm_cross_pending m = true ↔
     ∃ p g, ps_grace (ev_pairs ev) !! p = Some g ∧ 0 < g ∧ incident f p ∧
       get_or 0 (ps_merge (ev_pairs ev)) p < domain_stability_confirmations o ∧
       p.1 ∈ dom (by_family_of threads) ∧ p.2 ∈ dom (by_family_of threads));
  eo_components : components_of (anchors_of (ps_metrics (ev_pairs ev)))
    (ps_seeds (ev_pairs ev)) = Some (ev_components ev);
  eo_seeds_anchors : ∀ p, p ∈ ps_seeds (ev_pairs ev) →
    p.1 ∈ anchors_of (ps_metrics (ev_pairs ev)) ∧ p.2 ∈ anchors_of (ps_metrics (ev_pairs ev));
}.

Lemma family_metrics_flags t by_family conf f m :
  (family_metrics o t by_family conf).1 !! f = Some m →
  fm_cross_pending m = false ∧ fm_cross_seed m = false.
Proof.
  unfold family_metrics. destruct (foldl _ _ _) as [metrics conf'] eqn:E. cbn.
  replace metrics with (foldl (family_step o t (maximum_internal (et_internal t))) (∅, conf)
    (items by_family)).1 by (by rewrite E). clear E. revert m.
  refine (foldl_invariant (family_step o t (maximum_internal (et_internal t)))
    (λ st, ∀ m, st.1 !! f = Some m → fm_cross_pending m = false ∧ fm_cross_seed m = false)
    _ _ _ _); [intros m; cbn; by rewrite lookup_empty|].
  intros [ms c] b _ Hm m. cbn. rewrite lookup_insert_Some. intros [[<- <-]|[_ ?]]; [done|auto].
Qed.

Lemma window_pairs_ok p :
  p ∈ select_family_edges (et_cross window_totals) (family_edges_per_family o) →
  is_Some (et_cross window_totals !! p) ∧ p.1 ≠ p.2 ∧
  is_Some (window_metrics !! p.1) ∧ is_Some (window_metrics !! p.2).
Proof.
  intros Hp. eapply select_family_edges_dom in Hp as (? & ? & H1 & H2);
    [|apply aggregate_edges_cross_wf].
  split_and!; [done|done|..]; apply elem_of_dom; unfold window_metrics;
    by rewrite family_metrics_dom.
Qed.

Lemma gather_evidence_ok : ∃ ev, gather_evidence s o threads edges = Ok ev ∧ evidence_ok ev.
Proof.
  unfold gather_evidence. fold window_totals.
  destruct (family_metrics o window_totals (by_family_of threads) (family_confirmations s))
    as [ms fconf] eqn:Efm.
  assert (window_metrics = ms) as Hms by (unfold window_metrics; by rewrite Efm).
  set (selected := select_family_edges _ _).
  destruct (evaluate_pair_loop o window_totals ms (merge_confirmations s)
    (merge_pending_grace s) selected) as (st & Hst & Hinv).
  { intros f m Hm. rewrite <-Hms in Hm. by apply family_metrics_flags in Hm. }
  { intros p Hp. rewrite <-Hms. by apply window_pairs_ok. }
  unfold evaluate_pairs. rewrite Hst. cbn [mbind result_bind].
  set (merge1 := map_imap _ _).
  pose proof (grace_loop o (ps_qualifying st) (ps_metrics st) merge1 (ps_grace st)) as Hg.
  destruct (foldl _ _ _) as [[ms2 merge2] grace2]. cbn [mbind result_bind ps_metrics ps_seeds].
  destruct Hinv as [Ib Ik Ip Ie Im Imr Iq Ig Is If], Hg as [Gb Gm Gmk Gg Gf]. cbn in *.
  assert (∀ p, get_or 0 merge2 p = if bool_decide (p ∈ selected) then get_or 0 (ps_merge st) p else 0)
    as Hm2.
  { intros p. rewrite Gm. unfold merge1. rewrite map_imap_get_or.
    by rewrite (bool_decide_ext _ _ (iff_trans (Ie p) (elem_of_set_items selected p))). }
  assert (∀ f m, ms2 !! f = Some m →
    fm_cross_seed m = true ↔ ∃ p, p ∈ ps_seeds st ∧ incident f p) as Hseed.
  { intros f m Hm. destruct (Gf f m Hm) as (m0 & Hm0 & -> & _). by apply (If f m0 Hm0). }
  assert (∀ p, p ∈ ps_seeds st → p.1 ∈ anchors_of ms2 ∧ p.2 ∈ anchors_of ms2) as Hanch.
  { intros p Hp. pose proof (proj1 (Is p) Hp) as (fp & Hfp & Hkey & _).
    assert (p ∈ selected) as Hsel.
    { apply elem_of_set_items. rewrite <-Ik, <-Hkey. by apply list_elem_of_fmap_2. }
    destruct (window_pairs_ok p Hsel) as (_ & _ & H1 & H2).
    rewrite Hms, <-!elem_of_dom, <-(same_base_dom _ _ Ib), <-(same_base_dom _ _ Gb),
      !elem_of_dom in H1, H2.
    destruct H1 as [m1 H1], H2 as [m2 H2]. rewrite !elem_of_anchors_of. split.
    - exists m1. split; [done|]. cbn. rewrite (proj2 (Hseed _ _ H1)); [done|].
      exists p. split; [done|by left].
    - exists m2. split; [done|]. cbn. rewrite (proj2 (Hseed _ _ H2)); [done|].
      exists p. split; [done|by right]. }
  assert (∀ p, grace2 !! p = aged (ps_qualifying st) p <$> ps_grace st !! p) as Hg2.
  { intros p. rewrite Gg. case_decide as Hd; [done|].
    destruct (ps_grace st !! p) eqn:Hg; [|done]. destruct Hd.
    apply elem_of_items in Hg. by apply (list_elem_of_fmap_2 fst) in Hg. }
  assert (∀ f, f ∈ dom (ps_metrics st) ↔ f ∈ dom (by_family_of threads)) as Hdoms.
  { intros f. rewrite (same_base_dom _ _ Ib), <-Hms. unfold window_metrics.
    by rewrite family_metrics_dom. }
  destruct (components_of_correct _ _ Hanch) as (c & Hc & _). rewrite Hc.
  eexists. split; [done|]. split; cbn; try done.
  - rewrite Hms. by eapply same_base_trans.
  - by rewrite Hms.
  - intros fp Hfp. apply Gmk. unfold merge1. rewrite map_lookup_imap, (Im fp Hfp). cbn.
    rewrite bool_decide_eq_true_2; [done|]. rewrite Ie, <-Ik. by apply list_elem_of_fmap_2.
  - intros p Hp. by rewrite Hm2, bool_decide_eq_false_2.
  - intros p. rewrite Hg2, Ig. case_decide; cbn; unfold aged.
    + by rewrite bool_decide_eq_true_2.
    + destruct (merge_pending_grace s !! p); cbn; [|done]. by rewrite bool_decide_eq_false_2.
  - intros f m Hm. destruct (Gf f m Hm) as (m0 & Hm0 & _ & ->).
    rewrite (proj1 (If f m0 Hm0)). split.
    + intros [?|(p & g & Hin%elem_of_items & Hi & H1 & H2 & H3 & H4)]; [done|].
      exists p, (aged (ps_qualifying st) p g). rewrite Hg2, Hin, Gm, <-!Hdoms, !elem_of_dom. done.
    + intros (p & g' & Hgr & Hpos & Hi & H2 & H3 & H4). right.
      rewrite Hg2 in Hgr. apply fmap_Some in Hgr as (g & Hgr & ->).
      exists p, g. rewrite elem_of_items. unfold holds_back.
      rewrite <-Gm, <-!elem_of_dom, !Hdoms. done.
Qed.
End evidence.
