(* ===== verification/DomainPlanFacts.v ===== *)
(** * Facts on planning, dwell, masks and actions of the NUMA-domain solver *)
From stdpp Require Import relations.
From S2P Require Import Prelude Binary64 Core CpuList Topology DomainPlanner UnionFind DomainSolver.
From S2P Require Import DomainSolverFacts.
Local Open Scope Z_scope.

(** ** Masks *)
Section masks.
Context (by_tid : gmap Z ThreadDemand) (allowed : gmap Z (list Z)).

(** Thread [t] of a valid domain [d] is observed and gets mask [m]. *)
Definition gives (d : NumaDomain) (t : Z) (m : list Z) : Prop :=
  nd_valid d = true ∧ t ∈ nd_tids d ∧ is_Some (by_tid !! t) ∧
  m = effective_mask allowed (nd_target_mask d) t ∧ m ≠ [].

Lemma tid_masks_spec mask tids : ∀ delta delta',
  tid_masks by_tid allowed mask tids delta = Some delta' →
  (∀ t m, delta' !! t = Some m →
     delta !! t = Some m ∨
     (t ∈ tids ∧ is_Some (by_tid !! t) ∧ m = effective_mask allowed mask t ∧ m ≠ [])) ∧
  (∀ t, is_Some (delta !! t) ∨ (t ∈ tids ∧ is_Some (by_tid !! t)) → is_Some (delta' !! t)).
Proof.
  induction tids as [|x tids IH]; intros delta delta'; cbn.
  { intros [= <-]. split; [auto|]. intros t [?|[? _]]; [done|set_solver]. }
  case_bool_decide as Hx.
  { intros H. apply IH in H as [H1 H2]. split.
    - intros t m Hm. destruct (H1 t m Hm) as [?|(? & ?)]; [by left|right]. set_solver.
    - intros t [?|[[->|?]%elem_of_cons Hs]]; [auto|..].
      + rewrite Hx in Hs. by destruct Hs.
      + auto. }
  case_bool_decide as Hne; [done|]. intros H. apply IH in H as [H1 H2]. split.
  - intros t m Hm. destruct (H1 t m Hm) as [Hl|(? & ?)]; [|right; set_solver].
    apply lookup_insert_Some in Hl as [[<- <-]|[? ?]]; [|by left].
    right. split_and!; [left|by apply not_eq_None_Some|done|done].
  - intros t Ht. apply H2. rewrite lookup_insert_is_Some.
    destruct (decide (x = t)) as [->|]; [by left; left|]. set_solver.
Qed.

Lemma rebuild_masks_spec ds : ∀ delta ds' delta' e,
  rebuild_masks by_tid allowed ds delta = (ds', delta', e) →
  nd_id <$> ds' = nd_id <$> ds ∧ nd_families <$> ds' = nd_families <$> ds ∧
  nd_target_mask <$> ds' = nd_target_mask <$> ds ∧
  nd_target_nodes <$> ds' = nd_target_nodes <$> ds ∧ nd_tids <$> ds' = nd_tids <$> ds ∧
  match e with
  | Some _ => delta' = ∅
  | None => ds' = ds ∧
      (∀ t m, delta' !! t = Some m → delta !! t = Some m ∨ ∃ d, d ∈ ds ∧ gives d t m) ∧
      (∀ d t, d ∈ ds → nd_valid d = true → t ∈ nd_tids d → is_Some (by_tid !! t) →
         is_Some (delta' !! t)) ∧
      (∀ t, is_Some (delta !! t) → is_Some (delta' !! t))
  end.
Proof.
  induction ds as [|d ds IH]; intros delta ds' delta' e; cbn.
  { intros [= <- <- <-]. repeat split; auto. intros; set_solver. }
  destruct (nd_valid d) eqn:Hv; cbn.
  - destruct (tid_masks _ _ _ _ _) as [delta1|] eqn:Ht; [|by intros [= <- <- <-]].
    destruct (rebuild_masks by_tid allowed ds delta1) as [[ds1 delta2] e1] eqn:Hr.
    intros [= <- <- <-]. apply tid_masks_spec in Ht as [Ht1 Ht2].
    destruct (IH _ _ _ _ Hr) as (Hi & Hf & Hm & Hn & Htids & He).
    cbn. rewrite Hi, Hf, Hm, Hn, Htids. repeat (split; [done|]).
    destruct e1; [done|]. destruct He as (-> & H1 & H2 & H3). split_and!; [done| | |].
    + intros t m Hl. destruct (H1 t m Hl) as [Hl1|(d' & Hd' & Hg)].
      * destruct (Ht1 t m Hl1) as [?|(? & ? & ? & ?)]; [by left|right].
        exists d. split; [left|done].
      * right. exists d'. split; [by right|done].
    + intros d' t [->|Hd']%elem_of_cons ? ? ?; [|by eapply H2]. apply H3, Ht2. auto.
    + intros t Hl. apply H3, Ht2. by left.
  - destruct (rebuild_masks by_tid allowed ds delta) as [[ds1 delta2] e1] eqn:Hr.
    intros [= <- <- <-]. destruct (IH _ _ _ _ Hr) as (Hi & Hf & Hm & Hn & Htids & He).
    cbn. rewrite Hi, Hf, Hm, Hn, Htids. repeat (split; [done|]).
    destruct e1; [done|]. destruct He as (-> & H1 & H2 & H3). split_and!; [done| | |done].
    + intros t m Hl. destruct (H1 t m Hl) as [?|(d' & Hd' & Hg)]; [by left|right].
      exists d'. split; [by right|done].
    + intros d' t [->|Hd']%elem_of_cons ? ? ?; [congruence|by eapply H2].
Qed.

(** What the mask phase hands to the confirmation phase. *)
Record final_ok (hs : HoldState) (fi : FinalPlan) : Prop := {
  fo_families : (nd_families <$> fi_domains fi) ≡ₚ (nd_families <$> hs_domains hs);
  fo_keep : ∀ d, d ∈ hs_domains hs → ∃ d', d' ∈ fi_domains fi ∧ nd_id d' = nd_id d ∧
    nd_families d' = nd_families d ∧ nd_target_nodes d' = nd_target_nodes d ∧
    nd_target_mask d' = nd_target_mask d ∧ nd_tids d' = nd_tids d;
  fo_ids : StronglySorted (λ x y, key_ltb y x = false) (nd_id <$> fi_domains fi);
  fo_valid : fi_valid fi = true → fi_domains fi ≡ₚ hs_domains hs ∧
    ∀ d t, d ∈ fi_domains fi → nd_valid d = true → t ∈ nd_tids d →
      is_Some (by_tid !! t) → is_Some (fi_planned fi !! t);
  fo_invalid : fi_valid fi = false → fi_planned fi = ∅;
  fo_planned : ∀ t m, fi_planned fi !! t = Some m → ∃ d, d ∈ fi_domains fi ∧ gives d t m;
}.

Lemma sorted_by_fmap {A K} `{KeyOrder K} (f : A → K) l :
  StronglySorted (λ x y, key_ltb (f y) (f x) = false) l →
  StronglySorted (λ x y, key_ltb y x = false) (f <$> l).
Proof.
  induction 1 as [|x l Hs IH Hx]; cbn; [constructor|]. constructor; [done|].
  rewrite Forall_fmap. done.
Qed.

Lemma domain_sort_ids ds :
  StronglySorted (λ x y, key_ltb y x = false) (nd_id <$> std_sort domain_ltb ds).
Proof.
  apply sorted_by_fmap. apply (std_sort_sorted domain_ltb (λ _, True)).
  - intros x y _ _. apply key_ltb_asym.
  - intros x y z _ _ _. apply key_ltb_negtrans.
  - by apply Forall_true.
Qed.

Lemma final_plan_ok hs : final_ok hs (final_plan by_tid allowed hs).
Proof.
  pose proof (std_sort_perm domain_ltb (hs_domains hs)) as Hperm.
  pose proof (domain_sort_ids (hs_domains hs)) as Hids.
  unfold final_plan. destruct (hs_valid hs); [|split; cbn; try done].
  - destruct (rebuild_masks _ _ _ _) as [[ds delta] e] eqn:Hr.
    apply rebuild_masks_spec in Hr as (Hi & Hf & Hm & Hn & Ht & He). split; cbn.
    + by rewrite Hf, Hperm.
    + intros d Hd. rewrite <-Hperm in Hd. apply list_elem_of_lookup in Hd as [i Hd].
      assert (∀ {B} (g : NumaDomain → B), g <$> ds = g <$> std_sort domain_ltb (hs_domains hs) →
        g <$> ds !! i = Some (g d)) as Hg.
      { intros B g Heq. rewrite <-list_lookup_fmap, Heq, list_lookup_fmap, Hd. done. }
      destruct (ds !! i) as [d'|] eqn:Hd'; [|by specialize (Hg _ _ Hi)].
      exists d'. split; [by eapply list_elem_of_lookup_2|].
      pose proof (Hg _ _ Hi); pose proof (Hg _ _ Hf); pose proof (Hg _ _ Hm);
        pose proof (Hg _ _ Hn); pose proof (Hg _ _ Ht). cbn in *. by simplify_eq.
    + by rewrite Hi.
    + case_bool_decide as Hb; [|done]. subst e. destruct He as (-> & _ & H2 & _).
      intros _. split; [done|]. intros. by eapply H2.
    + case_bool_decide; [done|]. by destruct e; subst.
    + destruct e; [subst; intros t m; by rewrite lookup_empty|]. destruct He as (-> & H1 & _).
      intros t m Hl. destruct (H1 t m Hl) as [Hl'|?]; [by rewrite lookup_empty in Hl'|done].
  - by rewrite Hperm.
  - intros d Hd. exists d. by rewrite Hperm.
Qed.
End masks.

(** ** Actions *)
Lemma fst_app_l {A B} (l k : list (A * B)) x : x ∈ l.*1 → x ∈ (l ++ k).*1.
Proof. rewrite fmap_app, elem_of_app. auto. Qed.
Lemma fst_app_last {A B} (l : list (A * B)) x y : x ∈ (l ++ [(x, y)]).*1.
Proof. rewrite fmap_app, elem_of_app. right. by apply list_elem_of_singleton. Qed.
#[local] Hint Resolve fst_app_l fst_app_last : core.

Section actions.
Context (threads : list ThreadDemand) (allowed placement : gmap Z (list Z))
  (domains : list NumaDomain) (planned : gmap Z (list Z)).
Local Abbreviation by_tid := (by_tid_of threads).

(** An action moves an observed thread of a domain to its planned mask. *)
Definition action_ok (a : NumaDomainAction) : Prop :=
  planned !! na_tid a = Some (na_target_mask a) ∧
  placement !! na_tid a ≠ Some (na_target_mask a) ∧
  na_from_mask a = get_or [] allowed (na_tid a) ∧
  (∃ th, th ∈ threads ∧ td_identity th = na_identity a ∧
     na_forced_migration a = bool_decide (td_current_cpu th ∉ na_target_mask a)) ∧
  (∃ d, d ∈ domains ∧ na_tid a ∈ nd_tids d ∧ na_target_nodes a = nd_target_nodes d).

Definition inherited_ok (t : Z) : Prop :=
  placement !! t = None ∧ ∃ m, planned !! t = Some m ∧ get_or [] allowed t = m.

Record actions_inv (visited : list (Z * list Z)) (st : ActionState) : Prop := {
  ai_actions : ∀ a, a ∈ as_actions st → action_ok a ∧ na_tid a ∈ visited.*1;
  ai_inherited : ∀ t, t ∈ as_inherited st → inherited_ok t ∧ t ∈ visited.*1;
  ai_disjoint : ∀ a, a ∈ as_actions st → na_tid a ∉ as_inherited st;
  ai_nodup : NoDup (na_tid <$> as_actions st);
  ai_cover : ∀ t m, (t, m) ∈ visited →
    placement !! t = Some m ∨ t ∈ as_inherited st ∨ ∃ a, a ∈ as_actions st ∧ na_tid a = t;
}.

Lemma plan_action_inv visited st t target :
  actions_inv visited st → planned !! t = Some target → t ∉ visited.*1 →
  is_Some (by_tid !! t) → (∃ d, d ∈ domains ∧ t ∈ nd_tids d) →
  ∃ st', plan_action by_tid allowed placement domains st (t, target) = Ok st' ∧
    actions_inv (visited ++ [(t, target)]) st'.
Proof.
  intros [Ha Hi Hd Hn Hc] Hp Hnew [th Hth] (d & Hdom & Hdt). unfold plan_action.
  pose proof (by_tid_of_Some _ _ _ Hth) as [Hin Htid].
  case_bool_decide as Hpl.
  { exists st. split; [done|]. split; [| |done|done|].
    - intros a Hin'. destruct (Ha a Hin'). auto.
    - intros x Hx. destruct (Hi x Hx). auto.
    - intros x m [Hin'|[= -> ->]%list_elem_of_singleton]%elem_of_app; auto. }
  unfold at_key. rewrite Hth. cbn [mbind result_bind].
  destruct (_ && _) eqn:Hinh; bool_hyps.
  { eexists. split; [done|]. split; cbn.
    - intros a Hin'. destruct (Ha a Hin'). auto.
    - intros x [->%elem_of_singleton|Hx]%elem_of_union.
      + split; [split; [done|eauto]|]. auto.
      + destruct (Hi x Hx). auto.
    - intros a Hin' [Hx%elem_of_singleton|Hx]%elem_of_union; [|by apply (Hd a)].
      apply Hnew. rewrite <-Hx. by apply (Ha a).
    - done.
    - intros x m [Hin'|[= -> ->]%list_elem_of_singleton]%elem_of_app.
      + destruct (Hc x m Hin') as [?|[?|?]]; auto. right; left. by apply elem_of_union_r.
      + right; left. by apply elem_of_union_l, elem_of_singleton. }
  unfold find_domain.
  destruct (list_find (λ d, t ∈ nd_tids d) domains) as [[i d']|] eqn:Hf.
  2:{ exfalso. rewrite list_find_None, Forall_forall in Hf. by apply (Hf d). }
  apply list_find_Some in Hf as (Hd' & Htd' & _). apply list_elem_of_lookup_2 in Hd'.
  cbn [mbind result_bind].
  eexists. split; [done|]. set (a := mk_NumaDomainAction _ _ _ _ _).
  assert (na_tid a = t) as Hat by done.
  assert (t ∉ as_inherited st) as Hti by (intros Hx; by apply Hnew, Hi).
  split; cbn.
  - intros a' [Hin'| ->%list_elem_of_singleton]%elem_of_app.
    + destruct (Ha a' Hin'). auto.
    + cbn beta. rewrite Hat. split; [|by auto]. unfold action_ok. rewrite Hat. cbn.
      split_and!; [done|done|done|by exists th|by exists d'].
  - intros x Hx. destruct (Hi x Hx). auto.
  - intros a' [Hin'| ->%list_elem_of_singleton]%elem_of_app; [by apply Hd|by rewrite Hat].
  - rewrite fmap_app. apply NoDup_app. split_and!; [done| |cbn; apply NoDup_singleton].
    intros x Hx%list_elem_of_fmap. destruct Hx as (a' & -> & Ha'). cbn.
    rewrite list_elem_of_singleton. intros Heq. apply Hnew.
    replace t with (na_tid a') by congruence. by apply Ha.
  - intros x m [Hin'|[= -> ->]%list_elem_of_singleton]%elem_of_app.
    + destruct (Hc x m Hin') as [?|[?|(a' & ? & ?)]]; [auto|auto|].
      right; right. exists a'. rewrite elem_of_app. auto.
    + right; right. exists a. rewrite elem_of_app, list_elem_of_singleton. auto.
Qed.

Lemma plan_actions_ok :
  (∀ t m, planned !! t = Some m → is_Some (by_tid !! t) ∧ ∃ d, d ∈ domains ∧ t ∈ nd_tids d) →
  ∃ st, plan_actions by_tid allowed placement domains planned = Ok st ∧
    actions_inv (items planned) st.
Proof.
  intros Hpl. unfold plan_actions.
  apply (foldlM_total_prefix (plan_action by_tid allowed placement domains) actions_inv).
  - split; cbn; try set_solver. apply NoDup_nil_2.
  - intros pre [t m] rest st Hl Hst.
    assert (planned !! t = Some m) as Hp by (apply elem_of_items; rewrite Hl; set_solver).
    destruct (Hpl t m Hp). apply plan_action_inv; try done.
    pose proof (NoDup_items_fst planned) as Hnd. rewrite Hl, fmap_app in Hnd.
    apply NoDup_app in Hnd as (_ & Hd & _). intros Hin. by apply (Hd t Hin); left.
Qed.
End actions.

(** ** Capacity planning *)
Section planning.
Context (h : HardwareGraph) (o : NumaDomainOptions) (now_ns : Z) (threads : list ThreadDemand)
  (cross : gmap fam_pair double) (allowed : gmap Z (list Z)) (nodes_map : gmap string (list Z)).
Local Abbreviation by_family := (by_family_of threads).

Definition members_of (families : list string) : list ThreadDemand :=
  families ≫= get_or [] by_family.

Lemma elem_of_members_of families th :
  th ∈ members_of families ↔ th ∈ threads ∧ td_group th ∈ families.
Proof.
  unfold members_of. rewrite list_elem_of_bind. setoid_rewrite by_family_of_get.
  setoid_rewrite list_elem_of_filter. naive_solver.
Qed.

(** A domain planned in this window. *)
Record planned_ok (d : NumaDomain) : Prop := {
  po_id : nd_id d = domain_id (nd_families d);
  po_tids : nd_tids d = std_sort Z.ltb (td_tid <$> members_of (nd_families d));
  po_mask : nd_target_mask d = mask_for_nodes h (nd_target_nodes d);
  po_size : nd_valid d = true → Zsize (nd_tids d) ≤ maximum_threads_per_domain o;
  po_masks : nd_valid d = true → ∀ t, t ∈ nd_tids d →
    effective_mask allowed (nd_target_mask d) t ≠ [];
  po_fits : nd_valid d = true →
    nd_node_decision d ∈ ["initial"; "expanded"; "shrunk"] →
    ((nd_capacity_headroom d + d1em12)%D <? d0)%D = false;
  po_decision : nd_node_decision d ≠ "held_domain_dwell"%string;
}.

Lemma member_masks_true mask members : ∀ delta,
  (member_masks allowed mask members delta).1 = true →
  ∀ m, m ∈ members → effective_mask allowed mask (td_tid m) ≠ [].
Proof.
  induction members as [|x members IH]; intros delta; cbn; [set_solver|].
  case_bool_decide; [done|]. intros H' m [->|Hin]%elem_of_cons; [done|]. by eapply IH.
Qed.

(** The decisions, and when each keeps the previous nodes. *)
Lemma node_lifecycle_decision id valid demand required expands shrinks changed :
  let lc := node_lifecycle h o now_ns nodes_map id valid demand required expands shrinks changed in
  lc_decision lc ∈ ["initial"; "expanded"; "shrunk"] → lc_required lc = required.
Proof.
  cbv zeta. unfold node_lifecycle.
  assert (∀ d : string, d ∈ ["stable"; "held_expand_pending"; "held_shrink_pending"; "held_existing"] →
    d ∉ ["initial"; "expanded"; "shrunk"]) as Hd.
  { intros d. rewrite !elem_of_cons, elem_of_nil. naive_solver. }
  repeat case_step; cbn; try done; intros Hin; exfalso; revert Hin; apply Hd;
    repeat case_step; rewrite !elem_of_cons; auto.
Qed.

Lemma node_lifecycle_names id valid demand required expands shrinks changed :
  lc_decision (node_lifecycle h o now_ns nodes_map id valid demand required expands shrinks changed)
    ≠ "held_domain_dwell"%string.
Proof. unfold node_lifecycle. by repeat case_step. Qed.

Lemma plan_domain_ok st c :
  ∃ d, pl_domains (plan_domain h o now_ns threads by_family cross allowed nodes_map st c) =
         pl_domains st ++ [d] ∧
    nd_families d = std_sort key_ltb c.2 ∧ planned_ok d.
Proof.
  unfold plan_domain. set (fams := std_sort key_ltb c.2). fold (members_of fams).
  set (choice := choose_nodes _ _ _ _ _ _ _ _).
  set (valid := negb _ && negb _). set (lc := node_lifecycle _ _ _ _ _ _ _ _ _ _ _).
  destruct (member_masks _ _ _ _) as [nonempty delta] eqn:Hmm.
  eexists. split; [done|]. split; [done|]. split; cbn; try done.
  - intros Hv. unfold valid in Hv. bool_hyps. done.
  - intros Hv t Ht. bool_hyps. subst nonempty.
    apply elem_of_std_sort, list_elem_of_fmap in Ht as (m & -> & Hm).
    eapply (member_masks_true _ _ (pl_delta st)); [by rewrite Hmm|done].
  - intros Hv Hdec. bool_hyps. unfold lc in Hdec |- *.
    rewrite (node_lifecycle_decision _ _ _ _ _ _ _ Hdec).
    unfold valid in *. bool_hyps.
    destruct (choose_nodes_best h (sum_demand (members_of fams)) (capacity_ratio o)
      (members_of fams) threads (pl_placed st) fams cross)
      as [(Hn & _)|(_ & _ & Heq & Hf & _)]; [done|]. fold choice in Heq, Hf.
    rewrite Heq in Hf. unfold feasible in Hf. by apply negb_true_iff in Hf.
  - apply node_lifecycle_names.
Qed.
End planning.

(** ** Every family belongs to one domain *)
Definition owners (ds : list NumaDomain) : list string := concat (nd_families <$> ds).

Section concat.
Context {A : Type}.
Implicit Types (L : list (list A)).

Lemma concat_perm L L' : L ≡ₚ L' → concat L ≡ₚ concat L'.
Proof.
  induction 1 as [|l L L' _ IH|l l' L|]; cbn; [done|by rewrite IH| |by etrans].
  by rewrite !app_assoc, (Permutation_app_comm l').
Qed.

Lemma concat_sublist L L' : L `sublist_of` L' → concat L `sublist_of` concat L'.
Proof.
  induction 1 as [|l L L' _ IH|l L L' _ IH]; cbn; [done|by apply sublist_app|].
  by apply sublist_inserts_l.
Qed.

Lemma elem_of_concat L x : x ∈ concat L ↔ ∃ l, l ∈ L ∧ x ∈ l.
Proof. induction L as [|l L IH]; cbn; [set_solver|]. rewrite elem_of_app, IH. set_solver. Qed.

Lemma NoDup_concat L :
  (∀ l, l ∈ L → NoDup l) →
  (∀ i j li lj x, L !! i = Some li → L !! j = Some lj → x ∈ li → x ∈ lj → i = j) →
  NoDup (concat L).
Proof.
  induction L as [|l L IH]; cbn; intros Hl Hd; [apply NoDup_nil_2|].
  apply NoDup_app. split_and!.
  - apply Hl. left.
  - intros x Hx (k & Hk & Hxk)%elem_of_concat. apply list_elem_of_lookup in Hk as [j Hj].
    by specialize (Hd 0%nat (S j) l k x eq_refl Hj Hx Hxk).
  - apply IH; [intros; apply Hl; by right|]. intros i j li lj x Hi Hj ? ?.
    specialize (Hd (S i) (S j) li lj x Hi Hj). naive_solver.
Qed.
End concat.

Lemma elem_of_owners ds f : f ∈ owners ds ↔ ∃ d, d ∈ ds ∧ f ∈ nd_families d.
Proof.
  unfold owners. rewrite elem_of_concat. setoid_rewrite list_elem_of_fmap. naive_solver.
Qed.

Lemma components_NoDup anchors seeds c :
  connected_components anchors seeds c →
  NoDup (concat ((λ e : string * list string, std_sort key_ltb e.2) <$> items c)).
Proof.
  intros [_ Hg Hs]. apply NoDup_concat.
  - intros l ([r k] & -> & Hin%elem_of_items)%list_elem_of_fmap. apply NoDup_std_sort.
    destruct (Hg r k Hin) as [Hsort _]. cbn. clear Hin. revert Hsort.
    induction k as [|x k IH]; [intros; apply NoDup_nil_2|].
    intros [Hx Hk]%StronglySorted_cons. apply NoDup_cons. split; [|by apply IH].
    rewrite Forall_forall in Hx. intros Hin. specialize (Hx x Hin). unfold key_lt in Hx.
    by rewrite key_ltb_irrefl in Hx.
  - intros i j li lj x. rewrite !list_lookup_fmap.
    intros ([r l] & Hi & ->)%fmap_Some ([r' l'] & Hj & ->)%fmap_Some.
    rewrite !elem_of_std_sort. cbn. intros Hx Hx'.
    assert (c !! r = Some l) as Hr by (by apply elem_of_items; eapply list_elem_of_lookup_2).
    assert (c !! r' = Some l') as Hr' by (by apply elem_of_items; eapply list_elem_of_lookup_2).
    assert (r = r') as <- by (by apply (Hs r r' l l' x x)).
    apply (NoDup_lookup (items c).*1 i j r); [apply NoDup_items_fst|..];
      rewrite list_lookup_fmap; [by rewrite Hi|by rewrite Hj].
Qed.

Section domains.
Context (s : NumaDomainSolver) (h : HardwareGraph) (o : NumaDomainOptions) (now_ns : Z)
  (threads : list ThreadDemand) (allowed : gmap Z (list Z)).

Lemma plan_domains_ok ev :
  nd_families <$> pl_domains (plan_domains s h o now_ns threads allowed ev) =
    (λ e, std_sort key_ltb e.2) <$> items (ev_components ev) ∧
  ∀ d, d ∈ pl_domains (plan_domains s h o now_ns threads allowed ev) →
    planned_ok h o threads allowed d.
Proof.
  unfold plan_domains.
  apply (foldl_invariant_prefix (plan_domain h o now_ns threads (by_family_of threads)
    (et_cross (ev_totals ev)) allowed (domain_nodes s))
    (λ cs st, nd_families <$> pl_domains st = (λ e, std_sort key_ltb e.2) <$> cs ∧
       ∀ d, d ∈ pl_domains st → planned_ok h o threads allowed d)); [split; [done|set_solver]|].
  intros pre c rest st _ [Hf Hok].
  destruct (plan_domain_ok h o now_ns threads (et_cross (ev_totals ev)) allowed (domain_nodes s) st c)
    as (d & -> & Hd & Hpo).
  rewrite !fmap_app, Hf. split; [cbn; by rewrite Hd|].
  intros d' [?| ->%list_elem_of_singleton]%elem_of_app; auto.
Qed.

(** Dwell *)
Context (evidence : gmap string Z).
Local Abbreviation hold := (hold_domain o now_ns (by_family_of threads) evidence).

(** [committed] is inside its dwell and still has observed threads. *)
Definition in_dwell (c : NumaDomain) : Prop :=
  (∃ ts, evidence !! nd_id c = Some ts ∧ u64_sub now_ns ts < minimum_dwell_ns o) ∧
  members_of threads (nd_families c) ≠ [].

Definition disjoint_from (c d : NumaDomain) : Prop :=
  ∀ f, f ∈ nd_families c → f ∈ nd_families d → False.

Lemma hold_domain_cases st c :
  (hold st c = st ∧
     (in_dwell c → ∃ d, d ∈ hs_domains st ∧ covers (nd_families c) d = true)) ∨
  (in_dwell c ∧ (∀ d, d ∈ hs_domains st → covers (nd_families c) d = false) ∧
   (∀ d, d ∈ hs_domains (hold st c) ↔
      (d ∈ hs_domains st ∧ disjoint_from c d) ∨
      d = held_domain o c (members_of threads (nd_families c))) ∧
   ∃ kept, kept `sublist_of` hs_domains st ∧
     hs_domains (hold st c) = kept ++ [held_domain o c (members_of threads (nd_families c))] ∧
     ∀ d, d ∈ kept → disjoint_from c d).
Proof.
  unfold hold_domain, in_dwell. fold (members_of threads (nd_families c)).
  destruct (evidence !! nd_id c) as [ts|] eqn:He; [|left; naive_solver].
  destruct (Z.leb_spec (minimum_dwell_ns o) (u64_sub now_ns ts)); [left; split; [done|]; naive_solver lia|].
  destruct (existsb _ _) eqn:Hex.
  { left. split; [done|]. intros _. apply existsb_elem_of in Hex as (d & ? & ?). eauto. }
  case_bool_decide as Hm; [left; naive_solver|]. right.
  assert (∀ d, existsb (λ f, bool_decide (f ∈ nd_families c)) (nd_families d) = false ↔
    disjoint_from c d) as Hdis.
  { intros d. rewrite <-not_true_iff_false, existsb_elem_of. unfold disjoint_from.
    setoid_rewrite bool_decide_eq_true. naive_solver. }
  split; [eauto|]. split.
  { intros d Hd. apply not_true_iff_false. intros Hc.
    apply not_true_iff_false in Hex. apply Hex, existsb_elem_of. eauto. }
  cbn [hs_domains]. split.
  - intros d. rewrite elem_of_app, list_elem_of_singleton, list_elem_of_filter, Hdis. tauto.
  - exists (filter (λ d, existsb (λ f, bool_decide (f ∈ nd_families c)) (nd_families d) = false)
      (hs_domains st)).
    split; [apply sublist_filter|]. split; [done|]. intros d. rewrite list_elem_of_filter, Hdis. tauto.
Qed.

Lemma hold_domain_owners st c :
  NoDup (nd_families c) → NoDup (owners (hs_domains st)) → NoDup (owners (hs_domains (hold st c))).
Proof.
  intros Hc Hst. destruct (hold_domain_cases st c) as [[-> _]|(_ & _ & _ & kept & Hsub & -> & Hk)];
    [done|]. unfold owners. rewrite fmap_app, concat_app. apply NoDup_app. split_and!.
  - eapply sublist_NoDup; [exact Hst|]. by apply concat_sublist, fmap_sublist.
  - intros f Hf. cbn. rewrite app_nil_r. intros Hf'.
    apply (elem_of_owners kept) in Hf as (d & Hd & Hfd). by apply (Hk d Hd f).
  - cbn. by rewrite app_nil_r.
Qed.

Lemma owners_app ds ds' : owners (ds ++ ds') = owners ds ++ owners ds'.
Proof. unfold owners. by rewrite fmap_app, concat_app. Qed.

Lemma owners_disjoint pre b rest c :
  NoDup (owners (pre ++ b :: rest)) → c ∈ pre → disjoint_from b c.
Proof.
  rewrite owners_app, NoDup_app. intros (_ & Hd & _) Hc f Hb Hf.
  apply (Hd f); apply elem_of_owners; [by exists c|]. exists b. split; [left|done].
Qed.

Local Abbreviation held c := (held_domain o c (members_of threads (nd_families c))).

Record hold_inv (candidates visited : list NumaDomain) (st : HoldState) : Prop := {
  hi_owners : NoDup (owners candidates) → NoDup (owners (hs_domains st));
  hi_from : ∀ d, d ∈ hs_domains st →
    d ∈ candidates ∨ ∃ c, c ∈ visited ∧ in_dwell c ∧ d = held c;
  hi_held : ∀ c, c ∈ visited → in_dwell c →
    (∃ d, d ∈ candidates ∧ covers (nd_families c) d = true) ∨ held c ∈ hs_domains st;
}.

Lemma covers_elem fams d : covers fams d = true ↔ ∀ f, f ∈ fams → f ∈ nd_families d.
Proof. unfold covers. rewrite forallb_elem_of. by setoid_rewrite bool_decide_eq_true. Qed.

Lemma in_dwell_families c : in_dwell c → ∃ f, f ∈ nd_families c.
Proof.
  intros [_ Hm]. destruct (nd_families c) as [|f fs]; [done|]. exists f. left.
Qed.

Lemma hold_domain_inv candidates pre b rest st :
  NoDup (owners (pre ++ b :: rest)) → hold_inv candidates pre st →
  hold_inv candidates (pre ++ [b]) (hold st b).
Proof.
  intros Hnd [Ho Hf Hh].
  assert (NoDup (nd_families b)) as Hb.
  { rewrite owners_app, NoDup_app in Hnd. destruct Hnd as (_ & _ & Hnd).
    unfold owners in Hnd. cbn in Hnd. by apply NoDup_app in Hnd as [? _]. }
  assert (∀ c, c ∈ pre → disjoint_from b c) as Hdis by (intros; by eapply owners_disjoint).
  split.
  - intros Hc. by apply hold_domain_owners, Ho.
  - intros d. destruct (hold_domain_cases st b) as [[-> _]|(Hin & _ & Hdoms & _)].
    + intros [?|(c & ? & ? & ?)]%Hf; [by left|right]. exists c. rewrite elem_of_app. auto.
    + rewrite Hdoms. intros [[[?|(c & ? & ? & ?)]%Hf _]| ->]; [by left|right|right].
      * exists c. rewrite elem_of_app. auto.
      * exists b. rewrite elem_of_app, list_elem_of_singleton. auto.
  - intros c [Hc| ->%list_elem_of_singleton]%elem_of_app Hdw.
    + destruct (Hh c Hc Hdw) as [?|Hheld]; [by left|right].
      destruct (hold_domain_cases st b) as [[-> _]|(_ & _ & Hdoms & _)]; [done|].
      apply Hdoms. left. split; [done|]. intros f Hfb Hfc. by apply (Hdis c Hc f).
    + destruct (hold_domain_cases st b) as [[_ Hcov]|(_ & _ & Hdoms & _)];
        [|right; apply Hdoms; by right].
      destruct (Hcov Hdw) as (d & Hd & Hcd). destruct (Hf d Hd) as [?|(c & Hc & _ & ->)];
        [left; eauto|]. exfalso.
      destruct (in_dwell_families b Hdw) as [f Hfb]. rewrite covers_elem in Hcd.
      by apply (Hdis c Hc f Hfb), Hcd.
Qed.

Lemma hold_loop candidates valid reason committed :
  NoDup (owners committed) →
  hold_inv candidates committed (foldl hold (mk_HoldState candidates valid reason) committed).
Proof.
  intros Hnd. apply (foldl_invariant_prefix hold (hold_inv candidates)).
  - split; cbn; [done|by left|set_solver].
  - intros pre b rest st Hl. apply (hold_domain_inv candidates pre b rest). by rewrite <-Hl.
Qed.
End domains.
