(* ===== verification/DomainTheorems.v ===== *)
(** * Theorems on the NUMA-domain solver

    [propose] as a whole, the lifecycle of proposals ([commit], [discard],
    [reset], [remove_thread]) as a step relation with its invariant, and the
    guarantees of the plan: who gets which mask, when a plan is ready, which
    families seed a domain, and what the dwell keeps. *)
From stdpp Require Import relations.
From S2P Require Import Prelude Binary64 Core CpuList Topology DomainPlanner UnionFind DomainSolver.
From S2P Require Import DomainSolverFacts DomainPlanFacts.
Local Open Scope Z_scope.

Section propose.
Context (h : HardwareGraph) (threads : list ThreadDemand) (edges : list RelationEdge)
  (allowed : gmap Z (list Z)) (o : NumaDomainOptions) (now_ns : Z) (s : NumaDomainSolver).

(** The intermediate results of a window, by phase. *)
Definition window_plan (ev : Evidence) : PlanState :=
  plan_domains s h o now_ns threads allowed ev.
Definition window_evidence (ev : Evidence) : gmap string Z :=
  new_evidence s now_ns (pl_domains (window_plan ev)).
Definition window_hold (ev : Evidence) : HoldState :=
  hold_domains s o now_ns threads (window_evidence ev) (window_plan ev).
Definition window_final (ev : Evidence) : FinalPlan :=
  final_plan (by_tid_of threads) allowed (window_hold ev).

(** How the proposal and the new state depend on them. *)
Record proposed (ev : Evidence) (acts : ActionState) (p : NumaDomainProposal)
    (s' : NumaDomainSolver) : Prop := {
  pr_gather : gather_evidence s o threads edges = Ok ev;
  pr_evidence : evidence_ok s o threads edges ev;
  pr_id : np_id p = next_proposal_id s;
  pr_outstanding : ds_outstanding s' = Some p;
  pr_next : next_proposal_id s' = u64 (next_proposal_id s + 1);
  pr_committed : ds_placement s' = ds_placement s ∧ ds_domains s' = ds_domains s ∧
    domain_nodes s' = domain_nodes s ∧ ds_generation s' = ds_generation s;
  pr_merge : merge_confirmations s' = ps_merge (ev_pairs ev);
  pr_grace : merge_pending_grace s' = ps_grace (ev_pairs ev);
  pr_last_evidence : last_confirmed_domain_evidence_ns s' = window_evidence ev;
  pr_families : np_families p = families_of (ps_metrics (ev_pairs ev));
  pr_pairs : np_family_pairs p = ps_pairs (ev_pairs ev);
  pr_domains : np_domains p =
    nd_set_confirmation (global_plan_confirmation s') <$> fi_domains (window_final ev);
  pr_planned : np_planned_masks p = fi_planned (window_final ev);
  pr_valid : np_valid p = fi_valid (window_final ev);
  pr_released : np_released_tids p = dom (ds_placement s) ∖ dom (np_planned_masks p);
  pr_signature : pending_signature s' = plan_signature (np_domains p);
  pr_confirmation : global_plan_confirmation s' =
    if decide (plan_signature (np_domains p) = pending_signature s)
    then global_plan_confirmation s + 1 else 1;
  pr_ready : np_ready p = true ↔ np_valid p = true ∧
    ((np_domains p ≠ [] ∧ plan_confirmations o ≤ global_plan_confirmation s') ∨
     (np_domains p = [] ∧ np_released_tids p ≠ ∅));
  pr_actions : np_actions p = as_actions acts ∧ np_inherited_tids p = as_inherited acts;
  pr_acts_ready : np_ready p = true →
    actions_inv threads allowed (ds_placement s) (np_domains p) (np_planned_masks p)
      (items (np_planned_masks p)) acts;
  pr_acts_idle : np_ready p = false → as_actions acts = [] ∧ as_inherited acts = ∅;
  pr_delta : np_delta p = mk_PlacementDelta ∅ (changed_masks (np_actions p));
}.

Lemma plan_signature_confirmation c ds :
  plan_signature (nd_set_confirmation c <$> ds) = plan_signature ds.
Proof. induction ds as [|d ds IH]; cbn; [done|]. unfold plan_signature in IH. by rewrite IH. Qed.

Lemma planned_in_domain ev c t m :
  fi_planned (window_final ev) !! t = Some m →
  is_Some (by_tid_of threads !! t) ∧
  ∃ d, d ∈ nd_set_confirmation c <$> fi_domains (window_final ev) ∧ t ∈ nd_tids d.
Proof.
  intros Hm. destruct (fo_planned _ _ _ _ (final_plan_ok (by_tid_of threads) allowed
    (window_hold ev)) t m Hm) as (d & Hd & _ & Ht & Hs & _).
  split; [done|]. exists (nd_set_confirmation c d). split; [by apply list_elem_of_fmap_2|done].
Qed.

Lemma propose_run :
  ds_outstanding s = None →
  ∃ ev acts p s', propose h threads edges allowed o now_ns s = Ok (p, s') ∧ proposed ev acts p s'.
Proof.
  intros Hout. unfold propose. rewrite Hout.
  rewrite bool_decide_eq_false_2 by apply is_Some_None. cbn [throw_if mbind result_bind].
  destruct (gather_evidence_ok s o threads edges) as (ev & Hev & Hok). rewrite Hev.
  cbn [mbind result_bind].
  fold (window_plan ev). fold (window_evidence ev). fold (window_hold ev). fold (window_final ev).
  set (fi := window_final ev). set (sig := plan_signature (fi_domains fi)).
  set (conf := if bool_decide (sig = pending_signature s) then _ else _).
  set (released := dom (ds_placement s) ∖ dom (fi_planned fi)).
  set (doms := nd_set_confirmation conf <$> fi_domains fi).
  set (ready := fi_valid fi && _).
  destruct (plan_actions_ok threads allowed (ds_placement s) doms (fi_planned fi))
    as (st & Hst & Hinv); [intros t m Hm; by eapply planned_in_domain|].
  assert (ready = true ↔ fi_valid fi = true ∧
    ((doms ≠ [] ∧ plan_confirmations o ≤ conf) ∨ (doms = [] ∧ released ≠ ∅))) as Hready.
  { unfold ready. rewrite andb_true_iff, orb_true_iff, !andb_true_iff, !negb_true_iff,
      !bool_decide_eq_true, !bool_decide_eq_false, Z.leb_le.
    assert (doms = [] ↔ fi_domains fi = []) by (unfold doms; destruct (fi_domains fi); done). tauto. }
  assert (∃ acts, (if ready then plan_actions (by_tid_of threads) allowed (ds_placement s) doms
      (fi_planned fi) else Ok (mk_ActionState [] ∅)) = Ok acts ∧
    (ready = true → actions_inv threads allowed (ds_placement s) doms (fi_planned fi)
       (items (fi_planned fi)) acts) ∧
    (ready = false → as_actions acts = [] ∧ as_inherited acts = ∅)) as (acts & -> & H1 & H2).
  { destruct ready; [exists st|exists (mk_ActionState [] ∅)]; done. }
  cbn [mbind result_bind]. eexists ev, acts, _, _. split; [done|].
  split; cbn; try done.
  - by unfold doms; rewrite plan_signature_confirmation.
  - unfold doms. rewrite plan_signature_confirmation. fold sig. unfold conf.
    by case_bool_decide; case_decide.
  - f_equal. destruct ready; [done|]. by destruct (H2 eq_refl) as [-> _].
Qed.

Lemma propose_proposed p s' :
  propose h threads edges allowed o now_ns s = Ok (p, s') →
  ds_outstanding s = None ∧ ∃ ev acts, proposed ev acts p s'.
Proof.
  intros Hp. destruct (ds_outstanding s) as [q|] eqn:Hq.
  { unfold propose in Hp. rewrite Hq in Hp. done. }
  split; [done|]. destruct (propose_run Hq) as (ev & acts & p1 & s1 & Hp1 & Hpr).
  rewrite Hp1 in Hp. injection Hp as <- <-. eauto.
Qed.
End propose.

(** The masks of a list of actions on distinct threads. *)
Lemma changed_masks_lookup acts t m :
  NoDup (na_tid <$> acts) →
  changed_masks acts !! t = Some m ↔ ∃ a, a ∈ acts ∧ na_tid a = t ∧ na_target_mask a = m.
Proof.
  unfold changed_masks.
  refine (foldl_invariant_prefix (λ m a, <[na_tid a := na_target_mask a]> m)
    (λ l acc, NoDup (na_tid <$> l) →
       acc !! t = Some m ↔ ∃ a, a ∈ l ∧ na_tid a = t ∧ na_target_mask a = m) acts ∅ _ _).
  { intros _. rewrite lookup_empty. set_solver. }
  intros pre b rest acc _ IH. rewrite fmap_app, NoDup_app. intros (Hnd & Hd & _).
  specialize (IH Hnd). setoid_rewrite elem_of_app. setoid_rewrite list_elem_of_singleton.
  destruct (decide (na_tid b = t)) as [Hb|Hb].
  - rewrite Hb, lookup_insert_eq. split; [intros [= <-]; eauto|].
    intros (a & [Ha| ->] & Hat & Ham); [|by f_equal]. exfalso.
    apply (Hd t); [rewrite <-Hat; by apply list_elem_of_fmap_2|]. cbn. rewrite Hb. left.
  - rewrite lookup_insert_ne, IH by done. split; [naive_solver|].
    intros (a & [Ha| ->] & Hat & Ham); [eauto|done].
Qed.

(** ** Facts on [commit] *)
Section commit.
Context (p : NumaDomainProposal) (committed : gset Z).

(** The threads whose planned mask [commit] records when they were not
    placed before. *)
Definition adopted (t : Z) : Prop :=
  t ∈ np_inherited_tids p ∨
  ((∃ a, a ∈ np_actions p ∧ na_tid a = t) ∧ (committed = ∅ ∨ t ∈ committed)).

Lemma release_lookup l (m : gmap Z (list Z)) t :
  foldl (λ m t, delete t m) m l !! t = if decide (t ∈ l) then None else m !! t.
Proof.
  revert m. induction l as [|x l IH]; intros m; cbn; [by rewrite decide_False by set_solver|].
  rewrite IH. destruct (decide (x = t)) as [->|].
  - rewrite (decide_True (P := t ∈ t :: l)) by set_solver. case_decide; [done|].
    by rewrite lookup_delete_eq.
  - rewrite lookup_delete_ne by done. apply decide_ext. set_solver.
Qed.

Lemma commit_planned_cond (placement : gmap Z (list Z)) t :
  (bool_decide (is_Some (placement !! t)) || bool_decide (t ∈ np_inherited_tids p) ||
   (bool_decide (t ∈ (list_to_set (na_tid <$> np_actions p) : gset Z)) &&
    (bool_decide (committed = ∅) || bool_decide (t ∈ committed)))) = true ↔
  is_Some (placement !! t) ∨ adopted t.
Proof.
  rewrite !orb_true_iff, andb_true_iff, orb_true_iff, !bool_decide_eq_true,
    elem_of_list_to_set, list_elem_of_fmap. unfold adopted.
  assert ((∃ y, t = na_tid y ∧ y ∈ np_actions p) ↔ ∃ a, a ∈ np_actions p ∧ na_tid a = t) as ->.
  { naive_solver. }
  tauto.
Qed.

Lemma commit_planned_loop (placement : gmap Z (list Z)) t m :
  foldl (commit_planned p committed) placement (items (np_planned_masks p)) !! t = Some m ↔
  match np_planned_masks p !! t with
  | Some m' => m = m' ∧ (is_Some (placement !! t) ∨ adopted t)
  | None => placement !! t = Some m
  end.
Proof.
  assert (∀ (l : list (Z * list Z)) (m0 : gmap Z (list Z)), NoDup l.*1 →
    foldl (commit_planned p committed) m0 l !! t = Some m ↔
    match list_to_map (M:=gmap Z (list Z)) l !! t with
    | Some m' => m = m' ∧ (is_Some (m0 !! t) ∨ adopted t)
    | None => m0 !! t = Some m
    end) as Hl.
  { induction l as [|[k v] l IH]; intros m0; cbn -[commit_planned].
    { by rewrite lookup_empty. }
    intros [Hk Hnd]%NoDup_cons. rewrite IH by done.
    destruct (decide (k = t)) as [->|Hne].
    - rewrite lookup_insert_eq. apply not_elem_of_list_to_map in Hk. rewrite Hk.
      pose proof (commit_planned_cond m0 t) as Hcond. unfold commit_planned. cbn [fst snd].
      destruct (_ || _) eqn:Hc.
      + rewrite lookup_insert_eq. destruct Hcond as [Hcond _]. specialize (Hcond eq_refl).
        naive_solver.
      + destruct Hcond as [_ Hcond]. split.
        * intros Hm. assert (false = true) by (apply Hcond; left; eauto). done.
        * intros [_ Hor]. by discriminate (Hcond Hor).
    - rewrite lookup_insert_ne by done.
      assert (commit_planned p committed m0 (k, v) !! t = m0 !! t) as ->; [|done].
      unfold commit_planned. cbn [fst snd]. destruct (_ || _); [by rewrite lookup_insert_ne|done]. }
  rewrite Hl by apply NoDup_items_fst.
  assert (list_to_map (M:=gmap Z (list Z)) (items (np_planned_masks p)) = np_planned_masks p) as ->;
    [|done].
  rewrite (list_to_map_proper _ (map_to_list (np_planned_masks p))) by
    (apply NoDup_items_fst || apply items_perm). apply list_to_map_to_list.
Qed.

Lemma commit_action_loop (placement : gmap Z (list Z)) t m acts :
  (∀ a, a ∈ acts → na_tid a = t → na_target_mask a = m) →
  foldl (commit_action committed) placement acts !! t = Some m ↔
  placement !! t = Some m ∨
  ((∃ a, a ∈ acts ∧ na_tid a = t) ∧ (committed = ∅ ∨ t ∈ committed)).
Proof.
  revert placement. induction acts as [|a acts IH]; intros placement Ha; cbn -[commit_action].
  { set_solver. }
  rewrite IH by (intros; apply Ha; [by right|done]). unfold commit_action.
  destruct (decide (na_tid a = t)) as [Hat|Hat].
  - destruct (_ && _) eqn:Hc.
    + bool_hyps. rewrite Hat in *. split; [intros [?|[(a' & ? & ?) ?]]; [by left|]|];
        [right; split; [exists a'; split; [by right|done]|done]|].
      intros [?|[_ [?|?]]]; [by left|done|done].
    + rewrite Hat, lookup_insert_eq. rewrite (Ha a) by (done || left).
      split; [|by left]. intros _. right. split; [exists a; split; [left|done]|].
      apply andb_false_iff in Hc as [Hc|Hc]; bool_hyps; [by left|right]. by rewrite <-Hat.
  - assert ((if negb (bool_decide (committed = ∅)) && negb (bool_decide (na_tid a ∈ committed))
      then placement else <[na_tid a := na_target_mask a]> placement) !! t = placement !! t) as ->.
    { destruct (_ && _); [done|]. by rewrite lookup_insert_ne. }
    assert ((∃ a0, a0 ∈ a :: acts ∧ na_tid a0 = t) ↔ ∃ a0, a0 ∈ acts ∧ na_tid a0 = t) as ->; [|done].
    split; [|set_solver]. intros (a0 & [->|?]%elem_of_cons & ?); [done|eauto].
Qed.

Lemma commit_action_value (placement : gmap Z (list Z)) t m' acts :
  (∀ a, a ∈ acts → na_tid a = t → na_target_mask a = m') →
  (∀ m, placement !! t = Some m → m = m') →
  ∀ m, foldl (commit_action committed) placement acts !! t = Some m → m = m'.
Proof.
  intros Ha Hpl. apply (foldl_invariant (commit_action committed)
    (λ pl, ∀ m, pl !! t = Some m → m = m')); [done|].
  intros pl a Hin IH m. unfold commit_action. destruct (_ && _); [by apply IH|].
  rewrite lookup_insert_Some. intros [[Ht <-]|[_ ?]]; [by apply Ha|by apply IH].
Qed.

Lemma commit_placement_lookup (placement : gmap Z (list Z)) t m :
  (∀ a, a ∈ np_actions p → np_planned_masks p !! na_tid a = Some (na_target_mask a)) →
  commit_placement p committed placement !! t = Some m ↔
  match np_planned_masks p !! t with
  | Some m' => m = m' ∧ ((is_Some (placement !! t) ∧ t ∉ np_released_tids p) ∨ adopted t)
  | None => placement !! t = Some m ∧ t ∉ np_released_tids p
  end.
Proof.
  intros Hacts. unfold commit_placement.
  set (pl1 := foldl (λ m t, delete t m) placement (set_items (np_released_tids p))).
  set (pl2 := foldl (commit_planned p committed) pl1 (items (np_planned_masks p))).
  assert (∀ x, pl1 !! t = Some x ↔ placement !! t = Some x ∧ t ∉ np_released_tids p) as H1.
  { intros x. unfold pl1. rewrite release_lookup. case_decide as Hd;
      rewrite elem_of_set_items in Hd; naive_solver. }
  assert (is_Some (pl1 !! t) ↔ is_Some (placement !! t) ∧ t ∉ np_released_tids p) as H1'.
  { unfold is_Some. setoid_rewrite H1. naive_solver. }
  pose proof (λ x, commit_planned_loop pl1 t x) as H2. fold pl2 in H2.
  destruct (np_planned_masks p !! t) as [m'|] eqn:Hp.
  - assert (∀ a, a ∈ np_actions p → na_tid a = t → na_target_mask a = m') as Ha.
    { intros a Hin Hat. specialize (Hacts a Hin). rewrite Hat in Hacts. congruence. }
    assert (∀ x, foldl (commit_action committed) pl2 (np_actions p) !! t = Some x → x = m') as Hv.
    { apply commit_action_value; [done|]. intros x Hx. by apply H2 in Hx as [? _]. }
    rewrite <-H1'. split.
    + intros Hm. pose proof (Hv m Hm) as ->. split; [done|].
      apply (commit_action_loop pl2 t m' (np_actions p) Ha) in Hm as [Hm|Hm].
      * by apply H2 in Hm as [_ Hm].
      * right. by right.
    + intros [-> Hor]. apply (commit_action_loop pl2 t m' (np_actions p) Ha).
      left. by apply H2.
  - rewrite <-H1, <-H2, commit_action_loop.
    + split; [|by left]. intros [?|[(a & Hin & Hat) _]]; [done|].
      specialize (Hacts a Hin). rewrite Hat in Hacts. congruence.
    + intros a Hin Hat. specialize (Hacts a Hin). rewrite Hat in Hacts. congruence.
Qed.
End commit.

(** ** The lifecycle as a step relation *)
Inductive domain_step : NumaDomainSolver → NumaDomainSolver → Prop :=
  | step_propose h threads edges allowed o now_ns s p s' :
      propose h threads edges allowed o now_ns s = Ok (p, s') → domain_step s s'
  | step_commit p now_ns committed s s' :
      ds_outstanding s = Some p → commit p now_ns committed s = Ok s' → domain_step s s'
  | step_discard p s : domain_step s (discard p s)
  | step_reset s : domain_step s (reset s)
  | step_remove t s : domain_step s (remove_thread t s).

(** What a proposal promises to the actuator and to [commit]. *)
Record proposal_wf (p : NumaDomainProposal) : Prop := {
  pw_owners : NoDup (owners (np_domains p));
  pw_masks : ∀ t m, np_planned_masks p !! t = Some m → m ≠ [];
  pw_actions : ∀ a, a ∈ np_actions p → np_planned_masks p !! na_tid a = Some (na_target_mask a);
}.

Record solver_inv (s : NumaDomainSolver) : Prop := {
  si_owners : NoDup (owners (ds_domains s));
  si_placement : ∀ t m, ds_placement s !! t = Some m → m ≠ [];
  si_outstanding : ∀ p, ds_outstanding s = Some p → proposal_wf p;
}.

Lemma owners_confirmation c ds : owners (nd_set_confirmation c <$> ds) = owners ds.
Proof. unfold owners. by rewrite <-list_fmap_compose. Qed.

Section proposed_facts.
Context (h : HardwareGraph) (threads : list ThreadDemand) (edges : list RelationEdge)
  (allowed : gmap Z (list Z)) (o : NumaDomainOptions) (now_ns : Z) (s s' : NumaDomainSolver)
  (p : NumaDomainProposal) (ev : Evidence) (acts : ActionState).
Hypothesis Hpr : proposed h threads edges allowed o now_ns s ev acts p s'.

Lemma proposed_final :
  final_ok (by_tid_of threads) allowed (window_hold h threads allowed o now_ns s ev)
    (window_final h threads allowed o now_ns s ev).
Proof. apply final_plan_ok. Qed.

Lemma proposed_hold :
  NoDup (owners (ds_domains s)) →
  hold_inv o now_ns threads (window_evidence h threads allowed o now_ns s ev)
    (pl_domains (window_plan h threads allowed o now_ns s ev)) (ds_domains s)
    (window_hold h threads allowed o now_ns s ev).
Proof. intros Hnd. by apply hold_loop. Qed.

Lemma proposed_candidates :
  NoDup (owners (pl_domains (window_plan h threads allowed o now_ns s ev))).
Proof.
  destruct (plan_domains_ok s h o now_ns threads allowed ev) as [Hf _].
  unfold owners. fold (window_plan h threads allowed o now_ns s ev) in Hf. rewrite Hf.
  pose proof (pr_evidence _ _ _ _ _ _ _ _ _ _ _ Hpr) as Hev.
  destruct (components_of_correct _ _ (eo_seeds_anchors _ _ _ _ _ Hev)) as (c & Hc & Hcc).
  rewrite (eo_components _ _ _ _ _ Hev) in Hc. injection Hc as ->.
  by eapply components_NoDup.
Qed.

Lemma metric_named f m0 : ps_metrics (ev_pairs ev) !! f = Some m0 → fm_name m0 = f.
Proof.
  pose proof (pr_evidence _ _ _ _ _ _ _ _ _ _ _ Hpr) as Hev. intros Hm0.
  destruct (same_base_lookup _ _ _ _ (eo_base _ _ _ _ _ Hev) Hm0) as (m1 & Hm1 & Hbase).
  apply family_metrics_name in Hm1. unfold fm_base, fm_update in Hbase.
  injection Hbase as Hn _. congruence.
Qed.

Lemma proposed_family m :
  m ∈ np_families p →
  ∃ m0, ps_metrics (ev_pairs ev) !! fm_name m = Some m0 ∧ m = set_anchor m0.
Proof.
  rewrite (pr_families _ _ _ _ _ _ _ _ _ _ _ Hpr). unfold families_of.
  intros ([f m0] & -> & Hm0%elem_of_items)%list_elem_of_fmap. exists m0. split; [|done].
  cbn [set_anchor fm_update fm_name snd]. by rewrite (metric_named f m0 Hm0).
Qed.

(** A family the window measured is listed once, with its demand and the
    internal relation of the window's totals. *)
Lemma listed_metric f m :
  window_metrics s o threads edges !! f = Some m →
  ∃ m', m' ∈ np_families p ∧ fm_name m' = f ∧ fm_demand m' = fm_demand m ∧
    fm_internal_relation m = fm_internal_relation m' ∧
    fm_internal_relation m' = get_or d0 (et_internal (window_totals threads edges)) f.
Proof.
  pose proof (pr_evidence _ _ _ _ _ _ _ _ _ _ _ Hpr) as Hev. intros Hm.
  pose proof (eo_base _ _ _ _ _ Hev f) as Hb. rewrite Hm in Hb.
  destruct (ps_metrics (ev_pairs ev) !! f) as [m0|] eqn:Hm0; [|done].
  apply (inj Some) in Hb. unfold fm_base, fm_update in Hb. injection Hb as _ _ Hd Hi _.
  exists (set_anchor m0). rewrite (pr_families _ _ _ _ _ _ _ _ _ _ _ Hpr). split_and!.
  - apply list_elem_of_fmap. exists (f, m0). split; [done|]. by apply elem_of_items.
  - exact (metric_named f m0 Hm0).
  - done.
  - done.
  - cbn. rewrite Hi. by apply (family_metrics_internal _ _ _ _ _ _ Hm).
Qed.

Lemma families_distinct : NoDup (fm_name <$> np_families p).
Proof.
  rewrite (pr_families _ _ _ _ _ _ _ _ _ _ _ Hpr). unfold families_of. rewrite <-list_fmap_compose.
  replace ((fm_name ∘ λ f, set_anchor f.2) <$> items (ps_metrics (ev_pairs ev)))
    with (items (ps_metrics (ev_pairs ev))).*1; [apply NoDup_items_fst|].
  apply list_fmap_ext. intros i [f m0] Hl. cbn.
  apply list_elem_of_lookup_2, elem_of_items in Hl. by rewrite (metric_named f m0 Hl).
Qed.

(** A domain of the proposal is planned in this window from anchors, or it is
    a committed domain kept by its dwell. *)
Lemma proposed_domain d :
  NoDup (owners (ds_domains s)) → d ∈ np_domains p →
  (∃ d0, d0 ∈ pl_domains (window_plan h threads allowed o now_ns s ev) ∧
     nd_families d = nd_families d0 ∧
     (∀ f, f ∈ nd_families d → f ∈ anchors_of (ps_metrics (ev_pairs ev)))) ∨
  (∃ c, c ∈ ds_domains s ∧ nd_families d = nd_families c).
Proof.
  intros Hnd Hd. rewrite (pr_domains _ _ _ _ _ _ _ _ _ _ _ Hpr) in Hd.
  apply list_elem_of_fmap in Hd as (d1 & -> & Hd1).
  assert (nd_families d1 ∈ nd_families <$> hs_domains (window_hold h threads allowed o now_ns s ev))
    as Hin.
  { rewrite <-(fo_families _ _ _ _ proposed_final). by apply list_elem_of_fmap_2. }
  apply list_elem_of_fmap in Hin as (d2 & Hf & Hd2). cbn [nd_set_confirmation nd_families].
  destruct (hi_from _ _ _ _ _ _ _ (proposed_hold Hnd) d2 Hd2) as [Hc|(c & Hc & _ & ->)].
  - left. exists d2. split; [done|]. split; [done|]. rewrite Hf. intros f Hfd.
    destruct (plan_domains_ok s h o now_ns threads allowed ev) as [Hfs _].
    pose proof (pr_evidence _ _ _ _ _ _ _ _ _ _ _ Hpr) as Hev.
    destruct (components_of_correct _ _ (eo_seeds_anchors _ _ _ _ _ Hev)) as (cs & Hcs & [_ Hg _]).
    rewrite (eo_components _ _ _ _ _ Hev) in Hcs. injection Hcs as Hcs. rewrite <-Hcs in Hg.
    assert (nd_families d2 ∈ nd_families <$> pl_domains (window_plan h threads allowed o now_ns s ev))
      as Hin by (by apply list_elem_of_fmap_2).
    unfold window_plan in Hin. rewrite Hfs in Hin.
    apply list_elem_of_fmap in Hin as ([r l] & Heq & Hl%elem_of_items).
    rewrite Heq, elem_of_std_sort in Hfd. by apply (Hg r l Hl).
  - right. exists c. done.
Qed.

Lemma proposed_wf : NoDup (owners (ds_domains s)) → proposal_wf p.
Proof.
  intros Hnd. split.
  - rewrite (pr_domains _ _ _ _ _ _ _ _ _ _ _ Hpr), owners_confirmation. unfold owners.
    rewrite (concat_perm _ _ (fo_families _ _ _ _ proposed_final)).
    apply (hi_owners _ _ _ _ _ _ _ (proposed_hold Hnd)), proposed_candidates.
  - rewrite (pr_planned _ _ _ _ _ _ _ _ _ _ _ Hpr). intros t m Hm.
    by destruct (fo_planned _ _ _ _ proposed_final t m Hm) as (d & _ & _ & _ & _ & _ & ?).
  - destruct (pr_actions _ _ _ _ _ _ _ _ _ _ _ Hpr) as [-> _]. intros a Ha.
    destruct (np_ready p) eqn:Hr.
    + by apply (pr_acts_ready _ _ _ _ _ _ _ _ _ _ _ Hpr Hr).
    + destruct (pr_acts_idle _ _ _ _ _ _ _ _ _ _ _ Hpr Hr) as [Hn _]. rewrite Hn in Ha. set_solver.
Qed.
End proposed_facts.

Lemma commit_Ok p now_ns committed s s' :
  commit p now_ns committed s = Ok s' →
  (∃ q, ds_outstanding s = Some q ∧ np_id q = np_id p) ∧
  ds_outstanding s' = None ∧ ds_domains s' = np_domains p ∧
  ds_placement s' = commit_placement p committed (ds_placement s) ∧
  ds_generation s' = u64 (ds_generation s + 1) ∧
  global_plan_confirmation s' = global_plan_confirmation s ∧
  pending_signature s' = pending_signature s.
Proof.
  unfold commit. destruct (ds_outstanding s) as [q|] eqn:Hq; cbn; [|done].
  destruct (Z.eqb_spec (np_id q) (np_id p)); cbn; [|done].
  destruct (foldl _ _ _) as [[changed evidence] nodes_map]. intros [= <-]. cbn. eauto 10.
Qed.

Lemma solver_inv_step s s' : solver_inv s → domain_step s s' → solver_inv s'.
Proof.
  intros [Ho Hp Hout] Hstep.
  destruct Hstep as [h th ed al o now s p s' Hpr|p now c s s' Hq Hc|p s|s|t s].
  - apply propose_proposed in Hpr as (Hnone & ev & acts & Hpr).
    destruct (pr_committed _ _ _ _ _ _ _ _ _ _ _ Hpr) as (Hpl & Hd & _).
    split; [by rewrite Hd|by rewrite Hpl|]. rewrite (pr_outstanding _ _ _ _ _ _ _ _ _ _ _ Hpr).
    intros q [= <-]. by eapply proposed_wf.
  - destruct (Hout p Hq) as [Hown Hm Ha].
    apply commit_Ok in Hc as (_ & Hn & Hd & Hpl & _). split.
    + by rewrite Hd.
    + rewrite Hpl. intros t m. rewrite commit_placement_lookup by done.
      destruct (np_planned_masks p !! t) eqn:Hpm; [intros [-> _]; eauto|intros [? _]; eauto].
    + rewrite Hn. done.
  - unfold discard. destruct (ds_outstanding s) eqn:E; [|by split; rewrite ?E].
    destruct (_ =? _); [|by split; rewrite ?E]. by split.
  - split; cbn; [apply NoDup_nil_2|intros t m; by rewrite lookup_empty|done].
  - split; cbn; [done| |done]. intros t' m. rewrite lookup_delete_Some. intros [_ ?]. eauto.
Qed.

Lemma solver_inv_reachable s : rtc domain_step NumaDomainSolver_init s → solver_inv s.
Proof.
  assert (solver_inv NumaDomainSolver_init) as Hinit.
  { split; cbn; [apply NoDup_nil_2|intros t m; by rewrite lookup_empty|done]. }
  revert Hinit. generalize NumaDomainSolver_init. intros s0 H0 Hr.
  induction Hr as [|x y z Hxy _ IH]; [done|]. by eapply IH, solver_inv_step.
Qed.
