(* ===== verification/DomainProperties.v ===== *)
(** * Properties of the NUMA-domain solver *)
From stdpp Require Import relations.
From S2P Require Import Prelude Binary64 Core CpuList Topology DomainPlanner UnionFind DomainSolver.
From S2P Require Import DomainSolverFacts DomainPlanFacts DomainTheorems.
Local Open Scope Z_scope.

(** The demonstration run used by the witnesses: one ready proposal. *)
Definition demo_first : NumaDomainProposal * NumaDomainSolver :=
  match demo_propose with Ok x => x | Throw _ => (mk_NumaDomainProposal 0 (mk_PlacementDelta ∅ ∅) ∅ ∅
    [] [] [] [] ∅ 0 0 0 d0 d0 false false "", NumaDomainSolver_init) end.

Lemma demo_propose_Ok : demo_propose = Ok (demo_first.1, demo_first.2).
Proof. unfold demo_first. by vm_compute. Qed.

(** A second run: two families related to each other, three windows to confirm. *)
Definition demo_pair_threads : list ThreadDemand :=
  [demo_thread 11 0 "a" d1; demo_thread 12 3 "a" (dlit 1 2);
   demo_thread 21 1 "b" d1; demo_thread 22 2 "b" (dlit 1 10)].
Definition demo_pair_edges : list RelationEdge :=
  [demo_edge 11 12 (double_of_Z 5); demo_edge 21 22 (double_of_Z 4); demo_edge 11 21 (double_of_Z 2)].
Definition demo_pair_options : NumaDomainOptions :=
  mk_NumaDomainOptions d1 d1 (dlit 20 100) (dlit 10 100) (dlit 25 100) 4 1 3 3 1024
    (dlit 80 100) (dlit 90 100) 3 (dlit 55 100) 6 300000000000.
Definition demo_pair_propose : result (NumaDomainProposal * NumaDomainSolver) :=
  propose demo_cpus demo_pair_threads demo_pair_edges ∅ demo_pair_options 1000 NumaDomainSolver_init.
Definition result_get {A} (d : A) (r : result A) : A := match r with Ok x => x | Throw _ => d end.
Definition demo_pair : NumaDomainProposal * NumaDomainSolver := result_get demo_first demo_pair_propose.
Lemma demo_pair_Ok : demo_pair_propose = Ok (demo_pair.1, demo_pair.2).
Proof. unfold demo_pair. by vm_compute. Qed.

(** C33: [propose] is total: with a proposal outstanding it throws
    [std::logic_error] and nothing else; otherwise it returns a proposal with
    the next id and leaves it outstanding, without touching the placement, the
    committed domains, their nodes or the generation (no [map::at] misses and
    no [find_if] fails). *)
Theorem propose_total h threads edges allowed o now_ns s :
  match ds_outstanding s with
  | Some _ => propose h threads edges allowed o now_ns s =
      Throw (logic_error "outstanding NUMA domain proposal")
  | None => ∃ p s', propose h threads edges allowed o now_ns s = Ok (p, s') ∧
      np_id p = next_proposal_id s ∧ ds_outstanding s' = Some p ∧
      ds_placement s' = ds_placement s ∧ ds_domains s' = ds_domains s ∧
      domain_nodes s' = domain_nodes s ∧ ds_generation s' = ds_generation s
  end.
Proof.
  destruct (ds_outstanding s) as [q|] eqn:Hq.
  - unfold propose. by rewrite Hq.
  - destruct (propose_run h threads edges allowed o now_ns s Hq) as (ev & acts & p & s' & Hp & Hpr).
    exists p, s'. split; [done|]. split; [apply Hpr|]. split; [apply Hpr|]. apply Hpr.
Qed.

(** C15: every mask a proposal plans is non-empty, belongs to a thread observed
    in this window, and equals the target mask of a valid domain that lists
    the thread, restricted to the thread's allowed mask when there is one; a
    valid proposal plans a mask for every observed thread of its valid
    domains, and an invalid one plans none. *)
Theorem planned_masks_sound h threads edges allowed o now_ns s p s'
    (Hp : propose h threads edges allowed o now_ns s = Ok (p, s')) :
  (∀ t m, np_planned_masks p !! t = Some m →
     m ≠ [] ∧ (∃ th, th ∈ threads ∧ td_tid th = t) ∧
     ∃ d, d ∈ np_domains p ∧ nd_valid d = true ∧ t ∈ nd_tids d ∧
       ∀ cpu, cpu ∈ m ↔ cpu ∈ nd_target_mask d ∧ ∀ a, allowed !! t = Some a → cpu ∈ a) ∧
  (np_valid p = true → ∀ d th, d ∈ np_domains p → nd_valid d = true → th ∈ threads →
     td_tid th ∈ nd_tids d → is_Some (np_planned_masks p !! td_tid th)) ∧
  (np_valid p = false → np_planned_masks p = ∅).
Proof.
  apply propose_proposed in Hp as (_ & ev & acts & Hpr).
  pose proof (proposed_final h threads allowed o now_ns s ev) as Hfin.
  rewrite (pr_planned _ _ _ _ _ _ _ _ _ _ _ Hpr), (pr_valid _ _ _ _ _ _ _ _ _ _ _ Hpr),
    (pr_domains _ _ _ _ _ _ _ _ _ _ _ Hpr). split_and!.
  - intros t m Hm. destruct (fo_planned _ _ _ _ Hfin t m Hm) as (d & Hd & Hv & Ht & Hs & -> & Hne).
    split; [done|]. split; [by apply by_tid_of_dom|].
    exists (nd_set_confirmation (global_plan_confirmation s') d).
    split; [by apply list_elem_of_fmap_2|]. split; [done|]. split; [done|].
    intros cpu. unfold effective_mask. cbn. destruct (allowed !! t) as [a|].
    + rewrite elem_of_intersect_masks. naive_solver.
    + naive_solver.
  - intros Hv d th (d0 & -> & Hd0)%list_elem_of_fmap Hvd Hth Hin.
    destruct (fo_valid _ _ _ _ Hfin Hv) as [_ Hcov].
    apply (Hcov d0); try done. apply by_tid_of_dom. eauto.
  - apply (fo_invalid _ _ _ _ Hfin).
Qed.

Lemma planned_masks_sound_witness :
  np_planned_masks demo_first.1 !! 12 = Some [2] ∧ [2] ≠ [] ∧
  ∃ d, d ∈ np_domains demo_first.1 ∧ 12 ∈ nd_tids d.
Proof.
  assert (np_planned_masks demo_first.1 !! 12 = Some [2]) as H12 by (by vm_compute).
  split; [exact H12|].
  destruct (planned_masks_sound _ _ _ _ _ _ _ _ _ demo_propose_Ok) as (H & _ & _).
  destruct (H 12 [2] H12) as (Hne & _ & d & Hd & _ & Ht & _). eauto.
Defined.

(** a plan is ready exactly when it is valid and either its complete
    domain/node signature has been repeated for [plan_confirmations] windows
    or it has no domain left and threads to release; a plan that is not ready
    carries no action, no inherited thread and no mask for the actuator. *)
Theorem ready_iff_confirmed h threads edges allowed o now_ns s p s'
    (Hp : propose h threads edges allowed o now_ns s = Ok (p, s')) :
  global_plan_confirmation s' =
    (if decide (plan_signature (np_domains p) = pending_signature s)
     then global_plan_confirmation s + 1 else 1) ∧
  (np_ready p = true ↔ np_valid p = true ∧
     ((np_domains p ≠ [] ∧ plan_confirmations o ≤ global_plan_confirmation s') ∨
      (np_domains p = [] ∧ np_released_tids p ≠ ∅))) ∧
  (np_ready p = false →
     np_actions p = [] ∧ np_inherited_tids p = ∅ ∧ np_delta p = mk_PlacementDelta ∅ ∅).
Proof.
  apply propose_proposed in Hp as (_ & ev & acts & Hpr).
  split; [apply Hpr|]. split; [apply Hpr|]. intros Hr.
  destruct (pr_acts_idle _ _ _ _ _ _ _ _ _ _ _ Hpr Hr) as [Ha Hi].
  destruct (pr_actions _ _ _ _ _ _ _ _ _ _ _ Hpr) as [Ha' Hi'].
  rewrite (pr_delta _ _ _ _ _ _ _ _ _ _ _ Hpr), Ha', Hi', Ha, Hi. done.
Qed.

Lemma ready_iff_confirmed_witness :
  np_ready demo_first.1 = true ∧ global_plan_confirmation demo_first.2 = 1.
Proof.
  destruct (ready_iff_confirmed _ _ _ _ _ _ _ _ _ demo_propose_Ok) as (Hc & Hr & _).
  split; [|rewrite Hc; by vm_compute].
  apply Hr. split; [by vm_compute|]. left. split; [by vm_compute|]. by vm_compute.
Defined.

(** a ready plan accounts for every planned thread exactly once: it already
    has the mask, or it inherited it and is only recorded, or one action moves
    it; actions target the planned mask of an observed thread with another
    mask, report a forced migration exactly when the thread last ran outside
    its new mask, and the delta given to the actuator is the actions' masks.
    The released threads are the placed ones the plan does not mention. *)
Theorem ready_plan_actions h threads edges allowed o now_ns s p s'
    (Hp : propose h threads edges allowed o now_ns s = Ok (p, s')) (Hr : np_ready p = true) :
  (∀ t m, np_planned_masks p !! t = Some m →
     ds_placement s !! t = Some m ∨ t ∈ np_inherited_tids p ∨
     ∃ a, a ∈ np_actions p ∧ na_tid a = t ∧ na_target_mask a = m) ∧
  (∀ t, t ∈ np_inherited_tids p → ds_placement s !! t = None ∧
     ∃ m, np_planned_masks p !! t = Some m ∧ allowed !! t = Some m) ∧
  (∀ a, a ∈ np_actions p →
     np_planned_masks p !! na_tid a = Some (na_target_mask a) ∧
     ds_placement s !! na_tid a ≠ Some (na_target_mask a) ∧ na_tid a ∉ np_inherited_tids p ∧
     ∃ th, th ∈ threads ∧ td_identity th = na_identity a ∧
       (na_forced_migration a = true ↔ td_current_cpu th ∉ na_target_mask a)) ∧
  NoDup (na_tid <$> np_actions p) ∧
  (∀ t m, tid_to_mask (np_delta p) !! t = Some m ↔
     ∃ a, a ∈ np_actions p ∧ na_tid a = t ∧ na_target_mask a = m) ∧
  np_released_tids p = dom (ds_placement s) ∖ dom (np_planned_masks p).
Proof.
  apply propose_proposed in Hp as (_ & ev & acts & Hpr).
  destruct (pr_actions _ _ _ _ _ _ _ _ _ _ _ Hpr) as [Ha' Hi'].
  destruct (pr_acts_ready _ _ _ _ _ _ _ _ _ _ _ Hpr Hr) as [Ha Hi Hd Hn Hc].
  rewrite <-Ha' in Ha, Hd, Hn, Hc. rewrite <-Hi' in Hi, Hd, Hc.
  pose proof (proposed_final h threads allowed o now_ns s ev) as Hfin.
  split_and!.
  - intros t m Hm. destruct (Hc t m) as [?|[?|(a & Hin & Hat)]]; [by apply elem_of_items|auto|auto|].
    right; right. exists a. split_and!; [done|done|].
    destruct (Ha a Hin) as [[Hpl _] _]. rewrite Hat in Hpl. congruence.
  - intros t Ht. destruct (Hi t Ht) as [(Hn' & m & Hm & Heq) _]. split; [done|]. exists m.
    split; [done|]. unfold get_or in Heq. destruct (allowed !! t); cbn in Heq; [congruence|].
    rewrite (pr_planned _ _ _ _ _ _ _ _ _ _ _ Hpr) in Hm.
    destruct (fo_planned _ _ _ _ Hfin t m Hm) as (d & _ & _ & _ & _ & _ & Hne). done.
  - intros a Hin. destruct (Ha a Hin) as [(H1 & H2 & _ & (th & H3 & H4 & H5) & _) _].
    split_and!; [done|done|by apply Hd|]. exists th. split_and!; [done|done|].
    by rewrite H5, bool_decide_eq_true.
  - done.
  - rewrite (pr_delta _ _ _ _ _ _ _ _ _ _ _ Hpr). cbn [tid_to_mask]. intros t m. by apply changed_masks_lookup.
  - apply Hpr.
Qed.

Lemma ready_plan_actions_witness :
  np_ready demo_first.1 = true ∧
  ∃ a, a ∈ np_actions demo_first.1 ∧ na_tid a = 11 ∧ na_target_mask a = [2; 3].
Proof.
  assert (np_ready demo_first.1 = true) as Hr by (by vm_compute).
  split; [exact Hr|].
  destruct (ready_plan_actions _ _ _ _ _ _ _ _ _ demo_propose_Ok Hr) as (H & Hi & _).
  destruct (H 11 [2; 3]) as [Hx|[Hx|Hx]]; [by vm_compute|by vm_compute in Hx| |exact Hx].
  destruct (Hi 11 Hx) as (_ & m & H1 & H2). vm_compute in H1, H2. congruence.
Defined.

(** C31: the merge counter of a family pair counts consecutive qualifying
    windows.  The log entry of a pair evaluated in this window holds the cross
    relation of the two families in the window's totals and, as denominator,
    the smaller of their internal relations; it qualifies exactly when both
    families reach the absolute demand and internal-relation thresholds, the
    denominator is positive and the cross relation divided by it reaches
    [domain_merge_ratio].  Its counter is then one more than before and 0
    otherwise, and the counter of every pair that was not evaluated is 0.  A
    pair is confirmed when the counter reaches
    [domain_stability_confirmations]. *)
Theorem merge_confirmation_streak h threads edges allowed o now_ns s p s'
    (Hp : propose h threads edges allowed o now_ns s = Ok (p, s')) :
  (∀ fp, fp ∈ np_family_pairs p →
     et_cross (aggregate_edges (by_tid_of threads) edges) !! fp_key fp =
       Some (fp_cross_relation fp) ∧
     (∃ l r, l ∈ np_families p ∧ r ∈ np_families p ∧
        fm_name l = fp_left fp ∧ fm_name r = fp_right fp ∧
        fp_denominator fp = dmin (fm_internal_relation l) (fm_internal_relation r) ∧
        (fp_qualifies fp = true ↔
           (family_minimum_demand o <=? fm_demand l)%D = true ∧
           (family_minimum_demand o <=? fm_demand r)%D = true ∧
           (family_minimum_internal_relation o <=? fm_internal_relation l)%D = true ∧
           (family_minimum_internal_relation o <=? fm_internal_relation r)%D = true ∧
           (d0 <? fp_denominator fp)%D = true ∧
           (domain_merge_ratio o <=? fp_cross_relation fp / fp_denominator fp)%D = true)) ∧
     get_or 0 (merge_confirmations s') (fp_key fp) = fp_confirmation fp ∧
     fp_confirmation fp =
       (if fp_qualifies fp then get_or 0 (merge_confirmations s) (fp_key fp) + 1 else 0) ∧
     (fp_confirmed fp = true ↔ domain_stability_confirmations o ≤ fp_confirmation fp)) ∧
  NoDup (fm_name <$> np_families p) ∧
  (∀ k, k ∉ fp_key <$> np_family_pairs p → get_or 0 (merge_confirmations s') k = 0).
Proof.
  apply propose_proposed in Hp as (_ & ev & acts & Hpr).
  pose proof (pr_evidence _ _ _ _ _ _ _ _ _ _ _ Hpr) as Hev.
  rewrite (pr_pairs _ _ _ _ _ _ _ _ _ _ _ Hpr), (pr_merge _ _ _ _ _ _ _ _ _ _ _ Hpr). split_and!.
  - intros fp Hfp. destruct (eo_pairs _ _ _ _ _ Hev fp Hfp)
      as (w & l & r & Hw & Hl & Hr & -> & _ & Hq & Hc & Hconf & Hden & _).
    split_and!; [done| |unfold get_or; by rewrite (eo_merge _ _ _ _ _ Hev fp Hfp)|done|].
    + destruct (listed_metric _ _ _ _ _ _ _ _ _ _ _ Hpr _ _ Hl) as (l' & Hl' & Hln & Hld & Hli & Hlt).
      destruct (listed_metric _ _ _ _ _ _ _ _ _ _ _ Hpr _ _ Hr) as (r' & Hr' & Hrn & Hrd & Hri & Hrt).
      exists l', r'. rewrite Hlt, Hrt, Hld, Hrd, Hden. split_and!; [done..|].
      rewrite Hq. unfold pair_qualifies, endpoints_eligible. cbn [fp_key fst snd].
      rewrite Hli, Hri, Hlt, Hrt, !andb_true_iff. tauto.
    + by rewrite Hconf, Z.leb_le.
  - apply (families_distinct _ _ _ _ _ _ _ _ _ _ _ Hpr).
  - intros k Hk. apply (eo_merge_rest _ _ _ _ _ Hev).
    rewrite (eo_keys _ _ _ _ _ Hev), elem_of_set_items in Hk. done.
Qed.

Lemma merge_confirmation_streak_witness :
  fp_confirmation <$> np_family_pairs demo_pair.1 = [1] ∧
  get_or 0 (merge_confirmations demo_pair.2) ("a", "b")%string = 1 ∧
  get_or 0 (merge_confirmations demo_pair.2) ("a", "c")%string = 0.
Proof.
  destruct (merge_confirmation_streak _ _ _ _ _ _ _ _ _ demo_pair_Ok) as (_ & _ & H).
  split; [by vm_compute|]. split; [by vm_compute|]. apply H.
  assert (fp_key <$> np_family_pairs demo_pair.1 = [("a", "b")%string]) as -> by (by vm_compute).
  by intros ?%list_elem_of_singleton.
Defined.

(** a family seeds a domain ([cross_seed]) exactly when one of the window's
    pairs with it is confirmed; it is pending exactly while one of its pairs
    still has grace, is not confirmed, and both families are observed; a
    family that is pending and not a seed enters no new domain: every domain
    of the proposal that holds it has the families of a committed domain. *)
Theorem pending_blocks_singleton h threads edges allowed o now_ns s p s'
    (Hinv : NoDup (owners (ds_domains s)))
    (Hp : propose h threads edges allowed o now_ns s = Ok (p, s')) :
  ∀ m, m ∈ np_families p →
    (fm_cross_seed m = true ↔
       ∃ fp, fp ∈ np_family_pairs p ∧ fp_confirmed fp = true ∧ incident (fm_name m) (fp_key fp)) ∧
    (fm_cross_pending m = true ↔
       ∃ k g, merge_pending_grace s' !! k = Some g ∧ 0 < g ∧ incident (fm_name m) k ∧
         get_or 0 (merge_confirmations s') k < domain_stability_confirmations o ∧
         (∃ t, t ∈ threads ∧ td_group t = k.1) ∧ (∃ t, t ∈ threads ∧ td_group t = k.2)) ∧
    (fm_cross_pending m = true → fm_cross_seed m = false →
       ∀ d, d ∈ np_domains p → fm_name m ∈ nd_families d →
         ∃ c, c ∈ ds_domains s ∧ nd_families d = nd_families c).
Proof.
  apply propose_proposed in Hp as (_ & ev & acts & Hpr). intros m Hm.
  pose proof (pr_evidence _ _ _ _ _ _ _ _ _ _ _ Hpr) as Hev.
  destruct (proposed_family _ _ _ _ _ _ _ _ _ _ _ Hpr m Hm) as (m0 & Hm0 & Heq).
  assert (fm_cross_seed m = fm_cross_seed m0) as Hcs by (by rewrite Heq).
  assert (fm_cross_pending m = fm_cross_pending m0) as Hcp by (by rewrite Heq).
  rewrite Hcs, Hcp, (pr_pairs _ _ _ _ _ _ _ _ _ _ _ Hpr), (pr_merge _ _ _ _ _ _ _ _ _ _ _ Hpr),
    (pr_grace _ _ _ _ _ _ _ _ _ _ _ Hpr). split_and!.
  - rewrite (eo_seed_flag _ _ _ _ _ Hev _ _ Hm0). setoid_rewrite (eo_seeds _ _ _ _ _ Hev).
    split; [intros (k & (fp & ? & <- & ?) & ?)|intros (fp & ? & ? & ?)]; eauto 10.
  - rewrite (eo_pending_flag _ _ _ _ _ Hev _ _ Hm0). by setoid_rewrite by_family_of_dom.
  - intros Hpend Hns d Hd Hf.
    destruct (proposed_domain _ _ _ _ _ _ _ _ _ _ _ Hpr d Hinv Hd) as [(d0 & _ & _ & Ha)|?]; [|done].
    exfalso. apply Ha in Hf. apply elem_of_anchors_of in Hf as (m1 & Hm1 & Hanch).
    rewrite Hm0 in Hm1. injection Hm1 as <-. cbn in Hanch. rewrite Hns, Hpend in Hanch.
    by rewrite andb_false_r in Hanch.
Qed.

Lemma pending_blocks_singleton_witness :
  length (np_families demo_pair.1) = 2%nat ∧
  ∀ m, m ∈ np_families demo_pair.1 → fm_cross_pending m = true →
    fm_cross_seed m = false → ∀ d, d ∈ np_domains demo_pair.1 → fm_name m ∈ nd_families d → False.
Proof.
  split; [by vm_compute|]. intros m Hm Hpend Hns d Hd Hf.
  assert (NoDup (owners (ds_domains NumaDomainSolver_init))) as Hnd by apply NoDup_nil_2.
  destruct (pending_blocks_singleton _ _ _ _ _ _ _ _ _ Hnd demo_pair_Ok m Hm) as (_ & _ & H).
  destruct (H Hpend Hns d Hd Hf) as (c & Hc & _). by apply elem_of_nil in Hc.
Defined.

(** C25: in every state the solver can reach through [propose], [commit],
    [discard], [reset] and [remove_thread], each family belongs to at most one
    committed domain and to at most one domain of the outstanding proposal,
    and no placed or planned thread has an empty mask. *)
Theorem reachable_single_owner s (Hr : rtc domain_step NumaDomainSolver_init s) :
  NoDup (owners (ds_domains s)) ∧
  (∀ t m, ds_placement s !! t = Some m → m ≠ []) ∧
  (∀ p, ds_outstanding s = Some p →
     NoDup (owners (np_domains p)) ∧ ∀ t m, np_planned_masks p !! t = Some m → m ≠ []).
Proof.
  destruct (solver_inv_reachable s Hr) as [Ho Hp Hout]. split_and!; [done|done|].
  intros p Hq. destruct (Hout p Hq). done.
Qed.

Lemma demo_step : domain_step NumaDomainSolver_init demo_first.2.
Proof. eapply step_propose. exact demo_propose_Ok. Qed.

Lemma reachable_single_owner_witness :
  ds_outstanding demo_first.2 = Some demo_first.1 ∧ NoDup (owners (np_domains demo_first.1)).
Proof.
  assert (ds_outstanding demo_first.2 = Some demo_first.1) as Ho by (by vm_compute).
  split; [exact Ho|].
  destruct (reachable_single_owner demo_first.2 (rtc_once _ _ demo_step)) as (_ & _ & H).
  apply (H _ Ho).
Defined.

(** committing the proposal just made records, for exactly the planned
    threads, the planned mask of every thread that was placed before, that
    inherited its mask, or whose action the actuator reports (an empty set of
    reported threads stands for all of them); every other thread is dropped.
    The proposal's domains become the committed ones and the proposal is no
    longer outstanding. *)
Theorem commit_records_plan h threads edges allowed o now_ns s p s1 now2 committed s2
    (Hinv : solver_inv s)
    (Hp : propose h threads edges allowed o now_ns s = Ok (p, s1))
    (Hc : commit p now2 committed s1 = Ok s2) :
  (∀ t m, ds_placement s2 !! t = Some m ↔
     np_planned_masks p !! t = Some m ∧
     (is_Some (ds_placement s !! t) ∨ t ∈ np_inherited_tids p ∨
      (∃ a, a ∈ np_actions p ∧ na_tid a = t) ∧ (committed = ∅ ∨ t ∈ committed))) ∧
  ds_domains s2 = np_domains p ∧ ds_outstanding s2 = None ∧
  ds_generation s2 = u64 (ds_generation s + 1).
Proof.
  apply propose_proposed in Hp as (_ & ev & acts & Hpr).
  destruct (pr_committed _ _ _ _ _ _ _ _ _ _ _ Hpr) as (Hpl & _ & _ & Hgen).
  apply commit_Ok in Hc as (_ & Ho & Hd & Hpl2 & Hg & _ & _).
  split_and!; [|done|done|by rewrite Hg, Hgen].
  pose proof (proposed_wf _ _ _ _ _ _ _ _ _ _ _ Hpr (si_owners _ Hinv)) as [_ _ Hacts].
  intros t m. rewrite Hpl2, Hpl, commit_placement_lookup by done. unfold adopted.
  pose proof (pr_released _ _ _ _ _ _ _ _ _ _ _ Hpr) as Hrel.
  destruct (np_planned_masks p !! t) as [m'|] eqn:Hm.
  - assert (t ∉ np_released_tids p) as Hnr.
    { rewrite Hrel. apply elem_of_dom_2 in Hm. set_solver. }
    naive_solver.
  - split; [|by intros [? _]]. intros [Hs Hnr]. exfalso. apply Hnr. rewrite Hrel.
    apply elem_of_difference. split; [by apply elem_of_dom_2 in Hs|by apply not_elem_of_dom].
Qed.

Definition demo_committed : NumaDomainSolver :=
  result_get NumaDomainSolver_init (commit demo_first.1 2000 {[11]} demo_first.2).
Lemma demo_committed_Ok : commit demo_first.1 2000 {[11]} demo_first.2 = Ok demo_committed.
Proof. unfold demo_committed. by vm_compute. Qed.
Lemma solver_inv_init : solver_inv NumaDomainSolver_init.
Proof. apply solver_inv_reachable. constructor. Qed.

Lemma commit_records_plan_witness :
  ds_placement demo_committed !! 11 = Some [2; 3] ∧ ds_placement demo_committed !! 12 = None.
Proof.
  destruct (commit_records_plan _ _ _ _ _ _ _ _ _ _ _ _ solver_inv_init demo_propose_Ok
    demo_committed_Ok) as (H & _).
  split; [|by vm_compute]. apply H. split; [by vm_compute|]. right; right.
  split; [|right; by apply elem_of_singleton].
  assert (na_tid <$> np_actions demo_first.1 = [11; 12]) as Ha by (by vm_compute).
  assert (11 ∈ na_tid <$> np_actions demo_first.1) as Hin by (rewrite Ha; left).
  apply list_elem_of_fmap in Hin as (a & ? & ?). eauto.
Defined.

(** dwell keeps a committed domain.  When a committed domain got complete
    evidence less than [minimum_dwell_ns] ago, still has observed threads, and
    no domain planned in this window contains all of its families, then the
    proposal keeps it with its id, families, nodes and mask, and lists exactly
    the observed threads of its families. *)
Theorem dwell_keeps_domain h threads edges allowed o now_ns s p s' ev c ts
    (Hinv : solver_inv s)
    (Hp : propose h threads edges allowed o now_ns s = Ok (p, s'))
    (Hev : gather_evidence s o threads edges = Ok ev)
    (Hc : c ∈ ds_domains s)
    (Hts : last_confirmed_domain_evidence_ns s' !! nd_id c = Some ts)
    (Hdwell : u64_sub now_ns ts < minimum_dwell_ns o)
    (Hseen : ∃ th, th ∈ threads ∧ td_group th ∈ nd_families c)
    (Hcand : ∀ d, d ∈ pl_domains (plan_domains s h o now_ns threads allowed ev) →
       covers (nd_families c) d = false) :
  ∃ d, d ∈ np_domains p ∧ nd_id d = nd_id c ∧ nd_families d = nd_families c ∧
    nd_target_nodes d = nd_target_nodes c ∧ nd_target_mask d = nd_target_mask c ∧
    ∀ t, t ∈ nd_tids d ↔ ∃ th, th ∈ threads ∧ td_tid th = t ∧ td_group th ∈ nd_families c.
Proof.
  apply propose_proposed in Hp as (_ & ev' & acts & Hpr).
  pose proof (pr_gather _ _ _ _ _ _ _ _ _ _ _ Hpr) as Hg. rewrite Hev in Hg. injection Hg as <-.
  rewrite (pr_last_evidence _ _ _ _ _ _ _ _ _ _ _ Hpr) in Hts.
  pose proof (proposed_hold h threads allowed o now_ns s ev (si_owners _ Hinv)) as Hhold.
  assert (in_dwell o now_ns threads (window_evidence h threads allowed o now_ns s ev) c) as Hdw.
  { split; [eauto|]. destruct Hseen as (th & Hth & Hf). intros Hnil.
    assert (th ∈ members_of threads (nd_families c)) as Hm by (apply elem_of_members_of; done).
    rewrite Hnil in Hm. by apply elem_of_nil in Hm. }
  destruct (hi_held _ _ _ _ _ _ _ Hhold c Hc Hdw) as [(d & Hd & Hcov)|Hheld].
  { by rewrite (Hcand d Hd) in Hcov. }
  destruct (fo_keep _ _ _ _ (proposed_final h threads allowed o now_ns s ev) _ Hheld)
    as (d & Hd & H1 & H2 & H3 & H4 & H5).
  exists (nd_set_confirmation (global_plan_confirmation s') d).
  rewrite (pr_domains _ _ _ _ _ _ _ _ _ _ _ Hpr).
  split; [by apply list_elem_of_fmap_2|]. cbn in *. split_and!; [done..|].
  intros t. rewrite H5, elem_of_std_sort, list_elem_of_fmap. setoid_rewrite elem_of_members_of.
  naive_solver.
Qed.

(** The window after [demo_committed]: every relation edge is missing. *)
Definition demo_gap : NumaDomainProposal * NumaDomainSolver :=
  result_get demo_first
    (propose demo_cpus demo_threads [] demo_allowed demo_options 3000 demo_committed).
Lemma demo_gap_Ok :
  propose demo_cpus demo_threads [] demo_allowed demo_options 3000 demo_committed =
  Ok (demo_gap.1, demo_gap.2).
Proof. unfold demo_gap. by vm_compute. Qed.
Lemma demo_committed_inv : solver_inv demo_committed.
Proof.
  apply solver_inv_reachable. eapply rtc_l; [exact demo_step|]. apply rtc_once.
  eapply step_commit; [|exact demo_committed_Ok]. by vm_compute.
Qed.

Definition demo_domain : NumaDomain :=
  match ds_domains demo_committed with d :: _ => d | [] => held_domain demo_options
    (mk_NumaDomain "" [] [] [] [] d0 [] 0 d0 d0 d0 d0 0 0 0 "" 0 true "") [] end.
Definition demo_gap_evidence : Evidence :=
  result_get (mk_Evidence (mk_EdgeTotals d0 ∅ ∅ ∅) ∅ ∅ (mk_PairState ∅ ∅ ∅ [] ∅ ∅ []) ∅)
    (gather_evidence demo_committed demo_options demo_threads []).

Lemma dwell_keeps_domain_witness :
  nd_id demo_domain = "a"%string ∧
  ∃ d, d ∈ np_domains demo_gap.1 ∧ nd_id d = "a"%string ∧ nd_target_mask d = [2; 3].
Proof.
  split; [by vm_compute|].
  assert (gather_evidence demo_committed demo_options demo_threads [] = Ok demo_gap_evidence) as Hev
    by (by vm_compute).
  assert (ds_domains demo_committed = [demo_domain]) as Hds by (by vm_compute).
  destruct (dwell_keeps_domain _ _ _ _ _ _ _ _ _ demo_gap_evidence demo_domain 2000
    demo_committed_inv demo_gap_Ok Hev) as (d & Hd & H1 & _ & _ & H4 & _).
  - rewrite Hds. left.
  - by vm_compute.
  - by vm_compute.
  - exists (demo_thread 11 0 "a" d1). split; [left|]. vm_compute. left.
  - assert (pl_domains (plan_domains demo_committed demo_cpus demo_options 3000 demo_threads
      demo_allowed demo_gap_evidence) = []) as -> by (by vm_compute).
    intros d Hd. apply elem_of_nil in Hd. destruct Hd.
  - exists d. split; [exact Hd|]. rewrite H1, H4. split; vm_compute; reflexivity.
Defined.

(** Two committed joint domains; then one of them is extended by a family of
    the other one. *)
Definition clash_cpus : HardwareGraph :=
  mk_HardwareGraph [mk_Cpu 0 0 true; mk_Cpu 1 0 true; mk_Cpu 2 0 true; mk_Cpu 3 0 true;
                    mk_Cpu 4 1 true; mk_Cpu 5 1 true; mk_Cpu 6 1 true; mk_Cpu 7 1 true] ∅
    {[ (0, 0) := d1; (0, 1) := double_of_Z 2; (1, 0) := double_of_Z 2; (1, 1) := d1 ]} ∅.
Definition clash_threads : list ThreadDemand :=
  [demo_thread 11 0 "a" (dlit 1 2); demo_thread 12 0 "a" (dlit 1 2);
   demo_thread 21 1 "b" (dlit 1 2); demo_thread 22 1 "b" (dlit 1 2);
   demo_thread 31 4 "x" (dlit 1 2); demo_thread 32 4 "x" (dlit 1 2);
   demo_thread 41 5 "y" (dlit 1 2); demo_thread 42 5 "y" (dlit 1 2)].
Definition clash_internal : list RelationEdge :=
  [demo_edge 11 12 (double_of_Z 4); demo_edge 21 22 (double_of_Z 4);
   demo_edge 31 32 (double_of_Z 4); demo_edge 41 42 (double_of_Z 4); demo_edge 11 21 (double_of_Z 2)].
Definition clash_run : result (NumaDomainProposal * NumaDomainProposal * NumaDomainSolver) :=
  '(p1, s1) ← propose clash_cpus clash_threads (demo_edge 31 41 (double_of_Z 2) :: clash_internal)
      ∅ demo_options 1000 NumaDomainSolver_init;
  s2 ← commit p1 2000 ∅ s1;
  '(p2, s3) ← propose clash_cpus clash_threads (demo_edge 11 31 (double_of_Z 2) :: clash_internal)
      ∅ demo_options 3000 s2;
  Ok (p1, p2, s3).
Definition clash_default := (demo_first.1, demo_first.1, demo_first.2).
Definition clash := result_get clash_default clash_run.

(** the dwell can drop a committed domain.  After the domains {a,b} and
    {x,y} are committed, a window in which x is confirmed with a but not with
    y plans {a,b,x}: it covers {a,b}, which is therefore not held, and is then
    erased because it overlaps the held {x,y}.  The ready proposal releases
    the threads of a and b one microsecond after their evidence was refreshed,
    although the dwell is five minutes. *)
Theorem dwell_drops_covered_domain :
  is_ok clash_run = true ∧
  nd_families <$> np_domains clash.1.1 = [["a"; "b"]; ["x"; "y"]]%string ∧
  np_ready clash.1.1 = true ∧
  nd_families <$> np_domains clash.1.2 = [["x"; "y"]]%string ∧
  np_ready clash.1.2 = true ∧ set_items (np_released_tids clash.1.2) = [11; 12; 21; 22] ∧
  last_confirmed_domain_evidence_ns clash.2 !! "a+b"%string = Some 3000 ∧
  minimum_dwell_ns demo_options = 300000000000.
Proof. by vm_compute. Qed.

(** [commit] records the new mask of a thread that was already placed even
    when the actuator did not report its move: with only thread 99 reported,
    the placement of thread 11 changes from its old to its new mask. *)
Theorem commit_records_unreported_move :
  let s := mk_NumaDomainSolver 1 0 ∅ ∅ ∅ 0 ∅ ∅ ∅ ∅ ∅ {[ 11 := [0; 1] ]} [] [] "" None in
  ∃ p1 s1 s2,
    propose demo_cpus demo_threads demo_edges demo_allowed demo_options 1000 s = Ok (p1, s1) ∧
    (na_tid <$> np_actions p1) = [11; 12] ∧
    commit p1 2000 {[99]} s1 = Ok s2 ∧
    ds_placement s !! 11 = Some [0; 1] ∧ ds_placement s2 !! 11 = Some [2; 3].
Proof. do 3 eexists. split; [by vm_compute|]. by vm_compute. Qed.

(** C32: in a valid plan, a valid domain has at most
    [maximum_threads_per_domain] threads and its tid list is the sorted list
    of the observed threads of its families; unless the dwell holds it, its
    mask is the complete mask of its target nodes, every one of its threads
    keeps a non-empty intersection with its allowed mask, and when its nodes
    were just chosen ([initial], [expanded], [shrunk]) their capacity covers
    the domain's demand up to 1e-12. *)
Theorem valid_plan_fits h threads edges allowed o now_ns s p s' d
    (Hinv : solver_inv s)
    (Hp : propose h threads edges allowed o now_ns s = Ok (p, s'))
    (Hvalid : np_valid p = true) (Hd : d ∈ np_domains p) (Hvd : nd_valid d = true) :
  Zsize (nd_tids d) ≤ maximum_threads_per_domain o ∧
  nd_tids d = std_sort Z.ltb (td_tid <$> members_of threads (nd_families d)) ∧
  (nd_node_decision d ≠ "held_domain_dwell"%string →
     nd_target_mask d = mask_for_nodes h (nd_target_nodes d) ∧
     (∀ t, t ∈ nd_tids d → effective_mask allowed (nd_target_mask d) t ≠ []) ∧
     (nd_node_decision d ∈ ["initial"; "expanded"; "shrunk"]%string →
        ((nd_capacity_headroom d + d1em12)%D <? d0)%D = false)).
Proof.
  apply propose_proposed in Hp as (_ & ev & acts & Hpr).
  rewrite (pr_valid _ _ _ _ _ _ _ _ _ _ _ Hpr) in Hvalid.
  destruct (fo_valid _ _ _ _ (proposed_final h threads allowed o now_ns s ev) Hvalid) as [Hperm _].
  rewrite (pr_domains _ _ _ _ _ _ _ _ _ _ _ Hpr) in Hd.
  apply list_elem_of_fmap in Hd as (d0 & -> & Hd0). rewrite Hperm in Hd0. cbn in Hvd |- *.
  destruct (hi_from _ _ _ _ _ _ _ (proposed_hold h threads allowed o now_ns s ev (si_owners _ Hinv))
    d0 Hd0) as [Hc|(c & _ & _ & ->)].
  - destruct (plan_domains_ok s h o now_ns threads allowed ev) as [_ Hok].
    destruct (Hok d0 Hc) as [_ Ht Hm Hs Hms Hfit _]. split_and!; [by apply Hs|done|].
    intros _. split_and!; [done|by apply Hms|by apply Hfit].
  - cbn in Hvd |- *. destruct (Z.ltb_spec (maximum_threads_per_domain o)
      (Zsize (std_sort Z.ltb (td_tid <$> members_of threads (nd_families c))))) as [|Hle]; [done|].
    split_and!; [done|done|done].
Qed.

Lemma valid_plan_fits_witness :
  ∃ d, d ∈ np_domains demo_first.1 ∧ nd_node_decision d = "initial"%string ∧
    ((nd_capacity_headroom d + d1em12)%D <? d0)%D = false.
Proof.
  assert (∃ d, np_domains demo_first.1 = [d] ∧ nd_valid d = true ∧
    nd_node_decision d = "initial"%string) as (d & Hds & Hv & Hdec).
  { eexists. split; [vm_compute; reflexivity|]. split; reflexivity. }
  assert (d ∈ np_domains demo_first.1) as Hd by (rewrite Hds; left).
  destruct (valid_plan_fits _ _ _ _ _ _ _ _ _ d solver_inv_init demo_propose_Ok
    ltac:(vm_compute; reflexivity) Hd Hv) as (_ & _ & H).
  exists d. split; [exact Hd|]. split; [exact Hdec|].
  apply H; rewrite Hdec; [discriminate|left].
Defined.

(** a domain that has nodes changes them only after a confirmed expansion
    or shrink.  If the lifecycle adopts nodes other than the previous ones,
    then either more nodes are required, utilization exceeds [expand_ratio]
    and the expand counter (one more than before) reached its threshold, or
    fewer nodes are required, utilization is below [shrink_ratio], the last
    change is at least [minimum_dwell_ns] old and the shrink counter reached
    its threshold.  A window that does not ask for the change resets the
    counter to 0. *)
Theorem node_change_confirmed h o now_ns nodes_map id demand required previous
    expands shrinks changed
    (Hprev : nodes_map !! id = Some previous) (Hne : previous ≠ []) :
  let lc := node_lifecycle h o now_ns nodes_map id true demand required expands shrinks changed in
  let mask := mask_for_nodes h previous in
  let utilization := if decide (mask = []) then d1 else (demand / double_of_nat (length mask))%D in
  let expand := (length previous < length required)%nat ∧ (expand_ratio o <? utilization)%D = true in
  let shrink := (length required < length previous)%nat ∧ (utilization <? shrink_ratio o)%D = true ∧
    minimum_dwell_ns o ≤ u64_sub now_ns (get_or 0 changed id) in
  (lc_required lc ≠ previous →
     lc_required lc = required ∧
     (expand ∧ opt_expand_confirmations o ≤ get_or 0 expands id + 1 ∨
      shrink ∧ opt_shrink_confirmations o ≤ get_or 0 shrinks id + 1)) ∧
  (expand → get_or 0 (lc_expand lc) id = get_or 0 expands id + 1) ∧
  (¬ expand → get_or 0 (lc_expand lc) id = 0) ∧
  (shrink → get_or 0 (lc_shrink lc) id = get_or 0 shrinks id + 1) ∧
  (¬ shrink → get_or 0 (lc_shrink lc) id = 0).
Proof.
  cbv zeta. unfold node_lifecycle. rewrite Hprev, bool_decide_eq_false_2 by done. cbn [negb andb].
  rewrite decide_bool_decide. set (util := if bool_decide (mask_for_nodes h previous = []) then _ else _).
  assert (∀ c, get_or 0 (touch id 0 c) id = get_or 0 c id) as Htouch by (intros; apply get_or_touch).
  set (ex := (length previous <? length required)%nat && (expand_ratio o <? util)%D).
  set (may := (length required <? length previous)%nat && (util <? shrink_ratio o)%D).
  assert (get_or 0 (if may then touch id 0 changed else changed) id = get_or 0 changed id) as ->
    by (destruct may; [apply Htouch|done]).
  set (sh := may && (minimum_dwell_ns o <=? u64_sub now_ns (get_or 0 changed id))).
  assert (ex = true ↔ (length previous < length required)%nat ∧ (expand_ratio o <? util)%D = true) as Hex.
  { unfold ex. by rewrite andb_true_iff, Nat.ltb_lt. }
  assert (sh = true ↔ (length required < length previous)%nat ∧ (util <? shrink_ratio o)%D = true ∧
    minimum_dwell_ns o ≤ u64_sub now_ns (get_or 0 changed id)) as Hsh.
  { unfold sh, may. rewrite !andb_true_iff, Nat.ltb_lt, Z.leb_le. tauto. }
  rewrite <-Hex, <-Hsh.
  assert (∀ x m, get_or 0 (<[id := x]> m) id = x) as Hget
    by (intros; unfold get_or; by rewrite lookup_insert_eq).
  rewrite !Hget. clearbody ex sh. destruct ex, sh; cbn [andb]; repeat case_step; cbn;
    rewrite ?Hget; bool_hyps; naive_solver.
Qed.

Definition demo_nodes : gmap string (list Z) := {["a" := [0]]}.

Lemma node_change_confirmed_witness :
  lc_required (node_lifecycle demo_cpus demo_options 5000 demo_nodes "a" true (double_of_Z 2) [0; 1]
    {["a" := 2]} ∅ ∅) = [0; 1] ∧
  opt_expand_confirmations demo_options ≤ get_or 0 ({["a" := 2]} : gmap string Z) "a"%string + 1.
Proof.
  split; [by vm_compute|].
  assert (demo_nodes !! "a"%string = Some [0]) as Hprev by (by vm_compute).
  destruct (node_change_confirmed demo_cpus demo_options 5000 demo_nodes "a" (double_of_Z 2) [0; 1] [0]
    {["a" := 2]} ∅ ∅ Hprev ltac:(discriminate)) as (H & _).
  destruct H as (_ & [[_ H]|[[Hlen _] _]]); [by vm_compute|exact H|cbn in Hlen; lia].
Defined.

(** ** A run with the signatures of its proposals, newest first *)
Inductive domain_history : NumaDomainSolver → list string → Prop :=
  | history_init : domain_history NumaDomainSolver_init []
  | history_propose h threads edges allowed o now_ns s p s' sigs :
      domain_history s sigs → propose h threads edges allowed o now_ns s = Ok (p, s') →
      domain_history s' (plan_signature (np_domains p) :: sigs)
  | history_commit p now_ns committed s s' sigs :
      domain_history s sigs → commit p now_ns committed s = Ok s' → domain_history s' sigs
  | history_discard p s sigs : domain_history s sigs → domain_history (discard p s) sigs
  | history_remove t s sigs : domain_history s sigs → domain_history (remove_thread t s) sigs
  | history_reset s sigs : domain_history s sigs → domain_history (reset s) [].

(** The counter never exceeds the streak of equal signatures. *)
Lemma history_streak s sigs :
  domain_history s sigs →
  0 ≤ global_plan_confirmation s ∧
  (Z.to_nat (global_plan_confirmation s) ≤ length sigs)%nat ∧
  take (Z.to_nat (global_plan_confirmation s)) sigs =
    replicate (Z.to_nat (global_plan_confirmation s)) (pending_signature s).
Proof.
  induction 1 as [|h th ed al o now s p s' sigs _ (IH0 & IHl & IHs) Hp|p now c s s' sigs _ IH Hc|
    p s sigs _ IH|t s sigs _ IH|s sigs _ IH]; [done| | | |done|done].
  - apply propose_proposed in Hp as (_ & ev & acts & Hpr).
    rewrite (pr_confirmation _ _ _ _ _ _ _ _ _ _ _ Hpr), (pr_signature _ _ _ _ _ _ _ _ _ _ _ Hpr).
    case_decide as Heq; [|cbn; split_and!; [lia|lia|done]].
    replace (Z.to_nat (global_plan_confirmation s + 1))
      with (S (Z.to_nat (global_plan_confirmation s))) by lia.
    cbn [take replicate length]. rewrite IHs, Heq. split_and!; [lia|lia|done].
  - apply commit_Ok in Hc as (_ & _ & _ & _ & _ & -> & ->). done.
  - unfold discard. destruct (ds_outstanding s); [|done]. by destruct (_ =? _).
Qed.

(** a ready plan with domains is the last of at least
    [plan_confirmations] consecutive proposals with the same domain/node
    signature, whatever commits, discards and thread removals happened between
    them. *)
Theorem ready_plan_streak h threads edges allowed o now_ns s sigs p s'
    (Hh : domain_history s sigs)
    (Hp : propose h threads edges allowed o now_ns s = Ok (p, s'))
    (Hr : np_ready p = true) (Hd : np_domains p ≠ []) :
  let n := Z.to_nat (plan_confirmations o) in
  let sig := plan_signature (np_domains p) in
  (n ≤ length (sig :: sigs))%nat ∧ take n (sig :: sigs) = replicate n sig.
Proof.
  cbv zeta. pose proof (history_propose _ _ _ _ _ _ _ _ _ _ Hh Hp) as Hh'.
  apply history_streak in Hh' as (H0 & Hl & Hs).
  apply propose_proposed in Hp as (_ & ev & acts & Hpr).
  rewrite (pr_signature _ _ _ _ _ _ _ _ _ _ _ Hpr) in Hs.
  apply (pr_ready _ _ _ _ _ _ _ _ _ _ _ Hpr) in Hr as [_ [[_ Hc]|[? _]]]; [|done].
  assert (Z.to_nat (plan_confirmations o) ≤ Z.to_nat (global_plan_confirmation s'))%nat as Hle by lia.
  split; [lia|]. rewrite <-(Nat.min_l _ _ Hle), <-take_take, Hs, take_replicate. done.
Qed.

Lemma ready_plan_streak_witness :
  take 1 [plan_signature (np_domains demo_first.1)] =
    replicate 1 (plan_signature (np_domains demo_first.1)).
Proof.
  destruct (ready_plan_streak _ _ _ _ _ _ _ _ _ _ history_init demo_propose_Ok
    ltac:(vm_compute; reflexivity) ltac:(vm_compute; discriminate)) as [_ H].
  exact H.
Defined.

(** the proposal protocol: after [propose] the solver refuses another
    proposal and a commit of any other id until the proposal is committed or
    discarded; discarding another id changes nothing; discarding the
    outstanding one, like a failed commit, keeps placement and domains. *)
Theorem proposal_protocol h threads edges allowed o now_ns s p s'
    (Hp : propose h threads edges allowed o now_ns s = Ok (p, s')) :
  (∀ h2 th2 ed2 al2 o2 now2, propose h2 th2 ed2 al2 o2 now2 s' =
     Throw (logic_error "outstanding NUMA domain proposal")) ∧
  (∀ q now2 c, np_id q ≠ np_id p → commit q now2 c s' =
     Throw (logic_error "NUMA domain proposal is not outstanding")) ∧
  (∀ q, np_id q ≠ np_id p → discard q s' = s') ∧
  (∀ now2 c, ∃ s2, commit p now2 c s' = Ok s2 ∧ ds_outstanding s2 = None) ∧
  ds_outstanding (discard p s') = None ∧
  ds_placement (discard p s') = ds_placement s ∧ ds_domains (discard p s') = ds_domains s ∧
  (∀ q now2 c, commit q now2 c (discard p s') =
     Throw (logic_error "NUMA domain proposal is not outstanding")).
Proof.
  apply propose_proposed in Hp as (_ & ev & acts & Hpr).
  pose proof (pr_outstanding _ _ _ _ _ _ _ _ _ _ _ Hpr) as Ho.
  destruct (pr_committed _ _ _ _ _ _ _ _ _ _ _ Hpr) as (Hpl & Hd & _).
  assert (discard p s' = set_outstanding None s') as Hdis.
  { unfold discard. by rewrite Ho, Z.eqb_refl. }
  rewrite Hdis. split_and!; [| | | |done|done|done|done].
  - intros. unfold propose. by rewrite Ho.
  - intros q now2 c Hq. unfold commit. rewrite Ho.
    by rewrite (proj2 (Z.eqb_neq (np_id p) (np_id q)) (not_eq_sym Hq)).
  - intros q Hq. unfold discard. rewrite Ho.
    by rewrite (proj2 (Z.eqb_neq (np_id p) (np_id q)) (not_eq_sym Hq)).
  - intros now2 c. destruct (commit p now2 c s') as [s2|e] eqn:Hc.
    + exists s2. split; [done|]. by apply commit_Ok in Hc as (_ & ? & _).
    + exfalso. revert Hc. unfold commit. rewrite Ho, Z.eqb_refl. cbn.
      by destruct (foldl _ _ _) as [[? ?] ?].
Qed.

Lemma proposal_protocol_witness :
  discard demo_gap.1 demo_first.2 = demo_first.2 ∧ ds_outstanding (discard demo_first.1 demo_first.2) = None.
Proof.
  destruct (proposal_protocol _ _ _ _ _ _ _ _ _ demo_propose_Ok) as (_ & _ & H & _ & H' & _).
  split; [|exact H']. apply H. vm_compute. discriminate.
Defined.
