(* ===== verification/GraphWindow.v ===== *)
(** * The sliding evidence window ([src/graph.cpp], class [GraphWindow])

    Thread histories, relation histories with their running aggregates, the
    derived demands and relation edges with their caches, the placement-family
    name, and the incremental delta.  The C library's [log1p] is a parameter. *)
From Stdlib Require Import Ascii.
From S2P Require Import Prelude Binary64 Core CpuList.
Local Open Scope Z_scope.

(** ** Family names: [normalize_group] *)

(** A suffix of the form [([_-]?[0-9]+)+]: digits, each separator directly
    before a digit. *)
Fixpoint index_chars (l : list ascii) : bool :=
  match l with
  | [] => true
  | c :: l' =>
      if isdigit c then index_chars l'
      else bool_decide (c = "_"%char ∨ c = "-"%char) &&
           match l' with [] => false | d :: _ => isdigit d && index_chars l' end
  end.
Definition index_suffix (l : list ascii) : bool := negb (bool_decide (l = [])) && index_chars l.

(** [\[[^\]]*\]?$] after the opening bracket. *)
Fixpoint bracket_tail (l : list ascii) : bool :=
  match l with
  | [] => true
  | c :: l' => if bool_decide (c = "]"%char) then bool_decide (l' = []) else bracket_tail l'
  end.

(** [\s+\[[^\]]*\]?$] *)
Definition bracket_suffix (l : list ascii) : bool :=
  match l with
  | c :: l' => isspace c &&
      match drop_spaces l' with
      | d :: t => bool_decide (d = "["%char) && bracket_tail t
      | [] => false
      end
  | [] => false
  end.

(** [regex_replace] with a pattern anchored at the end of the text: the
    leftmost suffix that matches is erased. *)
Fixpoint erase_suffix (p : list ascii → bool) (l : list ascii) : list ascii :=
  if p l then [] else match l with [] => [] | c :: l' => c :: erase_suffix p l' end.

Definition normalized_name (comm : list ascii) : list ascii :=
  let n := erase_suffix index_suffix (erase_suffix bracket_suffix comm) in
  if bool_decide (n = []) then chars "unnamed" else n.

Definition normalize_group (comm : string) (start_routine : Z) (start_symbol : string) : string :=
  let routine := if bool_decide (start_symbol = "") then print_int start_routine
                 else chars start_symbol in
  String.string_of_list_ascii (normalized_name (chars comm) ++ "@"%char :: routine).

(** ** State *)
Record Calibration := mk_Calibration {
  activity_log_p95 : double;
  sync_log_p95 : double;
  share_log_p95 : double;
}.

Record RelationAggregate := mk_RelationAggregate {
  ra_count : Z;
  forward_sync : double;
  reverse_sync : double;
  ra_handoff : double;
  ra_share : double;
  ra_overlap : double;
  ra_total : double;
  ra_total_squared : double;
}.
Definition RelationAggregate_init : RelationAggregate := mk_RelationAggregate 0 d0 d0 d0 d0 d0 d0 d0.

Abbreviation tid_pair := (Z * Z)%type.

Record GraphWindow := mk_GraphWindow {
  horizon_seconds : Z;
  gw_calibration : Calibration;
  gw_threads : gmap Z (list ThreadSample);
  relation_histories : gmap tid_pair (list RelationObservation);
  relation_aggregates : gmap tid_pair RelationAggregate;
  demand_cache : option (list ThreadDemand);
  edge_cache : option (list RelationEdge);
  emitted_demands : gmap Z ThreadDemand;
  emitted_edges : gmap tid_pair RelationEdge;
}.

(** A cache together with its validity flag: [None] when the flag is off. *)
Definition GraphWindow_init (horizon : Z) (c : Calibration) : GraphWindow :=
  mk_GraphWindow horizon c ∅ ∅ ∅ None None ∅ ∅.

(** ** [observe_threads] *)
Definition pair_has (t : Z) (k : tid_pair) : bool := (k.1 =? t) || (k.2 =? t).

Record SampleState := mk_SampleState {
  ss_newest : Z;
  ss_threads : gmap Z (list ThreadSample);
  ss_histories : gmap tid_pair (list RelationObservation);
  ss_aggregates : gmap tid_pair RelationAggregate;
}.

(** [!history.empty() && history.back().identity.starttime != …] *)
Definition tid_reused (history : list ThreadSample) (x : ThreadSample) : bool :=
  match last history with
  | Some y => negb (starttime (ts_identity y) =? starttime (ts_identity x))
  | None => false
  end.

(** The relations the loop over [relation_histories_] erases. *)
Definition doomed_relation (reused : bool) (t : Z)
    (histories : gmap tid_pair (list RelationObservation)) (k : tid_pair) : bool :=
  reused && pair_has t k && bool_decide (is_Some (histories !! k)).

(** A changed start time means that the kernel reused the TID: its history and
    every relation with it are dropped. *)
Definition add_sample (st : SampleState) (x : ThreadSample) : SampleState :=
  let t := tid (ts_identity x) in
  let history := get_or [] (ss_threads st) t in
  let reused := tid_reused history x in
  let doomed := doomed_relation reused t (ss_histories st) in
  mk_SampleState (Z.max (ss_newest st) (ts_timestamp_ns x))
    (<[t := (if reused then [] else history) ++ [x]]> (ss_threads st))
    (filter (λ e, doomed e.1 = false) (ss_histories st))
    (filter (λ e, doomed e.1 = false) (ss_aggregates st)).

Fixpoint drop_samples (cutoff : Z) (l : list ThreadSample) : list ThreadSample :=
  match l with
  | x :: l' => if ts_timestamp_ns x <? cutoff then drop_samples cutoff l' else l
  | [] => []
  end.

Definition ro_total (x : RelationObservation) : double :=
  (ro_futex_per_second x + ro_shared_vfs_seconds x)%D.

(** The update of an aggregate by one observation, adding or removing it. *)
Definition sub_observation (k : tid_pair) (a : RelationAggregate) (x : RelationObservation) :
    RelationAggregate :=
  let forward := ro_from_tid x =? k.1 in
  mk_RelationAggregate (u64 (ra_count a - 1))
    (if forward then (forward_sync a - ro_futex_per_second x)%D else forward_sync a)
    (if forward then reverse_sync a else (reverse_sync a - ro_futex_per_second x)%D)
    (ra_handoff a - ro_futex_per_second x)%D (ra_share a - ro_shared_vfs_seconds x)%D
    (ra_overlap a - ro_active_overlap x)%D (ra_total a - ro_total x)%D
    (ra_total_squared a - ro_total x * ro_total x)%D.

Definition add_observation (k : tid_pair) (a : RelationAggregate) (x : RelationObservation) :
    RelationAggregate :=
  let forward := ro_from_tid x =? k.1 in
  mk_RelationAggregate (u64 (ra_count a + 1))
    (if forward then (forward_sync a + ro_futex_per_second x)%D else forward_sync a)
    (if forward then reverse_sync a else (reverse_sync a + ro_futex_per_second x)%D)
    (ra_handoff a + ro_futex_per_second x)%D (ra_share a + ro_shared_vfs_seconds x)%D
    (ra_overlap a + ro_active_overlap x)%D (ra_total a + ro_total x)%D
    (ra_total_squared a + ro_total x * ro_total x)%D.

Fixpoint drop_observations (cutoff : Z) (k : tid_pair) (l : list RelationObservation)
    (a : RelationAggregate) : list RelationObservation * RelationAggregate :=
  match l with
  | x :: l' => if ro_timestamp_ns x <? cutoff
               then drop_observations cutoff k l' (sub_observation k a x) else (l, a)
  | [] => ([], a)
  end.

(** One entry of the relation loop; [.at] throws when the aggregate is missing. *)
Definition expire_relation (cutoff : Z)
    (acc : gmap tid_pair (list RelationObservation) * gmap tid_pair RelationAggregate)
    (e : tid_pair * list RelationObservation) :
    result (gmap tid_pair (list RelationObservation) * gmap tid_pair RelationAggregate) :=
  let '(histories, aggregates) := acc in
  match aggregates !! e.1 with
  | None => Throw (out_of_range "map::at")
  | Some a =>
      let '(l, a') := drop_observations cutoff e.1 e.2 a in
      if bool_decide (l = []) then Ok (delete e.1 histories, delete e.1 aggregates)
      else Ok (<[e.1 := l]> histories, <[e.1 := a']> aggregates)
  end.

Definition window_cutoff (horizon newest : Z) : Z :=
  let span := u64 (u64 horizon * 1000000000) in
  if span <? newest then newest - span else 0.

Definition observe_threads (samples : list ThreadSample) (g : GraphWindow) : result GraphWindow :=
  let st := foldl add_sample
    (mk_SampleState 0 (gw_threads g) (relation_histories g) (relation_aggregates g)) samples in
  let cutoff := window_cutoff (horizon_seconds g) (ss_newest st) in
  let threads := omap (λ l, let l' := drop_samples cutoff l in
                            if bool_decide (l' = []) then None else Some l') (ss_threads st) in
  '(histories, aggregates) ←
    foldlM (expire_relation cutoff) (ss_histories st, ss_aggregates st) (items (ss_histories st));
  Ok (mk_GraphWindow (horizon_seconds g) (gw_calibration g) threads histories aggregates None None
        (emitted_demands g) (emitted_edges g)).

(** ** [observe_relation], [retain_relations] *)
Definition observe_relation (x : RelationObservation) (g : GraphWindow) : GraphWindow :=
  let k := edge_key (ro_from_tid x) (ro_to_tid x) in
  if k.1 =? k.2 then g else
  mk_GraphWindow (horizon_seconds g) (gw_calibration g) (gw_threads g)
    (<[k := get_or [] (relation_histories g) k ++ [x]]> (relation_histories g))
    (<[k := add_observation k (get_or RelationAggregate_init (relation_aggregates g) k) x]>
       (relation_aggregates g))
    (demand_cache g) None (emitted_demands g) (emitted_edges g).

Definition retain_relations (relations : gset tid_pair) (g : GraphWindow) : GraphWindow :=
  let dropped := dom (relation_histories g) ∖ relations in
  let keep k := bool_decide (k ∉ dropped) in
  mk_GraphWindow (horizon_seconds g) (gw_calibration g) (gw_threads g)
    (filter (λ e, keep e.1 = true) (relation_histories g))
    (filter (λ e, keep e.1 = true) (relation_aggregates g))
    (demand_cache g) (if bool_decide (dropped = ∅) then edge_cache g else None)
    (emitted_demands g) (emitted_edges g).

(** ** [demands] *)

(** The pressure of two consecutive samples, when the counters did not go back. *)
Definition pressure_of (a b : ThreadSample) : option double :=
  if (ts_timestamp_ns b <=? ts_timestamp_ns a) || (ts_runtime_ns b <? ts_runtime_ns a) ||
     (ts_runqueue_ns b <? ts_runqueue_ns a) then None
  else
    let busy := u64 (u64_sub (ts_runtime_ns b) (ts_runtime_ns a) +
                     u64_sub (ts_runqueue_ns b) (ts_runqueue_ns a)) in
    let wall := u64_sub (ts_timestamp_ns b) (ts_timestamp_ns a) in
    Some (dclamp (double_of_Z busy / double_of_Z wall)%D d0 d1).

Fixpoint pressures (history : list ThreadSample) : list double :=
  match history with
  | a :: ((b :: _) as rest) =>
      match pressure_of a b with Some v => v :: pressures rest | None => pressures rest end
  | _ => []
  end.

Definition ewma_step (e v : double) : double := (dlit 645 10000 * v + dlit 9355 10000 * e)%D.
Definition ewma (pressure : list double) : double :=
  match pressure with [] => d0 | v :: vs => foldl ewma_step v vs end.

Definition demand_of (horizon : Z) (history : list ThreadSample) : option ThreadDemand :=
  match last history with
  | None => None
  | Some x =>
      let pressure := pressures history in
      let coverage := dmin d1 (double_of_nat (length pressure) / double_of_Z (Z.max 1 (horizon - 1)))%D in
      Some (mk_ThreadDemand (ts_identity x)
              (normalize_group (ts_comm x) (ts_start_routine x) (ts_start_symbol x))
              (ewma pressure) coverage (ts_recent_cpu x))
  end.

Definition compute_demands (g : GraphWindow) : list ThreadDemand :=
  std_sort (λ a b, td_tid a <? td_tid b)
    (omap (λ e : Z * list ThreadSample, demand_of (horizon_seconds g) e.2) (items (gw_threads g))).

Definition with_demand_cache (g : GraphWindow) (c : list ThreadDemand) : GraphWindow :=
  mk_GraphWindow (horizon_seconds g) (gw_calibration g) (gw_threads g) (relation_histories g)
    (relation_aggregates g) (Some c) (edge_cache g) (emitted_demands g) (emitted_edges g).

Definition demands (g : GraphWindow) : list ThreadDemand * GraphWindow :=
  match demand_cache g with
  | Some c => (c, g)
  | None => let r := compute_demands g in (r, with_demand_cache g r)
  end.

(** ** [thread_records] *)
Definition counter_delta (a b : Z) : Z := if a <=? b then b - a else 0.

Definition window_record (d : ThreadDemand) (history : list ThreadSample) : option ThreadWindowRecord :=
  match head history, last history with
  | Some a, Some b =>
      Some (mk_ThreadWindowRecord (ts_identity b) (ts_comm b) (ts_parent_tid b)
              (ts_start_routine b) (ts_start_symbol b) (td_group d) (td_demand d) (td_confidence d)
              (ts_recent_cpu b) (ts_allowed_cpus b) (ts_state b) (Zsize history)
              (counter_delta (ts_runtime_ns a) (ts_runtime_ns b))
              (counter_delta (ts_runqueue_ns a) (ts_runqueue_ns b))
              (counter_delta (ts_voluntary_switches a) (ts_voluntary_switches b))
              (counter_delta (ts_involuntary_switches a) (ts_involuntary_switches b)))
  | _, _ => None
  end.

(** [emplace]: the first demand of a TID stays. *)
Definition demand_by_tid (ds : list ThreadDemand) : gmap Z ThreadDemand :=
  foldl (λ m d, match m !! td_tid d with Some _ => m | None => <[td_tid d := d]> m end) ∅ ds.

Definition add_record (ds : gmap Z ThreadDemand) (acc : list ThreadWindowRecord)
    (e : Z * list ThreadSample) : result (list ThreadWindowRecord) :=
  if bool_decide (e.2 = []) then Ok acc else
  match ds !! e.1 with
  | None => Throw (out_of_range "unordered_map::at")
  | Some d => match window_record d e.2 with Some r => Ok (acc ++ [r]) | None => Ok acc end
  end.

Definition thread_records (g : GraphWindow) : result (list ThreadWindowRecord * GraphWindow) :=
  let '(ds, g) := demands g in
  rs ← foldlM (add_record (demand_by_tid ds)) [] (items (gw_threads g));
  Ok (std_sort (λ a b, tid (twr_identity a) <? tid (twr_identity b)) rs, g).

(** ** [edges] *)
Section edges.
Context (log1p : double → double).

Definition normalized (value scale : double) : double :=
  dmin (log1p (dmax d0 value) / scale)%D d1.

Definition edge_of (g : GraphWindow) (demand : gmap Z double) (k : tid_pair)
    (a : RelationAggregate) : option RelationEdge :=
  match demand !! k.1, demand !! k.2 with
  | Some x, Some y =>
      if ra_count a =? 0 then None else
      let cal := gw_calibration g in
      let count := double_of_Z (ra_count a) in
      let sync := (dmax (forward_sync a) (reverse_sync a) / count)%D in
      let share := (ra_share a / count)%D in
      let overlap := (ra_overlap a / count)%D in
      let activity := normalized (dsqrt (x * y)%D) (activity_log_p95 cal) in
      let coverage := dmin d1 (count / double_of_Z (horizon_seconds g))%D in
      let mean := (ra_total a / count)%D in
      let variance := if (ra_count a <? 2) || (mean <=? d0)%D then d0
        else dmax d0 ((ra_total_squared a - count * mean * mean) / (count - d1))%D in
      let cv := if (d0 <? mean)%D then (dsqrt variance / mean)%D else d0 in
      let stability := (coverage / (d1 + cv))%D in
      let sync_n := normalized sync (sync_log_p95 cal) in
      let share_n := (normalized share (share_log_p95 cal) * dclamp overlap d0 d1)%D in
      let score := (double_of_Z 100 * activity * stability *
                    (dlit 7 10 * sync_n + dlit 3 10 * share_n))%D in
      Some (mk_RelationEdge k.1 k.2 activity sync_n share_n stability score
              (ra_handoff a / count)%D share overlap (ra_count a) coverage cv)
  | _, _ => None
  end.

Definition demand_map (ds : list ThreadDemand) : gmap Z double :=
  foldl (λ m d, <[td_tid d := td_demand d]> m) ∅ ds.

Definition edges_from (g : GraphWindow) (ds : list ThreadDemand) : list RelationEdge :=
  omap (λ e : tid_pair * RelationAggregate, edge_of g (demand_map ds) e.1 e.2)
    (items (relation_aggregates g)).

Definition with_edge_cache (g : GraphWindow) (c : list RelationEdge) : GraphWindow :=
  mk_GraphWindow (horizon_seconds g) (gw_calibration g) (gw_threads g) (relation_histories g)
    (relation_aggregates g) (demand_cache g) (Some c) (emitted_demands g) (emitted_edges g).

Definition edges (g : GraphWindow) : list RelationEdge * GraphWindow :=
  match edge_cache g with
  | Some c => (c, g)
  | None =>
      let '(ds, g) := demands g in
      let r := edges_from g ds in (r, with_edge_cache g r)
  end.

(** ** [take_delta] *)
Section delta.
Context (demand_threshold edge_absolute edge_relative : double).

Definition removed_identities (emitted current : gmap Z ThreadDemand) : list ThreadIdentity :=
  omap (λ e : Z * ThreadDemand,
    match current !! e.1 with
    | Some c => if bool_decide (td_identity c = td_identity e.2) then None
                else Some (td_identity e.2)
    | None => Some (td_identity e.2)
    end) (items emitted).

(** Whether the previously emitted entry is replaced by the current one. *)
Definition thread_changed (previous : option ThreadDemand) (c : ThreadDemand) : bool :=
  match previous with
  | None => true
  | Some p => negb (bool_decide (td_identity p = td_identity c)) ||
    (demand_threshold <=? dabs (td_demand p - td_demand c))%D ||
    negb (bool_decide (td_group p = td_group c))
  end.

Definition edge_changed (previous : option RelationEdge) (c : RelationEdge) : bool :=
  match previous with
  | None => true
  | Some p =>
    let old := re_score p in
    let absolute := dabs (re_score c - old)%D in
    let relative := (absolute / dmax (dabs old) d1em9)%D in
    (edge_absolute <=? absolute)%D || (edge_relative <=? relative)%D
  end.

(** One entry of either loop: [delta.upsert_….push_back(current)] and
  [emitted_…[key] = current] when it changed. *)
Definition upsert {K V} `{Countable K} (changed : option V → V → bool)
  (acc : list V * gmap K V) (e : K * V) : list V * gmap K V :=
  if changed (acc.2 !! e.1) e.2 then (acc.1 ++ [e.2], <[e.1 := e.2]> acc.2) else acc.

Definition current_demands (ds : list ThreadDemand) : gmap Z ThreadDemand :=
  foldl (λ m d, <[td_tid d := d]> m) ∅ ds.
Definition current_edges (es : list RelationEdge) : gmap tid_pair RelationEdge :=
  foldl (λ m e, <[edge_key (re_from_tid e) (re_to_tid e) := e]> m) ∅ es.

Definition take_delta (g : GraphWindow) : GraphDelta * GraphWindow :=
  let '(ds, g) := demands g in
  let current := current_demands ds in
  let removed := removed_identities (emitted_demands g) current in
  let kept := foldl (λ m (i : ThreadIdentity), delete (tid i) m) (emitted_demands g) removed in
  let '(upserts, demands') := foldl (upsert thread_changed) ([], kept) (items current) in
  let '(es, g) := edges g in
  let cedges := current_edges es in
  let removed_keys :=
  omap (λ e : tid_pair * RelationEdge,
      match cedges !! e.1 with Some _ => None | None => Some e.1 end)
    (items (emitted_edges g)) in
  let '(edge_upserts, edges1) := foldl (upsert edge_changed) ([], emitted_edges g) (items cedges) in
  let edges' := foldl (λ m k, delete k m) edges1 removed_keys in
  (mk_GraphDelta upserts removed edge_upserts removed_keys,
  mk_GraphWindow (horizon_seconds g) (gw_calibration g) (gw_threads g) (relation_histories g)
   (relation_aggregates g) (demand_cache g) (edge_cache g) demands' edges').
End delta.
End edges.
