(* ===== verification/GraphFacts.v ===== *)
(** * Invariant, caches and deltas of the evidence window *)
From stdpp Require Import relations.
From Stdlib Require Import Ascii.
From S2P Require Import Prelude Binary64 Core CpuList GraphWindow.
Local Open Scope Z_scope.

(** ** The invariant *)

(** Histories and aggregates have the same keys, ordered pairs of distinct
    TIDs; a history is non-empty and its aggregate counts it. *)
Definition rel_ok (k : tid_pair) (l : option (list RelationObservation))
    (a : option RelationAggregate) : Prop :=
  match l, a with
  | Some l, Some a => l ≠ [] ∧ k.1 < k.2 ∧
      Forall (λ x, edge_key (ro_from_tid x) (ro_to_tid x) = k) l ∧ ra_count a = u64 (Zsize l)
  | None, None => True
  | _, _ => False
  end.
Definition relations_ok (h : gmap tid_pair (list RelationObservation))
    (a : gmap tid_pair RelationAggregate) : Prop := ∀ k, rel_ok k (h !! k) (a !! k).

(** A thread's history holds samples of one thread instance. *)
Definition history_ok (t : Z) (l : list ThreadSample) : Prop :=
  l ≠ [] ∧ ∃ st, Forall (λ x, tid (ts_identity x) = t ∧ starttime (ts_identity x) = st) l.
Definition threads_ok (m : gmap Z (list ThreadSample)) : Prop :=
  ∀ t l, m !! t = Some l → history_ok t l.

(** ** Samples *)
Lemma u64_add_l a b : u64 (u64 a + b) = u64 (a + b).
Proof. unfold u64. apply Zplus_mod_idemp_l. Qed.
Lemma u64_sub_l a b : u64 (u64 a - b) = u64 (a - b).
Proof. unfold u64. apply Zminus_mod_idemp_l. Qed.

Lemma Zsize_cons {A} (x : A) l : Zsize (x :: l) = Zsize l + 1.
Proof. unfold Zsize. cbn. lia. Qed.

Lemma relations_ok_filter (keep : tid_pair → bool) b h a :
  relations_ok h a →
  relations_ok (filter (λ e, keep e.1 = b) h) (filter (λ e, keep e.1 = b) a).
Proof.
  intros Hok k. specialize (Hok k). rewrite !map_lookup_filter.
  destruct (h !! k), (a !! k); cbn in *; try done.
  destruct (decide (keep k = b)) as [He|He].
  - by rewrite !option_guard_True.
  - by rewrite !option_guard_False.
Qed.

Lemma add_sample_ok st x :
  threads_ok (ss_threads st) → relations_ok (ss_histories st) (ss_aggregates st) →
  threads_ok (ss_threads (add_sample st x)) ∧
  relations_ok (ss_histories (add_sample st x)) (ss_aggregates (add_sample st x)).
Proof.
  intros Ht Hr. unfold add_sample. set (t := tid (ts_identity x)).
  set (reused := tid_reused _ _). cbn [ss_threads ss_histories ss_aggregates].
  split; [|by apply relations_ok_filter].
  intros t' l. rewrite lookup_insert_Some. intros [[<- <-]|[_ Hl]]; [|by apply Ht].
  split; [by destruct (if reused then _ else _)|].
  exists (starttime (ts_identity x)). apply Forall_app. split; [|by repeat constructor].
  unfold reused, tid_reused, get_or. destruct (ss_threads st !! t) as [l|] eqn:Hl; cbn; [|constructor].
  destruct (Ht t l Hl) as [_ [stt Hall]].
  destruct (last l) as [y|] eqn:Hy; [|by apply last_None in Hy as ->; constructor].
  destruct (Z.eqb_spec (starttime (ts_identity y)) (starttime (ts_identity x))) as [He|]; cbn;
    [|constructor].
  pose proof (proj1 (Forall_forall _ _) Hall y) as Hyy.
  destruct (Hyy (last_Some_elem_of _ _ Hy)) as [_ Hst]. rewrite <-He, Hst. done.
Qed.

Lemma drop_samples_suffix cutoff l : ∃ k, l = k ++ drop_samples cutoff l.
Proof.
  induction l as [|x l [k IH]]; cbn; [by exists []|].
  destruct (_ <? _); [|by exists []]. exists (x :: k). by rewrite IH at 1.
Qed.

Lemma drop_observations_spec cutoff k l : ∀ a,
  ra_count a = u64 (Zsize l) →
  let '(l', a') := drop_observations cutoff k l a in
  ∃ pre, l = pre ++ l' ∧ ra_count a' = u64 (Zsize l') ∧
    (∀ x, head l' = Some x → cutoff ≤ ro_timestamp_ns x).
Proof.
  induction l as [|x l IH]; intros a Ha; cbn.
  - exists []. split_and!; [done|done|done].
  - destruct (Z.ltb_spec (ro_timestamp_ns x) cutoff).
    + specialize (IH (sub_observation k a x)).
      destruct (drop_observations cutoff k l (sub_observation k a x)) as [l' a'].
      destruct IH as (pre & -> & Hc & Hh).
      { cbn. rewrite Ha, u64_sub_l, Zsize_cons. f_equal. lia. }
      exists (x :: pre). done.
    + exists []. split_and!; [done|done|]. intros ? [= <-]. lia.
Qed.

Lemma expire_relation_ok cutoff h a k l :
  relations_ok h a → h !! k = Some l →
  ∃ h' a', expire_relation cutoff (h, a) (k, l) = Ok (h', a') ∧ relations_ok h' a' ∧
    ∀ k', k' ≠ k → h' !! k' = h !! k'.
Proof.
  intros Hok Hk. unfold expire_relation. cbn [fst snd].
  pose proof (Hok k) as Hok_k. rewrite Hk in Hok_k.
  destruct (a !! k) as [ag|] eqn:Ha; [|done]. cbn in Hok_k. destruct Hok_k as (Hne & Hlt & Hall & Hc).
  pose proof (drop_observations_spec cutoff k l ag Hc) as Hd.
  destruct (drop_observations cutoff k l ag) as [l' a']. destruct Hd as (pre & -> & Hc' & _).
  case_bool_decide as Hl'; do 2 eexists; (split; [done|]); split.
  - intros k'. specialize (Hok k'). destruct (decide (k = k')) as [<-|].
    + by rewrite !lookup_delete_eq.
    + by rewrite !lookup_delete_ne.
  - intros k' ?. by rewrite lookup_delete_ne.
  - intros k'. specialize (Hok k'). destruct (decide (k = k')) as [<-|].
    + rewrite !lookup_insert_eq. cbn. apply Forall_app in Hall as [_ ?]. done.
    + by rewrite !lookup_insert_ne.
  - intros k' ?. by rewrite lookup_insert_ne.
Qed.

Lemma expire_relations_ok cutoff h a :
  relations_ok h a →
  ∃ h' a', foldlM (expire_relation cutoff) (h, a) (items h) = Ok (h', a') ∧ relations_ok h' a' ∧
    ∀ k, h !! k = None → h' !! k = None.
Proof.
  intros Hok.
  destruct (foldlM_total_prefix (expire_relation cutoff)
    (λ pre st, relations_ok st.1 st.2 ∧ ∀ k, k ∉ pre.*1 → st.1 !! k = h !! k) (items h) (h, a))
    as ([h' a'] & Hf & Hr & Hn); [done| |].
  2:{ exists h', a'. split_and!; [done|done|]. intros k Hk. cbn in Hn. rewrite Hn; [done|].
      intros Hin. apply list_elem_of_fmap in Hin as ([k' l] & -> & Hin%elem_of_items). cbn in *. congruence. }
  intros pre [k l] rest [h1 a1] Hl [Hok1 Hsame]. cbn [fst snd] in *.
  assert (k ∉ pre.*1) as Hk.
  { pose proof (NoDup_items_fst h) as Hnd. rewrite Hl, fmap_app in Hnd.
    apply NoDup_app in Hnd as (_ & Hd & _). intros Hin. by apply (Hd k Hin); left. }
  assert (h1 !! k = Some l) as Hh1.
  { rewrite Hsame by done. apply elem_of_items. rewrite Hl. set_solver. }
  destruct (expire_relation_ok cutoff h1 a1 k l Hok1 Hh1) as (h2 & a2 & He & Hok2 & Hs2).
  exists (h2, a2). split; [done|]. split; [done|]. intros k' Hk'. cbn. rewrite Hs2, Hsame; [done|..].
  - rewrite fmap_app in Hk'. set_solver.
  - rewrite fmap_app in Hk'. set_solver.
Qed.

(** ** Demands *)
Lemma insert_by_lookup {K A} `{Countable K} (f : A → K) (l : list A) k x :
  NoDup (f <$> l) →
  foldl (λ m y, <[f y := y]> m) (∅ : gmap K A) l !! k = Some x ↔ x ∈ l ∧ f x = k.
Proof.
  refine (foldl_invariant_prefix (λ m y, <[f y := y]> m)
    (λ l m, NoDup (f <$> l) → m !! k = Some x ↔ x ∈ l ∧ f x = k) l ∅ _ _).
  { intros _. rewrite lookup_empty. set_solver. }
  intros pre b rest m _ IH. rewrite fmap_app, NoDup_app. intros (Hnd & Hd & _).
  specialize (IH Hnd). rewrite elem_of_app, list_elem_of_singleton.
  destruct (decide (f b = k)) as [Hb|Hb].
  - rewrite Hb, lookup_insert_eq. split; [intros [= <-]; auto|].
    intros [[Hx| ->] Hk]; [|done]. exfalso. apply (Hd (f x)).
    + by apply list_elem_of_fmap_2.
    + cbn. rewrite Hk, <-Hb. left.
  - rewrite lookup_insert_ne, IH by done. naive_solver.
Qed.

Lemma demand_of_entry_tid horizon t l d :
  history_ok t l → demand_of horizon l = Some d → td_tid d = t.
Proof.
  intros [_ [st Hall]]. unfold demand_of. destruct (last l) as [x|] eqn:Hx; [|done].
  intros [= <-]. cbn. apply last_Some_elem_of in Hx.
  by apply (proj1 (Forall_forall _ _) Hall x).
Qed.

Lemma demand_of_Some horizon l : l ≠ [] → is_Some (demand_of horizon l).
Proof.
  intros Hl. unfold demand_of. destruct (last l) eqn:E; [by eexists|]. by apply last_None in E.
Qed.

Lemma elem_of_compute_demands g d :
  d ∈ compute_demands g ↔
  ∃ t l, gw_threads g !! t = Some l ∧ demand_of (horizon_seconds g) l = Some d.
Proof.
  unfold compute_demands. rewrite elem_of_std_sort, list_elem_of_omap. split.
  - intros ([t l] & Hin%elem_of_items & Hd). eauto.
  - intros (t & l & Hin%elem_of_items & Hd). by exists (t, l).
Qed.

Lemma compute_demands_tids g :
  threads_ok (gw_threads g) → NoDup (td_tid <$> compute_demands g).
Proof.
  intros Hok. unfold compute_demands.
  rewrite (std_sort_perm _ (omap _ (items (gw_threads g)))).
  pose proof (NoDup_items_fst (gw_threads g)) as Hnd.
  assert (∀ e, e ∈ items (gw_threads g) → history_ok e.1 e.2) as Hall.
  { intros [t l] Hin%elem_of_items. by apply Hok. }
  revert Hnd Hall. induction (items (gw_threads g)) as [|[t l] ls IH]; intros Hnd Hall.
  { apply NoDup_nil_2. }
  apply NoDup_cons in Hnd as [Ht Hnd]. specialize (IH Hnd ltac:(intros; apply Hall; by right)).
  cbn. destruct (demand_of (horizon_seconds g) l) as [d|] eqn:Hd; [|done]. cbn.
  apply NoDup_cons. split; [|done].
  assert (td_tid d = t) as Hdt by (eapply demand_of_entry_tid; [apply (Hall (t, l)); left|done]).
  intros Hin. apply list_elem_of_fmap in Hin as (d' & Heq & Hd').
  apply list_elem_of_omap in Hd' as ([t' l'] & Hin' & Hd').
  assert (td_tid d' = t') as Hdt' by (eapply demand_of_entry_tid; [apply (Hall (t', l')); by right|done]).
  apply Ht. apply list_elem_of_fmap. exists (t', l'). split; [cbn in *; congruence|done].
Qed.

Lemma compute_demands_lookup g t :
  threads_ok (gw_threads g) →
  is_Some (current_demands (compute_demands g) !! t) ↔ is_Some (gw_threads g !! t).
Proof.
  intros Hok. unfold current_demands. split.
  - intros [d Hd]. apply (insert_by_lookup td_tid) in Hd as [Hd Hdt];
      [|by apply compute_demands_tids].
    apply elem_of_compute_demands in Hd as (t' & l & Hl & Hd).
    pose proof (demand_of_entry_tid _ _ _ _ (Hok _ _ Hl) Hd). exists l. by replace t with t' by congruence.
  - intros [l Hl]. destruct (demand_of_Some (horizon_seconds g) l) as [d Hd]; [by apply (Hok t l)|].
    exists d. apply (insert_by_lookup td_tid); [by apply compute_demands_tids|].
    split; [apply elem_of_compute_demands; eauto|]. eapply demand_of_entry_tid; [by apply Hok|done].
Qed.

Lemma demand_by_tid_keep (ds : list ThreadDemand) (m : gmap Z ThreadDemand) t :
  is_Some (m !! t) ∨ (∃ d, d ∈ ds ∧ td_tid d = t) →
  is_Some (foldl (λ m d, match m !! td_tid d with Some _ => m | None => <[td_tid d := d]> m end) m ds !! t).
Proof.
  revert m. induction ds as [|d ds IH]; intros m Ht; cbn.
  { destruct Ht as [?|(d & Hd & _)]; [done|set_solver]. }
  apply IH. destruct (decide (td_tid d = t)) as [<-|Hne].
  - left. destruct (m !! td_tid d) eqn:E; [by rewrite E|]. rewrite lookup_insert_eq. eauto.
  - destruct Ht as [?|(d' & [->|?]%elem_of_cons & ?)]; [left|done|right; eauto].
    destruct (m !! td_tid d); [done|]. by rewrite lookup_insert_ne.
Qed.

Lemma add_records_total ds g :
  (∀ t, is_Some (gw_threads g !! t) → is_Some (ds !! t)) →
  ∃ rs, foldlM (add_record ds) [] (items (gw_threads g)) = Ok rs.
Proof.
  intros Hds. destruct (foldlM_total_prefix (add_record ds) (λ _ _, True) (items (gw_threads g)) [])
    as (rs & ? & _); [done| |eauto].
  intros pre [t l] rest acc Hl _. unfold add_record. cbn. case_bool_decide; [eauto|].
  destruct (Hds t) as [d ->]; [|case_step; eauto].
  exists l. apply elem_of_items. rewrite Hl. set_solver.
Qed.

(** ** Deltas *)
Lemma filter_ext_in {A} (P Q : A → Prop) `{∀ x, Decision (P x), ∀ x, Decision (Q x)} (l : list A) :
  (∀ x, x ∈ l → P x ↔ Q x) → filter P l = filter Q l.
Proof.
  induction l as [|x l IH]; intros Hl; [done|]. rewrite !filter_cons.
  rewrite IH by (intros; apply Hl; by right). apply decide_ext. apply Hl. left.
Qed.

Section upserts.
Context {K V : Type} `{Countable K} (changed : option V → V → bool).

Lemma upsert_loop (es : list (K * V)) : ∀ l0 (m0 : gmap K V),
  NoDup es.*1 →
  let '(l, m) := foldl (upsert changed) (l0, m0) es in
  l = l0 ++ (filter (λ e, changed (m0 !! e.1) e.2 = true) es).*2 ∧
  (∀ k v, (k, v) ∈ es → m !! k = if changed (m0 !! k) v then Some v else m0 !! k) ∧
  (∀ k, k ∉ es.*1 → m !! k = m0 !! k).
Proof.
  induction es as [|[k v] es IH]; intros l0 m0 Hnd.
  { cbn. rewrite app_nil_r. split_and!; [done|set_solver|done]. }
  rewrite fmap_cons in Hnd. apply NoDup_cons in Hnd as [Hk Hnd].
  cbn [foldl]. unfold upsert at 2. cbn [fst snd] in *.
  set (st := if changed (m0 !! k) v then _ else _).
  specialize (IH st.1 st.2 Hnd). rewrite <-surjective_pairing in IH.
  destruct (foldl (upsert changed) st es) as [l m]. destruct IH as (-> & Hin & Hout).
  assert (∀ k', k' ≠ k → st.2 !! k' = m0 !! k') as Hst.
  { intros k' Hne. unfold st. destruct (changed _ _); cbn; [by rewrite lookup_insert_ne|done]. }
  assert (∀ e, e ∈ es → e.1 ≠ k) as Hes.
  { intros e He Heq. apply Hk. rewrite <-Heq. by apply (list_elem_of_fmap_2 fst). }
  split_and!.
  - assert ((filter (λ e, changed (st.2 !! e.1) e.2 = true) es) =
      filter (λ e, changed (m0 !! e.1) e.2 = true) es) as ->.
    { apply filter_ext_in. intros e He. by rewrite Hst by auto. }
    rewrite filter_cons. cbn [fst snd]. unfold st. destruct (changed (m0 !! k) v); cbn; [|done].
    by rewrite <-app_assoc.
  - intros k' v' [[= -> ->]|He]%elem_of_cons.
    + rewrite Hout by done. unfold st. destruct (changed (m0 !! k) v); cbn; [|done].
      by rewrite lookup_insert_eq.
    + rewrite (Hin k' v' He), Hst; [done|]. by apply (Hes (k', v')).
  - intros k' Hk'. rewrite fmap_cons, not_elem_of_cons in Hk'. destruct Hk'. by rewrite Hout, Hst.
Qed.
End upserts.

(** ** The reachable windows *)
Section reachable.
Context (log1p : double → double).

Record window_inv (g : GraphWindow) : Prop := {
  wi_threads : threads_ok (gw_threads g);
  wi_relations : relations_ok (relation_histories g) (relation_aggregates g);
  wi_demand_cache : ∀ c, demand_cache g = Some c → c = compute_demands g;
  wi_edge_cache : ∀ c, edge_cache g = Some c → c = edges_from log1p g (compute_demands g);
  wi_emitted : ∀ t d, emitted_demands g !! t = Some d → td_tid d = t;
}.

Inductive window_step : GraphWindow → GraphWindow → Prop :=
  | window_observe_threads samples g g' :
      observe_threads samples g = Ok g' → window_step g g'
  | window_observe_relation x g : window_step g (observe_relation x g)
  | window_retain rels g : window_step g (retain_relations rels g)
  | window_demands g : window_step g (demands g).2
  | window_edges g : window_step g (edges log1p g).2
  | window_records g rs g' : thread_records g = Ok (rs, g') → window_step g g'
  | window_take_delta dt ea er g : window_step g (take_delta log1p dt ea er g).2.

Lemma demands_inv g :
  window_inv g →
  (demands g).1 = compute_demands g ∧ window_inv (demands g).2 ∧
  gw_threads (demands g).2 = gw_threads g ∧ horizon_seconds (demands g).2 = horizon_seconds g ∧
  relation_aggregates (demands g).2 = relation_aggregates g ∧
  gw_calibration (demands g).2 = gw_calibration g ∧
  emitted_demands (demands g).2 = emitted_demands g ∧
  emitted_edges (demands g).2 = emitted_edges g.
Proof.
  intros Hi. unfold demands. destruct (demand_cache g) as [c|] eqn:Hc; cbn.
  - split_and!; [by apply (wi_demand_cache _ Hi)|done..].
  - split_and!; [done| |done..]. destruct Hi as [H1 H2 H3 H4 H5].
    split; cbn; [done|done| |exact H4|exact H5]. intros c [= <-]. done.
Qed.

Lemma edges_inv g :
  window_inv g →
  (edges log1p g).1 = edges_from log1p g (compute_demands g) ∧ window_inv (edges log1p g).2 ∧
  gw_threads (edges log1p g).2 = gw_threads g ∧ horizon_seconds (edges log1p g).2 = horizon_seconds g ∧
  relation_aggregates (edges log1p g).2 = relation_aggregates g ∧
  gw_calibration (edges log1p g).2 = gw_calibration g ∧
  emitted_demands (edges log1p g).2 = emitted_demands g ∧
  emitted_edges (edges log1p g).2 = emitted_edges g.
Proof.
  intros Hi. unfold edges. destruct (edge_cache g) as [c|] eqn:Hc; cbn.
  - split_and!; [by apply (wi_edge_cache _ Hi)|done..].
  - pose proof (demands_inv g Hi) as (Hd & Hi' & Ht & Hh & Ha & Hcal & He & He').
    destruct (demands g) as [ds g1] eqn:Hdg. cbn in *. subst ds.
    assert (edges_from log1p g1 (compute_demands g) = edges_from log1p g (compute_demands g)) as Hef.
    { unfold edges_from, edge_of. by rewrite Ha, Hcal, Hh. }
    assert (compute_demands g1 = compute_demands g) as Hcd.
    { unfold compute_demands. by rewrite Ht, Hh. }
    split_and!; [done| |done..]. destruct Hi' as [H1 H2 H3 H4 H5].
    split; cbn; [done|done|exact H3| |exact H5]. intros c [= <-].
    transitivity (edges_from log1p g1 (compute_demands g1)); [by rewrite Hcd|reflexivity].
Qed.

(** ** Edges *)

Lemma edge_of_key g dm k a e :
  k.1 < k.2 → edge_of log1p g dm k a = Some e → re_key e = k.
Proof.
  intros Hk. unfold edge_of. destruct (dm !! k.1), (dm !! k.2); try done.
  destruct (_ =? _); [done|]. intros [= <-]. unfold re_key, edge_key. cbn. destruct k; cbn in *.
  f_equal; lia.
Qed.

Lemma edges_from_keys g ds :
  relations_ok (relation_histories g) (relation_aggregates g) →
  NoDup (re_key <$> edges_from log1p g ds).
Proof.
  intros Hok. unfold edges_from.
  pose proof (NoDup_items_fst (relation_aggregates g)) as Hnd.
  assert (∀ e, e ∈ items (relation_aggregates g) → e.1.1 < e.1.2) as Hall.
  { intros [k a] Hin%elem_of_items. specialize (Hok k). rewrite Hin in Hok.
    destruct (relation_histories g !! k); [|done]. by destruct Hok as (_ & ? & _). }
  revert Hnd Hall. induction (items (relation_aggregates g)) as [|[k a] ls IH]; intros Hnd Hall.
  { apply NoDup_nil_2. }
  rewrite fmap_cons in Hnd. apply NoDup_cons in Hnd as [Ht Hnd].
  specialize (IH Hnd ltac:(intros; apply Hall; by right)).
  cbn [omap list_omap fst snd]. destruct (edge_of log1p g (demand_map ds) k a) as [e|] eqn:Hd; [|done].
  rewrite fmap_cons. apply NoDup_cons. split; [|done].
  rewrite (edge_of_key _ _ _ _ _ (Hall (k, a) ltac:(left)) Hd).
  intros Hin. apply list_elem_of_fmap in Hin as (e' & Heq & He').
  apply list_elem_of_omap in He' as ([k' a'] & Hin' & He').
  assert (re_key e' = k') as Hk' by (eapply edge_of_key; [apply (Hall (k', a')); by right|done]).
  apply Ht. apply list_elem_of_fmap. exists (k', a'). cbn in Heq. split; [cbn; congruence|done].
Qed.

(** ** Applying a delta *)
Definition apply_threads (d : GraphDelta) (m : gmap Z ThreadDemand) : gmap Z ThreadDemand :=
  foldl (λ m t, <[td_tid t := t]> m)
    (foldl (λ m (i : ThreadIdentity), delete (tid i) m) m (removed_threads d)) (upsert_threads d).
Definition apply_edges (d : GraphDelta) (m : gmap tid_pair RelationEdge) : gmap tid_pair RelationEdge :=
  foldl (λ m e, <[re_key e := e]> m) (foldl (λ m k, delete k m) m (removed_edges d)) (upsert_edges d).

Lemma insert_all_lookup {K V} `{Countable K} (key : V → K) (l : list V) : ∀ (m : gmap K V) k,
  NoDup (key <$> l) →
  foldl (λ m v, <[key v := v]> m) m l !! k =
  match list_find (λ v, key v = k) l with Some (_, v) => Some v | None => m !! k end.
Proof.
  induction l as [|v l IH]; intros m k Hnd; [done|].
  rewrite fmap_cons in Hnd. apply NoDup_cons in Hnd as [Hv Hnd]. cbn [foldl list_find].
  rewrite IH by done. case_decide as Hk.
  - destruct (list_find (λ v, key v = k) l) as [[i w]|] eqn:Hf.
    + exfalso. apply list_find_Some in Hf as (Hi & Hw & _). apply Hv. rewrite Hk, <-Hw.
      apply list_elem_of_fmap_2. by eapply list_elem_of_lookup_2.
    + rewrite Hk. apply lookup_insert_eq.
  - destruct (list_find (λ v, key v = k) l) as [[i w]|]; cbn; [done|]. by rewrite lookup_insert_ne.
Qed.

Lemma delete_all_lookup {K V I} `{Countable K} (key : I → K) (l : list I) : ∀ (m : gmap K V) k,
  foldl (λ m i, delete (key i) m) m l !! k = if decide (k ∈ key <$> l) then None else m !! k.
Proof.
  induction l as [|i l IH]; intros m k; [by rewrite decide_False by set_solver|].
  cbn [foldl]. rewrite IH, fmap_cons. destruct (decide (key i = k)) as [->|].
  - rewrite (decide_True (P := k ∈ k :: _)) by left. case_decide; [done|]. apply lookup_delete_eq.
  - rewrite lookup_delete_ne by done. apply decide_ext. set_solver.
Qed.

Lemma items_not_key {K V} `{Countable K, !KeyOrder K} (m : gmap K V) k :
  m !! k = None → k ∉ (items m).*1.
Proof.
  intros Hn Hin. apply list_elem_of_fmap in Hin as ([k' v] & -> & Hin%elem_of_items). cbn in *.
  congruence.
Qed.

Lemma delete_insert_all {K V} `{Countable K} (key : V → K) (ks : list K) (l : list V) : ∀ m : gmap K V,
  (∀ v, v ∈ l → key v ∉ ks) →
  foldl (λ m k, delete k m) (foldl (λ m v, <[key v := v]> m) m l) ks =
  foldl (λ m v, <[key v := v]> m) (foldl (λ m k, delete k m) m ks) l.
Proof.
  induction l as [|v l IH]; intros m Hl; [done|]. cbn.
  rewrite IH by (intros; apply Hl; by right). f_equal.
  specialize (Hl v ltac:(left)). revert m Hl. clear IH. induction ks as [|k ks IH]; intros m Hv; [done|].
  cbn. rewrite delete_insert_ne by set_solver. apply IH. set_solver.
Qed.

(** The upserts of a loop, replayed on the map it started from. *)
Lemma upsert_replay {K V} `{Countable K} (key : V → K) (changed : option V → V → bool)
    (es : list (K * V)) (m : gmap K V) :
  NoDup es.*1 → (∀ k v, (k, v) ∈ es → key v = k) →
  foldl (λ m v, <[key v := v]> m) m (foldl (upsert changed) ([], m) es).1 =
  (foldl (upsert changed) ([], m) es).2.
Proof.
  intros Hnd Hkey. pose proof (upsert_loop changed es [] m Hnd) as Hu.
  destruct (foldl (upsert changed) ([], m) es) as [l m'] eqn:E. destruct Hu as (-> & Hin & Hout).
  cbn [fst snd]. clear E.
  assert (NoDup (key <$> (filter (λ e, changed (m !! e.1) e.2 = true) es).*2)) as Hnk.
  { rewrite <-list_fmap_compose.
    assert (key ∘ snd <$> filter (λ e, changed (m !! e.1) e.2 = true) es =
      (filter (λ e, changed (m !! e.1) e.2 = true) es).*1) as ->.
    { apply list_fmap_ext. intros i [k v] Hi. cbn. apply Hkey.
      apply list_elem_of_lookup_2 in Hi. by apply list_elem_of_filter in Hi as [_ ?]. }
    eapply sublist_NoDup; [exact Hnd|]. apply fmap_sublist, sublist_filter. }
  apply map_eq. intros k. rewrite app_nil_l, insert_all_lookup by done.
  destruct (list_find _ _) as [[i v]|] eqn:Hf.
  - apply list_find_Some in Hf as (Hi & Hk & _). apply list_elem_of_lookup_2 in Hi.
    apply list_elem_of_fmap in Hi as ([k' v'] & -> & Hi).
    apply list_elem_of_filter in Hi as [Hc Hi]. cbn in *.
    assert (k' = k) as -> by (rewrite <-(Hkey k' v' Hi); done).
    by rewrite (Hin k v' Hi), Hc.
  - destruct (decide (k ∈ es.*1)) as [Hk|Hk]; [|by rewrite Hout].
    apply list_elem_of_fmap in Hk as ([k' v] & -> & Hi). cbn. rewrite (Hin k' v Hi).
    destruct (changed (m !! k') v) eqn:Hc; [|done]. exfalso.
    rewrite list_find_None, Forall_forall in Hf. apply (Hf v); [|by apply Hkey].
    apply list_elem_of_fmap. exists (k', v). split; [done|]. by apply list_elem_of_filter.
Qed.

(** ** [take_delta] *)
Section delta.
Context (dt ea er : double) (g : GraphWindow) (Hg : window_inv g).
Local Abbreviation current := (current_demands (compute_demands g)).
Local Abbreviation cedges := (current_edges (edges_from log1p g (compute_demands g))).

Lemma current_tid t c : current !! t = Some c → td_tid c = t.
Proof.
  intros Hc. by apply (insert_by_lookup td_tid) in Hc as [_ ?];
  [|apply compute_demands_tids, Hg].
Qed.

Lemma cedges_key k e : cedges !! k = Some e → re_key e = k.
Proof.
  intros Hc. by apply (insert_by_lookup re_key) in Hc as [_ ?]; [|apply edges_from_keys, Hg].
Qed.

Lemma removed_lookup t :
  foldl (λ m (i : ThreadIdentity), delete (tid i) m) (emitted_demands g)
  (removed_identities (emitted_demands g) current) !! t =
  match emitted_demands g !! t, current !! t with
  | Some p, Some c => if decide (td_identity c = td_identity p) then Some p else None
  | _, _ => None
  end.
Proof.
  rewrite delete_all_lookup. unfold removed_identities.
  destruct (emitted_demands g !! t) as [p|] eqn:Hp; [|by case_decide].
  assert (td_tid p = t) as Hpt by (by apply (wi_emitted _ Hg) in Hp).
  case_decide as Hin.
  - apply list_elem_of_fmap in Hin as (i & -> & Hi).
  apply list_elem_of_omap in Hi as ([t' p'] & Hp'%elem_of_items & Hi). cbn in Hi.
  assert (td_tid p' = t') as Hpt' by (by apply (wi_emitted _ Hg) in Hp').
  assert (i = td_identity p') as ->.
  { by destruct (current !! t') as [c|]; [case_bool_decide|]; simplify_eq. }
  change (tid (td_identity p')) with (td_tid p') in *. rewrite Hpt' in *.
  assert (p = p') as <- by congruence.
  destruct (current !! t') as [c|]; [|done]. by case_bool_decide; case_decide.
  - destruct (current !! t) as [c|] eqn:Hc; [case_decide; [done|]|]; exfalso; apply Hin;
    apply list_elem_of_fmap; exists (td_identity p); (split; [done|]);
    apply list_elem_of_omap; exists (t, p); rewrite elem_of_items; (split; [done|]); cbn;
    rewrite Hc; [|done]. by rewrite bool_decide_eq_false_2.
Qed.

Lemma removed_keys_lookup k :
  k ∈ omap (λ e : tid_pair * RelationEdge, match cedges !! e.1 with Some _ => None | None => Some e.1 end)
  (items (emitted_edges g)) ↔ is_Some (emitted_edges g !! k) ∧ cedges !! k = None.
Proof.
  rewrite list_elem_of_omap. split.
  - intros ([k' e] & Hin%elem_of_items & Hc). cbn in Hc. destruct (cedges !! k') eqn:E; simplify_eq.
  eauto.
  - intros [[e He%elem_of_items] Hc]. exists (k, e). cbn. by rewrite Hc.
Qed.

Lemma take_delta_spec :
  let d := (take_delta log1p dt ea er g).1 in
  let g' := (take_delta log1p dt ea er g).2 in
  window_inv g' ∧
  emitted_demands g' = apply_threads d (emitted_demands g) ∧
  emitted_edges g' = apply_edges d (emitted_edges g) ∧
  (∀ t, match emitted_demands g' !! t, current !! t with
  | Some p, Some c => td_identity p = td_identity c ∧ td_group p = td_group c ∧
      (p = c ∨ (dt <=? dabs (td_demand p - td_demand c))%D = false)
  | None, None => True
  | _, _ => False
  end) ∧
  (∀ k, match emitted_edges g' !! k, cedges !! k with
  | Some p, Some c => p = c ∨ edge_changed ea er (Some p) c = false
  | None, None => True
  | _, _ => False
  end).
Proof.
  unfold take_delta. pose proof (demands_inv g Hg) as (Hd1 & Hg1 & Ht1 & Hh1 & Ha1 & Hc1 & He1 & Hf1).
  destruct (demands g) as [ds g1]. cbn [fst snd] in *. subst ds.
  pose proof (edges_inv g1 Hg1) as (Hd2 & Hg2 & Ht2 & Hh2 & Ha2 & Hc2 & He2 & Hf2).
  rewrite He1. set (kept := foldl _ (emitted_demands g) _).
  destruct (foldl (upsert (thread_changed dt)) ([], kept) (items current)) as [ups dm] eqn:Eup.
  destruct (edges log1p g1) as [es g2]. cbn [fst snd] in *. rewrite Hf2, Hf1.
  assert (compute_demands g1 = compute_demands g) as Hcd by (unfold compute_demands; by rewrite Ht1, Hh1).
  assert (es = edges_from log1p g (compute_demands g)) as ->.
  { rewrite Hd2, Hcd. unfold edges_from, edge_of. by rewrite Ha1, Hc1, Hh1. }
  set (removed := omap _ (items (emitted_edges g))).
  destruct (foldl (upsert (edge_changed ea er)) ([], emitted_edges g) (items cedges))
  as [eups em] eqn:Eeup.
  cbn [fst snd emitted_demands emitted_edges].
  pose proof (upsert_loop (thread_changed dt) (items current) [] kept (NoDup_items_fst _)) as Hu.
  pose proof (upsert_loop (edge_changed ea er) (items cedges) [] (emitted_edges g) (NoDup_items_fst _))
  as Hu'.
  rewrite Eup in Hu. rewrite Eeup in Hu'.
  destruct Hu as (_ & Hin & Hout), Hu' as (Heups & Hein & Heout).
  assert (∀ t, dm !! t = match current !! t with
  | Some c => if thread_changed dt (kept !! t) c then Some c else kept !! t | None => None end) as Hdm.
  { intros t. destruct (current !! t) as [c|] eqn:Hc.
  - apply Hin. by apply elem_of_items.
  - rewrite Hout by (by apply items_not_key). unfold kept. rewrite removed_lookup, Hc.
    by destruct (emitted_demands g !! t). }
  split_and!.
  - destruct Hg2 as [H1 H2 H3 H4 H5]. split; [exact H1|exact H2|exact H3|exact H4|].
  cbn. intros t d. rewrite Hdm. destruct (current !! t) as [c|] eqn:Hc; [|done].
  destruct (thread_changed dt (kept !! t) c); [intros [= <-]; by apply current_tid|].
  unfold kept. rewrite removed_lookup, Hc. destruct (emitted_demands g !! t) as [p|] eqn:Hp; [|done].
  case_decide; [|done]. intros [= <-]. by apply (wi_emitted _ Hg) in Hp.
  - unfold apply_threads. cbn. fold kept.
  pose proof (upsert_replay td_tid (thread_changed dt) (items current) kept (NoDup_items_fst _)) as Hrep.
  rewrite Eup in Hrep. symmetry. apply Hrep. intros k v Hkv%elem_of_items. by apply current_tid.
  - unfold apply_edges. cbn.
  pose proof (upsert_replay re_key (edge_changed ea er) (items cedges) (emitted_edges g)
    (NoDup_items_fst _)) as Hrep.
  rewrite Eeup in Hrep. cbn in Hrep.
  rewrite <-Hrep by (intros k v Hkv%elem_of_items; by apply cedges_key).
  apply delete_insert_all. intros e He Hr. rewrite Heups, app_nil_l in He.
  apply list_elem_of_fmap in He as ([k e'] & -> & He). apply list_elem_of_filter in He as [_ He].
  apply elem_of_items in He. cbn in Hr. rewrite (cedges_key _ _ He) in Hr.
  apply removed_keys_lookup in Hr as [_ Hr]. congruence.
  - intros t. rewrite Hdm. destruct (current !! t) as [c|] eqn:Hc; [|done].
  destruct (thread_changed dt (kept !! t) c) eqn:Hch; [auto|].
  destruct (kept !! t) as [p|] eqn:Hp; [|done]. cbn in Hch. bool_hyps. auto.
  - intros k. pose proof (delete_all_lookup id removed em k) as Hdel.
  rewrite list_fmap_id in Hdel. cbn [id] in Hdel. rewrite Hdel. clear Hdel.
  destruct (cedges !! k) as [e|] eqn:He.
  + assert (k ∉ removed) as Hr by (intros [_ Hr]%removed_keys_lookup; congruence).
    rewrite decide_False by done. rewrite (Hein k e) by (by apply elem_of_items).
    destruct (edge_changed ea er (emitted_edges g !! k) e) eqn:Hch; [by left|].
    destruct (emitted_edges g !! k); [by right|done].
  + case_decide as Hr; [done|]. rewrite Heout by (by apply items_not_key).
    destruct (emitted_edges g !! k) eqn:E; [|done]. apply Hr, removed_keys_lookup. eauto.
Qed.
End delta.
End reachable.
