(* ===== verification/GraphProperties.v ===== *)
(** * Properties of the evidence window *)
From stdpp Require Import relations.
From Stdlib Require Import Ascii.
From S2P Require Import Prelude Binary64 Core CpuList GraphWindow GraphFacts.
Local Open Scope Z_scope.

Section steps.
Context (log1p : double → double).

Lemma add_samples_ok samples st :
  threads_ok (ss_threads st) → relations_ok (ss_histories st) (ss_aggregates st) →
  threads_ok (ss_threads (foldl add_sample st samples)) ∧
  relations_ok (ss_histories (foldl add_sample st samples)) (ss_aggregates (foldl add_sample st samples)).
Proof.
  intros Ht Hr. apply (foldl_invariant add_sample (λ st, threads_ok (ss_threads st) ∧
    relations_ok (ss_histories st) (ss_aggregates st))); [done|].
  intros x b _ [? ?]. by apply add_sample_ok.
Qed.

Lemma drop_samples_ok cutoff t l :
  history_ok t l → drop_samples cutoff l ≠ [] → history_ok t (drop_samples cutoff l).
Proof.
  intros [_ [st Hall]] Hne. split; [done|]. exists st.
  destruct (drop_samples_suffix cutoff l) as [k Hk]. rewrite Hk in Hall.
  by apply Forall_app in Hall as [_ ?].
Qed.

Lemma observe_threads_ok samples g :
  window_inv log1p g → ∃ g', observe_threads samples g = Ok g' ∧ window_inv log1p g'.
Proof.
  intros [H1 H2 H3 H4 H5]. unfold observe_threads.
  set (st := foldl add_sample _ samples). set (cutoff := window_cutoff _ _).
  destruct (add_samples_ok samples (mk_SampleState 0 (gw_threads g) (relation_histories g)
    (relation_aggregates g)) H1 H2) as [Ht Hr]. fold st in Ht, Hr.
  destruct (expire_relations_ok cutoff _ _ Hr) as (h' & a' & -> & Hr' & _). cbn [mbind result_bind].
  eexists. split; [done|]. split; cbn; [|done|done|done|done].
  intros t l. rewrite lookup_omap_Some. intros (l0 & Hl0 & Hl). case_bool_decide; simplify_eq.
  apply drop_samples_ok; [by apply Ht|done].
Qed.

Lemma observe_relation_ok x g : window_inv log1p g → window_inv log1p (observe_relation x g).
Proof.
  intros Hg. unfold observe_relation. set (k := edge_key (ro_from_tid x) (ro_to_tid x)).
  destruct (Z.eqb_spec k.1 k.2) as [|Hne]; [done|]. destruct Hg as [H1 H2 H3 H4 H5].
  split; cbn; [done| |exact H3|done|done].
  intros k'. destruct (decide (k = k')) as [<-|]; [|rewrite !lookup_insert_ne by done; apply H2].
  rewrite !lookup_insert_eq. cbn [rel_ok]. specialize (H2 k). unfold get_or.
  assert (k.1 < k.2) as Hlt by (unfold k, edge_key in *; cbn in *; lia).
  destruct (relation_histories g !! k) as [l|], (relation_aggregates g !! k) as [a|]; cbn in *; try done.
  - destruct H2 as (_ & _ & Hall & Hc). split_and!; [by destruct l|done| |].
    + apply Forall_app. split; [done|by repeat constructor].
    + by rewrite Hc, u64_add_l, Zsize_app.
  - split_and!; [done|done|by repeat constructor|done].
Qed.

Lemma retain_relations_ok rels g : window_inv log1p g → window_inv log1p (retain_relations rels g).
Proof.
  intros [H1 H2 H3 H4 H5]. unfold retain_relations.
  set (dropped := dom (relation_histories g) ∖ rels). split; cbn; [done| |exact H3| |done].
  - exact (relations_ok_filter (λ k, bool_decide (k ∉ dropped)) true _ _ H2).
  - case_bool_decide as Hd; [|done]. intros c Hc. apply H4 in Hc as ->.
    unfold edges_from. cbn. f_equal. f_equal. symmetry. apply map_filter_id.
    intros k a _. apply bool_decide_eq_true_2. rewrite Hd. set_solver.
Qed.

Lemma thread_records_ok g :
  window_inv log1p g → ∃ rs g', thread_records g = Ok (rs, g') ∧ window_inv log1p g'.
Proof.
  intros Hg. unfold thread_records. pose proof (demands_inv log1p g Hg) as (Hd & Hg' & Ht & Hh & _).
  destruct (demands g) as [ds g']. cbn [fst snd] in *.
  destruct (add_records_total (demand_by_tid ds) g') as [rs Hrs].
  - intros t [l Hl]. apply demand_by_tid_keep. right. subst ds. rewrite Ht in Hl.
    destruct (demand_of_Some (horizon_seconds g) l) as [d Hd]; [by apply (wi_threads _ _ Hg t)|].
    exists d. split; [apply elem_of_compute_demands; eauto|].
    eapply demand_of_entry_tid; [by apply (wi_threads _ _ Hg)|done].
  - rewrite Hrs. cbn. eauto.
Qed.

Lemma window_inv_step g g' : window_inv log1p g → window_step log1p g g' → window_inv log1p g'.
Proof.
  intros Hg Hstep. destruct Hstep as [samples g g' Ho|x g|rels g|g|g|g rs g' Hr|dt ea er g].
  - destruct (observe_threads_ok samples g Hg) as (g1 & Hg1 & ?). rewrite Hg1 in Ho. by injection Ho as <-.
  - by apply observe_relation_ok.
  - by apply retain_relations_ok.
  - exact (proj1 (proj2 (demands_inv log1p g Hg))).
  - exact (proj1 (proj2 (edges_inv log1p g Hg))).
  - destruct (thread_records_ok g Hg) as (rs1 & g1 & Hg1 & ?). rewrite Hg1 in Hr.
    by injection Hr as _ <-.
  - exact (proj1 (take_delta_spec log1p dt ea er g Hg)).
Qed.

Lemma window_inv_reachable h c g :
  rtc (window_step log1p) (GraphWindow_init h c) g → window_inv log1p g.
Proof.
  assert (window_inv log1p (GraphWindow_init h c)) as Hi.
  { split; cbn; [by intros t l ?%lookup_empty_Some|intros k; by rewrite !lookup_empty|done|done|].
    by intros t d ?%lookup_empty_Some. }
  revert Hi. generalize (GraphWindow_init h c). intros g0 H0 Hr.
  induction Hr as [|x y z Hxy _ IH]; [done|]. by eapply IH, window_inv_step.
Qed.
End steps.

(** ** A concrete window *)
Definition demo_sample (t start ts rt : Z) (comm : string) : ThreadSample :=
  mk_ThreadSample (mk_ThreadIdentity 1 t start) ts rt 0 0 0 0 "R"%char comm [] [0; 1] 1 0 "".
Definition demo_relation (a b ts : Z) : RelationObservation :=
  mk_RelationObservation a b 100 100 ts (double_of_Z 8) d0 d0.
Definition demo_calibration : Calibration := mk_Calibration d1 d1 d1.
Definition demo_window_run : result GraphWindow :=
  g1 ← observe_threads [demo_sample 1 100 1000000000 0 "worker-1"; demo_sample 2 100 1000000000 0 "worker-2"]
         (GraphWindow_init 30 demo_calibration);
  observe_threads [demo_sample 1 100 2000000000 500000000 "worker-1";
                   demo_sample 2 100 2000000000 250000000 "worker-2"]
    (observe_relation (demo_relation 2 1 1500000000) g1).
Definition demo_window : GraphWindow :=
  match demo_window_run with Ok g => g | Throw _ => GraphWindow_init 30 demo_calibration end.

(** [log1p] for the examples: the identity, which agrees with it at 0. *)
Definition id_log1p (x : double) : double := x.

Lemma demo_window_reachable :
  rtc (window_step id_log1p) (GraphWindow_init 30 demo_calibration) demo_window.
Proof.
  destruct (observe_threads [demo_sample 1 100 1000000000 0 "worker-1";
    demo_sample 2 100 1000000000 0 "worker-2"] (GraphWindow_init 30 demo_calibration)) as [g1|] eqn:E1;
    [|by vm_compute in E1].
  eapply rtc_l; [by eapply window_observe_threads|].
  eapply rtc_l; [apply (window_observe_relation _ (demo_relation 2 1 1500000000))|].
  apply rtc_once. eapply window_observe_threads.
  instantiate (1 := [demo_sample 1 100 2000000000 500000000 "worker-1";
                     demo_sample 2 100 2000000000 250000000 "worker-2"]).
  unfold demo_window, demo_window_run. rewrite E1. cbn [mbind result_bind].
  destruct (observe_threads _ (observe_relation _ g1)) as [g2|] eqn:E2; [done|].
  vm_compute in E1. injection E1 as <-. by vm_compute in E2.
Qed.

(** C28: in every window reachable from an empty one, relation histories and
    aggregates have the same keys, ordered pairs of distinct TIDs; an aggregate
    counts its history (modulo 2^64); a thread history is non-empty and holds
    samples of one thread instance.  Hence observing samples and listing the
    thread records never throws. *)
Theorem window_consistent log1p h c g
    (Hr : rtc (window_step log1p) (GraphWindow_init h c) g) :
  (∀ k l, relation_histories g !! k = Some l →
     l ≠ [] ∧ k.1 < k.2 ∧ ∃ a, relation_aggregates g !! k = Some a ∧ ra_count a = u64 (Zsize l)) ∧
  (∀ k, relation_histories g !! k = None ↔ relation_aggregates g !! k = None) ∧
  (∀ t l, gw_threads g !! t = Some l → l ≠ [] ∧ ∃ st, ∀ x, x ∈ l →
     tid (ts_identity x) = t ∧ starttime (ts_identity x) = st) ∧
  (∀ samples, is_ok (observe_threads samples g) = true) ∧
  is_ok (thread_records g) = true.
Proof.
  apply window_inv_reachable in Hr as Hg. destruct Hg as [H1 H2 H3 H4 H5] eqn:Hgeq. clear Hgeq.
  split_and!.
  - intros k l Hl. specialize (H2 k). rewrite Hl in H2.
    destruct (relation_aggregates g !! k) as [a|] eqn:Ha; [|done].
    destruct H2 as (? & ? & _ & ?). eauto.
  - intros k. specialize (H2 k).
    by destruct (relation_histories g !! k), (relation_aggregates g !! k).
  - intros t l Hl. destruct (H1 t l Hl) as [? [st Hall]]. split; [done|]. exists st.
    by apply Forall_forall.
  - intros samples. destruct (observe_threads_ok log1p samples g Hg) as (g' & -> & _). done.
  - destruct (thread_records_ok log1p g Hg) as (rs & g' & -> & _). done.
Qed.

Lemma window_consistent_witness :
  ∃ l, relation_histories demo_window !! (1, 2) = Some l ∧ l ≠ [].
Proof.
  destruct (window_consistent _ _ _ _ demo_window_reachable) as (H & _).
  destruct (relation_histories demo_window !! (1, 2)) as [l|] eqn:E; [|by vm_compute in E].
  exists l. split; [reflexivity|]. apply (H _ _ E).
Defined.

(** the mutable caches never go stale: in every reachable window [demands]
    and [edges] return what a fresh computation from the histories and
    aggregates returns. *)
Theorem caches_coherent log1p h c g
    (Hr : rtc (window_step log1p) (GraphWindow_init h c) g) :
  (demands g).1 = compute_demands g ∧
  (edges log1p g).1 = edges_from log1p g (compute_demands g).
Proof.
  apply window_inv_reachable in Hr. split; [exact (proj1 (demands_inv log1p g Hr))|exact (proj1 (edges_inv log1p g Hr))].
Qed.

Lemma caches_coherent_witness :
  length (compute_demands demo_window) = 2%nat ∧
  (demands demo_window).1 = compute_demands demo_window.
Proof.
  split; [by vm_compute|]. apply (caches_coherent _ _ _ _ demo_window_reachable).
Defined.

(** C29: the delta stream keeps a mirror.  A consumer that holds the emitted
    demands and edges and applies the removals and upserts of [take_delta]
    holds exactly the newly emitted ones; these have the same TIDs and edge
    keys as the window's current demands and edges, agree on thread identity
    and family, and differ in demand or score only below the thresholds. *)
Theorem take_delta_mirrors log1p h c g dt ea er
    (Hr : rtc (window_step log1p) (GraphWindow_init h c) g) :
  let d := (take_delta log1p dt ea er g).1 in
  let g' := (take_delta log1p dt ea er g).2 in
  emitted_demands g' = apply_threads d (emitted_demands g) ∧
  emitted_edges g' = apply_edges d (emitted_edges g) ∧
  (∀ t, match emitted_demands g' !! t, current_demands (compute_demands g) !! t with
    | Some p, Some c => td_identity p = td_identity c ∧ td_group p = td_group c ∧
        (p = c ∨ (dt <=? dabs (td_demand p - td_demand c))%D = false)
    | None, None => True
    | _, _ => False
    end) ∧
  (∀ k, match emitted_edges g' !! k,
          current_edges (edges_from log1p g (compute_demands g)) !! k with
    | Some p, Some c => p = c ∨ edge_changed ea er (Some p) c = false
    | None, None => True
    | _, _ => False
    end).
Proof.
  apply window_inv_reachable in Hr.
  destruct (take_delta_spec log1p dt ea er g Hr) as (_ & H). exact H.
Qed.

Lemma take_delta_mirrors_witness :
  length (upsert_threads (take_delta id_log1p (dlit 1 20) d1 (dlit 1 10) demo_window).1) = 2%nat ∧
  emitted_demands (take_delta id_log1p (dlit 1 20) d1 (dlit 1 10) demo_window).2 =
    apply_threads (take_delta id_log1p (dlit 1 20) d1 (dlit 1 10) demo_window).1 ∅.
Proof.
  split; [by vm_compute|].
  destruct (take_delta_mirrors _ _ _ _ (dlit 1 20) d1 (dlit 1 10) demo_window_reachable) as (H & _).
  exact H.
Defined.

(** a reused TID starts clean.  When the newest sample kept for a TID has
    another start time than the incoming one, the thread's history becomes
    that one sample and no relation with the TID survives, so evidence of the
    dead thread is never attributed to the new one. *)
Theorem reused_tid_starts_clean log1p h c g x g' l y
    (Hr : rtc (window_step log1p) (GraphWindow_init h c) g)
    (Hts : 0 ≤ ts_timestamp_ns x)
    (Hl : gw_threads g !! tid (ts_identity x) = Some l) (Hy : last l = Some y)
    (Hne : starttime (ts_identity y) ≠ starttime (ts_identity x))
    (Ho : observe_threads [x] g = Ok g') :
  gw_threads g' !! tid (ts_identity x) = Some [x] ∧
  ∀ k, pair_has (tid (ts_identity x)) k = true →
    relation_histories g' !! k = None ∧ relation_aggregates g' !! k = None.
Proof.
  apply window_inv_reachable in Hr as Hg. unfold observe_threads in Ho. cbn [foldl] in Ho.
  set (st := add_sample _ x) in Ho. set (cutoff := window_cutoff _ _) in Ho.
  assert (tid_reused l x = true) as Hre.
  { unfold tid_reused. rewrite Hy. by rewrite (proj2 (Z.eqb_neq _ _) Hne). }
  assert (get_or [] (gw_threads g) (tid (ts_identity x)) = l) as Hget by (unfold get_or; by rewrite Hl).
  destruct (add_sample_ok (mk_SampleState 0 (gw_threads g) (relation_histories g)
    (relation_aggregates g)) x (wi_threads _ _ Hg) (wi_relations _ _ Hg)) as [_ Hrel]. fold st in Hrel.
  destruct (expire_relations_ok cutoff _ _ Hrel) as (h' & a' & Hf & Hr' & Hn).
  rewrite Hf in Ho. cbn [mbind result_bind] in Ho. injection Ho as <-. cbn. split.
  - rewrite lookup_omap. unfold st, add_sample. cbn. rewrite lookup_insert_eq, Hget, Hre. cbn.
    rewrite (proj2 (Z.ltb_ge _ _)); [done|]. unfold cutoff, window_cutoff, st. cbn.
    destruct (Z.ltb_spec (u64 (u64 (horizon_seconds g) * 1000000000)) (0 `max` ts_timestamp_ns x)); [|lia].
    pose proof (u64_range (u64 (horizon_seconds g) * 1000000000)). lia.
  - intros k Hk. assert (h' !! k = None) as Hh.
    { apply Hn. unfold st, add_sample. cbn. rewrite Hget, Hre. rewrite map_lookup_filter.
      destruct (relation_histories g !! k) as [hk|] eqn:E; [|done]. cbn.
      rewrite option_guard_False; [done|]. unfold doomed_relation. rewrite Hk, E. cbn.
      done. }
    split; [done|]. specialize (Hr' k). rewrite Hh in Hr'. by destruct (a' !! k).
Qed.

Definition demo_reuse : ThreadSample := demo_sample 1 777 3000000000 0 "worker-9".

Lemma reused_tid_starts_clean_witness :
  ∃ g', observe_threads [demo_reuse] demo_window = Ok g' ∧
    relation_histories g' !! (1, 2) = None ∧ gw_threads g' !! 1 = Some [demo_reuse].
Proof.
  destruct (observe_threads [demo_reuse] demo_window) as [g'|] eqn:E; [|by vm_compute in E].
  exists g'. split; [reflexivity|].
  destruct (gw_threads demo_window !! 1) as [l|] eqn:El; [|by vm_compute in El].
  destruct (last l) as [y|] eqn:Ey; [|exfalso; vm_compute in El; injection El as <-; by vm_compute in Ey].
  assert (starttime (ts_identity y) ≠ starttime (ts_identity demo_reuse)) as Hne.
  { vm_compute in El. injection El as <-. vm_compute in Ey. injection Ey as <-. discriminate. }
  destruct (reused_tid_starts_clean _ _ _ _ demo_reuse g' l y demo_window_reachable
    ltac:(vm_compute; discriminate) El Ey Hne E) as [H1 H2].
  split; [|exact H1]. apply H2. reflexivity.
Defined.

(** ** Family names *)
Definition not_separator (l : list ascii) : Prop :=
  ∀ c, last l = Some c → c ≠ "_"%char ∧ c ≠ "-"%char.

Lemma index_chars_cons2 c d l :
  index_chars (c :: d :: l) =
  if isdigit c then index_chars (d :: l)
  else bool_decide (c = "_"%char ∨ c = "-"%char) && (isdigit d && index_chars (d :: l)).
Proof. done. Qed.

Lemma index_chars_app b u :
  b ≠ [] → not_separator b → index_chars u = true → index_chars (b ++ u) = index_chars b.
Proof.
  intros Hb Hs Hu. induction b as [|c b IH]; [done|].
  destruct b as [|d b].
  - destruct (Hs c eq_refl). cbn. rewrite Hu. destruct (isdigit c); [done|].
    by rewrite bool_decide_eq_false_2 by naive_solver.
  - assert (not_separator (d :: b)) as Hs' by (intros x Hx; by apply Hs).
    specialize (IH ltac:(done) Hs'). cbn [app] in *.
    rewrite !index_chars_cons2. by rewrite IH.
Qed.

Lemma erase_index_app b u :
  not_separator b → index_suffix u = true →
  erase_suffix index_suffix (b ++ u) = erase_suffix index_suffix b.
Proof.
  intros Hs Hu. induction b as [|c b IH].
  - cbn [app]. destruct u; [done|]. cbn [erase_suffix]. by rewrite Hu.
  - cbn [app erase_suffix].
    assert (index_suffix (c :: b ++ u) = index_suffix (c :: b)) as ->.
    { unfold index_suffix. cbn [negb bool_decide]. rewrite !bool_decide_eq_false_2 by done. cbn [negb andb].
      apply (index_chars_app (c :: b) u); [done|done|]. unfold index_suffix in Hu. bool_hyps. done. }
    destruct (index_suffix (c :: b)); [done|]. f_equal. apply IH.
    intros x Hx. apply Hs. by destruct b.
Qed.

Lemma bracket_suffix_no l : "["%char ∉ l → bracket_suffix l = false.
Proof.
  destruct l as [|c l]; [done|]. intros Hl. cbn. destruct (isspace c); [|done]. cbn.
  destruct (drop_spaces l) as [|d t] eqn:Hd; [done|].
  assert (d ∈ l) as Hin.
  { assert (∀ l, drop_spaces l ⊆ l) as Hsub.
    { clear. induction l as [|x l IH]; cbn; [done|]. destruct (isspace x); set_solver. }
    apply Hsub. rewrite Hd. left. }
  rewrite bool_decide_eq_false_2; [done|]. intros ->. set_solver.
Qed.

Lemma erase_suffix_none p l : (∀ k, k `suffix_of` l → p k = false) → erase_suffix p l = l.
Proof.
  induction l as [|c l IH]; intros Hp; cbn; rewrite (Hp _ ltac:(reflexivity)); [done|].
  f_equal. apply IH. intros k Hk. apply Hp. by apply suffix_cons_r.
Qed.

Lemma erase_bracket_none l : "["%char ∉ l → erase_suffix bracket_suffix l = l.
Proof.
  intros Hl. apply erase_suffix_none. intros k [m ->]. apply bracket_suffix_no. set_solver.
Qed.

Lemma index_chars_no_bracket u : index_chars u = true → "["%char ∉ u.
Proof.
  induction u as [|c u IH]; intros Hu; [set_solver|]. cbn in Hu.
  rewrite not_elem_of_cons. destruct (isdigit c) eqn:Hc.
  - split; [intros <-; by vm_compute in Hc|by apply IH].
  - apply andb_true_iff in Hu as [Hs Hu]. apply bool_decide_eq_true_1 in Hs.
    split; [naive_solver|]. apply IH. destruct u; [done|]. by apply andb_true_iff in Hu as [_ ?].
Qed.

(** the workers of one pool share a placement family.  A thread name that
    is a base name (without a bracket and not ending in a separator) followed
    by any index, digits in groups optionally separated by [_] or [-], has the
    family of the base name, whatever the index. *)
Theorem pool_shares_family base u start_routine start_symbol
    (Hb : "["%char ∉ base) (Hs : not_separator base) (Hu : index_suffix u = true) :
  normalize_group (text (base ++ u)) start_routine start_symbol =
  normalize_group (text base) start_routine start_symbol.
Proof.
  unfold normalize_group, normalized_name, chars, text.
  rewrite !String.list_ascii_of_string_of_list_ascii.
  assert ("["%char ∉ base ++ u) as Hbu.
  { unfold index_suffix in Hu. apply andb_true_iff in Hu as [_ Hu].
    apply index_chars_no_bracket in Hu. set_solver. }
  by rewrite !erase_bracket_none, erase_index_app by done.
Qed.

Lemma pool_shares_family_witness :
  normalize_group (text (chars "pool" ++ chars "-1_27")) 0 "run" = "pool@run"%string.
Proof.
  rewrite (pool_shares_family (chars "pool") (chars "-1_27")); [reflexivity| | |reflexivity].
  - vm_compute. intros H. repeat (apply elem_of_cons in H as [H|H]; [discriminate|]).
    by apply elem_of_nil in H.
  - intros c [= <-]. by split.
Defined.
