(* ===== verification/ThreadProfile.v ===== *)
(** * Thread profiles ([src/thread_profile.cpp], [include/affinitygraph/thread_profile.hpp])

    The field extraction from the profile's JSON text, the validation of its
    rules, and the stateful assignment of rule instances to threads.  The
    content of the profile file is an argument; [write_thread_profile] is not
    modelled (only its string escaping is). *)
From Stdlib Require Import Ascii.
From S2P Require Import Prelude Binary64 Core CpuList Topology.
Local Open Scope string_scope.
Local Open Scope Z_scope.

(** ** Data *)
Record ThreadProfileMatch := mk_ThreadProfileMatch {
  pm_comm : option string;
  pm_comm_prefix : option string;
  pm_cgroup : option string;
  pm_cgroup_prefix : option string;
  pm_tid : option Z;
}.

(** [struct ThreadProfileAffinity] has the single field [cpus]. *)
Record ThreadProfileAffinity := mk_ThreadProfileAffinity { pa_cpus : list Z }.

Record ThreadProfileRule := mk_ThreadProfileRule {
  rule_id : string;
  rule_match : ThreadProfileMatch;
  rule_allowed_cpus : list Z;
  rule_affinities : list ThreadProfileAffinity;
  rule_dynamic : bool;
}.

Record ThreadProfileDynamic := mk_ThreadProfileDynamic {
  dyn_enabled : bool;
  small_step_threads : Z;
  large_change_ratio : double;
  large_step_threads : Z;
  cooldown_seconds : Z;
}.

Record ThreadProfile := mk_ThreadProfile {
  schema_version : Z;
  profile_id : string;
  generated_at : string;
  profile_status : string;
  source_commit : string;
  experiment_id : string;
  test_id : string;
  profile_description : string;
  profile_dynamic : ThreadProfileDynamic;
  placements : list ThreadProfileRule;
}.

Record ProfileAssignment := mk_ProfileAssignment {
  as_rule_id : string;
  as_instance : Z;
  as_target_cpus : list Z;
  as_allowed_cpus : list Z;
  as_dynamic : bool;
}.

(** ** Regular-expression fields *)

(** What follows [pre] in [l], when [l] starts with it. *)
Fixpoint strip_prefix (pre l : list ascii) : option (list ascii) :=
  match pre, l with
  | [], _ => Some l
  | a :: pre', b :: l' => if bool_decide (a = b) then strip_prefix pre' l' else None
  | _, [] => None
  end.

Definition quote : ascii := ascii_of_nat 34.
Definition quoted_key (key : string) : list ascii := quote :: chars key ++ [quote].

(** Leftmost match of ["key"\s*:\s*VALUE], for a matcher of VALUE. *)
Fixpoint search_field {A} (key : string) (value : list ascii → option A) (l : list ascii) : option A :=
  match (rest ← strip_prefix (quoted_key key) l;
         rest ← strip_prefix [":"%char] (drop_spaces rest);
         value (drop_spaces rest)) with
  | Some a => Some a
  | None => match l with [] => None | _ :: l' => search_field key value l' end
  end.

(** [null] or a quoted string without escapes. *)
Definition string_value (l : list ascii) : option (option string) :=
  match strip_prefix (chars "null") l with
  | Some _ => Some None
  | None =>
      match l with
      | c :: l' => if bool_decide (c = quote) then
                     match split_first quote l' with Some (s, _) => Some (Some (text s)) | None => None end
                   else None
      | [] => None
      end
  end.

Definition string_field (l : list ascii) (key : string) : option string :=
  match search_field key string_value l with Some (Some s) => Some s | _ => None end.

(** [[-+]?[0-9]+(\.[0-9]+)?] *)
Definition number_value (l : list ascii) : option (list ascii) :=
  let '(sign, body) :=
    match l with
    | c :: l' => if bool_decide (c = "-"%char ∨ c = "+"%char) then ([c], l') else ([], l)
    | [] => ([], l)
    end in
  let '(ip, rest) := span isdigit body in
  if bool_decide (ip = []) then None else
  let fraction :=
    match rest with
    | c :: r => if bool_decide (c = "."%char) then
                  let '(fp, _) := span isdigit r in if bool_decide (fp = []) then [] else c :: fp
                else []
    | [] => []
    end in
  Some ((sign ++ ip ++ fraction)%list).

(** [std::stoll]: 64-bit range. *)
Definition stoll (l : list ascii) : result Z :=
  let '(neg, body) :=
    match l with
    | c :: l' => if bool_decide (c = "-"%char) then (true, l')
                 else if bool_decide (c = "+"%char) then (false, l') else (false, l)
    | [] => (false, l)
    end in
  let v := digits_value 0 body in
  let v := if neg then - v else v in
  if (v <? - 2 ^ 63) || (2 ^ 63 - 1 <? v) then Throw (out_of_range "stoll") else Ok v.

(** [static_cast<int>] wraps modulo 2^32. *)
Definition to_int (z : Z) : Z := (z + 2 ^ 31) `mod` 2 ^ 32 - 2 ^ 31.

Definition missing (key : string) : exn := runtime_error ("profile field missing: " +:+ key).

Definition int_field (l : list ascii) (key : string) : result Z :=
  match search_field key number_value l with
  | None => Throw (missing key)
  | Some n => v ← stoll n; Ok (to_int v)
  end.
Definition double_field (l : list ascii) (key : string) : result double :=
  match search_field key number_value l with None => Throw (missing key) | Some n => stod n end.

Definition bool_value (l : list ascii) : option bool :=
  match strip_prefix (chars "true") l with
  | Some _ => Some true
  | None => match strip_prefix (chars "false") l with Some _ => Some false | None => None end
  end.
Definition bool_field (l : list ascii) (key : string) : result bool :=
  match search_field key bool_value l with None => Throw (missing key) | Some b => Ok b end.

(** ** Containers *)

(** [text.find(needle)]: the suffix at the leftmost occurrence. *)
Fixpoint find_text (needle l : list ascii) : option (list ascii) :=
  match strip_prefix needle l with
  | Some _ => Some l
  | None => match l with [] => None | _ :: l' => find_text needle l' end
  end.

Definition backslash : ascii := "\"%char.

(** The scan of [object_after] behind the opening character: [prev] is the
    character before the current one, [acc] what has been read (reversed). *)
Fixpoint close_scan (open close prev : ascii) (quoted : bool) (depth : Z) (acc l : list ascii) :
    option (list ascii) :=
  match l with
  | [] => None
  | c :: l' =>
      let quoted := if bool_decide (c = quote) && negb (bool_decide (prev = backslash))
                    then negb quoted else quoted in
      if quoted then close_scan open close c quoted depth (c :: acc) l' else
      let depth := if bool_decide (c = open) then depth + 1 else depth in
      if bool_decide (c = close) then
        if depth - 1 =? 0 then Some (rev acc)
        else close_scan open close c quoted (depth - 1) (c :: acc) l'
      else close_scan open close c quoted depth (c :: acc) l'
  end.

Definition object_after (l : list ascii) (key : string) (open close : ascii) : result (list ascii) :=
  match find_text (quoted_key key) l with
  | None => Throw (missing key)
  | Some marker =>
      match split_first open marker with
      | None => Throw (runtime_error ("profile container invalid: " +:+ key))
      | Some (_, inside) =>
          match close_scan open close open false 1 [] inside with
          | Some s => Ok s
          | None => Throw (runtime_error ("profile container unterminated: " +:+ key))
          end
      end
  end.

(** [cur]: the text since the last top-level opening brace, reversed. *)
Fixpoint objects_scan (first : bool) (prev : ascii) (quoted : bool) (depth : Z) (cur l : list ascii) :
    list (list ascii) :=
  match l with
  | [] => []
  | c :: l' =>
      let quoted := if bool_decide (c = quote) && (first || negb (bool_decide (prev = backslash)))
                    then negb quoted else quoted in
      if quoted then objects_scan false c quoted depth (c :: cur) l' else
      if bool_decide (c = "{"%char) then
        objects_scan false c quoted (depth + 1) (if depth =? 0 then [c] else c :: cur) l'
      else if bool_decide (c = "}"%char) then
        if depth - 1 =? 0 then rev (c :: cur) :: objects_scan false c quoted (depth - 1) (c :: cur) l'
        else objects_scan false c quoted (depth - 1) (c :: cur) l'
      else objects_scan false c quoted depth (c :: cur) l'
  end.
Definition objects (l : list ascii) : list (list ascii) := objects_scan true quote false 0 [] l.

(** ** Rules *)

(** [std::binary_search] of every element; both ranges come sorted from
    [parse_cpu_list], where binary search decides membership. *)
Definition subset (l r : list Z) : bool := forallb (λ cpu, bool_decide (cpu ∈ r)) l.

Definition is_set {A} (o : option A) : bool := match o with Some _ => true | None => false end.

Definition validate_rule (r : ThreadProfileRule) (envelope : list Z) : result unit :=
  let m := rule_match r in
  _ ← throw_if (bool_decide (rule_id r = "") || bool_decide (rule_affinities r = []) ||
                bool_decide (rule_allowed_cpus r = []))
        (runtime_error "profile rule requires id, allowed_cpus, and affinities");
  _ ← throw_if ((is_set (pm_comm m) && is_set (pm_comm_prefix m)) ||
                (is_set (pm_cgroup m) && is_set (pm_cgroup_prefix m)) ||
                (negb (is_set (pm_comm m)) && negb (is_set (pm_comm_prefix m)) &&
                 negb (is_set (pm_cgroup m)) && negb (is_set (pm_cgroup_prefix m)) &&
                 negb (is_set (pm_tid m))))
        (runtime_error ("profile rule has invalid match fields: " +:+ rule_id r));
  _ ← throw_if (negb (subset (rule_allowed_cpus r) envelope))
        (runtime_error ("profile allowed_cpus outside resource envelope: " +:+ rule_id r));
  match rule_affinities r with
  | [a] => throw_if (bool_decide (pa_cpus a = []) || negb (subset (pa_cpus a) (rule_allowed_cpus r)))
             (runtime_error ("profile affinity is invalid: " +:+ rule_id r))
  | _ => Throw (runtime_error ("profile rule must have exactly one affinity: " +:+ rule_id r))
  end.

Definition load_affinity (acc : list ThreadProfileAffinity) (a : list ascii) :
    result (list ThreadProfileAffinity) :=
  cpus ← parse_cpu_list (default "" (string_field a "cpus"));
  Ok (acc ++ [mk_ThreadProfileAffinity cpus])%list.

(** The [tid] of a match object: [([0-9]+)] and [std::stoi]. *)
Definition tid_value (l : list ascii) : option (list ascii) :=
  let '(ds, _) := span isdigit l in if bool_decide (ds = []) then None else Some ds.

Definition load_rule (envelope : list Z) (acc : gset string * list ThreadProfileRule)
    (node : list ascii) : result (gset string * list ThreadProfileRule) :=
  let '(ids, rules) := acc in
  m ← object_after node "match" "{"%char "}"%char;
  t ← match search_field "tid" tid_value m with
      | None => Ok None
      | Some ds => v ← stoi ds; Ok (Some v)
      end;
  let pm := mk_ThreadProfileMatch (string_field m "comm") (string_field m "comm_prefix")
              (string_field m "cgroup") (string_field m "cgroup_prefix") t in
  allowed ← parse_cpu_list (default "" (string_field node "allowed_cpus"));
  dynamic ← bool_field node "dynamic";
  affs ← object_after node "affinities" "["%char "]"%char;
  affinities ← foldlM load_affinity [] (objects affs);
  let id := default "" (string_field node "id") in
  let rule := mk_ThreadProfileRule id pm allowed affinities dynamic in
  _ ← throw_if (bool_decide (id ∈ ids)) (runtime_error ("duplicate profile rule id: " +:+ id));
  _ ← validate_rule rule envelope;
  Ok ({[id]} ∪ ids, rules ++ [rule])%list.

Definition metadata_ok (p : ThreadProfile) : bool :=
  let d := profile_dynamic p in
  negb ((negb (schema_version p =? 1) && negb (schema_version p =? 2)) ||
        bool_decide (profile_id p = "") || bool_decide (generated_at p = "") ||
        (negb (bool_decide (profile_status p = "candidate")) &&
         negb (bool_decide (profile_status p = "tested"))) ||
        (small_step_threads d <? 1) || (large_step_threads d <? small_step_threads d) ||
        (large_change_ratio d <=? d0)%D || (d1 <? large_change_ratio d)%D ||
        (cooldown_seconds d <? 0)).

(** [load_thread_profile] on the text of the file, [None] when it cannot be
    opened. *)
Definition load_thread_profile (path : string) (file : option string) (envelope : list Z) :
    result ThreadProfile :=
  match file with
  | None => Throw (runtime_error ("cannot open thread profile: " +:+ path))
  | Some contents =>
      let root := chars contents in
      let field l k := default "" (string_field l k) in
      version ← int_field root "schema_version";
      source ← object_after root "source" "{"%char "}"%char;
      applicability ← object_after root "applicability" "{"%char "}"%char;
      dynamic ← object_after root "dynamic" "{"%char "}"%char;
      enabled ← bool_field dynamic "enabled";
      small ← int_field dynamic "small_step_threads";
      ratio ← double_field dynamic "large_change_ratio";
      large ← int_field dynamic "large_step_threads";
      cooldown ← int_field dynamic "cooldown_seconds";
      let p rules :=
        mk_ThreadProfile version (field root "profile_id") (field root "generated_at")
          (field root "status") (field source "commit") (field source "experiment_id")
          (field source "test_id") (field applicability "description")
          (mk_ThreadProfileDynamic enabled small ratio large cooldown) rules in
      _ ← throw_if (negb (metadata_ok (p []))) (runtime_error "thread profile has unsupported metadata");
      nodes ← object_after root "placements" "["%char "]"%char;
      '(_, rules) ← foldlM (load_rule envelope) (∅, []) (objects nodes);
      Ok (p rules)
  end.

(** ** Matching and assignment *)

(** [value.rfind(prefix, 0) == 0] *)
Definition starts_with (prefix value : string) : bool :=
  match strip_prefix (chars prefix) (chars value) with Some _ => true | None => false end.

Definition profile_rule_matches (r : ThreadProfileRule) (x : ThreadSample) : bool :=
  let m := rule_match r in
  let has_cgroup value prefix :=
    existsb (λ path, if (prefix : bool) then starts_with value path else bool_decide (path = value))
      (ts_cgroups x) in
  match pm_comm m with None => true | Some c => bool_decide (ts_comm x = c) end &&
  match pm_comm_prefix m with None => true | Some c => starts_with c (ts_comm x) end &&
  match pm_cgroup m with None => true | Some c => has_cgroup c false end &&
  match pm_cgroup_prefix m with None => true | Some c => has_cgroup c true end &&
  match pm_tid m with None => true | Some t => tid (ts_identity x) =? t end.

(** The two maps the caller keeps. *)
Record AssignmentState := mk_AssignmentState {
  next_instances : gmap string Z;
  assigned : gmap ThreadIdentity ProfileAssignment;
}.

(** [profile_assignment]: the recorded assignment, or the next instance of the
    first matching rule ([affinities[0]] exists for validated rules). *)
Definition profile_assignment (p : ThreadProfile) (x : ThreadSample) (st : AssignmentState) :
    option ProfileAssignment * AssignmentState :=
  match assigned st !! ts_identity x with
  | Some a => (Some a, st)
  | None =>
      match list_find (λ r, profile_rule_matches r x = true) (placements p) with
      | None => (None, st)
      | Some (_, r) =>
          let instance := get_or 0 (next_instances st) (rule_id r) in
          let cpus := match rule_affinities r with a :: _ => pa_cpus a | [] => [] end in
          let a := mk_ProfileAssignment (rule_id r) instance cpus (rule_allowed_cpus r) (rule_dynamic r) in
          (Some a, mk_AssignmentState (<[rule_id r := u64 (instance + 1)]> (next_instances st))
                     (<[ts_identity x := a]> (assigned st)))
      end
  end.

(** ** [esc] and [optional_json] of the writer *)
Definition newline : ascii := ascii_of_nat 10.

Fixpoint esc (l : list ascii) : list ascii :=
  match l with
  | [] => []
  | c :: l' =>
      if bool_decide (c = quote ∨ c = backslash) then backslash :: c :: esc l'
      else if bool_decide (c = newline) then backslash :: "n"%char :: esc l'
      else if 32 <=? code c then c :: esc l' else esc l'
  end.

Definition optional_json (v : option string) : list ascii :=
  match v with Some s => quote :: esc (chars s) ++ [quote] | None => chars "null" end.
