(* ===== verification/ProfileProperties.v ===== *)
(** * Properties of thread profiles *)
From Stdlib Require Import Ascii.
From S2P Require Import Prelude Binary64 Core CpuList Topology ThreadProfile.
Local Open Scope string_scope.
Local Open Scope Z_scope.

(** ** Loading *)
Record rule_ok (envelope : list Z) (r : ThreadProfileRule) : Prop := {
  rk_id : rule_id r ≠ "";
  rk_affinity : ∃ a, rule_affinities r = [a] ∧ pa_cpus a ≠ [] ∧ pa_cpus a ⊆ rule_allowed_cpus r;
  rk_allowed : rule_allowed_cpus r ⊆ envelope;
  rk_comm : pm_comm (rule_match r) = None ∨ pm_comm_prefix (rule_match r) = None;
  rk_cgroup : pm_cgroup (rule_match r) = None ∨ pm_cgroup_prefix (rule_match r) = None;
  rk_some : is_Some (pm_comm (rule_match r)) ∨ is_Some (pm_comm_prefix (rule_match r)) ∨
    is_Some (pm_cgroup (rule_match r)) ∨ is_Some (pm_cgroup_prefix (rule_match r)) ∨
    is_Some (pm_tid (rule_match r));
}.

Lemma subset_spec l r : subset l r = true ↔ l ⊆ r.
Proof.
  unfold subset. rewrite forallb_elem_of. setoid_rewrite bool_decide_eq_true. done.
Qed.

Lemma is_set_false {A} (o : option A) : is_set o = false ↔ o = None.
Proof. by destruct o. Qed.
Lemma is_set_true {A} (o : option A) : is_set o = true ↔ is_Some o.
Proof. by destruct o. Qed.

Lemma validate_rule_ok r envelope u : validate_rule r envelope = Ok u → rule_ok envelope r.
Proof.
  unfold validate_rule. set (m := rule_match r).
  intros ([] & H1 & H)%result_bind_Ok. apply throw_if_Ok in H1.
  apply result_bind_Ok in H as ([] & H2 & H). apply throw_if_Ok in H2.
  apply result_bind_Ok in H as ([] & H3 & H). apply throw_if_Ok in H3.
  bool_hyps.
  apply subset_spec in H3. destruct (rule_affinities r) as [|a [|b l]] eqn:Ha; try done.
  apply throw_if_Ok in H. bool_hyps.
  repeat match goal with H : (_ && _) = false |- _ => apply andb_false_iff in H end.
  split; fold m; rewrite <-?is_set_true, <-?is_set_false.
  - done.
  - exists a. split_and!; [done|done|by apply subset_spec].
  - done.
  - tauto.
  - tauto.
  - destruct (is_set (pm_comm m)), (is_set (pm_comm_prefix m)), (is_set (pm_cgroup m)),
      (is_set (pm_cgroup_prefix m)), (is_set (pm_tid m)); cbn in *; try tauto; naive_solver.
Qed.

(** The rules read so far: valid, with the recorded ids, each once. *)
Definition rules_ok (envelope : list Z) (acc : gset string * list ThreadProfileRule) : Prop :=
  NoDup (rule_id <$> acc.2) ∧ (∀ r, r ∈ acc.2 → rule_ok envelope r ∧ rule_id r ∈ acc.1).

Lemma load_rule_ok envelope acc node acc' :
  rules_ok envelope acc → load_rule envelope acc node = Ok acc' → rules_ok envelope acc'.
Proof.
  destruct acc as [ids rules]. intros [Hnd Hall]. unfold load_rule.
  intros (m & _ & H)%result_bind_Ok. apply result_bind_Ok in H as (t & _ & H).
  apply result_bind_Ok in H as (al & _ & H). apply result_bind_Ok in H as (dy & _ & H).
  apply result_bind_Ok in H as (afs & _ & H). apply result_bind_Ok in H as (affs & _ & H).
  set (r := mk_ThreadProfileRule _ _ _ _ _) in H.
  apply result_bind_Ok in H as ([] & Hd & H). apply throw_if_Ok in Hd. bool_hyps.
  apply result_bind_Ok in H as ([] & Hv & [= <-]). apply validate_rule_ok in Hv.
  set (id := rule_id r). cbn [fst snd] in *. split; cbn [fst snd].
  - rewrite fmap_app. apply NoDup_app. split_and!; [done| |apply NoDup_singleton].
    intros x (r' & -> & Hr')%list_elem_of_fmap Hx%list_elem_of_singleton.
    apply Hd. destruct (Hall r' Hr') as [_ Hid]. by rewrite Hx in Hid.
  - intros r' [Hr'| ->%list_elem_of_singleton]%elem_of_app.
    + destruct (Hall r' Hr') as [? ?]. split; [done|]. by apply elem_of_union_r.
    + split; [done|]. by apply elem_of_union_l, elem_of_singleton.
Qed.

(** C39: a profile that loads is usable: its schema is 1 or 2 and its dynamic
    parameters are in range, its rule ids are distinct and non-empty, and every
    rule has at least one match field, never both the exact and the prefix form
    of the thread name nor both of the cgroup, and exactly one non-empty
    affinity, contained in the rule's allowed CPUs, which are contained in the
    resource envelope. *)
Theorem loaded_profile_valid path file envelope p
    (Hl : load_thread_profile path file envelope = Ok p) :
  (schema_version p = 1 ∨ schema_version p = 2) ∧
  (profile_status p = "candidate" ∨ profile_status p = "tested") ∧
  (1 ≤ small_step_threads (profile_dynamic p) ≤ large_step_threads (profile_dynamic p)) ∧
  (large_change_ratio (profile_dynamic p) <=? d0)%D = false ∧
  (d1 <? large_change_ratio (profile_dynamic p))%D = false ∧
  0 ≤ cooldown_seconds (profile_dynamic p) ∧
  NoDup (rule_id <$> placements p) ∧
  ∀ r, r ∈ placements p → rule_id r ≠ "" ∧ rule_allowed_cpus r ⊆ envelope ∧
    (∃ a, rule_affinities r = [a] ∧ pa_cpus a ≠ [] ∧ pa_cpus a ⊆ rule_allowed_cpus r) ∧
    (pm_comm (rule_match r) = None ∨ pm_comm_prefix (rule_match r) = None) ∧
    (pm_cgroup (rule_match r) = None ∨ pm_cgroup_prefix (rule_match r) = None) ∧
    (is_Some (pm_comm (rule_match r)) ∨ is_Some (pm_comm_prefix (rule_match r)) ∨
     is_Some (pm_cgroup (rule_match r)) ∨ is_Some (pm_cgroup_prefix (rule_match r)) ∨
     is_Some (pm_tid (rule_match r))).
Proof.
  unfold load_thread_profile in Hl. destruct file as [contents|]; [|done].
  repeat match type of Hl with
  | (_ ≫= _) = Ok _ => apply result_bind_Ok in Hl as (? & ? & Hl)
  end.
  destruct x10 as [ids rules]. injection Hl as <-. cbn [placements schema_version profile_status profile_dynamic].
  match goal with H : throw_if _ _ = Ok _ |- _ => apply throw_if_Ok in H; rename H into Hmeta end.
  unfold metadata_ok in Hmeta. cbn in Hmeta. rewrite !negb_involutive in Hmeta. bool_hyps.
  repeat match goal with H : (_ && _) = false |- _ => apply andb_false_iff in H end.
  assert (rules_ok envelope (ids, rules)) as [Hnd Hall].
  { eapply (foldlM_invariant (load_rule envelope) (rules_ok envelope)); [| |eassumption].
    - split; cbn; [apply NoDup_nil_2|set_solver].
    - intros acc node acc' _. apply load_rule_ok. }
  cbn in *. split_and!; try done; try lia.
  - match goal with H : negb (bool_decide (_ = "candidate")) = false ∨ _ |- _ =>
      destruct H as [?|?]; bool_hyps; [by left|by right] end.
  - intros r Hr. destruct (Hall r Hr) as [[K1 K2 K3 K4 K5 K6] _]. done.
Qed.

(** Text with single quotes in place of the double quotes of JSON. *)
Definition json (s : string) : string :=
  text ((λ c, if bool_decide (c = "'"%char) then quote else c) <$> chars s).

Definition demo_profile_text : string := json
  ("{'schema_version': 2, 'profile_id': 'p', 'generated_at': 'now', 'status': 'tested'," +:+
   " 'source': {'commit': 'c'}, 'applicability': {'description': 'd'}," +:+
   " 'dynamic': {'enabled': false, 'small_step_threads': 1, 'large_change_ratio': 0.3," +:+
   " 'large_step_threads': 4, 'cooldown_seconds': 10}, 'placements': [" +:+
   "{'id': 'pool', 'match': {'comm': null, 'comm_prefix': 'Pipe', 'tid': null}," +:+
   " 'allowed_cpus': '0-3', 'dynamic': false, 'affinities': [{'cpus': '2-3'}]}]}").

Definition demo_profile : ThreadProfile :=
  match load_thread_profile "p.json" (Some demo_profile_text) [0; 1; 2; 3] with
  | Ok p => p
  | Throw _ => mk_ThreadProfile 0 "" "" "" "" "" "" "" (mk_ThreadProfileDynamic false 0 d0 0 0) []
  end.

Lemma loaded_profile_valid_witness :
  length (placements demo_profile) = 1%nat ∧
  ∀ r, r ∈ placements demo_profile → rule_allowed_cpus r ⊆ [0; 1; 2; 3].
Proof.
  split; [by vm_compute|]. intros r Hr.
  assert (load_thread_profile "p.json" (Some demo_profile_text) [0; 1; 2; 3] = Ok demo_profile) as Hl
    by (by vm_compute).
  destruct (loaded_profile_valid _ _ _ _ Hl) as (_ & _ & _ & _ & _ & _ & _ & H).
  apply (H r Hr).
Defined.

(** ** Assignment *)
Definition assign_all (p : ThreadProfile) (xs : list ThreadSample) (st : AssignmentState) :
    AssignmentState := foldl (λ st x, (profile_assignment p x st).2) st xs.

(** Instances handed out are below the rule's counter, and distinct. *)
Record assignment_inv (n : Z) (st : AssignmentState) : Prop := {
  an_next : ∀ r, 0 ≤ get_or 0 (next_instances st) r ≤ n;
  an_below : ∀ i a, assigned st !! i = Some a →
    0 ≤ as_instance a < get_or 0 (next_instances st) (as_rule_id a);
  an_inj : ∀ i j a b, assigned st !! i = Some a → assigned st !! j = Some b →
    as_rule_id a = as_rule_id b → as_instance a = as_instance b → i = j;
}.

Lemma get_or_insert {K} `{Countable K} (k k' : K) (v : Z) m :
  get_or 0 (<[k := v]> m) k' = if decide (k' = k) then v else get_or 0 m k'.
Proof.
  unfold get_or. case_decide; subst; [by rewrite lookup_insert_eq|by rewrite lookup_insert_ne].
Qed.

Lemma profile_assignment_inv p x n st :
  n + 1 < 2 ^ 64 → assignment_inv n st → assignment_inv (n + 1) (profile_assignment p x st).2.
Proof.
  intros Hn [Hnext Hbelow Hinj].
  assert (assignment_inv (n + 1) st) as Hsame.
  { split; [intros r; specialize (Hnext r); lia|done|done]. }
  unfold profile_assignment. destruct (assigned st !! ts_identity x) as [a0|] eqn:Ha; [done|].
  destruct (list_find _ _) as [[i r]|]; [|done]. cbn.
  set (inst := get_or 0 (next_instances st) (rule_id r)).
  pose proof (Hnext (rule_id r)) as Hr. fold inst in Hr.
  assert (u64 (inst + 1) = inst + 1) as -> by (apply Z.mod_small; lia).
  split; cbn.
  - intros r'. rewrite get_or_insert. case_decide; [lia|]. specialize (Hnext r'). lia.
  - intros j a. rewrite lookup_insert_Some, get_or_insert. intros [[<- <-]|[_ Hj]]; cbn.
    + rewrite decide_True by done. lia.
    + specialize (Hbelow j a Hj). case_decide as He; [|lia]. rewrite He in Hbelow. fold inst in Hbelow. lia.
  - intros j k a b. rewrite !lookup_insert_Some.
    intros [[<- <-]|[_ Hj]] [[<- <-]|[_ Hk]] Hrule Hinst; cbn in *; [done| | |by eapply Hinj].
    + specialize (Hbelow k b Hk). rewrite <-Hrule, <-Hinst in Hbelow. fold inst in Hbelow. lia.
    + specialize (Hbelow j a Hj). rewrite Hrule, Hinst in Hbelow. fold inst in Hbelow. lia.
Qed.

(** processing any sequence of fewer than 2^64 samples gives every thread
    instance at most one assignment, never changes it afterwards, numbers the
    instances of a rule without repetition, and takes the first rule of the
    profile that matches the thread. *)
Theorem assignments_distinct p xs
    (Hlen : Z.of_nat (length xs) < 2 ^ 64) :
  let st := assign_all p xs (mk_AssignmentState ∅ ∅) in
  (∀ i j a b, assigned st !! i = Some a → assigned st !! j = Some b →
     as_rule_id a = as_rule_id b → as_instance a = as_instance b → i = j) ∧
  (∀ x a, assigned st !! ts_identity x = Some a → profile_assignment p x st = (Some a, st)) ∧
  (∀ x, assigned st !! ts_identity x = None →
     match list_find (λ r, profile_rule_matches r x = true) (placements p) with
     | Some (_, r) => ∃ a st', profile_assignment p x st = (Some a, st') ∧
         as_rule_id a = rule_id r ∧ as_allowed_cpus a = rule_allowed_cpus r
     | None => profile_assignment p x st = (None, st)
     end).
Proof.
  cbv zeta. set (st := assign_all _ _ _).
  assert (assignment_inv (Z.of_nat (length xs)) st) as [_ _ Hinj].
  { unfold st, assign_all. refine (foldl_invariant_prefix
      (λ st x, (profile_assignment p x st).2)
      (λ pre st, assignment_inv (Z.of_nat (length pre)) st) xs _ _ _).
    - split; cbn; [done|intros i a|intros i j a b]; by rewrite lookup_empty.
    - intros pre x rest st0 Hxs H0. rewrite length_app. cbn [length].
      replace (Z.of_nat (length pre + 1)) with (Z.of_nat (length pre) + 1) by lia.
      apply profile_assignment_inv; [|done]. rewrite Hxs, length_app in Hlen. cbn in Hlen. lia. }
  split_and!; [done| |].
  - intros x a Ha. unfold profile_assignment. by rewrite Ha.
  - intros x Hx. unfold profile_assignment. rewrite Hx.
    destruct (list_find _ _) as [[i r]|]; [|done]. by do 2 eexists.
Qed.

Definition demo_profile_sample (t : Z) (comm : string) : ThreadSample :=
  mk_ThreadSample (mk_ThreadIdentity 1 t 5) 0 0 0 0 0 0 "R"%char comm [] [] 1 0 "".

Definition demo_profile_samples : list ThreadSample :=
  [demo_profile_sample 1 "Pipe_a"; demo_profile_sample 2 "other"; demo_profile_sample 3 "Pipe_b"].

Lemma assignments_distinct_witness :
  let st := assign_all demo_profile demo_profile_samples (mk_AssignmentState ∅ ∅) in
  as_instance <$> assigned st !! mk_ThreadIdentity 1 3 5 = Some 1 ∧
  (∀ i a, assigned st !! i = Some a → as_rule_id a = "pool" → as_instance a = 1 →
     i = mk_ThreadIdentity 1 3 5).
Proof.
  cbv zeta. split; [by vm_compute|].
  destruct (assignments_distinct demo_profile demo_profile_samples) as (H & _).
  { vm_compute. reflexivity. }
  intros i a Hi Hr Ha. set (st := assign_all _ _ _) in *.
  destruct (assigned st !! mk_ThreadIdentity 1 3 5) as [b|] eqn:Hb; [|by vm_compute in Hb].
  assert (as_rule_id b = "pool" ∧ as_instance b = 1) as [Hbr Hbi].
  { vm_compute in Hb. injection Hb as <-. split; reflexivity. }
  apply (H i (mk_ThreadIdentity 1 3 5) a b Hi Hb); congruence.
Defined.

(** ** Strings written and read back *)

(** A character the writer copies unchanged. *)
Definition plain_char (c : ascii) : bool :=
  (32 <=? code c) && negb (bool_decide (c = quote)) && negb (bool_decide (c = backslash)).

Lemma esc_plain l : forallb plain_char l = true → esc l = l.
Proof.
  induction l as [|c l IH]; cbn; [done|]. intros [Hc Hl]%andb_true_iff. unfold plain_char in Hc.
  bool_hyps. rewrite bool_decide_eq_false_2 by naive_solver.
  rewrite bool_decide_eq_false_2; [|intros ->; by vm_compute in H].
  rewrite (proj2 (Z.leb_le _ _)) by lia. f_equal. by apply IH.
Qed.

Lemma split_first_plain l rest :
  forallb plain_char l = true → split_first quote (l ++ quote :: rest)%list = Some (l, rest).
Proof.
  induction l as [|c l IH]; [done|]. cbn [forallb]. intros [Hc Hl]%andb_true_iff. cbn [app split_first].
  unfold plain_char in Hc. bool_hyps. rewrite bool_decide_eq_false_2 by done. by rewrite IH.
Qed.

Lemma strip_prefix_app pre l : strip_prefix pre (pre ++ l)%list = Some l.
Proof. induction pre as [|c pre IH]; [done|]. cbn. by rewrite bool_decide_eq_true_2. Qed.

(** The way [write_thread_profile] prints a string member. *)
Definition written_field (key : string) (value rest : list ascii) : list ascii :=
  (quoted_key key ++ chars ": " ++ quote :: esc value ++ quote :: rest)%list.

(** a string member made of printable characters other than the quote and
    the backslash is read back from the text the writer prints; a value with a
    quote or a backslash is escaped by the writer and not unescaped by the
    reader, so it comes back changed. *)
Theorem written_string_read_back key value rest
    (Hplain : forallb plain_char value = true) :
  string_field (written_field key value rest) key = Some (text value) ∧
  string_field (written_field "id" [quote] []) "id" = Some (text [backslash]) ∧
  string_field (written_field "id" [backslash] []) "id" = Some (text [backslash; backslash]).
Proof.
  split; [|by vm_compute]. unfold string_field, written_field.
  assert (∀ r, search_field key string_value (quoted_key key ++ r)%list =
    match (x ← strip_prefix [":"%char] (drop_spaces r); string_value (drop_spaces x)) with
    | Some a => Some a
    | None => search_field key string_value (chars key ++ quote :: r)%list
    end) as ->.
  { intros r. unfold quoted_key. cbn [app]. cbn [search_field]. fold (quoted_key key).
    assert (strip_prefix (quoted_key key) (quote :: (chars key ++ [quote]) ++ r)%list = Some r) as ->
      by apply (strip_prefix_app (quoted_key key) r).
    cbn [mbind option_bind]. rewrite <-app_assoc. done. }
  rewrite esc_plain by done.
  assert (string_value (quote :: value ++ quote :: rest)%list = Some (Some (text value))) as Hv.
  { unfold string_value.
    assert (strip_prefix (chars "null") (quote :: value ++ quote :: rest)%list = None) as -> by reflexivity.
    by rewrite bool_decide_eq_true_2, split_first_plain. }
  assert (strip_prefix [":"%char] (drop_spaces (chars ": " ++ quote :: value ++ quote :: rest)%list) =
    Some (" "%char :: quote :: value ++ quote :: rest)%list) as -> by reflexivity.
  cbn [mbind option_bind].
  assert (drop_spaces (" "%char :: quote :: value ++ quote :: rest)%list =
    (quote :: value ++ quote :: rest)%list) as -> by reflexivity.
  by rewrite Hv.
Qed.

Lemma written_string_read_back_witness :
  string_field (written_field "id" (chars "node 2") (chars ", next")) "id" = Some "node 2".
Proof. apply (written_string_read_back "id" (chars "node 2") (chars ", next")). reflexivity. Defined.
