(* ===== verification/Config.v ===== *)
(** * Configuration ([include/affinitygraph/core.hpp]: [Config]; [src/config.cpp])

    The record of tunables with its defaults, and [load_config]: the reader of
    the TOML subset (sections, one [key = value] per line, [#] comments), the
    precedence of the CPU sources and the final range validation.  The file's
    contents, the two environment variables and the process affinity mask are
    arguments.  *)
From Stdlib Require Import SpecFloat Ascii.
From S2P Require Import Prelude Binary64 CpuList Topology.
Local Open Scope string_scope.
Local Open Scope Z_scope.

Inductive Mode := Observe | Plan | Active.

#[export] Instance Mode_eq_dec : EqDecision Mode.
Proof. solve_decision. Defined.

(** A decimal literal of the source with more digits than a binary64 fraction
    holds exactly. *)
Definition literal (s : string) : double :=
  match stod (chars s) with Ok d => d | Throw _ => S754_nan end.

Record Config := mk_Config {
  mode : Mode;
  dynamic : bool;
  static_quiescence_seconds : Z;
  static_scan_seconds : Z;
  cpus : list Z;
  calibration_path : string;
  log_directory : string;
  socket_path : string;
  thread_profile_path : string;
  profile_output_path : string;
  experiment_id : string;
  test_id : string;
  sample_interval_seconds : Z;
  graph_horizon_seconds : Z;
  solve_interval_seconds : Z;
  minimum_confidence : double;
  proposal_confirmations : Z;
  initial_proposal_confirmations : Z;
  minimum_dwell_seconds : Z;
  maximum_migrated_threads_ratio : double;
  initial_migrated_threads_ratio : double;
  collector_failure_restore_seconds : Z;
  solver : string;
  affinity_granularity : string;
  family_minimum_demand : double;
  family_minimum_internal_relation : double;
  family_minimum_self_containment : double;
  family_minimum_relative_internal : double;
  domain_merge_ratio : double;
  family_edges_per_family : Z;
  family_stability_confirmations : Z;
  domain_stability_confirmations : Z;
  domain_plan_confirmations : Z;
  maximum_threads_per_domain : Z;
  domain_capacity_ratio : double;
  domain_expand_ratio : double;
  domain_expand_confirmations : Z;
  domain_shrink_ratio : double;
  domain_shrink_confirmations : Z;
  domain_minimum_dwell_seconds : Z;
  initial_node_passes : Z;
  initial_node_thread_slack_ratio : double;
  candidate_multiplier : Z;
  candidate_hard_limit : Z;
  rotating_scan_size : Z;
  demand_dirty_threshold : double;
  edge_dirty_absolute_threshold : double;
  edge_dirty_relative_threshold : double;
  minimum_relative_gain : double;
  maximum_threads_per_cpu : Z;
  thread_slot_slack : Z;
  future_demand_floor : double;
  group_peak_demand_ratio : double;
  group_peak_demand_cap : double;
  group_peak_decay : double;
  node_balance_threshold : double;
  hotspot_edges_per_thread : Z;
  hotspot_edge_quantile : double;
  hotspot_component_boost : double;
  maximum_managed_threads : Z;
  managed_thread_hysteresis_ratio : double;
  hotspot_replan_growth_ratio : double;
  hotspot_replan_min_threads : Z;
  hotspot_stability_threshold : double;
  hotspot_stability_confirmations : Z;
  active_demand_threshold : double;
  inactive_demand_threshold : double;
  bpf_required : bool;
  pthread_uprobe : bool;
  relationship_calibration_id : string;
  activity_log_p95 : double;
  sync_log_p95 : double;
  share_log_p95 : double;
}.

Definition Config_default : Config :=
  mk_Config Observe true 30 30 [] "" "/tmp/affinitygraph" "/tmp/affinitygraph.sock" "" "" "" ""
    1 60 10 (dlit 8 10) 3 1 60 (dlit 25 100) d1 30 "incremental-hotspot-v1" "singleton_cpu" d1
    d1 (dlit 2 10) (dlit 1 10) (dlit 25 100) 4 3 3 3 1024 (dlit 8 10) (dlit 9 10) 3
    (dlit 55 100) 6 300 2 (dlit 5 10) 4 64 32 (dlit 5 100) d1 (dlit 1 10) (dlit 5 100) 0 0
    (dlit 2 100) (dlit 25 100) (dlit 5 100) (dlit 95 100) (dlit 5 100) 4 (dlit 95 100)
    (double_of_Z 4) 32 d1 (dlit 25 100) 8 (dlit 65 100) 3 (dlit 5 100) d0 false true
    "clickhouse-gate2-fixed-v2" (literal "2.4138804290562152") (literal "2.5591179487485345")
    (dlit 894730347830295 (10 ^ 17)).

(** The record rebuilt field by field; [c <| f := v |>] abstracts one field of
    it: the assignment [c.f = v]. *)
Definition Config_eta (c : Config) : Config :=
  mk_Config (mode c) (dynamic c) (static_quiescence_seconds c) (static_scan_seconds c) (cpus c)
    (calibration_path c) (log_directory c) (socket_path c) (thread_profile_path c)
    (profile_output_path c) (experiment_id c) (test_id c) (sample_interval_seconds c)
    (graph_horizon_seconds c) (solve_interval_seconds c) (minimum_confidence c)
    (proposal_confirmations c) (initial_proposal_confirmations c) (minimum_dwell_seconds c)
    (maximum_migrated_threads_ratio c) (initial_migrated_threads_ratio c)
    (collector_failure_restore_seconds c) (solver c) (affinity_granularity c)
    (family_minimum_demand c) (family_minimum_internal_relation c)
    (family_minimum_self_containment c) (family_minimum_relative_internal c)
    (domain_merge_ratio c) (family_edges_per_family c) (family_stability_confirmations c)
    (domain_stability_confirmations c) (domain_plan_confirmations c)
    (maximum_threads_per_domain c) (domain_capacity_ratio c) (domain_expand_ratio c)
    (domain_expand_confirmations c) (domain_shrink_ratio c) (domain_shrink_confirmations c)
    (domain_minimum_dwell_seconds c) (initial_node_passes c) (initial_node_thread_slack_ratio c)
    (candidate_multiplier c) (candidate_hard_limit c) (rotating_scan_size c)
    (demand_dirty_threshold c) (edge_dirty_absolute_threshold c)
    (edge_dirty_relative_threshold c) (minimum_relative_gain c) (maximum_threads_per_cpu c)
    (thread_slot_slack c) (future_demand_floor c) (group_peak_demand_ratio c)
    (group_peak_demand_cap c) (group_peak_decay c) (node_balance_threshold c)
    (hotspot_edges_per_thread c) (hotspot_edge_quantile c) (hotspot_component_boost c)
    (maximum_managed_threads c) (managed_thread_hysteresis_ratio c)
    (hotspot_replan_growth_ratio c) (hotspot_replan_min_threads c)
    (hotspot_stability_threshold c) (hotspot_stability_confirmations c)
    (active_demand_threshold c) (inactive_demand_threshold c) (bpf_required c)
    (pthread_uprobe c) (relationship_calibration_id c) (activity_log_p95 c) (sync_log_p95 c)
    (share_log_p95 c).

Ltac config_update c f v :=
  let t := eval cbv beta delta [Config_eta] in (Config_eta c) in
  let p := eval pattern (f c) in t in
  match p with ?F _ => let r := eval cbv beta in (F v) in exact r end.
Notation "c <| f := v |>" := (ltac:(config_update c f v))
  (at level 1, f constr at level 0, v at level 200, left associativity, only parsing) : Z_scope.

(** ** Values *)
Definition quote_char : ascii := ascii_of_nat 34.

(** [unquote] *)
Definition unquote (value : list ascii) : result string :=
  match value with
  | q :: ((_ :: _) as rest) =>
      if bool_decide (q = quote_char) && bool_decide (last rest = Some quote_char)
      then Ok (text (removelast rest))
      else Throw (runtime_error ("expected quoted TOML string: " +:+ text value))
  | _ => Throw (runtime_error ("expected quoted TOML string: " +:+ text value))
  end.

(** [boolean] *)
Definition boolean (value : list ascii) : result bool :=
  if String.eqb (text value) "true" then Ok true
  else if String.eqb (text value) "false" then Ok false
  else Throw (runtime_error ("expected TOML boolean: " +:+ text value)).

(** [detect_allowed_cpus]: [mask] is what [sched_getaffinity] filled in, or
    [None] when it failed. *)
Definition CPU_SETSIZE : Z := 1024.
Definition detect_allowed_cpus (mask : option (Z → bool)) : result (list Z) :=
  match mask with
  | None => Throw (runtime_error "sched_getaffinity failed while detecting CPUs")
  | Some m =>
      let found := filter (λ cpu, m cpu = true) (seqZ 0 CPU_SETSIZE) in
      if bool_decide (found = []) then Throw (runtime_error "process CPU affinity mask is empty")
      else Ok found
  end.

(** ** Assignments *)
Definition as_int (value : list ascii) (k : Z → Config) : result Config :=
  v ← stoi value; Ok (k v).
Definition as_double (value : list ascii) (k : double → Config) : result Config :=
  v ← stod value; Ok (k v).
Definition as_string (value : list ascii) (k : string → Config) : result Config :=
  v ← unquote value; Ok (k v).
Definition as_bool (value : list ascii) (k : bool → Config) : result Config :=
  v ← boolean value; Ok (k v).

(** [runtime.mode] *)
Definition set_mode (value : list ascii) (c : Config) : result Config :=
  name ← unquote value;
  if String.eqb name "observe" then Ok (c <| mode := Observe |>)
  else if String.eqb name "plan" then Ok (c <| mode := Plan |>)
  else if String.eqb name "active" then Ok (c <| mode := Active |>)
  else Throw (runtime_error "mode must be observe, plan, or active").

(** The chain of key comparisons; [unknown] is the error of its last [else]. *)
Definition assign (unknown : exn) (key : string) (value : list ascii) (c : Config) : result Config :=
  let on k := String.eqb key k in
  if on "runtime.mode" then set_mode value c
  else if on "resources.cpus" then
    s ← unquote value; l ← parse_cpu_list s; Ok (c <| cpus := l |>)
  else if on "resources.calibration_path" then as_string value (λ v, c <| calibration_path := v |>)
  else if on "runtime.log_directory" then as_string value (λ v, c <| log_directory := v |>)
  else if on "runtime.socket_path" then as_string value (λ v, c <| socket_path := v |>)
  else if on "runtime.thread_profile" then as_string value (λ v, c <| thread_profile_path := v |>)
  else if on "runtime.profile_output" then as_string value (λ v, c <| profile_output_path := v |>)
  else if on "runtime.experiment_id" then as_string value (λ v, c <| experiment_id := v |>)
  else if on "runtime.test_id" then as_string value (λ v, c <| test_id := v |>)
  else if on "runtime.dynamic" then as_bool value (λ v, c <| dynamic := v |>)
  else if on "runtime.static_quiescence_seconds" then
    as_int value (λ v, c <| static_quiescence_seconds := v |>)
  else if on "runtime.static_quiescent_windows" then
    as_int value (λ v, c <| static_quiescence_seconds := v |>)
  else if on "runtime.static_scan_seconds" then as_int value (λ v, c <| static_scan_seconds := v |>)
  else if on "runtime.sample_interval_seconds" then
    as_int value (λ v, c <| sample_interval_seconds := v |>)
  else if on "runtime.graph_horizon_seconds" then
    as_int value (λ v, c <| graph_horizon_seconds := v |>)
  else if on "runtime.solve_interval_seconds" then
    as_int value (λ v, c <| solve_interval_seconds := v |>)
  else if on "runtime.minimum_confidence" then
    as_double value (λ v, c <| minimum_confidence := v |>)
  else if on "runtime.proposal_confirmations" then
    as_int value (λ v, c <| proposal_confirmations := v |>)
  else if on "runtime.initial_proposal_confirmations" then
    as_int value (λ v, c <| initial_proposal_confirmations := v |>)
  else if on "runtime.minimum_dwell_seconds" then
    as_int value (λ v, c <| minimum_dwell_seconds := v |>)
  else if on "runtime.maximum_migrated_threads_ratio" || on "runtime.maximum_migrated_active_threads_ratio" then
    as_double value (λ v, c <| maximum_migrated_threads_ratio := v |>)
  else if on "runtime.initial_migrated_threads_ratio" then
    as_double value (λ v, c <| initial_migrated_threads_ratio := v |>)
  else if on "runtime.collector_failure_restore_seconds" then
    as_int value (λ v, c <| collector_failure_restore_seconds := v |>)
  else if on "runtime.solver" then as_string value (λ v, c <| solver := v |>)
  else if on "runtime.affinity_granularity" then
    as_string value (λ v, c <| affinity_granularity := v |>)
  else if on "runtime.family_minimum_demand" then
    as_double value (λ v, c <| family_minimum_demand := v |>)
  else if on "runtime.family_minimum_internal_relation" then
    as_double value (λ v, c <| family_minimum_internal_relation := v |>)
  else if on "runtime.family_minimum_self_containment" then
    as_double value (λ v, c <| family_minimum_self_containment := v |>)
  else if on "runtime.family_minimum_relative_internal" then
    as_double value (λ v, c <| family_minimum_relative_internal := v |>)
  else if on "runtime.domain_merge_ratio" then
    as_double value (λ v, c <| domain_merge_ratio := v |>)
  else if on "runtime.family_edges_per_family" then
    as_int value (λ v, c <| family_edges_per_family := v |>)
  else if on "runtime.family_stability_confirmations" then
    as_int value (λ v, c <| family_stability_confirmations := v |>)
  else if on "runtime.domain_stability_confirmations" then
    as_int value (λ v, c <| domain_stability_confirmations := v |>)
  else if on "runtime.domain_plan_confirmations" then
    as_int value (λ v, c <| domain_plan_confirmations := v |>)
  else if on "runtime.maximum_threads_per_domain" then
    as_int value (λ v, c <| maximum_threads_per_domain := v |>)
  else if on "runtime.domain_capacity_ratio" then
    as_double value (λ v, c <| domain_capacity_ratio := v |>)
  else if on "runtime.domain_expand_ratio" then
    as_double value (λ v, c <| domain_expand_ratio := v |>)
  else if on "runtime.domain_expand_confirmations" then
    as_int value (λ v, c <| domain_expand_confirmations := v |>)
  else if on "runtime.domain_shrink_ratio" then
    as_double value (λ v, c <| domain_shrink_ratio := v |>)
  else if on "runtime.domain_shrink_confirmations" then
    as_int value (λ v, c <| domain_shrink_confirmations := v |>)
  else if on "runtime.domain_minimum_dwell_seconds" then
    as_int value (λ v, c <| domain_minimum_dwell_seconds := v |>)
  else if on "runtime.initial_node_passes" then as_int value (λ v, c <| initial_node_passes := v |>)
  else if on "runtime.initial_node_thread_slack_ratio" then
    as_double value (λ v, c <| initial_node_thread_slack_ratio := v |>)
  else if on "runtime.candidate_multiplier" then
    as_int value (λ v, c <| candidate_multiplier := v |>)
  else if on "runtime.candidate_hard_limit" then
    as_int value (λ v, c <| candidate_hard_limit := v |>)
  else if on "runtime.rotating_scan_size" then as_int value (λ v, c <| rotating_scan_size := v |>)
  else if on "runtime.demand_dirty_threshold" then
    as_double value (λ v, c <| demand_dirty_threshold := v |>)
  else if on "runtime.edge_dirty_absolute_threshold" then
    as_double value (λ v, c <| edge_dirty_absolute_threshold := v |>)
  else if on "runtime.edge_dirty_relative_threshold" then
    as_double value (λ v, c <| edge_dirty_relative_threshold := v |>)
  else if on "runtime.minimum_relative_gain" then
    as_double value (λ v, c <| minimum_relative_gain := v |>)
  else if on "runtime.maximum_threads_per_cpu" then
    as_int value (λ v, c <| maximum_threads_per_cpu := v |>)
  else if on "runtime.thread_slot_slack" then as_int value (λ v, c <| thread_slot_slack := v |>)
  else if on "runtime.future_demand_floor" then
    as_double value (λ v, c <| future_demand_floor := v |>)
  else if on "runtime.group_peak_demand_ratio" then
    as_double value (λ v, c <| group_peak_demand_ratio := v |>)
  else if on "runtime.group_peak_demand_cap" then
    as_double value (λ v, c <| group_peak_demand_cap := v |>)
  else if on "runtime.group_peak_decay" then as_double value (λ v, c <| group_peak_decay := v |>)
  else if on "runtime.node_balance_threshold" then
    as_double value (λ v, c <| node_balance_threshold := v |>)
  else if on "runtime.hotspot_edges_per_thread" then
    as_int value (λ v, c <| hotspot_edges_per_thread := v |>)
  else if on "runtime.hotspot_edge_quantile" then
    as_double value (λ v, c <| hotspot_edge_quantile := v |>)
  else if on "runtime.hotspot_component_boost" then
    as_double value (λ v, c <| hotspot_component_boost := v |>)
  else if on "runtime.maximum_managed_threads" then
    as_int value (λ v, c <| maximum_managed_threads := v |>)
  else if on "runtime.managed_thread_hysteresis_ratio" then
    as_double value (λ v, c <| managed_thread_hysteresis_ratio := v |>)
  else if on "runtime.hotspot_replan_growth_ratio" then
    as_double value (λ v, c <| hotspot_replan_growth_ratio := v |>)
  else if on "runtime.hotspot_replan_min_threads" then
    as_int value (λ v, c <| hotspot_replan_min_threads := v |>)
  else if on "runtime.hotspot_stability_threshold" then
    as_double value (λ v, c <| hotspot_stability_threshold := v |>)
  else if on "runtime.hotspot_stability_confirmations" then
    as_int value (λ v, c <| hotspot_stability_confirmations := v |>)
  else if on "runtime.active_demand_threshold" then
    as_double value (λ v, c <| active_demand_threshold := v |>)
  else if on "runtime.inactive_demand_threshold" then
    as_double value (λ v, c <| inactive_demand_threshold := v |>)
  else if on "collector.required" then as_bool value (λ v, c <| bpf_required := v |>)
  else if on "collector.pthread_uprobe" then as_bool value (λ v, c <| pthread_uprobe := v |>)
  else if on "calibration.id" then as_string value (λ v, c <| relationship_calibration_id := v |>)
  else if on "calibration.activity_log_p95" then
    as_double value (λ v, c <| activity_log_p95 := v |>)
  else if on "calibration.sync_log_p95" then as_double value (λ v, c <| sync_log_p95 := v |>)
  else if on "calibration.share_log_p95" then as_double value (λ v, c <| share_log_p95 := v |>)
  else Throw unknown.

(** ** The lines of the file *)
Record LoadState := mk_LoadState {
  ls_config : Config;
  ls_cpus_from_toml : bool;
  ls_section : string;
  ls_line_number : Z
}.

Definition known_section (s : string) : bool :=
  String.eqb s "runtime" || String.eqb s "resources" || String.eqb s "collector" ||
  String.eqb s "calibration".

(** The text before a [#], trimmed. *)
Definition strip_comment (line : list ascii) : list ascii :=
  trim (match split_first "#"%char line with Some (a, _) => a | None => line end).

(** [[name]]: the name, when the first and last characters are brackets. *)
Definition section_header (line : list ascii) : option string :=
  match line with
  | c :: rest =>
      if bool_decide (c = "["%char) && bool_decide (last rest = Some "]"%char)
      then Some (text (removelast rest)) else None
  | [] => None
  end.

Definition at_line (msg : string) (n : Z) : exn :=
  runtime_error (msg +:+ " at line " +:+ text (print_nonneg n)).

(** The body of the reading loop. *)
Definition load_line (st : LoadState) (raw : list ascii) : result LoadState :=
  let n := ls_line_number st + 1 in
  let line := strip_comment raw in
  let c := ls_config st in
  if bool_decide (line = []) then Ok (mk_LoadState c (ls_cpus_from_toml st) (ls_section st) n) else
  match section_header line with
  | Some section =>
      if known_section section then Ok (mk_LoadState c (ls_cpus_from_toml st) section n)
      else Throw (at_line "unknown TOML section" n)
  | None =>
      match split_first "="%char line with
      | None => Throw (at_line "invalid TOML assignment" n)
      | Some (lhs, rhs) =>
          let key := ls_section st +:+ "." +:+ text (trim lhs) in
          c' ← assign (at_line ("unknown TOML key '" +:+ key +:+ "'") n) key (trim rhs) c;
          Ok (mk_LoadState c' (ls_cpus_from_toml st || String.eqb key "resources.cpus")
                (ls_section st) n)
      end
  end.

(** ** Range validation *)
Definition out_of_ranges (c : Config) : bool :=
  (sample_interval_seconds c <? 0) || (graph_horizon_seconds c <? sample_interval_seconds c) ||
  (solve_interval_seconds c <? sample_interval_seconds c) || (minimum_confidence c <? d0)%D ||
  (d1 <? minimum_confidence c)%D || (static_quiescence_seconds c <? 1) ||
  (static_scan_seconds c <? 0) || (proposal_confirmations c <? 1) ||
  (initial_proposal_confirmations c <? 1) || (minimum_dwell_seconds c <? 0) ||
  (maximum_migrated_threads_ratio c <? d0)%D || (d1 <? maximum_migrated_threads_ratio c)%D ||
  (initial_migrated_threads_ratio c <=? d0)%D || (d1 <? initial_migrated_threads_ratio c)%D ||
  (collector_failure_restore_seconds c <? 1) ||
  (negb (String.eqb (solver c) "incremental-hotspot-v1") && negb (String.eqb (solver c) "numa-domain-v1")) ||
  (negb (String.eqb (affinity_granularity c) "singleton_cpu") && negb (String.eqb (affinity_granularity c) "numa_node_mask")) ||
  (String.eqb (solver c) "numa-domain-v1" && negb (String.eqb (affinity_granularity c) "numa_node_mask")) ||
  (family_minimum_demand c <? d0)%D || (family_minimum_internal_relation c <? d0)%D ||
  (family_minimum_self_containment c <? d0)%D || (d1 <? family_minimum_self_containment c)%D ||
  (family_minimum_relative_internal c <? d0)%D || (d1 <? family_minimum_relative_internal c)%D ||
  (domain_merge_ratio c <? d0)%D || (family_edges_per_family c <? 1) ||
  (family_stability_confirmations c <? 1) || (domain_stability_confirmations c <? 1) ||
  (domain_plan_confirmations c <? 1) || (maximum_threads_per_domain c <? 1) ||
  (domain_capacity_ratio c <=? d0)%D || (d1 <? domain_capacity_ratio c)%D ||
  (domain_expand_ratio c <=? d0)%D || (d1 <? domain_expand_ratio c)%D ||
  (domain_expand_confirmations c <? 1) || (domain_shrink_ratio c <? d0)%D ||
  (domain_expand_ratio c <=? domain_shrink_ratio c)%D || (domain_shrink_confirmations c <? 1) ||
  (domain_minimum_dwell_seconds c <? 0) || (initial_node_passes c <? 1) ||
  (8 <? initial_node_passes c) || (initial_node_thread_slack_ratio c <? d0)%D ||
  (d1 <? initial_node_thread_slack_ratio c)%D || (candidate_multiplier c <? 1) ||
  (candidate_hard_limit c <? 1) || (rotating_scan_size c <? 1) ||
  (demand_dirty_threshold c <? d0)%D || (edge_dirty_absolute_threshold c <? d0)%D ||
  (edge_dirty_relative_threshold c <? d0)%D || (minimum_relative_gain c <? d0)%D ||
  (d1 <? minimum_relative_gain c)%D || (maximum_threads_per_cpu c <? 0) ||
  (thread_slot_slack c <? 0) || (future_demand_floor c <? d0)%D ||
  (d1 <? future_demand_floor c)%D || (group_peak_demand_ratio c <? d0)%D ||
  (d1 <? group_peak_demand_ratio c)%D || (group_peak_demand_cap c <? d0)%D ||
  (d1 <? group_peak_demand_cap c)%D || (group_peak_decay c <? d0)%D ||
  (d1 <? group_peak_decay c)%D || (node_balance_threshold c <? d0)%D ||
  (d1 <? node_balance_threshold c)%D || (hotspot_edges_per_thread c <? 1) ||
  (hotspot_edge_quantile c <? d0)%D || (d1 <? hotspot_edge_quantile c)%D ||
  (hotspot_component_boost c <? d0)%D || (maximum_managed_threads c <? 0) ||
  (managed_thread_hysteresis_ratio c <? d0)%D || (hotspot_replan_growth_ratio c <? d0)%D ||
  (d1 <? hotspot_replan_growth_ratio c)%D || (hotspot_replan_min_threads c <? 1) ||
  (hotspot_stability_threshold c <? d0)%D || (d1 <? hotspot_stability_threshold c)%D ||
  (hotspot_stability_confirmations c <? 1) || (active_demand_threshold c <=? d0)%D ||
  (d1 <? active_demand_threshold c)%D || (inactive_demand_threshold c <? d0)%D ||
  (active_demand_threshold c <=? inactive_demand_threshold c)%D ||
  String.eqb (relationship_calibration_id c) "" || (activity_log_p95 c <=? d0)%D ||
  (sync_log_p95 c <=? d0)%D || (share_log_p95 c <=? d0)%D.

(** ** [load_config] *)

(** [getenv] gave a non-empty value. *)
Definition env_set (e : option string) : option string :=
  match e with Some s => if String.eqb s "" then None else Some s | None => None end.

(** The CPU envelope: command line, environment, file, kernel. *)
Definition choose_cpus (cpu_override : string) (affinity_cpus : option string)
    (kernel : option (Z → bool)) (st : LoadState) : result (list Z) :=
  if negb (String.eqb cpu_override "") then parse_cpu_list cpu_override
  else match env_set affinity_cpus with
       | Some e => parse_cpu_list e
       | None => if ls_cpus_from_toml st then Ok (cpus (ls_config st)) else detect_allowed_cpus kernel
       end.

Definition newline : ascii := ascii_of_nat 10.

Definition load_config (path : string) (contents : option string) (cpu_override : string)
    (affinity_cpus affinity_thread_profile : option string) (kernel : option (Z → bool)) :
    result Config :=
  match contents with
  | None => Throw (runtime_error ("cannot open config: " +:+ path))
  | Some s =>
      st ← foldlM load_line (mk_LoadState Config_default false "" 0) (getlines newline (chars s));
      l ← choose_cpus cpu_override affinity_cpus kernel st;
      let c := ls_config st in
      let c := c <| cpus := l |> in
      let c := match env_set affinity_thread_profile with
               | Some p => c <| thread_profile_path := p |>
               | None => c
               end in
      if bool_decide (cpus c = []) then Throw (runtime_error "CPU envelope is empty") else
      if out_of_ranges c then Throw (runtime_error "configuration value outside supported range")
      else Ok c
  end.
