(* ===== verification/ConfigProperties.v ===== *)
(** * Properties of the configuration reader

    What a configuration that [load_config] accepts guarantees to the rest of
    the runtime: ranges, the consistency of paired thresholds, the solver
    options built from it ([domain_options], [runtime.cpp]), and where the CPU
    envelope comes from. *)
From Stdlib Require Import SpecFloat Ascii.
From S2P Require Import Prelude Binary64 CpuList Topology DomainSolver Config.
Local Open Scope string_scope.
Local Open Scope Z_scope.

(** The options [solve_numa_domains] builds from the configuration;
    [static_cast<uint64_t>] and the product wrap modulo 2^64. *)
Definition domain_options (c : Config) : NumaDomainOptions :=
  mk_NumaDomainOptions (family_minimum_demand c) (family_minimum_internal_relation c)
    (family_minimum_self_containment c) (family_minimum_relative_internal c)
    (domain_merge_ratio c) (Z.to_nat (u64 (family_edges_per_family c)))
    (family_stability_confirmations c) (domain_stability_confirmations c)
    (domain_plan_confirmations c) (u64 (maximum_threads_per_domain c))
    (domain_capacity_ratio c) (domain_expand_ratio c) (domain_expand_confirmations c)
    (domain_shrink_ratio c) (domain_shrink_confirmations c)
    (u64 (u64 (domain_minimum_dwell_seconds c) * 1000000000)).

(** ** Groups of fields with a common range *)
Definition int_fields (c : Config) : list Z :=
  [static_quiescence_seconds c; static_scan_seconds c; sample_interval_seconds c;
   graph_horizon_seconds c; solve_interval_seconds c; proposal_confirmations c;
   initial_proposal_confirmations c; minimum_dwell_seconds c;
   collector_failure_restore_seconds c; family_edges_per_family c;
   family_stability_confirmations c; domain_stability_confirmations c;
   domain_plan_confirmations c; maximum_threads_per_domain c; domain_expand_confirmations c;
   domain_shrink_confirmations c; domain_minimum_dwell_seconds c; initial_node_passes c;
   candidate_multiplier c; candidate_hard_limit c; rotating_scan_size c;
   maximum_threads_per_cpu c; thread_slot_slack c; hotspot_edges_per_thread c;
   maximum_managed_threads c; hotspot_replan_min_threads c; hotspot_stability_confirmations c].
(** Every floating-point option of the record, in its order; then the groups
    of options that share a bound.  Their names follow the bound and not the
    option's name: [domain_merge_ratio] and [managed_thread_hysteresis_ratio]
    are only bounded below and so are in [nonneg_doubles], and the limits for
    which 0 means none are in [nonneg_ints]. *)
Definition double_fields (c : Config) : list double :=
  [minimum_confidence c; maximum_migrated_threads_ratio c; initial_migrated_threads_ratio c;
   family_minimum_demand c; family_minimum_internal_relation c;
   family_minimum_self_containment c; family_minimum_relative_internal c; domain_merge_ratio c;
   domain_capacity_ratio c; domain_expand_ratio c; domain_shrink_ratio c;
   initial_node_thread_slack_ratio c; demand_dirty_threshold c; edge_dirty_absolute_threshold c;
   edge_dirty_relative_threshold c; minimum_relative_gain c; future_demand_floor c;
   group_peak_demand_ratio c; group_peak_demand_cap c; group_peak_decay c;
   node_balance_threshold c; hotspot_edge_quantile c; hotspot_component_boost c;
   managed_thread_hysteresis_ratio c; hotspot_replan_growth_ratio c;
   hotspot_stability_threshold c; active_demand_threshold c; inactive_demand_threshold c;
   activity_log_p95 c; sync_log_p95 c; share_log_p95 c].
Definition counts (c : Config) : list Z :=
  [static_quiescence_seconds c; proposal_confirmations c; initial_proposal_confirmations c;
   collector_failure_restore_seconds c; family_edges_per_family c;
   family_stability_confirmations c; domain_stability_confirmations c;
   domain_plan_confirmations c; maximum_threads_per_domain c; domain_expand_confirmations c;
   domain_shrink_confirmations c; initial_node_passes c; candidate_multiplier c;
   candidate_hard_limit c; rotating_scan_size c; hotspot_edges_per_thread c;
   hotspot_replan_min_threads c; hotspot_stability_confirmations c].
Definition nonneg_ints (c : Config) : list Z :=
  [sample_interval_seconds c; static_scan_seconds c; minimum_dwell_seconds c;
   domain_minimum_dwell_seconds c; maximum_threads_per_cpu c; thread_slot_slack c;
   maximum_managed_threads c].
Definition unit_ratios (c : Config) : list double :=
  [minimum_confidence c; maximum_migrated_threads_ratio c; family_minimum_self_containment c;
   family_minimum_relative_internal c; initial_node_thread_slack_ratio c;
   minimum_relative_gain c; future_demand_floor c; group_peak_demand_ratio c;
   group_peak_demand_cap c; group_peak_decay c; node_balance_threshold c;
   hotspot_edge_quantile c; hotspot_replan_growth_ratio c; hotspot_stability_threshold c].
Definition nonneg_doubles (c : Config) : list double :=
  [family_minimum_demand c; family_minimum_internal_relation c; domain_merge_ratio c;
   domain_shrink_ratio c; demand_dirty_threshold c; edge_dirty_absolute_threshold c;
   edge_dirty_relative_threshold c; hotspot_component_boost c;
   managed_thread_hysteresis_ratio c; inactive_demand_threshold c].
Definition positive_doubles (c : Config) : list double :=
  [initial_migrated_threads_ratio c; domain_capacity_ratio c; domain_expand_ratio c;
   active_demand_threshold c; activity_log_p95 c; sync_log_p95 c; share_log_p95 c].
Definition positive_ratios (c : Config) : list double :=
  [initial_migrated_threads_ratio c; domain_capacity_ratio c; domain_expand_ratio c;
   active_demand_threshold c].

(** ** One assignment *)
Definition int_fits (z : Z) : Prop := - 2 ^ 31 ≤ z ≤ 2 ^ 31 - 1.

Lemma stoi_fits l z : stoi l = Ok z → int_fits z.
Proof.
  unfold stoi, int_fits. destruct (match drop_spaces l with [] => _ | _ => _ end) as [neg body].
  destruct (negb _); [done|]. cbv zeta. destruct (_ || _) eqn:E; [done|].
  intros [= <-]. bool_hyps. lia.
Qed.

(** What one successful assignment may do to the configuration. *)
Record assigned (key : string) (value : list ascii) (c c' : Config) : Prop := {
  as_ints : Forall int_fits (int_fields c) → Forall int_fits (int_fields c');
  as_cpus : if String.eqb key "resources.cpus"
    then ∃ s, unquote value = Ok s ∧ parse_cpu_list s = Ok (cpus c') else cpus c' = cpus c;
}.

Ltac assign_field :=
  let H := fresh in intros H; apply result_bind_Ok in H as (? & ? & [= <-]).

(** Only the assigned integer, if any, needs a proof. *)
Ltac ints_step :=
  lazymatch goal with
  | E : stoi _ = Ok _ |- _ =>
      apply stoi_fits in E; unfold int_fields;
      let H := fresh in intros H;
      repeat (let H1 := fresh in apply Forall_cons in H as [H1 H]);
      repeat (constructor; [assumption|]); constructor
  | _ => exact id
  end.

Lemma set_mode_assigned key value c c' :
  String.eqb key "resources.cpus" = false → set_mode value c = Ok c' → assigned key value c c'.
Proof.
  intros Hk. unfold set_mode. intros (name & _ & H)%result_bind_Ok.
  repeat case_match; simplify_eq; constructor; rewrite ?Hk; done.
Qed.

Lemma assign_assigned unknown key value c c' :
  assign unknown key value c = Ok c' → assigned key value c c'.
Proof.
  unfold assign. cbv zeta.
  destruct (String.eqb key "runtime.mode") eqn:Em.
  { apply String.eqb_eq in Em as ->. by apply set_mode_assigned. }
  destruct (String.eqb key "resources.cpus") eqn:Ec.
  { intros (s & Hs & (l & Hl & [= <-])%result_bind_Ok)%result_bind_Ok.
    constructor; [done|]. rewrite Ec. eauto. }
  unfold as_int, as_double, as_string, as_bool.
  repeat (match goal with |- (if ?b then _ else _) = _ → _ => destruct b end;
    [assign_field; constructor; [ints_step|rewrite Ec; reflexivity]|]).
  done.
Qed.

(** ** The whole file *)

(** The text assigned to [resources.cpus] last, by reading sections and
    assignments only: the specification of the TOML source of the envelope. *)
Definition cpus_scan (acc : string * option (list ascii)) (raw : list ascii) :
    string * option (list ascii) :=
  let line := strip_comment raw in
  match section_header line, split_first "="%char line with
  | Some section, _ => (section, acc.2)
  | None, Some (lhs, rhs) =>
      if String.eqb (acc.1 +:+ "." +:+ text (trim lhs)) "resources.cpus"
      then (acc.1, Some (trim rhs)) else acc
  | None, None => acc
  end.
Definition toml_cpus (s : string) : option (list ascii) :=
  (foldl cpus_scan ("", None) (getlines newline (chars s))).2.

(** The reader's state agrees with the scan, and its integers fit. *)
Record loading (st : LoadState) (acc : string * option (list ascii)) : Prop := {
  ld_section : ls_section st = acc.1;
  ld_cpus : match acc.2 with
    | Some v => ls_cpus_from_toml st = true ∧
        ∃ s, unquote v = Ok s ∧ parse_cpu_list s = Ok (cpus (ls_config st))
    | None => ls_cpus_from_toml st = false
    end;
  ld_ints : Forall int_fits (int_fields (ls_config st));
}.

Lemma load_line_loading st acc raw st' :
  loading st acc → load_line st raw = Ok st' → loading st' (cpus_scan acc raw).
Proof.
  intros [Hs Hc Hi]. unfold load_line, cpus_scan. cbv zeta.
  case_bool_decide as Hnil.
  { intros [= <-]. rewrite Hnil. cbn. by constructor. }
  destruct (section_header _) as [section|].
  { destruct (known_section section); [|done]. intros [= <-]. by constructor. }
  destruct (split_first _ _) as [[lhs rhs]|]; [|done].
  intros (c' & Ha%assign_assigned & [= <-])%result_bind_Ok. rewrite <-Hs.
  destruct Ha as [Hints Hcpus]. destruct (String.eqb _ "resources.cpus"); constructor; cbn.
  - done.
  - rewrite orb_true_r. eauto.
  - auto.
  - done.
  - rewrite orb_false_r, Hcpus. done.
  - auto.
Qed.

Lemma load_lines_loading lines st acc st' :
  loading st acc → foldlM load_line st lines = Ok st' → loading st' (foldl cpus_scan acc lines).
Proof.
  revert st acc. induction lines as [|raw lines IH]; intros st acc Hst; cbn.
  - by intros [= <-].
  - intros (st1 & H1 & H2)%result_bind_Ok. eauto using load_line_loading.
Qed.

Definition initial_state : LoadState := mk_LoadState Config_default false "" 0.

Lemma initial_loading : loading initial_state ("", None).
Proof.
  constructor; [done..|]. change (ls_config initial_state) with Config_default.
  unfold int_fields. repeat (constructor; [cbn; unfold int_fits; lia|]). constructor.
Qed.

(** The anatomy of a successful [load_config]. *)
Lemma load_config_Ok path contents over env profile kernel c :
  load_config path contents over env profile kernel = Ok c →
  ∃ s st l, contents = Some s ∧ loading st (foldl cpus_scan ("", None) (getlines newline (chars s))) ∧
    choose_cpus over env kernel st = Ok l ∧ cpus c = l ∧ l ≠ [] ∧
    int_fields c = int_fields (ls_config st) ∧
    thread_profile_path c =
      match env_set profile with Some p => p | None => thread_profile_path (ls_config st) end ∧
    out_of_ranges c = false.
Proof.
  unfold load_config. destruct contents as [s|]; [|done].
  intros (st & Hst & (l & Hl & H)%result_bind_Ok)%result_bind_Ok.
  exists s, st, l. split; [done|].
  split; [by eapply load_lines_loading; [apply initial_loading|]|].
  destruct (env_set profile); cbv zeta in H; cbn [cpus] in H;
    case_bool_decide as Hne; try done;
    destruct (out_of_ranges _) eqn:Hr in H; try done; injection H as <-; done.
Qed.

(** ** Range facts *)
Lemma out_of_ranges_false c :
  out_of_ranges c = false →
  Forall (λ n, 1 ≤ n) (counts c) ∧ Forall (λ n, 0 ≤ n) (nonneg_ints c) ∧
  (sample_interval_seconds c ≤ graph_horizon_seconds c ∧
   sample_interval_seconds c ≤ solve_interval_seconds c ∧ initial_node_passes c ≤ 8) ∧
  Forall (λ x, (x <? d0)%D = false ∧ (d1 <? x)%D = false) (unit_ratios c) ∧
  Forall (λ x, (x <? d0)%D = false) (nonneg_doubles c) ∧
  Forall (λ x, (x <=? d0)%D = false) (positive_doubles c) ∧
  Forall (λ x, (d1 <? x)%D = false) (positive_ratios c) ∧
  (domain_expand_ratio c <=? domain_shrink_ratio c)%D = false ∧
  (active_demand_threshold c <=? inactive_demand_threshold c)%D = false ∧
  (solver c = "incremental-hotspot-v1" ∨ solver c = "numa-domain-v1") ∧
  (affinity_granularity c = "singleton_cpu" ∨ affinity_granularity c = "numa_node_mask") ∧
  (solver c = "numa-domain-v1" → affinity_granularity c = "numa_node_mask") ∧
  relationship_calibration_id c ≠ "".
Proof.
  unfold out_of_ranges. intros H.
  repeat match type of H with
  | _ || _ = false => apply orb_false_iff in H as [H ?]
  end.
  repeat match goal with
  | E : (_ <? _) = false |- _ => apply Z.ltb_ge in E
  | E : (_ && _) = false |- _ => apply andb_false_iff in E; rewrite ?negb_false_iff, ?String.eqb_eq, ?String.eqb_neq in E
  | E : String.eqb _ _ = false |- _ => apply String.eqb_neq in E
  end.
  split_and!; try assumption;
    try (repeat (constructor; [first [assumption|split; assumption]|]); constructor).
  intros Hs. match goal with E : solver c ≠ _ ∨ _ |- _ => destruct E end; done.
Qed.

Lemma dltb_false_dleb x y : not_nan x → not_nan y → (x <? y)%D = false → (y <=? x)%D = true.
Proof. intros. rewrite dleb_dltb by done. by rewrite negb_true_iff. Qed.
Lemma dleb_false_dltb x y : not_nan x → not_nan y → (x <=? y)%D = false → (y <? x)%D = true.
Proof. intros ??. rewrite dleb_dltb by done. by rewrite negb_false_iff. Qed.
Lemma not_nan_d0 : not_nan d0. Proof. done. Qed.
Lemma not_nan_d1 : not_nan d1. Proof. done. Qed.
#[local] Hint Resolve dltb_false_dleb dleb_false_dltb not_nan_d0 not_nan_d1 : ag.

(** Membership of a field in one of the groups above. *)
Ltac in_fields :=
  unfold counts, nonneg_ints, int_fields, double_fields, unit_ratios, nonneg_doubles,
    positive_doubles; cbn [app];
  repeat first [apply list_elem_of_here | apply list_elem_of_further].

(** The groups leave no numeric option out. *)
Lemma int_fields_covered c :
  Forall (λ n, n ∈ (counts c ++ nonneg_ints c ++
                   [graph_horizon_seconds c; solve_interval_seconds c])%list)
    (int_fields c).
Proof. repeat (apply Forall_cons; split; [in_fields|]). apply Forall_nil_2. Qed.
Lemma double_fields_covered c :
  Forall (λ x, x ∈ (unit_ratios c ++ nonneg_doubles c ++ positive_doubles c)%list) (double_fields c).
Proof. repeat (apply Forall_cons; split; [in_fields|]). apply Forall_nil_2. Qed.

(** C40: every configuration [load_config] accepts lies in the supported ranges,
    option by option.  All integers are 32-bit values; those of [counts] are at
    least one and those of [nonneg_ints] (the durations, and the three limits
    [maximum_threads_per_cpu], [thread_slot_slack] and
    [maximum_managed_threads], where 0 is allowed) at least zero, the horizon
    and the solve interval are no shorter than the sample interval, and every
    integer option is one of these.  Of the floating-point options, when they
    are numbers, those of [unit_ratios] lie between 0 and 1, those of [positive_ratios]
    in (0, 1], the calibration scales are above zero and the rest (with
    [domain_merge_ratio] and [managed_thread_hysteresis_ratio], which have no
    upper bound) are not negative, and every such option is one of these.  The
    shrink threshold is below the expand threshold and the inactive one below
    the active one, the calibration has a name, and the domain solver is only
    paired with node masks. *)
Theorem loaded_config_in_range path contents over env profile kernel c
    (Hc : load_config path contents over env profile kernel = Ok c) :
  Forall int_fits (int_fields c) ∧
  Forall (λ n, 1 ≤ n) (counts c) ∧ Forall (λ n, 0 ≤ n) (nonneg_ints c) ∧
  sample_interval_seconds c ≤ graph_horizon_seconds c ∧
  sample_interval_seconds c ≤ solve_interval_seconds c ∧ initial_node_passes c ≤ 8 ∧
  Forall (λ x, not_nan x → (d0 <=? x)%D = true ∧ (x <=? d1)%D = true) (unit_ratios c) ∧
  Forall (λ x, not_nan x → (d0 <=? x)%D = true) (nonneg_doubles c) ∧
  Forall (λ x, not_nan x → (d0 <? x)%D = true) (positive_doubles c) ∧
  Forall (λ x, not_nan x → (x <=? d1)%D = true) (positive_ratios c) ∧
  (not_nan (domain_shrink_ratio c) → not_nan (domain_expand_ratio c) →
    (domain_shrink_ratio c <? domain_expand_ratio c)%D = true) ∧
  (not_nan (inactive_demand_threshold c) → not_nan (active_demand_threshold c) →
    (inactive_demand_threshold c <? active_demand_threshold c)%D = true) ∧
  (solver c = "incremental-hotspot-v1" ∨
   solver c = "numa-domain-v1" ∧ affinity_granularity c = "numa_node_mask") ∧
  (affinity_granularity c = "singleton_cpu" ∨ affinity_granularity c = "numa_node_mask") ∧
  relationship_calibration_id c ≠ "" ∧
  Forall (λ n, n ∈ (counts c ++ nonneg_ints c ++
                   [graph_horizon_seconds c; solve_interval_seconds c])%list)
    (int_fields c) ∧
  Forall (λ x, x ∈ (unit_ratios c ++ nonneg_doubles c ++ positive_doubles c)%list) (double_fields c).
Proof.
  apply load_config_Ok in Hc as (s & st & l & _ & Hst & _ & _ & _ & Hi & _ & Hr).
  apply out_of_ranges_false in Hr as (H1 & H2 & (H3 & H4 & H5) & H6 & H7 & H8 & H9 & H10 & H11 & H12 & H13 & H14 & H15).
  assert (Forall int_fits (int_fields c)) by (rewrite Hi; apply (ld_ints _ _ Hst)).
  split_and!; try done.
  - eapply Forall_impl; [exact H6|]. intros x [??] ?. split; auto with ag.
  - eapply Forall_impl; [exact H7|]. intros; auto with ag.
  - eapply Forall_impl; [exact H8|]. intros; auto with ag.
  - eapply Forall_impl; [exact H9|]. intros; auto with ag.
  - auto with ag.
  - auto with ag.
  - naive_solver.
  - apply int_fields_covered.
  - apply double_fields_covered.
Qed.

Definition nl : string := text [newline].
Definition q : string := text [quote_char].

Definition demo_toml : string :=
  "[runtime] # demo" +:+ nl +:+ "solver = " +:+ q +:+ "numa-domain-v1" +:+ q +:+ nl +:+
  "affinity_granularity = " +:+ q +:+ "numa_node_mask" +:+ q +:+ nl +:+
  "domain_minimum_dwell_seconds = 120" +:+ nl +:+ "[resources]" +:+ nl +:+
  "cpus = " +:+ q +:+ "0-3,8" +:+ q +:+ nl.
Definition demo_config : Config :=
  Eval vm_compute in match load_config "ag.toml" (Some demo_toml) "" None (Some "p.json") None with
                     | Ok c => c | Throw _ => Config_default end.
Lemma demo_config_Ok :
  load_config "ag.toml" (Some demo_toml) "" None (Some "p.json") None = Ok demo_config.
Proof. vm_compute. reflexivity. Qed.

Lemma loaded_config_in_range_witness :
  1 ≤ domain_plan_confirmations demo_config ∧
  (domain_shrink_ratio demo_config <? domain_expand_ratio demo_config)%D = true ∧
  affinity_granularity demo_config = "numa_node_mask".
Proof.
  destruct (loaded_config_in_range _ _ _ _ _ _ _ demo_config_Ok)
    as (_ & Hn & _ & _ & _ & _ & _ & _ & _ & _ & Hs & _ & Hg & _).
  split; [exact (Forall_lookup_1 _ _ 7 _ Hn eq_refl)|].
  split; [apply Hs; vm_compute; discriminate|].
  destruct Hg as [Hg|[_ Hg]]; [vm_compute in Hg; discriminate|exact Hg].
Defined.

(** the domain-solver options the runtime derives from an accepted
    configuration are the configured values with nothing wrapped: counts are
    positive, confirmations at least one, and the dwell time is the configured
    number of seconds in nanoseconds. *)
Theorem domain_options_exact path contents over env profile kernel c
    (Hc : load_config path contents over env profile kernel = Ok c) :
  let o := domain_options c in
  DomainSolver.family_edges_per_family o = Z.to_nat (family_edges_per_family c) ∧
  (1 ≤ DomainSolver.family_edges_per_family o)%nat ∧
  DomainSolver.maximum_threads_per_domain o = maximum_threads_per_domain c ∧
  1 ≤ DomainSolver.maximum_threads_per_domain o ∧
  1 ≤ DomainSolver.family_stability_confirmations o ∧
  1 ≤ DomainSolver.domain_stability_confirmations o ∧
  1 ≤ plan_confirmations o ∧ 1 ≤ opt_expand_confirmations o ∧ 1 ≤ opt_shrink_confirmations o ∧
  minimum_dwell_ns o = domain_minimum_dwell_seconds c * 10 ^ 9.
Proof.
  apply load_config_Ok in Hc as (s & st & l & _ & Hst & _ & _ & _ & Hi & _ & Hr).
  apply out_of_ranges_false in Hr as (H1 & H2 & _).
  pose proof (ld_ints _ _ Hst) as Hf. rewrite <-Hi in Hf.
  rewrite Forall_forall in H1, H2, Hf.
  assert (∀ z, 0 ≤ z → int_fits z → u64 z = z) as Hu.
  { intros z ? [_ ?]. unfold u64. apply Z.mod_small. lia. }
  assert (1 ≤ family_edges_per_family c) by (apply H1; in_fields).
  assert (1 ≤ maximum_threads_per_domain c) by (apply H1; in_fields).
  assert (0 ≤ domain_minimum_dwell_seconds c) by (apply H2; in_fields).
  assert (int_fits (domain_minimum_dwell_seconds c)) as [_ Hd] by (apply Hf; in_fields).
  cbn. rewrite (Hu (family_edges_per_family c)), (Hu (maximum_threads_per_domain c)),
    (Hu (domain_minimum_dwell_seconds c)) by (lia || (apply Hf; in_fields)).
  split_and!; try (lia || (apply H1; in_fields; fail)).
  unfold u64. rewrite Z.mod_small; lia.
Qed.

Lemma domain_options_exact_witness :
  minimum_dwell_ns (domain_options demo_config) = 120000000000.
Proof.
  destruct (domain_options_exact _ _ _ _ _ _ _ demo_config_Ok)
    as (_ & _ & _ & _ & _ & _ & _ & _ & _ & H). rewrite H. reflexivity.
Defined.

Lemma detect_allowed_cpus_Ok kernel l :
  detect_allowed_cpus kernel = Ok l →
  ∃ m, kernel = Some m ∧ (∀ cpu, cpu ∈ l ↔ 0 ≤ cpu < CPU_SETSIZE ∧ m cpu = true) ∧
    StronglySorted Z.lt l ∧ Forall (λ cpu, 0 ≤ cpu ≤ max_cpu) l.
Proof.
  unfold detect_allowed_cpus. destruct kernel as [m|]; [|done].
  case_bool_decide; [done|]. intros [= <-]. exists m. split; [done|].
  assert (∀ cpu, cpu ∈ filter (λ cpu, m cpu = true) (seqZ 0 CPU_SETSIZE) ↔
    0 ≤ cpu < CPU_SETSIZE ∧ m cpu = true) as Hin.
  { intros cpu. rewrite list_elem_of_filter, elem_of_seqZ. lia || naive_solver lia. }
  split; [exact Hin|]. split.
  - apply sorted_filter, seqZ_sorted.
  - apply Forall_forall. intros cpu [Hr _]%Hin. unfold CPU_SETSIZE, max_cpu in *. lia.
Qed.

(** the CPU envelope comes from the first source that gives one: the
    command line, then [AFFINITY_CPUS], then the last [resources.cpus] of the
    file, then the process affinity mask; whichever it is, the envelope is
    non-empty, strictly increasing and within 0..1048575.  A non-empty
    [AFFINITY_THREAD_PROFILE] replaces the profile path of the file. *)
Theorem cpu_source_precedence path contents over env profile kernel c
    (Hc : load_config path contents over env profile kernel = Ok c) :
  (if String.eqb over "" then
     match env_set env with
     | Some e => parse_cpu_list e = Ok (cpus c)
     | None =>
         match contents ≫= toml_cpus with
         | Some v => ∃ s, unquote v = Ok s ∧ parse_cpu_list s = Ok (cpus c)
         | None => ∃ m, kernel = Some m ∧
             ∀ cpu, cpu ∈ cpus c ↔ 0 ≤ cpu < CPU_SETSIZE ∧ m cpu = true
         end
     end
   else parse_cpu_list over = Ok (cpus c)) ∧
  cpus c ≠ [] ∧ StronglySorted Z.lt (cpus c) ∧ Forall (λ cpu, 0 ≤ cpu ≤ max_cpu) (cpus c) ∧
  (∀ p, env_set profile = Some p → thread_profile_path c = p).
Proof.
  apply load_config_Ok in Hc as (s & st & l & -> & Hst & Hl & -> & Hne & _ & Hp & _).
  assert (parse_ok : ∀ t, parse_cpu_list t = Ok l →
    StronglySorted Z.lt l ∧ Forall (λ cpu, 0 ≤ cpu ≤ max_cpu) l)
    by (intros t Ht; apply (parse_cpu_list_ok _ _ Ht)).
  assert (∀ p, env_set profile = Some p → thread_profile_path c = p) by (intros p Hp'; by rewrite Hp, Hp').
  pose proof (ld_cpus _ _ Hst) as Hcpus. unfold choose_cpus in Hl. cbn [mbind option_bind].
  unfold toml_cpus.
  destruct (String.eqb over ""); cbn [negb] in Hl; [|by naive_solver].
  destruct (env_set env) as [e|]; [by naive_solver|].
  destruct (foldl _ _ _).2 as [v|].
  - destruct Hcpus as (Ht & t & Hq & Hpc). rewrite Ht in Hl. injection Hl as Hl.
    rewrite Hl in Hpc. naive_solver.
  - rewrite Hcpus in Hl. apply detect_allowed_cpus_Ok in Hl as (m & -> & Hin & Hs & Hf).
    naive_solver.
Qed.

Lemma cpu_source_precedence_witness :
  parse_cpu_list "0-3,8" = Ok (cpus demo_config) ∧ thread_profile_path demo_config = "p.json".
Proof.
  destruct (cpu_source_precedence _ _ _ _ _ _ _ demo_config_Ok) as (Hs & _ & _ & _ & Hp).
  split; [|apply Hp; reflexivity].
  change (∃ s, unquote (chars (q +:+ "0-3,8" +:+ q)) = Ok s ∧
    parse_cpu_list s = Ok (cpus demo_config)) in Hs.
  destruct Hs as (s & Hq & Hs). vm_compute in Hq. injection Hq as <-. exact Hs.
Defined.

(** The range test is written with [<] and [>], which a NaN never satisfies:
    the text [nan] is accepted for a bounded ratio.  *)
Theorem nan_ratio_accepted :
  ∃ c, load_config "ag.toml"
         (Some ("[runtime]" +:+ nl +:+ "minimum_confidence = nan" +:+ nl +:+
                "domain_capacity_ratio = nan" +:+ nl)) "0" None None None = Ok c ∧
    minimum_confidence c = S754_nan ∧ domain_capacity_ratio c = S754_nan.
Proof. eexists. split; [vm_compute; reflexivity|]. split; reflexivity. Qed.
