(* ===== verification/Hotspot.v ===== *)
(** * Hotspot edges and the managed cohort ([src/solver.cpp], stateless part)

    [active_cohort] and its continuation test, the selection of hotspot edges
    and the selection of the bounded set of threads the incremental solver
    manages. *)
From Stdlib Require Import SpecFloat.
From S2P Require Import Prelude Binary64 Core.
Local Open Scope Z_scope.

(** [struct IncrementalOptions] *)
Record IncrementalOptions := mk_IncrementalOptions {
  maximum_migrated_threads_ratio : double;
  initial_migrated_threads_ratio : double;
  proposal_confirmations : Z;
  initial_proposal_confirmations : Z;
  minimum_dwell_ns : Z;
  initial_node_passes : Z;
  initial_node_thread_slack_ratio : double;
  candidate_multiplier : Z;
  candidate_hard_limit : Z;
  rotating_scan_size : Z;
  demand_dirty_threshold : double;
  edge_dirty_absolute_threshold : double;
  edge_dirty_relative_threshold : double;
  minimum_relative_gain : double;
  maximum_threads_per_cpu : Z;
  thread_slot_slack : Z;
  future_demand_floor : double;
  group_peak_demand_ratio : double;
  group_peak_demand_cap : double;
  group_peak_decay : double;
  node_balance_threshold : double;
  hotspot_edges_per_thread : Z;
  hotspot_edge_quantile : double;
  hotspot_component_boost : double;
  maximum_managed_threads : Z;
  managed_thread_hysteresis_ratio : double;
  hotspot_replan_growth_ratio : double;
  hotspot_replan_min_threads : Z;
  hotspot_stability_threshold : double;
  hotspot_stability_confirmations : Z;
}.

(** The defaults of the struct. *)
Definition IncrementalOptions_default : IncrementalOptions :=
  mk_IncrementalOptions (dlit 25 100) d1 3 1 60000000000 2 (dlit 5 10) 4 64 32 (dlit 5 100)
    d1 (dlit 10 100) (dlit 5 100) 0 0 (dlit 2 100) (dlit 25 100) (dlit 5 100) (dlit 95 100)
    (dlit 5 100) 4 (dlit 95 100) (double_of_Z 4) 32 d1 (dlit 25 100) 8 (dlit 65 100) 3.

(** ** Active cohorts *)
Abbreviation ActiveCohort := (gset ThreadIdentity).

Definition active_cohort (threads : list ThreadDemand) (active_threshold : double) : ActiveCohort :=
  foldl (λ s t, if (active_threshold <=? td_demand t)%D then {[td_identity t]} ∪ s else s)
    ∅ threads.

Definition active_cohort_continues (previous current : ActiveCohort)
    (maximum_growth_ratio : double) : bool :=
  if bool_decide (previous = current) then negb (bool_decide (current = ∅)) else
  if (Nat.ltb (size previous) 20) || (Nat.leb (size current) (size previous)) ||
     negb (bool_decide (previous ⊆ current)) then false else
  let additions := Z.of_nat (size current - size previous) in
  let allowance := dceil_Z (double_of_nat (size previous) * maximum_growth_ratio)%D in
  additions <=? allowance.

(** ** [select_hotspot_edges] *)
Record Candidate := mk_Candidate { c_edge : RelationEdge; c_weight : double; c_key : Z * Z }.

Section hotspots.
Context (threads : gmap Z ThreadDemand) (o : IncrementalOptions).

Definition is_candidate (e : RelationEdge) : bool :=
  negb ((re_from_tid e =? re_to_tid e) || (re_score e <=? d0)%D ||
        negb (bool_decide (is_Some (threads !! re_from_tid e))) ||
        negb (bool_decide (is_Some (threads !! re_to_tid e)))).

Definition candidate_of (e : RelationEdge) : Candidate :=
  mk_Candidate e
    (re_score e * (d1 + hotspot_component_boost o * dmax (re_sync e) (re_share e)))%D
    (edge_key (re_from_tid e) (re_to_tid e)).

Definition hotspot_candidates (edges : list RelationEdge) : list Candidate :=
  candidate_of <$> filter (λ e, is_candidate e = true) edges.

(** The weight at the quantile; the index is within the range for a quantile
    in [0, 1]. *)
Definition quantile_threshold (candidates : list Candidate) : double :=
  let weights := std_sort dltb (c_weight <$> candidates) in
  let index := dfloor_Z (hotspot_edge_quantile o * double_of_Z (Zsize weights - 1))%D in
  default d0 (weights !! Z.to_nat index).

Definition heavier (a b : Candidate) : bool :=
  if negb (c_weight a =? c_weight b)%D then (c_weight b <? c_weight a)%D
  else key_ltb (c_key a) (c_key b).

Definition incident_candidates (candidates : list Candidate) : gmap Z (list Candidate) :=
  foldl (λ m c, push_back (re_to_tid (c_edge c)) c (push_back (re_from_tid (c_edge c)) c m))
    ∅ candidates.

(** [values.resize(min(values.size(), static_cast<size_t>(n)))]: a negative
    [n] converts to a huge size. *)
Definition resize_min {A} (l : list A) (n : Z) : list A :=
  if n <? 0 then l else take (Z.to_nat n) l.

Definition selected_keys (candidates : list Candidate) : gset (Z * Z) :=
  foldl (λ sel (e : Z * list Candidate),
      list_to_set (c_key <$> resize_min (std_sort heavier e.2) (hotspot_edges_per_thread o)) ∪ sel)
    ∅ (items (incident_candidates candidates)).

Definition keep_candidate (threshold : double) (selected : gset (Z * Z)) (c : Candidate) : bool :=
  negb ((c_weight c + d1em12 <? threshold)%D && negb (bool_decide (c_key c ∈ selected))).

Definition select_hotspot_edges (edges : list RelationEdge) : list RelationEdge :=
  let candidates := hotspot_candidates edges in
  if bool_decide (candidates = []) then [] else
  let threshold := quantile_threshold candidates in
  let selected := selected_keys candidates in
  std_sort (λ a b, key_ltb (re_key a) (re_key b))
    ((λ c, re_with_score (c_edge c) (c_weight c)) <$>
       filter (λ c, keep_candidate threshold selected c = true) candidates).
End hotspots.

#[export] Instance Candidate_eq_dec : EqDecision Candidate.
Proof. solve_decision. Defined.

(** ** [select_managed_threads] *)
Section managed.
Context (threads : list ThreadDemand) (previous_managed : gset Z) (o : IncrementalOptions).

(** [by_tid]: the last entry of a TID wins. *)
Definition by_tid : gmap Z ThreadDemand := foldl (λ m t, <[td_tid t := t]> m) ∅ threads.
Definition demand_of_tid (t : Z) : double :=
  match by_tid !! t with Some d => td_demand d | None => d0 end.
Definition identity_of_tid (t : Z) : ThreadIdentity :=
  match by_tid !! t with Some d => td_identity d | None => mk_ThreadIdentity 0 0 0 end.

Context (hotspots : list RelationEdge).

Definition degree : gmap Z double :=
  foldl (λ m e,
      let m := <[re_from_tid e := (get_or d0 m (re_from_tid e) + re_score e)%D]> m in
      <[re_to_tid e := (get_or d0 m (re_to_tid e) + re_score e)%D]> m) ∅ hotspots.
Definition neighbours : gmap Z (list (Z * double)) :=
  foldl (λ m e, push_back (re_to_tid e) (re_from_tid e, re_score e)
                  (push_back (re_from_tid e) (re_to_tid e, re_score e) m)) ∅ hotspots.
Definition degree_of (t : Z) : double := get_or d0 degree t.

Definition rank_ltb (a b : Z) : bool :=
  if negb (degree_of a =? degree_of b)%D then (degree_of b <? degree_of a)%D
  else if negb (demand_of_tid a =? demand_of_tid b)%D then (demand_of_tid b <? demand_of_tid a)%D
  else key_ltb (identity_of_tid a) (identity_of_tid b).
Definition ranked : list Z := std_sort rank_ltb (items by_tid).*1.

Definition managed_limit : nat := Nat.min (length ranked) (Z.to_nat (maximum_managed_threads o)).
Definition retention_limit : nat :=
  Nat.min (length ranked)
    (Z.to_nat (dceil_Z (double_of_nat managed_limit * (d1 + managed_thread_hysteresis_ratio o))%D)).

(** Previously managed threads inside the rank band, while there is room. *)
Definition retained : gset Z :=
  foldl (λ sel t, if Nat.ltb (size sel) managed_limit && bool_decide (t ∈ previous_managed)
                  then {[t]} ∪ sel else sel) ∅ (take retention_limit ranked).

(** The heaviest hotspot edge, smallest TIDs first among equals. *)
Definition seed_gt (e f : RelationEdge) : bool :=
  tuple_gt [dcmp (re_score e) (re_score f);
            zcmp (- Z.min (re_from_tid e) (re_to_tid e)) (- Z.min (re_from_tid f) (re_to_tid f));
            zcmp (- Z.max (re_from_tid e) (re_to_tid e)) (- Z.max (re_from_tid f) (re_to_tid f))].
Definition seeded (sel : gset Z) : gset Z :=
  match hotspots with
  | e :: _ =>
      if bool_decide (sel = ∅) && Nat.leb 2 managed_limit then
        let seed := foldl (λ s f, if seed_gt f s then f else s) e hotspots in
        {[re_to_tid seed]} ∪ ({[re_from_tid seed]} ∪ sel)
      else sel
  | [] => sel
  end.

(** The weight and number of a thread's edges into the selection. *)
Definition internal (sel : gset Z) (t : Z) : double * Z :=
  foldl (λ '(g, n) '(other, weight),
      if bool_decide (other ∈ sel) then ((g + weight)%D, n + 1) else (g, n))
    (d0, 0) (get_or [] neighbours t).

Record Growth := mk_Growth {
  g_gain : double; g_neighbours : Z; g_degree : double; g_demand : double;
  g_identity : ThreadIdentity }.
Definition growth_gt (a b : Growth) : bool :=
  tuple_gt [dcmp (g_gain a) (g_gain b); zcmp (g_neighbours a) (g_neighbours b);
            dcmp (g_degree a) (g_degree b); dcmp (g_demand a) (g_demand b);
            kcmp (g_identity a) (g_identity b)].
Definition growth_of (sel : gset Z) (t : Z) : Growth :=
  mk_Growth (internal sel t).1 (internal sel t).2 (degree_of t) (demand_of_tid t)
    (identity_of_tid t).

Definition grow_candidate (sel : gset Z) (best : Z * Growth) (t : Z) : Z * Growth :=
  if bool_decide (t ∈ sel) then best
  else if (best.1 <? 0) || growth_gt (growth_of sel t) best.2 then (t, growth_of sel t)
  else best.
Definition dm1 : double := double_of_Z (-1).
Definition grow_best (sel : gset Z) : Z :=
  (foldl (grow_candidate sel) (-1, mk_Growth dm1 0 dm1 dm1 (mk_ThreadIdentity 0 0 0)) ranked).1.

(** [while (selected.size() < limit)]: each turn selects one more thread or
    leaves the loop. *)
Fixpoint grow (fuel : nat) (sel : gset Z) : gset Z :=
  match fuel with
  | O => sel
  | S f =>
      if negb (Nat.ltb (size sel) managed_limit) then sel else
      let best := grow_best sel in
      if best <? 0 then sel else grow f ({[best]} ∪ sel)
  end.

(** The swap search: [(best_out, best_in, best_gain)]. *)
Definition swap_loss (sel : gset Z) (out : Z) : double :=
  foldl (λ l '(other, weight), if bool_decide (other ∈ sel) then (l + weight)%D else l)
    d0 (get_or [] neighbours out).
Definition swap_gain (sel : gset Z) (out inn : Z) : double :=
  foldl (λ g '(other, weight),
      if negb (other =? out) && bool_decide (other ∈ sel) then (g + weight)%D else g)
    d0 (get_or [] neighbours inn).

Definition swap_candidate (sel : gset Z) (out : Z) (best : Z * Z * double) (inn : Z) :
    Z * Z * double :=
  let '(best_out, best_in, best_gain) := best in
  if bool_decide (inn ∈ sel) then best else
  let improvement := (swap_gain sel out inn - swap_loss sel out)%D in
  if (improvement <=? d0 + d1em12)%D then best else
  if (best_in <? 0) ||
     tuple_gt [dcmp improvement best_gain; dcmp (degree_of inn) (degree_of best_in);
               dcmp (demand_of_tid inn) (demand_of_tid best_in);
               kcmp (identity_of_tid inn) (identity_of_tid best_in);
               kcmp (identity_of_tid out) (identity_of_tid best_out)]
  then (out, inn, improvement) else best.

Definition swap_out (sel : gset Z) (best : Z * Z * double) (out : Z) : Z * Z * double :=
  if bool_decide (out ∈ previous_managed) then best
  else foldl (swap_candidate sel out) best ranked.

Definition best_swap (sel : gset Z) : Z * Z * double :=
  foldl (swap_out sel) (-1, -1, d0) (set_items sel).

(** At most [limit] one-for-one swaps. *)
Fixpoint refine (passes : nat) (sel : gset Z) : gset Z :=
  match passes with
  | O => sel
  | S p =>
      let '(best_out, best_in, _) := best_swap sel in
      if best_in <? 0 then sel else refine p ({[best_in]} ∪ (sel ∖ {[best_out]}))
  end.

Definition managed_selection : gset Z :=
  refine managed_limit (grow managed_limit (seeded retained)).
End managed.

Definition select_managed_threads (threads : list ThreadDemand) (edges : list RelationEdge)
    (previous_managed : gset Z) (o : IncrementalOptions) : list ThreadDemand :=
  if (maximum_managed_threads o <=? 0) || (Zsize threads <=? maximum_managed_threads o)
  then threads
  else
    let hotspots := select_hotspot_edges (by_tid threads) o edges in
    let selected := managed_selection threads previous_managed o hotspots in
    filter (λ t, td_tid t ∈ selected) threads.
