(* ===== verification/HotspotProperties.v ===== *)
(** * Properties of the hotspot and managed-cohort selection

    Hotspot pruning never drops one of a thread's heaviest relations, and the
    managed cohort has exactly the configured size and keeps what the
    hysteresis promises to keep. *)
From Stdlib Require Import SpecFloat.
From S2P Require Import Prelude Binary64 Core Hotspot.
Local Open Scope Z_scope.

(** ** The candidates and their selection *)
Section candidates.
Context (threads : gmap Z ThreadDemand) (o : IncrementalOptions).

Definition c_incident (t : Z) (c : Candidate) : bool :=
  (re_from_tid (c_edge c) =? t) || (re_to_tid (c_edge c) =? t).

Lemma elem_of_hotspot_candidates edges c :
  c ∈ hotspot_candidates threads o edges ↔
  ∃ e, e ∈ edges ∧ is_candidate threads e = true ∧ c = candidate_of o e.
Proof. unfold hotspot_candidates. rewrite list_elem_of_fmap. setoid_rewrite list_elem_of_filter. naive_solver. Qed.

Lemma is_candidate_true e :
  is_candidate threads e = true ↔
  re_from_tid e ≠ re_to_tid e ∧ (re_score e <=? d0)%D = false ∧
  is_Some (threads !! re_from_tid e) ∧ is_Some (threads !! re_to_tid e).
Proof.
  unfold is_candidate. rewrite negb_true_iff, !orb_false_iff, !negb_false_iff, !bool_decide_eq_true,
    Z.eqb_neq. tauto.
Qed.

Lemma incident_candidates_get l t :
  Forall (λ c, re_from_tid (c_edge c) ≠ re_to_tid (c_edge c)) l →
  get_or [] (incident_candidates l) t = filter (λ c, c_incident t c = true) l.
Proof.
  intros Hne. unfold incident_candidates.
  refine (foldl_invariant_prefix
    (λ m c, push_back (re_to_tid (c_edge c)) c (push_back (re_from_tid (c_edge c)) c m))
    (λ pre m, get_or [] m t = filter (λ c, c_incident t c = true) pre) l ∅ eq_refl _).
  intros pre c rest m Hl Hm. rewrite !get_or_push_back, filter_app, filter_cons, filter_nil.
  assert (re_from_tid (c_edge c) ≠ re_to_tid (c_edge c)) as Hc.
  { rewrite Forall_forall in Hne. apply Hne. rewrite Hl. set_solver. }
  repeat case_decide; subst; unfold c_incident in *;
    rewrite ?orb_true_iff, ?Z.eqb_eq in *; try congruence; try tauto.
  all: try by rewrite ?Hm.
  all: rewrite ?app_nil_r; rewrite ?Hm; try done; intuition congruence.
Qed.

Lemma incident_candidates_dom l t :
  t ∈ dom (incident_candidates l) ↔ ∃ c, c ∈ l ∧ c_incident t c = true.
Proof.
  unfold incident_candidates.
  refine (foldl_invariant_prefix
    (λ m c, push_back (re_to_tid (c_edge c)) c (push_back (re_from_tid (c_edge c)) c m))
    (λ pre m, t ∈ dom m ↔ ∃ c, c ∈ pre ∧ c_incident t c = true) l ∅ _ _).
  { set_solver. }
  intros pre c rest m _ Hm. unfold push_back. rewrite !dom_insert, !elem_of_union, Hm.
  setoid_rewrite elem_of_app. setoid_rewrite list_elem_of_singleton.
  unfold c_incident at 2. split.
  - rewrite !elem_of_singleton. intros [->|[->|(c' & ? & ?)]]; [exists c..|exists c'];
      unfold c_incident; rewrite ?Z.eqb_refl, ?orb_true_r; auto.
  - intros (c' & [Hc'| ->] & Hi); [by eauto|]. unfold c_incident in Hi.
    apply orb_true_iff in Hi as [Hi|Hi]; apply Z.eqb_eq in Hi; set_solver.
Qed.

Lemma elem_of_selected_keys l k :
  k ∈ selected_keys o l ↔ ∃ t, t ∈ dom (incident_candidates l) ∧
    k ∈ c_key <$> resize_min (std_sort heavier (get_or [] (incident_candidates l) t))
                    (hotspot_edges_per_thread o).
Proof.
  unfold selected_keys. rewrite foldl_union_elem. setoid_rewrite elem_of_list_to_set. split.
  - intros [?|([t cs] & Hin%elem_of_items & Hk)]; [set_solver|]. exists t.
    unfold get_or. rewrite Hin. split; [by eapply elem_of_dom_2|done].
  - intros (t & [cs Ht]%elem_of_dom & Hk). right. exists (t, cs).
    split; [by apply elem_of_items|]. unfold get_or in Hk. by rewrite Ht in Hk.
Qed.
End candidates.


(** The heaviest candidates of a thread are a prefix of the sorted list. *)
Lemma heavier_sorted l : Forall (λ c, not_nan (c_weight c)) l →
  StronglySorted (λ x y, heavier y x = false) (std_sort heavier l).
Proof.
  apply (std_sort_sorted heavier (λ c, not_nan (c_weight c))).
  - intros x y. apply heavy_ltb_asym.
  - intros x y z. apply heavy_ltb_negtrans.
Qed.

Section selection.
Context (threads : gmap Z ThreadDemand) (o : IncrementalOptions) (edges : list RelationEdge).
Local Abbreviation cs := (hotspot_candidates threads o edges).

Definition scored (c : Candidate) : RelationEdge := re_with_score (c_edge c) (c_weight c).

Lemma elem_of_select_hotspot_edges e :
  e ∈ select_hotspot_edges threads o edges ↔
  ∃ c, c ∈ cs ∧ e = scored c ∧
    keep_candidate (quantile_threshold o cs) (selected_keys o cs) c = true.
Proof.
  unfold select_hotspot_edges. cbv zeta. case_bool_decide as Hnil.
  - rewrite Hnil. set_solver.
  - rewrite elem_of_std_sort, list_elem_of_fmap. setoid_rewrite list_elem_of_filter.
    unfold scored. naive_solver.
Qed.

Lemma candidates_distinct : Forall (λ c, re_from_tid (c_edge c) ≠ re_to_tid (c_edge c)) cs.
Proof.
  apply Forall_forall. intros c (e & _ & He & ->)%elem_of_hotspot_candidates.
  by apply is_candidate_true in He as [? _].
Qed.

Lemma keep_selected c : c_key c ∈ selected_keys o cs →
  keep_candidate (quantile_threshold o cs) (selected_keys o cs) c = true.
Proof.
  intros Hk. unfold keep_candidate. rewrite (bool_decide_eq_true_2 _ Hk), andb_false_r. done.
Qed.

(** A dropped candidate is beaten by [k] kept ones at each of its threads. *)
Lemma dropped_candidate c t :
  Forall (λ c, not_nan (c_weight c)) cs → 0 ≤ hotspot_edges_per_thread o →
  c ∈ cs → c_incident t c = true → c_key c ∉ selected_keys o cs →
  ∃ kept, length kept = Z.to_nat (hotspot_edges_per_thread o) ∧
    kept `sublist_of` std_sort heavier (filter (λ c, c_incident t c = true) cs) ∧
    ∀ c', c' ∈ kept → c' ∈ cs ∧ c_incident t c' = true ∧
      c_key c' ∈ selected_keys o cs ∧ heavier c c' = false.
Proof.
  intros Hnan Hk Hc Hi Hsel. set (k := Z.to_nat (hotspot_edges_per_thread o)).
  set (mine := filter (λ c, c_incident t c = true) cs).
  assert (t ∈ dom (incident_candidates cs)) as Hd by (apply incident_candidates_dom; eauto).
  assert (∀ c', c' ∈ take k (std_sort heavier mine) → c_key c' ∈ selected_keys o cs) as Hin.
  { intros c' Hc'. apply elem_of_selected_keys. exists t. split; [done|].
    rewrite incident_candidates_get by apply candidates_distinct. unfold resize_min.
    destruct (hotspot_edges_per_thread o <? 0) eqn:E; [bool_hyps; lia|].
    by apply (list_elem_of_fmap_2 c_key). }
  assert (c ∈ mine) as Hm by (by apply list_elem_of_filter).
  assert (c ∈ drop k (std_sort heavier mine)) as Hdrop.
  { apply (elem_of_std_sort heavier) in Hm. rewrite <-(take_drop k (std_sort heavier mine)) in Hm.
    apply elem_of_app in Hm as [Hm|Hm]; [|done]. by destruct Hsel; apply Hin. }
  assert (Forall (λ c, not_nan (c_weight c)) mine) as Hnm.
  { rewrite Forall_forall in Hnan |- *. intros c' [_ ?]%list_elem_of_filter. auto. }
  exists (take k (std_sort heavier mine)). split; [|split].
  - rewrite length_take. destruct (decide (k ≤ length (std_sort heavier mine))%nat); [lia|].
    rewrite drop_ge in Hdrop by lia. set_solver.
  - apply sublist_take.
  - intros c' Hc'. pose proof (subseteq_take _ _ _ Hc') as Hs.
    apply elem_of_std_sort, list_elem_of_filter in Hs as [? ?]. split_and!; [done|done|by apply Hin|].
    by apply (sorted_take_drop _ k _ c' c (heavier_sorted _ Hnm)).
Qed.
End selection.

(** [select_hotspot_edges] returns relations of live, distinct threads with
    their boosted weights, in key order; a relation it drops lies below the
    weight quantile, and each of its two threads has the configured number of
    other relations, none of them lighter, that are all kept. *)
Theorem hotspot_edges_kept threads o edges
    (Hnan : Forall (λ c, not_nan (c_weight c)) (hotspot_candidates threads o edges))
    (Hk : 0 ≤ hotspot_edges_per_thread o) :
  let cs := hotspot_candidates threads o edges in
  let kept := select_hotspot_edges threads o edges in
  StronglySorted (λ a b, key_ltb (re_key b) (re_key a) = false) kept ∧
  (∀ e, e ∈ kept → ∃ c, c ∈ cs ∧ e = scored c ∧ c_edge c ∈ edges ∧
     re_from_tid e ≠ re_to_tid e ∧ is_Some (threads !! re_from_tid e) ∧
     is_Some (threads !! re_to_tid e)) ∧
  (∀ c t, c ∈ cs → c_incident t c = true → scored c ∉ kept →
     (c_weight c + d1em12 <? quantile_threshold o cs)%D = true ∧
     ∃ better, length better = Z.to_nat (hotspot_edges_per_thread o) ∧
       better `sublist_of` std_sort heavier (filter (λ c, c_incident t c = true) cs) ∧
       ∀ c', c' ∈ better → scored c' ∈ kept ∧ heavier c c' = false).
Proof.
  cbv zeta. split_and!.
  - unfold select_hotspot_edges. cbv zeta. case_bool_decide; [constructor|].
    apply (std_sort_sorted (λ a b, key_ltb (re_key a) (re_key b)) (λ _, True)).
    + intros x y _ _. apply key_ltb_asym.
    + intros x y z _ _ _. apply key_ltb_negtrans.
    + by apply Forall_true.
  - intros e (c & Hc & -> & _)%elem_of_select_hotspot_edges. exists c.
    pose proof Hc as (e' & He' & Hcand & ->)%elem_of_hotspot_candidates.
    apply is_candidate_true in Hcand. naive_solver.
  - intros c t Hc Hi Hout.
    destruct (keep_candidate (quantile_threshold o (hotspot_candidates threads o edges))
      (selected_keys o (hotspot_candidates threads o edges)) c) eqn:E.
    { destruct Hout. apply elem_of_select_hotspot_edges. eauto. }
    unfold keep_candidate in E. apply negb_false_iff, andb_true_iff in E as [Hw Hs].
    apply negb_true_iff, bool_decide_eq_false in Hs. split; [exact Hw|].
    destruct (dropped_candidate threads o edges c t) as (better & Hl & Hsub & Hb); [done..|].
    exists better. split_and!; [done|done|]. intros c' Hc'.
    destruct (Hb c' Hc') as (Hin & _ & Hsel & Hh). split; [|done].
    apply elem_of_select_hotspot_edges. eauto using keep_selected.
Qed.

Definition demo_thread (t : Z) (d : Z) : ThreadDemand :=
  mk_ThreadDemand (mk_ThreadIdentity 1 t 7) "w" (dlit d 10) d1 0.
Definition demo_edge (a b : Z) (score : Z) : RelationEdge :=
  mk_RelationEdge a b d0 d0 d0 d0 (double_of_Z score) d0 d0 d0 1 d1 d0.
Definition demo_cohort : list ThreadDemand :=
  [demo_thread 11 5; demo_thread 12 5; demo_thread 13 5; demo_thread 14 2].
Definition demo_relations : list RelationEdge :=
  [demo_edge 11 12 9; demo_edge 12 13 5; demo_edge 11 13 1; demo_edge 13 14 4; demo_edge 14 11 2].
Definition demo_hot_options : IncrementalOptions :=
  mk_IncrementalOptions (dlit 25 100) d1 3 1 60000000000 2 (dlit 5 10) 4 64 32 (dlit 5 100)
    d1 (dlit 10 100) (dlit 5 100) 0 0 (dlit 2 100) (dlit 25 100) (dlit 5 100) (dlit 95 100)
    (dlit 5 100) 1 (dlit 95 100) (double_of_Z 4) 2 d1 (dlit 25 100) 8 (dlit 65 100) 3.

Lemma hotspot_edges_kept_witness :
  ∃ better, length better = 1%nat ∧
    ∀ c', c' ∈ better → scored c' ∈
      select_hotspot_edges (by_tid demo_cohort) demo_hot_options demo_relations.
Proof.
  destruct (hotspot_edges_kept (by_tid demo_cohort) demo_hot_options demo_relations)
    as (_ & _ & H).
  - apply (bool_decide_unpack _). vm_compute. exact I.
  - discriminate.
  - destruct (H (candidate_of demo_hot_options (demo_edge 11 13 1)) 11) as (_ & better & Hl & _ & Hb).
    + apply (bool_decide_unpack _). vm_compute. exact I.
    + reflexivity.
    + apply (bool_decide_unpack _). vm_compute. exact I.
    + exists better. split; [exact Hl|]. intros c' Hc'. apply (Hb c' Hc').
Defined.

(** ** The managed cohort *)
Section managed_facts.
Context (threads : list ThreadDemand) (prev : gset Z) (o : IncrementalOptions).
Context (hotspots : list RelationEdge).
Local Abbreviation rk := (ranked threads hotspots).
Local Abbreviation limit := (managed_limit threads o hotspots).
Local Abbreviation live := (dom (by_tid threads)).

Lemma elem_of_by_tid t : t ∈ live ↔ t ∈ td_tid <$> threads.
Proof.
  unfold by_tid. refine (foldl_invariant_prefix (λ m t, <[td_tid t := t]> m)
    (λ pre m, t ∈ dom m ↔ t ∈ td_tid <$> pre) threads ∅ _ _); [set_solver|].
  intros pre b rest m _ Hm. rewrite dom_insert, fmap_app. set_solver.
Qed.

Lemma elem_of_ranked t : t ∈ rk ↔ t ∈ live.
Proof.
  unfold ranked. rewrite elem_of_std_sort, list_elem_of_fmap. split.
  - intros ([k v] & -> & Hin%elem_of_items). by eapply elem_of_dom_2.
  - intros [v Hv]%elem_of_dom. exists (t, v). by rewrite elem_of_items.
Qed.

Lemma NoDup_ranked : NoDup rk.
Proof. unfold ranked. apply NoDup_std_sort, NoDup_items_fst. Qed.

Lemma list_to_set_ranked : list_to_set rk = live.
Proof. apply set_eq. intros t. by rewrite elem_of_list_to_set, elem_of_ranked. Qed.

Lemma size_live : size live = length rk.
Proof. rewrite <-list_to_set_ranked. apply size_list_to_set, NoDup_ranked. Qed.

(** Retention. *)
Lemma retained_spec :
  (size (retained threads prev o hotspots) ≤ limit)%nat ∧
  retained threads prev o hotspots ⊆ live ∧ retained threads prev o hotspots ⊆ prev ∧
  ∀ t, t ∈ take (retention_limit threads o hotspots) rk → t ∈ prev →
    t ∈ retained threads prev o hotspots ∨ size (retained threads prev o hotspots) = limit.
Proof.
  unfold retained. set (step := λ (sel : gset Z) t, _).
  refine (foldl_invariant_prefix step (λ pre sel, (size sel ≤ limit)%nat ∧ sel ⊆ live ∧ sel ⊆ prev ∧
    ∀ t, t ∈ pre → t ∈ prev → t ∈ sel ∨ size sel = limit) _ ∅ _ _).
  { split_and!; [rewrite size_empty; lia|set_solver..]. }
  intros pre b rest sel Hl (Hs & Hlive & Hprev & Hin).
  assert (b ∈ live) as Hb.
  { apply elem_of_ranked. eapply subseteq_take. rewrite Hl. set_solver. }
  unfold step. destruct (Nat.ltb _ _) eqn:E; cbn [andb].
  - apply Nat.ltb_lt in E. case_bool_decide as Hp.
    + assert (size ({[b]} ∪ sel) ≤ S (size sel))%nat.
      { rewrite size_union_alt, size_singleton.
        assert (size (sel ∖ {[b]}) ≤ size sel)%nat by (apply subseteq_size; set_solver). lia. }
      split_and!; [lia|set_solver|set_solver|].
      intros t [Ht|Ht%list_elem_of_singleton]%elem_of_app Htp; [|set_solver].
      destruct (Hin t Ht Htp) as [?|?]; [set_solver|lia].
    + split_and!; [done..|]. intros t [Ht|Ht%list_elem_of_singleton]%elem_of_app Htp; [auto|].
      by subst.
  - apply Nat.ltb_ge in E. split_and!; [done..|]. intros t _ _. right. lia.
Qed.

(** Seeding starts from the endpoints of one hotspot edge. *)
Lemma seed_elem e l : foldl (λ s f, if seed_gt f s then f else s) e l ∈ e :: l.
Proof.
  revert e. induction l as [|f l IH]; intros e; cbn; [by left|].
  specialize (IH (if seed_gt f e then f else e)). destruct (seed_gt f e); set_solver.
Qed.

Lemma seeded_spec sel :
  (∀ e, e ∈ hotspots → re_from_tid e ∈ live ∧ re_to_tid e ∈ live) →
  (size sel ≤ limit)%nat → sel ⊆ live →
  (size (seeded threads o hotspots sel) ≤ limit)%nat ∧
  seeded threads o hotspots sel ⊆ live ∧ sel ⊆ seeded threads o hotspots sel ∧
  (sel ≠ ∅ → seeded threads o hotspots sel = sel).
Proof.
  intros Hhot Hs Hl. unfold seeded.
  destruct hotspots as [|e hs] eqn:Eh; [done|]. rewrite <-Eh in *.
  case_bool_decide as Hnil; cbn [andb]; [|done].
  destruct (Nat.leb_spec 2 limit); [|by split_and!].
  destruct (Hhot (foldl (λ s f, if seed_gt f s then f else s) e hotspots)) as [Hf Ht].
  { pose proof (seed_elem e hotspots) as Hin. rewrite Eh in Hin |- *. set_solver. }
  set (f := foldl _ e hotspots) in *. subst sel. split_and!; [|set_solver|set_solver|done].
  assert (size ({[re_to_tid f]} ∪ ({[re_from_tid f]} ∪ ∅) : gset Z) ≤ 2)%nat; [|lia].
  rewrite union_empty_r_L, size_union_alt, size_singleton.
  assert (size ({[re_from_tid f]} ∖ {[re_to_tid f]} : gset Z) ≤ size ({[re_from_tid f]} : gset Z))%nat
    as Hle by (apply subseteq_size; set_solver).
  rewrite size_singleton in Hle. lia.
Qed.

(** Growth: the next thread is a live one outside the selection. *)
Lemma grow_best_spec sel :
  Forall (λ t, 0 ≤ t) rk → (∃ t, t ∈ rk ∧ t ∉ sel) →
  grow_best threads hotspots sel ∈ rk ∧ grow_best threads hotspots sel ∉ sel ∧
  0 ≤ grow_best threads hotspots sel.
Proof.
  intros Hpos (t0 & Ht0 & Hout). unfold grow_best. set (init := (-1, _)).
  pose proof (foldl_invariant_prefix (grow_candidate threads hotspots sel)
    (λ pre best, (best.1 = -1 ∧ Forall (λ t, t ∈ sel) pre) ∨
       (best.1 ∈ rk ∧ best.1 ∉ sel ∧ 0 ≤ best.1)) rk init) as H.
  destruct H as [[_ H]|H].
  - by left.
  - intros pre t rest best Hl Hb. unfold grow_candidate.
    assert (t ∈ rk) as Ht by (rewrite Hl; set_solver).
    rewrite Forall_forall in Hpos. specialize (Hpos t Ht).
    case_bool_decide as Hin.
    { destruct Hb as [[? Hf]|?]; [left|by right]. split; [done|].
      apply Forall_app. split; [done|]. by apply Forall_singleton. }
    destruct ((best.1 <? 0) || _) eqn:E; [right; done|].
    apply orb_false_iff in E as [E%Z.ltb_ge _]. destruct Hb as [[? _]|?]; [lia|by right].
  - rewrite Forall_forall in H. destruct Hout. auto.
  - done.
Qed.

Lemma grow_spec fuel sel :
  Forall (λ t, 0 ≤ t) rk → sel ⊆ live → (size sel ≤ limit)%nat → (limit ≤ size sel + fuel)%nat →
  sel ⊆ grow threads o hotspots fuel sel ∧ grow threads o hotspots fuel sel ⊆ live ∧
  size (grow threads o hotspots fuel sel) = limit ∧
  (size sel = limit → grow threads o hotspots fuel sel = sel).
Proof.
  intros Hpos. revert sel. induction fuel as [|f IH]; intros sel Hl Hs Hf; cbn [grow].
  { split_and!; [done|done|lia|done]. }
  destruct (Nat.ltb_spec (size sel) limit) as [Hlt|Hge]; cbn [negb].
  2: { split_and!; [done|done|lia|done]. }
  assert (∃ t, t ∈ rk ∧ t ∉ sel) as Hex.
  { destruct (decide (live ∖ sel = ∅)) as [Hd|(t & Ht)%set_choose_L].
    - assert (live ⊆ sel) as Hsub%subseteq_size by set_solver.
      rewrite size_live in Hsub. unfold managed_limit in *. lia.
    - exists t. rewrite elem_of_ranked. set_solver. }
  destruct (grow_best_spec sel Hpos Hex) as (Hb & Hn & H0). cbv zeta.
  destruct (grow_best threads hotspots sel <? 0) eqn:E; [bool_hyps; lia|].
  assert (size ({[grow_best threads hotspots sel]} ∪ sel) = S (size sel)) as Hsz.
  { rewrite size_union, size_singleton by set_solver. lia. }
  destruct (IH ({[grow_best threads hotspots sel]} ∪ sel)) as (H1 & H2 & H3 & _); [|lia|lia|].
  { apply elem_of_ranked in Hb. set_solver. }
  split_and!; [set_solver|done|done|lia].
Qed.

(** The swap found exchanges a selected thread that was not managed before
    for an unselected live one. *)
Lemma best_swap_spec sel :
  Forall (λ t, 0 ≤ t) rk →
  let '(out, inn, _) := best_swap threads prev hotspots sel in
  (inn < 0 ∨ (out ∈ sel ∧ out ∉ prev ∧ inn ∈ rk ∧ inn ∉ sel)).
Proof.
  intros Hpos. unfold best_swap.
  set (P := λ b : Z * Z * double, b.1.2 < 0 ∨ (b.1.1 ∈ sel ∧ b.1.1 ∉ prev ∧ b.1.2 ∈ rk ∧ b.1.2 ∉ sel)).
  cut (P (foldl (swap_out threads prev hotspots sel) (-1, -1, d0) (set_items sel))).
  { unfold P. by destruct (foldl _ _ _) as [[out inn] g]. }
  apply foldl_invariant; [left; done|]. intros best out Hout%elem_of_set_items Hb.
  unfold swap_out. case_bool_decide as Hp; [done|].
  apply foldl_invariant; [done|]. intros [[bo bi] bg] inn Hinn Hb'.
  unfold swap_candidate. case_bool_decide; [done|]. cbv zeta.
  destruct (_ <=? _)%D; [done|]. destruct (_ || _); [right; done|done].
Qed.

Lemma refine_spec passes sel :
  Forall (λ t, 0 ≤ t) rk → sel ⊆ live →
  size (refine threads prev hotspots passes sel) = size sel ∧
  refine threads prev hotspots passes sel ⊆ live ∧
  (∀ t, t ∈ sel → t ∈ prev → t ∈ refine threads prev hotspots passes sel) ∧
  (sel ⊆ prev → refine threads prev hotspots passes sel = sel).
Proof.
  intros Hpos. revert sel. induction passes as [|p IH]; intros sel Hl; cbn [refine]; [done|].
  pose proof (best_swap_spec sel Hpos) as Hb.
  destruct (best_swap threads prev hotspots sel) as [[out inn] g].
  destruct (inn <? 0) eqn:E; [done|]. bool_hyps.
  destruct Hb as [?|(Ho & Hp & Hi%elem_of_ranked & Hn)]; [lia|].
  destruct (IH ({[inn]} ∪ sel ∖ {[out]})) as (H1 & H2 & H3 & H4); [set_solver|].
  split_and!.
  - rewrite H1, size_union by set_solver.
    rewrite size_difference, !size_singleton by set_solver.
    assert (size sel ≠ 0)%nat by (intros ?%size_empty_inv; set_solver). lia.
  - done.
  - intros t Ht Htp. apply H3; [|done]. apply elem_of_union_r, elem_of_difference.
    split; [done|]. by intros ->%elem_of_singleton.
  - intros Hsp. exfalso. apply Hp. by apply Hsp.
Qed.

Lemma managed_selection_spec :
  (∀ e, e ∈ hotspots → re_from_tid e ∈ live ∧ re_to_tid e ∈ live) →
  Forall (λ t, 0 ≤ t) rk → (1 ≤ limit)%nat →
  size (managed_selection threads prev o hotspots) = limit ∧
  managed_selection threads prev o hotspots ⊆ live ∧
  ∀ t, t ∈ take (retention_limit threads o hotspots) rk → t ∈ prev →
    t ∈ managed_selection threads prev o hotspots ∨
    managed_selection threads prev o hotspots ⊆ prev.
Proof.
  intros Hhot Hpos Hone. destruct retained_spec as (Rs & Rl & Rp & Rk).
  destruct (seeded_spec _ Hhot Rs Rl) as (Ss & Sl & Ssub & Sid).
  unfold managed_selection. set (r := retained threads prev o hotspots) in *.
  destruct (grow_spec limit (seeded threads o hotspots r)) as (Gsub & Gl & Gs & Gid); [done..|lia|].
  destruct (refine_spec limit (grow threads o hotspots limit (seeded threads o hotspots r)))
    as (Fs & Fl & Fk & Fid); [done..|].
  split; [lia|]. split; [done|]. intros t Ht Htp.
  destruct (Rk t Ht Htp) as [Hin|Hfull]; [left; apply Fk; set_solver|]. right.
  assert (r ≠ ∅) as Hne by (intros ->; rewrite size_empty in Hfull; lia).
  rewrite Sid in * by done. rewrite Gid in * by done. by rewrite Fid.
Qed.
End managed_facts.

Lemma NoDup_filter_tids (threads : list ThreadDemand) (sel : gset Z) :
  NoDup (td_tid <$> threads) → sel ⊆ list_to_set (td_tid <$> threads) →
  length (filter (λ t, td_tid t ∈ sel) threads) = size sel.
Proof.
  intros Hnd Hsub.
  assert (sel = list_to_set (td_tid <$> filter (λ t, td_tid t ∈ sel) threads)) as Heq.
  { apply set_eq. intros t. rewrite elem_of_list_to_set, list_elem_of_fmap.
    setoid_rewrite list_elem_of_filter. split; [|naive_solver].
    intros Ht. specialize (Hsub t Ht). apply elem_of_list_to_set, list_elem_of_fmap in Hsub as (x & -> & Hx).
    eauto. }
  rewrite (f_equal size Heq), size_list_to_set, length_fmap; [done|].
  eapply sublist_NoDup; [exact Hnd|]. apply fmap_sublist, sublist_filter.
Qed.

(** with a positive limit the managed cohort is a subsequence of the
    threads of exactly [min(limit, population)] members: the growth loop always
    fills it and refinement keeps its size.  A previously managed thread ranked
    inside the hysteresis band stays managed, unless every place is taken by
    previously managed threads. *)
Theorem managed_threads_bounded threads edges prev o
    (Hnd : NoDup (td_tid <$> threads)) (Hpos : Forall (λ t, 0 ≤ td_tid t) threads)
    (Hmax : 0 < maximum_managed_threads o) :
  let managed := select_managed_threads threads edges prev o in
  let hotspots := select_hotspot_edges (by_tid threads) o edges in
  managed `sublist_of` threads ∧
  length managed = Nat.min (length threads) (Z.to_nat (maximum_managed_threads o)) ∧
  ∀ t, t ∈ take (retention_limit threads o hotspots) (ranked threads hotspots) → t ∈ prev →
    t ∈ td_tid <$> managed ∨ ∀ u, u ∈ td_tid <$> managed → u ∈ prev.
Proof.
  cbv zeta. unfold select_managed_threads.
  destruct ((_ <=? 0) || _) eqn:E.
  { apply orb_true_iff in E as [E|E]; bool_hyps; [lia|]. unfold Zsize in E.
    split; [done|]. split; [lia|]. intros t Ht _. left.
    by apply subseteq_take, elem_of_ranked, elem_of_by_tid in Ht. }
  bool_hyps. unfold Zsize in *. set (hs := select_hotspot_edges _ _ _).
  assert (length (ranked threads hs) = length threads) as Hlen.
  { rewrite <-size_live, <-(length_fmap td_tid threads), <-(size_list_to_set (C:=gset Z) _ Hnd).
    f_equal. apply set_eq. intros t. by rewrite elem_of_by_tid, elem_of_list_to_set. }
  destruct (managed_selection_spec threads prev o hs) as (Hs & Hl & Hr).
  - intros e (c & (e' & _ & Hc & ->)%elem_of_hotspot_candidates & -> & _)%elem_of_select_hotspot_edges.
    apply is_candidate_true in Hc as (_ & _ & Hf & Ht). by split; apply elem_of_dom.
  - apply Forall_forall. intros t Ht%elem_of_ranked%elem_of_by_tid.
    apply list_elem_of_fmap in Ht as (x & -> & Hx). rewrite Forall_forall in Hpos. auto.
  - unfold managed_limit. lia.
  - set (sel := managed_selection threads prev o hs) in *.
    assert (sel ⊆ list_to_set (td_tid <$> threads)) as Hsub.
    { intros t Ht. apply elem_of_list_to_set, elem_of_by_tid. auto. }
    split; [apply sublist_filter|]. split.
    + rewrite NoDup_filter_tids by done. rewrite Hs. unfold managed_limit. lia.
    + intros t Ht Hp. destruct (Hr t Ht Hp) as [Hin|Hall].
      * left. pose proof (Hsub t Hin) as Hx.
        apply elem_of_list_to_set, list_elem_of_fmap in Hx as (x & -> & Hx).
        apply (list_elem_of_fmap_2 td_tid), list_elem_of_filter. done.
      * right. intros u (x & -> & [Hx _]%list_elem_of_filter)%list_elem_of_fmap. auto.
Qed.

Lemma managed_threads_bounded_witness :
  (td_tid <$> select_managed_threads demo_cohort demo_relations ∅ demo_hot_options) = [11; 12] ∧
  length (select_managed_threads demo_cohort demo_relations {[14]} demo_hot_options) = 2%nat.
Proof.
  split; [vm_compute; reflexivity|].
  destruct (managed_threads_bounded demo_cohort demo_relations {[14]} demo_hot_options)
    as (_ & H & _).
  - apply (bool_decide_unpack _). vm_compute. exact I.
  - apply (bool_decide_unpack _). vm_compute. exact I.
  - reflexivity.
  - exact H.
Defined.
