(* ===== verification/Incremental.v ===== *)
(** * The incremental hotspot solver: state and admission ([src/solver.cpp])

    [IncrementalSolver], the default selector: its state and proposals, the
    small operations ([reset], [remove_thread], [effective], [commit],
    [discard]), and the part of [propose] that runs in every window — slot
    caps, demand prediction, removal of vanished threads, admission of new
    ones, and the hotspot bookkeeping.  The three phases of [propose] are in
    [NodePlanning], [InitialPinning] and [Optimizing]. *)
From Stdlib Require Import SpecFloat.
From S2P Require Import Prelude Binary64 Core CpuList Topology Hotspot.
Local Open Scope Z_scope.

Inductive IncrementalPhase := Uninitialized | NodePlanning | InitialPinning | Optimizing.

#[export] Instance IncrementalPhase_eq_dec : EqDecision IncrementalPhase.
Proof. solve_decision. Defined.

Definition incremental_phase_name (p : IncrementalPhase) : string :=
  match p with
  | Uninitialized => "uninitialized"
  | NodePlanning => "node_planning"
  | InitialPinning => "initial_pinning"
  | Optimizing => "optimizing"
  end.

(** [struct PlacementAction] *)
Record PlacementAction := mk_PlacementAction {
  pa_identity : ThreadIdentity;
  pa_from_cpu : Z;
  pa_target_cpu : Z;
  pa_initial_pin : bool;
  pa_emergency : bool;
  pa_capacity_regret : double;
  pa_relation_regret : double;
  pa_load_regret : double;
}.
Definition pa_tid (a : PlacementAction) : Z := tid (pa_identity a).

(** [struct SolverProposal] *)
Record SolverProposal := mk_SolverProposal {
  sp_id : Z;
  sp_phase : IncrementalPhase;
  sp_delta : PlacementDelta;
  sp_actions : list PlacementAction;
  sp_eligible_threads : Z;
  sp_pinned_threads : Z;
  sp_dirty_threads : Z;
  sp_candidate_threads : Z;
  sp_cooldown_skipped_threads : Z;
  sp_migration_budget : Z;
  sp_confirmation : Z;
  sp_initial_plan_confirmed : bool;
  sp_ready : bool;
  sp_shadow : bool;
  sp_node_overload : double;
  sp_relation_cost : double;
  sp_cpu_slot_cap : Z;
  sp_maximum_cpu_threads : Z;
  sp_predicted_demand_threads : Z;
  sp_relation_edges_input : Z;
  sp_hotspot_edges : Z;
  sp_hotspot_similarity : double;
  sp_hotspot_stability_confirmation : Z;
  sp_hotspot_replan_triggered : bool;
  sp_global_replan_active : bool;
}.

(** [class IncrementalSolver] *)
Record IncrementalSolver := mk_IncrementalSolver {
  i_shadow : bool;
  i_phase : IncrementalPhase;
  i_generation : Z;
  i_next_proposal_id : Z;
  i_scan_cursor : Z;
  i_last_node_plan_population : Z;
  i_replan_existing_threads : bool;
  i_stable_hotspot_replan_pending : bool;
  i_hotspot_stability_confirmation : Z;
  i_previous_hotspot_keys : gset (Z * Z);
  i_initial_confirmation : Z;
  i_identities : gmap Z ThreadIdentity;
  i_threads : gmap Z ThreadDemand;
  i_edges : gmap (Z * Z) RelationEdge;
  i_previous_demand : gmap Z double;
  i_group_peak_demand : gmap string double;
  i_previous_edge_score : gmap (Z * Z) double;
  i_baseline_cpu : gmap Z Z;
  i_initial_target_node : gmap Z Z;
  i_initial_target_cpu : gmap Z Z;
  i_previous_initial_target_node : gmap Z Z;
  i_initial_candidate_identities : gmap Z ThreadIdentity;
  i_placement : gmap Z Z;
  i_pinned : gset Z;
  i_last_moved_ns : gmap Z Z;
  i_action_confirmations : gmap string Z;
  i_outstanding : option SolverProposal;
}.

(** The records rebuilt field by field; [x <| f := v |>] is the assignment
    [x.f = v]. *)
Definition SolverProposal_eta (p : SolverProposal) : SolverProposal :=
  mk_SolverProposal (sp_id p) (sp_phase p) (sp_delta p) (sp_actions p) (sp_eligible_threads p)
    (sp_pinned_threads p) (sp_dirty_threads p) (sp_candidate_threads p)
    (sp_cooldown_skipped_threads p) (sp_migration_budget p) (sp_confirmation p)
    (sp_initial_plan_confirmed p) (sp_ready p) (sp_shadow p) (sp_node_overload p)
    (sp_relation_cost p) (sp_cpu_slot_cap p) (sp_maximum_cpu_threads p)
    (sp_predicted_demand_threads p) (sp_relation_edges_input p) (sp_hotspot_edges p)
    (sp_hotspot_similarity p) (sp_hotspot_stability_confirmation p)
    (sp_hotspot_replan_triggered p) (sp_global_replan_active p).
Definition IncrementalSolver_eta (s : IncrementalSolver) : IncrementalSolver :=
  mk_IncrementalSolver (i_shadow s) (i_phase s) (i_generation s) (i_next_proposal_id s)
    (i_scan_cursor s) (i_last_node_plan_population s) (i_replan_existing_threads s)
    (i_stable_hotspot_replan_pending s) (i_hotspot_stability_confirmation s)
    (i_previous_hotspot_keys s) (i_initial_confirmation s) (i_identities s) (i_threads s)
    (i_edges s) (i_previous_demand s) (i_group_peak_demand s) (i_previous_edge_score s)
    (i_baseline_cpu s) (i_initial_target_node s) (i_initial_target_cpu s)
    (i_previous_initial_target_node s) (i_initial_candidate_identities s) (i_placement s)
    (i_pinned s) (i_last_moved_ns s) (i_action_confirmations s) (i_outstanding s).

Ltac field_update c f v :=
  let T := type of c in
  let F := constr:(λ c' : T, ltac:(
    let t := lazymatch type of c' with
      | IncrementalSolver => eval cbv beta delta [IncrementalSolver_eta] in (IncrementalSolver_eta c')
      | SolverProposal => eval cbv beta delta [SolverProposal_eta] in (SolverProposal_eta c')
      end in
    let p := eval pattern (f c') in t in
    match p with ?G _ => let r := eval cbv beta in (G v) in exact r end)) in
  exact (F c).
Notation "c <| f := v |>" := (ltac:(field_update c f v))
  (at level 1, f constr at level 0, v at level 200, left associativity, only parsing) : Z_scope.

(** The member initialisers. *)
Definition IncrementalSolver_init (shadow : bool) : IncrementalSolver :=
  mk_IncrementalSolver shadow Uninitialized 0 1 0 0 false false 0 ∅ 0 ∅ ∅ ∅ ∅ ∅ ∅ ∅ ∅ ∅ ∅ ∅ ∅ ∅ ∅ ∅ None.

Definition SolverProposal_default : SolverProposal :=
  mk_SolverProposal 0 Uninitialized (mk_PlacementDelta ∅ ∅) [] 0 0 0 0 0 0 0 false false false
    d0 d0 0 0 0 0 0 d0 0 false false.

(** ** [reset], [remove_thread], [effective] *)
Definition reset (s : IncrementalSolver) : IncrementalSolver := IncrementalSolver_init (i_shadow s).

Definition remove_thread (t : Z) (s : IncrementalSolver) : IncrementalSolver :=
  s <| i_identities := delete t (i_identities s) |>
    <| i_threads := delete t (i_threads s) |>
    <| i_previous_demand := delete t (i_previous_demand s) |>
    <| i_baseline_cpu := delete t (i_baseline_cpu s) |>
    <| i_initial_target_node := delete t (i_initial_target_node s) |>
    <| i_initial_target_cpu := delete t (i_initial_target_cpu s) |>
    <| i_previous_initial_target_node := delete t (i_previous_initial_target_node s) |>
    <| i_initial_candidate_identities := delete t (i_initial_candidate_identities s) |>
    <| i_placement := delete t (i_placement s) |>
    <| i_pinned := i_pinned s ∖ {[t]} |>
    <| i_last_moved_ns := delete t (i_last_moved_ns s) |>
    <| i_edges := filter (λ e, e.1.1 ≠ t ∧ e.1.2 ≠ t) (i_edges s) |>.

Definition i_effective (s : IncrementalSolver) : bool :=
  bool_decide (i_phase s = Optimizing) && negb (bool_decide (i_threads s = ∅)) &&
  Nat.eqb (size (i_pinned s)) (size (i_threads s)).

(** ** Hardware helpers (anonymous namespace) *)

(** [cpu_node]: the node of an online CPU, or -1. *)
Definition cpu_node (h : HardwareGraph) (cpu : Z) : Z :=
  match list_find (λ c, cpu_id c = cpu ∧ cpu_online c = true) (hw_cpus h) with
  | Some (_, c) => cpu_node_id c
  | None => -1
  end.

Definition node_latency (h : HardwareGraph) (from to : Z) : double :=
  match node_distance h !! (from, to) with
  | Some d => d
  | None =>
      let best := foldl (λ b '(x, y), dmin b (latency h x y)) dinf
                    (cprod (cpus_in_node h from) (cpus_in_node h to)) in
      if disfinite best then best else d1e12
  end.

Definition online_cpus (h : HardwareGraph) : nat :=
  length (filter (λ c, cpu_online c = true) (hw_cpus h)).

(** [hardware.nodes().front()]: the graph has an online CPU, hence a node. *)
Definition front_node (h : HardwareGraph) : Z := default 0 (head (nodes h)).

Definition slot_cap (h : HardwareGraph) (o : IncrementalOptions) (population : nat) : Z :=
  let dynamic := dceil_Z (double_of_nat population / double_of_nat (online_cpus h))%D +
                 thread_slot_slack o in
  if 0 <? maximum_threads_per_cpu o then maximum_threads_per_cpu o else Z.max 1 dynamic.

(** ** Adjacency *)
Definition adjacency_of (edges : list RelationEdge) : gmap Z (list RelationEdge) :=
  foldl (λ m e, push_back (re_to_tid e) e (push_back (re_from_tid e) e m)) ∅ edges.
Definition other_end (t : Z) (e : RelationEdge) : Z :=
  if re_from_tid e =? t then re_to_tid e else re_from_tid e.

(** [x += e.score * cost(other)] over the edges at [t] whose other end has a
    place. *)
Definition relation_sum (adj : gmap Z (list RelationEdge)) (t : Z) (cost : Z → option double) : double :=
  foldl (λ r e, match cost (other_end t e) with Some l => (r + re_score e * l)%D | None => r end)
    d0 (get_or [] adj t).

(** ** Demand prediction *)
Definition td_with_demand (t : ThreadDemand) (d : double) : ThreadDemand :=
  mk_ThreadDemand (td_identity t) (td_group t) d (td_confidence t) (td_current_cpu t).

Definition group_peaks (o : IncrementalOptions) (threads : list ThreadDemand)
    (old : gmap string double) : gmap string double :=
  let current : gmap string double :=
    foldl (λ m t, <[td_group t := dmax (get_or d0 m (td_group t)) (td_demand t)]> m) ∅ threads in
  let live : gset string := list_to_set (td_group <$> threads) in
  foldl (λ m g, <[g := dmax (get_or d0 current g) (get_or d0 m g * group_peak_decay o)%D]> m)
    (filter (λ e, e.1 ∈ live) old) (set_items live).

Definition predicted_demand (o : IncrementalOptions) (peaks : gmap string double)
    (t : ThreadDemand) : double :=
  let reserve := dmin (group_peak_demand_cap o)
                      (get_or d0 peaks (td_group t) * group_peak_demand_ratio o)%D in
  dmin d1 (dmax (dmax (td_demand t) (future_demand_floor o)) reserve).

Definition effective_demands (o : IncrementalOptions) (peaks : gmap string double)
    (threads : list ThreadDemand) : gmap Z double :=
  foldl (λ m t, <[td_tid t := predicted_demand o peaks t]> m) ∅ threads.

Definition predicted_count (o : IncrementalOptions) (peaks : gmap string double)
    (threads : list ThreadDemand) : Z :=
  Zsize (filter (λ t, (td_demand t + d1em12 <? predicted_demand o peaks t)%D = true) threads).

Definition incoming_threads (demand : gmap Z double) (threads : list ThreadDemand) :
    gmap Z ThreadDemand :=
  foldl (λ m t, <[td_tid t := td_with_demand t (get_or d0 demand (td_tid t))]> m) ∅ threads.

(** ** Removal of vanished threads *)
Definition remove_stale (threads : list ThreadDemand) (s : IncrementalSolver) : IncrementalSolver :=
  let live : gset Z := list_to_set (td_tid <$> threads) in
  foldl (λ s t, remove_thread t s) s (filter (λ t, t ∉ live) (items (i_threads s)).*1).

(** ** Admission of new threads *)
Definition bump {K} `{Countable K} (k : K) (m : gmap K Z) : gmap K Z := <[k := get_or 0 m k + 1]> m.
Definition unbump {K} `{Countable K} (k : K) (m : gmap K Z) : gmap K Z := <[k := get_or 0 m k - 1]> m.
Definition add_load (k : Z) (d : double) (m : gmap Z double) : gmap Z double :=
  <[k := (get_or d0 m k + d)%D]> m.
Definition sub_load (k : Z) (d : double) (m : gmap Z double) : gmap Z double :=
  <[k := (get_or d0 m k - d)%D]> m.

(** The CPU a thread has or is about to get, or -1. *)
Definition known_cpu (s : IncrementalSolver) (t : Z) : Z :=
  match i_placement s !! t with
  | Some c => c
  | None => get_or (-1) (i_initial_target_cpu s) t
  end.

Record Existing := mk_Existing {
  x_cpu_load : gmap Z double;
  x_cpu_count : gmap Z Z;
  x_node_load : gmap Z double;
  x_node_count : gmap Z Z;
  x_group_nodes : gmap Z Z;
}.

Definition existing_loads (h : HardwareGraph) (s : IncrementalSolver) (group : string) : Existing :=
  foldl (λ x '(other_tid, other),
      let cpu := known_cpu s other_tid in
      if 0 <=? cpu then
        let node := cpu_node h cpu in
        mk_Existing (add_load cpu (td_demand other) (x_cpu_load x)) (bump cpu (x_cpu_count x))
          (add_load node (td_demand other) (x_node_load x)) (bump node (x_node_count x))
          (if String.eqb (td_group other) group then bump node (x_group_nodes x)
           else x_group_nodes x)
      else x)
    (mk_Existing ∅ ∅ ∅ ∅ ∅) (items (i_threads s)).

Section admission.
Context (h : HardwareGraph) (o : IncrementalOptions).
(** The population of the window, the slot cap, the predicted demands and
    the adjacency of the incoming hotspots. *)
Context (population : nat) (cap : Z) (demand : gmap Z double).
Context (adj : gmap Z (list RelationEdge)).

Definition admission_count_cap (cpus : Z) : Z :=
  dceil_Z (double_of_nat population * double_of_Z cpus / double_of_nat (online_cpus h) *
           (d1 + initial_node_thread_slack_ratio o))%D.

Record NodeObjective := mk_NodeObjective {
  no_count_overload : Z; no_demand_overload : double; no_relation : double;
  no_utilization : double; no_group : Z; no_moved : bool; no_node : Z }.
Definition node_objective_lt (a b : NodeObjective) : bool :=
  tuple_lt [zcmp (no_count_overload a) (no_count_overload b);
            dcmp (no_demand_overload a) (no_demand_overload b);
            dcmp (no_relation a) (no_relation b);
            dcmp (no_utilization a) (no_utilization b);
            zcmp (no_group a) (no_group b); bcmp (no_moved a) (no_moved b);
            zcmp (no_node a) (no_node b)].

Definition admission_objective (s : IncrementalSolver) (x : Existing) (t sampled_node node : Z) :
    NodeObjective :=
  let cpus := Zsize (cpus_in_node h node) in
  let d := get_or d0 demand t in
  let load := (get_or d0 (x_node_load x) node + d)%D in
  mk_NodeObjective
    (Z.max 0 (get_or 0 (x_node_count x) node + 1 - admission_count_cap cpus))
    (dmax d0 (load - double_of_Z cpus)%D)
    (relation_sum adj t (λ other, let c := known_cpu s other in
       if 0 <=? c then Some (node_latency h node (cpu_node h c)) else None))
    (load / double_of_Z cpus)%D
    (- get_or 0 (x_group_nodes x) node) (negb (node =? sampled_node)) node.

Definition admission_node (s : IncrementalSolver) (x : Existing) (t sampled_node : Z) : Z :=
  min_from (λ a b, node_objective_lt (admission_objective s x t sampled_node a)
                                     (admission_objective s x t sampled_node b))
    (front_node h) (nodes h).

Definition admission_cpu_lt (x : Existing) (d : double) (a b : Z) : bool :=
  let load c := (get_or d0 (x_cpu_load x) c + d)%D in
  let count c := get_or 0 (x_cpu_count x) c in
  tuple_lt [bcmp (cap <=? count a) (cap <=? count b);
            dcmp (dmax d0 (load a - d1)%D) (dmax d0 (load b - d1)%D);
            dcmp (load a) (load b); zcmp (count a) (count b); zcmp a b].

(** The CPU of the best node; -1 stands for the undefined dereference when
    neither that node nor the first one has an online CPU. *)
Definition admission_cpu (s : IncrementalSolver) (x : Existing) (t sampled_node : Z) : Z :=
  let candidates := cpus_in_node h (admission_node s x t sampled_node) in
  let candidates := if bool_decide (candidates = []) then cpus_in_node h (front_node h)
                    else candidates in
  default (-1) (min_element (admission_cpu_lt x (get_or d0 demand t)) candidates).

Record AdmitState := mk_AdmitState {
  ad_solver : IncrementalSolver;
  ad_after_initial : bool;
  ad_added : Z;
}.

(** The identity and the sampled CPU of a thread seen for the first time. *)
Definition note_identity (th : ThreadDemand) (s : IncrementalSolver) : IncrementalSolver :=
  s <| i_identities := <[td_tid th := td_identity th]> (i_identities s) |>
    <| i_baseline_cpu := <[td_tid th := td_current_cpu th]> (i_baseline_cpu s) |>.
Definition set_target (t node cpu : Z) (s : IncrementalSolver) : IncrementalSolver :=
  s <| i_initial_target_node := <[t := node]> (i_initial_target_node s) |>
    <| i_initial_target_cpu := <[t := cpu]> (i_initial_target_cpu s) |>.

(** The target CPU of a thread that joins after the initial plan. *)
Definition admission_target (s : IncrementalSolver) (th : ThreadDemand) : Z :=
  admission_cpu s (existing_loads h s (td_group th)) (td_tid th) (cpu_node h (td_current_cpu th)).

(** A thread that was not known (or whose TID was reused). *)
Definition admit_new (st : AdmitState) (th : ThreadDemand) : AdmitState :=
  let s := note_identity th (ad_solver st) in
  if bool_decide (i_phase s = InitialPinning) || bool_decide (i_phase s = Optimizing) then
    let cpu := admission_target s th in
    mk_AdmitState (set_target (td_tid th) (cpu_node h cpu) cpu s) true (ad_added st + 1)
  else mk_AdmitState s (ad_after_initial st) (ad_added st + 1).

Definition set_thread (th : ThreadDemand) (s : IncrementalSolver) : IncrementalSolver :=
  s <| i_threads := <[td_tid th := td_with_demand th (get_or d0 demand (td_tid th))]> (i_threads s) |>.

(** The body of the loop over the window's threads. *)
Definition admit_thread (st : AdmitState) (th : ThreadDemand) : AdmitState :=
  let t := td_tid th in
  let s := ad_solver st in
  let s := match i_identities s !! t with
           | Some i => if bool_decide (i = td_identity th) then s else remove_thread t s
           | None => s
           end in
  let st := mk_AdmitState s (ad_after_initial st) (ad_added st) in
  let st := if bool_decide (is_Some (i_identities s !! t)) then st else admit_new st th in
  mk_AdmitState (set_thread th (ad_solver st)) (ad_after_initial st) (ad_added st).
End admission.

(** ** Phase changes caused by admission *)
Definition substantial_growth (o : IncrementalOptions) (added : Z) (s : IncrementalSolver) : bool :=
  (0 <? i_last_node_plan_population s) && (u64 (hotspot_replan_min_threads o) <=? added) &&
  (dceil_Z (double_of_Z (i_last_node_plan_population s) * (d1 + hotspot_replan_growth_ratio o))%D
     <=? Z.of_nat (size (i_threads s))).

(** The members a global node replan resets. *)
Definition start_replan (s : IncrementalSolver) : IncrementalSolver :=
  s <| i_phase := NodePlanning |> <| i_replan_existing_threads := true |>
    <| i_initial_confirmation := 0 |> <| i_previous_initial_target_node := (∅ : gmap Z Z) |>
    <| i_initial_candidate_identities := (∅ : gmap Z ThreadIdentity) |>
    <| i_stable_hotspot_replan_pending := false |>.

Definition phase_after_admission (o : IncrementalOptions) (st : AdmitState) : IncrementalSolver :=
  let s := ad_solver st in
  if ad_after_initial st && substantial_growth o (ad_added st) s then
    (start_replan s) <| i_hotspot_stability_confirmation := 0 |>
  else if ad_after_initial st then s <| i_phase := InitialPinning |>
  else s.

(** Every live thread sits on its initial target. *)
Definition targets_reached (s : IncrementalSolver) : bool :=
  forallb (λ t, match i_initial_target_cpu s !! t, i_placement s !! t with
                | Some c, Some p => p =? c
                | _, _ => false
                end) (items (i_threads s)).*1.

Definition initial_targets_effective (s : IncrementalSolver) : bool :=
  if negb (Nat.eqb (size (i_pinned s)) (size (i_threads s))) then false
  else if negb (i_replan_existing_threads s) then true
  else targets_reached s.

Definition finish_pinning (s : IncrementalSolver) : IncrementalSolver :=
  if bool_decide (i_phase s = InitialPinning) && initial_targets_effective s
  then s <| i_phase := Optimizing |> else s.

(** ** Hotspot bookkeeping *)
Definition hotspot_similarity (current previous : gset (Z * Z)) : double :=
  if negb (bool_decide (current = ∅)) && negb (bool_decide (previous = ∅)) then
    (double_of_nat (size (current ∩ previous)) / double_of_nat (size (current ∪ previous)))%D
  else d0.

Definition hotspot_map (selected : list RelationEdge) : gmap (Z * Z) RelationEdge :=
  foldl (λ m e, <[re_key e := e]> m) ∅ selected.

(** [edges_] and the stability trigger; returns the similarity and whether a
    replan was triggered. *)
Definition update_hotspots (o : IncrementalOptions) (edges : list RelationEdge)
    (s : IncrementalSolver) : IncrementalSolver * double * bool :=
  let selected := select_hotspot_edges (i_threads s) o edges in
  let keys : gset (Z * Z) := list_to_set (re_key <$> selected) in
  let similarity := hotspot_similarity keys (i_previous_hotspot_keys s) in
  let s := s <| i_edges := hotspot_map selected |> in
  let '(s, triggered) :=
    if i_stable_hotspot_replan_pending s then
      let n := if (hotspot_stability_threshold o <=? similarity)%D
               then i_hotspot_stability_confirmation s + 1 else 0 in
      let s := s <| i_hotspot_stability_confirmation := n |> in
      if hotspot_stability_confirmations o <=? n then (start_replan s, true) else (s, false)
    else (s, false) in
  (s <| i_previous_hotspot_keys := keys |>, similarity, triggered).

(** The end of a phase: a ready proposal becomes the outstanding one. *)
Definition publish (s : IncrementalSolver) (p : SolverProposal) :
    IncrementalSolver * result SolverProposal :=
  (if sp_ready p then s <| i_outstanding := Some p |> else s, Ok p).
