(* ===== verification/SnapshotSolver.v ===== *)
(** * The snapshot solver ([Solver::solve] of [src/solver.cpp])

    One pass over a recorded window, used by the replay tool: order the threads
    by demand, seed a node for each of them, refine the nodes one thread at a
    time, choose a CPU inside the node, refine the CPUs, then give back
    migrations of active threads until the migration budget holds, and price
    the result.  [std::map::at] throws when the key is missing, so every stage
    that uses it returns a [result]. *)
From Stdlib Require Import SpecFloat.
From S2P Require Import Prelude Binary64 Core Topology DomainSolver Incremental.
Local Open Scope Z_scope.

(** [struct SolveOptions], the fields [Solver::solve] reads *)
Record SolveOptions := mk_SolveOptions {
  so_maximum_migrated_active_threads_ratio : double;
  so_active_threshold : double;
  so_strategy_id : string;
  so_demand_floor : double;
  so_max_threads_per_cpu : Z;
  so_slot_slack : Z;
  so_count_penalty : double;
  so_low_demand_spread : double;
  so_same_cpu_contention_penalty : double;
  so_group_spread_penalty : double;
  so_thread_count_tie_break : bool;
  so_fm_passes : Z;
  so_lpt_refinement_passes : Z;
}.

(** The [std::tuple] of costs each stage minimises, and its [operator<]. *)
Record Cost := mk_Cost { c_first : double; c_second : double; c_third : double; c_id : Z }.
Definition cost_lt (a b : Cost) : bool :=
  tuple_lt [dcmp (c_first a) (c_first b); dcmp (c_second a) (c_second b);
            dcmp (c_third a) (c_third b); zcmp (c_id a) (c_id b)].

(** [node_load], [node_count] and [tid_node]. *)
Record NodeState := mk_NodeState {
  sn_load : gmap Z double;
  sn_count : gmap Z Z;
  sn_node : gmap Z Z;
}.

(** [cpu_load], [cpu_count], [cpu_group_count] and [placement.tid_to_cpu]. *)
Record CpuState := mk_CpuState {
  sc_load : gmap Z double;
  sc_count : gmap Z Z;
  sc_group : gmap (Z * string) Z;
  sc_cpu : gmap Z Z;
}.

(** The scan every stage performs: the first candidate strictly below the best
    cost so far replaces it. *)
Definition argmin (cost : Z → result Cost) (best : Cost) (choice : Z) (l : list Z) : result Z :=
  r ← foldlM (λ '(best, choice) x,
        c ← cost x; Ok (if cost_lt c best then (c, x) else (best, choice))) (best, choice) l;
  Ok r.2.

Section solve.
Context (h : HardwareGraph) (threads : list ThreadDemand) (edges : list RelationEdge).
Context (o : SolveOptions).
Local Abbreviation adj := (adjacency_of edges).
Local Abbreviation edges_at t := (get_or [] adj t).

Definition legacy : bool := bool_decide (so_strategy_id o = "legacy-v1").

Definition dynamic_cpu_cap : Z :=
  dceil_Z (double_of_nat (length threads) / double_of_nat (length (hw_cpus h)))%D + so_slot_slack o.
Definition slot_constraints : bool := negb legacy && (0 <=? so_max_threads_per_cpu o).
Definition cpu_cap : Z :=
  if 0 <? so_max_threads_per_cpu o then so_max_threads_per_cpu o else dynamic_cpu_cap.

(** The demand floor of the candidate strategies. *)
Definition floor_demand (t : ThreadDemand) : ThreadDemand :=
  if negb legacy && (d0 <? so_demand_floor o)%D
  then mk_ThreadDemand (td_identity t) (td_group t) (dmax (td_demand t) (so_demand_floor o))
         (td_confidence t) (td_current_cpu t)
  else t.

Definition score_sum (t : Z) : double := foldl (λ r e, (r + re_score e)%D) d0 (edges_at t).

(** Heaviest first, then the strongest relations, then the smaller TID. *)
Definition ordered_ltb (a b : ThreadDemand) : bool :=
  let ar := score_sum (td_tid a) in
  let br := score_sum (td_tid b) in
  if negb (td_demand a =? td_demand b)%D then (td_demand b <? td_demand a)%D
  else if negb (ar =? br)%D then (br <? ar)%D
  else td_tid a <? td_tid b.
Definition ordered : list ThreadDemand := std_sort ordered_ltb (floor_demand <$> threads).

(** [node_latency_cache]: the smallest CPU latency of every pair of nodes. *)
Definition node_latency_cache : gmap (Z * Z) double :=
  foldl (λ m from, foldl (λ m to,
    <[(from, to) := foldl (λ best a, foldl (λ best b, dmin best (latency h a b)) best
                            (cpus_in_node h to)) dinf (cpus_in_node h from)]> m) m (nodes h))
    ∅ (nodes h).
Definition node_latency (from to : Z) : result double := at_key node_latency_cache (from, to).

(** [relation += edge.score * node_latency(node, tid_node[other])] *)
Definition node_relation (st : NodeState) (t node : Z) : result double :=
  foldlM (λ r e,
    match sn_node st !! other_end t e with
    | Some n => l ← node_latency node n; Ok (r + re_score e * l)%D
    | None => Ok r
    end) d0 (edges_at t).

(** ** The greedy seed *)
Definition seed_cost (st : NodeState) (t : ThreadDemand) (node : Z) : result Cost :=
  let capacity := Zsize (cpus_in_node h node) in
  let overload := dmax d0 (get_or d0 (sn_load st) node + td_demand t - double_of_Z capacity)%D in
  let overload := if slot_constraints && (cpu_cap * capacity <=? get_or 0 (sn_count st) node)
                  then (overload + d1e12)%D else overload in
  relation ← node_relation st (td_tid t) node;
  let migration := foldl (λ m c,
      if (cpu_id c =? td_current_cpu t) && negb (cpu_node_id c =? node) then td_demand t else m)
    d0 (hw_cpus h) in
  Ok (mk_Cost overload relation migration node).

Definition seed_step (front : Z) (st : NodeState) (t : ThreadDemand) : result NodeState :=
  best ← argmin (seed_cost st t) (mk_Cost dinf d0 d0 front) front (nodes h);
  Ok (mk_NodeState (add_load best (td_demand t) (sn_load st)) (bump best (sn_count st))
        (<[td_tid t := best]> (sn_node st))).

(** ** Single-vertex refinement of the nodes *)
Definition fm_cost (st : NodeState) (t : ThreadDemand) (original candidate : Z) : result Cost :=
  let overload := foldl (λ v node,
      let load := (get_or d0 (sn_load st) node - (if (node =? original)%Z then td_demand t else d0)
                   + (if (node =? candidate)%Z then td_demand t else d0))%D in
      (v + dmax d0 (load - double_of_Z (Zsize (cpus_in_node h node))))%D) d0 (nodes h) in
  let count := get_or 0 (sn_count st) candidate - (if candidate =? original then 1 else 0) + 1 in
  let slot_violation :=
    if slot_constraints && (cpu_cap * Zsize (cpus_in_node h candidate) <? count)
    then d1e12 else d0 in
  relation ← node_relation st (td_tid t) candidate;
  migration ← foldlM (λ m c,
      if cpu_id c =? td_current_cpu t
      then l ← node_latency (cpu_node_id c) candidate; Ok (td_demand t * l)%D
      else Ok m) d0 (hw_cpus h);
  Ok (mk_Cost (overload + slot_violation)%D relation migration candidate).

Definition fm_step (st : NodeState * bool) (t : ThreadDemand) : result (NodeState * bool) :=
  let '(s, changed) := st in
  let original := get_or 0 (sn_node s) (td_tid t) in
  start ← fm_cost s t original original;
  best ← argmin (fm_cost s t original) start original (nodes h);
  Ok (if best =? original then (s, changed) else
      (mk_NodeState (add_load best (td_demand t) (sub_load original (td_demand t) (sn_load s)))
         (bump best (unbump original (sn_count s))) (<[td_tid t := best]> (sn_node s)), true)).

(** At most [passes] sweeps over the threads, stopping after a sweep that
    moved nothing. *)
Fixpoint sweeps {A} (step : A * bool → ThreadDemand → result (A * bool)) (passes : nat) (s : A) :
    result A :=
  match passes with
  | O => Ok s
  | S n => '(s', changed) ← foldlM step (s, false) ordered;
           if (changed : bool) then sweeps step n s' else Ok s'
  end.

(** ** CPU assignment inside the node *)
Definition cpu_relation (contention : bool) (st : CpuState) (t cpu : Z) : double :=
  foldl (λ r e,
    match sc_cpu st !! other_end t e with
    | Some c => (r + (re_score e * latency h cpu c
                      + if contention && (cpu =? c)%Z
                        then re_score e * so_same_cpu_contention_penalty o else d0))%D
    | None => r
    end) d0 (edges_at t).

(** [std::pow(x, 2.0)] of a small integral count is the exact square. *)
Definition dsquare (x : double) : double := (x * x)%D.

Definition cpu_cost (st : CpuState) (t : ThreadDemand) (cpu : Z) : Cost :=
  let count := get_or 0 (sc_count st) cpu in
  let count_cost :=
    if legacy then d0 else
    let c := if slot_constraints && (cpu_cap <=? count) then (d0 + d1e12)%D else d0 in
    let c := (c + so_count_penalty o * dsquare (double_of_Z count + d1))%D in
    let c := if (td_demand t <? so_active_threshold o)%D
             then (c + so_low_demand_spread o * double_of_Z count)%D else c in
    (c + so_group_spread_penalty o * double_of_Z (get_or 0 (sc_group st) (cpu, td_group t)))%D in
  let primary := (get_or d0 (sc_load st) cpu + td_demand t)%D in
  let primary := if negb legacy && so_thread_count_tie_break o
                 then (primary + double_of_Z count * d1em9)%D else primary in
  mk_Cost primary (cpu_relation (negb legacy) st (td_tid t) cpu) count_cost cpu.

Definition assign_step (ns : NodeState) (st : CpuState) (t : ThreadDemand) : result CpuState :=
  match cpus_in_node h (get_or 0 (sn_node ns) (td_tid t)) with
  | [] => Throw (runtime_error "node has no CPU in envelope")
  | (front :: _) as cpus =>
      best ← argmin (λ cpu, Ok (cpu_cost st t cpu)) (mk_Cost dinf d0 d0 front) front cpus;
      Ok (mk_CpuState (add_load best (td_demand t) (sc_load st)) (bump best (sc_count st))
            (bump (best, td_group t) (sc_group st)) (<[td_tid t := best]> (sc_cpu st)))
  end.

(** ** CPU-local refinement *)
Definition lpt_cost (st : CpuState) (t : ThreadDemand) (original cpu : Z) : Cost :=
  let load := (get_or d0 (sc_load st) cpu + (if (cpu =? original)%Z then d0 else td_demand t))%D in
  let count := get_or 0 (sc_count st) cpu + (if cpu =? original then 0 else 1) in
  let p := if slot_constraints && (cpu_cap <? count) then d1e12 else d0 in
  let p := (p + so_count_penalty o * dsquare (double_of_Z count))%D in
  let p := if (td_demand t <? so_active_threshold o)%D
           then (p + so_low_demand_spread o * double_of_Z count)%D else p in
  let same_group := get_or 0 (sc_group st) (cpu, td_group t) - (if cpu =? original then 1 else 0) in
  mk_Cost load (cpu_relation true st (td_tid t) cpu)
    (p + so_group_spread_penalty o * double_of_Z same_group)%D cpu.

Definition lpt_step (ns : NodeState) (st : CpuState * bool) (t : ThreadDemand) :
    result (CpuState * bool) :=
  let '(s, changed) := st in
  original ← at_key (sc_cpu s) (td_tid t);
  node ← at_key (sn_node ns) (td_tid t);
  best ← argmin (λ cpu, Ok (lpt_cost s t original cpu)) (lpt_cost s t original original) original
           (cpus_in_node h node);
  Ok (if best =? original then (s, changed) else
      (mk_CpuState (add_load best (td_demand t) (sub_load original (td_demand t) (sc_load s)))
         (bump best (unbump original (sc_count s)))
         (bump (best, td_group t) (unbump (original, td_group t) (sc_group s)))
         (<[td_tid t := best]> (sc_cpu s)), true)).

(** ** The migration budget *)
Definition is_active (t : ThreadDemand) : bool := (so_active_threshold o <=? td_demand t)%D.
Definition migrates (p : gmap Z Z) (t : ThreadDemand) : bool :=
  negb (get_or 0 p (td_tid t) =? td_current_cpu t).
Definition migrations (p : gmap Z Z) : list ThreadDemand :=
  std_sort (λ a b, td_demand a <? td_demand b)%D
    (filter (λ t, is_active t && migrates p t = true) threads).
Definition migration_budget : Z :=
  dfloor_Z (double_of_nat (length (filter (λ t, is_active t = true) threads))
            * so_maximum_migrated_active_threads_ratio o)%D.

Definition current_eligible (t : ThreadDemand) : bool :=
  existsb (λ c, cpu_id c =? td_current_cpu t) (hw_cpus h).
Definition slot_available (st : CpuState) (t : ThreadDemand) : bool :=
  negb slot_constraints || (get_or 0 (sc_count st) (td_current_cpu t) <? cpu_cap) ||
  (get_or 0 (sc_cpu st) (td_tid t) =? td_current_cpu t).

(** The body of the loop: give the thread its current CPU back. *)
Definition revert (st : CpuState) (t : ThreadDemand) : CpuState :=
  let assigned := get_or 0 (sc_cpu st) (td_tid t) in
  if current_eligible t && slot_available st t then
    mk_CpuState (sc_load st)
      (if negb legacy && negb (assigned =? td_current_cpu t)
       then bump (td_current_cpu t) (unbump assigned (sc_count st)) else sc_count st)
      (sc_group st) (<[td_tid t := td_current_cpu t]> (sc_cpu st))
  else st.

(** [while (migrations.size() > budget)], from the least demanding thread on. *)
Fixpoint revert_excess (ms : list ThreadDemand) (st : CpuState) : CpuState :=
  match ms with
  | [] => st
  | t :: ms' => if migration_budget <? Zsize ms then revert_excess ms' (revert st t) else st
  end.

(** ** The price of the placement *)
Definition price (p : gmap Z Z) : Placement :=
  let cpu t := get_or 0 p (td_tid t) in
  let load := foldl (λ m t, add_load (cpu t) (td_demand t) m) ∅ threads in
  let overload := foldl (λ v '(_, l), (v + dmax d0 (l - d1))%D) d0 (items load) in
  let '(relation, same) := foldl (λ '(relation, same) e,
      match p !! re_from_tid e, p !! re_to_tid e with
      | Some a, Some b =>
          ((relation + re_score e * latency h a b)%D,
           if a =? b then (same + re_score e)%D else same)
      | _, _ => (relation, same)
      end) (d0, d0) edges in
  let migration := foldl (λ v t,
      if cpu t =? td_current_cpu t then v
      else (v + td_demand t * latency h (td_current_cpu t) (cpu t))%D) d0 threads in
  mk_Placement p overload relation migration same.

Definition seed_nodes (front : Z) : result NodeState :=
  foldlM (seed_step front) (mk_NodeState ∅ ∅ ∅) ordered.
Definition assign_cpus (ns : NodeState) : result CpuState :=
  foldlM (assign_step ns) (mk_CpuState ∅ ∅ ∅ ∅) ordered.

(** The placement before migrations are given back. *)
Definition unbounded_placement (front : Z) : result CpuState :=
  ns ← seed_nodes front;
  ns ← sweeps fm_step (Z.to_nat (so_fm_passes o)) ns;
  cs ← assign_cpus ns;
  if legacy then Ok cs
  else sweeps (lpt_step ns) (Z.to_nat (so_lpt_refinement_passes o)) cs.

Definition solve : result Placement :=
  match threads with
  | [] => Ok (mk_Placement ∅ d0 d0 d0 d0)
  | _ =>
      match nodes h with
      | [] => Throw (runtime_error "empty hardware graph")
      | front :: _ =>
          cs ← unbounded_placement front;
          Ok (price (sc_cpu (revert_excess (migrations (sc_cpu cs)) cs)))
      end
  end.
End solve.
