(* ===== verification/NodePlan.v ===== *)
(** * The node-planning phase of the incremental solver ([src/solver.cpp])

    [IncrementalSolver::propose] in [IncrementalPhase::NodePlanning]: order the
    threads along the hotspot graph, partition them over the NUMA nodes,
    repair the lower bound of each node, refine by capacity-neutral swaps,
    confirm the plan, and assign the initial target CPUs. *)
From Stdlib Require Import SpecFloat.
From S2P Require Import Prelude Binary64 Core CpuList Topology Hotspot Incremental.
Local Open Scope Z_scope.

(** [node_cpu_count] *)
Definition node_cpu_count (h : HardwareGraph) : gmap Z Z :=
  foldl (λ m n, <[n := Zsize (cpus_in_node h n)]> m) ∅ (nodes h).

(** The partition under construction: node of each thread, and the load and
    population of each node. *)
Record Partition := mk_Partition {
  pt_node : gmap Z Z;
  pt_load : gmap Z double;
  pt_count : gmap Z Z;
}.

Section node_plan.
Context (h : HardwareGraph) (o : IncrementalOptions) (cap : Z).
Context (s : IncrementalSolver).

Definition planned_demand (t : Z) : double :=
  match i_threads s !! t with Some th => td_demand th | None => d0 end.
Definition identity_of (t : Z) : ThreadIdentity :=
  get_or (mk_ThreadIdentity 0 0 0) (i_identities s) t.
Definition cpus_of (node : Z) : Z := get_or 0 (node_cpu_count h) node.
Definition plan_adjacency : gmap Z (list RelationEdge) := adjacency_of (items (i_edges s)).*2.

(** ** Caps and floors *)
Definition node_share (cpus : Z) : double :=
  (double_of_nat (size (i_threads s)) * double_of_Z cpus / double_of_nat (length (hw_cpus h)))%D.
Definition thread_cap (node : Z) : Z :=
  Z.min (dceil_Z (node_share (cpus_of node) * (d1 + initial_node_thread_slack_ratio o))%D)
    (cap * cpus_of node).
Definition thread_floor (node : Z) : Z :=
  dfloor_Z (node_share (cpus_of node) * (d1 - initial_node_thread_slack_ratio o))%D.

(** ** Order along the hotspot graph *)

(** Larger demand first, then smaller identity. *)
Definition demand_ltb (a b : Z) : bool :=
  if negb (planned_demand a =? planned_demand b)%D then (planned_demand b <? planned_demand a)%D
  else key_ltb (identity_of a) (identity_of b).

Definition pair_gt (e f : RelationEdge) : bool :=
  tuple_gt [dcmp (re_score e) (re_score f); zcmp (- re_from_tid e) (- re_from_tid f);
            zcmp (- re_to_tid e) (- re_to_tid f)].

(** [best_pair], and [best_frontier] with [frontier_tid]. *)
Definition scan_edge (remaining : gset Z) (best : option RelationEdge * option (RelationEdge * Z))
    (e : RelationEdge) : option RelationEdge * option (RelationEdge * Z) :=
  let from_in := bool_decide (re_from_tid e ∈ remaining) in
  let to_in := bool_decide (re_to_tid e ∈ remaining) in
  if from_in && to_in then
    (match best.1 with
     | Some b => if pair_gt e b then Some e else Some b
     | None => Some e
     end, best.2)
  else if xorb from_in to_in then
    let candidate := if from_in then re_from_tid e else re_to_tid e in
    (best.1,
     match best.2 with
     | Some (f, ft) =>
         if tuple_gt [dcmp (re_score e) (re_score f); zcmp (- candidate) (- ft)]
         then Some (e, candidate) else Some (f, ft)
     | None => Some (e, candidate)
     end)
  else best.

Record Ordering := mk_Ordering {
  od_ordered : list Z;
  od_remaining : gset Z;
  od_seeds : gset Z;
}.
Definition append (t : Z) (od : Ordering) : Ordering :=
  mk_Ordering (od_ordered od ++ [t]) (od_remaining od ∖ {[t]}) (od_seeds od).
Definition add_seed (t : Z) (od : Ordering) : Ordering :=
  mk_Ordering (od_ordered od) (od_remaining od) ({[t]} ∪ od_seeds od).

(** One turn of [while (!remaining.empty())]. *)
Definition order_step (od : Ordering) : Ordering :=
  let '(best_pair, frontier) :=
    foldl (scan_edge (od_remaining od)) (None, None) (items (i_edges s)).*2 in
  let pair_wins :=
    match best_pair, frontier with
    | Some p, None => true
    | Some p, Some (f, _) => (re_score f <? re_score p)%D
    | None, _ => false
    end in
  match best_pair, frontier with
  | Some p, _ =>
      if pair_wins then
        let swap :=
          (planned_demand (re_from_tid p) <? planned_demand (re_to_tid p))%D ||
          ((planned_demand (re_to_tid p) =? planned_demand (re_from_tid p))%D &&
           key_ltb (identity_of (re_to_tid p)) (identity_of (re_from_tid p))) in
        let '(first, second) :=
          if swap then (re_to_tid p, re_from_tid p) else (re_from_tid p, re_to_tid p) in
        append second (append first (add_seed first od))
      else match frontier with Some (_, t) => append t od | None => od end
  | None, Some (_, t) => append t od
  | None, None =>
      match min_element demand_ltb (set_items (od_remaining od)) with
      | Some seed => append seed (add_seed seed od)
      | None => od
      end
  end.

(** Each turn removes at least one thread. *)
Fixpoint order_loop (fuel : nat) (od : Ordering) : Ordering :=
  match fuel with
  | O => od
  | S f => if bool_decide (od_remaining od = ∅) then od else order_loop f (order_step od)
  end.
Definition plan_order : Ordering :=
  order_loop (size (i_threads s)) (mk_Ordering [] (dom (i_threads s)) ∅).

(** ** Greedy partition *)
Record PlanObjective := mk_PlanObjective {
  po_count : Z; po_demand : double; po_relation : double; po_moved : bool;
  po_utilization : double; po_node : Z }.
Definition plan_objective_lt (a b : PlanObjective) : bool :=
  tuple_lt [zcmp (po_count a) (po_count b); dcmp (po_demand a) (po_demand b);
            dcmp (po_relation a) (po_relation b); bcmp (po_moved a) (po_moved b);
            dcmp (po_utilization a) (po_utilization b); zcmp (po_node a) (po_node b)].

Definition plan_objective (seeds : gset Z) (p : Partition) (t node : Z) : PlanObjective :=
  let load := (get_or d0 (pt_load p) node + planned_demand t)%D in
  mk_PlanObjective
    (Z.max 0 (get_or 0 (pt_count p) node + 1 - thread_cap node))
    (dmax d0 (load - double_of_Z (cpus_of node))%D)
    (if bool_decide (t ∈ seeds) then d0 else
       relation_sum plan_adjacency t (λ other,
         match pt_node p !! other with Some n => Some (node_latency h node n) | None => None end))
    (negb (node =? cpu_node h (get_or 0 (i_baseline_cpu s) t)))
    (load / double_of_Z (Z.max (cpus_of node) 1))%D node.

Definition place (t node : Z) (p : Partition) : Partition :=
  mk_Partition (<[t := node]> (pt_node p)) (add_load node (planned_demand t) (pt_load p))
    (bump node (pt_count p)).

Definition partition_step (seeds : gset Z) (p : Partition) (t : Z) : Partition :=
  let node := min_from (λ a b, plan_objective_lt (plan_objective seeds p t a)
                                                 (plan_objective seeds p t b))
                (front_node h) (items (node_cpu_count h)).*1 in
  place t node p.
Definition greedy_partition (od : Ordering) : Partition :=
  foldl (partition_step (od_seeds od)) (mk_Partition ∅ ∅ ∅) (od_ordered od).

(** ** Lower-bound repair *)
Definition plan_cost (p : Partition) (t node : Z) : double :=
  relation_sum plan_adjacency t (λ other,
    match pt_node p !! other with Some n => Some (node_latency h node n) | None => None end).

Definition repair_candidate (target : Z) (p : Partition) (best : Z * Z * double) (e : Z * Z) :
    Z * Z * double :=
  let '(best_tid, best_source, best_delta) := best in
  let '(t, source) := e in
  if (source =? target) || (get_or 0 (pt_count p) source <=? thread_floor source) ||
     (thread_cap target <? get_or 0 (pt_count p) target + 1) ||
     (double_of_Z (cpus_of target) + d1em12 <? get_or d0 (pt_load p) target + planned_demand t)%D
  then best
  else
    let delta := (plan_cost p t target - plan_cost p t source)%D in
    if (delta <? best_delta - d1em12)%D ||
       ((dabs (delta - best_delta) <=? d1em12)%D &&
        ((best_tid <? 0) || key_ltb (identity_of t) (identity_of best_tid)))
    then (t, source, delta) else best.

Definition repair_move (target t source : Z) (p : Partition) : Partition :=
  mk_Partition (<[t := target]> (pt_node p))
    (add_load target (planned_demand t) (sub_load source (planned_demand t) (pt_load p)))
    (bump target (unbump source (pt_count p))).

(** [while (node_threads[target] < floor)]: the count grows by one each turn. *)
Fixpoint repair_loop (fuel : nat) (target : Z) (p : Partition) : result Partition :=
  match fuel with
  | O => Ok p
  | S f =>
      if get_or 0 (pt_count p) target <? thread_floor target then
        let '(t, source, _) :=
          foldl (repair_candidate target p) (-1, -1, dinf) (items (pt_node p)) in
        if t <? 0 then Throw (runtime_error "node thread floor is infeasible")
        else repair_loop f target (repair_move target t source p)
      else Ok p
  end.
Definition repair_node (p : Partition) (target : Z) : result Partition :=
  repair_loop (Z.to_nat (thread_floor target - get_or 0 (pt_count p) target)) target p.
Definition repair_floors (p : Partition) : result Partition :=
  foldlM repair_node p (items (node_cpu_count h)).*1.

(** ** Capacity-neutral swaps *)
Definition swap_costs (p : Partition) (first second first_node second_node : Z) : double * double :=
  foldl (λ '(before, after) e,
      let from := re_from_tid e in
      let to := re_to_tid e in
      if negb (from =? first) && negb (to =? first) && negb (from =? second) && negb (to =? second)
      then (before, after)
      else
        let from_before := get_or 0 (pt_node p) from in
        let to_before := get_or 0 (pt_node p) to in
        let moved t old := if t =? first then second_node
                           else if t =? second then first_node else old in
        ((before + re_score e * node_latency h from_before to_before)%D,
         (after + re_score e * node_latency h (moved from from_before) (moved to to_before))%D))
    (d0, d0) (items (i_edges s)).*2.

Definition try_swap (first : Z) (st : Partition * bool) (second : Z) : Partition * bool :=
  let '(p, changed) := st in
  let first_node := get_or 0 (pt_node p) first in
  let second_node := get_or 0 (pt_node p) second in
  if first_node =? second_node then st else
  let '(before, after) := swap_costs p first second first_node second_node in
  if (before <=? after + d1em12)%D then st else
  let first_load := (get_or d0 (pt_load p) first_node - planned_demand first + planned_demand second)%D in
  let second_load := (get_or d0 (pt_load p) second_node - planned_demand second + planned_demand first)%D in
  if (double_of_Z (cpus_of first_node) + d1em12 <? first_load)%D ||
     (double_of_Z (cpus_of second_node) + d1em12 <? second_load)%D
  then st
  else
    (mk_Partition (<[second := first_node]> (<[first := second_node]> (pt_node p)))
       (<[second_node := second_load]> (<[first_node := first_load]> (pt_load p)))
       (pt_count p), true).

(** The double loop over [first_index < second_index]. *)
Fixpoint swap_pass (ordered : list Z) (st : Partition * bool) : Partition * bool :=
  match ordered with
  | [] => st
  | first :: rest => swap_pass rest (foldl (try_swap first) st rest)
  end.
Fixpoint swap_passes (passes : nat) (ordered : list Z) (p : Partition) : Partition :=
  match passes with
  | O => p
  | S n => let '(p', changed) := swap_pass ordered (p, false) in
           if changed then swap_passes n ordered p' else p'
  end.

Definition fresh_partition : result Partition :=
  p ← repair_floors (greedy_partition plan_order);
  Ok (swap_passes (Z.to_nat (initial_node_passes o)) (od_ordered plan_order) p).

(** ** The confirmed plan *)

(** Loads and populations of a node assignment. *)
Definition recount (assigned : gmap Z Z) : Partition :=
  foldl (λ p '(t, node),
      mk_Partition (pt_node p) (add_load node (planned_demand t) (pt_load p)) (bump node (pt_count p)))
    (mk_Partition assigned ∅ ∅) (items assigned).

Definition plan_overload (p : Partition) : double :=
  foldl (λ v '(node, cpus),
      (v + dmax d0 (get_or d0 (pt_load p) node - double_of_Z cpus) +
       double_of_Z (Z.max 0 (get_or 0 (pt_count p) node - thread_cap node)))%D)
    d0 (items (node_cpu_count h)).
Definition plan_relation_cost (p : Partition) : double :=
  foldl (λ v e, (v + re_score e * node_latency h (get_or 0 (pt_node p) (re_from_tid e))
                                                 (get_or 0 (pt_node p) (re_to_tid e)))%D)
    d0 (items (i_edges s)).*2.

(** [previous_initial_target_node_] is confirmed, or the fresh plan starts a
    new confirmation. *)
Definition confirm_plan (assigned : gmap Z Z) : gmap Z Z * IncrementalSolver :=
  if negb (bool_decide (i_previous_initial_target_node s = ∅)) &&
     bool_decide (i_initial_candidate_identities s = i_identities s)
  then (i_previous_initial_target_node s,
        s <| i_initial_confirmation := i_initial_confirmation s + 1 |>)
  else (assigned,
        s <| i_initial_confirmation := 1 |> <| i_previous_initial_target_node := assigned |>
          <| i_initial_candidate_identities := i_identities s |>).

(** ** Initial target CPUs *)
Record CpuPlan := mk_CpuPlan {
  cp_target : gmap Z Z;
  cp_load : gmap Z double;
  cp_count : gmap Z Z;
}.
Definition cpu_objective_lt (c : CpuPlan) (t : Z) (a b : Z) : bool :=
  let relation cpu := relation_sum plan_adjacency t (λ other,
    match cp_target c !! other with Some x => Some (latency h cpu x) | None => None end) in
  let load cpu := (get_or d0 (cp_load c) cpu + planned_demand t)%D in
  let count cpu := get_or 0 (cp_count c) cpu in
  let preferred := get_or 0 (i_baseline_cpu s) t in
  tuple_lt [bcmp (cap <=? count a) (cap <=? count b);
            dcmp (dmax d0 (load a - d1)%D) (dmax d0 (load b - d1)%D);
            dcmp (relation a) (relation b); dcmp (load a) (load b);
            zcmp (count a) (count b); bcmp (negb (a =? preferred)) (negb (b =? preferred));
            zcmp a b].

(** The CPU of one thread on its node; -1 stands for the undefined
    dereference when the node has no online CPU. *)
Definition assign_cpu (target_node : gmap Z Z) (c : CpuPlan) (t : Z) : CpuPlan :=
  let cpu := default (-1) (min_element (cpu_objective_lt c t)
                             (cpus_in_node h (get_or 0 target_node t))) in
  mk_CpuPlan (<[t := cpu]> (cp_target c)) (add_load cpu (planned_demand t) (cp_load c))
    (bump cpu (cp_count c)).
Definition assign_cpus (target_node : gmap Z Z) : CpuPlan :=
  foldl (assign_cpu target_node) (mk_CpuPlan ∅ ∅ ∅)
    (std_sort demand_ltb (items (i_threads s)).*1).
Definition max_count (m : gmap Z Z) (start : Z) : Z :=
  foldl (λ v '(_, n), Z.max v n) start (items m).

Definition plan_proposal (proposal : SolverProposal) (confirmation : Z) (p : Partition) :
    SolverProposal :=
  proposal <| sp_confirmation := confirmation |>
           <| sp_phase := NodePlanning |>
           <| sp_initial_plan_confirmed := (initial_proposal_confirmations o <=? confirmation) |>
           <| sp_node_overload := plan_overload p |>
           <| sp_relation_cost := plan_relation_cost p |>.

(** The members set when a plan is confirmed; [s1] is the solver after
    [confirm_plan]. *)
Definition adopt_plan (s1 : IncrementalSolver) (assigned targets : gmap Z Z) : IncrementalSolver :=
  s1 <| i_initial_target_node := assigned |>
     <| i_last_node_plan_population := Z.of_nat (size (i_threads s)) |>
     <| i_initial_target_cpu := targets |>
     <| i_phase := InitialPinning |>.

Definition adopted_proposal (proposal : SolverProposal) (c : CpuPlan) : SolverProposal :=
  proposal <| sp_maximum_cpu_threads := max_count (cp_count c) (sp_maximum_cpu_threads proposal) |>
           <| sp_phase := InitialPinning |>.

(** The whole phase. *)
Definition node_planning (proposal : SolverProposal) : IncrementalSolver * result SolverProposal :=
  match fresh_partition with
  | Throw e => (s, Throw e)
  | Ok fresh =>
      let '(assigned, s1) := confirm_plan (pt_node fresh) in
      let proposal := plan_proposal proposal (i_initial_confirmation s1) (recount assigned) in
      if negb (sp_initial_plan_confirmed proposal) then (s1, Ok proposal) else
      let c := assign_cpus assigned in
      (adopt_plan s1 assigned (cp_target c), Ok (adopted_proposal proposal c))
  end.
End node_plan.
