(* ===== verification/Pinning.v ===== *)
(** * The initial-pinning phase of the incremental solver ([src/solver.cpp])

    [IncrementalSolver::propose] in [IncrementalPhase::InitialPinning]: choose a
    batch of threads within the migration budget, repair their target CPUs
    against the placement that stays committed, and emit one pin per thread. *)
From Stdlib Require Import SpecFloat.
From S2P Require Import Prelude Binary64 Core CpuList Topology Hotspot Incremental NodePlan.
Local Open Scope Z_scope.

Section pinning.
Context (h : HardwareGraph) (cap : Z) (s : IncrementalSolver).
Local Abbreviation demand := (planned_demand s).

(** Unpinned threads, and in a replan those not yet on their target. *)
Definition is_pending (t : Z) : bool :=
  negb (bool_decide (t ∈ i_pinned s)) ||
  (i_replan_existing_threads s &&
   match i_placement s !! t with
   | Some p => negb (p =? get_or 0 (i_initial_target_cpu s) t)
   | None => true
   end).

Definition pending_ltb (a b : Z) : bool :=
  let node t := cpu_node h (get_or 0 (i_baseline_cpu s) t) in
  let invalid t := node t <? 0 in
  let cross t := negb (node t =? get_or 0 (i_initial_target_node s) t) in
  if xorb (invalid a) (invalid b) then invalid a
  else if xorb (cross a) (cross b) then cross a
  else demand_ltb s a b.

Definition pending_batch (budget : Z) : list Z :=
  take (Z.to_nat budget)
    (std_sort pending_ltb (filter (λ t, is_pending t = true) (items (i_threads s)).*1)).

(** ** Projection of the committed placement *)
Record Projection := mk_Projection {
  pj_count : gmap Z Z;
  pj_load : gmap Z double;
}.
Definition project_placed (pj : Projection) (e : Z * Z) : Projection :=
  let '(t, cpu) := e in
  if bool_decide (is_Some (i_threads s !! t)) then
    mk_Projection (bump cpu (pj_count pj)) (add_load cpu (demand t) (pj_load pj))
  else pj.
Definition project_vacated (pj : Projection) (t : Z) : Projection :=
  match i_placement s !! t with
  | Some source => mk_Projection (unbump source (pj_count pj)) (sub_load source (demand t) (pj_load pj))
  | None => pj
  end.
Definition projection (pending : list Z) : Projection :=
  foldl project_vacated (foldl project_placed (mk_Projection ∅ ∅) (items (i_placement s))) pending.

(** ** Target repair *)
Definition pin_cpu_lt (pj : Projection) (t : Z) (a b : Z) : bool :=
  let load c := get_or d0 (pj_load pj) c in
  let count c := get_or 0 (pj_count pj) c in
  tuple_lt [bcmp (cap <=? count a) (cap <=? count b);
            dcmp (dmax d0 (load a + demand t - d1)%D) (dmax d0 (load b + demand t - d1)%D);
            dcmp (load a) (load b); zcmp (count a) (count b); zcmp a b].

Record PinState := mk_PinState {
  pn_projection : Projection;
  pn_target_cpu : gmap Z Z;
  pn_target_node : gmap Z Z;
}.

Definition pin_candidates (st : PinState) (t : Z) : list Z :=
  let available cpu := get_or 0 (pj_count (pn_projection st)) cpu <? cap in
  let candidates := cpus_in_node h (get_or 0 (pn_target_node st) t) in
  if existsb available candidates then candidates
  else cpu_id <$> filter (λ c, cpu_online c && available (cpu_id c) = true) (hw_cpus h).

Definition book (t cpu : Z) (st : PinState) : PinState :=
  let pj := pn_projection st in
  mk_PinState (mk_Projection (bump cpu (pj_count pj)) (add_load cpu (demand t) (pj_load pj)))
    (pn_target_cpu st) (pn_target_node st).

(** One thread of the batch; [None] is the exception (the repairs already
    made stay in the solver). *)
Definition pin_step (st : PinState) (t : Z) : option PinState :=
  let target := get_or 0 (pn_target_cpu st) t in
  if cap <=? get_or 0 (pj_count (pn_projection st)) target then
    match min_element (pin_cpu_lt (pn_projection st) t) (pin_candidates st t) with
    | None => None
    | Some cpu =>
        Some (book t cpu (mk_PinState (pn_projection st) (<[t := cpu]> (pn_target_cpu st))
                            (<[t := cpu_node h cpu]> (pn_target_node st))))
    end
  else Some (book t target st).
Fixpoint pin_loop (st : PinState) (pending : list Z) : PinState * bool :=
  match pending with
  | [] => (st, true)
  | t :: rest => match pin_step st t with Some st' => pin_loop st' rest | None => (st, false) end
  end.

Definition pin_action (targets : gmap Z Z) (t : Z) : PlacementAction :=
  let from := match i_placement s !! t with
              | Some c => c | None => get_or 0 (i_baseline_cpu s) t end in
  mk_PlacementAction (identity_of s t) from (get_or 0 targets t) true (cpu_node h from <? 0)
    d0 d0 d0.

Definition pin_delta (targets : gmap Z Z) (pending : list Z) : PlacementDelta :=
  mk_PlacementDelta (foldl (λ m t, <[t := get_or 0 targets t]> m) ∅ pending) ∅.

Definition pin_start (proposal : SolverProposal) : SolverProposal :=
  proposal <| sp_phase := InitialPinning |> <| sp_initial_plan_confirmed := true |>.

(** The repaired targets. *)
Definition pin_solver (st : PinState) : IncrementalSolver :=
  s <| i_initial_target_cpu := pn_target_cpu st |> <| i_initial_target_node := pn_target_node st |>.

Definition pin_proposal (proposal : SolverProposal) (pending : list Z) (targets : gmap Z Z) :
    SolverProposal :=
  proposal <| sp_actions := pin_action targets <$> pending |>
           <| sp_delta := pin_delta targets pending |>
           <| sp_ready := negb (bool_decide (pending = [])) |>
           <| sp_confirmation := i_initial_confirmation s |>.

(** The whole phase. *)
Definition initial_pinning (proposal : SolverProposal) : IncrementalSolver * result SolverProposal :=
  let budget := sp_migration_budget proposal in
  if budget =? 0 then (s, Ok (pin_start proposal)) else
  let pending := pending_batch budget in
  let '(st, done) := pin_loop (mk_PinState (projection pending) (i_initial_target_cpu s)
                                 (i_initial_target_node s)) pending in
  if negb done then
    (pin_solver st, Throw (runtime_error "initial pinning has no slot-cap-feasible CPU"))
  else publish (pin_solver st) (pin_proposal (pin_start proposal) pending (pn_target_cpu st)).
End pinning.
