(* ===== verification/Optimizer.v ===== *)
(** * The optimizing phase of the incremental solver ([src/solver.cpp])

    [IncrementalSolver::propose] in [IncrementalPhase::Optimizing]: the loads of
    the current placement, the dirty set, the ranking of dissatisfied threads,
    single moves and pair swaps as potentials, their confirmation, and the
    admission of potentials under the budget and the projected loads. *)
From Stdlib Require Import SpecFloat Ascii.
From S2P Require Import Prelude Binary64 Core CpuList Topology Hotspot Incremental NodePlan.
Local Open Scope Z_scope.

(** [action_key] *)
Definition action_key (actions : list PlacementAction) : string :=
  text (actions ≫= λ a,
    (print_int (tgid (pa_identity a)) ++ [":"%char] ++ print_int (tid (pa_identity a)) ++
     [":"%char] ++ print_int (starttime (pa_identity a)) ++ [":"%char] ++
     print_int (pa_from_cpu a) ++ [">"%char] ++ print_int (pa_target_cpu a) ++ [";"%char])%list).

(** Loads and populations of CPUs and nodes. *)
Record Loads := mk_Loads {
  ld_cpu : gmap Z double;
  ld_node : gmap Z double;
  ld_count : gmap Z Z;
}.

Record Dissatisfaction := mk_Dissatisfaction {
  di_tid : Z;
  di_invalid : bool;
  di_slots : Z;
  di_capacity : double;
  di_node_balance : double;
  di_relation : double;
  di_load : double;
}.

Record Potential := mk_Potential {
  po_actions : list PlacementAction;
  po_key : string;
  po_emergency : bool;
  po_gain : double;
}.

Section optimizing.
Context (h : HardwareGraph) (o : IncrementalOptions) (cap : Z).
Context (s : IncrementalSolver) (now_ns : Z).
Local Abbreviation demand := (planned_demand s).
Local Abbreviation adj := (plan_adjacency s).
Local Abbreviation cpus_at := (cpus_of h).

(** [placement_] if the thread is placed, else [baseline_cpu_]. *)
Definition current_cpu (t : Z) : Z :=
  match i_placement s !! t with Some c => c | None => get_or 0 (i_baseline_cpu s) t end.
Definition placed_cpu (t : Z) : Z := get_or 0 (i_placement s) t.

(** The loads of the live threads; every node of the hardware is a key (the
    utilization loop inserts the missing ones). *)
Definition current_loads : Loads :=
  let l := foldl (λ l '(t, th),
      let cpu := current_cpu t in
      mk_Loads (add_load cpu (td_demand th) (ld_cpu l))
        (add_load (cpu_node h cpu) (td_demand th) (ld_node l)) (bump cpu (ld_count l)))
    (mk_Loads ∅ ∅ ∅) (items (i_threads s)) in
  mk_Loads (ld_cpu l)
    (foldl (λ m n, <[n := get_or d0 m n]> m) (ld_node l) (items (node_cpu_count h)).*1)
    (ld_count l).

Definition node_balance_cost (loads : gmap Z double) : double :=
  foldl (λ v '(node, cpus), let l := get_or d0 loads node in
      (v + l * l / double_of_Z (Z.max cpus 1))%D) d0 (items (node_cpu_count h)).

Definition utilization (loads : gmap Z double) (node : Z) : double :=
  (get_or d0 loads node / double_of_Z (Z.max (cpus_at node) 1))%D.
Definition minimum_node_utilization (l : Loads) : double :=
  foldl (λ v n, dmin v (utilization (ld_node l) n)) dinf (items (node_cpu_count h)).*1.

(** ** The dirty set *)
Definition thread_dirty (l : Loads) (delta : option GraphDelta) (t : Z) (th : ThreadDemand) : bool :=
  let cpu := current_cpu t in
  let node := cpu_node h cpu in
  (match delta with
   | Some _ => false
   | None => match i_previous_demand s !! t with
             | None => true
             | Some p => (demand_dirty_threshold o <=? dabs (p - td_demand th))%D
             end
   end) ||
  (node <? 0) || (d1 <? get_or d0 (ld_cpu l) cpu)%D || (cap <? get_or 0 (ld_count l) cpu) ||
  ((0 <=? node) &&
   ((double_of_Z (cpus_at node) <? get_or d0 (ld_node l) node)%D ||
    (minimum_node_utilization l + node_balance_threshold o <? utilization (ld_node l) node)%D)).

Definition edge_dirty (key : Z * Z) (e : RelationEdge) : bool :=
  let old := get_or d0 (i_previous_edge_score s) key in
  let absolute := dabs (re_score e - old)%D in
  let relative := (absolute / dmax (dabs old) d1em9)%D in
  negb (bool_decide (is_Some (i_previous_edge_score s !! key))) ||
  (edge_dirty_absolute_threshold o <=? absolute)%D ||
  (edge_dirty_relative_threshold o <=? relative)%D.

Definition dirty_edges : gset Z :=
  let touched := filter (λ e, edge_dirty e.1 e.2 = true) (items (i_edges s)) in
  let gone := filter (λ k, i_edges s !! k = None) (items (i_previous_edge_score s)).*1 in
  list_to_set (touched.*1.*1 ++ touched.*1.*2 ++ gone.*1 ++ gone.*2).

(** The rotating scan: [rotating_scan_size] consecutive threads from the cursor. *)
Definition scanned : gset Z :=
  let all := (items (i_threads s)).*1 in
  list_to_set ((λ c, default 0 (all !! Z.to_nat ((i_scan_cursor s + c) `mod` Zsize all))) <$>
               seqZ 0 (rotating_scan_size o)).
Definition next_cursor : Z :=
  (i_scan_cursor s + rotating_scan_size o) `mod` Z.of_nat (size (i_threads s)).

Definition dirty_set (l : Loads) (delta : option GraphDelta) : gset Z :=
  (match delta with Some d => dirty_tids d | None => dirty_edges end) ∪
  list_to_set (filter (λ e, thread_dirty l delta e.1 e.2 = true) (items (i_threads s))).*1 ∪
  scanned.

(** ** Ranking *)
Definition placed_node (t : Z) : option Z := cpu_node h <$> i_placement s !! t.
Definition node_relation (t node : Z) : double :=
  relation_sum adj t (λ other, match placed_node other with
                               | Some n => Some (node_latency h node n) | None => None end).

Definition dissatisfaction (l : Loads) (t : Z) : Dissatisfaction :=
  let cpu := placed_cpu t in
  let node := cpu_node h cpu in
  let d := demand t in
  let capacity := (d * dmax d0 (get_or d0 (ld_cpu l) cpu - d1))%D in
  let capacity := if 0 <=? node
    then (capacity + d * dmax d0 (get_or d0 (ld_node l) node - double_of_Z (cpus_at node)))%D
    else capacity in
  let '(current_relation, best_relation) :=
    foldl (λ '(cur, best) n, let v := node_relation t n in
        (if n =? node then v else cur, dmin best v)) (d0, dinf) (items (node_cpu_count h)).*1 in
  let minimum_cpu_load :=
    if 0 <=? node then foldl (λ v c, dmin v (get_or d0 (ld_cpu l) c)) dinf (cpus_in_node h node)
    else dinf in
  let imbalance :=
    if 0 <=? node
    then (d * dmax d0 (utilization (ld_node l) node - minimum_node_utilization l))%D else d0 in
  mk_Dissatisfaction t (node <? 0) (Z.max 0 (get_or 0 (ld_count l) cpu - cap)) capacity imbalance
    (dmax d0 (current_relation - best_relation)%D)
    (d * dmax d0 (get_or d0 (ld_cpu l) cpu - minimum_cpu_load))%D.

(** [left != right] is decided first, then [left > right], then identity. *)
Definition dissatisfied_first (a b : Dissatisfaction) : bool :=
  let c := lex [bcmp (di_invalid a) (di_invalid b); zcmp (di_slots a) (di_slots b);
                dcmp (di_capacity a) (di_capacity b); dcmp (di_relation a) (di_relation b);
                dcmp (di_node_balance a) (di_node_balance b); dcmp (di_load a) (di_load b);
                dcmp (demand (di_tid a)) (demand (di_tid b))] in
  if bool_decide (c = Some Eq)
  then key_ltb (identity_of s (di_tid a)) (identity_of s (di_tid b))
  else bool_decide (c = Some Gt).

Definition candidate_limit (budget : Z) : Z :=
  Z.min (candidate_hard_limit o) (candidate_multiplier o * budget).

Definition ranking (l : Loads) (dirty : gset Z) (budget : Z) : list Dissatisfaction :=
  take (Z.to_nat (candidate_limit budget))
    (std_sort dissatisfied_first
       (dissatisfaction l <$>
          filter (λ t, is_Some (i_threads s !! t) ∧ is_Some (i_placement s !! t)) (set_items dirty))).

(** ** Single moves *)
Definition incident_cost (t cpu : Z) (overrides : gmap Z Z) : double :=
  relation_sum adj t (λ other,
    match i_placement s !! other with
    | Some p => Some (latency h cpu (get_or p overrides other))
    | None => None
    end).

Definition cooling (t : Z) : bool :=
  match i_last_moved_ns s !! t with
  | Some m => u64_sub now_ns m <? minimum_dwell_ns o
  | None => false
  end.

Record MoveObjective := mk_MoveObjective {
  mo_calm : bool; mo_slots : Z; mo_overload : double; mo_relation : double;
  mo_balance : double; mo_latency : double; mo_cpu : Z }.
Definition move_lt (a b : MoveObjective) : bool :=
  tuple_lt [bcmp (mo_calm a) (mo_calm b); zcmp (mo_slots a) (mo_slots b);
            dcmp (mo_overload a) (mo_overload b); dcmp (mo_relation a) (mo_relation b);
            dcmp (mo_balance a) (mo_balance b); dcmp (mo_latency a) (mo_latency b);
            zcmp (mo_cpu a) (mo_cpu b)].
Definition INT_MAX : Z := 2147483647.

Record MoveState := mk_MoveState {
  mv_cpu : Z;
  mv_emergency : bool;
  mv_gain : double;
  mv_objective : MoveObjective;
  mv_skipped : bool;
}.

Definition over (x : double) (y : Z) : double := dmax d0 (x - double_of_Z y)%D.

(** Violations and overloads before and after moving [t] to [cpu]. *)
Definition slots_before (l : Loads) (source cpu : Z) : Z :=
  Z.max 0 (get_or 0 (ld_count l) source - cap) + Z.max 0 (get_or 0 (ld_count l) cpu - cap).
Definition slots_after (l : Loads) (source cpu : Z) : Z :=
  Z.max 0 (get_or 0 (ld_count l) source - 1 - cap) +
  Z.max 0 (get_or 0 (ld_count l) cpu + 1 - cap).
Definition overload_before (l : Loads) (source cpu source_node target_node : Z) : double :=
  let node n := over (get_or d0 (ld_node l) n) (cpus_at n) in
  let v := (dmax d0 (get_or d0 (ld_cpu l) source - d1) + dmax d0 (get_or d0 (ld_cpu l) cpu - d1))%D in
  let v := if 0 <=? source_node then (v + node source_node)%D else v in
  if negb (target_node =? source_node) then (v + node target_node)%D else v.
Definition overload_after (l : Loads) (d : double) (source cpu source_node target_node : Z) : double :=
  let v := (dmax d0 (get_or d0 (ld_cpu l) source - d - d1) +
            dmax d0 (get_or d0 (ld_cpu l) cpu + d - d1))%D in
  if (0 <=? source_node) && negb (source_node =? target_node) then
    (v + over (get_or d0 (ld_node l) source_node - d) (cpus_at source_node) +
     over (get_or d0 (ld_node l) target_node + d) (cpus_at target_node))%D
  else v.

Definition move_candidate (l : Loads) (t source : Z) (current_relation : double)
    (mv : MoveState) (c : Cpu) : MoveState :=
  let cpu := cpu_id c in
  if negb (cpu_online c) || (cpu =? source) then mv else
  let d := demand t in
  let source_node := cpu_node h source in
  let target_node := cpu_node_id c in
  let crosses := (0 <=? source_node) && negb (source_node =? target_node) in
  let before_slots := slots_before l source cpu in
  let after_slots := slots_after l source cpu in
  let before_overload := overload_before l source cpu source_node target_node in
  let after_overload := overload_after l d source cpu source_node target_node in
  let balanced := if crosses then add_load target_node d (sub_load source_node d (ld_node l))
                  else ld_node l in
  let before_balance := node_balance_cost (ld_node l) in
  let after_balance := node_balance_cost balanced in
  let relation := incident_cost t cpu ∅ in
  let balance_emergency :=
    crosses &&
    (utilization (ld_node l) target_node + node_balance_threshold o
       <? utilization (ld_node l) source_node)%D &&
    (after_balance + d1em12 <? before_balance)%D &&
    (relation <=? current_relation + d1em12)%D in
  let emergency :=
    (source_node <? 0) || (after_slots <? before_slots) ||
    (after_overload + d1em12 <? before_overload)%D || balance_emergency in
  if cooling t && negb emergency then
    mk_MoveState (mv_cpu mv) (mv_emergency mv) (mv_gain mv) (mv_objective mv) true
  else if (before_slots <? after_slots) ||
          (negb emergency && (before_overload + d1em12 <? after_overload)%D) then mv
  else
    let gain := (current_relation - relation)%D in
    if negb emergency &&
       (gain + d1em12 <? minimum_relative_gain o * dmax current_relation d1em9)%D then mv
    else
      let objective := mk_MoveObjective (negb emergency) after_slots after_overload relation
                         after_balance (latency h source cpu) cpu in
      if move_lt objective (mv_objective mv)
      then mk_MoveState cpu emergency gain objective (mv_skipped mv) else mv.

Definition best_move (l : Loads) (t : Z) : MoveState :=
  let source := placed_cpu t in
  foldl (move_candidate l t source (incident_cost t source ∅))
    (mk_MoveState source false d0 (mk_MoveObjective true INT_MAX dinf dinf dinf dinf INT_MAX) false)
    (hw_cpus h).

(** The potentials found so far and the threads skipped for cooling. *)
Definition single_move (l : Loads) (acc : list Potential * gset Z) (score : Dissatisfaction) :
    list Potential * gset Z :=
  let t := di_tid score in
  let source := placed_cpu t in
  let mv := best_move l t in
  let skipped := if mv_skipped mv then {[t]} ∪ acc.2 else acc.2 in
  if negb (mv_cpu mv =? source) then
    let actions := [mk_PlacementAction (identity_of s t) source (mv_cpu mv) false (mv_emergency mv)
                      (di_capacity score) (di_relation score) (di_load score)] in
    ((acc.1 ++ [mk_Potential actions (action_key actions) (mv_emergency mv) (mv_gain mv)])%list, skipped)
  else (acc.1, skipped).

(** ** Pair swaps *)
Definition swap_fits (l : Loads) (first second first_cpu second_cpu : Z) : bool :=
  let first_after := (get_or d0 (ld_cpu l) first_cpu - demand first + demand second)%D in
  let second_after := (get_or d0 (ld_cpu l) second_cpu - demand second + demand first)%D in
  let before := (dmax d0 (get_or d0 (ld_cpu l) first_cpu - d1) +
                 dmax d0 (get_or d0 (ld_cpu l) second_cpu - d1))%D in
  let after := (dmax d0 (first_after - d1) + dmax d0 (second_after - d1))%D in
  let first_node := cpu_node h first_cpu in
  let second_node := cpu_node h second_cpu in
  let load n := get_or d0 (ld_node l) n in
  negb (before + d1em12 <? after)%D &&
  ((first_node =? second_node) ||
   negb (over (load first_node) (cpus_at first_node) +
           over (load second_node) (cpus_at second_node) + d1em12 <?
         over (load first_node - demand first + demand second) (cpus_at first_node) +
           over (load second_node - demand second + demand first) (cpus_at second_node))%D).

Definition swap_potential (a b : Dissatisfaction) (gain : double) : Potential :=
  let first_cpu := placed_cpu (di_tid a) in
  let second_cpu := placed_cpu (di_tid b) in
  let actions :=
    [mk_PlacementAction (identity_of s (di_tid a)) first_cpu second_cpu false false
       (di_capacity a) (di_relation a) (di_load a);
     mk_PlacementAction (identity_of s (di_tid b)) second_cpu first_cpu false false
       (di_capacity b) (di_relation b) (di_load b)] in
  mk_Potential actions (action_key actions) false gain.

Definition try_pair (l : Loads) (a : Dissatisfaction) (acc : list Potential * gset Z)
    (b : Dissatisfaction) : list Potential * gset Z :=
  let first := di_tid a in
  let second := di_tid b in
  let first_cpu := placed_cpu first in
  let second_cpu := placed_cpu second in
  if first_cpu =? second_cpu then acc else
  if cooling first || cooling second then
    let skipped := if cooling first then {[first]} ∪ acc.2 else acc.2 in
    (acc.1, if cooling second then {[second]} ∪ skipped else skipped)
  else
    let before := (incident_cost first first_cpu ∅ + incident_cost second second_cpu ∅)%D in
    let overrides : gmap Z Z := <[second := first_cpu]> (<[first := second_cpu]> ∅) in
    let after := (incident_cost first second_cpu overrides +
                  incident_cost second first_cpu overrides)%D in
    let gain := (before - after)%D in
    if (gain + d1em12 <? minimum_relative_gain o * dmax before d1em9)%D then acc
    else if swap_fits l first second first_cpu second_cpu
    then ((acc.1 ++ [swap_potential a b gain])%list, acc.2) else acc.

(** The double loop [a < b]; ranked threads are always placed. *)
Fixpoint pair_swaps (l : Loads) (ranked : list Dissatisfaction) (acc : list Potential * gset Z) :
    list Potential * gset Z :=
  match ranked with
  | [] => acc
  | a :: rest =>
      let acc := if bool_decide (is_Some (i_placement s !! di_tid a))
                 then foldl (try_pair l a) acc rest else acc in
      pair_swaps l rest acc
  end.

Definition potential_ltb (a b : Potential) : bool :=
  if xorb (po_emergency a) (po_emergency b) then po_emergency a
  else if negb (po_gain a =? po_gain b)%D then (po_gain b <? po_gain a)%D
  else key_ltb (po_key a) (po_key b).

Definition potentials (l : Loads) (ranked : list Dissatisfaction) : list Potential * gset Z :=
  let '(ps, skipped) := pair_swaps l ranked (foldl (single_move l) ([], ∅) ranked) in
  (std_sort potential_ltb ps, skipped).

(** ** Confirmation *)
Definition next_confirmations (ps : list Potential) : gmap string Z :=
  foldl (λ m p, <[po_key p := get_or 0 (i_action_confirmations s) (po_key p) + 1]> m) ∅ ps.

(** ** Admission under the projected loads *)
Definition total_overload (l : Loads) : double :=
  let v := foldl (λ v c, (v + dmax d0 (get_or d0 (ld_cpu l) (cpu_id c) - d1))%D) d0 (hw_cpus h) in
  foldl (λ v '(node, cpus), (v + over (get_or d0 (ld_node l) node) cpus)%D) v
    (items (node_cpu_count h)).
Definition slot_violation (l : Loads) : Z :=
  foldl (λ v c, v + Z.max 0 (get_or 0 (ld_count l) (cpu_id c) - cap)) 0 (hw_cpus h).

Definition utilization_span (loads : gmap Z double) : double :=
  let '(minimum, maximum) :=
    foldl (λ '(lo, hi) '(node, cpus),
        let u := match loads !! node with Some v => (v / double_of_Z cpus)%D | None => d0 end in
        (dmin lo u, dmax hi u)) (dinf, d0) (items (node_cpu_count h)) in
  (maximum - minimum)%D.

Definition apply_action (l : Loads) (a : PlacementAction) : Loads :=
  let d := demand (pa_tid a) in
  let from_node := cpu_node h (pa_from_cpu a) in
  let target_node := cpu_node h (pa_target_cpu a) in
  mk_Loads (add_load (pa_target_cpu a) d (sub_load (pa_from_cpu a) d (ld_cpu l)))
    (if negb (from_node =? target_node)
     then add_load target_node d (sub_load from_node d (ld_node l)) else ld_node l)
    (bump (pa_target_cpu a) (unbump (pa_from_cpu a) (ld_count l))).

(** The selected actions with the loads they project. *)
Record Selection := mk_Selection {
  se_loads : Loads;
  se_actions : list PlacementAction;
  se_selected : gset Z;
}.

Definition potential_rejected (before after : Loads) (emergency : bool) : bool :=
  let before_slots := slot_violation before in
  let after_slots := slot_violation after in
  let b := total_overload before in
  let a := total_overload after in
  let before_balance := node_balance_cost (ld_node before) in
  let after_balance := node_balance_cost (ld_node after) in
  let capacity_improved := (after_slots <? before_slots) || (a + d1em12 <? b)%D in
  let balance_improved := (after_balance + d1em12 <? before_balance)%D in
  (before_slots <? after_slots) || (b + d1em12 <? a)%D ||
  (emergency && negb capacity_improved && negb balance_improved) ||
  (negb emergency && (before_balance + d1em12 <? after_balance)%D &&
   (node_balance_threshold o <? utilization_span (ld_node after))%D).

Definition select_potential (confirmations : gmap string Z) (budget : Z) (se : Selection)
    (p : Potential) : Selection :=
  if negb (po_emergency p) && (get_or 0 confirmations (po_key p) <? proposal_confirmations o) then se
  else if budget <? Zsize (se_actions se) + Zsize (po_actions p) then se
  else if existsb (λ a, bool_decide (pa_tid a ∈ se_selected se)) (po_actions p) then se
  else
    let after := foldl apply_action (se_loads se) (po_actions p) in
    if potential_rejected (se_loads se) after (po_emergency p) then se
    else mk_Selection after (se_actions se ++ po_actions p)%list
           (list_to_set (pa_tid <$> po_actions p) ∪ se_selected se).

Definition actions_delta (actions : list PlacementAction) : PlacementDelta :=
  mk_PlacementDelta (foldl (λ m a, <[pa_tid a := pa_target_cpu a]> m) ∅ actions) ∅.

Definition optimize_start (proposal : SolverProposal) : SolverProposal :=
  proposal <| sp_phase := i_phase s |> <| sp_initial_plan_confirmed := true |>.

Definition optimize_proposal (proposal : SolverProposal) (l : Loads) (dirty skipped : gset Z)
    (ranked : list Dissatisfaction) (actions : list PlacementAction) : SolverProposal :=
  proposal <| sp_maximum_cpu_threads := max_count (ld_count l) (sp_maximum_cpu_threads proposal) |>
           <| sp_dirty_threads := Z.of_nat (size dirty) |>
           <| sp_candidate_threads := Zsize ranked |>
           <| sp_cooldown_skipped_threads := Z.of_nat (size skipped) |>
           <| sp_actions := actions |>
           <| sp_delta := actions_delta actions |>
           <| sp_ready := negb (bool_decide (actions = [])) |>.

Definition optimize_solver (confirmations : gmap string Z) : IncrementalSolver :=
  s <| i_scan_cursor := next_cursor |>
    <| i_previous_demand := td_demand <$> i_threads s |>
    <| i_previous_edge_score := re_score <$> i_edges s |>
    <| i_action_confirmations := confirmations |>.

(** The whole phase. *)
Definition optimizing (delta : option GraphDelta) (proposal : SolverProposal) :
    IncrementalSolver * result SolverProposal :=
  let budget := sp_migration_budget proposal in
  if budget =? 0 then (s, Ok (optimize_start proposal)) else
  let l := current_loads in
  let dirty := dirty_set l delta in
  let ranked := ranking l dirty budget in
  let '(ps, skipped) := potentials l ranked in
  let confirmations := next_confirmations ps in
  let se := foldl (select_potential confirmations budget) (mk_Selection l [] ∅) ps in
  publish (optimize_solver confirmations)
    (optimize_proposal (optimize_start proposal) l dirty skipped ranked (se_actions se)).
End optimizing.

#[export] Instance PlacementAction_eq_dec : EqDecision PlacementAction.
Proof. solve_decision. Defined.
