(* ===== verification/IncrementalPropose.v ===== *)
(** * [IncrementalSolver::propose], [commit] and [discard] ([src/solver.cpp])

    The three phases composed the way [propose] composes them.  An exception
    leaves the members changed so far in place, so [propose] returns the new
    solver next to its result. *)
From Stdlib Require Import SpecFloat.
From S2P Require Import Prelude Binary64 Core CpuList Topology Hotspot Incremental NodePlan Pinning.
From S2P Require Import Optimizer.
Local Open Scope Z_scope.

Section propose.
Context (h : HardwareGraph) (threads : list ThreadDemand) (edges : list RelationEdge).
Context (o : IncrementalOptions) (now_ns : Z) (delta : option GraphDelta).

Definition window_cap : Z := slot_cap h o (length threads).

(** Everything before the proposal is filled in: demand prediction, removal,
    admission, phase changes and hotspots. *)
Record Prepared := mk_Prepared {
  pp_solver : IncrementalSolver;
  pp_predicted : Z;
  pp_similarity : double;
  pp_triggered : bool;
}.
Definition admitted (s : IncrementalSolver) : AdmitState :=
  let peaks := group_peaks o threads (i_group_peak_demand s) in
  let s := s <| i_group_peak_demand := peaks |> in
  let demand := effective_demands o peaks threads in
  let hotspots := select_hotspot_edges (incoming_threads demand threads) o edges in
  foldl (admit_thread h o (length threads) window_cap demand (adjacency_of hotspots))
    (mk_AdmitState (remove_stale threads s) false 0) threads.
Definition prepare (s : IncrementalSolver) : Prepared :=
  let predicted :=
    predicted_count o (group_peaks o threads (i_group_peak_demand s)) threads in
  let s := finish_pinning (phase_after_admission o (admitted s)) in
  let '(s, similarity, triggered) := update_hotspots o edges s in
  mk_Prepared s predicted similarity triggered.

Definition migration_budget (s : IncrementalSolver) : Z :=
  let ratio := if bool_decide (i_phase s = InitialPinning)
               then initial_migrated_threads_ratio o else maximum_migrated_threads_ratio o in
  dfloor_Z (double_of_nat (size (i_threads s)) * ratio)%D.

Definition base_proposal (pp : Prepared) : SolverProposal :=
  let s := pp_solver pp in
  SolverProposal_default <| sp_id := i_next_proposal_id s |>
    <| sp_shadow := i_shadow s |>
    <| sp_eligible_threads := Z.of_nat (size (i_threads s)) |>
    <| sp_pinned_threads := Z.of_nat (size (i_pinned s)) |>
    <| sp_migration_budget := migration_budget s |>
    <| sp_cpu_slot_cap := window_cap |>
    <| sp_predicted_demand_threads := pp_predicted pp |>
    <| sp_relation_edges_input := Zsize edges |>
    <| sp_hotspot_edges := Z.of_nat (size (i_edges s)) |>
    <| sp_hotspot_similarity := pp_similarity pp |>
    <| sp_hotspot_stability_confirmation := i_hotspot_stability_confirmation s |>
    <| sp_hotspot_replan_triggered := pp_triggered pp |>
    <| sp_global_replan_active := i_replan_existing_threads s |>.

Definition set_phase (ph : IncrementalPhase) (s : IncrementalSolver) : IncrementalSolver :=
  s <| i_phase := ph |>.
(** [next_proposal_id_++] *)
Definition take_id (s : IncrementalSolver) : IncrementalSolver :=
  s <| i_next_proposal_id := i_next_proposal_id s + 1 |>.

(** The phase dispatch after the proposal id is taken. *)
Definition run_phase (s : IncrementalSolver) (proposal : SolverProposal) :
    IncrementalSolver * result SolverProposal :=
  if bool_decide (i_threads s = ∅) then
    (set_phase Uninitialized s, Ok (proposal <| sp_phase := Uninitialized |>))
  else
    let s := if bool_decide (i_phase s = Uninitialized) then set_phase NodePlanning s else s in
    match i_phase s with
    | NodePlanning => node_planning h o window_cap s proposal
    | InitialPinning => initial_pinning h window_cap s proposal
    | _ => optimizing h o window_cap s now_ns delta proposal
    end.

Definition propose (s : IncrementalSolver) : IncrementalSolver * result SolverProposal :=
  match i_outstanding s with
  | Some p => (s, Ok p)
  | None =>
      if Nat.eqb (online_cpus h) 0 then (s, Throw (runtime_error "empty CPU envelope")) else
      let pp := prepare s in
      run_phase (take_id (pp_solver pp)) (base_proposal pp)
  end.
End propose.

(** ** [commit] *)
Definition is_committed (committed : gset Z) (a : PlacementAction) : bool :=
  bool_decide (committed = ∅) || bool_decide (pa_tid a ∈ committed).

Definition commit_action (now_ns : Z) (committed : gset Z) (s : IncrementalSolver)
    (a : PlacementAction) : IncrementalSolver :=
  if is_committed committed a then
    let t := pa_tid a in
    s <| i_placement := <[t := pa_target_cpu a]> (i_placement s) |>
      <| i_pinned := {[t]} ∪ i_pinned s |>
      <| i_last_moved_ns := if negb (pa_from_cpu a =? pa_target_cpu a)
                            then <[t := now_ns]> (i_last_moved_ns s) else i_last_moved_ns s |>
  else s.

Definition commit_phase (s : IncrementalSolver) : IncrementalSolver :=
  if bool_decide (i_phase s = InitialPinning) && initial_targets_effective s
  then s <| i_phase := Optimizing |> <| i_replan_existing_threads := false |> else s.

Definition commit (proposal : SolverProposal) (now_ns : Z) (committed : gset Z)
    (s : IncrementalSolver) : IncrementalSolver :=
  match i_outstanding s with
  | Some q =>
      if sp_id q =? sp_id proposal then
        let s := commit_phase (foldl (commit_action now_ns committed) s (sp_actions proposal)) in
        s <| i_generation := i_generation s + 1 |> <| i_outstanding := (None : option SolverProposal) |>
      else s
  | None => s
  end.

(** ** [discard] *)
Definition discard (proposal : SolverProposal) (s : IncrementalSolver) : IncrementalSolver :=
  match i_outstanding s with
  | Some q => if sp_id q =? sp_id proposal then s <| i_outstanding := (None : option SolverProposal) |> else s
  | None => s
  end.
