(* ===== verification/IncrementalFacts.v ===== *)
(** * Counting facts shared by the theorems on the incremental solver *)
From Stdlib Require Import SpecFloat.
From S2P Require Import Prelude Binary64 Core CpuList Topology Hotspot Incremental NodePlan Pinning.
From S2P Require Import Optimizer IncrementalPropose.
Local Open Scope Z_scope.

(** ** Counters *)
Lemma get_or_bump {K} `{Countable K} (k k' : K) m :
  get_or 0 (bump k m) k' = get_or 0 m k' + (if decide (k' = k) then 1 else 0).
Proof.
  unfold bump, get_or. case_decide as E; subst.
  - by rewrite lookup_insert_eq.
  - rewrite lookup_insert_ne by done. lia.
Qed.
Lemma get_or_unbump {K} `{Countable K} (k k' : K) m :
  get_or 0 (unbump k m) k' = get_or 0 m k' - (if decide (k' = k) then 1 else 0).
Proof.
  unfold unbump, get_or. case_decide as E; subst.
  - by rewrite lookup_insert_eq.
  - rewrite lookup_insert_ne by done. lia.
Qed.

Section counting.
Context {A : Type}.
Implicit Types (l : list A).

Lemma Zsize_filter_snoc (P : A → Prop) `{∀ x, Decision (P x)} l x :
  Zsize (filter P (l ++ [x])) = Zsize (filter P l) + (if decide (P x) then 1 else 0).
Proof.
  rewrite filter_app, Zsize_app, filter_cons, filter_nil. unfold Zsize.
  case_decide; cbn; lia.
Qed.

Lemma Zsize_filter_cons (P : A → Prop) `{∀ x, Decision (P x)} l x :
  Zsize (filter P (x :: l)) = (if decide (P x) then 1 else 0) + Zsize (filter P l).
Proof. rewrite filter_cons. unfold Zsize. case_decide; cbn; lia. Qed.

Lemma Zsize_perm l k : l ≡ₚ k → Zsize l = Zsize k.
Proof. intros H. unfold Zsize. by rewrite H. Qed.

Lemma Zsize_filter_ext (P Q : A → Prop) `{∀ x, Decision (P x)} `{∀ x, Decision (Q x)} l :
  (∀ x, x ∈ l → P x ↔ Q x) → Zsize (filter P l) = Zsize (filter Q l).
Proof.
  induction l as [|x l IH]; intros Hpq; [done|]. rewrite !Zsize_filter_cons, IH by set_solver.
  assert (P x ↔ Q x) by (apply Hpq; set_solver).
  repeat case_decide; tauto || lia.
Qed.

(** Counting by parts. *)
Lemma Zsize_filter_split (P Q : A → Prop) `{∀ x, Decision (P x)} `{∀ x, Decision (Q x)} l :
  Zsize (filter P l) =
  Zsize (filter P (filter Q l)) + Zsize (filter P (filter (λ x, ¬ Q x) l)).
Proof.
  induction l as [|x l IH]; [done|]. rewrite (filter_cons Q), (filter_cons (λ x, ¬ Q x)).
  destruct (decide (Q x)), (decide (¬ Q x)); try tauto; rewrite !Zsize_filter_cons; lia.
Qed.

Lemma filter_elem_perm `{EqDecision A} l k :
  NoDup l → NoDup k → k ⊆ l → filter (λ x, x ∈ k) l ≡ₚ k.
Proof.
  intros Hl Hk Hsub. apply NoDup_Permutation; [by apply NoDup_filter|done|].
  intros x. rewrite list_elem_of_filter. set_solver.
Qed.

(** Counting after the elements of [k] changed. *)
Lemma Zsize_filter_moved `{EqDecision A} (P Q : A → Prop) `{∀ x, Decision (P x)} `{∀ x, Decision (Q x)} l k :
  NoDup l → NoDup k → k ⊆ l → (∀ x, x ∈ l → x ∉ k → Q x ↔ P x) →
  Zsize (filter Q l) = Zsize (filter P l) - Zsize (filter P k) + Zsize (filter Q k).
Proof.
  intros Hl Hk Hsub Hext. pose proof (filter_elem_perm l k Hl Hk Hsub) as Hperm.
  rewrite (Zsize_filter_split P (λ x, x ∈ k)), (Zsize_filter_split Q (λ x, x ∈ k)).
  rewrite (Zsize_perm (filter P (filter (λ x, x ∈ k) l)) (filter P k)) by (by rewrite Hperm).
  rewrite (Zsize_perm (filter Q (filter (λ x, x ∈ k) l)) (filter Q k)) by (by rewrite Hperm).
  rewrite (Zsize_filter_ext Q P (filter (λ x, ¬ x ∈ k) l)); [lia|].
  intros x [Hn Hx]%list_elem_of_filter. by apply Hext.
Qed.

Lemma Zsize_filter_le (P : A → Prop) `{∀ x, Decision (P x)} l : Zsize (filter P l) ≤ Zsize l.
Proof. unfold Zsize. pose proof (length_filter P l). lia. Qed.

Lemma Zsize_nonneg l : 0 ≤ Zsize l.
Proof. unfold Zsize. lia. Qed.
End counting.

Lemma length_fmap_Zsize {A B} (f : A → B) (l : list A) : Zsize (f <$> l) = Zsize l.
Proof. unfold Zsize. by rewrite length_fmap. Qed.

Lemma Zsize_filter_fmap {A B} (f : A → B) (P : A → Prop) (Q : B → Prop) `{∀ x, Decision (P x)}
    `{∀ x, Decision (Q x)} (l : list A) :
  (∀ x, x ∈ l → Q (f x) ↔ P x) → Zsize (filter Q (f <$> l)) = Zsize (filter P l).
Proof.
  induction l as [|x l IH]; intros Hpq; [done|].
  rewrite fmap_cons, !Zsize_filter_cons, IH by set_solver.
  assert (Q (f x) ↔ P x) by (apply Hpq; set_solver). repeat case_decide; tauto || lia.
Qed.

(** A minimum under a comparator whose first component is a flag has the flag
    clear when some element has. *)
Lemma min_element_flag {A} (ltb : A → A → bool) (flag : A → bool) l x :
  (∀ a b, flag a = false → flag b = true → ltb a b = true) →
  (∀ a b, flag a = true → flag b = false → ltb a b = false) →
  min_element ltb l = Some x → (∃ y, y ∈ l ∧ flag y = false) → flag x = false.
Proof.
  intros H1 H2. destruct l as [|z l]; [done|]. intros [= <-] (y & Hy & Hf).
  unfold min_from.
  assert (∀ l best, (flag best = false ∨ ∃ y, y ∈ l ∧ flag y = false) →
    flag (foldl (λ best x, if ltb x best then x else best) best l) = false) as H.
  { clear l y Hy Hf. induction l as [|w l IH]; intros best Hb; cbn.
    - destruct Hb as [?|(y & Hy & _)]; [done|set_solver].
    - apply IH. destruct Hb as [Hb|(y & [->|Hy]%elem_of_cons & Hf)].
      + left. destruct (flag w) eqn:Ew; [by rewrite H2|by destruct (ltb w best)].
      + left. destruct (flag best) eqn:Eb; [by rewrite H1|by destruct (ltb w best)].
      + right. eauto. }
  apply H. apply elem_of_cons in Hy as [->|Hy]; eauto.
Qed.

(** ** Live threads and populations *)
Definition live_tids (s : IncrementalSolver) : list Z := (items (i_threads s)).*1.

Lemma elem_of_live_tids s t : t ∈ live_tids s ↔ is_Some (i_threads s !! t).
Proof.
  unfold live_tids. rewrite list_elem_of_fmap. split.
  - intros ([k v] & -> & H%elem_of_items). by eexists.
  - intros [v Hv]. exists (t, v). by rewrite elem_of_items.
Qed.
Lemma NoDup_live_tids s : NoDup (live_tids s).
Proof. apply NoDup_items_fst. Qed.

(** The number of live threads placed on a CPU. *)
Definition population (s : IncrementalSolver) (cpu : Z) : Z :=
  Zsize (filter (λ t, i_placement s !! t = Some cpu) (live_tids s)).

Lemma population_empty s cpu : i_placement s = ∅ → population s cpu = 0.
Proof.
  intros He. unfold population. rewrite He. induction (live_tids s) as [|t l IH]; [done|].
  rewrite Zsize_filter_cons, decide_False by (by rewrite lookup_empty). exact IH.
Qed.

(** ** [commit] *)

(** The actions change the placement of their threads, one each, and leave
    the threads alone. *)
Lemma commit_actions_fields now c s l :
  i_threads (foldl (commit_action now c) s l) = i_threads s ∧
  i_phase (foldl (commit_action now c) s l) = i_phase s.
Proof.
  revert s. induction l as [|a l IH]; intros s; cbn; [done|].
  destruct (IH (commit_action now c s a)) as [-> ->]. unfold commit_action.
  by destruct (is_committed c a).
Qed.

Lemma commit_actions_placement now c s l t :
  NoDup (pa_tid <$> l) →
  i_placement (foldl (commit_action now c) s l) !! t =
  match list_find (λ a, pa_tid a = t ∧ is_committed c a = true) l with
  | Some (_, a) => Some (pa_target_cpu a)
  | None => i_placement s !! t
  end.
Proof.
  revert s. induction l as [|a l IH]; intros s Hnd; [done|].
  rewrite fmap_cons in Hnd. apply NoDup_cons in Hnd as [Hn Hnd]. cbn [foldl].
  rewrite IH by done. cbn [list_find]. unfold commit_action.
  destruct (is_committed c a) eqn:E; [|by rewrite decide_False by (intros []; congruence);
    destruct (list_find _ l) as [[]|]].
  cbn [i_placement]. case_decide as Ht.
  - destruct Ht as [<- _]. destruct (list_find _ l) as [[i b]|] eqn:Ef.
    + apply list_find_Some in Ef as (Hb%list_elem_of_lookup_2 & [Hbt _] & _).
      destruct Hn. rewrite <-Hbt. by apply (list_elem_of_fmap_2 pa_tid).
    + cbn. by rewrite lookup_insert_eq.
  - destruct (list_find _ l) as [[i b]|]; [done|]. cbn.
    rewrite lookup_insert_ne; [done|]. intros Heq. by destruct Ht.
Qed.

Lemma commit_fields p now c s :
  i_outstanding s = Some p →
  i_threads (commit p now c s) = i_threads s ∧
  i_placement (commit p now c s) = i_placement (foldl (commit_action now c) s (sp_actions p)).
Proof.
  intros Ho. unfold commit. rewrite Ho, Z.eqb_refl. cbn [i_threads i_placement].
  unfold commit_phase. destruct (_ && _); cbn;
    by destruct (commit_actions_fields now c s (sp_actions p)).
Qed.

(** Neither operation of a commit touches the sampled CPUs. *)
Lemma commit_baseline p now c s : i_baseline_cpu (commit p now c s) = i_baseline_cpu s.
Proof.
  unfold commit. destruct (i_outstanding s) as [q|]; [|done]. destruct (_ =? _); [|done].
  cbn [i_baseline_cpu].
  assert (∀ l s, i_baseline_cpu (foldl (commit_action now c) s l) = i_baseline_cpu s) as H.
  { clear. induction l as [|a l IH]; intros s; [done|]. cbn [foldl]. rewrite IH. unfold commit_action.
    by destruct (is_committed c a). }
  unfold commit_phase. destruct (_ && _); cbn; apply H.
Qed.
