(* ===== verification/SnapshotProperties.v ===== *)
(** * Properties of the snapshot solver

    The only exceptions [Solver::solve] raises, the placement it returns, the
    exactness of its CPU counters, and what giving migrations back to meet the
    budget guarantees. *)
From Stdlib Require Import SpecFloat.
From S2P Require Import Prelude Binary64 Core Topology DomainSolver Incremental SnapshotSolver IncrementalFacts.
Local Open Scope Z_scope.

(** ** Outcomes of fallible code

    [yields E Q r]: [r] returns a value in [Q] or throws an exception in [E]. *)
Definition yields {A} (E : exn → Prop) (Q : A → Prop) (r : result A) : Prop :=
  match r with Ok a => Q a | Throw e => E e end.

Section yields.
Context {E : exn → Prop}.

Lemma yields_bind {A B} (r : result A) (f : A → result B) (P : A → Prop) (Q : B → Prop) :
  yields E P r → (∀ a, P a → yields E Q (f a)) → yields E Q (r ≫= f).
Proof. destruct r; cbn; auto. Qed.

Lemma yields_mono {A} (P Q : A → Prop) (r : result A) :
  yields E P r → (∀ a, P a → Q a) → yields E Q r.
Proof. destruct r; cbn; auto. Qed.

Lemma yields_foldlM {A B} (f : A → B → result A) (P : list B → A → Prop) l a :
  P [] a →
  (∀ pre b rest x, l = pre ++ b :: rest → P pre x → yields E (P (pre ++ [b])) (f x b)) →
  yields E (P l) (foldlM f a l).
Proof.
  intros Ha Hstep.
  cut (∀ rest pre x, l = pre ++ rest → P pre x → yields E (P l) (foldlM f x rest)).
  { intros H. by apply (H l [] a). }
  induction rest as [|b rest IH]; intros pre x Hl Hx; cbn.
  - rewrite app_nil_r in Hl. by subst.
  - eapply yields_bind; [by eapply Hstep|]. intros y Hy.
    apply (IH (pre ++ [b])); [by rewrite <-app_assoc|done].
Qed.

(** A loop invariant that does not mention the visited elements. *)
Lemma yields_foldlM_inv {A B} (f : A → B → result A) (P : A → Prop) l a :
  P a → (∀ b x, b ∈ l → P x → yields E P (f x b)) → yields E P (foldlM f a l).
Proof.
  intros Ha Hstep. apply (yields_foldlM f (λ _, P)); [done|].
  intros pre b rest x -> Hx. apply Hstep; [set_solver|done].
Qed.

Lemma yields_at_key {K V} `{Countable K} (m : gmap K V) k (Q : V → Prop) v :
  m !! k = Some v → Q v → yields E Q (at_key m k).
Proof. unfold at_key. by intros ->. Qed.

(** The scan returns the initial choice or a candidate. *)
Lemma yields_argmin (cost : Z → result Cost) best choice l :
  (∀ x, x ∈ l → yields E (λ _, True) (cost x)) →
  yields E (λ r, r ∈ choice :: l) (argmin cost best choice l).
Proof.
  intros Hc. unfold argmin. eapply yields_bind with (P := λ r, r.2 ∈ choice :: l).
  - apply yields_foldlM_inv; [by left|]. intros x [b c] Hx Hin. cbn in *.
    eapply yields_bind; [by apply Hc|]. intros cx _. cbn.
    destruct (cost_lt cx b); cbn; [by right|done].
  - by intros [b c].
Qed.

Lemma yields_sweeps {A} edges o threads (step : A * bool → ThreadDemand → result (A * bool))
    (P : A → Prop) passes s :
  P s →
  (∀ t s' b, t ∈ ordered threads edges o → P s' → yields E (λ r, P r.1) (step (s', b) t)) →
  yields E P (sweeps threads edges o step passes s).
Proof.
  intros Hs Hstep. revert s Hs. induction passes as [|n IH]; intros s Hs; cbn; [done|].
  eapply yields_bind with (P := λ r, P r.1).
  - apply yields_foldlM_inv; [done|]. intros t [s' b] Ht Hp. by apply Hstep.
  - intros [s' []] Hp; cbn in *; auto.
Qed.
End yields.

(** A key without duplicates determines the element. *)
Lemma NoDup_key_inj {A B} (f : A → B) l x y :
  NoDup (f <$> l) → x ∈ l → y ∈ l → f x = f y → x = y.
Proof.
  intros Hnd [i Hx]%list_elem_of_lookup [j Hy]%list_elem_of_lookup Heq.
  assert (i = j) as <-; [|congruence].
  eapply NoDup_lookup; [done|by rewrite list_lookup_fmap, Hx|].
  by rewrite list_lookup_fmap, Hy, Heq.
Qed.

(** ** The cache of node latencies *)
Lemma foldl_insert_Some {K A B} `{Countable K} (g : gmap K A → B → gmap K A) l m k :
  (∀ m b, is_Some (m !! k) → is_Some (g m b !! k)) →
  is_Some (m !! k) ∨ (∃ b, b ∈ l ∧ ∀ m, is_Some (g m b !! k)) →
  is_Some (foldl g m l !! k).
Proof.
  intros Hkeep. revert m. induction l as [|b l IH]; intros m [Hm|(c & Hc & Hg)]; cbn; try done.
  - by apply elem_of_nil in Hc.
  - apply IH. left. by apply Hkeep.
  - apply IH. apply elem_of_cons in Hc as [->|Hc]; [left; apply Hg|right; eauto].
Qed.

Lemma node_latency_cached h from to :
  from ∈ nodes h → to ∈ nodes h → is_Some (node_latency_cache h !! (from, to)).
Proof.
  unfold node_latency_cache. intros Hf Ht.
  assert (∀ (m : gmap (Z * Z) double) k v, is_Some (m !! (from, to)) →
    is_Some (<[k := v]> m !! (from, to))) as Hins.
  { intros m k v Hm. destruct (decide (k = (from, to))) as [->|].
    - rewrite lookup_insert_eq. by eexists.
    - by rewrite lookup_insert_ne. }
  apply foldl_insert_Some.
  - intros m b Hm. apply foldl_insert_Some; [intros; by apply Hins|by left].
  - right. exists from. split; [done|]. intros m. apply foldl_insert_Some; [intros; by apply Hins|].
    right. exists to. split; [done|]. intros m'. rewrite lookup_insert_eq. by eexists.
Qed.

Lemma node_of_cpu_in_nodes h c : c ∈ hw_cpus h → cpu_node_id c ∈ nodes h.
Proof. intros. apply elem_of_nodes. eauto. Qed.

(** ** Every stage is total except CPU assignment on a node without CPUs *)
Definition no_cpu_in_node (h : HardwareGraph) (e : exn) : Prop :=
  e = runtime_error "node has no CPU in envelope" ∧ ∃ n, n ∈ nodes h ∧ cpus_in_node h n = [].

Definition tids_of (l : list ThreadDemand) : gset Z := list_to_set (td_tid <$> l).

Section stages.
Context (h : HardwareGraph) (threads : list ThreadDemand) (edges : list RelationEdge).
Context (o : SolveOptions).
Local Abbreviation E := (no_cpu_in_node h).
Local Abbreviation ord_threads := (ordered threads edges o).

(** Every thread of [ts] has a node, and every recorded node exists. *)
Definition node_ok (ts : gset Z) (st : NodeState) : Prop :=
  dom (sn_node st) = ts ∧ map_Forall (λ _ n, n ∈ nodes h) (sn_node st).

Lemma node_ok_insert ts st t n load count :
  node_ok ts st → n ∈ nodes h →
  node_ok ({[t]} ∪ ts) (mk_NodeState load count (<[t := n]> (sn_node st))).
Proof.
  intros [Hd Hn] Hin. split; cbn; [set_solver|]. by apply map_Forall_insert_2.
Qed.

Lemma node_latency_total from to :
  from ∈ nodes h → to ∈ nodes h → yields E (λ _, True) (node_latency h from to).
Proof.
  intros Hf Ht. destruct (node_latency_cached h from to Hf Ht) as [v Hv].
  by eapply yields_at_key.
Qed.

Lemma node_relation_total ts st t node :
  node_ok ts st → node ∈ nodes h → yields E (λ _, True) (node_relation h edges st t node).
Proof.
  intros [_ Hn] Hin. apply yields_foldlM_inv; [done|]. intros e r _ _.
  destruct (sn_node st !! _) as [n|] eqn:Hl; [|done].
  eapply yields_bind; [apply node_latency_total; [done|by eapply Hn]|]. done.
Qed.

Lemma seed_step_ok ts front st t :
  node_ok ts st → front ∈ nodes h →
  yields E (node_ok ({[td_tid t]} ∪ ts)) (seed_step h threads edges o front st t).
Proof.
  intros Hst Hf. unfold seed_step. eapply yields_bind.
  - apply yields_argmin. intros n Hn. unfold seed_cost.
    eapply yields_bind; [by eapply node_relation_total|]. done.
  - intros best Hb. apply node_ok_insert; [done|]. set_solver.
Qed.

Lemma seed_nodes_ok front :
  front ∈ nodes h →
  yields E (node_ok (tids_of ord_threads)) (seed_nodes h threads edges o front).
Proof.
  intros Hf. apply (yields_foldlM _ (λ pre, node_ok (tids_of pre))).
  - split; [set_solver|apply map_Forall_empty].
  - intros pre t rest st _ Hst. eapply yields_mono; [by apply seed_step_ok|].
    intros st' [Hd Hn]. split; [|done]. rewrite Hd. unfold tids_of. set_solver.
Qed.

Lemma fm_cost_total ts st t original candidate :
  node_ok ts st → candidate ∈ nodes h →
  yields E (λ _, True) (fm_cost h threads edges o st t original candidate).
Proof.
  intros Hst Hc. unfold fm_cost. eapply yields_bind; [by eapply node_relation_total|].
  intros r _. eapply yields_bind with (P := λ _, True); [|done].
  apply yields_foldlM_inv; [done|]. intros c m Hin _.
  destruct (_ =? _); [|done].
  eapply yields_bind; [apply node_latency_total; [by apply node_of_cpu_in_nodes|done]|]. done.
Qed.

Lemma fm_step_ok ts st b t :
  node_ok ts st → td_tid t ∈ ts →
  yields E (λ r, node_ok ts r.1) (fm_step h threads edges o (st, b) t).
Proof.
  intros Hst Ht. unfold fm_step.
  assert (get_or 0 (sn_node st) (td_tid t) ∈ nodes h) as Horig.
  { destruct Hst as [Hd Hn]. rewrite <-Hd in Ht. apply elem_of_dom in Ht as [n Hl].
    unfold get_or. rewrite Hl. by eapply Hn. }
  eapply yields_bind; [by eapply fm_cost_total|]. intros start _.
  eapply yields_bind; [apply yields_argmin; intros; by eapply fm_cost_total|].
  intros best Hb. cbn. destruct (best =? _); cbn; [done|].
  replace ts with ({[td_tid t]} ∪ ts) by set_solver. apply node_ok_insert; [done|]. set_solver.
Qed.

(** Every thread of [ts] has a CPU, and every recorded CPU is online. *)
Definition cpu_ok (ts : gset Z) (st : CpuState) : Prop :=
  dom (sc_cpu st) = ts ∧ map_Forall (λ _ c, ∃ n, c ∈ cpus_in_node h n) (sc_cpu st).

Lemma cpu_ok_insert ts st t c n load count group :
  cpu_ok ts st → c ∈ cpus_in_node h n →
  cpu_ok ({[t]} ∪ ts) (mk_CpuState load count group (<[t := c]> (sc_cpu st))).
Proof.
  intros [Hd Hn] Hin. split; cbn; [set_solver|]. apply map_Forall_insert_2; eauto.
Qed.

(** [cpu_count] is exact. *)
Definition occupancy (p : gmap Z Z) (c : Z) : Z :=
  Z.of_nat (size (filter (λ kv : Z * Z, kv.2 = c) p)).
Definition counts_exact (st : CpuState) : Prop :=
  ∀ c, get_or 0 (sc_count st) c = occupancy (sc_cpu st) c.
End stages.

Section occupancy.
Implicit Types p : gmap Z Z.

Lemma occupancy_insert p t c c' :
  occupancy (<[t := c]> p) c' =
  occupancy p c' - (if decide (p !! t = Some c') then 1 else 0)
  + (if decide (c = c') then 1 else 0).
Proof.
  unfold occupancy.
  destruct (decide (c = c')) as [->|Hne].
  - rewrite map_filter_insert_True by done.
    destruct (decide (p !! t = Some c')) as [Hl|Hl].
    + rewrite map_size_insert_Some; [lia|]. eexists. by apply map_lookup_filter_Some_2.
    + rewrite map_size_insert_None; [lia|]. apply map_lookup_filter_None. right.
      intros x Hx. cbn. congruence.
  - rewrite map_filter_insert_False by done.
    destruct (decide (p !! t = Some c')) as [Hl|Hl].
    + rewrite map_filter_delete, map_size_delete_Some; [|eexists; by apply map_lookup_filter_Some_2].
      assert (size (filter (λ kv : Z * Z, kv.2 = c') p) ≠ 0%nat); [|lia].
      apply map_size_non_empty_iff. intros He.
      assert (filter (λ kv : Z * Z, kv.2 = c') p !! t = Some c') as Hf
        by by apply map_lookup_filter_Some_2.
      by rewrite He, lookup_empty in Hf.
    + rewrite map_filter_delete, delete_id; [lia|].
      apply map_lookup_filter_None. right. intros x Hx. cbn. congruence.
Qed.
End occupancy.

Section placement.
Context (h : HardwareGraph) (threads : list ThreadDemand) (edges : list RelationEdge).
Context (o : SolveOptions).
Local Abbreviation E := (no_cpu_in_node h).
Local Abbreviation ord_threads := (ordered threads edges o).
Local Abbreviation all_tids := (tids_of threads).

Lemma ordered_tids : td_tid <$> ord_threads ≡ₚ td_tid <$> threads.
Proof.
  unfold ordered. rewrite std_sort_perm, <-list_fmap_compose.
  erewrite list_fmap_ext; [done|]. intros _ t _. cbn. unfold floor_demand. by case_match.
Qed.

Lemma ordered_tids_of : tids_of ord_threads = all_tids.
Proof. unfold tids_of. apply set_eq. intros t. by rewrite !elem_of_list_to_set, ordered_tids. Qed.

Lemma tid_of_ordered t : t ∈ ord_threads → td_tid t ∈ all_tids.
Proof. intros Ht. rewrite <-ordered_tids_of. apply elem_of_list_to_set, list_elem_of_fmap. eauto. Qed.

(** The state of the CPU stages: complete up to [ts], and with exact counters
    when no TID is listed twice. *)
Definition cpu_inv (ts : gset Z) (st : CpuState) : Prop :=
  cpu_ok h ts st ∧ (NoDup (td_tid <$> threads) → counts_exact st).

Lemma assign_step_ok ns pre t rest st :
  ord_threads = pre ++ t :: rest → node_ok h all_tids ns → cpu_inv (tids_of pre) st →
  yields E (cpu_inv (tids_of (pre ++ [t]))) (assign_step h threads edges o ns st t).
Proof.
  intros Hord [Hd Hn] [Hok Hcnt]. unfold assign_step.
  assert (td_tid t ∈ dom (sn_node ns)) as [n Hl]%elem_of_dom.
  { rewrite Hd. apply tid_of_ordered. rewrite Hord. set_solver. }
  assert (get_or 0 (sn_node ns) (td_tid t) = n) as -> by (unfold get_or; by rewrite Hl).
  pose proof (Hn _ _ Hl) as Hin. cbn in Hin.
  destruct (cpus_in_node h n) as [|front cpus] eqn:Hc; [by split; [|exists n]|].
  eapply yields_bind; [by apply yields_argmin|]. intros best Hb.
  assert (best ∈ cpus_in_node h n) as Hbest by (rewrite Hc; set_solver). split.
  - replace (tids_of (pre ++ [t])) with ({[td_tid t]} ∪ tids_of pre)
      by (unfold tids_of; set_solver). by eapply cpu_ok_insert.
  - intros Hnd c. cbn. rewrite get_or_bump, occupancy_insert, (Hcnt Hnd c).
    rewrite (decide_False (P := sc_cpu st !! _ = _)); [repeat case_decide; congruence || lia|].
    intros Hl'. assert (td_tid t ∈ tids_of pre) as Hin'.
    { destruct Hok as [<- _]. by apply elem_of_dom_2 in Hl'. }
    rewrite <-ordered_tids, Hord, fmap_app in Hnd. apply NoDup_app in Hnd as (_ & Hnd & _).
    apply elem_of_list_to_set in Hin'. apply (Hnd _ Hin'). cbn. by left.
Qed.

Lemma assign_cpus_ok ns :
  node_ok h all_tids ns → yields E (cpu_inv all_tids) (assign_cpus h threads edges o ns).
Proof.
  intros Hns. rewrite <-ordered_tids_of.
  apply (yields_foldlM _ (λ pre, cpu_inv (tids_of pre))).
  - split; [split; [set_solver|apply map_Forall_empty]|]. intros _ c. done.
  - intros pre t rest st Hord Hst. by eapply assign_step_ok.
Qed.

(** Moving one thread between two CPUs keeps the counters exact. *)
Lemma counts_exact_move st t original best load group :
  counts_exact st → sc_cpu st !! t = Some original → best ≠ original →
  counts_exact (mk_CpuState load (bump best (unbump original (sc_count st))) group
    (<[t := best]> (sc_cpu st))).
Proof.
  intros Hc Hl Hne c. cbn. rewrite get_or_bump, get_or_unbump, occupancy_insert, (Hc c).
  repeat case_decide; congruence || lia.
Qed.

Lemma lpt_step_ok ns st b t :
  node_ok h all_tids ns → cpu_inv all_tids st → td_tid t ∈ all_tids →
  yields E (λ r, cpu_inv all_tids r.1) (lpt_step h threads edges o ns (st, b) t).
Proof.
  intros [Hd _] [Hok Hcnt] Ht. unfold lpt_step.
  assert (∃ c, sc_cpu st !! td_tid t = Some c) as [original Hl].
  { destruct Hok as [Hdc _]. apply elem_of_dom. by rewrite Hdc. }
  assert (∃ n, sn_node ns !! td_tid t = Some n) as [n Hln]
    by (apply elem_of_dom; by rewrite Hd).
  unfold at_key. rewrite Hl, Hln. cbn [mbind result_bind].
  eapply yields_bind; [by apply yields_argmin|]. intros best Hb. cbn.
  destruct (best =? original) eqn:Hbo; bool_hyps; cbn; [by split|]. split.
  - replace all_tids with ({[td_tid t]} ∪ all_tids) by set_solver.
    eapply (cpu_ok_insert _ _ _ _ _ n); [done|set_solver].
  - intros Hnd. by apply counts_exact_move; [apply Hcnt| |].
Qed.

Lemma unbounded_placement_ok front :
  front ∈ nodes h →
  yields E (cpu_inv all_tids) (unbounded_placement h threads edges o front).
Proof.
  intros Hf. unfold unbounded_placement.
  eapply yields_bind; [by apply seed_nodes_ok|]. rewrite ordered_tids_of. intros ns Hns.
  eapply yields_bind.
  { eapply (yields_sweeps _ _ _ _ (node_ok h all_tids)); [done|]. intros t s b Ht Hs.
    by apply fm_step_ok; [|apply tid_of_ordered]. }
  intros ns' Hns'. eapply yields_bind; [by apply assign_cpus_ok|]. intros cs Hcs.
  destruct (legacy o); [done|]. apply yields_sweeps; [done|]. intros t s b Ht Hs.
  by apply lpt_step_ok; [| |apply tid_of_ordered].
Qed.

(** ** Giving migrations back *)
Lemma revert_excess_foldl ms st :
  revert_excess h threads o ms st =
  foldl (revert h threads o) st
    (take (length ms - Z.to_nat (migration_budget threads o)) ms).
Proof.
  revert st. induction ms as [|t ms IH]; intros st; [done|]. cbn [revert_excess].
  destruct (_ <? _) eqn:Hlt; bool_hyps; unfold Zsize in *; cbn [length] in *.
  - rewrite IH. replace (S (length ms) - Z.to_nat (migration_budget threads o))%nat
      with (S (length ms - Z.to_nat (migration_budget threads o))) by lia. done.
  - replace (S (length ms) - Z.to_nat (migration_budget threads o))%nat with 0%nat by lia. done.
Qed.

(** The CPU [revert] leaves a thread on: its own, or the one it had. *)
Lemma revert_cpu st t u :
  sc_cpu (revert h threads o st t) !! u =
  if decide (u = td_tid t) then
    if current_eligible h t && slot_available h threads o st t
    then Some (td_current_cpu t) else sc_cpu st !! u
  else sc_cpu st !! u.
Proof.
  unfold revert. case_decide as Hu; subst.
  - destruct (_ && _); cbn; [by rewrite lookup_insert_eq|done].
  - destruct (_ && _); cbn; [by rewrite lookup_insert_ne|done].
Qed.
End placement.

Section reverting.
Context (h : HardwareGraph) (threads : list ThreadDemand) (edges : list RelationEdge).
Context (o : SolveOptions).
Local Abbreviation revert := (revert h threads o).
Local Abbreviation k ms := (length ms - Z.to_nat (migration_budget threads o))%nat.

Lemma elem_of_migrations t p :
  t ∈ migrations threads o p ↔ t ∈ threads ∧ is_active o t = true ∧ migrates p t = true.
Proof.
  unfold migrations. rewrite elem_of_std_sort, list_elem_of_filter, andb_true_iff. naive_solver.
Qed.

(** A CPU a placement may use for thread [t]: an online one, or the one [t] was
    found on, when the hardware lists it. *)
Definition usable_cpu (t c : Z) : Prop :=
  ∃ cpu, cpu ∈ hw_cpus h ∧ cpu_id cpu = c ∧
    (cpu_online cpu = true ∨ ∃ u, u ∈ threads ∧ td_tid u = t ∧ td_current_cpu u = c).

Lemma reverts_usable l st :
  l ⊆ threads → cpu_ok h (tids_of threads) st →
  let p := sc_cpu (foldl revert st l) in
  dom p = tids_of threads ∧ map_Forall usable_cpu p.
Proof.
  intros Hl [Hd Hon]. cbn zeta.
  apply (foldl_invariant revert (λ s, dom (sc_cpu s) = tids_of threads ∧
    map_Forall usable_cpu (sc_cpu s))).
  - split; [done|]. intros t c Hc. destruct (Hon t c Hc) as (n & Hin).
    apply elem_of_cpus_in_node in Hin as (cpu & ? & _ & ? & ?). exists cpu. auto.
  - intros s t Ht [Hd' Hu].
    assert (t ∈ threads) as Hin by set_solver. split.
    + assert (td_tid t ∈ tids_of threads) by (apply elem_of_list_to_set, list_elem_of_fmap; eauto).
      unfold SnapshotSolver.revert. destruct (_ && _); cbn; [set_solver|done].
    + intros u c. rewrite revert_cpu. case_decide as Hu'; subst; [|apply Hu].
      destruct (current_eligible h t && _) eqn:He; [|apply Hu]. bool_hyps. intros [= <-].
      unfold current_eligible in *. apply existsb_elem_of in H as (cpu & Hcpu & Hid). bool_hyps.
      exists cpu. split_and!; eauto.
Qed.

(** Without slot limits, a thread whose CPU is in the hardware goes back to it,
    and no other thread moves. *)
Lemma reverts_exact l st :
  NoDup (td_tid <$> l) → slot_constraints o = false →
  (∀ t, t ∈ l → current_eligible h t = true) →
  (∀ t, t ∈ l → sc_cpu (foldl revert st l) !! td_tid t = Some (td_current_cpu t)) ∧
  (∀ u, u ∉ td_tid <$> l → sc_cpu (foldl revert st l) !! u = sc_cpu st !! u).
Proof.
  intros Hnd Hslot. revert st. induction l as [|t l IH]; intros st He; [set_solver|].
  cbn in Hnd. apply NoDup_cons in Hnd as [Ht Hnd].
  destruct (IH Hnd (revert st t)) as [IH1 IH2]; [set_solver|]. cbn [foldl]. split.
  - intros u [->|Hu]%elem_of_cons; [|by apply IH1]. rewrite (IH2 _ Ht), revert_cpu.
    unfold slot_available. by rewrite decide_True, (He t), Hslot by set_solver.
  - intros u Hu. rewrite IH2 by set_solver. rewrite revert_cpu, decide_False by set_solver. done.
Qed.

(** The counters stay exact while migrations are given back, and no CPU is
    filled beyond the slot limit. *)
Lemma reverts_slots l st :
  slot_constraints o = true → l ⊆ threads →
  dom (sc_cpu st) = tids_of threads → counts_exact st →
  ∀ c, occupancy (sc_cpu (foldl revert st l)) c ≤
       Z.max (cpu_cap h threads o) (occupancy (sc_cpu st) c).
Proof.
  intros Hslot Hl Hd Hcnt.
  apply (foldl_invariant revert (λ s, dom (sc_cpu s) = tids_of threads ∧ counts_exact s ∧
    ∀ c, occupancy (sc_cpu s) c ≤ Z.max (cpu_cap h threads o) (occupancy (sc_cpu st) c)));
    [split_and!; try done; intros; lia|].
  intros s t Ht (Hd' & Hc' & Hle).
  assert (td_tid t ∈ tids_of threads) as Hin
    by (apply elem_of_list_to_set, list_elem_of_fmap; set_solver).
  assert (∃ a, sc_cpu s !! td_tid t = Some a) as [a Ha] by (apply elem_of_dom; by rewrite Hd').
  assert (get_or 0 (sc_cpu s) (td_tid t) = a) as Hga by (unfold get_or; by rewrite Ha).
  unfold SnapshotSolver.revert, slot_available. rewrite Hga, Hslot.
  assert (legacy o = false) as -> by (unfold slot_constraints in Hslot; by bool_hyps).
  destruct (current_eligible h t && _) eqn:He; [|done].
  destruct (a =? td_current_cpu t) eqn:Ea; cbn; bool_hyps.
  - rewrite Ea in Ha. rewrite insert_id by done. by split_and!.
  - destruct H0 as [Hfree|]; [cbn in Hfree; bool_hyps|done].
    pose proof (counts_exact_move s (td_tid t) a (td_current_cpu t) (sc_load s) (sc_group s)
      Hc' Ha ltac:(done)) as Hmove.
    split_and!; [set_solver|done|]. intros c. specialize (Hle c). rewrite occupancy_insert.
    pose proof (Hc' (td_current_cpu t)). repeat case_decide; subst; lia.
Qed.
End reverting.

Section theorems.
Context (h : HardwareGraph) (threads : list ThreadDemand) (edges : list RelationEdge).
Context (o : SolveOptions).
Local Abbreviation excess cs :=
  (take (length (migrations threads o (sc_cpu cs)) - Z.to_nat (migration_budget threads o))
    (migrations threads o (sc_cpu cs))).
Local Abbreviation kept cs :=
  (drop (length (migrations threads o (sc_cpu cs)) - Z.to_nat (migration_budget threads o))
    (migrations threads o (sc_cpu cs))).
Local Abbreviation final cs := (sc_cpu (foldl (revert h threads o) cs (excess cs))).

Lemma solve_unfold front cs p :
  head (nodes h) = Some front → unbounded_placement h threads edges o front = Ok cs →
  solve h threads edges o = Ok p → threads ≠ [] → pl_tid_to_cpu p = final cs.
Proof.
  unfold solve. destruct threads as [|t ts] eqn:Ht; [done|]. rewrite <-Ht.
  destruct (nodes h) as [|n ns]; [done|]. intros [= ->] -> [= <-] _.
  unfold price. cbn. case_match. cbn. by rewrite revert_excess_foldl.
Qed.

Lemma excess_subset cs : excess cs ⊆ threads.
Proof. intros t Ht%subseteq_take. by apply elem_of_migrations in Ht as []. Qed.

Lemma NoDup_migrations cs :
  NoDup (td_tid <$> threads) → NoDup (td_tid <$> migrations threads o cs).
Proof.
  intros Hnd. unfold migrations. rewrite std_sort_perm.
  induction threads as [|t ts IH]; [done|]. rewrite fmap_cons in Hnd.
  apply NoDup_cons in Hnd as [Ht Hnd].
  rewrite filter_cons. case_decide; [|by apply IH]. rewrite fmap_cons. apply NoDup_cons. split; [|by apply IH].
  intros (u & Hu & Hin)%list_elem_of_fmap. apply list_elem_of_filter in Hin as [_ Hin].
  apply Ht. rewrite Hu. apply list_elem_of_fmap. eauto.
Qed.

Lemma solve_places :
  match solve h threads edges o with
  | Ok p => dom (pl_tid_to_cpu p) = tids_of threads ∧
            map_Forall (usable_cpu h threads) (pl_tid_to_cpu p)
  | Throw e => threads ≠ [] ∧
      (hw_cpus h = [] ∧ e = runtime_error "empty hardware graph" ∨ no_cpu_in_node h e)
  end.
Proof.
  unfold solve. destruct threads as [|t ts] eqn:Ht; [by cbn|]. rewrite <-Ht.
  destruct (nodes h) as [|front ns] eqn:Hn.
  - split; [by rewrite Ht|]. left. split; [|done]. destruct (hw_cpus h) as [|c cs] eqn:Hc; [done|].
    assert (cpu_node_id c ∈ nodes h) as Hin; [|rewrite Hn in Hin; set_solver].
    apply node_of_cpu_in_nodes. rewrite Hc. set_solver.
  - pose proof (unbounded_placement_ok h threads edges o front) as Hu. rewrite Hn in Hu.
    specialize (Hu ltac:(set_solver)).
    destruct (unbounded_placement _ _ _ _ _) as [cs|e]; cbn in *; [|split; [by rewrite Ht|by right]].
    destruct Hu as [Hu _].
    pose proof (reverts_usable h threads o _ cs (excess_subset cs) Hu) as H.
    unfold price. case_match. cbn. by rewrite revert_excess_foldl.
Qed.

(** C19: [Solver::solve] places every thread of the window and nothing else, each
    on an online CPU of the hardware or on the listed CPU it was found on.  It
    throws only for a non-empty window on a hardware graph without CPUs, or on
    one with a node none of whose CPUs is online; [map::at] never fails. *)
Theorem solve_outcome :
  match solve h threads edges o with
  | Ok p => dom (pl_tid_to_cpu p) = tids_of threads ∧
            map_Forall (usable_cpu h threads) (pl_tid_to_cpu p)
  | Throw e => threads ≠ [] ∧
      (hw_cpus h = [] ∧ e = runtime_error "empty hardware graph" ∨ no_cpu_in_node h e)
  end.
Proof. exact solve_places. Qed.

(** The threads that still move are among the most demanding migrations. *)
Lemma still_moving cs t :
  NoDup (td_tid <$> threads) → slot_constraints o = false →
  (∀ t, t ∈ threads → is_active o t = true → current_eligible h t = true) →
  t ∈ threads → is_active o t = true → migrates (sc_cpu cs) t = true →
  t ∈ kept cs ∧ migrates (final cs) t = true ∨ t ∈ excess cs ∧ migrates (final cs) t = false.
Proof.
  intros Hnd Hslot Hel Ht Ha Hm.
  assert (t ∈ migrations threads o (sc_cpu cs)) as Hin by by apply elem_of_migrations.
  pose proof (NoDup_migrations (sc_cpu cs) Hnd) as Hndm.
  set (ms := migrations threads o (sc_cpu cs)) in *.
  set (k := (length ms - Z.to_nat (migration_budget threads o))%nat) in *.
  rewrite <-(take_drop k ms), fmap_app in Hndm. apply NoDup_app in Hndm as (Hndt & Hdisj & _).
  destruct (reverts_exact h threads o (take k ms) cs Hndt Hslot) as [Hback Hkeep].
  { intros u Hu%subseteq_take. apply elem_of_migrations in Hu as (? & ? & ?). by apply Hel. }
  rewrite <-(take_drop k ms), elem_of_app in Hin. unfold migrates, get_or in *.
  destruct Hin as [Hin|Hin]; [right|left]; (split; [done|]).
  - rewrite (Hback t Hin). by rewrite Z.eqb_refl.
  - rewrite Hkeep; [done|]. intros Hc. apply (Hdisj _ Hc). apply list_elem_of_fmap. eauto.
Qed.

(** Giving migrations back moves no thread away from its CPU. *)
Lemma moves_only_back cs t :
  NoDup (td_tid <$> threads) → slot_constraints o = false →
  (∀ t, t ∈ threads → is_active o t = true → current_eligible h t = true) →
  t ∈ threads → is_active o t = true → migrates (final cs) t = true →
  migrates (sc_cpu cs) t = true.
Proof.
  intros Hnd Hslot Hel Ht Ha Hm.
  pose proof (NoDup_migrations (sc_cpu cs) Hnd) as Hndm.
  set (ms := migrations threads o (sc_cpu cs)) in *.
  set (k := (length ms - Z.to_nat (migration_budget threads o))%nat) in *.
  rewrite <-(take_drop k ms), fmap_app in Hndm. apply NoDup_app in Hndm as (Hndt & _ & _).
  destruct (reverts_exact h threads o (take k ms) cs Hndt Hslot) as [Hback Hkeep].
  { intros u Hu%subseteq_take. apply elem_of_migrations in Hu as (? & ? & ?). by apply Hel. }
  unfold migrates, get_or in *.
  destruct (decide (td_tid t ∈ td_tid <$> take k ms)) as [(u & Heq & Hu)%list_elem_of_fmap|Hno].
  - assert (t = u) as <-.
    { apply (NoDup_key_inj td_tid threads); try done. by apply (excess_subset cs). }
    rewrite (Hback t Hu) in Hm. by rewrite Z.eqb_refl in Hm.
  - by rewrite (Hkeep _ Hno) in Hm.
Qed.

Lemma length_kept cs : Zsize (kept cs) ≤ Z.max 0 (migration_budget threads o).
Proof. unfold Zsize. rewrite length_drop. lia. Qed.

Lemma migrations_sorted p :
  (∀ t, t ∈ threads → not_nan (td_demand t)) →
  StronglySorted (λ a b, (td_demand b <? td_demand a)%D = false) (migrations threads o p).
Proof.
  intros Hnan. apply (std_sort_sorted _ (λ t, not_nan (td_demand t))).
  - intros x y _ _. apply dltb_asym.
  - intros x y z ???. by apply dltb_negtrans.
  - apply Forall_forall. intros t [_ Ht]%list_elem_of_filter. auto.
Qed.

(** C20: with no slot limit, distinct thread identifiers, demands that are
    numbers (not NaN) and every active thread found on a CPU of the hardware, the
    number of active threads [Solver::solve] moves is at most
    [floor(active * ratio)], and giving migrations back only ever sacrifices
    the cheapest ones: no thread that still moves demands less than one that
    was sent back. *)
Theorem solve_migration_budget front cs p :
  head (nodes h) = Some front → unbounded_placement h threads edges o front = Ok cs →
  solve h threads edges o = Ok p →
  NoDup (td_tid <$> threads) → slot_constraints o = false →
  (∀ t, t ∈ threads → not_nan (td_demand t)) →
  (∀ t, t ∈ threads → is_active o t = true → current_eligible h t = true) →
  Zsize (filter (λ t, is_active o t && migrates (pl_tid_to_cpu p) t = true) threads)
    ≤ Z.max 0 (migration_budget threads o) ∧
  (∀ t u, t ∈ threads → u ∈ threads → is_active o t = true → is_active o u = true →
     migrates (pl_tid_to_cpu p) t = true →
     migrates (sc_cpu cs) u = true → migrates (pl_tid_to_cpu p) u = false →
     (td_demand t <? td_demand u)%D = false).
Proof.
  intros Hf Hcs Hp Hnd Hslot Hnan Hel.
  destruct (decide (threads = [])) as [Hnil|Hne].
  { rewrite Hnil. split; [apply Z.le_max_l|set_solver]. }
  rewrite (solve_unfold front cs p) by done. split.
  - etrans; [|apply (length_kept cs)]. apply Nat2Z.inj_le, submseteq_length, NoDup_submseteq.
    { apply NoDup_filter. by eapply NoDup_fmap_1. }
    intros t [Hm Ht]%list_elem_of_filter. bool_hyps.
    destruct (still_moving cs t) as [[]|[]]; try done; [by apply moves_only_back|congruence].
  - intros t u Ht Hu Ha Hau Hm Hmu Hmu'.
    destruct (still_moving cs t) as [[Hk _]|[]]; try done; [by apply moves_only_back| |congruence].
    destruct (still_moving cs u) as [[]|[He _]]; try done; [congruence|].
    by eapply (sorted_take_drop _ _ _ u t (migrations_sorted (sc_cpu cs) Hnan)).
Qed.

(** under a slot limit, giving migrations back never fills a CPU beyond the
    limit: after [Solver::solve] a CPU holds at most [cpu_cap] threads, or no
    more than the CPU stages had put there. *)
Theorem reverts_keep_slots front cs p c :
  head (nodes h) = Some front → unbounded_placement h threads edges o front = Ok cs →
  solve h threads edges o = Ok p →
  NoDup (td_tid <$> threads) → slot_constraints o = true →
  occupancy (pl_tid_to_cpu p) c ≤ Z.max (cpu_cap h threads o) (occupancy (sc_cpu cs) c).
Proof.
  intros Hf Hcs Hp Hnd Hslot.
  assert (front ∈ nodes h) as Hin by (destruct (nodes h); simplify_eq/=; by left).
  pose proof (unbounded_placement_ok h threads edges o front Hin) as H. rewrite Hcs in H.
  destruct H as [[Hd _] Hcnt].
  destruct (decide (threads = [])) as [Hnil|Hne].
  { unfold solve in Hp. rewrite Hnil in Hp. injection Hp as <-. cbn.
    unfold occupancy. rewrite map_filter_empty, map_size_empty. lia. }
  rewrite (solve_unfold front cs p) by done.
  apply reverts_slots; auto using excess_subset.
Qed.
End theorems.

(** ** Witnesses *)
Definition demo_solve_options (strategy : string) (slots : Z) : SolveOptions :=
  mk_SolveOptions (dlit 1 4) (dlit 5 100) strategy d0 slots 2 d0 d0 d0 d0 false 4 2.
Definition demo_pool_thread (t : Z) (demand : double) (cpu : Z) : ThreadDemand :=
  mk_ThreadDemand (mk_ThreadIdentity 1 t t) "pool" demand d1 cpu.
Definition demo_pair : HardwareGraph :=
  mk_HardwareGraph [mk_Cpu 0 0 true; mk_Cpu 1 0 true] ∅ ∅ ∅.

(** Four busy threads crowded on CPU 0: one of the two migrations is given back. *)
Definition demo_crowd : list ThreadDemand :=
  [demo_pool_thread 1 (dlit 4 10) 0; demo_pool_thread 2 (dlit 3 10) 0;
   demo_pool_thread 3 (dlit 2 10) 0; demo_pool_thread 4 (dlit 1 10) 0].
(** One busy thread and three light ones. *)
Definition demo_light : list ThreadDemand :=
  [demo_pool_thread 1 (dlit 9 10) 0; demo_pool_thread 2 (dlit 1 100) 1;
   demo_pool_thread 3 (dlit 1 100) 1; demo_pool_thread 4 (dlit 1 100) 0].

Definition ok_or {A} (d : A) (r : result A) : A := match r with Ok a => a | Throw _ => d end.
Definition demo_crowd_state : CpuState := Eval vm_compute in
  ok_or (mk_CpuState ∅ ∅ ∅ ∅)
    (unbounded_placement demo_pair demo_crowd [] (demo_solve_options "legacy-v1" (-1)) 0).
Definition demo_crowd_placement : Placement := Eval vm_compute in
  ok_or (mk_Placement ∅ d0 d0 d0 d0)
    (solve demo_pair demo_crowd [] (demo_solve_options "legacy-v1" (-1))).
Definition demo_light_state : CpuState := Eval vm_compute in
  ok_or (mk_CpuState ∅ ∅ ∅ ∅)
    (unbounded_placement demo_pair demo_light [] (demo_solve_options "slots" 2) 0).
Definition demo_light_placement : Placement := Eval vm_compute in
  ok_or (mk_Placement ∅ d0 d0 d0 d0)
    (solve demo_pair demo_light [] (demo_solve_options "slots" 2)).

Lemma solve_migration_budget_witness :
  Zsize (filter (λ t, is_active (demo_solve_options "legacy-v1" (-1)) t &&
                      migrates (pl_tid_to_cpu demo_crowd_placement) t = true) demo_crowd) ≤ 1.
Proof.
  refine (proj1 (solve_migration_budget demo_pair demo_crowd [] (demo_solve_options "legacy-v1" (-1))
    0 demo_crowd_state demo_crowd_placement _ _ _ _ _ _ _)).
  - vm_compute. reflexivity.
  - vm_compute. reflexivity.
  - vm_compute. reflexivity.
  - refine (bool_decide_eq_true_1 _ _). vm_compute. reflexivity.
  - vm_compute. reflexivity.
  - refine (proj1 (Forall_forall (λ t, not_nan (td_demand t)) _) _).
    repeat constructor; discriminate.
  - refine (proj1 (Forall_forall (λ t, _ → current_eligible demo_pair t = true) _) _).
    repeat constructor.
Defined.

Lemma reverts_keep_slots_witness :
  occupancy (pl_tid_to_cpu demo_light_placement) 1 ≤ Z.max 2 (occupancy (sc_cpu demo_light_state) 1).
Proof.
  refine (reverts_keep_slots demo_pair demo_light [] (demo_solve_options "slots" 2)
    0 demo_light_state demo_light_placement 1 _ _ _ _ _).
  - vm_compute. reflexivity.
  - vm_compute. reflexivity.
  - vm_compute. reflexivity.
  - refine (bool_decide_eq_true_1 _ _). vm_compute. reflexivity.
  - vm_compute. reflexivity.
Defined.

(** the slot limit of the snapshot solver is not enforced.  The limit is part
    of the third component of the cost of a CPU, behind the load: with two CPUs
    and a limit of two threads per CPU, one busy and three light threads have a
    placement within the limit, but [Solver::solve] puts the three light
    threads on one CPU. *)
Theorem slot_cap_not_enforced :
  slot_constraints (demo_solve_options "slots" 2) = true ∧
  cpu_cap demo_pair demo_light (demo_solve_options "slots" 2) = 2 ∧
  Zsize demo_light ≤ 2 * Zsize (hw_cpus demo_pair) ∧
  (λ p, occupancy (pl_tid_to_cpu p) 1) <$> solve demo_pair demo_light [] (demo_solve_options "slots" 2)
  = Ok 3.
Proof. vm_compute. split_and!; try done. Qed.
