(* ===== verification/PinningFacts.v ===== *)
(** * Slot accounting of the initial-pinning phase

    The projected counters are the populations that will remain once the batch
    is committed, and every booking goes to a CPU below the slot cap. *)
From Stdlib Require Import SpecFloat.
From S2P Require Import Prelude Binary64 Core CpuList Topology Hotspot Incremental NodePlan Pinning.
From S2P Require Import Optimizer IncrementalPropose IncrementalFacts.
Local Open Scope Z_scope.

Section pinning_facts.
Context (h : HardwareGraph) (cap : Z) (s : IncrementalSolver).
Local Abbreviation count st cpu := (get_or 0 (pj_count (pn_projection st)) cpu).

Lemma projected_placed cpu :
  get_or 0 (pj_count (foldl (project_placed s) (mk_Projection ∅ ∅) (items (i_placement s)))) cpu =
  population s cpu.
Proof.
  trans (Zsize (filter (λ e, is_Some (i_threads s !! e.1) ∧ e.2 = cpu) (items (i_placement s)))).
  - refine (foldl_invariant_prefix (project_placed s) (λ pre pj,
      get_or 0 (pj_count pj) cpu =
      Zsize (filter (λ e : Z * Z, is_Some (i_threads s !! e.1) ∧ e.2 = cpu) pre))
      (items (i_placement s)) (mk_Projection ∅ ∅) eq_refl _).
    intros pre [t c] rest pj _ IH. rewrite Zsize_filter_snoc, <-IH. cbn [project_placed fst snd].
    case_bool_decide as Hl; cbn [pj_count].
    + rewrite get_or_bump. repeat case_decide; naive_solver lia.
    + rewrite decide_False by tauto. lia.
  - unfold population. rewrite <-(length_fmap_Zsize fst). apply Zsize_perm.
    apply NoDup_Permutation.
    + eapply sublist_NoDup; [apply (NoDup_items_fst (i_placement s))|].
      apply fmap_sublist, sublist_filter.
    + apply NoDup_filter, NoDup_live_tids.
    + intros t. rewrite list_elem_of_fmap, list_elem_of_filter, elem_of_live_tids.
      setoid_rewrite list_elem_of_filter. split.
      * intros ([t' c] & -> & [Hl <-] & Hin%elem_of_items). done.
      * intros [Hp Hl]. exists (t, cpu). by rewrite elem_of_items.
Qed.

Lemma projected_vacated pending cpu :
  get_or 0 (pj_count (projection s pending)) cpu =
  population s cpu - Zsize (filter (λ t, i_placement s !! t = Some cpu) pending).
Proof.
  unfold projection. rewrite <-projected_placed.
  set (pj0 := foldl (project_placed s) _ _).
  refine (foldl_invariant_prefix (project_vacated s) (λ pre pj,
    get_or 0 (pj_count pj) cpu = get_or 0 (pj_count pj0) cpu -
    Zsize (filter (λ t, i_placement s !! t = Some cpu) pre)) pending pj0 _ _).
  { unfold Zsize. cbn. lia. }
  intros pre t rest pj _ IH. rewrite Zsize_filter_snoc. unfold project_vacated.
  destruct (i_placement s !! t) as [c|]; cbn [pj_count].
  - rewrite get_or_unbump, IH. repeat case_decide; naive_solver lia.
  - rewrite IH. rewrite decide_False by done. lia.
Qed.

(** One booking. *)
Lemma pin_step_spec st t st' :
  pin_step h cap s st t = Some st' →
  ∃ cpu, count st cpu < cap ∧ get_or 0 (pn_target_cpu st') t = cpu ∧
    (∀ u, u ≠ t → pn_target_cpu st' !! u = pn_target_cpu st !! u) ∧
    ∀ c, count st' c = count st c + (if decide (c = cpu) then 1 else 0).
Proof.
  unfold pin_step. cbv zeta. destruct (cap <=? _) eqn:E.
  - destruct (min_element _ _) as [cpu|] eqn:Em; [|done]. intros [= <-]. exists cpu.
    split_and!; [|cbn; unfold get_or; by rewrite lookup_insert_eq
      |intros u Hu; cbn; by rewrite lookup_insert_ne|intros c; apply get_or_bump].
    apply Z.leb_gt.
    refine (min_element_flag _ (λ c, cap <=? count st c) _ _ _ _ Em _).
    + intros a b Ha Hb. cbv beta in Ha, Hb. unfold pin_cpu_lt. cbv zeta. by rewrite Ha, Hb.
    + intros a b Ha Hb. cbv beta in Ha, Hb. unfold pin_cpu_lt. cbv zeta. by rewrite Ha, Hb.
    + unfold pin_candidates in *. cbv zeta in *. destruct (existsb _ _) eqn:Ex.
      * apply existsb_exists in Ex as (c & Hc%list_elem_of_In & Hlt).
        exists c. split; [done|]. bool_hyps. by apply Z.leb_gt.
      * exists cpu. apply min_element_elem in Em. split; [done|].
        apply list_elem_of_fmap in Em as (c & -> & [Hc _]%list_elem_of_filter).
        apply andb_true_iff in Hc as [_ Hc]. bool_hyps. by apply Z.leb_gt.
  - intros [= <-]. exists (get_or 0 (pn_target_cpu st) t). bool_hyps.
    split_and!; [lia|done|done|]. intros c. apply get_or_bump.
Qed.

Lemma pin_loop_spec pending st st' :
  NoDup pending → pin_loop h cap s st pending = (st', true) →
  (∀ u, u ∉ pending → pn_target_cpu st' !! u = pn_target_cpu st !! u) ∧
  (∀ c, count st' c =
     count st c + Zsize (filter (λ t, get_or 0 (pn_target_cpu st') t = c) pending)) ∧
  (∀ c, count st' c ≤ Z.max cap (count st c)).
Proof.
  revert st. induction pending as [|t rest IH]; intros st Hnd; cbn [pin_loop].
  { intros [= <-]. split_and!; [done|intros; unfold Zsize; cbn; lia|intros; lia]. }
  apply NoDup_cons in Hnd as [Hn Hnd]. destruct (pin_step _ _ _ st t) as [st1|] eqn:Es; [|done].
  intros Hl. destruct (IH st1 Hnd Hl) as (H1 & H2 & H3).
  destruct (pin_step_spec _ _ _ Es) as (cpu & Hlt & Ht & Hu & Hc). split_and!.
  - intros u Hin. rewrite H1 by set_solver. apply Hu. set_solver.
  - intros c. rewrite H2, Hc, Zsize_filter_cons.
    assert (get_or 0 (pn_target_cpu st') t = cpu) as -> by (unfold get_or in *; by rewrite H1).
    repeat case_decide; subst; done || lia.
  - intros c. specialize (H3 c). rewrite Hc in H3. case_decide; subst; lia.
Qed.

Lemma pending_batch_spec budget :
  NoDup (pending_batch h s budget) ∧ pending_batch h s budget ⊆ live_tids s ∧
  Zsize (pending_batch h s budget) ≤ Z.max 0 budget.
Proof.
  unfold pending_batch. set (l := filter _ _).
  assert (NoDup l) as Hnd by (apply NoDup_filter, NoDup_live_tids). split_and!.
  - eapply sublist_NoDup; [|apply sublist_take]. by apply NoDup_std_sort.
  - intros t Ht. apply subseteq_take, elem_of_std_sort, list_elem_of_filter in Ht. apply Ht.
  - unfold Zsize. rewrite length_take. lia.
Qed.
End pinning_facts.

(** What a ready proposal of this phase consists of. *)
Record pinned_batch (h : HardwareGraph) (cap : Z) (s : IncrementalSolver)
    (budget : Z) (s' : IncrementalSolver) (p : SolverProposal) : Prop := {
  pb_threads : i_threads s' = i_threads s;
  pb_placement : i_placement s' = i_placement s;
  pb_pinned : i_pinned s' = i_pinned s;
  pb_generation : i_generation s' = i_generation s;
  pb_actions : ∃ st, pin_loop h cap s (mk_PinState (projection s (pending_batch h s budget))
      (i_initial_target_cpu s) (i_initial_target_node s)) (pending_batch h s budget) = (st, true) ∧
    i_initial_target_cpu s' = pn_target_cpu st ∧
    sp_actions p = pin_action h s (pn_target_cpu st) <$> pending_batch h s budget ∧
    sp_delta p = pin_delta (pn_target_cpu st) (pending_batch h s budget);
}.

Lemma initial_pinning_ready h cap s base s' p :
  i_outstanding s = None → sp_ready base = false → sp_actions base = [] →
  sp_delta base = mk_PlacementDelta ∅ ∅ → initial_pinning h cap s base = (s', Ok p) →
  sp_phase p = InitialPinning ∧ sp_migration_budget p = sp_migration_budget base ∧
  sp_cpu_slot_cap p = sp_cpu_slot_cap base ∧ sp_id p = sp_id base ∧
  (if sp_ready p
   then pinned_batch h cap s (sp_migration_budget base) s' p ∧ i_outstanding s' = Some p ∧ sp_actions p ≠ []
   else sp_actions p = [] ∧ sp_delta p = mk_PlacementDelta ∅ ∅).
Proof.
  intros Ho Hr Ha Hd. unfold initial_pinning. destruct (_ =? 0).
  { intros [= <- <-]. cbn. rewrite Hr. split_and!; auto. }
  destruct (pin_loop _ _ _ _ _) as [st []] eqn:El; cbn [negb]; [|done].
  unfold publish. intros [= <- <-]. cbn [sp_ready pin_proposal].
  case_bool_decide as Hnil; cbn [negb].
  - unfold pin_proposal. cbn. rewrite Hnil. split_and!; auto.
  - split_and!; try done; [constructor; try done; by exists st|].
    cbn. intros Hc%fmap_nil_inv. done.
Qed.
