(* ===== verification/OptimizerFacts.v ===== *)
(** * Facts on the optimizing phase

    Which actions a potential may contain, what the admission loop keeps, and
    how the projected counters relate to the committed placement. *)
From Stdlib Require Import SpecFloat Ascii.
From S2P Require Import Prelude Binary64 Core CpuList Topology Hotspot Incremental NodePlan Pinning.
From S2P Require Import Optimizer IncrementalPropose IncrementalFacts.
Local Open Scope Z_scope.

Section optimizer_facts.
Context (h : HardwareGraph) (o : IncrementalOptions) (cap : Z) (s : IncrementalSolver) (now_ns : Z).

(** A CPU a move may target: an online CPU of the envelope, or the CPU of
    another placed thread (swap). *)
Definition valid_target (cpu : Z) : Prop :=
  (∃ c, c ∈ hw_cpus h ∧ cpu_online c = true ∧ cpu_id c = cpu) ∨
  (∃ t, is_Some (i_threads s !! t) ∧ i_placement s !! t = Some cpu).

Record good_action (a : PlacementAction) (t : Z) : Prop := {
  ga_live : is_Some (i_threads s !! t);
  ga_from : i_placement s !! t = Some (pa_from_cpu a);
  ga_identity : pa_identity a = identity_of s t;
  ga_moves : pa_from_cpu a ≠ pa_target_cpu a;
  ga_target : valid_target (pa_target_cpu a);
  ga_rested : pa_emergency a = false → cooling o s now_ns t = false;
}.

(** The threads of a potential's actions. *)
Record good_potential (p : Potential) (ts : list Z) : Prop := {
  gp_actions : Forall2 good_action (po_actions p) ts;
  gp_nodup : NoDup ts;
  gp_key : po_key p = action_key (po_actions p);
  gp_emergency : Forall (λ a, pa_emergency a = po_emergency p) (po_actions p);
}.

(** ** Ranking *)
Lemma ranking_spec l dirty budget :
  NoDup (di_tid <$> ranking h o cap s l dirty budget) ∧
  Forall (λ d, is_Some (i_threads s !! di_tid d) ∧ is_Some (i_placement s !! di_tid d))
    (ranking h o cap s l dirty budget).
Proof.
  unfold ranking. set (base := filter _ _).
  assert (di_tid <$> (dissatisfaction h cap s l <$> base) = base) as Hid.
  { rewrite <-list_fmap_compose. etrans; [|apply list_fmap_id]. apply list_fmap_ext.
    intros i t _. unfold compose, dissatisfaction. by destruct (foldl _ (d0, dinf) _). }
  split.
  - eapply sublist_NoDup; [|apply fmap_sublist, sublist_take].
    rewrite (std_sort_perm (dissatisfied_first s)), Hid. apply NoDup_filter, NoDup_set_items.
  - apply Forall_forall. intros d Hd. apply subseteq_take, elem_of_std_sort in Hd.
    apply (list_elem_of_fmap_2 di_tid) in Hd. rewrite Hid in Hd. by apply list_elem_of_filter in Hd as [? _].
Qed.

(** ** Single moves *)
Lemma best_move_spec l t :
  let mv := best_move h o cap s now_ns l t in
  mv_cpu mv = placed_cpu s t ∨
  ((∃ c, c ∈ hw_cpus h ∧ cpu_online c = true ∧ cpu_id c = mv_cpu mv) ∧
   (mv_emergency mv = false → cooling o s now_ns t = false)).
Proof.
  cbv zeta. unfold best_move.
  apply (foldl_invariant _ (λ mv, mv_cpu mv = placed_cpu s t ∨
    ((∃ c, c ∈ hw_cpus h ∧ cpu_online c = true ∧ cpu_id c = mv_cpu mv) ∧
     (mv_emergency mv = false → cooling o s now_ns t = false)))); [by left|].
  intros mv c Hc Hmv. unfold move_candidate.
  destruct (negb (cpu_online c) || _) eqn:E1; [done|].
  apply orb_false_iff in E1 as [E1%negb_false_iff _]. cbv zeta.
  match goal with |- context [cooling o s now_ns t && negb ?e] => set (emergency := e) end.
  clearbody emergency. destruct (cooling o s now_ns t && negb emergency) eqn:E2; [done|].
  repeat match goal with |- context [if ?b then mv else _] => destruct b; [exact Hmv|] end.
  match goal with |- context [if ?b then _ else mv] => destruct b; [|exact Hmv] end.
  right. split; [by exists c|]. cbn. intros ->. by rewrite andb_true_r in E2.
Qed.

Definition potentials_ok (ps : list Potential) : Prop :=
  Forall (λ p, ∃ ts, good_potential p ts) ps.

Lemma single_move_ok l acc d :
  is_Some (i_threads s !! di_tid d) → is_Some (i_placement s !! di_tid d) →
  potentials_ok acc.1 → potentials_ok (single_move h o cap s now_ns l acc d).1.
Proof.
  intros Hl [c Hc] Hacc. unfold single_move. cbv zeta.
  destruct (negb (mv_cpu _ =? _)) eqn:E; [|done]. cbn [fst].
  apply Forall_app. split; [done|]. apply Forall_singleton. exists [di_tid d].
  apply negb_true_iff, Z.eqb_neq in E.
  destruct (best_move_spec l (di_tid d)) as [?|[Ht Hcool]]; [done|].
  assert (placed_cpu s (di_tid d) = c) as Hp by (unfold placed_cpu, get_or; by rewrite Hc).
  constructor; cbn; [|apply NoDup_singleton|done|by apply Forall_singleton].
  constructor; [|constructor]. constructor; cbn; try done.
  - by rewrite Hp.
  - by left.
Qed.

(** ** Pair swaps *)
Lemma try_pair_ok l a acc b :
  is_Some (i_threads s !! di_tid a) → is_Some (i_placement s !! di_tid a) →
  is_Some (i_threads s !! di_tid b) → is_Some (i_placement s !! di_tid b) → di_tid a ≠ di_tid b →
  potentials_ok acc.1 → potentials_ok (try_pair h o s now_ns l a acc b).1.
Proof.
  intros Hla [ca Hca] Hlb [cb Hcb] Hne Hacc. unfold try_pair. cbv zeta.
  assert (placed_cpu s (di_tid a) = ca) as Hpa by (unfold placed_cpu, get_or; by rewrite Hca).
  assert (placed_cpu s (di_tid b) = cb) as Hpb by (unfold placed_cpu, get_or; by rewrite Hcb).
  destruct (Z.eqb_spec (placed_cpu s (di_tid a)) (placed_cpu s (di_tid b))) as [|Hcpu]; [done|].
  destruct (cooling o s now_ns (di_tid a) || cooling o s now_ns (di_tid b)) eqn:Ec; [done|].
  apply orb_false_iff in Ec as [Eca Ecb].
  destruct (_ <? _)%D; [done|]. destruct (swap_fits _ _ _ _ _ _ _); [|done]. cbn [fst].
  apply Forall_app. split; [done|]. apply Forall_singleton. exists [di_tid a; di_tid b].
  constructor; cbn.
  - constructor; [|constructor; [|constructor]]; constructor; cbn; try done.
    + by rewrite Hpa.
    + right. exists (di_tid b). by rewrite Hpb.
    + by rewrite Hpb.
    + right. exists (di_tid a). by rewrite Hpa.
  - apply NoDup_cons. split; [|apply NoDup_singleton]. by rewrite list_elem_of_singleton.
  - done.
  - by repeat constructor.
Qed.

Lemma pair_swaps_ok l ranked acc :
  NoDup (di_tid <$> ranked) →
  Forall (λ d, is_Some (i_threads s !! di_tid d) ∧ is_Some (i_placement s !! di_tid d)) ranked →
  potentials_ok acc.1 → potentials_ok (pair_swaps h o s now_ns l ranked acc).1.
Proof.
  revert acc. induction ranked as [|a rest IH]; intros acc Hnd Hf Hacc; [done|]. cbn [pair_swaps].
  rewrite fmap_cons in Hnd. apply NoDup_cons in Hnd as [Hn Hnd].
  apply Forall_cons in Hf as [[Hl Hp] Hf]. cbv zeta. rewrite bool_decide_eq_true_2 by done.
  apply IH; [done|done|].
  apply (foldl_invariant _ (λ acc, potentials_ok acc.1)); [done|].
  intros acc' b Hb Hacc'. rewrite Forall_forall in Hf. destruct (Hf b Hb).
  apply try_pair_ok; try done. intros Heq. destruct Hn. rewrite Heq.
  by apply (list_elem_of_fmap_2 di_tid).
Qed.

Lemma potentials_all_ok l dirty budget :
  potentials_ok (potentials h o cap s now_ns l (ranking h o cap s l dirty budget)).1.
Proof.
  destruct (ranking_spec l dirty budget) as [Hnd Hf].
  set (ranked := ranking h o cap s l dirty budget) in *. clearbody ranked.
  unfold potentials.
  pose proof (pair_swaps_ok l ranked (foldl (single_move h o cap s now_ns l) ([], ∅) ranked) Hnd Hf) as H.
  destruct (pair_swaps _ _ _ _ _ _ _) as [ps skipped]. cbn [fst] in *.
  unfold potentials_ok. rewrite (std_sort_perm potential_ltb). apply H.
  apply (foldl_invariant _ (λ acc, potentials_ok acc.1)); [constructor|].
  intros acc d Hd Hacc. rewrite Forall_forall in Hf. destruct (Hf d Hd). by apply single_move_ok.
Qed.

(** ** Admission of potentials *)
Context (Hid : ∀ t, is_Some (i_threads s !! t) → tid (identity_of s t) = t).

Lemma good_action_tid a t : good_action a t → pa_tid a = t.
Proof. intros Ha. unfold pa_tid. rewrite (ga_identity _ _ Ha). apply Hid, Ha. Qed.

Lemma good_potential_tids p ts : good_potential p ts → pa_tid <$> po_actions p = ts.
Proof.
  intros [Ha _ _ _]. induction Ha as [|a t l ts Hat _ IH]; [done|].
  rewrite fmap_cons, IH. f_equal. by apply good_action_tid.
Qed.

(** Counters after applying a list of actions. *)
Lemma apply_actions_count actions l cpu :
  get_or 0 (ld_count (foldl (apply_action h s) l actions)) cpu =
  get_or 0 (ld_count l) cpu - Zsize (filter (λ a, pa_from_cpu a = cpu) actions) +
  Zsize (filter (λ a, pa_target_cpu a = cpu) actions).
Proof.
  revert l. induction actions as [|a actions IH]; intros l; cbn [foldl].
  { unfold Zsize. cbn. lia. }
  rewrite IH, !Zsize_filter_cons. unfold apply_action. cbn [ld_count].
  rewrite get_or_bump, get_or_unbump. repeat case_decide; congruence || lia.
Qed.

Lemma slot_violation_ext l l' :
  (∀ cpu, get_or 0 (ld_count l) cpu = get_or 0 (ld_count l') cpu) →
  slot_violation h cap l = slot_violation h cap l'.
Proof.
  intros Hc. unfold slot_violation. assert (∀ v, foldl (λ v c, v + Z.max 0 (get_or 0 (ld_count l) (cpu_id c) - cap)) v (hw_cpus h) =
    foldl (λ v c, v + Z.max 0 (get_or 0 (ld_count l') (cpu_id c) - cap)) v (hw_cpus h)) as H; [|apply H].
  induction (hw_cpus h) as [|c cpus IH]; intros v; [done|]. cbn [foldl]. rewrite Hc. apply IH.
Qed.

Record selected_ok (confirmations : gmap string Z) (budget : Z) (l : Loads) (ps : list Potential)
    (se : Selection) : Prop := {
  so_nodup : NoDup (pa_tid <$> se_actions se);
  so_selected : se_selected se = list_to_set (pa_tid <$> se_actions se);
  so_good : Forall (λ a, good_action a (pa_tid a)) (se_actions se);
  so_budget : Zsize (se_actions se) ≤ Z.max 0 budget;
  so_slots : slot_violation h cap (se_loads se) ≤ slot_violation h cap l;
  so_counts : ∀ cpu, get_or 0 (ld_count (se_loads se)) cpu =
    get_or 0 (ld_count l) cpu - Zsize (filter (λ a, pa_from_cpu a = cpu) (se_actions se)) +
    Zsize (filter (λ a, pa_target_cpu a = cpu) (se_actions se));
  so_confirmed : Forall (λ a, pa_emergency a = true ∨ ∃ p, p ∈ ps ∧ a ∈ po_actions p ∧
    po_actions p ⊆ se_actions se ∧ po_key p = action_key (po_actions p) ∧
    proposal_confirmations o ≤ get_or 0 confirmations (po_key p)) (se_actions se);
}.

Lemma select_potential_ok confirmations budget l ps se p :
  potentials_ok ps → p ∈ ps → selected_ok confirmations budget l ps se →
  selected_ok confirmations budget l ps (select_potential h o cap s confirmations budget se p).
Proof.
  intros Hps Hp Hse. unfold select_potential.
  destruct (negb (po_emergency p) && _) eqn:Econf; [done|].
  destruct (budget <? _) eqn:Eb; [done|]. destruct (existsb _ _) eqn:Ex; [done|]. cbv zeta.
  destruct (potential_rejected _ _ _ _ _ _) eqn:Er; [done|].
  unfold potentials_ok in Hps. rewrite Forall_forall in Hps. destruct (Hps p Hp) as [ts Hg].
  pose proof (good_potential_tids p ts Hg) as Htids. destruct Hg as [Ha Hnd Hk He].
  destruct Hse as [H1 H2 H3 H4 H5 H6 H7]. constructor; cbn [se_actions se_selected se_loads].
  - rewrite fmap_app, Htids. apply NoDup_app. split_and!; [done| |done].
    intros t Ht Hts. rewrite <-Htids in Hts. apply list_elem_of_fmap in Hts as (a & -> & Hin).
    assert (existsb (λ a, bool_decide (pa_tid a ∈ se_selected se)) (po_actions p) = true) as Hc.
    { apply existsb_exists. exists a. split; [by apply list_elem_of_In|].
      apply bool_decide_eq_true. rewrite H2. by apply elem_of_list_to_set. }
    congruence.
  - rewrite H2, fmap_app, list_to_set_app_L. set_solver.
  - apply Forall_app. split; [done|]. apply Forall_forall. intros a [i Hi]%list_elem_of_lookup.
    destruct (Forall2_lookup_l _ _ _ _ _ Ha Hi) as (t & _ & Hat).
    by rewrite (good_action_tid a t Hat).
  - rewrite Zsize_app. bool_hyps. lia.
  - unfold potential_rejected in Er. cbv zeta in Er.
    apply orb_false_iff in Er as [Er _]. apply orb_false_iff in Er as [Er _].
    apply orb_false_iff in Er as [Er%Z.ltb_ge _]. lia.
  - intros cpu. rewrite apply_actions_count, H6, !filter_app, !Zsize_app. lia.
  - apply Forall_app. split.
    { eapply Forall_impl; [exact H7|]. intros a [?|(q & ? & ? & Hq & ? & ?)]; [by left|right].
      exists q. split_and!; try done. set_solver. }
    apply Forall_forall. intros a Hin.
    rewrite Forall_forall in He. specialize (He a Hin). destruct (pa_emergency a); [by left|right].
    exists p. split_and!; try done; [set_solver|]. rewrite <-He in Econf. cbn in Econf. bool_hyps. lia.
Qed.

Lemma selection_ok confirmations budget l ps :
  potentials_ok ps → selected_ok confirmations budget l ps
    (foldl (select_potential h o cap s confirmations budget) (mk_Selection l [] ∅) ps).
Proof.
  intros Hps. apply foldl_invariant.
  - constructor; cbn [se_actions se_selected se_loads]; [apply NoDup_nil_2|done|constructor| |lia| |constructor];
      intros; unfold Zsize; cbn; lia.
  - intros se p Hp. by apply select_potential_ok.
Qed.

(** The counters of the current placement. *)
Lemma current_loads_count cpu :
  get_or 0 (ld_count (current_loads h s)) cpu =
  Zsize (filter (λ t, current_cpu s t = cpu) (live_tids s)).
Proof.
  unfold current_loads. cbn [ld_count]. unfold live_tids.
  refine (foldl_invariant_prefix _ (λ pre l, get_or 0 (ld_count l) cpu =
    Zsize (filter (λ t, current_cpu s t = cpu) pre.*1)) (items (i_threads s)) (mk_Loads ∅ ∅ ∅) eq_refl _).
  intros pre [t th] rest l _ IH. rewrite fmap_app, fmap_cons, fmap_nil, Zsize_filter_snoc, <-IH.
  cbn [ld_count fst]. rewrite get_or_bump. repeat case_decide; congruence || lia.
Qed.

(** Every candidate of the window is one confirmation further than before. *)
Lemma next_confirmations_spec ps p :
  p ∈ ps →
  get_or 0 (next_confirmations s ps) (po_key p) = get_or 0 (i_action_confirmations s) (po_key p) + 1.
Proof.
  intros Hp. unfold next_confirmations.
  assert (∀ k, k ∈ po_key <$> ps → (foldl (λ m p, <[po_key p := get_or 0 (i_action_confirmations s) (po_key p) + 1]> m)
    (∅ : gmap string Z) ps) !! k = Some (get_or 0 (i_action_confirmations s) k + 1)) as H.
  { refine (foldl_invariant_prefix _ (λ pre (m : gmap string Z), ∀ k, k ∈ po_key <$> pre →
      m !! k = Some (get_or 0 (i_action_confirmations s) k + 1)) ps ∅ _ _).
    { intros k Hk. by apply elem_of_nil in Hk. }
    intros pre q rest m _ IH k. rewrite fmap_app, elem_of_app, fmap_cons, fmap_nil, list_elem_of_singleton.
    destruct (decide (k = po_key q)) as [->|Hne]; [by rewrite lookup_insert_eq|].
    rewrite lookup_insert_ne by done. intros [Hk|Hk]; [by apply IH|done]. }
  unfold get_or at 1. by rewrite (H (po_key p)) by (by apply list_elem_of_fmap_2).
Qed.

(** ** The whole phase *)
Record optimized (delta : option GraphDelta) (base : SolverProposal) (s' : IncrementalSolver)
    (p : SolverProposal) (ps : list Potential) (se : Selection) : Prop := {
  op_selected : selected_ok (next_confirmations s ps) (sp_migration_budget base)
    (current_loads h s) ps se;
  op_actions : sp_actions p = se_actions se;
  op_delta : sp_delta p = actions_delta (se_actions se);
  op_ready : sp_ready p = negb (bool_decide (se_actions se = []));
  op_baseline : i_baseline_cpu s' = i_baseline_cpu s;
}.

Lemma optimizing_spec delta base s' p :
  sp_ready base = false → sp_actions base = [] → sp_delta base = mk_PlacementDelta ∅ ∅ →
  optimizing h o cap s now_ns delta base = (s', Ok p) →
  ∃ ps se, optimized delta base s' p ps se.
Proof.
  intros Hr Ha Hd. unfold optimizing. destruct (_ =? 0).
  { intros [= <- <-]. exists [], (mk_Selection (current_loads h s) [] ∅).
    constructor; try done. apply (selection_ok _ _ _ []). constructor. }
  set (dirty := dirty_set _ _ _ _ _ _). set (ranked := ranking _ _ _ _ _ _ _).
  pose proof (potentials_all_ok (current_loads h s) dirty (sp_migration_budget base)) as Hok.
  fold ranked in Hok. destruct (potentials _ _ _ _ _ _ _) as [ps skipped]. cbn [fst] in Hok.
  pose proof (selection_ok (next_confirmations s ps) (sp_migration_budget base) (current_loads h s) ps Hok) as Hse.
  set (se := foldl _ _ ps) in *. clearbody se dirty ranked.
  set (l := current_loads h s) in *. set (conf := next_confirmations s ps) in *.
  unfold publish. intros E. injection E as <- <-. exists ps, se. constructor; try done.
  by destruct (negb _).
Qed.
End optimizer_facts.
