(* ===== verification/IncrementalInvariant.v ===== *)
(** * The invariant of the incremental solver

    The operations as a step relation, with the protocol the runtime follows
    ([remove_thread] for vanished threads before [commit]), and the invariant
    of every reachable state. *)
From Stdlib Require Import SpecFloat.
From S2P Require Import Prelude Binary64 Core CpuList Topology Hotspot Incremental NodePlan Pinning.
From S2P Require Import Optimizer IncrementalPropose IncrementalFacts.
Local Open Scope Z_scope.

(** A plan exists: every live thread has an initial target. *)
Definition planned (s : IncrementalSolver) : Prop :=
  i_phase s = InitialPinning ∨ i_phase s = Optimizing.

Record inv (s : IncrementalSolver) : Prop := {
  inv_pinned : i_pinned s = dom (i_placement s);
  inv_placed : dom (i_placement s) ⊆ dom (i_threads s);
  inv_threads : ∀ t th, i_threads s !! t = Some th →
    td_tid th = t ∧ i_identities s !! t = Some (td_identity th);
  inv_identities : dom (i_identities s) ⊆ dom (i_threads s);
  inv_targets : planned s → dom (i_threads s) ⊆ dom (i_initial_target_cpu s);
  inv_stable : i_stable_hotspot_replan_pending s = false;
  inv_outstanding : ∀ p, i_outstanding s = Some p → sp_id p < i_next_proposal_id s;
}.

(** Only [phase], the targets and bookkeeping members differ. *)
Record same_core (s s' : IncrementalSolver) : Prop := {
  sc_placement : i_placement s' = i_placement s;
  sc_pinned : i_pinned s' = i_pinned s;
  sc_threads : i_threads s' = i_threads s;
  sc_identities : i_identities s' = i_identities s;
  sc_generation : i_generation s' = i_generation s;
  sc_moved : i_last_moved_ns s' = i_last_moved_ns s;
}.

#[export] Instance same_core_preorder : PreOrder same_core.
Proof.
  split; [by constructor|]. intros a b c [] []. constructor; congruence.
Qed.

Lemma inv_same_core s s' :
  inv s → same_core s s' →
  (planned s' → dom (i_threads s) ⊆ dom (i_initial_target_cpu s')) →
  i_stable_hotspot_replan_pending s' = false →
  (∀ p, i_outstanding s' = Some p → sp_id p < i_next_proposal_id s') → inv s'.
Proof.
  intros [] [Hp Hpi Ht Hi _ _] Htg Hst Ho. constructor; rewrite ?Hp, ?Hpi, ?Ht, ?Hi; auto.
Qed.

(** ** The small operations *)
Lemma remove_thread_inv t s : inv s → inv (remove_thread t s).
Proof.
  intros [Hpin Hpl Hth Hid Htg Hst Ho]. constructor; cbn.
  - rewrite Hpin, dom_delete_L. done.
  - rewrite !dom_delete_L. set_solver.
  - intros u th [Hne Hu]%lookup_delete_Some. destruct (Hth u th Hu) as [? ?].
    split; [done|]. by rewrite lookup_delete_ne.
  - rewrite !dom_delete_L. set_solver.
  - rewrite !dom_delete_L. intros Hp. specialize (Htg Hp). set_solver.
  - done.
  - done.
Qed.

Lemma init_inv shadow : inv (IncrementalSolver_init shadow).
Proof. by constructor. Qed.

(** ** Admission *)
Record admitting (st : AdmitState) (s0 : IncrementalSolver) : Prop := {
  am_inv : inv (ad_solver st);
  am_after : ad_after_initial st = true → planned (ad_solver st);
  am_phase : i_phase (ad_solver st) = i_phase s0;
  am_placement : i_placement (ad_solver st) ⊆ i_placement s0;
  am_outstanding : i_outstanding (ad_solver st) = i_outstanding s0;
  am_generation : i_generation (ad_solver st) = i_generation s0;
  am_id : i_next_proposal_id (ad_solver st) = i_next_proposal_id s0;
  am_confirmations : i_action_confirmations (ad_solver st) = i_action_confirmations s0;
}.

Lemma remove_admitting t a n s s0 :
  admitting (mk_AdmitState s a n) s0 → admitting (mk_AdmitState (remove_thread t s) a n) s0.
Proof.
  intros [H1 H2 H3 H4 H5 H6 H7 H8]. constructor; cbn in *; try done.
  - by apply remove_thread_inv.
  - etrans; [apply delete_subseteq|done].
Qed.

(** A known thread with the same identity, or a fresh one, gets its demand. *)
Lemma set_thread_inv demand th s :
  i_identities s !! td_tid th = Some (td_identity th) →
  i_pinned s = dom (i_placement s) → dom (i_placement s) ⊆ dom (i_threads s) ∪ {[td_tid th]} →
  (∀ t th', i_threads s !! t = Some th' → td_tid th' = t ∧
     (t ≠ td_tid th → i_identities s !! t = Some (td_identity th'))) →
  dom (i_identities s) ⊆ dom (i_threads s) ∪ {[td_tid th]} →
  (planned s → dom (i_threads s) ∪ {[td_tid th]} ⊆ dom (i_initial_target_cpu s)) →
  i_stable_hotspot_replan_pending s = false →
  (∀ p, i_outstanding s = Some p → sp_id p < i_next_proposal_id s) →
  inv (set_thread demand th s).
Proof.
  intros Hid Hpin Hpl Hth Hids Htg Hst Ho. constructor; cbn; rewrite ?dom_insert_L; try done.
  - set_solver.
  - intros t th' [[<- <-]|[Hne Ht]]%lookup_insert_Some; [done|].
    destruct (Hth t th' Ht) as [? Hi]. split; [done|]. apply Hi. congruence.
  - set_solver.
  - intros Hp. specialize (Htg Hp). set_solver.
Qed.

Section admission_facts.
Context (h : HardwareGraph) (o : IncrementalOptions) (n : nat) (cap : Z).
Context (demand : gmap Z double) (adj : gmap Z (list RelationEdge)).

Lemma admit_new_inv st th s0 :
  admitting st s0 → i_identities (ad_solver st) !! td_tid th = None →
  let st' := admit_new h o n cap demand adj st th in
  admitting (mk_AdmitState (set_thread demand th (ad_solver st')) (ad_after_initial st') (ad_added st')) s0.
Proof.
  intros [[Hpin Hpl Hth Hids Htg Hst Ho] Ha Hph Hps Hout Hg Hi Hc] Hnone. cbv zeta.
  destruct st as [s a k]. cbn in *. unfold admit_new. cbn [ad_solver ad_after_initial ad_added].
  set (cpu := admission_target _ _ _ _ _ _ _ _). clearbody cpu. cbv zeta.
  change (i_phase (note_identity th s)) with (i_phase s).
  assert (∀ t th', i_threads s !! t = Some th' → td_tid th' = t ∧ (t ≠ td_tid th →
    <[td_tid th := td_identity th]> (i_identities s) !! t = Some (td_identity th'))) as Hth'.
  { intros t th' Ht. destruct (Hth t th' Ht). split; [done|]. intros. by rewrite lookup_insert_ne. }
  assert (dom (<[td_tid th := td_identity th]> (i_identities s)) ⊆ dom (i_threads s) ∪ {[td_tid th]})
    as Hids' by (rewrite dom_insert_L; set_solver).
  assert (dom (i_placement s) ⊆ dom (i_threads s) ∪ {[td_tid th]}) as Hpl' by set_solver.
  destruct (bool_decide _ || bool_decide _) eqn:Eb.
  - assert (planned s) as Hp by (unfold planned; by bool_hyps; rewrite !bool_decide_eq_true in Eb).
    constructor; cbn; try done. apply set_thread_inv; cbn; try done.
    + by rewrite lookup_insert_eq.
    + intros _. rewrite dom_insert_L. specialize (Htg Hp). set_solver.
  - assert (¬ planned s) as Hp by (unfold planned; bool_hyps; tauto).
    constructor; cbn; try done. apply set_thread_inv; cbn; try done. by rewrite lookup_insert_eq.
Qed.

Lemma admit_thread_inv st th s0 :
  admitting st s0 → admitting (admit_thread h o n cap demand adj st th) s0.
Proof.
  intros Hst. unfold admit_thread. cbv zeta.
  set (s := match i_identities _ !! _ with Some _ => _ | None => _ end).
  assert (admitting (mk_AdmitState s (ad_after_initial st) (ad_added st)) s0) as Hs.
  { subst s. destruct st as [s a m]. cbn. destruct (i_identities s !! td_tid th) as [i|]; [|done].
    case_bool_decide; [done|]. by apply remove_admitting. }
  assert (∀ i, i_identities s !! td_tid th = Some i → i = td_identity th) as Hsame.
  { subst s. destruct (i_identities (ad_solver st) !! td_tid th) as [i|] eqn:Ei; [|congruence].
    case_bool_decide as E; [congruence|]. cbn. intros j. by rewrite lookup_delete_eq. }
  case_bool_decide as Hi.
  - destruct Hi as [i Hi]. pose proof (Hsame i Hi) as ->.
    destruct Hs as [[Hpin Hpl Hth Hids Htg Hstb Ho] Ha Hph Hps Hout Hg Hid Hc]. cbn in *.
    assert (td_tid th ∈ dom (i_threads s)) as Hd by (apply Hids, elem_of_dom; eauto).
    constructor; cbn; try done. apply set_thread_inv; cbn; try done.
    + set_solver.
    + intros t th' Ht. destruct (Hth t th' Ht). auto.
    + set_solver.
    + intros Hp. specialize (Htg Hp). set_solver.
  - apply eq_None_not_Some in Hi. by apply (admit_new_inv (mk_AdmitState s _ _)).
Qed.
End admission_facts.

Lemma remove_stale_admitting threads s :
  inv s → admitting (mk_AdmitState (remove_stale threads s) false 0) s.
Proof.
  intros Hs. unfold remove_stale.
  apply (foldl_invariant (λ s t, remove_thread t s) (λ s', admitting (mk_AdmitState s' false 0) s)).
  - by constructor.
  - intros x t _. apply remove_admitting.
Qed.

(** ** Phase changes and hotspots *)
Lemma phase_after_admission_inv o st s0 :
  admitting st s0 → let s := phase_after_admission o st in
  inv s ∧ same_core (ad_solver st) s ∧ i_outstanding s = i_outstanding (ad_solver st) ∧
  i_next_proposal_id s = i_next_proposal_id (ad_solver st) ∧
  i_action_confirmations s = i_action_confirmations (ad_solver st).
Proof.
  intros Hst. pose proof (am_inv _ _ Hst) as Hi. cbv zeta. unfold phase_after_admission. cbv zeta.
  destruct (ad_after_initial st) eqn:Ea; cbn [andb]; [|done].
  pose proof (am_after _ _ Hst Ea) as Hp.
  assert (∀ s, i_identities s = i_identities (ad_solver st) →
    i_initial_target_cpu s = i_initial_target_cpu (ad_solver st) →
    same_core (ad_solver st) s → i_stable_hotspot_replan_pending s = false →
    i_outstanding s = i_outstanding (ad_solver st) →
    i_next_proposal_id s = i_next_proposal_id (ad_solver st) → inv s) as Hgen.
  { intros s _ Ht Hc Hs Ho Hn. eapply inv_same_core; [exact Hi|done| |done|].
    - intros _. rewrite Ht. by apply (inv_targets _ Hi).
    - rewrite Ho, Hn. apply Hi. }
  destruct (substantial_growth _ _ _); split_and!; try done; apply Hgen; try done.
  by apply Hi.
Qed.

Lemma finish_pinning_inv s : inv s → let s' := finish_pinning s in
  inv s' ∧ same_core s s' ∧ i_outstanding s' = i_outstanding s ∧
  i_next_proposal_id s' = i_next_proposal_id s ∧
  i_action_confirmations s' = i_action_confirmations s.
Proof.
  intros Hi. cbv zeta. unfold finish_pinning. destruct (_ && _) eqn:E; [|done].
  apply andb_true_iff in E as [E%bool_decide_eq_true _]. split_and!; try done.
  eapply inv_same_core; [exact Hi|done| |apply Hi|apply Hi].
  intros _. by apply (inv_targets _ Hi); left.
Qed.

Lemma update_hotspots_inv o edges s : inv s →
  let '(s', _, triggered) := update_hotspots o edges s in
  inv s' ∧ same_core s s' ∧ i_outstanding s' = i_outstanding s ∧
  i_next_proposal_id s' = i_next_proposal_id s ∧
  i_action_confirmations s' = i_action_confirmations s ∧ triggered = false.
Proof.
  intros Hi. unfold update_hotspots.
  set (selected := select_hotspot_edges _ _ _). clearbody selected.
  set (m := hotspot_map selected). clearbody m. cbn [i_stable_hotspot_replan_pending].
  rewrite (inv_stable _ Hi). split_and!; try done.
  eapply inv_same_core; [exact Hi|done|apply Hi|done|apply Hi].
Qed.

Section propose_invariant.
Context (h : HardwareGraph) (threads : list ThreadDemand) (edges : list RelationEdge).
Context (o : IncrementalOptions) (now_ns : Z) (delta : option GraphDelta).

Lemma admitted_inv s : inv s → admitting (admitted h threads edges o s) s.
Proof.
  intros Hs. unfold admitted. cbv zeta.
  set (peaks := group_peaks _ _ _). clearbody peaks.
  set (demand := effective_demands _ _ _). clearbody demand.
  set (adj := adjacency_of _). clearbody adj.
  set (s1 := mk_IncrementalSolver _ _ _ _ _ _ _ _ _ _ _ _ _ _ _ _ _ _ _ _ _ _ _ _ _ _ _).
  assert (admitting (mk_AdmitState (remove_stale threads s1) false 0) s) as H0.
  { destruct (remove_stale_admitting threads s1) as [].
    - eapply inv_same_core; [exact Hs|done|apply Hs|apply Hs|apply Hs].
    - by constructor. }
  apply (foldl_invariant _ (λ st, admitting st s)); [exact H0|].
  intros st th _. apply admit_thread_inv.
Qed.

Record prepared_ok (s : IncrementalSolver) (pp : Prepared) : Prop := {
    pk_inv : inv (pp_solver pp);
    pk_placement : i_placement (pp_solver pp) ⊆ i_placement s;
    pk_outstanding : i_outstanding (pp_solver pp) = i_outstanding s;
    pk_generation : i_generation (pp_solver pp) = i_generation s;
    pk_next : i_next_proposal_id (pp_solver pp) = i_next_proposal_id s;
    pk_confirmations : i_action_confirmations (pp_solver pp) = i_action_confirmations s;
    pk_triggered : pp_triggered pp = false;
}.

Lemma prepare_ok s : inv s → prepared_ok s (prepare h threads edges o s).
Proof.
  intros Hs. pose proof (admitted_inv s Hs) as Ha. unfold prepare. cbv zeta.
  set (n := predicted_count _ _ _). clearbody n.
  destruct (phase_after_admission_inv o _ _ Ha) as (H1 & C1 & O1 & N1 & A1).
  set (st := admitted _ _ _ _ _) in *. clearbody st.
  set (s1 := phase_after_admission o st) in *. clearbody s1.
  destruct (finish_pinning_inv _ H1) as (H2 & C2 & O2 & N2 & A2).
  set (s2 := finish_pinning s1) in *. clearbody s2.
  pose proof (update_hotspots_inv o edges s2 H2) as H3.
  destruct (update_hotspots o edges s2) as [[s3 sim] trig].
  destruct H3 as (H3 & C3 & O3 & N3 & A3 & T3).
  pose proof (transitivity C1 (transitivity C2 C3)) as C.
  constructor; cbn; [done| |pose proof (am_outstanding _ _ Ha)|pose proof (am_generation _ _ Ha)
    |pose proof (am_id _ _ Ha)|pose proof (am_confirmations _ _ Ha)|done];
    rewrite ?(sc_placement _ _ C), ?(sc_generation _ _ C); [apply Ha|congruence..].
Qed.

(** What every phase leaves alone, and what it publishes. *)
Record phase_ok (s : IncrementalSolver) (base : SolverProposal) (s' : IncrementalSolver)
      (p : SolverProposal) : Prop := {
    ph_id : sp_id p = sp_id base;
    ph_budget : sp_migration_budget p = sp_migration_budget base;
    ph_cap : sp_cpu_slot_cap p = sp_cpu_slot_cap base;
    ph_triggered : sp_hotspot_replan_triggered p = sp_hotspot_replan_triggered base;
    ph_outstanding : i_outstanding s' = if sp_ready p then Some p else i_outstanding s;
}.

Lemma assign_cpus_dom cap s assigned :
  dom (cp_target (assign_cpus h cap s assigned)) = dom (i_threads s).
Proof.
  unfold assign_cpus. apply set_eq. intros t.
  rewrite <-(elem_of_dom (i_threads s)) || idtac.
  trans (t ∈ std_sort (demand_ltb s) (items (i_threads s)).*1).
  - refine (foldl_invariant_prefix (assign_cpu h cap s assigned) (λ pre c,
      t ∈ dom (cp_target c) ↔ t ∈ pre) _ (mk_CpuPlan ∅ ∅ ∅) _ _); [set_solver|].
    intros pre x rest c _ IH. unfold assign_cpu. cbn [cp_target].
    rewrite dom_insert_L, elem_of_union, elem_of_app, elem_of_singleton, list_elem_of_singleton, IH. tauto.
  - rewrite elem_of_std_sort. change ((items (i_threads s)).*1) with (live_tids s).
    rewrite elem_of_live_tids, elem_of_dom. done.
Qed.

Lemma confirm_plan_same s assigned :
  let '(_, s1) := confirm_plan s assigned in
  same_core s s1 ∧ i_phase s1 = i_phase s ∧ i_outstanding s1 = i_outstanding s ∧
  i_next_proposal_id s1 = i_next_proposal_id s ∧
  i_stable_hotspot_replan_pending s1 = i_stable_hotspot_replan_pending s ∧
  i_initial_target_cpu s1 = i_initial_target_cpu s ∧
  i_action_confirmations s1 = i_action_confirmations s.
Proof. unfold confirm_plan. by destruct (_ && _). Qed.

Lemma node_planning_inv cap s base s' r :
  inv s → sp_ready base = false → sp_actions base = [] →
  node_planning h o cap s base = (s', r) →
  inv s' ∧ same_core s s' ∧ i_next_proposal_id s' = i_next_proposal_id s ∧
  i_outstanding s' = i_outstanding s ∧
  ∀ p, r = Ok p → phase_ok s base s' p ∧ sp_ready p = false ∧ sp_actions p = [] ∧
    sp_delta p = sp_delta base.
Proof.
  intros Hs Hr Ha. unfold node_planning. destruct (fresh_partition h o cap s) as [fresh|e].
  2: { intros [= <- <-]. done. }
  pose proof (confirm_plan_same s (pt_node fresh)) as Hc.
  destruct (confirm_plan s (pt_node fresh)) as [assigned s1].
  destruct Hc as (C1 & P1 & O1 & N1 & S1 & T1 & A1).
  assert (inv s1) as H1.
  { eapply inv_same_core; [exact Hs|done| | |].
    - unfold planned. rewrite P1, T1. apply (inv_targets _ Hs).
    - rewrite S1. apply (inv_stable _ Hs).
    - rewrite O1, N1. apply (inv_outstanding _ Hs). }
  set (p1 := plan_proposal _ _ _ _ _ _ _). cbv zeta.
  destruct (negb (sp_initial_plan_confirmed p1)).
  - intros [= <- <-]. split_and!; try done. intros p [= <-]. split_and!; try done.
    constructor; try done. cbn. rewrite Hr. done.
  - intros [= <- <-]. split_and!.
    + eapply inv_same_core; [exact H1|done| |apply H1|apply H1].
      intros _. cbn. rewrite assign_cpus_dom, (sc_threads _ _ C1). done.
    + etrans; [exact C1|]. done.
    + done.
    + done.
    + intros p [= <-]. split_and!; try done. constructor; try done. cbn. rewrite Hr. done.
Qed.
Lemma publish_inv s p s' r :
  inv s → sp_id p < i_next_proposal_id s → publish s p = (s', r) →
  inv s' ∧ same_core s s' ∧ i_next_proposal_id s' = i_next_proposal_id s ∧ r = Ok p ∧
  i_outstanding s' = if sp_ready p then Some p else i_outstanding s.
Proof.
  intros Hs Hid. unfold publish. destruct (sp_ready p); intros E; simplify_eq E; clear E;
    intros <- <-; split_and!; try done.
  eapply inv_same_core; [exact Hs|done|apply Hs|apply Hs|]. intros q [= <-]. done.
Qed.

Lemma pin_loop_dom cap s pending st :
  dom (pn_target_cpu st) ⊆ dom (pn_target_cpu (pin_loop h cap s st pending).1).
Proof.
  revert st. induction pending as [|t rest IH]; intros st; cbn; [done|].
  destruct (pin_step h cap s st t) as [st'|] eqn:E; [|done].
  etrans; [|apply IH]. unfold pin_step in E. cbv zeta in E.
  destruct (cap <=? _); [destruct (min_element _ _); [|done]|]; injection E as <-; [|done].
  cbn. rewrite dom_insert_L. set_solver.
Qed.

Lemma initial_pinning_inv cap s base s' r :
  inv s → i_phase s = InitialPinning → sp_ready base = false → sp_id base < i_next_proposal_id s →
  initial_pinning h cap s base = (s', r) →
  inv s' ∧ same_core s s' ∧ i_next_proposal_id s' = i_next_proposal_id s ∧
  match r with Ok p => phase_ok s base s' p | Throw _ => i_outstanding s' = i_outstanding s end.
Proof.
  intros Hs Hph Hr Hid. unfold initial_pinning. destruct (_ =? 0).
  { intros [= <- <-]. split_and!; try done. constructor; try done. cbn. by rewrite Hr. }
  set (pending := pending_batch h s _). set (st0 := mk_PinState _ _ _).
  pose proof (pin_loop_dom cap s pending st0) as Hdom.
  destruct (pin_loop h cap s st0 pending) as [st b]. cbn in Hdom.
  assert (inv (pin_solver s st)) as Hst.
  { eapply inv_same_core; [exact Hs|done| |apply Hs|apply Hs].
    intros _. cbn. etrans; [|exact Hdom]. apply (inv_targets _ Hs). by left. }
  destruct b; cbn [negb].
  2: { intros [= <- <-]. done. }
  intros (H1 & H2 & H3 & -> & H4)%publish_inv; [|done|done].
  split_and!; [done|by etrans; [|exact H2]|done|]. by constructor.
Qed.

Lemma optimizing_inv cap s base s' r :
  inv s → sp_ready base = false → sp_id base < i_next_proposal_id s →
  optimizing h o cap s now_ns delta base = (s', r) →
  inv s' ∧ same_core s s' ∧ i_next_proposal_id s' = i_next_proposal_id s ∧
  match r with Ok p => phase_ok s base s' p | Throw _ => i_outstanding s' = i_outstanding s end.
Proof.
  intros Hs Hr Hid. unfold optimizing. destruct (_ =? 0).
  { intros [= <- <-]. split_and!; try done. constructor; try done. cbn. by rewrite Hr. }
  destruct (potentials _ _ _ _ _ _ _) as [ps skipped].
  set (l := current_loads h s). set (dirty := dirty_set _ _ _ _ _ _). set (ranked := ranking _ _ _ _ _ _ _).
  set (confirmations := next_confirmations _ _).
  set (actions := se_actions _). clearbody l dirty ranked confirmations actions.
  assert (inv (optimize_solver o s confirmations)) as Hst.
  { eapply inv_same_core; [exact Hs|done|apply Hs|apply Hs|apply Hs]. }
  intros (H1 & H2 & H3 & -> & H4)%publish_inv; [|done|done].
  split_and!; [done|by etrans; [|exact H2]|done|]. by constructor.
Qed.
End propose_invariant.

(** ** [propose] as a whole *)

(** The state a phase starts from, and the proposal it fills in. *)
Record phase_start (h : HardwareGraph) (threads : list ThreadDemand) (o : IncrementalOptions)
    (s s1 : IncrementalSolver) (base : SolverProposal) : Prop := {
  st_inv : inv s1;
  st_placement : i_placement s1 ⊆ i_placement s;
  st_outstanding : i_outstanding s1 = None;
  st_generation : i_generation s1 = i_generation s;
  st_confirmations : i_action_confirmations s1 = i_action_confirmations s;
  st_next : i_next_proposal_id s1 = i_next_proposal_id s + 1;
  st_id : sp_id base = i_next_proposal_id s;
  st_ready : sp_ready base = false;
  st_actions : sp_actions base = [];
  st_delta : sp_delta base = mk_PlacementDelta ∅ ∅;
  st_triggered : sp_hotspot_replan_triggered base = false;
  st_cap : sp_cpu_slot_cap base = window_cap h threads o;
}.

Definition phase_run (h : HardwareGraph) (threads : list ThreadDemand) (o : IncrementalOptions)
    (now_ns : Z) (delta : option GraphDelta) (s1 : IncrementalSolver) (base : SolverProposal)
    (s' : IncrementalSolver) (r : result SolverProposal) : Prop :=
  let cap := window_cap h threads o in
  match i_phase s1 with
  | Uninitialized => i_threads s1 = ∅ ∧ s' = s1 ∧ r = Ok (base <| sp_phase := Uninitialized |>)
  | NodePlanning => node_planning h o cap s1 base = (s', r)
  | InitialPinning => initial_pinning h cap s1 base = (s', r)
  | Optimizing => optimizing h o cap s1 now_ns delta base = (s', r)
  end.

Section incremental_propose_run.
Context (h : HardwareGraph) (threads : list ThreadDemand) (edges : list RelationEdge).
Context (o : IncrementalOptions) (now_ns : Z) (delta : option GraphDelta).

Lemma inv_set_phase s ph : inv s → ph ≠ InitialPinning → ph ≠ Optimizing → inv (set_phase ph s).
Proof.
  intros Hs H1 H2. eapply inv_same_core; [exact Hs|done| |apply Hs|apply Hs]. by intros [].
Qed.

Lemma take_id_inv s : inv s → inv (take_id s).
Proof.
  intros Hs. eapply inv_same_core; [exact Hs|done|apply Hs|apply Hs|].
  cbn. intros q Hq. apply (inv_outstanding _ Hs) in Hq. lia.
Qed.

(** The base proposal of a prepared window. *)
Lemma base_start s s1 pp :
  prepared_ok s pp → i_outstanding s = None → inv s1 →
  i_placement s1 = i_placement (pp_solver pp) → i_outstanding s1 = i_outstanding (pp_solver pp) →
  i_generation s1 = i_generation (pp_solver pp) →
  i_action_confirmations s1 = i_action_confirmations (pp_solver pp) →
  i_next_proposal_id s1 = i_next_proposal_id (pp_solver pp) + 1 →
  phase_start h threads o s s1 (base_proposal h threads edges o pp).
Proof.
  intros [Hi Hpl Hout Hg Hn Ha Ht] Ho H1 E1 E2 E3 E4 E5. constructor; cbn;
    try done; first [congruence|by rewrite E1].
Qed.

Lemma run_phase_cases s base s' r :
  run_phase h threads o now_ns delta s base = (s', r) →
  ∃ s1, (s1 = s ∨ s1 = set_phase Uninitialized s ∨ s1 = set_phase NodePlanning s) ∧
    phase_run h threads o now_ns delta s1 base s' r.
Proof.
  unfold run_phase. case_bool_decide as Hempty.
  - intros [= <- <-]. exists (set_phase Uninitialized s). split; [auto|]. done.
  - case_bool_decide as Hun.
    + assert (i_phase (set_phase NodePlanning s) = NodePlanning) as Hph by done.
      cbv zeta. rewrite Hph. intros E. exists (set_phase NodePlanning s). split; [auto|].
      unfold phase_run. rewrite Hph. exact E.
    + intros E. exists s. split; [auto|]. revert E. unfold phase_run. by destruct (i_phase s).
Qed.

Lemma incremental_propose_run s s' r :
  inv s → i_outstanding s = None → (0 < online_cpus h)%nat →
  propose h threads edges o now_ns delta s = (s', r) →
  ∃ s1 base, phase_start h threads o s s1 base ∧
    phase_run h threads o now_ns delta s1 base s' r.
Proof.
  intros Hs Ho Hcpu. unfold propose. rewrite Ho.
  destruct (Nat.eqb_spec (online_cpus h) 0); [lia|].
  pose proof (prepare_ok h threads edges o s Hs) as Hp. cbv zeta.
  generalize dependent (prepare h threads edges o s). intros pp Hp.
  intros (s1 & Hs1 & Hrun)%run_phase_cases. exists s1, (base_proposal h threads edges o pp).
  split; [|exact Hrun]. pose proof (take_id_inv _ (pk_inv _ _ Hp)) as H2.
  destruct Hs1 as [->|[->| ->]]; apply base_start; try done; by apply inv_set_phase.
Qed.

(** Every outcome of a phase keeps the invariant. *)
Lemma phase_run_inv s s1 base s' r :
  phase_start h threads o s s1 base → phase_run h threads o now_ns delta s1 base s' r →
  inv s' ∧ same_core s1 s' ∧ i_next_proposal_id s' = i_next_proposal_id s1 ∧
  match r with Ok p => phase_ok s1 base s' p | Throw _ => i_outstanding s' = None end.
Proof.
  intros Hst Hr. pose proof (st_inv _ _ _ _ _ _ Hst) as Hi.
  pose proof (st_outstanding _ _ _ _ _ _ Hst) as Ho.
  assert (sp_id base < i_next_proposal_id s1) as Hid.
  { rewrite (st_id _ _ _ _ _ _ Hst), (st_next _ _ _ _ _ _ Hst). lia. }
  unfold phase_run in Hr. destruct (i_phase s1) eqn:Ep.
  - destruct Hr as (_ & -> & ->). split_and!; try done. constructor; try done. cbn.
    by rewrite (st_ready _ _ _ _ _ _ Hst).
  - apply node_planning_inv in Hr as (H1 & H2 & H3 & H4 & H5); [|done|apply Hst|apply Hst].
    split_and!; [done..|]. destruct r as [p|]; [by apply H5|congruence].
  - apply initial_pinning_inv in Hr as (H1 & H2 & H3 & H4); [|done|done|apply Hst|done].
    split_and!; [done..|]. destruct r; [done|congruence].
  - apply optimizing_inv in Hr as (H1 & H2 & H3 & H4); [|done|apply Hst|done].
    split_and!; [done..|]. destruct r; [done|congruence].
Qed.

Lemma propose_inv s s' r :
  inv s → propose h threads edges o now_ns delta s = (s', r) → inv s'.
Proof.
  intros Hs Hp. destruct (i_outstanding s) as [p|] eqn:Ho.
  { unfold propose in Hp. rewrite Ho in Hp. by simplify_eq. }
  destruct (decide (0 < online_cpus h)%nat) as [Hc|Hc].
  - destruct (incremental_propose_run s s' r Hs Ho Hc Hp) as (s1 & base & H1 & H2).
    by destruct (phase_run_inv _ _ _ _ _ H1 H2).
  - unfold propose in Hp. rewrite Ho in Hp.
    destruct (Nat.eqb_spec (online_cpus h) 0); [by simplify_eq|lia].
Qed.
End incremental_propose_run.

(** ** The operations as steps *)
Inductive solver_step : IncrementalSolver → IncrementalSolver → Prop :=
  | step_propose h threads edges o now_ns delta s s' r :
      propose h threads edges o now_ns delta s = (s', r) → solver_step s s'
  | step_commit p now_ns committed s :
      (** vanished threads were removed, and are not among the committed ones *)
      (∀ a, a ∈ sp_actions p → is_committed committed a = true → is_Some (i_threads s !! pa_tid a)) →
      solver_step s (commit p now_ns committed s)
  | step_discard p s : solver_step s (discard p s)
  | step_remove t s : solver_step s (remove_thread t s)
  | step_reset s : solver_step s (reset s).

Definition reachable (s : IncrementalSolver) : Prop :=
  ∃ shadow, rtc solver_step (IncrementalSolver_init shadow) s.

Lemma commit_action_inv now c s a :
  inv s → (is_committed c a = true → is_Some (i_threads s !! pa_tid a)) → inv (commit_action now c s a).
Proof.
  intros Hs Hl. unfold commit_action. destruct (is_committed c a); [|done].
  specialize (Hl eq_refl). apply elem_of_dom in Hl. destruct Hs as [Hpin Hpl Hth Hids Htg Hst Ho].
  constructor; cbn; rewrite ?dom_insert_L; try done; set_solver.
Qed.

Lemma commit_inv p now c s :
  inv s →
  (∀ a, a ∈ sp_actions p → is_committed c a = true → is_Some (i_threads s !! pa_tid a)) →
  inv (commit p now c s).
Proof.
  intros Hs Hl. unfold commit. destruct (i_outstanding s) as [q|] eqn:Eo; [|done].
  destruct (_ =? _); [|done].
  assert (inv (foldl (commit_action now c) s (sp_actions p)) ∧
    i_threads (foldl (commit_action now c) s (sp_actions p)) = i_threads s) as [H1 _].
  { apply (foldl_invariant _ (λ s', inv s' ∧ i_threads s' = i_threads s)); [done|].
    intros s' a Ha [Hi Ht]. split.
    - apply commit_action_inv; [done|]. rewrite Ht. auto.
    - unfold commit_action. by destruct (is_committed c a). }
  set (s1 := foldl _ _ _) in *. clearbody s1.
  assert (inv (commit_phase s1)) as H2.
  { unfold commit_phase. destruct (_ && _) eqn:E; [|done].
    apply andb_true_iff in E as [E%bool_decide_eq_true _].
    eapply inv_same_core; [exact H1|done| |apply H1|apply H1].
    intros _. apply (inv_targets _ H1). by left. }
  destruct H2. by constructor.
Qed.

Lemma discard_inv p s : inv s → inv (discard p s).
Proof.
  intros Hs. unfold discard. destruct (i_outstanding s); [|done]. destruct (_ =? _); [|done].
  eapply inv_same_core; [exact Hs|done|apply Hs|apply Hs|done].
Qed.

Lemma solver_step_inv s s' : inv s → solver_step s s' → inv s'.
Proof.
  intros Hs Hstep. destruct Hstep; eauto using propose_inv, commit_inv, discard_inv,
    remove_thread_inv, init_inv.
Qed.

Lemma reachable_inv s : reachable s → inv s.
Proof.
  intros [shadow Hr]. pose proof (init_inv shadow) as Hi.
  induction Hr as [|x y z Hxy _ IH]; [done|]. apply IH. by eapply solver_step_inv.
Qed.

(** ** The threads after a window

    Whatever phase it ends in, [propose] leaves exactly the window's threads in
    the solver. *)
Lemma remove_threads_dom l s :
  dom (i_threads (foldl (λ s t, remove_thread t s) s l)) = dom (i_threads s) ∖ list_to_set l.
Proof.
  revert s. induction l as [|t l IH]; intros s; cbn [foldl list_to_set]; [set_solver|].
  rewrite IH. cbn [remove_thread i_threads]. rewrite dom_delete_L. set_solver.
Qed.
Lemma remove_threads_inv l s : inv s → inv (foldl (λ s t, remove_thread t s) s l).
Proof. revert s. induction l as [|t l IH]; intros s Hs; [done|]. by apply IH, remove_thread_inv. Qed.
Lemma remove_threads_kept l s :
  let s' := foldl (λ s t, remove_thread t s) s l in
  i_outstanding s' = i_outstanding s ∧ i_generation s' = i_generation s ∧ i_placement s' ⊆ i_placement s.
Proof.
  revert s. induction l as [|t l IH]; intros s; [done|]. cbv zeta in *. cbn [foldl].
  destruct (IH (remove_thread t s)) as (-> & -> & H). split_and!; [done..|].
  etrans; [exact H|]. apply delete_subseteq.
Qed.

Lemma admit_thread_dom h o n cap demand adj st th :
  dom (i_threads (ad_solver (admit_thread h o n cap demand adj st th))) =
  dom (i_threads (ad_solver st)) ∪ {[td_tid th]}.
Proof.
  unfold admit_thread. cbv zeta. cbn [ad_solver set_thread i_threads]. rewrite dom_insert_L.
  set (s := match i_identities _ !! _ with Some _ => _ | None => _ end).
  assert (dom (i_threads s) ∪ {[td_tid th]} = dom (i_threads (ad_solver st)) ∪ {[td_tid th]}) as Hs.
  { subst s. destruct (i_identities _ !! _); [|done]. case_bool_decide; [done|].
    cbn [remove_thread i_threads]. rewrite dom_delete_L. apply set_eq. intros x.
    destruct (decide (x = td_tid th)); set_solver. }
  rewrite <- Hs. case_bool_decide; [set_solver|]. unfold admit_new. cbv zeta.
  destruct (_ || _); cbn; set_solver.
Qed.
Lemma admitted_dom h threads edges o s :
  dom (i_threads (ad_solver (admitted h threads edges o s))) = list_to_set (td_tid <$> threads).
Proof.
  unfold admitted. cbv zeta. set (adj := adjacency_of _). clearbody adj.
  set (demand := effective_demands _ _ _). clearbody demand.
  set (s1 := mk_IncrementalSolver _ _ _ _ _ _ _ _ _ _ _ _ _ _ _ _ _ _ _ _ _ _ _ _ _ _ _). clearbody s1.
  set (n := length threads). set (cap := window_cap h threads o). clearbody n cap.
  assert (∀ l st, dom (i_threads (ad_solver (foldl (admit_thread h o n cap demand adj) st l))) =
    dom (i_threads (ad_solver st)) ∪ list_to_set (td_tid <$> l)) as ->.
  { induction l as [|th l IH]; intros st; cbn; [set_solver|].
    rewrite IH, admit_thread_dom. set_solver. }
  cbn [ad_solver]. unfold remove_stale. rewrite remove_threads_dom. apply set_eq. intros x.
  rewrite elem_of_union, elem_of_difference, elem_of_list_to_set, list_elem_of_filter, !elem_of_list_to_set.
  assert (x ∈ dom (i_threads s1) → x ∈ (items (i_threads s1)).*1) as Hx.
  { intros [th Ht]%elem_of_dom. apply list_elem_of_fmap. exists (x, th). split; [done|]. by apply elem_of_items. }
  destruct (decide (x ∈ td_tid <$> threads)); tauto.
Qed.

Lemma propose_threads h threads edges o now delta s s' p :
  inv s → i_outstanding s = None → propose h threads edges o now delta s = (s', Ok p) →
  dom (i_threads s') = list_to_set (td_tid <$> threads).
Proof.
  intros Hs Ho. unfold propose. rewrite Ho. destruct (Nat.eqb_spec (online_cpus h) 0); [done|].
  pose proof (prepare_ok h threads edges o s Hs) as Hp. cbv zeta.
  assert (dom (i_threads (pp_solver (prepare h threads edges o s))) = list_to_set (td_tid <$> threads)) as Hd.
  { pose proof (admitted_inv h threads edges o s Hs) as Ha. rewrite <- (admitted_dom h threads edges o s).
    unfold prepare. cbv zeta. destruct (phase_after_admission_inv o _ _ Ha) as (H1 & C1 & _).
    destruct (finish_pinning_inv _ H1) as (H2 & C2 & _).
    pose proof (update_hotspots_inv o edges _ H2) as H3.
    destruct (update_hotspots o edges _) as [[s3 sim] trig]. destruct H3 as (_ & C3 & _). cbn [pp_solver].
    by rewrite (sc_threads _ _ C3), (sc_threads _ _ C2), (sc_threads _ _ C1). }
  generalize dependent (prepare h threads edges o s). intros pp Hp Hd.
  intros (s1 & Hs1 & Hrun)%run_phase_cases. pose proof (take_id_inv _ (pk_inv _ _ Hp)) as H2.
  assert (phase_start h threads o s s1 (base_proposal h threads edges o pp)) as Hst
    by (destruct Hs1 as [->|[->| ->]]; apply base_start; try done; by apply inv_set_phase).
  destruct (phase_run_inv _ _ _ _ _ _ _ _ _ _ Hst Hrun) as (_ & Hc & _). rewrite (sc_threads _ _ Hc), <- Hd.
  by destruct Hs1 as [->|[->| ->]].
Qed.
