(* ===== verification/IncrementalProperties.v ===== *)
(** * Properties of the incremental solver

    Theorems over every state the runtime can reach: when the solver counts as
    effective, what a proposal may contain, that the initial pins respect the
    slot cap, and that optimizing never worsens it. *)
From Stdlib Require Import SpecFloat.
From S2P Require Import Prelude Binary64 Core CpuList Topology Hotspot Incremental NodePlan Pinning.
From S2P Require Import Optimizer IncrementalPropose HotspotProperties IncrementalFacts.
From S2P Require Import PinningFacts OptimizerFacts IncrementalInvariant.
Local Open Scope Z_scope.

(** ** Helpers *)
Lemma identity_of_tid_inv s t : inv s → is_Some (i_threads s !! t) → tid (identity_of s t) = t.
Proof.
  intros Hs [th Ht]. destruct (inv_threads _ Hs t th Ht) as [Htid Hid].
  unfold identity_of, get_or. rewrite Hid. exact Htid.
Qed.

Lemma propose_online h threads edges o now delta s s' p :
  i_outstanding s = None → propose h threads edges o now delta s = (s', Ok p) →
  (0 < online_cpus h)%nat.
Proof.
  intros Ho. unfold propose. rewrite Ho. destruct (Nat.eqb_spec (online_cpus h) 0); [done|lia].
Qed.

(** Members after a committed list of actions, one per thread. *)
Lemma list_find_action (l : list PlacementAction) a t :
  NoDup (pa_tid <$> l) → a ∈ l → pa_tid a = t →
  ∃ i, list_find (λ a, pa_tid a = t ∧ is_committed ∅ a = true) l = Some (i, a).
Proof.
  intros Hnd [i Hi]%list_elem_of_lookup Ht. exists i. apply list_find_Some.
  split; [done|]. split; [done|].
  intros j b Hj Hlt [Hb _].
  assert (j = i); [|lia]. eapply (NoDup_lookup (pa_tid <$> l)); [exact Hnd| |].
  - rewrite list_lookup_fmap, Hj. cbn. by rewrite Hb.
  - rewrite list_lookup_fmap, Hi. cbn. by rewrite Ht.
Qed.

Lemma commit_all_placement p now s t :
  i_outstanding s = Some p → NoDup (pa_tid <$> sp_actions p) →
  (∀ a, a ∈ sp_actions p → pa_tid a = t →
     i_placement (commit p now ∅ s) !! t = Some (pa_target_cpu a)) ∧
  (t ∉ pa_tid <$> sp_actions p → i_placement (commit p now ∅ s) !! t = i_placement s !! t).
Proof.
  intros Ho Hnd. destruct (commit_fields p now ∅ s Ho) as [_ ->].
  rewrite commit_actions_placement by done. split.
  - intros a Ha Ht. destruct (list_find_action _ a t Hnd Ha Ht) as [i ->]. done.
  - intros Ht. destruct (list_find _ _) as [[i a]|] eqn:E; [|done].
    apply list_find_Some in E as (Hi%list_elem_of_lookup_2 & [<- _] & _).
    destruct Ht. by apply list_elem_of_fmap_2.
Qed.

(** ** When the solver is effective *)

(** in every state reachable through the solver's operations, placements
    belong to live threads only, and the selector reports itself effective
    exactly when it is optimizing a non-empty cohort all of whose threads have
    a committed CPU: the counter of pinned threads cannot match by accident. *)
Theorem effective_iff_all_placed s (Hr : reachable s) :
  dom (i_placement s) ⊆ dom (i_threads s) ∧ i_pinned s = dom (i_placement s) ∧
  (i_effective s = true ↔
     i_phase s = Optimizing ∧ i_threads s ≠ ∅ ∧
     ∀ t, is_Some (i_threads s !! t) → is_Some (i_placement s !! t)).
Proof.
  pose proof (reachable_inv s Hr) as [Hpin Hpl _ _ _ _ _]. split_and!; [done|done|].
  unfold i_effective. rewrite !andb_true_iff, bool_decide_eq_true, negb_true_iff, bool_decide_eq_false,
    Nat.eqb_eq. rewrite Hpin, <-(size_dom (i_threads s)).
  split.
  - intros [[Hp Hne] Hsz]. split_and!; [done|done|]. intros t Ht.
    apply elem_of_dom. apply elem_of_dom in Ht.
    assert (dom (i_placement s) = dom (i_threads s)) as ->; [|done].
    apply set_subseteq_size_eq; [done|lia].
  - intros (Hp & Hne & Hall). split_and!; [done|done|]. f_equal. apply set_eq. intros t.
    split; [set_solver|]. rewrite !elem_of_dom. auto.
Qed.

(** ** The initial pins *)
Lemma pin_action_tids h s targets pending :
  inv s → pending ⊆ live_tids s → pa_tid <$> (pin_action h s targets <$> pending) = pending.
Proof.
  intros Hs Hsub. rewrite <-list_fmap_compose. rewrite <-(list_fmap_id pending) at 2.
  apply list_fmap_ext. intros i t Ht. cbn.
  apply identity_of_tid_inv; [done|]. apply elem_of_live_tids, Hsub. by eapply list_elem_of_lookup_2.
Qed.

Lemma pinned_batch_populations h cap s budget s' p now cpu :
  inv s → i_outstanding s' = Some p → pinned_batch h cap s budget s' p →
  population (commit p now ∅ s') cpu ≤ Z.max cap (population s' cpu).
Proof.
  intros Hs Ho [Hth Hpl _ _ (st & Hloop & _ & Hact & _)].
  set (pending := pending_batch h s budget) in *.
  destruct (pending_batch_spec h s budget) as (Hnd & Hsub & _). fold pending in Hnd, Hsub.
  pose proof (pin_action_tids h s (pn_target_cpu st) pending Hs Hsub) as Htids.
  destruct (pin_loop_spec h cap s pending _ st Hnd Hloop) as (_ & Hcount & Hle).
  specialize (Hcount cpu). specialize (Hle cpu). cbn in Hcount, Hle.
  rewrite projected_vacated in Hcount, Hle.
  pose proof (commit_all_placement p now s') as Hc. rewrite Hact, Htids in Hc.
  destruct (commit_fields p now ∅ s' Ho) as [Hcth _].
  assert (live_tids (commit p now ∅ s') = live_tids s) as Hlive by (unfold live_tids; congruence).
  assert (live_tids s' = live_tids s) as Hlive' by (unfold live_tids; congruence).
  unfold population in *. rewrite Hlive, Hlive', Hpl.
  rewrite (Zsize_filter_moved (λ t, i_placement s !! t = Some cpu) _ _ pending
    (NoDup_live_tids s) Hnd Hsub).
  2: { intros t _ Ht. destruct (Hc t Ho Hnd) as [_ Hc2]. by rewrite Hc2, Hpl. }
  rewrite (Zsize_filter_ext (λ t, i_placement (commit p now ∅ s') !! t = Some cpu)
    (λ t, get_or 0 (pn_target_cpu st) t = cpu) pending).
  2: { intros t Ht. destruct (Hc t Ho Hnd) as [Hc1 _].
    rewrite (Hc1 (pin_action h s (pn_target_cpu st) t)).
    - cbn. split; congruence.
    - by apply list_elem_of_fmap_2.
    - cbn. apply identity_of_tid_inv; [done|]. by apply elem_of_live_tids, Hsub. }
  pose proof (Zsize_nonneg (filter (λ t, i_placement s !! t = Some cpu) pending)). lia.
Qed.

(** The phase named in a proposal is the phase that produced it, except that
    node planning names the phase it hands over to. *)
Lemma optimizing_phase h o cap s now delta base s' p :
  optimizing h o cap s now delta base = (s', Ok p) → sp_phase p = i_phase s.
Proof.
  unfold optimizing. destruct (_ =? 0).
  { intros [= <- <-]. done. }
  destruct (potentials _ _ _ _ _ _ _) as [ps skipped].
  set (l := current_loads h s). set (dirty := dirty_set _ _ _ _ _ _). set (ranked := ranking _ _ _ _ _ _ _).
  set (confirmations := next_confirmations _ _). set (actions := se_actions _).
  clearbody l dirty ranked confirmations actions.
  unfold publish. intros E. injection E as _ <-. done.
Qed.

Lemma propose_pins h threads edges o now delta s s' p :
  inv s → i_outstanding s = None → propose h threads edges o now delta s = (s', Ok p) →
  sp_phase p = InitialPinning → sp_ready p = true →
  ∃ s1, inv s1 ∧ i_placement s1 ⊆ i_placement s ∧ i_outstanding s' = Some p ∧
    sp_cpu_slot_cap p = window_cap h threads o ∧
    pinned_batch h (window_cap h threads o) s1 (sp_migration_budget p) s' p.
Proof.
  intros Hs Ho Hp Hph Hready.
  pose proof (propose_online _ _ _ _ _ _ _ _ _ Ho Hp) as Hcpu.
  destruct (incremental_propose_run _ _ _ _ _ _ _ _ _ Hs Ho Hcpu Hp) as (s1 & base & Hst & Hrun).
  pose proof (phase_run_inv _ _ _ _ _ _ _ _ _ _ Hst Hrun) as (_ & _ & _ & Hok).
  pose proof (st_inv _ _ _ _ _ _ Hst) as Hi. unfold phase_run in Hrun.
  destruct (i_phase s1) eqn:Ep.
  - destruct Hrun as (_ & _ & [= ->]). cbn in Hready. by rewrite (st_ready _ _ _ _ _ _ Hst) in Hready.
  - apply node_planning_inv in Hrun as (_ & _ & _ & _ & H5); [|done|apply Hst|apply Hst].
    destruct (H5 p eq_refl) as (_ & Hr & _). congruence.
  - apply initial_pinning_ready in Hrun as (_ & Hb & Hc & _ & Hpin); [|apply Hst..].
    rewrite Hready in Hpin. destruct Hpin as (Hpin & Hout & _). exists s1.
    rewrite Hb, Hc. split_and!; [done|apply Hst|done|apply Hst|done].
  - apply optimizing_phase in Hrun. congruence.
Qed.

(** C16: initial pinning keeps the slot cap: if no CPU holds more live threads
    than the window's cap when a pinning batch is proposed, then committing
    the whole batch leaves no CPU above the cap, whatever targets the node
    plan had chosen and whichever CPUs the batch vacates. *)
Theorem pinning_keeps_slot_cap h threads edges o now delta s s' p now'
    (Hr : reachable s) (Ho : i_outstanding s = None)
    (Hp : propose h threads edges o now delta s = (s', Ok p))
    (Hph : sp_phase p = InitialPinning) (Hready : sp_ready p = true)
    (Hcap : ∀ cpu, population s' cpu ≤ sp_cpu_slot_cap p) :
  ∀ cpu, population (commit p now' ∅ s') cpu ≤ sp_cpu_slot_cap p.
Proof.
  intros cpu. pose proof (reachable_inv s Hr) as Hs.
  destruct (propose_pins _ _ _ _ _ _ _ _ _ Hs Ho Hp Hph Hready) as (s1 & Hi & _ & Hout & Hc & Hb).
  pose proof (pinned_batch_populations _ _ _ _ _ _ now' cpu Hi Hout Hb) as Hle.
  specialize (Hcap cpu). rewrite Hc in *. lia.
Qed.

(** A run of three windows: plan, pin, optimize. *)
Definition demo_pairs : list RelationEdge := [demo_edge 11 12 9; demo_edge 13 14 4].
Definition demo_window (now : Z) (s : IncrementalSolver) : IncrementalSolver * result SolverProposal :=
  propose demo_hardware demo_cohort demo_pairs IncrementalOptions_default now None s.
Definition demo_planned : IncrementalSolver :=
  Eval vm_compute in (demo_window 1 (IncrementalSolver_init false)).1.
Definition demo_pinning : IncrementalSolver * SolverProposal :=
  Eval vm_compute in match demo_window 2 demo_planned with
                     | (s, Ok p) => (s, p)
                     | (s, Throw _) => (s, SolverProposal_default)
                     end.

Lemma demo_planned_reachable : reachable demo_planned.
Proof.
  exists false. apply rtc_once. eapply (step_propose demo_hardware demo_cohort demo_pairs
    IncrementalOptions_default 1 None). vm_compute. reflexivity.
Qed.
Lemma demo_pinning_Ok :
  propose demo_hardware demo_cohort demo_pairs IncrementalOptions_default 2 None demo_planned =
    (demo_pinning.1, Ok demo_pinning.2).
Proof. vm_compute. reflexivity. Qed.

Lemma pinning_keeps_slot_cap_witness :
  population (commit demo_pinning.2 3 ∅ demo_pinning.1) 2 ≤ sp_cpu_slot_cap demo_pinning.2 ∧
  sp_cpu_slot_cap demo_pinning.2 = 1 ∧
  (pa_target_cpu <$> sp_actions demo_pinning.2) = [2; 3; 0; 1].
Proof.
  split; [|split; vm_compute; reflexivity].
  apply (pinning_keeps_slot_cap demo_hardware demo_cohort demo_pairs IncrementalOptions_default 2 None
    demo_planned demo_pinning.1 demo_pinning.2 3 demo_planned_reachable).
  - vm_compute. reflexivity.
  - exact demo_pinning_Ok.
  - vm_compute. reflexivity.
  - vm_compute. reflexivity.
  - intros cpu. rewrite (population_empty demo_pinning.1 cpu) by (vm_compute; reflexivity).
    vm_compute. discriminate.
Defined.

(** ** Optimizing *)
Lemma node_planning_phase h o cap s base s' p :
  node_planning h o cap s base = (s', Ok p) → i_phase s = NodePlanning → sp_phase p ≠ Optimizing.
Proof.
  unfold node_planning. intros Hp Hs. destruct (fresh_partition h o cap s) as [fresh|e]; [|done].
  destruct (confirm_plan s (pt_node fresh)) as [assigned s1].
  set (p1 := plan_proposal _ _ _ _ _ _ _) in Hp. cbv zeta in Hp.
  assert (sp_phase p1 = i_phase s) as Hp1 by done. clearbody p1.
  destruct (negb (sp_initial_plan_confirmed p1)); simplify_eq; [congruence|done].
Qed.

Lemma propose_optimizes h threads edges o now delta s s' p :
  inv s → i_outstanding s = None → propose h threads edges o now delta s = (s', Ok p) →
  sp_phase p = Optimizing →
  ∃ s1 base ps se, phase_start h threads o s s1 base ∧ same_core s1 s' ∧ phase_ok s1 base s' p ∧
    optimized h o (window_cap h threads o) s1 now delta base s' p ps se.
Proof.
  intros Hs Ho Hp Hph.
  pose proof (propose_online _ _ _ _ _ _ _ _ _ Ho Hp) as Hcpu.
  destruct (incremental_propose_run _ _ _ _ _ _ _ _ _ Hs Ho Hcpu Hp) as (s1 & base & Hst & Hrun).
  pose proof (phase_run_inv _ _ _ _ _ _ _ _ _ _ Hst Hrun) as (_ & Hcore & _ & Hok).
  exists s1, base. unfold phase_run in Hrun. destruct (i_phase s1) eqn:Ep.
  - destruct Hrun as (_ & _ & [= ->]). done.
  - by apply node_planning_phase in Hrun.
  - apply initial_pinning_ready in Hrun as (Hph' & _); [congruence|apply Hst..].
  - apply optimizing_spec in Hrun as (ps & se & Hopt); [by exists ps, se|..|apply Hst|apply Hst|apply Hst].
    intros t. apply identity_of_tid_inv, Hst.
Qed.

(** The thread counters after every selected action is committed are the ones
    the admission loop projected. *)
Lemma committed_counts h o cap s now delta base s' p ps se now' cpu :
  inv s → same_core s s' → i_outstanding s' = Some p →
  optimized h o cap s now delta base s' p ps se →
  get_or 0 (ld_count (current_loads h (commit p now' ∅ s'))) cpu = get_or 0 (ld_count (se_loads se)) cpu.
Proof.
  intros Hs Hcore Hout [[Hnd _ Hgood _ _ Hcount _] Hact _ _ Hbase].
  rewrite Hcount, !current_loads_count.
  destruct (commit_fields p now' ∅ s' Hout) as [Hth _].
  assert (live_tids (commit p now' ∅ s') = live_tids s) as ->.
  { unfold live_tids. by rewrite Hth, (sc_threads _ _ Hcore). }
  rewrite Forall_forall in Hgood. rewrite <-Hact in *.
  rewrite (Zsize_filter_moved (λ t, current_cpu s t = cpu) _ _ (pa_tid <$> sp_actions p)
    (NoDup_live_tids s) Hnd).
  - f_equal; [f_equal|].
    + apply Zsize_filter_fmap. intros a Ha. unfold current_cpu.
      by rewrite (ga_from _ _ _ _ _ _ (Hgood a Ha)).
    + apply Zsize_filter_fmap. intros a Ha. unfold current_cpu.
      destruct (commit_all_placement p now' s' (pa_tid a) Hout Hnd) as [Hp _].
      by rewrite (Hp a Ha eq_refl).
  - intros t (a & -> & Ha)%list_elem_of_fmap. apply elem_of_live_tids, (Hgood a Ha).
  - intros t _ Ht. unfold current_cpu. rewrite commit_baseline, Hbase.
    destruct (commit_all_placement p now' s' t Hout Hnd) as [_ Hp].
    by rewrite (Hp Ht), (sc_placement _ _ Hcore).
Qed.

(** C17: an optimizing batch never adds a slot violation: the number of threads
    above the slot cap, summed over the CPUs, is not larger after the whole
    batch of a window has been committed than before it. *)
Theorem optimizing_never_adds_violation h threads edges o now delta s s' p now'
    (Hr : reachable s) (Ho : i_outstanding s = None)
    (Hp : propose h threads edges o now delta s = (s', Ok p)) (Hph : sp_phase p = Optimizing) :
  slot_violation h (sp_cpu_slot_cap p) (current_loads h (commit p now' ∅ s')) ≤
  slot_violation h (sp_cpu_slot_cap p) (current_loads h s').
Proof.
  pose proof (reachable_inv s Hr) as Hs.
  destruct (propose_optimizes _ _ _ _ _ _ _ _ _ Hs Ho Hp Hph) as (s1 & base & ps & se & Hst & Hcore & Hok & Hopt).
  pose proof (ph_outstanding _ _ _ _ Hok) as Hout. rewrite (st_outstanding _ _ _ _ _ _ Hst) in Hout.
  destruct (sp_ready p); [|unfold commit; rewrite Hout; done].
  rewrite (ph_cap _ _ _ _ Hok), (st_cap _ _ _ _ _ _ Hst).
  pose proof (st_inv _ _ _ _ _ _ Hst) as Hi.
  rewrite (slot_violation_ext h (window_cap h threads o) _ (se_loads se)).
  2: { intros cpu. by eapply committed_counts. }
  rewrite (slot_violation_ext h (window_cap h threads o) (current_loads h s') (current_loads h s1)).
  2: { intros cpu. rewrite !current_loads_count. unfold live_tids. rewrite (sc_threads _ _ Hcore).
    apply Zsize_filter_ext. intros t _. unfold current_cpu.
    by rewrite (sc_placement _ _ Hcore), (op_baseline _ _ _ _ _ _ _ _ _ _ _ Hopt). }
  apply (so_slots _ _ _ _ _ _ _ _ _ _ (op_selected _ _ _ _ _ _ _ _ _ _ _ Hopt)).
Qed.

(** a calm move waits: an optimizing action that is not an emergency never
    moves a thread inside its dwell, and belongs to a group of actions of the
    batch (the move itself, or the swap it is half of) that was a candidate in
    enough consecutive windows to reach the configured confirmation count. *)
Theorem calm_moves_confirmed h threads edges o now delta s s' p a
    (Hr : reachable s) (Ho : i_outstanding s = None)
    (Hp : propose h threads edges o now delta s = (s', Ok p)) (Hph : sp_phase p = Optimizing)
    (Ha : a ∈ sp_actions p) (Hcalm : pa_emergency a = false) :
  cooling o s' now (pa_tid a) = false ∧
  ∃ group, a ∈ group ∧ group ⊆ sp_actions p ∧
    proposal_confirmations o ≤ get_or 0 (i_action_confirmations s) (action_key group) + 1.
Proof.
  pose proof (reachable_inv s Hr) as Hs.
  destruct (propose_optimizes _ _ _ _ _ _ _ _ _ Hs Ho Hp Hph) as (s1 & base & ps & se & Hst & Hcore & Hok & Hopt).
  destruct Hopt as [[_ _ Hgood _ _ _ Hconf] Hact _ _ _]. rewrite Hact in *.
  rewrite Forall_forall in Hgood, Hconf. split.
  - unfold cooling. rewrite (sc_moved _ _ Hcore).
    exact (ga_rested _ _ _ _ _ _ (Hgood a Ha) Hcalm).
  - destruct (Hconf a Ha) as [?|(q & Hq & Haq & Hsub & Hkey & Hle)]; [congruence|].
    exists (po_actions q). split_and!; [done|exact Hsub|].
    rewrite <-Hkey, <-(st_confirmations _ _ _ _ _ _ Hst), <-(next_confirmations_spec s1 ps q Hq). exact Hle.
Qed.

(** ** What every proposal promises *)
Lemma lookup_foldl_insert {A} (f g : A → Z) (l : list A) t c :
  NoDup (f <$> l) →
  foldl (λ m x, <[f x := g x]> m) (∅ : gmap Z Z) l !! t = Some c ↔ ∃ x, x ∈ l ∧ f x = t ∧ g x = c.
Proof.
  revert t c. refine (foldl_invariant_prefix _ (λ pre (m : gmap Z Z), ∀ t c, NoDup (f <$> pre) →
    m !! t = Some c ↔ ∃ x, x ∈ pre ∧ f x = t ∧ g x = c) l ∅ _ _).
  { intros t c _. rewrite lookup_empty. split; [done|]. intros (x & Hx & _). by apply elem_of_nil in Hx. }
  intros pre x rest m _ IH t c. rewrite fmap_app, fmap_cons, fmap_nil. intros (Hnd & Hn & _)%NoDup_app.
  destruct (decide (f x = t)) as [<-|Hne].
  - rewrite lookup_insert_eq. split; [intros [= <-]; exists x; set_solver|].
    intros (y & [Hy|Hy%list_elem_of_singleton]%elem_of_app & Hf & Hg); [|congruence].
    destruct (Hn (f y)); [by apply list_elem_of_fmap_2|set_solver].
  - rewrite lookup_insert_ne, IH by done. split; intros (y & Hy & Hf & Hg); exists y; split_and!; try done.
    + set_solver.
    + apply elem_of_app in Hy as [?|Hy%list_elem_of_singleton]; [done|congruence].
Qed.

(** The actions of a proposal, as a batch for the actuator. *)
Record batch_ok (s : IncrementalSolver) (p : SolverProposal) : Prop := {
  bk_budget : Zsize (sp_actions p) ≤ Z.max 0 (sp_migration_budget p);
  bk_nodup : NoDup (pa_tid <$> sp_actions p);
  bk_live : ∀ a, a ∈ sp_actions p →
    is_Some (i_threads s !! pa_tid a) ∧ i_identities s !! pa_tid a = Some (pa_identity a);
  bk_delta : ∀ t c, tid_to_cpu (sp_delta p) !! t = Some c ↔
    ∃ a, a ∈ sp_actions p ∧ pa_tid a = t ∧ pa_target_cpu a = c;
  bk_ready : sp_ready p = true ↔ sp_actions p ≠ [];
}.

Lemma batch_ok_empty s p :
  sp_actions p = [] → sp_delta p = mk_PlacementDelta ∅ ∅ → sp_ready p = false → batch_ok s p.
Proof.
  intros Ha Hd Hr. constructor; rewrite ?Ha, ?Hd, ?Hr.
  - unfold Zsize. cbn. lia.
  - apply NoDup_nil_2.
  - intros a H. by apply elem_of_nil in H.
  - intros t c. cbn. rewrite lookup_empty. split; [done|]. intros (a & H & _). by apply elem_of_nil in H.
  - done.
Qed.

Lemma identity_recorded s t :
  inv s → is_Some (i_threads s !! t) → i_identities s !! t = Some (identity_of s t).
Proof.
  intros Hs [th Ht]. destruct (inv_threads _ Hs t th Ht) as [_ Hid].
  unfold identity_of, get_or. by rewrite Hid.
Qed.

Lemma pinned_batch_ok h cap s s' p :
  inv s → same_core s s' → sp_ready p = true → sp_actions p ≠ [] →
  pinned_batch h cap s (sp_migration_budget p) s' p → batch_ok s' p.
Proof.
  intros Hs Hcore Hr Hne [_ _ _ _ (st & _ & _ & Hact & Hdelta)].
  destruct (pending_batch_spec h s (sp_migration_budget p)) as (Hnd & Hsub & Hle).
  set (pending := pending_batch _ _ _) in *. clearbody pending.
  pose proof (pin_action_tids h s (pn_target_cpu st) pending Hs Hsub) as Htids.
  assert (∀ t, t ∈ pending → pa_tid (pin_action h s (pn_target_cpu st) t) = t ∧ is_Some (i_threads s !! t)) as Hp.
  { intros t Ht. assert (is_Some (i_threads s !! t)) by (by apply elem_of_live_tids, Hsub).
    split; [by apply identity_of_tid_inv|done]. }
  constructor; rewrite ?Hact, ?Htids, ?length_fmap_Zsize, ?Hdelta; try done.
  - intros a (t & -> & Ht)%list_elem_of_fmap. destruct (Hp t Ht) as [-> Hl].
    rewrite (sc_threads _ _ Hcore), (sc_identities _ _ Hcore). split; [done|]. by apply identity_recorded.
  - intros t c. unfold pin_delta. cbn [tid_to_cpu].
    rewrite (lookup_foldl_insert id (get_or 0 (pn_target_cpu st))) by (by rewrite list_fmap_id). split.
    + intros (x & Hx & <- & <-). exists (pin_action h s (pn_target_cpu st) x).
      split; [by apply list_elem_of_fmap_2|]. by destruct (Hp x Hx) as [-> _].
    + intros (a & (x & -> & Hx)%list_elem_of_fmap & Ht & Hc). exists x.
      destruct (Hp x Hx) as [Hx' _]. rewrite Hx' in Ht. done.
  - rewrite <-Hact. by rewrite Hr.
Qed.

Lemma optimized_batch_ok h o cap s now delta base s' p ps se :
  inv s → same_core s s' → sp_migration_budget p = sp_migration_budget base →
  optimized h o cap s now delta base s' p ps se → batch_ok s' p.
Proof.
  intros Hs Hcore Hb [[Hnd _ Hgood Hle _ _ _] Hact Hdelta Hready _].
  rewrite Forall_forall in Hgood. constructor; rewrite ?Hact, ?Hdelta, ?Hb; try done.
  - intros a Ha. rewrite (sc_threads _ _ Hcore), (sc_identities _ _ Hcore).
    destruct (Hgood a Ha) as [Hl _ Hid _ _ _]. split; [done|]. rewrite Hid. by apply identity_recorded.
  - intros t c. unfold actions_delta. cbn [tid_to_cpu]. by apply lookup_foldl_insert.
  - rewrite Hready, negb_true_iff, bool_decide_eq_false. done.
Qed.

Lemma propose_batch h threads edges o now delta s s' p :
  inv s → i_outstanding s = None → propose h threads edges o now delta s = (s', Ok p) →
  batch_ok s' p ∧ i_outstanding s' = (if sp_ready p then Some p else None) ∧
  i_placement s' ⊆ i_placement s ∧ i_generation s' = i_generation s.
Proof.
  intros Hs Ho Hp.
  pose proof (propose_online _ _ _ _ _ _ _ _ _ Ho Hp) as Hcpu.
  destruct (incremental_propose_run _ _ _ _ _ _ _ _ _ Hs Ho Hcpu Hp) as (s1 & base & Hst & Hrun).
  pose proof (phase_run_inv _ _ _ _ _ _ _ _ _ _ Hst Hrun) as (_ & Hcore & _ & Hok).
  pose proof (ph_outstanding _ _ _ _ Hok) as Hout. pose proof (ph_budget _ _ _ _ Hok) as Hb.
  destruct Hst as [Hi Hpl Ho1 Hg _ _ _ Hr1 Ha1 Hd1 _ _].
  rewrite Ho1 in Hout. rewrite (sc_placement _ _ Hcore), (sc_generation _ _ Hcore), Hg.
  split; [|done]. unfold phase_run in Hrun. destruct (i_phase s1) eqn:Ep.
  - destruct Hrun as (_ & _ & [= ->]). by apply batch_ok_empty.
  - apply node_planning_inv in Hrun as (_ & _ & _ & _ & H5); [|done..].
    destruct (H5 p eq_refl) as (_ & Hr' & Ha' & Hd'). apply batch_ok_empty; congruence.
  - apply initial_pinning_ready in Hrun as (_ & _ & _ & _ & Hpin); [|done..].
    destruct (sp_ready p) eqn:Er; [|destruct Hpin; by apply batch_ok_empty].
    destruct Hpin as (Hpin & _ & Hne). rewrite <-Hb in Hpin. by eapply pinned_batch_ok.
  - apply optimizing_spec in Hrun as (ps & se & Hopt); [by eapply optimized_batch_ok|..|done|done|done].
    intros t. by apply identity_of_tid_inv.
Qed.

(** C18: every proposal of the solver, in whichever phase it is produced, is a
    batch the actuator can take: it stays within the migration budget, names
    each thread once and with its recorded identity, its delta holds exactly
    the targets of its actions, it is ready and retained as the outstanding
    proposal exactly when it has actions, and proposing neither places a
    thread nor counts as a generation. *)
Theorem proposal_within_budget h threads edges o now delta s s' p
    (Hr : reachable s) (Ho : i_outstanding s = None)
    (Hp : propose h threads edges o now delta s = (s', Ok p)) :
  batch_ok s' p ∧ i_outstanding s' = (if sp_ready p then Some p else None) ∧
  i_placement s' ⊆ i_placement s ∧ i_generation s' = i_generation s.
Proof. exact (propose_batch _ _ _ _ _ _ _ _ _ (reachable_inv s Hr) Ho Hp). Qed.

(** the hotspot-stability replan is never triggered: no operation sets its
    arming flag, so in every reachable state a window's proposal reports no
    triggered replan, whatever stability threshold and confirmation count are
    configured. *)
Theorem stability_replan_never_triggers h threads edges o now delta s s' p
    (Hr : reachable s) (Ho : i_outstanding s = None)
    (Hp : propose h threads edges o now delta s = (s', Ok p)) :
  i_stable_hotspot_replan_pending s = false ∧ sp_hotspot_replan_triggered p = false.
Proof.
  pose proof (reachable_inv s Hr) as Hs. split; [apply Hs|].
  pose proof (propose_online _ _ _ _ _ _ _ _ _ Ho Hp) as Hcpu.
  destruct (incremental_propose_run _ _ _ _ _ _ _ _ _ Hs Ho Hcpu Hp) as (s1 & base & Hst & Hrun).
  pose proof (phase_run_inv _ _ _ _ _ _ _ _ _ _ Hst Hrun) as (_ & _ & _ & Hok).
  rewrite (ph_triggered _ _ _ _ Hok). apply Hst.
Qed.

Lemma stability_replan_never_triggers_witness :
  sp_hotspot_replan_triggered demo_pinning.2 = false.
Proof.
  refine (proj2 (stability_replan_never_triggers _ _ _ _ _ _ _ _ demo_pinning.2
    demo_planned_reachable _ demo_pinning_Ok)). reflexivity.
Defined.

Definition demo_running : IncrementalSolver :=
  Eval vm_compute in commit demo_pinning.2 3 ∅ demo_pinning.1.
Lemma demo_running_reachable : reachable demo_running.
Proof.
  destruct demo_planned_reachable as [sh H]. exists sh. etrans; [exact H|].
  eapply rtc_l; [eapply (step_propose _ _ _ _ _ _ _ _ _ demo_pinning_Ok)|].
  apply rtc_once.
  assert (demo_running = commit demo_pinning.2 3 ∅ demo_pinning.1) as -> by (vm_compute; reflexivity).
  apply step_commit. intros a Ha _.
  assert (Forall (λ a, is_Some (i_threads demo_pinning.1 !! pa_tid a)) (sp_actions demo_pinning.2)) as Hf
    by (apply (bool_decide_unpack _); vm_compute; exact I).
  rewrite Forall_forall in Hf. auto.
Qed.

Lemma effective_iff_all_placed_witness :
  i_effective demo_running = true ∧ is_Some (i_placement demo_running !! 12).
Proof.
  assert (i_effective demo_running = true) as He by (vm_compute; reflexivity).
  split; [exact He|].
  destruct (effective_iff_all_placed demo_running demo_running_reachable) as (_ & _ & H).
  destruct (proj1 H He) as (_ & _ & Hall). apply Hall. vm_compute. eexists. reflexivity.
Defined.

(** The relations change: two optimizing windows confirm a swap. *)
Definition demo_crossed : list RelationEdge := [demo_edge 11 13 9; demo_edge 12 14 4].
Definition demo_swap_options : IncrementalOptions :=
  mk_IncrementalOptions (dlit 5 10) d1 2 1 60000000000 2 (dlit 5 10) 4 64 32 (dlit 5 100)
    d1 (dlit 10 100) (dlit 5 100) 0 0 (dlit 2 100) (dlit 25 100) (dlit 5 100) (dlit 95 100)
    (dlit 5 100) 1 (dlit 95 100) (double_of_Z 4) 2 d1 (dlit 25 100) 8 (dlit 65 100) 3.
Definition demo_optimize (now : Z) (s : IncrementalSolver) : IncrementalSolver * result SolverProposal :=
  propose demo_hardware demo_cohort demo_crossed demo_swap_options now None s.
Definition demo_seen : IncrementalSolver := Eval vm_compute in (demo_optimize 100000000000 demo_running).1.
Definition demo_swap : IncrementalSolver * SolverProposal :=
  Eval vm_compute in match demo_optimize 200000000000 demo_seen with
                     | (s, Ok p) => (s, p)
                     | (s, Throw _) => (s, SolverProposal_default)
                     end.
Definition demo_swapped : PlacementAction :=
  Eval vm_compute in default (mk_PlacementAction (mk_ThreadIdentity 0 0 0) 0 0 false false d0 d0 d0)
    (head (sp_actions demo_swap.2)).

Lemma demo_seen_reachable : reachable demo_seen.
Proof.
  destruct demo_running_reachable as [sh H]. exists sh. etrans; [exact H|]. apply rtc_once.
  eapply (step_propose demo_hardware demo_cohort demo_crossed demo_swap_options 100000000000 None).
  vm_compute. reflexivity.
Qed.
Lemma demo_swap_Ok :
  propose demo_hardware demo_cohort demo_crossed demo_swap_options 200000000000 None demo_seen =
    (demo_swap.1, Ok demo_swap.2).
Proof. vm_compute. reflexivity. Qed.

Lemma calm_moves_confirmed_witness :
  cooling demo_swap_options demo_swap.1 200000000000 (pa_tid demo_swapped) = false ∧
  ((λ a, (pa_tid a, pa_from_cpu a, pa_target_cpu a)) <$> sp_actions demo_swap.2) = [(11, 0, 3); (14, 3, 0)].
Proof.
  split; [|vm_compute; reflexivity].
  refine (proj1 (calm_moves_confirmed _ _ _ _ _ _ _ _ demo_swap.2 demo_swapped
    demo_seen_reachable _ demo_swap_Ok _ _ _)); [reflexivity|reflexivity| |reflexivity].
  vm_compute. left.
Defined.

Lemma optimizing_never_adds_violation_witness :
  slot_violation demo_hardware (sp_cpu_slot_cap demo_swap.2)
    (current_loads demo_hardware (commit demo_swap.2 300000000000 ∅ demo_swap.1)) ≤ 0 ∧
  sp_cpu_slot_cap demo_swap.2 = 1.
Proof.
  split; [|vm_compute; reflexivity].
  etrans; [refine (optimizing_never_adds_violation demo_hardware _ _ _ _ _ _ _ demo_swap.2 300000000000
    demo_seen_reachable _ demo_swap_Ok _); reflexivity|].
  vm_compute. discriminate.
Defined.

Lemma proposal_within_budget_witness :
  batch_ok demo_swap.1 demo_swap.2 ∧ i_outstanding demo_swap.1 = Some demo_swap.2 ∧
  sp_migration_budget demo_swap.2 = 2.
Proof.
  destruct (proposal_within_budget _ _ _ _ _ _ _ _ demo_swap.2 demo_seen_reachable eq_refl demo_swap_Ok)
    as (Hb & Ho & _).
  split; [exact Hb|]. split; [exact Ho|vm_compute; reflexivity].
Defined.
