(* ===== verification/Runtime.v ===== *)
(** * The runtime: state, effects and control operations ([src/runtime.cpp])

    [Runtime] owns every other component: the window, the two selectors, the
    actuator and the BPF health window.  Its member functions change that
    state, may throw, and take the non-recursive [mutex_]; they are written in
    a small monad whose computations end by returning, by an exception, or by
    blocking on the mutex its own thread holds.

    The JSON log is kept as the sequence of its event types with their
    [outcome] field; the other fields only print values of the state. *)
From S2P Require Import Prelude Binary64 Core CpuList Actuator Topology DomainSolver GraphWindow.
From S2P Require Import ThreadProfile Config Hotspot Incremental IncrementalPropose.
Local Open Scope string_scope.
Local Open Scope Z_scope.

(** ** State *)
Record LifecycleRecord := mk_LifecycleRecord {
  lc_tgid : Z;
  lc_parent_tgid : Z;
  lc_parent_tid : Z;
  lc_tid : Z;
  lc_start_routine : Z;
  lc_bpf_start_time_ns : Z;
  lc_proc_starttime : Z;
  lc_created_ns : Z;
  lc_start_symbol : string;
  lc_name : string;
  lc_inherited_mask : list Z;
}.

Record LogEvent := mk_LogEvent { le_type : string; le_outcome : string }.

(** [action_requested_] … [action_failures_] *)
Record ActionCounters := mk_ActionCounters {
  ct_requested : Z;
  ct_committed : Z;
  ct_vanished : Z;
  ct_rolled_back : Z;
  ct_failures : Z;
}.

(** The counters of [affinitygraph_bpf_health] the runtime computes with. *)
Record BpfCounters := mk_BpfCounters { bc_emitted : Z; bc_dropped : Z }.

(** [bpf_health_.valid], [bpf_health_history_] and the values derived from it. *)
Record HealthWindow := mk_HealthWindow {
  hw_valid : bool;
  hw_history : list (Z * BpfCounters);
  hw_ready : bool;
  hw_loss_ratio : double;
  hw_consecutive_failures : Z;
  hw_failed_since_ns : Z;
}.
Definition HealthWindow_init : HealthWindow := mk_HealthWindow false [] false d0 0 0.

Record Runtime (W : Type) := mk_Runtime {
  rt_world : W;
  rt_actuator : Actuator;
  rt_solver : IncrementalSolver;
  rt_domain_solver : NumaDomainSolver;
  rt_graph : GraphWindow;
  rt_lifecycle : gmap Z LifecycleRecord;
  rt_pending_application_masks : gmap Z (list Z);
  rt_target_tgids : gset Z;
  rt_current_plan : gmap Z Z;
  rt_current_masks : gmap Z (list Z);
  rt_active_cohort : gset Z;
  rt_selector_ready : bool;
  rt_last_solve_ns : Z;
  rt_window_sequence : Z;
  rt_health : HealthWindow;
  rt_profile_state : AssignmentState;
  rt_collector_failed_since_ns : Z;
  rt_last_new_profile_match_ns : Z;
  rt_sampling_stopped : bool;
  rt_fatal_error : string;
  rt_counters : ActionCounters;
  rt_last_restore : RestoreResult;
  rt_paused : bool;
  (** [SIGTERM] was sent to the process group of the workload *)
  rt_terminated : bool;
  (** [mutex_] is held by the runtime's thread *)
  rt_locked : bool;
  rt_log : list LogEvent;
}.
Arguments mk_Runtime {_}.
Arguments rt_world [_] _. Arguments rt_actuator [_] _. Arguments rt_solver [_] _.
Arguments rt_domain_solver [_] _. Arguments rt_graph [_] _. Arguments rt_lifecycle [_] _.
Arguments rt_pending_application_masks [_] _. Arguments rt_target_tgids [_] _.
Arguments rt_current_plan [_] _. Arguments rt_current_masks [_] _.
Arguments rt_active_cohort [_] _. Arguments rt_selector_ready [_] _.
Arguments rt_last_solve_ns [_] _. Arguments rt_window_sequence [_] _. Arguments rt_health [_] _.
Arguments rt_profile_state [_] _. Arguments rt_collector_failed_since_ns [_] _.
Arguments rt_last_new_profile_match_ns [_] _. Arguments rt_sampling_stopped [_] _.
Arguments rt_fatal_error [_] _. Arguments rt_counters [_] _. Arguments rt_last_restore [_] _.
Arguments rt_paused [_] _. Arguments rt_terminated [_] _. Arguments rt_locked [_] _.
Arguments rt_log [_] _.

Definition Runtime_eta {W} (s : Runtime W) : Runtime W :=
  mk_Runtime (rt_world s) (rt_actuator s) (rt_solver s) (rt_domain_solver s) (rt_graph s)
    (rt_lifecycle s) (rt_pending_application_masks s) (rt_target_tgids s) (rt_current_plan s)
    (rt_current_masks s) (rt_active_cohort s) (rt_selector_ready s) (rt_last_solve_ns s)
    (rt_window_sequence s) (rt_health s) (rt_profile_state s) (rt_collector_failed_since_ns s)
    (rt_last_new_profile_match_ns s) (rt_sampling_stopped s) (rt_fatal_error s) (rt_counters s)
    (rt_last_restore s) (rt_paused s) (rt_terminated s) (rt_locked s) (rt_log s).

(** Reduces the members of an updated runtime. *)
Ltac runtime_simpl :=
  cbn [rt_world rt_actuator rt_solver rt_domain_solver rt_graph rt_lifecycle
    rt_pending_application_masks rt_target_tgids rt_current_plan rt_current_masks
    rt_active_cohort rt_selector_ready rt_last_solve_ns rt_window_sequence rt_health
    rt_profile_state rt_collector_failed_since_ns rt_last_new_profile_match_ns
    rt_sampling_stopped rt_fatal_error rt_counters rt_last_restore rt_paused rt_terminated
    rt_locked rt_log].

(** [s ⟨ f := v ⟩]: the member [f] of the runtime assigned [v]; consecutive
    updates collapse into one record. *)
Ltac runtime_update s f v :=
  let T := type of s in
  let W := match T with Runtime ?W => W end in
  let t := eval cbv beta delta [Runtime_eta] in (Runtime_eta s) in
  let p := eval pattern (f W s) in t in
  match p with ?G _ =>
    let r := eval cbv beta in (G v) in
    let r' := eval cbn [rt_world rt_actuator rt_solver rt_domain_solver rt_graph rt_lifecycle
      rt_pending_application_masks rt_target_tgids rt_current_plan rt_current_masks
      rt_active_cohort rt_selector_ready rt_last_solve_ns rt_window_sequence rt_health
      rt_profile_state rt_collector_failed_since_ns rt_last_new_profile_match_ns
      rt_sampling_stopped rt_fatal_error rt_counters rt_last_restore rt_paused rt_terminated
      rt_locked rt_log] in r in
    exact r'
  end.
Notation "s ⟨ f := v ⟩" := (ltac:(runtime_update s f v))
  (at level 1, f constr at level 0, v at level 200, left associativity, only parsing) : ag_scope.
Local Open Scope ag_scope.

(** ** Effects *)
Inductive outcome (W A : Type) :=
  | Returned (a : A) (s : Runtime W)
  | Thrown (e : exn) (s : Runtime W)
  (** the thread waits for the mutex it already holds *)
  | Deadlocked (s : Runtime W).
Arguments Returned {_ _}. Arguments Thrown {_ _}. Arguments Deadlocked {_ _}.

Definition M (W A : Type) : Type := Runtime W → outcome W A.

#[export] Instance M_ret {W} : MRet (M W) := λ A a s, Returned a s.
#[export] Instance M_bind {W} : MBind (M W) := λ A B f m s,
  match m s with
  | Returned a s' => f a s'
  | Thrown e s' => Thrown e s'
  | Deadlocked s' => Deadlocked s'
  end.

Definition get {W} : M W (Runtime W) := λ s, Returned s s.
Definition modify {W} (f : Runtime W → Runtime W) : M W unit := λ s, Returned tt (f s).
Definition when {W} (b : bool) (m : M W unit) : M W unit := if b then m else mret tt.

Section operations.
Context {W : Type} `{AffinityBackend W}.

(** A function of another component that may throw. *)
Definition lift {A} (r : result A) : M W A := λ s,
  match r with Ok a => Returned a s | Throw e => Thrown e s end.

(** [log(type, …"outcome":…)] *)
Definition log (type outcome : string) : M W unit :=
  modify (λ s : Runtime W, s ⟨ rt_log := (rt_log s ++ [mk_LogEvent type outcome])%list ⟩).
Definition window_end (outcome : string) : M W unit := log "solve_window_end" outcome.

(** [std::lock_guard lock(mutex_)] around [m]: released when the scope is
    left, also by an exception. *)
Definition with_lock {A} (m : M W A) : M W A := λ s,
  if rt_locked s then Deadlocked s else
  match m (s ⟨ rt_locked := true ⟩) with
  | Returned a s' => Returned a (s' ⟨ rt_locked := false ⟩)
  | Thrown e s' => Thrown e (s' ⟨ rt_locked := false ⟩)
  | Deadlocked s' => Deadlocked s'
  end.

(** *** Calls into the components *)
Definition actuator_restore (tids : gset Z) : M W RestoreResult := λ s,
  match restore (rt_world s) (rt_actuator s) tids with
  | (w, a, Ok r) => Returned r (s ⟨ rt_world := w ⟩ ⟨ rt_actuator := a ⟩)
  | (w, a, Throw e) => Thrown e (s ⟨ rt_world := w ⟩ ⟨ rt_actuator := a ⟩)
  end.
Definition actuator_restore_all : M W RestoreResult := λ s,
  match restore_all (rt_world s) (rt_actuator s) with
  | (w, a, Ok r) => Returned r (s ⟨ rt_world := w ⟩ ⟨ rt_actuator := a ⟩)
  | (w, a, Throw e) => Thrown e (s ⟨ rt_world := w ⟩ ⟨ rt_actuator := a ⟩)
  end.
Definition actuator_apply (d : PlacementDelta) (live : gset Z) : M W ApplyResult := λ s,
  let '(w, a, r) := apply (rt_world s) (rt_actuator s) d live in
  Returned r (s ⟨ rt_world := w ⟩ ⟨ rt_actuator := a ⟩).

Definition domain_commit (p : NumaDomainProposal) (now : Z) (committed : gset Z) : M W unit := λ s,
  match DomainSolver.commit p now committed (rt_domain_solver s) with
  | Ok d => Returned tt (s ⟨ rt_domain_solver := d ⟩)
  | Throw e => Thrown e s
  end.
Definition domain_discard (p : NumaDomainProposal) : M W unit :=
  modify (λ s : Runtime W, s ⟨ rt_domain_solver := DomainSolver.discard p (rt_domain_solver s) ⟩).
(** [for (int tid : tids) domain_solver_.remove_thread(tid)] *)
Definition domain_remove (tids : gset Z) : M W unit :=
  modify (λ s : Runtime W, s ⟨ rt_domain_solver :=
    foldl (λ d t, DomainSolver.remove_thread t d) (rt_domain_solver s) (set_items tids) ⟩).

(** *** [Runtime::pause], [Runtime::resume], [Runtime::trigger_fatal] *)
Definition reset_members (r : RestoreResult) (s : Runtime W) : Runtime W :=
  s ⟨ rt_last_restore := r ⟩ ⟨ rt_current_plan := (∅ : gmap Z Z) ⟩
    ⟨ rt_current_masks := (∅ : gmap Z (list Z)) ⟩
    ⟨ rt_active_cohort := (∅ : gset Z) ⟩ ⟨ rt_selector_ready := false ⟩
    ⟨ rt_solver := Incremental.reset (rt_solver s) ⟩
    ⟨ rt_domain_solver := DomainSolver.reset (rt_domain_solver s) ⟩.
Definition pause : M W unit :=
  _ ← modify (λ s : Runtime W, s ⟨ rt_paused := true ⟩);
  with_lock (r ← actuator_restore_all; _ ← modify (reset_members r); log "pause" "").
Definition resume : M W unit :=
  _ ← modify (λ s : Runtime W, s ⟨ rt_paused := false ⟩); log "resume" "".

(** [kill(-root_pid_, SIGTERM)] *)
Definition terminate : M W unit := modify (λ s : Runtime W, s ⟨ rt_terminated := true ⟩).

(** [true] when a fatal error was already recorded. *)
Definition record_fatal (message : string) : M W bool := λ s,
  if bool_decide (rt_fatal_error s ≠ "") then Returned true s
  else Returned false (s ⟨ rt_fatal_error := message ⟩).
Definition trigger_fatal (message : string) : M W unit :=
  known ← with_lock (record_fatal message);
  if (known : bool) then mret tt
  else _ ← log "hard_failure" message; _ ← pause; terminate.

(** *** Thread lifecycle *)
Definition thread_started (r : LifecycleRecord) : M W unit :=
  with_lock (
    _ ← modify (λ s : Runtime W,
          s ⟨ rt_lifecycle := <[lc_tid r := r]> (rt_lifecycle s) ⟩
            ⟨ rt_target_tgids := if 0 <? lc_tgid r then {[lc_tgid r]} ∪ rt_target_tgids s
                                 else rt_target_tgids s ⟩);
    log "thread_start" "").

Definition with_name (name : string) (r : LifecycleRecord) : LifecycleRecord :=
  mk_LifecycleRecord (lc_tgid r) (lc_parent_tgid r) (lc_parent_tid r) (lc_tid r) (lc_start_routine r)
    (lc_bpf_start_time_ns r) (lc_proc_starttime r) (lc_created_ns r) (lc_start_symbol r) name
    (lc_inherited_mask r).
Definition thread_renamed (t : Z) (name : string) : M W unit :=
  with_lock (
    _ ← modify (λ s : Runtime W, s ⟨ rt_lifecycle := alter (with_name name) t (rt_lifecycle s) ⟩);
    log "thread_name" "").

Definition forget_thread (t : Z) (s : Runtime W) : Runtime W :=
  s ⟨ rt_lifecycle := delete t (rt_lifecycle s) ⟩
    ⟨ rt_pending_application_masks := delete t (rt_pending_application_masks s) ⟩
    ⟨ rt_current_plan := delete t (rt_current_plan s) ⟩
    ⟨ rt_current_masks := delete t (rt_current_masks s) ⟩
    ⟨ rt_active_cohort := rt_active_cohort s ∖ {[t]} ⟩
    ⟨ rt_solver := Incremental.remove_thread t (rt_solver s) ⟩
    ⟨ rt_domain_solver := DomainSolver.remove_thread t (rt_domain_solver s) ⟩.
Definition thread_exited (t : Z) : M W unit :=
  with_lock (_ ← modify (forget_thread t); log "thread_exit" "").

Definition note_affinity (t : Z) (cpus : list Z) (s : Runtime W) : Runtime W :=
  match rt_lifecycle s !! t with
  | None => s ⟨ rt_pending_application_masks := <[t := cpus]> (rt_pending_application_masks s) ⟩
  | Some _ => s ⟨ rt_actuator := note_application_mask (rt_actuator s) t cpus ⟩
  end.
Definition application_affinity (t : Z) (cpus : list Z) : M W unit :=
  if bool_decide (cpus = []) then mret tt else
  with_lock (_ ← modify (note_affinity t cpus); log "application_affinity" "").
End operations.

(** [static_profile_effective] *)
Definition static_profile_effective (c : Config) (profile : option ThreadProfile) : bool :=
  match profile with
  | None => false
  | Some p => negb (bool_decide (placements p = [])) &&
              (negb (dynamic c) || negb (dyn_enabled (profile_dynamic p)))
  end.
