(* ===== verification/RuntimeSolve.v ===== *)
(** * The solve window ([Runtime::maybe_solve], [Runtime::solve_numa_domains])

    One window of the runtime: it reads the graph, asks the configured selector
    for a proposal, hands the proposal to the actuator, and commits or discards
    it according to what the kernel accepted. *)
From Stdlib Require Import SpecFloat.
From S2P Require Import Prelude Binary64 Core CpuList Actuator Topology DomainSolver GraphWindow.
From S2P Require Import ThreadProfile Config ConfigProperties Hotspot Incremental IncrementalPropose.
From S2P Require Import Runtime.
Local Open Scope string_scope.
Local Open Scope Z_scope.
Local Open Scope ag_scope.

(** The options built from the configuration: the selection stage sets five
    fields of a default object, the solver stage sets them all. *)
Definition selector_options (c : Config) : IncrementalOptions :=
  let d := IncrementalOptions_default in
  mk_IncrementalOptions (Hotspot.maximum_migrated_threads_ratio d)
    (Hotspot.initial_migrated_threads_ratio d) (Hotspot.proposal_confirmations d)
    (Hotspot.initial_proposal_confirmations d) (Hotspot.minimum_dwell_ns d)
    (Hotspot.initial_node_passes d) (Hotspot.initial_node_thread_slack_ratio d)
    (Hotspot.candidate_multiplier d) (Hotspot.candidate_hard_limit d)
    (Hotspot.rotating_scan_size d) (Hotspot.demand_dirty_threshold d)
    (Hotspot.edge_dirty_absolute_threshold d) (Hotspot.edge_dirty_relative_threshold d)
    (Hotspot.minimum_relative_gain d) (Hotspot.maximum_threads_per_cpu d)
    (Hotspot.thread_slot_slack d) (Hotspot.future_demand_floor d)
    (Hotspot.group_peak_demand_ratio d) (Hotspot.group_peak_demand_cap d)
    (Hotspot.group_peak_decay d) (Hotspot.node_balance_threshold d)
    (Config.hotspot_edges_per_thread c) (Config.hotspot_edge_quantile c)
    (Config.hotspot_component_boost c) (Config.maximum_managed_threads c)
    (Config.managed_thread_hysteresis_ratio c) (Hotspot.hotspot_replan_growth_ratio d)
    (Hotspot.hotspot_replan_min_threads d) (Hotspot.hotspot_stability_threshold d)
    (Hotspot.hotspot_stability_confirmations d).

Definition incremental_options (c : Config) : IncrementalOptions :=
  mk_IncrementalOptions (Config.maximum_migrated_threads_ratio c)
    (Config.initial_migrated_threads_ratio c) (Config.proposal_confirmations c)
    (Config.initial_proposal_confirmations c) (u64 (u64 (minimum_dwell_seconds c) * 1000000000))
    (Config.initial_node_passes c) (Config.initial_node_thread_slack_ratio c)
    (Config.candidate_multiplier c) (Config.candidate_hard_limit c)
    (Config.rotating_scan_size c) (Config.demand_dirty_threshold c)
    (Config.edge_dirty_absolute_threshold c) (Config.edge_dirty_relative_threshold c)
    (Config.minimum_relative_gain c) (Config.maximum_threads_per_cpu c)
    (Config.thread_slot_slack c) (Config.future_demand_floor c)
    (Config.group_peak_demand_ratio c) (Config.group_peak_demand_cap c)
    (Config.group_peak_decay c) (Config.node_balance_threshold c)
    (Config.hotspot_edges_per_thread c) (Config.hotspot_edge_quantile c)
    (Config.hotspot_component_boost c) (Config.maximum_managed_threads c)
    (Config.managed_thread_hysteresis_ratio c) (Config.hotspot_replan_growth_ratio c)
    (Config.hotspot_replan_min_threads c) (Config.hotspot_stability_threshold c)
    (Config.hotspot_stability_confirmations c).

Section solve.
Context {W : Type} `{AffinityBackend W}.
(** What the constructor fixes: the configuration, the hardware, the loaded
    profile, whether a BPF reader is attached; and libm's [log1p]. *)
Context (config : Config) (hardware : HardwareGraph) (profile : option ThreadProfile).
Context (bpf_reader : bool) (log1p : double → double).

Definition is_active : bool := bool_decide (mode config = Active).

(** [bpf_gate_passed] *)
Definition bpf_gate_passed (s : Runtime W) : bool :=
  bpf_reader && hw_valid (rt_health s) && hw_ready (rt_health s) &&
  (hw_loss_ratio (rt_health s) <? dlit 1 100)%D.

(** ** [solve_numa_domains] *)
Section domains.
Context (demands : list ThreadDemand) (edges : list RelationEdge).
Context (allowed_masks : gmap Z (list Z)) (now : Z).

Definition domain_propose : M W NumaDomainProposal := λ s,
  match DomainSolver.propose hardware demands edges allowed_masks (domain_options config) now
          (rt_domain_solver s) with
  | Ok (p, d) => Returned p (s ⟨ rt_domain_solver := d ⟩)
  | Throw e => Thrown e s
  end.

Definition set_selector_ready (b : bool) : M W unit :=
  modify (λ s : Runtime W, s ⟨ rt_selector_ready := b ⟩).
(** [current_masks_ = domain_solver_.placement()] *)
Definition copy_masks : M W unit :=
  modify (λ s : Runtime W, s ⟨ rt_current_masks := ds_placement (rt_domain_solver s) ⟩).
Definition set_last_restore (r : RestoreResult) : M W unit :=
  modify (λ s : Runtime W, s ⟨ rt_last_restore := r ⟩).

(** [actuator_.restore(proposal.released_tids)] *)
Definition restore_released (p : NumaDomainProposal) : M W RestoreResult :=
  r ← actuator_restore (np_released_tids p); _ ← set_last_restore r; mret r.
(** A failed restore discards the proposal and stops the runtime. *)
Definition restore_failed (p : NumaDomainProposal) (message : string) : M W bool :=
  _ ← domain_discard p; _ ← trigger_fatal message; mret false.

Definition invalid_window (p : NumaDomainProposal) : M W unit :=
  _ ← set_selector_ready false;
  ok ← (if is_active && negb (bool_decide (np_released_tids p = ∅)) then
          r ← restore_released p;
          if rr_success r then mret true
          else restore_failed p "invalid NUMA domain affinity restore failed"
        else mret true);
  if negb (ok : bool) then mret tt else
  _ ← domain_commit p now ∅; _ ← copy_masks; window_end "invalid_domain_unrestricted".

Definition add_counters (r : ApplyResult) (c : ActionCounters) : ActionCounters :=
  mk_ActionCounters (ct_requested c + ar_requested r) (ct_committed c + ar_committed r)
    (ct_vanished c + ar_vanished r) (ct_rolled_back c + ar_rolled_back r)
    (ct_failures c + if ar_success r then 0 else 1).
Definition count_actions (r : ApplyResult) : M W unit :=
  modify (λ s : Runtime W, s ⟨ rt_counters := add_counters r (rt_counters s) ⟩).

Definition live_threads : gset Z := list_to_set (td_tid <$> demands).

(** The actuator's answer to the proposal. *)
Definition conclude (p : NumaDomainProposal) (r : ApplyResult) : M W unit :=
  if negb (ar_success r) then _ ← domain_discard p; window_end "action_failed" else
  _ ← domain_remove (ar_vanished_tids r);
  if negb (bool_decide (np_actions p = [])) && bool_decide (ar_committed_tids r = ∅) then
    _ ← domain_remove (np_released_tids p);
    _ ← domain_discard p; _ ← copy_masks; window_end "actions_vanished"
  else
    _ ← domain_commit p now (ar_committed_tids r); _ ← copy_masks;
    _ ← log "action_commit" ""; window_end "action_committed".

Definition active_window (p : NumaDomainProposal) : M W unit :=
  _ ← log "actuator_input" "";
  ok ← (if negb (bool_decide (np_released_tids p = ∅)) then
          r ← restore_released p;
          _ ← log "domain_restore" "";
          if rr_success r then mret true
          else _ ← log "actuator_output" ""; restore_failed p "NUMA domain affinity restore failed"
        else mret true);
  if negb (ok : bool) then mret tt else
  r ← actuator_apply (np_delta p) live_threads;
  _ ← count_actions r; _ ← log "action" ""; _ ← log "actuator_output" ""; conclude p r.

Definition shadow_window (p : NumaDomainProposal) : M W unit :=
  _ ← domain_commit p now ∅; _ ← copy_masks;
  _ ← log "shadow_commit" ""; window_end "shadow_committed".

Definition valid_window (p : NumaDomainProposal) : M W unit :=
  s ← get;
  _ ← set_selector_ready (np_ready p || ds_effective (rt_domain_solver s));
  if negb (np_ready p) then _ ← domain_discard p; window_end "planned" else
  if bool_decide (np_actions p = []) && bool_decide (np_released_tids p = ∅) &&
     bool_decide (np_planned_masks p = ds_placement (rt_domain_solver s))
  then _ ← domain_discard p; window_end "domain_stable" else
  if bool_decide (mode config = Plan) then shadow_window p else active_window p.

Definition solve_numa_domains : M W unit :=
  _ ← log "selector_input" "";
  s ← get;
  if negb (bpf_gate_passed s) then
    _ ← set_selector_ready false;
    _ ← log "selector_output" "waiting_required_bpf"; window_end "waiting_required_bpf"
  else
    p ← domain_propose;
    _ ← log "selector_output" ""; _ ← log "plan" "";
    if np_valid p then valid_window p else invalid_window p.
End domains.

(** ** The incremental selector's window *)
Section incremental.
Context (demands : list ThreadDemand) (edges : list RelationEdge) (delta : GraphDelta) (now : Z).

Definition confident : list ThreadDemand :=
  filter (λ d, (td_confidence d <? minimum_confidence config)%D = false) demands.
Definition stays_active (cohort : gset Z) (d : ThreadDemand) : bool :=
  (active_demand_threshold config <=? td_demand d)%D ||
  (bool_decide (td_tid d ∈ cohort) && (inactive_demand_threshold config <=? td_demand d)%D).
Definition active_demands (cohort : gset Z) : list ThreadDemand :=
  select_managed_threads (filter (λ d, stays_active cohort d = true) confident) edges cohort
    (selector_options config).

(** The members updated once the cooled threads are restored. *)
Definition adopt_cohort (next cooling : gset Z) (s : Runtime W) : Runtime W :=
  let solver := foldl (λ x t, Incremental.remove_thread t x) (rt_solver s) (set_items cooling) in
  s ⟨ rt_solver := if bool_decide (next = ∅) && negb (bool_decide (cooling = ∅))
                   then Incremental.reset solver else solver ⟩
    ⟨ rt_current_plan := foldl (λ m t, delete t m) (rt_current_plan s) (set_items cooling) ⟩
    ⟨ rt_active_cohort := next ⟩.

(** Threads that left the cohort get their masks back first. *)
Definition cool (cooling : gset Z) : M W bool :=
  if negb (bool_decide (cooling = ∅)) && is_active then
    r ← actuator_restore cooling;
    _ ← log "cohort_restore" "";
    if rr_success r then mret true else
    _ ← modify (λ s : Runtime W, s ⟨ rt_fatal_error := "active cohort affinity restore failed" ⟩);
    _ ← log "hard_failure" ""; _ ← terminate;
    _ ← window_end "cohort_restore_failed"; mret false
  else mret true.

Definition incremental_propose (active : list ThreadDemand) : M W SolverProposal := λ s,
  match IncrementalPropose.propose hardware active edges (incremental_options config) now (Some delta)
          (rt_solver s) with
  | (x, Ok p) => Returned p (s ⟨ rt_solver := x ⟩)
  | (x, Throw e) => Thrown e (s ⟨ rt_solver := x ⟩)
  end.
Definition incremental_commit (p : SolverProposal) (committed : gset Z) : M W unit :=
  modify (λ s : Runtime W,
    s ⟨ rt_solver := IncrementalPropose.commit p now committed (rt_solver s) ⟩).
Definition incremental_discard (p : SolverProposal) : M W unit :=
  modify (λ s : Runtime W, s ⟨ rt_solver := IncrementalPropose.discard p (rt_solver s) ⟩).
Definition incremental_remove (tids : gset Z) : M W unit :=
  modify (λ s : Runtime W, s ⟨ rt_solver :=
    foldl (λ x t, Incremental.remove_thread t x) (rt_solver s) (set_items tids) ⟩).
(** [current_plan_ = solver_.placement()] *)
Definition copy_plan : M W unit :=
  modify (λ s : Runtime W, s ⟨ rt_current_plan := i_placement (rt_solver s) ⟩).

Definition incremental_apply (active : list ThreadDemand) (p : SolverProposal) : M W unit :=
  r ← actuator_apply (sp_delta p) (list_to_set (td_tid <$> active));
  _ ← count_actions r; _ ← log "action" "";
  if negb (ar_success r) then _ ← incremental_discard p; window_end "action_failed" else
  _ ← incremental_remove (ar_vanished_tids r);
  _ ← (if bool_decide (ar_committed_tids r = ∅) then incremental_discard p
       else incremental_commit p (ar_committed_tids r));
  _ ← copy_plan; _ ← log "action_commit" ""; window_end "action_committed".

Definition waiting_health (s : Runtime W) : bool :=
  bpf_reader && (negb (hw_valid (rt_health s)) || negb (hw_ready (rt_health s)) ||
                 (dlit 1 100 <=? hw_loss_ratio (rt_health s))%D).

Definition incremental_window : M W unit :=
  s ← get;
  let active := active_demands (rt_active_cohort s) in
  let next : gset Z := list_to_set (td_tid <$> active) in
  let cooling := rt_active_cohort s ∖ next in
  ok ← cool cooling;
  if negb (ok : bool) then mret tt else
  _ ← modify (adopt_cohort next cooling); _ ← log "active_cohort" "";
  s ← get;
  if waiting_health s then window_end "waiting_bpf_health" else
  _ ← set_selector_ready true;
  if bool_decide (active = []) then window_end "policy_armed_quiescent" else
  p ← incremental_propose active;
  _ ← log "plan" "";
  if negb (sp_ready p) then window_end "planned" else
  if bool_decide (mode config = Plan) then
    _ ← incremental_commit p ∅; _ ← copy_plan;
    _ ← log "shadow_commit" ""; window_end "shadow_committed"
  else incremental_apply active p.
End incremental.

(** ** [maybe_solve] *)

(** [graph_.demands()], [thread_records()], [edges()], [take_delta(…)]: the
    caches are filled on the way. *)
Definition read_graph (g : GraphWindow) :
    result (list ThreadDemand * list ThreadWindowRecord * list RelationEdge * GraphDelta * GraphWindow) :=
  let '(ds, g) := GraphWindow.demands g in
  '(records, g) ← thread_records g;
  let '(es, g) := GraphWindow.edges log1p g in
  let '(delta, g) := take_delta log1p (Config.demand_dirty_threshold config)
    (Config.edge_dirty_absolute_threshold config) (Config.edge_dirty_relative_threshold config) g in
  Ok (ds, records, es, delta, g).

Definition allowed_of (records : list ThreadWindowRecord) : gmap Z (list Z) :=
  foldl (λ m r, <[tid (twr_identity r) := twr_allowed_cpus r]> m) ∅ records.

(** At most 4096 edges are logged. *)
Definition log_inputs (records : list ThreadWindowRecord) (es : list RelationEdge) : M W unit :=
  modify (λ s : Runtime W, s ⟨ rt_log := (rt_log s ++
    replicate (length records) (mk_LogEvent "thread_window" "") ++
    mk_LogEvent "relation_edge_summary" "" ::
    replicate (Nat.min 4096 (length es)) (mk_LogEvent "relation_edge" ""))%list ⟩).

Definition solve_window (now : Z) : M W unit :=
  _ ← modify (λ s : Runtime W, s ⟨ rt_window_sequence := u64 (rt_window_sequence s + 1) ⟩);
  _ ← log "solve_window_begin" "";
  s ← get;
  '(ds, records, es, delta, g) ← lift (read_graph (rt_graph s));
  _ ← modify (λ s : Runtime W, s ⟨ rt_graph := g ⟩);
  _ ← log_inputs records es;
  if bool_decide (mode config = Observe) then window_end "observed" else
  if static_profile_effective config profile then window_end "profile_static_hold" else
  if bool_decide (solver config = "numa-domain-v1")
  then solve_numa_domains ds es (allowed_of records) now
  else incremental_window ds es delta now.

Definition maybe_solve (now : Z) : M W unit :=
  s ← get;
  if (u64_sub now (rt_last_solve_ns s) <? u64 (u64 (solve_interval_seconds config) * 1000000000)) ||
     rt_paused s
  then mret tt else
  _ ← modify (λ s : Runtime W, s ⟨ rt_last_solve_ns := now ⟩);
  with_lock (solve_window now).
End solve.
