(* ===== verification/RuntimeFacts.v ===== *)
(** * Facts on the solve window

    Rules for the runtime's effects, and what one window of the NUMA-domain
    selector does to the solver, the actuator and the kernel's masks. *)
From Stdlib Require Import SpecFloat.
From S2P Require Import Prelude Binary64 Core CpuList Actuator Topology DomainSolver.
From S2P Require Import DomainSolverFacts DomainPlanFacts DomainTheorems GraphWindow ThreadProfile.
From S2P Require Import Config ConfigProperties Hotspot Incremental IncrementalPropose.
From S2P Require Import Runtime RuntimeSolve.
Local Open Scope string_scope.
Local Open Scope Z_scope.
Local Open Scope ag_scope.

(** ** Weakest preconditions

    [wp m Q D s]: from [s], [m] does not throw, it establishes [Q] if it
    returns and [D] if it blocks. *)
Section wp.
Context {W : Type}.

Definition wp {A} (m : M W A) (Q : A → Runtime W → Prop) (D : Runtime W → Prop) (s : Runtime W) :
    Prop :=
  match m s with
  | Returned a s' => Q a s'
  | Thrown _ _ => False
  | Deadlocked s' => D s'
  end.

Lemma wp_ret {A} (a : A) Q D s : Q a s → wp (mret a) Q D s.
Proof. done. Qed.
Lemma wp_modify f Q D s : Q tt (f s) → wp (modify f) Q D s.
Proof. done. Qed.
Lemma wp_get Q D s : Q s s → wp get Q D s.
Proof. done. Qed.
Lemma wp_bind {A B} (m : M W A) (f : A → M W B) Q D s :
  wp m (λ a, wp (f a) Q D) D s → wp (m ≫= f) Q D s.
Proof. unfold wp, mbind, M_bind. by destruct (m s). Qed.
Lemma wp_mono {A} (m : M W A) Q Q' (D D' : Runtime W → Prop) s :
  wp m Q D s → (∀ a s', Q a s' → Q' a s') → (∀ s', D s' → D' s') → wp m Q' D' s.
Proof. unfold wp. destruct (m s); auto. Qed.
Lemma wp_log type o Q D (s : Runtime W) :
  Q tt (s ⟨ rt_log := (rt_log s ++ [mk_LogEvent type o])%list ⟩) → wp (log type o) Q D s.
Proof. done. Qed.
End wp.

(** One step of a straight-line computation. *)
Ltac wp_step :=
  lazymatch goal with
  | |- wp (_ ≫= _) _ _ _ => apply wp_bind
  | |- wp (mret _) _ _ _ => apply wp_ret
  | |- wp get _ _ _ => apply wp_get
  | |- wp (modify _) _ _ _ => apply wp_modify
  | |- wp (log _ _) _ _ _ => apply wp_log
  | |- wp (if _ then _ else _) _ _ _ => fail "conditional"
  end; runtime_simpl.

(** Blocking: a mutex its own thread holds. *)
Lemma wp_locked {W A} (m : M W A) Q (D : Runtime W → Prop) s :
  rt_locked s = true → D s → wp (with_lock m) Q D s.
Proof. intros Hl HD. unfold wp, with_lock. by rewrite Hl. Qed.

Lemma trigger_fatal_blocks {W} `{AffinityBackend W} msg Q (D : Runtime W → Prop) s :
  rt_locked s = true → D s → wp (trigger_fatal msg) Q D s.
Proof. intros Hl HD. unfold trigger_fatal. wp_step. by apply wp_locked. Qed.

Section domain_window.
Context {W : Type} `{AffinityBackendLaws W}.
Context (config : Config) (hardware : HardwareGraph) (bpf_reader : bool).
Context (demands : list ThreadDemand) (edges : list RelationEdge).
Context (allowed : gmap Z (list Z)) (now : Z).

(** The masks the selector records are the kernel's. *)
Definition masks_true (w : W) (placement : gmap Z (list Z)) : Prop :=
  ∀ t m, placement !! t = Some m → alive w t = true → backend_get w t = m.
(** The sampled masks are the kernel's. *)
Definition sampled (w : W) : Prop :=
  ∀ t m, allowed !! t = Some m → alive w t = true → backend_get w t = m.

Lemma remove_threads_fields l d :
  let d' := foldl (λ d t, DomainSolver.remove_thread t d) d l in
  ds_outstanding d' = ds_outstanding d ∧
  ∀ t, ds_placement d' !! t = if decide (t ∈ l) then None else ds_placement d !! t.
Proof.
  cbv zeta. revert d. induction l as [|x l IH]; intros d; cbn [foldl]; [done|].
  destruct (IH (DomainSolver.remove_thread x d)) as [-> Hp]. split; [done|]. intros t. rewrite Hp.
  cbn [DomainSolver.remove_thread ds_placement]. destruct (decide (x = t)) as [->|Hne].
  - rewrite (decide_True (P := t ∈ t :: l)) by set_solver. case_decide; [done|]. apply lookup_delete_eq.
  - rewrite lookup_delete_ne by done. apply decide_ext. set_solver.
Qed.

(** ** The proposal of the window *)
Record planned_by (d0 : NumaDomainSolver) (p : NumaDomainProposal) (d : NumaDomainSolver) : Prop := {
  pb_outstanding : ds_outstanding d = Some p;
  pb_placement : ds_placement d = ds_placement d0;
  pb_released : np_released_tids p = dom (ds_placement d) ∖ dom (np_planned_masks p);
  pb_invalid : np_valid p = false → np_planned_masks p = ∅ ∧ np_actions p = [];
  pb_nonempty : ∀ t m, np_planned_masks p !! t = Some m → m ≠ [];
  pb_delta : np_delta p = mk_PlacementDelta ∅ (changed_masks (np_actions p));
  pb_actions : np_ready p = true → actions_inv demands allowed (ds_placement d) (np_domains p)
    (np_planned_masks p) (items (np_planned_masks p))
    (mk_ActionState (np_actions p) (np_inherited_tids p));
}.

Lemma domain_propose_wp (s : Runtime W) Q D :
  ds_outstanding (rt_domain_solver s) = None →
  (∀ p d, planned_by (rt_domain_solver s) p d → Q p (s ⟨ rt_domain_solver := d ⟩)) →
  wp (domain_propose config hardware demands edges allowed now) Q D s.
Proof.
  intros Hout HQ.
  destruct (propose_run hardware demands edges allowed (domain_options config) now _ Hout)
    as (ev & acts & p & d & Hp & Hpr).
  unfold wp, domain_propose. rewrite Hp. apply HQ.
  pose proof (proposed_final hardware demands allowed (domain_options config) now (rt_domain_solver s) ev) as Hfin.
  destruct Hpr as [_ _ _ Hout' _ (Hpl & _) _ _ _ _ _ _ Hplan Hval Hrel _ _ Hrdy [Ha Hi] Hacts Hidle Hd].
  assert (as_inv : acts = mk_ActionState (np_actions p) (np_inherited_tids p))
    by (rewrite Ha, Hi; by destruct acts).
  constructor; try done.
  - by rewrite Hpl.
  - intros Hv. split.
    + rewrite Hplan. apply (fo_invalid _ _ _ _ Hfin). congruence.
    + rewrite Ha. apply Hidle. destruct (np_ready p); [|done]. destruct Hrdy as [Hr _].
      destruct (Hr eq_refl). congruence.
  - intros t m. rewrite Hplan. intros Hm. destruct (fo_planned _ _ _ _ Hfin t m Hm) as (dd & _ & Hg).
    apply Hg.
  - intros Hr. rewrite <-as_inv, Hpl. by apply Hacts.
Qed.

(** ** Calls into the components *)
Lemma domain_commit_wp p c (s : Runtime W) Q D :
  ds_outstanding (rt_domain_solver s) = Some p →
  (∀ d, ds_outstanding d = None → ds_placement d = commit_placement p c (ds_placement (rt_domain_solver s)) →
     Q tt (s ⟨ rt_domain_solver := d ⟩)) →
  wp (domain_commit p now c) Q D s.
Proof.
  intros Hout HQ. unfold wp, domain_commit.
  destruct (DomainSolver.commit p now c (rt_domain_solver s)) as [d|e] eqn:E.
  - apply commit_Ok in E as (_ & Ho & _ & Hp & _). by apply HQ.
  - unfold DomainSolver.commit in E. rewrite Hout, Z.eqb_refl in E. cbn in E.
    by destruct (foldl _ _ _) as [[? ?] ?].
Qed.

Lemma discard_outstanding p d :
  ds_outstanding d = Some p →
  ds_outstanding (DomainSolver.discard p d) = None ∧
  ds_placement (DomainSolver.discard p d) = ds_placement d.
Proof. intros Ho. unfold DomainSolver.discard. by rewrite Ho, Z.eqb_refl. Qed.

Lemma actuator_restore_wp tids (s : Runtime W) Q D :
  act_ok (rt_actuator s) →
  (∀ w a r, act_ok a → (∀ t, t ∉ tids → backend_get w t = backend_get (rt_world s) t) →
     (∀ t, alive w t = alive (rt_world s) t) →
     Q r (s ⟨ rt_world := w ⟩ ⟨ rt_actuator := a ⟩)) →
  wp (actuator_restore tids) Q D s.
Proof.
  intros Ha HQ. unfold wp, actuator_restore, restore.
  destruct (restore_loop_total (rt_world s) (rt_actuator s) RestoreResult_init (set_items tids) Ha)
    as (w & a & r & -> & Hok & Hf & Hl).
  apply HQ; [done| |done]. intros t Ht. apply Hf. by rewrite elem_of_set_items.
Qed.

(** ** Masks after a batch *)

(** The threads of a batch, restored or applied, with the selector's record
    brought up to date, have the recorded masks. *)
Section masks.
Context (d0 d : NumaDomainSolver) (p : NumaDomainProposal) (w w1 w2 : W) (a1 a2 : Actuator) (r : ApplyResult).
Context (Hplan : planned_by d0 p d) (Hready : np_ready p = true).
Context (Htrue : masks_true w (ds_placement d)) (Hsampled : sampled w).
Context (Hframe : ∀ t, t ∉ np_released_tids p → backend_get w1 t = backend_get w t).
Context (Happ : batch_applied w1 a1 (delta_masks (np_delta p)) w2 a2 r).

Lemma delta_actions t m :
  delta_masks (np_delta p) !! t = Some m ↔
  ∃ a, a ∈ np_actions p ∧ na_tid a = t ∧ na_target_mask a = m.
Proof.
  rewrite (pb_delta _ _ _ Hplan). unfold delta_masks, singleton_masks. cbn.
  rewrite fmap_empty, (right_id_L ∅ (∪)). apply changed_masks_lookup.
  apply (ai_nodup _ _ _ _ _ _ _ (pb_actions _ _ _ Hplan Hready)).
Qed.

Lemma action_settled a :
  a ∈ np_actions p → na_tid a ∈ ar_committed_tids r ∨ na_tid a ∈ ar_vanished_tids r.
Proof.
  intros Ha. rewrite <-elem_of_union, (ba_all _ _ _ _ _ _ Happ), elem_of_dom.
  exists (na_target_mask a). apply delta_actions. eauto.
Qed.

(** A planned thread that is neither acted upon nor released keeps its mask. *)
Lemma untouched t m :
  np_planned_masks p !! t = Some m → (¬ ∃ a, a ∈ np_actions p ∧ na_tid a = t) →
  backend_get w2 t = backend_get w t.
Proof.
  intros Hm Hno. rewrite (ba_frame _ _ _ _ _ _ Happ).
  - apply Hframe. rewrite (pb_released _ _ _ Hplan). apply elem_of_dom_2 in Hm. set_solver.
  - intros Hc. assert (t ∈ dom (delta_masks (np_delta p))) as [m' Hd]%elem_of_dom
      by (rewrite <-(ba_all _ _ _ _ _ _ Happ); set_solver).
    apply delta_actions in Hd as (a & Ha & Hat & _). eauto.
Qed.

Lemma committed_mask a m :
  a ∈ np_actions p → na_tid a ∈ ar_committed_tids r → np_planned_masks p !! na_tid a = Some m →
  backend_get w2 (na_tid a) = m.
Proof.
  intros Ha Hc Hm. destruct (ai_actions _ _ _ _ _ _ _ (pb_actions _ _ _ Hplan Hready) a Ha) as [[Hp _] _].
  apply (ba_masks _ _ _ _ _ _ Happ); [|done]. apply delta_actions. exists a. split_and!; [done|done|].
  congruence.
Qed.

Lemma committed_masks_true (pl : gmap Z (list Z)) t m :
  (∀ x, pl !! x = if decide (x ∈ ar_vanished_tids r) then None else ds_placement d !! x) →
  (ar_committed_tids r = ∅ → np_actions p = []) →
  commit_placement p (ar_committed_tids r) pl !! t = Some m → alive w t = true →
  backend_get w2 t = m.
Proof.
  intros Hpl Hne. pose proof (pb_actions _ _ _ Hplan Hready) as Hai.
  rewrite commit_placement_lookup.
  2: { intros a Ha. by destruct (ai_actions _ _ _ _ _ _ _ Hai a Ha) as [[Hp _] _]. }
  destruct (np_planned_masks p !! t) as [m'|] eqn:Em; intros Hcm Hal.
  2: { destruct Hcm as [Hplt Hnr]. rewrite Hpl in Hplt. case_decide; [done|].
    apply elem_of_dom_2 in Hplt. apply not_elem_of_dom in Em.
    destruct Hnr. rewrite (pb_released _ _ _ Hplan). set_solver. }
  destruct Hcm as [-> [[Hp Hnr]|[Hin|[(a & Ha & <-) Hor]]]].
  - rewrite Hpl in Hp. destruct (decide (t ∈ ar_vanished_tids r)); [by destruct Hp|].
    destruct (ai_cover _ _ _ _ _ _ _ Hai t m') as [Hsame|[Hin|(a & Ha & <-)]]; [by apply elem_of_items| | |].
    + rewrite (untouched t m' Em); [by apply Htrue|]. intros (a & Ha & <-).
      by destruct (ai_actions _ _ _ _ _ _ _ Hai a Ha) as [(Hp1 & Hp2 & _) _]; congruence.
    + destruct (ai_inherited _ _ _ _ _ _ _ Hai t Hin) as [[Hnone _] _]. rewrite Hnone in Hp. by destruct Hp.
    + apply committed_mask; [done| |done]. by destruct (action_settled a Ha).
  - destruct (ai_inherited _ _ _ _ _ _ _ Hai t Hin) as [[_ (m2 & Hm2 & Hget)] _].
    assert (m2 = m') as -> by congruence.
    rewrite (untouched t m' Em).
    + apply Hsampled; [|done]. unfold get_or in Hget. pose proof (pb_nonempty _ _ _ Hplan t m' Em).
      destruct (allowed !! t); cbn in Hget; congruence.
    + intros (a & Ha & Hat). subst t. by destruct (ai_disjoint _ _ _ _ _ _ _ Hai a Ha).
  - apply committed_mask; [done| |done]. destruct Hor as [He|?]; [|done].
    rewrite (Hne He) in Ha. by apply elem_of_nil in Ha.
Qed.
End masks.

(** ** The window *)
Definition ended (o : string) (s : Runtime W) : Prop :=
  ∃ l, rt_log s = (l ++ [mk_LogEvent "solve_window_end" o])%list.

(** What the window leaves behind when it returns. *)
Record window_post (s0 s : Runtime W) : Prop := {
  wq_outstanding : ds_outstanding (rt_domain_solver s) = None;
  wq_locked : rt_locked s = true;
  wq_act : act_ok (rt_actuator s);
  wq_fatal : rt_fatal_error s = rt_fatal_error s0;
  wq_graph : rt_graph s = rt_graph s0;
  wq_ended : ∃ o, ended o s;
  wq_alive : ∀ t, alive (rt_world s) t = alive (rt_world s0) t;
  wq_masks : is_active config = true →
    masks_true (rt_world s0) (ds_placement (rt_domain_solver s0)) → sampled (rt_world s0) →
    ended "action_failed" s ∨ masks_true (rt_world s) (ds_placement (rt_domain_solver s));
  wq_shadow : is_active config = false → rt_world s = rt_world s0 ∧ rt_actuator s = rt_actuator s0;
}.
(** Why it may block. *)
Definition window_blocked (s : Runtime W) : Prop :=
  is_active config = true ∧ rr_success (rt_last_restore s) = false.

(** After the proposal was made, nothing else has changed. *)
Record window_open (s0 : Runtime W) (p : NumaDomainProposal) (s : Runtime W) : Prop := {
  wo_world : rt_world s = rt_world s0;
  wo_actuator : rt_actuator s = rt_actuator s0;
  wo_act : act_ok (rt_actuator s0);
  wo_fatal : rt_fatal_error s = rt_fatal_error s0;
  wo_graph : rt_graph s = rt_graph s0;
  wo_locked : rt_locked s = true;
  wo_plan : planned_by (rt_domain_solver s0) p (rt_domain_solver s);
}.

Lemma masks_true_kept w w' (pl pl' : gmap Z (list Z)) :
  masks_true w pl → pl' ⊆ pl → (∀ t, is_Some (pl' !! t) → backend_get w' t = backend_get w t) →
  (∀ t, alive w' t = alive w t) → masks_true w' pl'.
Proof.
  intros Ht Hsub Hf Hal t m Hm Ha. rewrite Hf by eauto. apply Ht; [by eapply lookup_weaken|].
  by rewrite <-Hal.
Qed.

(** Discarding the proposal without touching the kernel. *)
Lemma discard_window s0 p s o :
  window_open s0 p s →
  wp (_ ← domain_discard p; window_end o) (λ _, window_post s0) window_blocked s.
Proof.
  intros [Hw Ha Hok Hf Hgr Hl Hp]. wp_step. unfold domain_discard. wp_step. unfold window_end. wp_step.
  destruct (discard_outstanding p (rt_domain_solver s) (pb_outstanding _ _ _ Hp)) as [Hn Hpl].
  constructor; cbn; rewrite ?Ha, ?Hw; try done.
  - exists o. by eexists.
  - intros _ Ht _. right. by rewrite Hpl, (pb_placement _ _ _ Hp).
Qed.

(** The two ways a proposal is committed without an actuator. *)
Lemma shadow_window_wp s0 p s :
  window_open s0 p s → is_active config = false →
  wp (shadow_window now p) (λ _, window_post s0) window_blocked s.
Proof.
  intros [Hw Ha Hok Hf Hgr Hl Hp] Hact. unfold shadow_window. wp_step.
  apply domain_commit_wp; [apply Hp|]. intros d Hn Hpl. wp_step. unfold copy_masks. wp_step.
  wp_step. wp_step. unfold window_end. wp_step.
  constructor; cbn; rewrite ?Ha, ?Hw; try done.
  - eexists. by eexists.
  - congruence.
Qed.

Lemma restore_released_wp s0 p s Q :
  window_open s0 p s →
  (∀ w a r, act_ok a → (∀ t, t ∉ np_released_tids p → backend_get w t = backend_get (rt_world s0) t) →
     (∀ t, alive w t = alive (rt_world s0) t) →
     Q r (s ⟨ rt_world := w ⟩ ⟨ rt_actuator := a ⟩ ⟨ rt_last_restore := r ⟩)) →
  wp (restore_released p) Q window_blocked s.
Proof.
  intros [Hw Ha Hok _ _ _ _] HQ. unfold restore_released. wp_step.
  apply actuator_restore_wp; [by rewrite Ha|]. intros w a r Ha' Hfr Hal. wp_step.
  unfold set_last_restore. wp_step. wp_step. rewrite Hw in *. by apply HQ.
Qed.

Lemma restore_failed_wp p msg Q s :
  is_active config = true → rt_locked s = true → rr_success (rt_last_restore s) = false →
  wp (restore_failed p msg) Q window_blocked s.
Proof.
  intros Hact Hl Hr. unfold restore_failed. wp_step. unfold domain_discard. wp_step. wp_step.
  by apply trigger_fatal_blocks.
Qed.

Lemma invalid_window_wp s0 p s :
  window_open s0 p s → np_valid p = false →
  wp (invalid_window config now p) (λ _, window_post s0) window_blocked s.
Proof.
  intros Hopen Hv.
  assert (∀ (w : W) (a : Actuator) (s1 : Runtime W),
    act_ok a → (∀ t, alive w t = alive (rt_world s0) t) → rt_world s1 = w → rt_actuator s1 = a →
    rt_domain_solver s1 = rt_domain_solver s → rt_fatal_error s1 = rt_fatal_error s0 →
    rt_graph s1 = rt_graph s0 → rt_locked s1 = true → (is_active config = false → w = rt_world s0 ∧ a = rt_actuator s0) →
    wp (_ ← domain_commit p now ∅; _ ← copy_masks; window_end "invalid_domain_unrestricted")
      (λ _, window_post s0) window_blocked s1) as Hcommit.
  { intros w a s1 Hok Hal Hw Ha Hd Hf Hgr Hl Hsh. destruct Hopen as [_ _ _ _ _ _ Hp]. wp_step.
    apply domain_commit_wp; [rewrite Hd; apply Hp|]. intros d Hn Hpl. wp_step. unfold copy_masks. wp_step.
    unfold window_end. wp_step. constructor; cbn; rewrite ?Hw, ?Ha; try done.
    - eexists. by eexists.
    - intros _ _ _. right. intros t m. rewrite Hpl, Hd.
      destruct (pb_invalid _ _ _ Hp Hv) as [He Hna].
      rewrite commit_placement_lookup by (rewrite Hna; intros ? []%elem_of_nil).
      rewrite He, lookup_empty, (pb_released _ _ _ Hp), He.
      intros [Hm%elem_of_dom_2 Hnr]. set_solver. }
  unfold invalid_window. wp_step. unfold set_selector_ready. wp_step. wp_step.
  pose proof Hopen as [Hw Ha Hok Hf Hgr Hl Hp].
  destruct (is_active config) eqn:Hact; cbn [andb].
  2: { wp_step. cbn [negb]. by apply (Hcommit (rt_world s0) (rt_actuator s0)). }
  case_bool_decide; cbn [negb].
  { wp_step. cbn [negb]. by apply (Hcommit (rt_world s0) (rt_actuator s0)). }
  wp_step. eapply restore_released_wp; [by constructor|]. intros w a r Ha' _ Hal. cbn beta.
  destruct (rr_success r) eqn:Hr.
  - wp_step. cbn [negb]. by apply (Hcommit w a).
  - by apply restore_failed_wp.
Qed.

(** The state between the actuator's answer and the end of the window. *)
Record window_applied (s0 : Runtime W) (p : NumaDomainProposal) (r : ApplyResult) (s : Runtime W) :
    Prop := {
  wa_fatal : rt_fatal_error s = rt_fatal_error s0;
  wa_graph : rt_graph s = rt_graph s0;
  wa_locked : rt_locked s = true;
  wa_act : act_ok (rt_actuator s);
  wa_alive : ∀ t, alive (rt_world s) t = alive (rt_world s0) t;
  wa_plan : planned_by (rt_domain_solver s0) p (rt_domain_solver s);
  wa_ready : np_ready p = true;
  wa_done : ar_success r = true → ∃ w1 a1,
    (∀ t, t ∉ np_released_tids p → backend_get w1 t = backend_get (rt_world s0) t) ∧
    batch_applied w1 a1 (delta_masks (np_delta p)) (rt_world s) (rt_actuator s) r;
}.

Lemma conclude_wp s0 p r s :
  window_applied s0 p r s → is_active config = true →
  wp (conclude now p r) (λ _, window_post s0) window_blocked s.
Proof.
  intros [Hf Hgr Hl Hok Hal Hp Hr Hdone] Hact. unfold conclude.
  destruct (discard_outstanding p (rt_domain_solver s) (pb_outstanding _ _ _ Hp)) as [Hn Hpl].
  destruct (ar_success r); cbn [negb].
  2: { wp_step. unfold domain_discard. wp_step. unfold window_end. wp_step.
    constructor; cbn; try done; [eexists; by eexists| |congruence].
    intros _ _ _. left. by eexists. }
  destruct (Hdone eq_refl) as (w1 & a1 & Hfr & Happ). wp_step. unfold domain_remove at 1. wp_step.
  destruct (remove_threads_fields (set_items (ar_vanished_tids r)) (rt_domain_solver s)) as [Hout1 Hrem].
  set (d1 := foldl _ (rt_domain_solver s) _) in *. clearbody d1.
  assert (∀ x, ds_placement d1 !! x =
    if decide (x ∈ ar_vanished_tids r) then None else ds_placement (rt_domain_solver s) !! x) as Hvan.
  { intros x. rewrite Hrem. apply decide_ext, elem_of_set_items. }
  destruct (negb (bool_decide (np_actions p = [])) && _) eqn:Eb.
  - apply andb_true_iff in Eb as [_ Ec%bool_decide_eq_true].
    wp_step. unfold domain_remove. wp_step. cbn [rt_domain_solver].
    destruct (remove_threads_fields (set_items (np_released_tids p)) d1) as [Hout2 Hrem2].
    set (d2 := foldl _ d1 _) in *. clearbody d2.
    destruct (discard_outstanding p d2) as [Hn2 Hpl2]; [rewrite Hout2, Hout1; apply Hp|].
    clear Hn Hpl. wp_step. unfold domain_discard. wp_step. cbn [rt_domain_solver].
    set (d3 := DomainSolver.discard p d2) in *. clearbody d3.
    wp_step. unfold copy_masks. wp_step. unfold window_end. wp_step.
    constructor; cbn; try done; [eexists; by eexists| |congruence].
    intros _ Ht _. right. rewrite Hpl2. intros t m. rewrite Hrem2. case_decide as Hd; [done|].
    rewrite elem_of_set_items in Hd. rewrite Hvan. case_decide; [done|]. intros Hm Hat.
    rewrite (ba_frame _ _ _ _ _ _ Happ) by (rewrite Ec; apply not_elem_of_empty). rewrite Hfr by done.
    apply Ht; [by rewrite <-(pb_placement _ _ _ Hp)|by rewrite <-Hal].
  - wp_step. apply domain_commit_wp; [cbn; rewrite Hout1; apply Hp|]. intros d2 Hn2 Hpl2.
    wp_step. unfold copy_masks. wp_step. wp_step. wp_step. unfold window_end. wp_step.
    constructor; cbn; try done; [eexists; by eexists| |congruence].
    intros _ Ht Hs. right. intros t m. rewrite Hpl2. cbn [rt_domain_solver]. intros Hm Hat.
    eapply (committed_masks_true (rt_domain_solver s0) (rt_domain_solver s) p (rt_world s0) w1);
      [done|done| |done|done|done|exact Hvan| |exact Hm|by rewrite <-Hal].
    + by rewrite (pb_placement _ _ _ Hp).
    + intros He. by apply andb_false_iff in Eb as [?|?]; bool_hyps.
Qed.

Lemma active_window_wp s0 p s :
  window_open s0 p s → np_ready p = true → is_active config = true →
  wp (active_window demands now p) (λ _, window_post s0) window_blocked s.
Proof.
  intros [Hw Ha Hok Hf Hgr Hl Hp] Hr Hact. unfold active_window. wp_step. wp_step.
  match goal with |- wp _ _ _ ?st => set (sl := st) end.
  assert (window_open s0 p sl) as Hopen by (by constructor).
  assert (∀ (w1 : W) (a1 : Actuator) (s1 : Runtime W), act_ok a1 →
    (∀ t, t ∉ np_released_tids p → backend_get w1 t = backend_get (rt_world s0) t) →
    (∀ t, alive w1 t = alive (rt_world s0) t) → rt_world s1 = w1 → rt_actuator s1 = a1 →
    rt_domain_solver s1 = rt_domain_solver s → rt_fatal_error s1 = rt_fatal_error s0 →
    rt_graph s1 = rt_graph s0 → rt_locked s1 = true →
    wp (r ← actuator_apply (np_delta p) (live_threads demands);
        _ ← count_actions r; _ ← log "action" ""; _ ← log "actuator_output" ""; conclude now p r)
      (λ _, window_post s0) window_blocked s1) as Happly.
  { clear sl Hopen. intros w1 a1 s1 Hok1 Hfr Hal Hw1 Ha1 Hd1 Hf1 Hg1 Hl1. wp_step. unfold wp at 1, actuator_apply.
    destruct (apply (rt_world s1) (rt_actuator s1) (np_delta p) (live_threads demands)) as [[w2 a2] r] eqn:E.
    wp_step. unfold count_actions. wp_step. wp_step. wp_step. wp_step. wp_step.
    apply conclude_wp; [|done]. unfold apply in E. constructor; cbn; try done.
    - pose proof (apply_delta_act_ok (rt_world s1) (rt_actuator s1) (delta_masks (np_delta p))
        (live_threads demands)) as Hok2. rewrite E in Hok2. apply Hok2. by rewrite Ha1.
    - intros t. rewrite <-Hal, <-Hw1. by eapply apply_delta_alive.
    - by rewrite Hd1.
    - intros Hs. exists w1, a1. split; [done|]. rewrite <-Hw1, <-Ha1. by eapply apply_delta_applied. }
  wp_step. case_bool_decide; cbn [negb].
  { wp_step. cbn [negb]. by apply (Happly (rt_world s0) (rt_actuator s0)). }
  wp_step. eapply restore_released_wp; [done|]. intros w a r Hoka Hfr Hal. wp_step. wp_step.
  destruct (rr_success r) eqn:Hrs.
  - wp_step. cbn [negb]. by apply (Happly w a).
  - wp_step. wp_step. by apply restore_failed_wp.
Qed.

Lemma valid_window_wp s0 p s :
  window_open s0 p s → mode config ≠ Observe →
  wp (valid_window config demands now p) (λ _, window_post s0) window_blocked s.
Proof.
  intros [Hw Ha Hok Hf Hgr Hl Hp] Hm. unfold valid_window. wp_step. wp_step. wp_step.
  unfold set_selector_ready. wp_step. set (b := np_ready p || _). clearbody b.
  destruct (np_ready p) eqn:Er; cbn [negb]; [|apply discard_window; by constructor].
  destruct (_ && _ && _); [apply discard_window; by constructor|].
  case_bool_decide as Hmode.
  - apply shadow_window_wp; [by constructor|]. unfold is_active. by rewrite Hmode.
  - apply active_window_wp; [by constructor|done|]. unfold is_active. by destruct (mode config).
Qed.

Lemma solve_numa_domains_wp s0 :
  ds_outstanding (rt_domain_solver s0) = None → rt_locked s0 = true → act_ok (rt_actuator s0) →
  mode config ≠ Observe →
  wp (solve_numa_domains config hardware bpf_reader demands edges allowed now)
    (λ _, window_post s0) window_blocked s0.
Proof.
  intros Ho Hl Ha Hm. unfold solve_numa_domains. wp_step. wp_step. wp_step. wp_step.
  destruct (negb _).
  { wp_step. unfold set_selector_ready. wp_step. wp_step. wp_step. unfold window_end. wp_step.
    constructor; cbn; try done; [eexists; by eexists|]. by right. }
  wp_step. apply domain_propose_wp; [done|]. runtime_simpl. intros p d Hp. wp_step. wp_step. wp_step. wp_step.
  destruct (np_valid p) eqn:Ev.
  - apply valid_window_wp; [by constructor|done].
  - apply invalid_window_wp; [by constructor|done].
Qed.
End domain_window.

(** ** Computations that do not act *)
Definition state_of {W A} (o : outcome W A) : Runtime W :=
  match o with Returned _ s | Thrown _ s | Deadlocked s => s end.

(** A relation between the states before and after, however the computation
    ends, that taking the mutex and logging respect. *)
Class Frame {W} (R : relation (Runtime W)) := {
  frame_preorder :: PreOrder R;
  frame_lock s b : R s (s ⟨ rt_locked := b ⟩);
  frame_log s l : R s (s ⟨ rt_log := l ⟩);
}.

Section frames.
Context {W : Type} (R : relation (Runtime W)) `{!Frame R}.

Definition frames {A} (m : M W A) : Prop := ∀ s, R s (state_of (m s)).

Lemma frames_ret {A} (a : A) : frames (mret a).
Proof. intros s. cbn. reflexivity. Qed.
Lemma frames_get : frames get.
Proof. intros s. cbn. reflexivity. Qed.
Lemma frames_modify f : (∀ s, R s (f s)) → frames (modify f).
Proof. done. Qed.
Lemma frames_lift {A} (r : result A) : frames (lift r).
Proof. intros s. unfold lift. destruct r; cbn; reflexivity. Qed.
Lemma frames_bind {A B} (m : M W A) (f : A → M W B) : frames m → (∀ a, frames (f a)) → frames (m ≫= f).
Proof.
  intros Hm Hf s. specialize (Hm s). unfold mbind, M_bind. destruct (m s) as [a s1|e s1|s1]; [|done..].
  cbn in Hm. etrans; [exact Hm|apply Hf].
Qed.
Lemma frames_if {A} (b : bool) (m m' : M W A) :
  (b = true → frames m) → (b = false → frames m') → frames (if b then m else m').
Proof. destruct b; auto. Qed.
Lemma frames_with_lock {A} (m : M W A) : frames m → frames (with_lock m).
Proof.
  intros Hm s. unfold with_lock. destruct (rt_locked s); [cbn; reflexivity|].
  specialize (Hm (s ⟨ rt_locked := true ⟩)). assert (R s (s ⟨ rt_locked := true ⟩)) as H0 by apply frame_lock.
  destruct (m _) as [a s1|e s1|s1]; cbn in *; etrans; try exact H0; try exact Hm;
    etrans; try exact Hm; apply frame_lock.
Qed.
Lemma frames_log type o : frames (log type o).
Proof. intros s. apply frame_log. Qed.
End frames.

(** No affinity call was made. *)
Definition same_kernel {W} (s s' : Runtime W) : Prop :=
  rt_world s' = rt_world s ∧ rt_actuator s' = rt_actuator s.
#[export] Instance same_kernel_frame {W} : Frame (W := W) same_kernel.
Proof.
  split; [split|done|done]; [done|]. intros s1 s2 s3 [H1 H2] [H3 H4]. split; congruence.
Qed.

#[export] Hint Resolve frames_ret frames_get frames_lift frames_log : ag.
#[export] Hint Extern 2 (frames _ (modify _)) => apply frames_modify; intros; split; reflexivity : ag.
#[export] Hint Extern 2 (frames _ (modify _)) => apply frames_modify; intros; reflexivity : ag.
#[export] Hint Extern 2 (frames _ (window_end _)) => apply frames_log; apply _ : ag.
(** Single assignments under a name. *)
#[export] Hint Extern 3 (frames _ (set_selector_ready _)) => unfold set_selector_ready : ag.
#[export] Hint Extern 3 (frames _ copy_masks) => unfold copy_masks : ag.
#[export] Hint Extern 3 (frames _ copy_plan) => unfold copy_plan : ag.
#[export] Hint Extern 3 (frames _ (domain_discard _)) => unfold domain_discard : ag.
#[export] Hint Extern 3 (frames _ (incremental_commit _ _ _)) => unfold incremental_commit : ag.
#[export] Hint Extern 3 (frames _ (log_inputs _ _)) => unfold log_inputs : ag.

(** Walks through a computation; conditions are kept as hypotheses. *)
Ltac frames_walk :=
  repeat first
    [ progress auto with ag typeclass_instances
    | lazymatch goal with
      | |- frames _ (_ ≫= _) => apply frames_bind; [apply _| |intros]
      | |- frames _ (if _ then _ else _) => apply frames_if; intros
      | |- frames _ (with_lock _) => apply frames_with_lock; [apply _|]
      | |- frames _ (let '(_, _) := ?x in _) => destruct x
      | |- frames _ (match ?x with pair _ _ => _ end) => destruct x
      end ].

Section passive.
Context {W : Type} `{AffinityBackend W}.
Context (config : Config) (hardware : HardwareGraph) (profile : option ThreadProfile).
Context (bpf_reader : bool) (log1p : double → double).
Context (Hmode : mode config ≠ Active).

Lemma passive : is_active config = false.
Proof. unfold is_active. by apply bool_decide_eq_false. Qed.
Lemma domain_commit_keeps p now c : frames (W := W) same_kernel (domain_commit p now c).
Proof. intros s. unfold domain_commit. by destruct (DomainSolver.commit _ _ _ _). Qed.
Lemma domain_propose_keeps ds es al now : frames (W := W) same_kernel (domain_propose config hardware ds es al now).
Proof. intros s. unfold domain_propose. by destruct (DomainSolver.propose _ _ _ _ _ _ _) as [[]|]. Qed.
Lemma incremental_propose_keeps es delta now act :
  frames (W := W) same_kernel (incremental_propose config hardware es delta now act).
Proof. intros s. unfold incremental_propose. by destruct (IncrementalPropose.propose _ _ _ _ _ _ _) as [? []]. Qed.
Hint Resolve domain_commit_keeps domain_propose_keeps incremental_propose_keeps : ag.

Lemma solve_numa_domains_keeps ds es al now :
  mode config ≠ Observe → frames (W := W) same_kernel (solve_numa_domains config hardware bpf_reader ds es al now).
Proof.
  intros Hobs. assert (mode config = Plan) as Hplan by (by destruct (mode config)).
  unfold solve_numa_domains. frames_walk.
  - unfold valid_window. rewrite Hplan, (bool_decide_eq_true_2 (Plan = Plan)) by done. unfold shadow_window. frames_walk.
  - unfold invalid_window. rewrite passive. cbn [andb]. frames_walk.
Qed.

Lemma incremental_window_keeps ds es delta now :
  mode config ≠ Observe → frames (W := W) same_kernel (incremental_window config hardware bpf_reader ds es delta now).
Proof.
  intros Hobs. assert (mode config = Plan) as Hplan by (by destruct (mode config)).
  unfold incremental_window. rewrite Hplan, (bool_decide_eq_true_2 (Plan = Plan)) by done.
  frames_walk. unfold cool. rewrite passive, andb_false_r. frames_walk.
Qed.

Lemma maybe_solve_keeps now : frames (W := W) same_kernel (maybe_solve config hardware profile bpf_reader log1p now).
Proof.
  unfold maybe_solve. frames_walk. unfold solve_window. frames_walk.
  - apply solve_numa_domains_keeps. by bool_hyps.
  - apply incremental_window_keeps. by bool_hyps.
Qed.
End passive.
