(* ===== verification/RuntimeProperties.v ===== *)
(** * Properties of the runtime's solve window *)
From Stdlib Require Import SpecFloat.
From S2P Require Import Prelude Binary64 Core CpuList Actuator Topology DomainSolver.
From S2P Require Import DomainSolverFacts DomainPlanFacts DomainTheorems GraphWindow ThreadProfile.
From S2P Require Import Config ConfigProperties Hotspot Incremental IncrementalPropose.
From S2P Require Import Runtime RuntimeSolve RuntimeFacts.
Local Open Scope string_scope.
Local Open Scope Z_scope.
Local Open Scope ag_scope.

(** ** A runtime to run *)
Definition demo_numa_config : Config :=
  mk_Config Active true 30 30 [] "" "/tmp/affinitygraph" "/tmp/affinitygraph.sock" "" "" "" ""
    1 60 10 (dlit 8 10) 3 1 60 (dlit 25 100) d1 30 "numa-domain-v1" "numa_node_mask" d1
    d1 (dlit 2 10) (dlit 1 10) (dlit 25 100) 4 1 1 1 1024 (dlit 8 10) (dlit 9 10) 3
    (dlit 55 100) 6 0 2 (dlit 5 10) 4 64 32 (dlit 5 100) d1 (dlit 1 10) (dlit 5 100) 0 0
    (dlit 2 100) (dlit 25 100) (dlit 5 100) (dlit 95 100) (dlit 5 100) 4 (dlit 95 100)
    (double_of_Z 4) 32 d1 (dlit 25 100) 8 (dlit 65 100) 3 (dlit 5 100) d0 true true
    "demo" d1 d1 d1.
(** Two nodes; the mask table of the tests rejects CPU 99. *)
Definition demo_board : HardwareGraph :=
  mk_HardwareGraph [mk_Cpu 0 0 true; mk_Cpu 1 0 true; mk_Cpu 98 1 true; mk_Cpu 99 1 true] ∅
    {[ (0, 0) := d1; (0, 1) := double_of_Z 2; (1, 0) := double_of_Z 2; (1, 1) := d1 ]} ∅.
Definition demo_runtime (w : gmap Z (list Z)) : Runtime (gmap Z (list Z)) :=
  mk_Runtime w Actuator_init (IncrementalSolver_init false) NumaDomainSolver_init
    (GraphWindow_init 60 (mk_Calibration d1 d1 d1)) ∅ ∅ ∅ ∅ ∅ ∅ false 0 0
    (mk_HealthWindow true [] true d0 0 0) (mk_AssignmentState ∅ ∅) 0 0 false ""
    (mk_ActionCounters 0 0 0 0 0) RestoreResult_init false false true [].
Definition demo_team : list ThreadDemand :=
  [demo_thread 11 0 "a" d1; demo_thread 12 98 "a" (dlit 1 2); demo_thread 21 98 "b" (dlit 6 10);
   demo_thread 22 98 "b" (dlit 6 10)].
Definition demo_solve (edges : list RelationEdge) (allowed : gmap Z (list Z)) (now : Z) :=
  solve_numa_domains demo_numa_config demo_board true demo_team edges allowed now.
Definition demo_world : gmap Z (list Z) :=
  {[ 11 := [0; 1; 98]; 12 := [0; 1; 98]; 21 := [0; 1; 98; 99]; 22 := [0; 1; 98; 99] ]}.
(** The first window binds the two threads of family [a]. *)
Definition demo_bound : Runtime (gmap Z (list Z)) :=
  Eval vm_compute in state_of (demo_solve [demo_edge 11 12 (double_of_Z 5)] demo_world 1000
                                 (demo_runtime demo_world)).
Lemma demo_bound_Returned :
  solve_numa_domains demo_numa_config demo_board true demo_team [demo_edge 11 12 (double_of_Z 5)]
    demo_world 1000 (demo_runtime demo_world) = Returned tt demo_bound.
Proof. vm_compute. reflexivity. Qed.

Lemma act_ok_init : act_ok Actuator_init.
Proof. intros t Ht. by apply elem_of_empty in Ht. Qed.

(** ** The window of the NUMA-domain selector *)

(** C4: the protocol between the runtime, the domain solver and the actuator:
    a window run under the runtime's mutex, with no proposal outstanding and a
    consistent actuator, never throws; when it returns, its proposal has been
    committed or discarded, the actuator is consistent, no fatal error was
    recorded and the window is closed in the log; the only way it does not
    return is a restore that failed. *)
Theorem domain_window_completes {W} `{AffinityBackendLaws W} config hardware bpf_reader demands edges
    allowed now (s : Runtime W)
    (Ho : ds_outstanding (rt_domain_solver s) = None) (Hl : rt_locked s = true)
    (Ha : act_ok (rt_actuator s)) (Hm : mode config ≠ Observe) :
  match solve_numa_domains config hardware bpf_reader demands edges allowed now s with
  | Returned _ s' =>
      ds_outstanding (rt_domain_solver s') = None ∧ act_ok (rt_actuator s') ∧
      rt_locked s' = true ∧ rt_fatal_error s' = rt_fatal_error s ∧ ∃ o, ended o s'
  | Thrown _ _ => False
  | Deadlocked s' => mode config = Active ∧ rr_success (rt_last_restore s') = false
  end.
Proof.
  pose proof (solve_numa_domains_wp config hardware bpf_reader demands edges allowed now s Ho Hl Ha Hm) as H1.
  unfold wp in H1. destruct (solve_numa_domains _ _ _ _ _ _ _ s) as [u s'|e s'|s']; [|done|].
  - by destruct H1.
  - destruct H1 as [Hact Hr]. split; [|done]. unfold is_active in Hact. by bool_hyps.
Qed.

Lemma domain_window_completes_witness :
  ds_outstanding (rt_domain_solver demo_bound) = None ∧ (∃ o, ended o demo_bound) ∧
  rt_world demo_bound !! 11 = Some [0; 1].
Proof.
  pose proof (domain_window_completes demo_numa_config demo_board true demo_team
    [demo_edge 11 12 (double_of_Z 5)] demo_world 1000 (demo_runtime demo_world) eq_refl eq_refl) as H.
  specialize (H act_ok_init ltac:(discriminate)).
  rewrite demo_bound_Returned in H.
  destruct H as (H1 & _ & _ & _ & H2). split; [exact H1|]. split; [exact H2|]. vm_compute. reflexivity.
Defined.

(** C3: the masks the selector records are the masks the kernel enforces: if
    that holds before an active window, and the masks sampled for the window
    are current, it holds after every window that does not end with a failed
    batch, whatever was planned, released, inherited, committed or found to
    have vanished; and no window creates or destroys a thread. *)
Theorem recorded_masks_are_kernel_masks {W} `{AffinityBackendLaws W} config hardware bpf_reader demands
    edges allowed now (s s' : Runtime W) u
    (Ho : ds_outstanding (rt_domain_solver s) = None) (Hl : rt_locked s = true)
    (Ha : act_ok (rt_actuator s)) (Hm : mode config = Active)
    (Hs : sampled allowed (rt_world s))
    (Ht : masks_true (rt_world s) (ds_placement (rt_domain_solver s)))
    (Hr : solve_numa_domains config hardware bpf_reader demands edges allowed now s = Returned u s')
    (Hok : ¬ ended "action_failed" s') :
  masks_true (rt_world s') (ds_placement (rt_domain_solver s')) ∧
  ∀ t, alive (rt_world s') t = alive (rt_world s) t.
Proof.
  pose proof (solve_numa_domains_wp config hardware bpf_reader demands edges allowed now s Ho Hl Ha) as H1.
  unfold wp in H1. rewrite Hr in H1. destruct H1 as [_ _ _ _ _ _ Hal Hmt _]; [congruence|].
  split; [|done]. destruct Hmt; try done. unfold is_active. by rewrite bool_decide_true.
Qed.

Lemma ended_last {W} `{AffinityBackend W} o o' (s : Runtime W) :
  last (rt_log s) = Some (mk_LogEvent "solve_window_end" o') → o ≠ o' → ¬ ended o s.
Proof. intros Hl Hne [l Hlog]. rewrite Hlog, last_snoc in Hl. congruence. Qed.

Lemma recorded_masks_are_kernel_masks_witness :
  masks_true (rt_world demo_bound) (ds_placement (rt_domain_solver demo_bound)) ∧
  ds_placement (rt_domain_solver demo_bound) !! 12 = Some [0; 1].
Proof.
  split; [|vm_compute; reflexivity].
  refine (proj1 (recorded_masks_are_kernel_masks demo_numa_config demo_board true demo_team
    [demo_edge 11 12 (double_of_Z 5)] demo_world 1000 (demo_runtime demo_world) demo_bound tt
    eq_refl eq_refl act_ok_init eq_refl _ _ demo_bound_Returned _)).
  - intros t m Hm _. exact (f_equal (default []) Hm).
  - intros t m Hm _. exfalso. exact (lookup_empty_Some t m Hm).
  - eapply ended_last; [vm_compute; reflexivity|discriminate].
Defined.

(** after a failed batch the record is stale: in the second window of this
    run the two threads of family [a] are released, and their original masks
    written back, before the batch for family [b] fails; the proposal is then
    discarded, and the selector keeps the old node mask of both threads on
    record while the kernel has their original masks. *)
Theorem failed_batch_leaves_stale_record :
  match demo_solve [demo_edge 21 22 (double_of_Z 5)] (rt_world demo_bound) 2000 demo_bound with
  | Returned _ s =>
      last (rt_log s) = Some (mk_LogEvent "solve_window_end" "action_failed") ∧
      ds_placement (rt_domain_solver s) !! 11 = Some [0; 1] ∧ backend_get (rt_world s) 11 = [0; 1; 98] ∧
      ds_placement (rt_domain_solver s) !! 12 = Some [0; 1] ∧ backend_get (rt_world s) 12 = [0; 1; 98]
  | _ => False
  end.
Proof. vm_compute. repeat split. Qed.

(** a failed release blocks the runtime for good: the window runs under
    [mutex_], and [trigger_fatal] takes the same non-recursive mutex, so the
    runtime's thread waits for itself; the fatal error is not recorded and the
    workload is not terminated. *)
Theorem failed_release_deadlocks :
  let s0 := demo_runtime (<[11 := [0; 1; 98; 99]]> demo_world) in
  let s1 := state_of (demo_solve [demo_edge 11 12 (double_of_Z 5)] (rt_world s0) 1000 s0) in
  match demo_solve [] (rt_world s1) 2000 s1 with
  | Deadlocked s => rt_fatal_error s = "" ∧ rt_terminated s = false ∧ rr_failed (rt_last_restore s) = 1
  | _ => False
  end.
Proof. vm_compute. repeat split. Qed.

(** ** Modes *)

(** C35: outside active mode the runtime never acts: whatever the selector
    proposes, releases or finds invalid, and also when the window throws, a
    solve window in observe or plan mode makes no affinity system call and
    leaves the actuator's books alone. *)
Theorem plan_mode_never_acts {W} `{AffinityBackend W} config hardware profile bpf_reader log1p now
    (s : Runtime W) (Hm : mode config ≠ Active) :
  let s' := state_of (maybe_solve config hardware profile bpf_reader log1p now s) in
  rt_world s' = rt_world s ∧ rt_actuator s' = rt_actuator s.
Proof. by apply maybe_solve_keeps. Qed.

Lemma plan_mode_never_acts_witness :
  let s' := state_of (maybe_solve Config_default demo_board None true (λ x, x) 20000000000
                        (demo_runtime demo_world)) in
  rt_world s' = demo_world ∧ rt_last_solve_ns s' = 20000000000.
Proof.
  split; [|vm_compute; reflexivity].
  refine (proj1 (plan_mode_never_acts Config_default demo_board None true (λ x, x) 20000000000
    (demo_runtime demo_world) _)). discriminate.
Defined.

(** ** Stopping *)

(** What stopping leaves: nothing bound, nothing planned. *)
Record stopped {W} `{AffinityBackendLaws W} (orig : Z → list Z) (stray : gset Z)
    (s s' : Runtime W) : Prop := {
  sd_paused : rt_paused s' = true;
  sd_actuator : rt_actuator s' = Actuator_init;
  sd_domain : rt_domain_solver s' = NumaDomainSolver_init;
  sd_solver : rt_solver s' = IncrementalSolver_init (i_shadow (rt_solver s));
  sd_plan : rt_current_plan s' = ∅ ∧ rt_current_masks s' = ∅ ∧ rt_active_cohort s' = ∅ ∧
    rt_selector_ready s' = false;
  sd_unlocked : rt_locked s' = false;
  sd_restored : rr_requested (rt_last_restore s') = Z.of_nat (size (acted_tids (rt_actuator s))) ∧
    rr_restored (rt_last_restore s') + rr_vanished (rt_last_restore s') +
      rr_failed (rt_last_restore s') = rr_requested (rt_last_restore s');
  sd_others : ∀ t, t ∉ acted_tids (rt_actuator s) →
    backend_get (rt_world s') t = backend_get (rt_world s) t;
  sd_masks : rr_success (rt_last_restore s') = true →
    ∀ t, alive (rt_world s') t = true → t ∈ acted_tids (rt_actuator s) ∨ t ∉ stray →
      backend_get (rt_world s') t = orig t;
}.

Lemma pause_stops {W} `{AffinityBackendLaws W} orig stray (s : Runtime W) :
  rt_locked s = false → tracks orig stray (rt_world s) (rt_actuator s) →
  ∃ s', pause s = Returned tt s' ∧ stopped orig stray s s' ∧ rt_fatal_error s' = rt_fatal_error s.
Proof.
  intros Hl Htr. destruct (restore_all_tracks _ _ _ _ Htr) as (w & r & Hr & Hq & Hsum & _ & Ho & Hm).
  unfold pause, with_lock, modify, mbind, M_bind. runtime_simpl. rewrite Hl.
  unfold actuator_restore_all. runtime_simpl. rewrite Hr. unfold log, modify, reset_members. runtime_simpl.
  eexists. split; [reflexivity|]. by split.
Qed.

(** C34: pausing undoes the policy.  Take any history since the actuator was last
    empty: batches that committed, failed or were rolled back, selective restores,
    masks the application declared, threads cloned (under an identifier the
    actuator holds no record of), seen for the first time and registered with
    their parent's saved mask, and threads that exited.  [pause] then returns and
    forgets every plan and both selectors' state; each thread acted on is
    restored, vanished or counted as failed, no other thread is written, and, when
    no restore failed, every live thread acted on has the application's own mask
    again, as has every other live one except the strays: those registered with
    another mask than the one they run with, and the thread of a failed batch
    whose failing write changed its mask. *)
Theorem pause_undoes_policy {W} `{AffinityBackendLaws W} w0 orig stray (s : Runtime W)
    (Hl : rt_locked s = false)
    (Hr : history w0 (mk_Binding orig stray (rt_world s) (rt_actuator s))) :
  ∃ s', pause s = Returned tt s' ∧ stopped orig stray s s'.
Proof.
  destruct (pause_stops orig stray s Hl) as (s' & Hp & Hs & _); [|eauto]. exact (history_tracks _ _ Hr).
Qed.

(** a fatal error stops the runtime exactly once: outside the mutex, the
    first call records its message, undoes the policy as [pause] does and
    terminates the workload; any later call changes nothing. *)
Theorem fatal_error_stops_once {W} `{AffinityBackendLaws W} w0 orig stray msg (s : Runtime W)
    (Hl : rt_locked s = false)
    (Hr : history w0 (mk_Binding orig stray (rt_world s) (rt_actuator s))) :
  (rt_fatal_error s ≠ "" → trigger_fatal msg s = Returned tt s) ∧
  (rt_fatal_error s = "" → ∃ s', trigger_fatal msg s = Returned tt s' ∧ stopped orig stray s s' ∧
     rt_fatal_error s' = msg ∧ rt_terminated s' = true).
Proof.
  pose proof (history_tracks w0 _ Hr) as Htr. unfold binding_tracks in Htr. cbn in Htr.
  unfold trigger_fatal, with_lock, record_fatal, mbind, M_bind. runtime_simpl. rewrite Hl. split; intros Hf.
  - rewrite bool_decide_true by done. destruct s. cbn in *. by subst.
  - rewrite bool_decide_false by (by intros []). unfold log at 1, modify at 1.
    match goal with |- context [pause ?x] =>
      destruct (pause_stops orig stray x) as (s' & -> & Hs & Hm); [done|done|] end.
    unfold terminate, modify. runtime_simpl. eexists. split; [reflexivity|]. split; [|by rewrite Hm].
    destruct Hs. by constructor.
Qed.

(** The runtime between windows. *)
Definition demo_idle : Runtime (gmap Z (list Z)) :=
  Eval vm_compute in (λ s : Runtime (gmap Z (list Z)), s ⟨ rt_locked := false ⟩) demo_bound.
Lemma demo_idle_history :
  history demo_world (mk_Binding (backend_get demo_world) ∅ (rt_world demo_idle) (rt_actuator demo_idle)).
Proof.
  set (d := mk_PlacementDelta ∅ {[ 11 := [0; 1]; 12 := [0; 1] ]}).
  destruct (apply demo_world Actuator_init d {[11; 12; 21; 22]}) as [[w a] r] eqn:E.
  assert (Hs : strays demo_world w a (delta_masks d) = ∅) by (eapply strays_empty; [exact E|right; apply _]).
  assert (Hw : w = rt_world demo_idle)
    by (change w with (fst (fst (w, a, r))); rewrite <- E; vm_compute; reflexivity).
  assert (Ha : a = rt_actuator demo_idle)
    by (change a with (snd (fst (w, a, r))); rewrite <- E; vm_compute; reflexivity).
  rewrite <- Hw, <- Ha. apply rtc_once. pose proof (step_apply (backend_get demo_world) ∅ _ _ _ _ _ _ _ E) as St.
  rewrite Hs, (left_id_L ∅ _) in St. exact St.
Qed.

(** Thread 11 clones thread 13 while it is bound to node 0: the first scan saves
    the mask 11 had, and 13 keeps the inherited one. *)
Definition demo_cloned : Runtime (gmap Z (list Z)) :=
  demo_idle ⟨ rt_world := <[13 := [0; 1]]> (rt_world demo_idle) ⟩
    ⟨ rt_actuator := note_inherited_mask (rt_actuator demo_idle) 13 11 [0; 1] ⟩.
Lemma demo_cloned_history :
  ∃ orig stray, orig 11 = [0; 1; 98] ∧ orig 13 = [0; 1; 98] ∧
    history demo_world (mk_Binding orig stray (rt_world demo_cloned) (rt_actuator demo_cloned)).
Proof.
  eexists (wish (wish (backend_get demo_world) 13 [0; 1]) 13 [0; 1; 98]), _.
  split; [reflexivity|]. split; [reflexivity|].
  eapply rtc_r; [eapply rtc_r; [exact demo_idle_history|]|].
  - apply (step_clone _ _ _ _ 13 (<[13 := [0; 1]]> (rt_world demo_idle))).
    + intros t Ht. split.
      * change (bool_decide (is_Some ((<[13 := [0; 1]]> (rt_world demo_idle)) !! t)) =
          bool_decide (is_Some (rt_world demo_idle !! t))). by rewrite lookup_insert_ne.
      * change (default [] ((<[13 := [0; 1]]> (rt_world demo_idle)) !! t) =
          default [] (rt_world demo_idle !! t)). by rewrite lookup_insert_ne.
    + reflexivity.
    + reflexivity.
  - apply (step_inherit _ _ (rt_world demo_cloned) (rt_actuator demo_idle) 13 11 [0; 1; 98]). reflexivity.
Qed.
Lemma pause_undoes_policy_witness :
  ∃ s', pause demo_cloned = Returned tt s' ∧ rt_domain_solver s' = NumaDomainSolver_init ∧
    backend_get (rt_world s') 13 = [0; 1] ∧
    (rr_success (rt_last_restore s') = true → alive (rt_world s') 11 = true →
     backend_get (rt_world s') 11 = [0; 1; 98]).
Proof.
  destruct demo_cloned_history as (orig & stray & Ho & _ & Hh).
  destruct (pause_undoes_policy demo_world orig stray demo_cloned eq_refl Hh) as (s' & Hp & Hs).
  exists s'. split; [exact Hp|]. split; [exact (sd_domain _ _ _ _ Hs)|]. split.
  - apply (sd_others _ _ _ _ Hs). apply (bool_decide_unpack _). vm_compute. exact I.
  - intros Hr Ha. rewrite <- Ho. apply (sd_masks _ _ _ _ Hs Hr 11 Ha).
    left. apply (bool_decide_unpack _). vm_compute. exact I.
Defined.
Lemma fatal_error_stops_once_witness :
  ∃ s', trigger_fatal "lost" demo_idle = Returned tt s' ∧ rt_terminated s' = true.
Proof.
  destruct (fatal_error_stops_once demo_world (backend_get demo_world) ∅ "lost" demo_idle eq_refl
    demo_idle_history) as [_ H]. destruct (H eq_refl) as (s' & H1 & _ & _ & H2).
  exists s'. split; [exact H1|exact H2].
Defined.
