(* ===== verification/BpfPending.v ===== *)
(** * The pending BPF buffers ([include/affinitygraph/bpf_events.h],
    [Runtime::drain_bpf_once] and [Runtime::run_bpf] of [src/runtime.cpp])

    The BPF worker thread moves what the kernel collected into buffers guarded
    by [bpf_pending_mutex_]; the runtime's own thread swaps them out.  Each
    critical section is one function on the buffers. *)
From S2P Require Import Prelude Binary64 Core GraphFacts Runtime.
Local Open Scope string_scope.
Local Open Scope Z_scope.

(** ** Events *)
Definition AFFINITYGRAPH_TASK_FORK : Z := 1.
Definition AFFINITYGRAPH_TASK_EXIT : Z := 2.
Definition AFFINITYGRAPH_FUTEX : Z := 3.
Definition AFFINITYGRAPH_VFS : Z := 4.
Definition AFFINITYGRAPH_TASK_EXEC : Z := 5.
Definition AFFINITYGRAPH_TASK_RENAME : Z := 6.
Definition AFFINITYGRAPH_AFFINITY : Z := 7.
Definition AFFINITYGRAPH_MASK_BYTES : Z := 128.

(** [comm] is the text before the terminator, which is what every reader of
    the field takes ([strnlen]); [mask] is its 128 bytes. *)
Record affinitygraph_bpf_event := mk_event {
  ev_kind : Z;
  ev_tgid : Z;
  ev_tid : Z;
  ev_peer_tid : Z;
  ev_parent_tgid : Z;
  ev_parent_tid : Z;
  ev_mask_bytes : Z;
  ev_timestamp_ns : Z;
  ev_start_time_ns : Z;
  ev_peer_start_time_ns : Z;
  ev_value_ns : Z;
  ev_resource : Z;
  ev_start_routine : Z;
  ev_comm : string;
  ev_mask : list Z;
}.
Definition zero_mask : list Z := replicate 128 0.

(** [cpus_from_mask]: the set bits of the bytes the kernel filled. *)
Definition mask_bit (e : affinitygraph_bpf_event) (bit : Z) : bool :=
  Z.testbit (default 0 (ev_mask e !! Z.to_nat (bit / 8))) (bit mod 8).
Definition cpus_from_mask (e : affinitygraph_bpf_event) : list Z :=
  let bytes := Z.min (ev_mask_bytes e) AFFINITYGRAPH_MASK_BYTES in
  filter (λ bit, mask_bit e bit = true) (seqZ 0 (bytes * 8)).

(** ** Buffers *)
Record PendingRelationKey := mk_PendingRelationKey {
  prk_kind : Z;
  prk_tgid : Z;
  prk_tid : Z;
  prk_peer_tid : Z;
  prk_start_time_ns : Z;
  prk_peer_start_time_ns : Z;
}.
#[export] Instance PendingRelationKey_eq_dec : EqDecision PendingRelationKey.
Proof. solve_decision. Defined.
#[export, program] Instance PendingRelationKey_countable : Countable PendingRelationKey :=
  inj_countable' (λ k, (prk_kind k, prk_tgid k, prk_tid k, prk_peer_tid k, prk_start_time_ns k,
                        prk_peer_start_time_ns k))
    (λ '(a, b, c, d, e, f), mk_PendingRelationKey a b c d e f) _.
Next Obligation. by intros []. Qed.

Record PendingRelationValue := mk_PendingRelationValue {
  prv_timestamp_ns : Z;
  prv_value_ns : Z;
}.

(** [BpfHealthSnapshot] with the time it was taken; the reader's statistics,
    which are only logged, are left out. *)
Record PendingHealthSample := mk_PendingHealthSample {
  phs_timestamp_ns : Z;
  phs_valid : bool;
  phs_counters : BpfCounters;
}.

Record Pending := mk_Pending {
  pending_lifecycle_events : list affinitygraph_bpf_event;
  pending_relations : gmap PendingRelationKey PendingRelationValue;
  pending_health_samples : list PendingHealthSample;
  pending_lifecycle_overflow : Z;
  pending_relation_overflow : Z;
  pending_relation_started_ns : Z;
  last_bpf_health_sample_ns : Z;
}.
Definition Pending_init : Pending := mk_Pending [] ∅ [] 0 0 0 0.

(** ** [drain_bpf_once] *)
Definition lifecycle_limit : Z := 65536.
Definition relation_limit : Z := 524288.
Definition health_history_limit : Z := 64.

Definition push_lifecycle (st : list affinitygraph_bpf_event * Z) (e : affinitygraph_bpf_event) :
    list affinitygraph_bpf_event * Z :=
  if lifecycle_limit <=? Zsize st.1 then (st.1, u64 (st.2 + 1)) else ((st.1 ++ [e])%list, st.2).

Definition relation_key (e : affinitygraph_bpf_event) : PendingRelationKey :=
  mk_PendingRelationKey (ev_kind e) (ev_tgid e) (ev_tid e) (ev_peer_tid e) (ev_start_time_ns e)
    (ev_peer_start_time_ns e).

Record RelationBuffer := mk_RelationBuffer {
  rb_relations : gmap PendingRelationKey PendingRelationValue;
  rb_overflow : Z;
  rb_started_ns : Z;
}.

(** [merge_relation]; [clock] is what [monotonic_ns] returns during the drain:
    it is read at most once, when the first relation enters an empty table. *)
Definition merge_relation (clock : Z) (b : RelationBuffer) (e : affinitygraph_bpf_event) :
    RelationBuffer :=
  match rb_relations b !! relation_key e with
  | None =>
      if relation_limit <=? Z.of_nat (size (rb_relations b))
      then mk_RelationBuffer (rb_relations b) (u64 (rb_overflow b + 1)) (rb_started_ns b)
      else mk_RelationBuffer
        (<[relation_key e := mk_PendingRelationValue (ev_timestamp_ns e) (ev_value_ns e)]>
           (rb_relations b)) (rb_overflow b)
        (if bool_decide (rb_relations b = ∅) then clock else rb_started_ns b)
  | Some v => mk_RelationBuffer
      (<[relation_key e := mk_PendingRelationValue (Z.max (prv_timestamp_ns v) (ev_timestamp_ns e))
                             (u64 (prv_value_ns v + ev_value_ns e))]> (rb_relations b))
      (rb_overflow b) (rb_started_ns b)
  end.

Definition drain_bpf_once (clock : Z) (lifecycle futex vfs : list affinitygraph_bpf_event)
    (p : Pending) : Pending :=
  let '(events, overflow) := foldl push_lifecycle
    (pending_lifecycle_events p, pending_lifecycle_overflow p) lifecycle in
  let b := foldl (merge_relation clock)
    (mk_RelationBuffer (pending_relations p) (pending_relation_overflow p)
       (pending_relation_started_ns p)) (futex ++ vfs)%list in
  mk_Pending events (rb_relations b) (pending_health_samples p) overflow (rb_overflow b)
    (rb_started_ns b) (last_bpf_health_sample_ns p).

(** ** The health samples of [run_bpf] *)
Definition sample_health (x : PendingHealthSample) (p : Pending) : Pending :=
  let kept := if health_history_limit <=? Zsize (pending_health_samples p)
              then drop 1 (pending_health_samples p) else pending_health_samples p in
  mk_Pending (pending_lifecycle_events p) (pending_relations p) (kept ++ [x])%list
    (pending_lifecycle_overflow p) (pending_relation_overflow p) (pending_relation_started_ns p)
    (phs_timestamp_ns x).

(** ** What the runtime's thread swaps out *)
Record Batch := mk_Batch {
  bt_lifecycle : list affinitygraph_bpf_event;
  bt_relations : gmap PendingRelationKey PendingRelationValue;
  bt_lifecycle_overflow : Z;
  bt_relation_overflow : Z;
  bt_duration_ns : Z;
}.

(** The first block of [consume_pending_bpf]; [clock] is [monotonic_ns()]. *)
Definition take_pending (clock : Z) (p : Pending) : Batch * Pending :=
  (mk_Batch (pending_lifecycle_events p) (pending_relations p) (pending_lifecycle_overflow p)
     (pending_relation_overflow p)
     (if pending_relation_started_ns p =? 0 then 0 else u64_sub clock (pending_relation_started_ns p)),
   mk_Pending [] ∅ (pending_health_samples p) 0 0 0 (last_bpf_health_sample_ns p)).

(** The first block of [sample_bpf_health]. *)
Definition take_health (p : Pending) : list PendingHealthSample * Z * Pending :=
  (pending_health_samples p, last_bpf_health_sample_ns p,
   mk_Pending (pending_lifecycle_events p) (pending_relations p) [] (pending_lifecycle_overflow p)
     (pending_relation_overflow p) (pending_relation_started_ns p) (last_bpf_health_sample_ns p)).

(** ** Facts *)
Lemma lifecycle_limit_pos : 0 < lifecycle_limit.
Proof. done. Qed.
#[local] Opaque lifecycle_limit relation_limit.
#[export] Instance PendingRelationValue_eq_dec : EqDecision PendingRelationValue.
Proof. solve_decision. Defined.

(** *** Masks *)
Lemma elem_of_cpus_from_mask e c :
  c ∈ cpus_from_mask e ↔
  0 ≤ c < Z.min (ev_mask_bytes e) AFFINITYGRAPH_MASK_BYTES * 8 ∧ mask_bit e c = true.
Proof. unfold cpus_from_mask. rewrite list_elem_of_filter, elem_of_seqZ. naive_solver lia. Qed.

Lemma cpus_from_mask_sorted e : StronglySorted Z.lt (cpus_from_mask e).
Proof. apply sorted_filter, seqZ_sorted. Qed.

(** *** The lifecycle queue *)
Lemma push_lifecycle_spec es : ∀ q n,
  Zsize q ≤ lifecycle_limit →
  foldl push_lifecycle (q, u64 n) es =
  (take (Z.to_nat lifecycle_limit) (q ++ es)%list,
   u64 (n + Z.max 0 (Zsize q + Zsize es - lifecycle_limit))).
Proof.
  induction es as [|e es IH]; intros q n Hq; cbn [foldl].
  - rewrite app_nil_r, take_ge by (unfold Zsize in *; lia).
    rewrite Z.max_l by (unfold Zsize in *; cbn [length]; lia). by rewrite Z.add_0_r.
  - unfold push_lifecycle at 2. cbn [fst snd]. destruct (lifecycle_limit <=? Zsize q) eqn:E; bool_hyps.
    + rewrite u64_add_l, IH, !take_app_le by (done || unfold Zsize in *; lia).
      rewrite !Z.max_r by (unfold Zsize in *; cbn [length]; lia).
      rewrite Zsize_cons, <- Z.add_assoc. do 3 f_equal. lia.
    + rewrite IH by (rewrite Zsize_app; unfold Zsize in *; cbn [length]; lia).
      rewrite <- app_assoc, Zsize_app, !Zsize_cons. cbn [app]. do 4 f_equal. unfold Zsize. cbn [length]. lia.
Qed.

(** *** The relation table *)

(** What the table promises for one key: the events of the key, summed modulo
    [2^64], with the latest timestamp. *)
Definition merge_value (v : option PendingRelationValue) (e : affinitygraph_bpf_event) :
    option PendingRelationValue :=
  Some match v with
  | None => mk_PendingRelationValue (ev_timestamp_ns e) (ev_value_ns e)
  | Some v => mk_PendingRelationValue (Z.max (prv_timestamp_ns v) (ev_timestamp_ns e))
                (u64 (prv_value_ns v + ev_value_ns e))
  end.
Definition arrivals (k : PendingRelationKey) (es : list affinitygraph_bpf_event) :=
  filter (λ e, relation_key e = k) es.
Definition lost (r : gmap PendingRelationKey PendingRelationValue) (es : list affinitygraph_bpf_event) :=
  filter (λ e, r !! relation_key e = None) es.

(** The table [r] holds the events [es] on top of [r0], except those of keys
    that found it full. *)
Record holds (r0 r : gmap PendingRelationKey PendingRelationValue) (es : list affinitygraph_bpf_event) :
    Prop := {
  hold_key k : r !! k = foldl merge_value (r0 !! k) (arrivals k es) ∨
    r !! k = None ∧ r0 !! k = None ∧ relation_limit ≤ Z.of_nat (size r);
  hold_size : Z.of_nat (size r0) ≤ relation_limit → Z.of_nat (size r) ≤ relation_limit;
}.

Lemma arrivals_snoc k es e :
  arrivals k (es ++ [e])%list = if decide (relation_key e = k) then (arrivals k es ++ [e])%list else arrivals k es.
Proof.
  unfold arrivals. rewrite filter_app, filter_cons, filter_nil.
  destruct (decide (relation_key e = k)); [done|apply app_nil_r].
Qed.

Lemma holds_refl r : holds r r [].
Proof. split; [by left|done]. Qed.

Lemma holds_merge r0 clock b es e :
  holds r0 (rb_relations b) es → holds r0 (rb_relations (merge_relation clock b e)) (es ++ [e])%list.
Proof.
  intros [Hk Hs]. unfold merge_relation.
  destruct (rb_relations b !! relation_key e) as [v|] eqn:Hv; [|case_match; bool_hyps]; cbn [rb_relations].
  - split; [intros k|rewrite map_size_insert_Some by eauto; done].
    rewrite arrivals_snoc, map_size_insert_Some by eauto.
    destruct (decide (relation_key e = k)) as [<-|]; [left|rewrite lookup_insert_ne by done; apply Hk].
    rewrite lookup_insert_eq, foldl_app. cbn. destruct (Hk (relation_key e)) as [<-|[]]; [|congruence].
    by rewrite Hv.
  - split; [intros k|done]. rewrite arrivals_snoc.
    destruct (decide (relation_key e = k)) as [<-|]; [|apply Hk]. right.
    destruct (Hk (relation_key e)) as [Hf|Hf]; [|naive_solver]. split_and!; [done| |lia].
    rewrite Hv in Hf. clear -Hf. induction (arrivals _ es) as [|x l _] using rev_ind; [done|].
    by rewrite foldl_app in Hf.
  - split; [intros k|rewrite map_size_insert_None by done; lia].
    rewrite arrivals_snoc, map_size_insert_None by done.
    destruct (decide (relation_key e = k)) as [<-|]; [left|].
    + rewrite lookup_insert_eq, foldl_app. cbn. destruct (Hk (relation_key e)) as [<-|[]]; [|lia].
      by rewrite Hv.
    + rewrite lookup_insert_ne by done. destruct (Hk k); [by left|right; naive_solver lia].
Qed.

Lemma lost_snoc r es e :
  lost r (es ++ [e])%list = (lost r es ++ if decide (r !! relation_key e = None) then [e] else [])%list.
Proof.
  unfold lost. rewrite filter_app, filter_cons, filter_nil. by destruct (decide _).
Qed.

Lemma lost_insert r k v es :
  r !! k = None → arrivals k es = [] → lost (<[k := v]> r) es = lost r es.
Proof.
  intros Hr Ha. apply filter_ext_in. intros e He.
  rewrite lookup_insert_None. split; [tauto|]. intros H. split; [done|]. intros ->.
  assert (e ∈ arrivals (relation_key e) es) as Hin by (by apply list_elem_of_filter).
  rewrite Ha in Hin. by apply elem_of_nil in Hin.
Qed.

(** One event more: the table still holds everything but what was lost, and the
    counter has counted what was lost. *)
Lemma merge_relation_lost r0 clock b es e :
  holds r0 (rb_relations b) es →
  lost (rb_relations (merge_relation clock b e)) (es ++ [e])%list =
  (lost (rb_relations b) es ++ if bool_decide (rb_relations (merge_relation clock b e) !! relation_key e = None)
                               then [e] else [])%list ∧
  rb_overflow (merge_relation clock b e) =
  if bool_decide (rb_relations (merge_relation clock b e) !! relation_key e = None)
  then u64 (rb_overflow b + 1) else rb_overflow b.
Proof.
  intros Hh. rewrite lost_snoc. unfold merge_relation.
  destruct (rb_relations b !! relation_key e) as [v|] eqn:Hv; [|case_match; bool_hyps];
    cbn [rb_relations rb_overflow].
  - rewrite lookup_insert_eq, decide_False, bool_decide_false by done. split; [|done].
    f_equal. unfold lost. apply filter_ext_in. intros x _. rewrite lookup_insert_None. split; [naive_solver|].
    intros Hx. split; [done|]. intros He. congruence.
  - by rewrite decide_True, bool_decide_true.
  - rewrite lookup_insert_eq, decide_False, bool_decide_false by done. split; [|done].
    f_equal. apply lost_insert; [done|]. destruct (hold_key _ _ _ Hh (relation_key e)) as [Hf|Hf]; [|lia].
    rewrite Hv in Hf. destruct (arrivals (relation_key e) es) as [|x l] using rev_ind; [done|].
    by rewrite foldl_app in Hf.
Qed.

Lemma merge_relations_holds r0 clock es0 es b :
  holds r0 (rb_relations b) es0 → rb_overflow b = u64 (Zsize (lost (rb_relations b) es0)) →
  let b' := foldl (merge_relation clock) b es in
  holds r0 (rb_relations b') (es0 ++ es)%list ∧
  rb_overflow b' = u64 (Zsize (lost (rb_relations b') (es0 ++ es)%list)).
Proof.
  intros H0 Hn. induction es as [|e es [IH1 IH2]] using rev_ind; cbn zeta; [by rewrite app_nil_r|].
  rewrite foldl_app. cbn [foldl]. set (b1 := foldl (merge_relation clock) b es) in *.
  rewrite app_assoc. split; [by apply holds_merge|].
  destruct (merge_relation_lost _ clock b1 _ e IH1) as [-> ->].
  rewrite Zsize_app, IH2. case_bool_decide; [rewrite u64_add_l|]; f_equal; unfold Zsize; cbn [length]; lia.
Qed.

Lemma foldl_merge_value_None v es : foldl merge_value v es = None → v = None ∧ es = [].
Proof. destruct es as [|x l _] using rev_ind; [done|]. by rewrite foldl_app. Qed.

Lemma Zsize_lost r es : Zsize (lost r es) ≤ Zsize es.
Proof. apply inj_le, length_filter. Qed.

Lemma lost_nil r es : lost r es = [] → ∀ e, e ∈ es → is_Some (r !! relation_key e).
Proof.
  intros Hl e He. destruct (r !! relation_key e) eqn:Hr; [eauto|exfalso].
  assert (e ∈ lost r es) as Hin by (by apply list_elem_of_filter). rewrite Hl in Hin. by apply elem_of_nil in Hin.
Qed.

(** Without a loss the table is the group-by of the events. *)
Lemma holds_all r0 r es :
  holds r0 r es → lost r es = [] → ∀ k, r !! k = foldl merge_value (r0 !! k) (arrivals k es).
Proof.
  intros Hh Hl k. destruct (hold_key _ _ _ Hh k) as [?|(Hr & Hr0 & _)]; [done|].
  destruct (arrivals k es) as [|e l] eqn:Ha; [cbn; congruence|exfalso].
  assert (e ∈ arrivals k es) as Hin by (rewrite Ha; left).
  apply list_elem_of_filter in Hin as [<- Hin]. destruct (lost_nil _ _ Hl e Hin). congruence.
Qed.

(** ** The worker and the log it promises to keep *)
Inductive WorkerAction :=
  | Drain (clock : Z) (lifecycle futex vfs : list affinitygraph_bpf_event)
  | Sample (x : PendingHealthSample).
Definition worker (p : Pending) (a : WorkerAction) : Pending :=
  match a with
  | Drain clock l f v => drain_bpf_once clock l f v p
  | Sample x => sample_health x p
  end.

(** The unbounded logs: everything the kernel handed over, in order. *)
Definition lifecycle_log (acts : list WorkerAction) : list affinitygraph_bpf_event :=
  flat_map (λ a, match a with Drain _ l _ _ => l | Sample _ => [] end) acts.
Definition relation_log (acts : list WorkerAction) : list affinitygraph_bpf_event :=
  flat_map (λ a, match a with Drain _ _ f v => (f ++ v)%list | Sample _ => [] end) acts.
Definition health_log (acts : list WorkerAction) : list PendingHealthSample :=
  flat_map (λ a, match a with Sample x => [x] | _ => [] end) acts.

(** How the bounded buffers represent the logs. *)
Record represents (p : Pending) (ls rs : list affinitygraph_bpf_event) : Prop := {
  rep_lifecycle : pending_lifecycle_events p = take (Z.to_nat lifecycle_limit) ls;
  rep_lifecycle_overflow : pending_lifecycle_overflow p = u64 (Z.max 0 (Zsize ls - lifecycle_limit));
  rep_relations : holds ∅ (pending_relations p) rs;
  rep_relation_overflow : pending_relation_overflow p = u64 (Zsize (lost (pending_relations p) rs));
}.

Lemma take_app_take {A} n (l k : list A) : take n (take n l ++ k) = take n (l ++ k).
Proof.
  rewrite !firstn_app, firstn_firstn, Nat.min_id, length_take. f_equal. f_equal. lia.
Qed.

Lemma represents_worker p ls rs a :
  represents p ls rs →
  represents (worker p a) (ls ++ lifecycle_log [a])%list (rs ++ relation_log [a])%list.
Proof.
  intros [H1 H2 H3 H4]. pose proof lifecycle_limit_pos. destruct a as [clock l f v|x]; cbn [worker].
  - unfold drain_bpf_once. rewrite H1, H2, push_lifecycle_spec by (unfold Zsize; rewrite length_take; lia).
    destruct (merge_relations_holds ∅ clock rs (f ++ v)%list (mk_RelationBuffer (pending_relations p)
      (pending_relation_overflow p) (pending_relation_started_ns p)) H3 H4) as [Hr Ho].
    cbn [lifecycle_log relation_log flat_map]. rewrite !app_nil_r. split; [| |exact Hr|exact Ho].
    + cbn [pending_lifecycle_events]. by rewrite take_app_take.
    + cbn [pending_lifecycle_overflow]. f_equal. rewrite Zsize_app. unfold Zsize. rewrite length_take. lia.
  - cbn. rewrite !app_nil_r. by split.
Qed.

Lemma represents_empty p : let p' := (take_pending 0 p).2 in represents p' [] [].
Proof.
  pose proof lifecycle_limit_pos. split; cbn.
  - by rewrite take_nil.
  - by rewrite Z.max_l by (unfold Zsize; cbn; lia).
  - apply holds_refl.
  - done.
Qed.

Lemma represents_run acts p ls rs :
  represents p ls rs →
  represents (foldl worker p acts) (ls ++ lifecycle_log acts)%list (rs ++ relation_log acts)%list.
Proof.
  intros Hp. induction acts as [|a acts IH] using rev_ind; [cbn; by rewrite !app_nil_r|].
  rewrite foldl_app. unfold lifecycle_log, relation_log. rewrite !flat_map_app, !app_assoc.
  by apply represents_worker.
Qed.

(** The batch holds everything the worker was handed since the last swap. *)
Definition complete (b : Batch) (acts : list WorkerAction) : Prop :=
  bt_lifecycle b = lifecycle_log acts ∧
  ∀ k, bt_relations b !! k = foldl merge_value None (arrivals k (relation_log acts)).

Lemma batch_complete c0 p acts clock :
  Zsize (lifecycle_log acts) < 2 ^ 64 → Zsize (relation_log acts) < 2 ^ 64 →
  let b := (take_pending clock (foldl worker (take_pending c0 p).2 acts)).1 in
  bt_lifecycle_overflow b ≠ 0 ∨ bt_relation_overflow b ≠ 0 ∨ complete b acts.
Proof.
  intros Hl Hr. destruct (represents_run acts _ _ _ (represents_empty p)) as [H1 H2 H3 H4]. cbn [app] in *.
  pose proof lifecycle_limit_pos. cbn [take_pending fst snd] in *. set (q := foldl worker _ acts) in *. cbn.
  rewrite H2, H4. unfold u64. pose proof (Zsize_lost (pending_relations q) (relation_log acts)).
  rewrite !Z.mod_small by (unfold Zsize in *; lia).
  destruct (decide (Zsize (lifecycle_log acts) ≤ lifecycle_limit)); [right|left; lia].
  destruct (lost _ _) eqn:Hlost; [right|left; unfold Zsize; cbn [length]; lia].
  split; cbn; [rewrite H1; apply take_ge; unfold Zsize in *; lia|]. intros k.
  by rewrite (holds_all _ _ _ H3 Hlost), lookup_empty.
Qed.

(** C8: the pending buffers refine an unbounded log.  Whatever the worker did
    since the runtime last swapped the buffers out, the batch it takes next
    either reports an overflow or is complete: every lifecycle event in order
    and, for every relation, the sum and the latest time of all its events. *)
Theorem batch_refines_log c0 p acts clock
    (Hl : Zsize (lifecycle_log acts) < 2 ^ 64) (Hr : Zsize (relation_log acts) < 2 ^ 64) :
  let b := (take_pending clock (foldl worker (take_pending c0 p).2 acts)).1 in
  bt_lifecycle_overflow b ≠ 0 ∨ bt_relation_overflow b ≠ 0 ∨
  bt_lifecycle b = lifecycle_log acts ∧
  ∀ k, bt_relations b !! k = foldl merge_value None (arrivals k (relation_log acts)).
Proof. by apply batch_complete. Qed.

(** The buffers at their limits. *)
Definition demo_relation (t : Z) (v : Z) : affinitygraph_bpf_event :=
  mk_event AFFINITYGRAPH_FUTEX 1 t 9 0 0 0 v 0 0 v 0 0 "" zero_mask.
Lemma batch_refines_log_witness :
  let acts := [Drain 5 [] [demo_relation 7 3; demo_relation 8 1] []; Drain 6 [] [demo_relation 7 4] []] in
  bt_relations (take_pending 8 (foldl worker (take_pending 0 Pending_init).2 acts)).1
    !! relation_key (demo_relation 7 0) = Some (mk_PendingRelationValue 4 7).
Proof.
  destruct (batch_refines_log 0 Pending_init
    [Drain 5 [] [demo_relation 7 3; demo_relation 8 1] []; Drain 6 [] [demo_relation 7 4] []] 8
    eq_refl eq_refl) as [H|[H|[_ H]]].
  - exfalso. apply H. vm_compute. reflexivity.
  - exfalso. apply H. vm_compute. reflexivity.
  - cbn zeta. rewrite H. vm_compute. reflexivity.
Defined.

(** the buffers are bounded: however the worker runs, at most 65536
    lifecycle events, 524288 relations and 64 health samples are pending. *)
Theorem pending_bounded c0 p acts :
  let q := foldl worker (take_health (take_pending c0 p).2).2 acts in
  Zsize (pending_lifecycle_events q) ≤ lifecycle_limit ∧
  Z.of_nat (size (pending_relations q)) ≤ relation_limit ∧
  Zsize (pending_health_samples q) ≤ health_history_limit.
Proof.
  assert (represents (take_health (take_pending c0 p).2).2 [] []) as H0 by (by destruct (represents_empty p)).
  destruct (represents_run acts _ _ _ H0) as [H1 _ H3 _]. pose proof lifecycle_limit_pos. cbn zeta. split_and!.
  - rewrite H1. unfold Zsize. rewrite length_take. lia.
  - apply (hold_size _ _ _ H3). done.
  - apply (foldl_invariant worker (λ q, Zsize (pending_health_samples q) ≤ health_history_limit)); [done|].
    intros q [clock l f v|x] _ Hq; cbn [worker]; unfold drain_bpf_once, sample_health; [by case_match|].
    cbn [pending_health_samples]. rewrite Zsize_app. case_match; bool_hyps; unfold Zsize, health_history_limit in *;
      rewrite ?length_drop; cbn [length]; lia.
Qed.

(** the mask of an affinity event is read exactly: a CPU is listed iff its
    bit is set in one of the bytes the kernel filled, at most 1024 CPUs are
    read, and the list is strictly ascending. *)
Theorem cpus_from_mask_exact e :
  StronglySorted Z.lt (cpus_from_mask e) ∧ Forall (λ c, 0 ≤ c < 1024) (cpus_from_mask e) ∧
  ∀ c, c ∈ cpus_from_mask e ↔ 0 ≤ c < Z.min (ev_mask_bytes e) AFFINITYGRAPH_MASK_BYTES * 8 ∧ mask_bit e c = true.
Proof.
  split_and!; [apply cpus_from_mask_sorted| |apply elem_of_cpus_from_mask].
  apply Forall_forall. intros c Hc%elem_of_cpus_from_mask. unfold AFFINITYGRAPH_MASK_BYTES in *. lia.
Qed.
