(* ===== verification/BpfProbe.v ===== *)
(** * The kernel probes ([bpf/affinitygraph.bpf.c])

    Every probe of the BPF program as a function on the program's maps.  What a
    probe reads from the kernel is an argument: the current task and the task
    of the tracepoint, the clock, the registers and syscall arguments, and
    whether the ring buffer has room.  A hash map refuses a new key when it
    holds [max_entries] keys; an LRU map always accepts and may forget other
    keys, which is a separate step of the environment (file [BpfSystem]). *)
From S2P Require Import Prelude BpfPending.
Local Open Scope Z_scope.

(** ** Maps *)
Record affinitygraph_target := mk_target { tg_root_tgid : Z; tg_start_time_ns : Z }.

Record affinitygraph_bpf_health := mk_health {
  he_emitted : Z;
  he_dropped : Z;
  he_emitted_by_kind : list Z;
  he_dropped_by_kind : list Z;
  he_suppressed_by_kind : list Z;
}.
Definition AFFINITYGRAPH_EVENT_KIND_COUNT : Z := 8.
Definition health_init : affinitygraph_bpf_health :=
  mk_health 0 0 (replicate 8 0) (replicate 8 0) (replicate 8 0).

(** [struct thread_key], as (tgid, tid); [struct waiter_key], as (tgid,
    address); [struct resource_key], as (tgid, device, inode). *)
Definition thread_key : Type := Z * Z.
Definition waiter_key : Type := Z * Z.
Definition resource_key : Type := Z * Z * Z.

Record pending_pthread := mk_pending_pthread { pp_routine : Z; pp_timestamp_ns : Z }.
Record waiter_value := mk_waiter { wv_tid : Z; wv_start_time_ns : Z }.
Record resource_value := mk_resource { rv_tid : Z; rv_timestamp_ns : Z; rv_start_time_ns : Z }.
Record pending_affinity := mk_pending_affinity {
  pf_target_tid : Z;
  pf_mask_bytes : Z;
  pf_mask : list Z;
}.

Record affinitygraph_futex_key := mk_futex_key {
  fk_tgid : Z; fk_tid : Z; fk_peer_tid : Z; fk_start_time_ns : Z; fk_peer_start_time_ns : Z }.
Record affinitygraph_futex_value := mk_futex_value { fv_count : Z; fv_last_timestamp_ns : Z }.
Record affinitygraph_vfs_key := mk_vfs_key {
  vk_tgid : Z; vk_tid : Z; vk_peer_tid : Z; vk_start_time_ns : Z; vk_peer_start_time_ns : Z;
  vk_resource : Z }.
Record affinitygraph_vfs_value := mk_vfs_value {
  vv_total_time_ns : Z; vv_count : Z; vv_last_timestamp_ns : Z }.

#[export] Instance futex_key_eq_dec : EqDecision affinitygraph_futex_key.
Proof. solve_decision. Defined.
#[export, program] Instance futex_key_countable : Countable affinitygraph_futex_key :=
  inj_countable' (λ k, (fk_tgid k, fk_tid k, fk_peer_tid k, fk_start_time_ns k, fk_peer_start_time_ns k))
    (λ '(a, b, c, d, e), mk_futex_key a b c d e) _.
Next Obligation. by intros []. Qed.
#[export] Instance vfs_key_eq_dec : EqDecision affinitygraph_vfs_key.
Proof. solve_decision. Defined.
#[export, program] Instance vfs_key_countable : Countable affinitygraph_vfs_key :=
  inj_countable' (λ k, (vk_tgid k, vk_tid k, vk_peer_tid k, vk_start_time_ns k,
                        vk_peer_start_time_ns k, vk_resource k))
    (λ '(a, b, c, d, e, f), mk_vfs_key a b c d e f) _.
Next Obligation. by intros []. Qed.

(** The maps of the program; [pr_ring] holds the events published in the ring
    buffer, oldest first. *)
Record Probe := mk_Probe {
  pr_pids : gmap Z affinitygraph_target;
  pr_ring : list affinitygraph_bpf_event;
  pr_health : affinitygraph_bpf_health;
  pr_rename_throttle : gmap thread_key Z;
  pr_pending_pthreads : gmap thread_key pending_pthread;
  pr_waiters : gmap waiter_key waiter_value;
  pr_futex_aggregates : gmap affinitygraph_futex_key affinitygraph_futex_value;
  pr_vfs_aggregates : gmap affinitygraph_vfs_key affinitygraph_vfs_value;
  pr_resources : gmap resource_key resource_value;
  pr_pending_affinities : gmap thread_key pending_affinity;
}.
Definition Probe_init (pids : gmap Z affinitygraph_target) : Probe :=
  mk_Probe pids [] health_init ∅ ∅ ∅ ∅ ∅ ∅ ∅.
Definition Probe_eta (p : Probe) : Probe :=
  mk_Probe (pr_pids p) (pr_ring p) (pr_health p) (pr_rename_throttle p) (pr_pending_pthreads p)
    (pr_waiters p) (pr_futex_aggregates p) (pr_vfs_aggregates p) (pr_resources p)
    (pr_pending_affinities p).

(** [p ⟪ f := v ⟫]: the map [f] of the program replaced by [v]. *)
Ltac probe_update p f v :=
  let t := eval cbv beta delta [Probe_eta] in (Probe_eta p) in
  let q := eval pattern (f p) in t in
  match q with ?G _ => let r := eval cbv beta in (G v) in exact r end.
Notation "p ⟪ f := v ⟫" := (ltac:(probe_update p f v))
  (at level 1, f constr at level 0, v at level 200, left associativity, only parsing) : ag_scope.
Local Open Scope ag_scope.

Definition pids_max_entries : Z := 1024.
Definition pending_max_entries : Z := 8192.
Definition aggregate_max_entries : Z := 262144.

(** [bpf_map_update_elem] with [BPF_ANY] on a hash map, and whether it
    succeeded. *)
Definition hash_update {K V} `{Countable K} (max_entries : Z) (k : K) (v : V) (m : gmap K V) :
    gmap K V * bool :=
  if bool_decide (is_Some (m !! k)) || (Z.of_nat (size m) <? max_entries)
  then (<[k := v]> m, true) else (m, false).

(** ** Tasks *)
(** What the probes read of a [task_struct]; [t_leader_start] is the start time
    of [group_leader], or [None] for a null pointer. *)
Record Task := mk_Task {
  t_tgid : Z;
  t_pid : Z;
  t_start_boottime : Z;
  t_comm : string;
  t_leader_start : option Z;
}.

Definition tracked_task (p : Probe) (tgid : Z) (task : Task) : bool :=
  match pr_pids p !! tgid with
  | None => false
  | Some target =>
      let generation := default (t_start_boottime task) (t_leader_start task) in
      (tg_start_time_ns target =? 0) || (tg_start_time_ns target =? generation)
  end.

(** ** Health *)
Definition count_kind (kind : Z) (l : list Z) : list Z :=
  if kind <? AFFINITYGRAPH_EVENT_KIND_COUNT then alter (λ n, u64 (n + 1)) (Z.to_nat kind) l else l.

Definition account_emit (kind : Z) (ok : bool) (h : affinitygraph_bpf_health) :
    affinitygraph_bpf_health :=
  if ok
  then mk_health (u64 (he_emitted h + 1)) (he_dropped h) (count_kind kind (he_emitted_by_kind h))
         (he_dropped_by_kind h) (he_suppressed_by_kind h)
  else mk_health (he_emitted h) (u64 (he_dropped h + 1)) (he_emitted_by_kind h)
         (count_kind kind (he_dropped_by_kind h)) (he_suppressed_by_kind h).

Definition account_suppressed (kind : Z) (h : affinitygraph_bpf_health) : affinitygraph_bpf_health :=
  mk_health (he_emitted h) (he_dropped h) (he_emitted_by_kind h) (he_dropped_by_kind h)
    (count_kind kind (he_suppressed_by_kind h)).

Definition at_time (e : affinitygraph_bpf_event) (now : Z) : affinitygraph_bpf_event :=
  mk_event (ev_kind e) (ev_tgid e) (ev_tid e) (ev_peer_tid e) (ev_parent_tgid e) (ev_parent_tid e)
    (ev_mask_bytes e) now (ev_start_time_ns e) (ev_peer_start_time_ns e) (ev_value_ns e)
    (ev_resource e) (ev_start_routine e) (ev_comm e) (ev_mask e).

(** [emit_event]; [room] says whether [bpf_ringbuf_output] finds space. *)
Definition emit_event (now : Z) (room : bool) (e : affinitygraph_bpf_event) (p : Probe) : Probe :=
  let p := p ⟪ pr_ring := if room then (pr_ring p ++ [at_time e now])%list else pr_ring p ⟫ in
  p ⟪ pr_health := account_emit (ev_kind e) room (pr_health p) ⟫.

(** [struct affinitygraph_bpf_event event = {.kind = …, .tgid = …, …}] *)
Definition task_event (kind tgid tid start : Z) (comm : string) : affinitygraph_bpf_event :=
  mk_event kind tgid tid 0 0 0 0 0 start 0 0 0 0 comm zero_mask.

(** ** Lifecycle probes *)
Definition on_fork (tgid tid : Z) (current child : Task) (now : Z) (room : bool) (p : Probe) : Probe :=
  if negb (tracked_task p tgid current) then p else
  let e := task_event AFFINITYGRAPH_TASK_FORK (t_tgid child) (t_pid child) (t_start_boottime child)
             (t_comm child) in
  let p := p ⟪ pr_rename_throttle := delete (ev_tgid e, ev_tid e) (pr_rename_throttle p) ⟫ in
  let '(p, routine) :=
    if negb (ev_tgid e =? tgid) then
      let next := mk_target (match pr_pids p !! tgid with Some t => tg_root_tgid t | None => tgid end)
                    (ev_start_time_ns e) in
      (p ⟪ pr_pids := (hash_update pids_max_entries (ev_tgid e) next (pr_pids p)).1 ⟫, 0)
    else
      match pr_pending_pthreads p !! (tgid, tid) with
      | Some pending =>
          (p ⟪ pr_pending_pthreads := delete (tgid, tid) (pr_pending_pthreads p) ⟫, pp_routine pending)
      | None => (p, 0)
      end in
  emit_event now room
    (mk_event (ev_kind e) (ev_tgid e) (ev_tid e) 0 tgid tid 0 0 (ev_start_time_ns e) 0 0 0 routine
       (ev_comm e) zero_mask) p.

Definition on_exec (task : Task) (now : Z) (room : bool) (p : Probe) : Probe :=
  let tgid := t_tgid task in
  if negb (tracked_task p tgid task) then p else
  let generation := t_start_boottime task in
  let p := match pr_pids p !! tgid with
           | Some tracked =>
               if tg_start_time_ns tracked =? 0
               then p ⟪ pr_pids := (hash_update pids_max_entries tgid
                          (mk_target (tg_root_tgid tracked) generation) (pr_pids p)).1 ⟫
               else p
           | None => p
           end in
  emit_event now room
    (task_event AFFINITYGRAPH_TASK_EXEC tgid (t_pid task) generation (t_comm task)) p.

Definition on_exit (task : Task) (now : Z) (room : bool) (p : Probe) : Probe :=
  if negb (tracked_task p (t_tgid task) task) then p else
  let p := p ⟪ pr_rename_throttle := delete (t_tgid task, t_pid task) (pr_rename_throttle p) ⟫ in
  emit_event now room
    (task_event AFFINITYGRAPH_TASK_EXIT (t_tgid task) (t_pid task) (t_start_boottime task) "") p.

Definition RENAME_MIN_INTERVAL_NS : Z := 500000000.

(** [now] is the clock of the throttle, [emit_now] the one [emit_event] reads;
    [name] is the new name in the second argument of the tracepoint. *)
Definition on_rename (task : Task) (name : string) (now emit_now : Z) (room : bool) (p : Probe) :
    Probe :=
  if negb (tracked_task p (t_tgid task) task) then p else
  let key := (t_tgid task, t_pid task) in
  let throttled := match pr_rename_throttle p !! key with
                   | Some last_emit_ns => u64_sub now last_emit_ns <? RENAME_MIN_INTERVAL_NS
                   | None => false
                   end in
  if throttled
  then p ⟪ pr_health := account_suppressed AFFINITYGRAPH_TASK_RENAME (pr_health p) ⟫
  else
    let p := p ⟪ pr_rename_throttle := <[key := now]> (pr_rename_throttle p) ⟫ in
    emit_event emit_now room
      (task_event AFFINITYGRAPH_TASK_RENAME (t_tgid task) (t_pid task) (t_start_boottime task) name) p.

Definition on_pthread_create (tgid tid : Z) (current : Task) (routine now : Z) (p : Probe) : Probe :=
  if negb (tracked_task p tgid current) then p else
  p ⟪ pr_pending_pthreads := (hash_update pending_max_entries (tgid, tid)
        (mk_pending_pthread routine now) (pr_pending_pthreads p)).1 ⟫.

Definition on_pthread_create_return (tgid tid : Z) (current : Task) (p : Probe) : Probe :=
  if negb (tracked_task p tgid current) then p else
  p ⟪ pr_pending_pthreads := delete (tgid, tid) (pr_pending_pthreads p) ⟫.

(** ** [sched_setaffinity] *)
(** [user] is what [bpf_probe_read_user] finds at the third argument, empty when
    the read faults (the helper then leaves zeros). *)
Definition on_sched_setaffinity_enter (tgid tid : Z) (current : Task) (arg0 arg1 : Z)
    (user : list Z) (p : Probe) : Probe :=
  if negb (tracked_task p tgid current) then p else
  let target := if arg0 =? 0 then tid else arg0 `mod` 2 ^ 32 in
  let bytes := if AFFINITYGRAPH_MASK_BYTES <? arg1 then AFFINITYGRAPH_MASK_BYTES else arg1 in
  let read := take (Z.to_nat bytes) user in
  let mask := (read ++ drop (length read) zero_mask)%list in
  p ⟪ pr_pending_affinities := (hash_update pending_max_entries (tgid, tid)
        (mk_pending_affinity target bytes mask) (pr_pending_affinities p)).1 ⟫.

Definition on_sched_setaffinity_exit (tgid tid ret now : Z) (room : bool) (p : Probe) : Probe :=
  match pr_pending_affinities p !! (tgid, tid) with
  | None => p
  | Some pending =>
      let p := if ret =? 0
               then emit_event now room
                 (mk_event AFFINITYGRAPH_AFFINITY tgid tid (pf_target_tid pending) 0 0
                    (pf_mask_bytes pending) 0 0 0 0 0 0 "" (pf_mask pending)) p
               else p in
      p ⟪ pr_pending_affinities := delete (tgid, tid) (pr_pending_affinities p) ⟫
  end.

(** ** Futex handoffs *)
Definition FUTEX_CMD_MASK : Z := 127.
Definition FUTEX_WAIT : Z := 0.
Definition FUTEX_WAIT_BITSET : Z := 9.

(** The second half of a handoff, after the lookup of the aggregate: [found] is
    what the lookup returned.  When the aggregate has been deleted in between,
    the increments reach memory that is no longer part of the map. *)
Definition account_futex (found : bool) (key : affinitygraph_futex_key) (now : Z) (p : Probe) : Probe :=
  let '(m, ok) :=
    if found then
      (match pr_futex_aggregates p !! key with
       | Some a => <[key := mk_futex_value (u64 (fv_count a + 1)) now]> (pr_futex_aggregates p)
       | None => pr_futex_aggregates p
       end, true)
    else hash_update aggregate_max_entries key (mk_futex_value 1 now) (pr_futex_aggregates p) in
  let p := p ⟪ pr_futex_aggregates := m ⟫ in
  p ⟪ pr_health := account_emit AFFINITYGRAPH_FUTEX ok (pr_health p) ⟫.

Definition on_futex (tgid tid : Z) (current : Task) (arg0 arg1 now : Z) (p : Probe) : Probe :=
  if negb (tracked_task p tgid current) then p else
  let key := (tgid, arg0) in
  let command := Z.land (arg1 `mod` 2 ^ 32) FUTEX_CMD_MASK in
  if (command =? FUTEX_WAIT) || (command =? FUTEX_WAIT_BITSET)
  then p ⟪ pr_waiters := <[key := mk_waiter tid (t_start_boottime current)]> (pr_waiters p) ⟫
  else
    let p := match pr_waiters p !! key with
             | Some w =>
                 if wv_tid w =? tid then p else
                 let k := mk_futex_key tgid tid (wv_tid w) (t_start_boottime current)
                            (wv_start_time_ns w) in
                 account_futex (bool_decide (is_Some (pr_futex_aggregates p !! k))) k now p
             | None => p
             end in
    p ⟪ pr_waiters := delete key (pr_waiters p) ⟫.

(** ** VFS handoffs *)
Definition S_IFMT : Z := 61440.
Definition S_IFIFO : Z := 4096.
Definition S_IFCHR : Z := 8192.
Record Inode := mk_Inode { i_mode : Z; i_ino : Z; i_rdev : Z }.

Definition account_vfs (found : bool) (key : affinitygraph_vfs_key) (elapsed now : Z) (p : Probe) :
    Probe :=
  let '(m, ok) :=
    if found then
      (match pr_vfs_aggregates p !! key with
       | Some a => <[key := mk_vfs_value (u64 (vv_total_time_ns a + elapsed)) (u64 (vv_count a + 1)) now]>
                     (pr_vfs_aggregates p)
       | None => pr_vfs_aggregates p
       end, true)
    else hash_update aggregate_max_entries key (mk_vfs_value elapsed 1 now) (pr_vfs_aggregates p) in
  let p := p ⟪ pr_vfs_aggregates := m ⟫ in
  p ⟪ pr_health := account_emit AFFINITYGRAPH_VFS ok (pr_health p) ⟫.

(** [account_fd]; [fds] is the file table of the current task: the inode behind
    a descriptor, [None] where one of the pointers on the way is null. *)
Definition account_fd (tgid tid : Z) (current : Task) (arg0 : Z) (fds : Z → option Inode) (now : Z)
    (p : Probe) : Probe :=
  if negb (tracked_task p tgid current) then p else
  let fd := arg0 `mod` 2 ^ 32 in
  if 4096 <=? fd then p else
  match fds fd with
  | None => p
  | Some inode =>
      let kind := Z.land (i_mode inode) S_IFMT in
      if negb (kind =? S_IFIFO) && negb (kind =? S_IFCHR) then p else
      let key := (tgid, i_rdev inode, i_ino inode) in
      let generation := t_start_boottime current in
      let p := match pr_resources p !! key with
               | Some previous =>
                   if rv_tid previous =? tid then p else
                   let k := mk_vfs_key tgid tid (rv_tid previous) generation
                              (rv_start_time_ns previous) (i_ino inode) in
                   let elapsed := if rv_timestamp_ns previous <? now
                                  then now - rv_timestamp_ns previous else 0 in
                   account_vfs (bool_decide (is_Some (pr_vfs_aggregates p !! k))) k elapsed now p
               | None => p
               end in
      p ⟪ pr_resources := <[key := mk_resource tid now generation]> (pr_resources p) ⟫
  end.
Definition on_read := account_fd.
Definition on_write := account_fd.
