(* ===== verification/BpfReader.v ===== *)
(** * The user-space reader of the kernel's buffers ([src/bpf_reader.cpp])

    [BpfRingReader]: draining the ring buffer, record by record, out of the
    memory shared with the kernel, and draining the two aggregate maps, by
    batches or key by key.  The kernel is a parameter: the memory the reader
    sees at each load, and the answers of the [bpf] system call. *)
From S2P Require Import Prelude BpfPending BpfProbe.
Local Open Scope Z_scope.

(** ** Little-endian structures *)
Fixpoint le_decode (l : list Z) : Z :=
  match l with [] => 0 | b :: l' => b + 256 * le_decode l' end.
Fixpoint le_encode (n : nat) (z : Z) : list Z :=
  match n with O => [] | S n' => z `mod` 256 :: le_encode n' (z / 256) end.

(** The text before the terminator of a [char] array, and back. *)
Fixpoint c_string (l : list Z) : string :=
  match l with
  | [] => EmptyString
  | b :: l' => if b =? 0 then EmptyString
               else String.String (Ascii.ascii_of_N (Z.to_N b)) (c_string l')
  end.
Fixpoint char_bytes (s : string) : list Z :=
  match s with
  | EmptyString => []
  | String.String c s' => Z.of_N (Ascii.N_of_ascii c) :: char_bytes s'
  end.

Definition sizeof_event : Z := 224.
Definition field (off len : nat) (l : list Z) : list Z := take len (drop off l).
Definition u32_at (off : nat) (l : list Z) : Z := le_decode (field off 4 l).
Definition u64_at (off : nat) (l : list Z) : Z := le_decode (field off 8 l).

(** [std::memcpy(&event, …, sizeof(event))]: the members of
    [affinitygraph_bpf_event] at their offsets. *)
Definition decode_event (l : list Z) : affinitygraph_bpf_event :=
  mk_event (u32_at 0 l) (u32_at 4 l) (u32_at 8 l) (u32_at 12 l) (u32_at 16 l) (u32_at 20 l)
    (u32_at 24 l) (u64_at 32 l) (u64_at 40 l) (u64_at 48 l) (u64_at 56 l) (u64_at 64 l)
    (u64_at 72 l) (c_string (field 80 16 l)) (field 96 128 l).

(** The bytes of the structure, as the probes hand it to the ring buffer. *)
Definition encode_event (e : affinitygraph_bpf_event) : list Z :=
  (le_encode 4 (ev_kind e) ++ le_encode 4 (ev_tgid e) ++ le_encode 4 (ev_tid e) ++
   le_encode 4 (ev_peer_tid e) ++ le_encode 4 (ev_parent_tgid e) ++ le_encode 4 (ev_parent_tid e) ++
   le_encode 4 (ev_mask_bytes e) ++ le_encode 4 0 ++ le_encode 8 (ev_timestamp_ns e) ++
   le_encode 8 (ev_start_time_ns e) ++ le_encode 8 (ev_peer_start_time_ns e) ++
   le_encode 8 (ev_value_ns e) ++ le_encode 8 (ev_resource e) ++ le_encode 8 (ev_start_routine e) ++
   (char_bytes (ev_comm e) ++ replicate (16 - String.length (ev_comm e)) 0) ++ ev_mask e)%list.

(** ** State *)
Record BpfReaderStats := mk_stats {
  bs_capacity_bytes : Z;
  bs_occupancy_bytes : Z;
  bs_max_occupancy_bytes : Z;
  bs_drain_calls : Z;
  bs_events_consumed : Z;
  bs_last_batch_events : Z;
  bs_max_batch_events : Z;
  bs_last_drain_ns : Z;
  bs_max_drain_ns : Z;
  bs_last_max_lag_ns : Z;
  bs_max_lag_ns : Z;
  bs_futex_aggregate_records : Z;
  bs_futex_handoffs : Z;
  bs_vfs_aggregate_records : Z;
  bs_vfs_handoffs : Z;
}.
Definition stats_init (capacity : Z) : BpfReaderStats :=
  mk_stats capacity 0 0 0 0 0 0 0 0 0 0 0 0 0 0.

(** ** Opening the ring *)
(** The constructor: [info] is the type and size [BPF_OBJ_GET_INFO_BY_FD] finds,
    if it succeeds; [consumer] and [producer] tell whether the two mappings
    succeed; [error] is [strerror(errno)].  The result also lists the mappings
    that stay in place. *)
Definition BPF_MAP_TYPE_RINGBUF : Z := 27.
Definition open_ring (info : option (Z * Z)) (consumer producer : bool) (error : string) :
    result BpfReaderStats * (bool * bool) :=
  match info with
  | Some (type, max_entries) =>
      if negb (type =? BPF_MAP_TYPE_RINGBUF) || (max_entries =? 0)
      then (Throw (runtime_error ("cannot query BPF ring buffer capacity: " +:+ error)), (false, false))
      else if negb consumer || negb producer
      then (Throw (runtime_error ("cannot mmap BPF ring buffer: " +:+ error)), (false, false))
      else (Ok (stats_init max_entries), (true, true))
  | None => (Throw (runtime_error ("cannot query BPF ring buffer capacity: " +:+ error)), (false, false))
  end.
Definition make_bpf_reader (events_fd : Z) (info : option (Z * Z)) (consumer producer : bool)
    (error : string) : result (option BpfReaderStats) :=
  if events_fd <? 0 then Ok None else Some <$> (open_ring info consumer producer error).1.

(** ** [drain] *)
Definition busy : Z := 2 ^ 31.
Definition discard : Z := 2 ^ 30.

Section drain.
(** [mem i] is the data area as the [i]-th load of the drain sees it: the kernel
    keeps publishing while the reader walks. *)
Context (mem : nat → Z → Z) (capacity : Z).

(** The data area is mapped twice in a row, so a record may run past its end. *)
Definition read_bytes (i : nat) (off : Z) (len : nat) : list Z :=
  (λ k, mem i ((off + k) `mod` capacity)) <$> seqZ 0 (Z.of_nat len).

Record Walk := mk_Walk {
  wk_position : Z;
  wk_result : list affinitygraph_bpf_event;
  wk_max_lag : Z;
}.

(** [(payload_length + 8 + 7) & ~7ULL] *)
Definition record_stride (payload : Z) : Z := Z.land (payload + 8 + 7) (Z.lnot 7).

(** The body of the loop for the record with header [length]. *)
Definition consume_record (i : nat) (started : Z) (length : Z) (w : Walk) : Walk :=
  let off := Z.land (wk_position w) (capacity - 1) in
  let payload := Z.land length (2 ^ 32 - 1 - Z.lor busy discard) in
  let '(result, lag) :=
    if (Z.land length discard =? 0) && (sizeof_event <=? payload) then
      let event := decode_event (read_bytes i (off + 8) (Z.to_nat sizeof_event)) in
      ((wk_result w ++ [event])%list,
       if ev_timestamp_ns event <=? started
       then Z.max (wk_max_lag w) (started - ev_timestamp_ns event) else wk_max_lag w)
    else (wk_result w, wk_max_lag w) in
  mk_Walk (u64 (wk_position w + record_stride payload)) result lag.

(** [while (position < end)]; [None] when the fuel runs out. *)
Fixpoint walk (fuel : nat) (i : nat) (started last : Z) (w : Walk) : option Walk :=
  match fuel with
  | O => None
  | S fuel' =>
      if wk_position w <? last then
        let off := Z.land (wk_position w) (capacity - 1) in
        let length := le_decode (read_bytes i off 4) in
        if negb (Z.land length busy =? 0) then Some w
        else walk fuel' (S i) started last (consume_record i started length w)
      else Some w
  end.

(** Every record takes at least eight bytes. *)
Definition walk_fuel (position last : Z) : nat := S (Z.to_nat ((last - position + 7) / 8)).

(** [drain]: the events, the consumer position it stores, and the statistics;
    [started] and [finished] are the two readings of the clock. *)
Definition drain (position last started finished : Z) (s : BpfReaderStats) :
    option (list affinitygraph_bpf_event * Z * BpfReaderStats) :=
  w ← walk (walk_fuel position last) 0 started last (mk_Walk position [] 0);
  let occupancy := u64_sub last position in
  let n := Zsize (wk_result w) in
  let elapsed := u64_sub finished started in
  Some (wk_result w, wk_position w,
    mk_stats (bs_capacity_bytes s) (u64_sub last (wk_position w))
      (Z.max (bs_max_occupancy_bytes s) occupancy) (u64 (bs_drain_calls s + 1))
      (u64 (bs_events_consumed s + n)) n (Z.max (bs_max_batch_events s) n) elapsed
      (Z.max (bs_max_drain_ns s) elapsed) (wk_max_lag w) (Z.max (bs_max_lag_ns s) (wk_max_lag w))
      (bs_futex_aggregate_records s) (bs_futex_handoffs s) (bs_vfs_aggregate_records s)
      (bs_vfs_handoffs s)).
End drain.

(** ** [health] *)
Definition EBADF : Z := 9.
Definition ENOENT : Z := 2.
Definition EINVAL : Z := 22.
Definition EOPNOTSUPP : Z := 95.

Record BpfHealthSnapshot := mk_snapshot {
  sn_valid : bool;
  sn_error : Z;
  sn_counters : affinitygraph_bpf_health;
}.
(** [lookup] is the answer of [BPF_MAP_LOOKUP_ELEM]: the counters or an errno. *)
Definition health (health_fd : Z) (lookup : affinitygraph_bpf_health + Z) : BpfHealthSnapshot :=
  if health_fd <? 0 then mk_snapshot false EBADF health_init
  else match lookup with
       | inl counters => mk_snapshot true 0 counters
       | inr error => mk_snapshot false error health_init
       end.

(** ** Draining an aggregate map *)

(** The commands of the [bpf] system call the reader uses on a map with keys [K]
    and values [V], over a kernel state [S].  A batch answers the errno (0 for
    success), the value left in [attr.batch.count], the entries it wrote at the
    start of the buffers, and the cursor. *)
Record BatchAnswer (S K V : Type) := mk_BatchAnswer {
  ba_state : S;
  ba_error : Z;
  ba_count : nat;
  ba_written : list (K * V);
}.
Arguments mk_BatchAnswer {_ _ _}. Arguments ba_state {_ _ _}. Arguments ba_error {_ _ _}.
Arguments ba_count {_ _ _}. Arguments ba_written {_ _ _}.

Class BpfMap (S K V : Type) := {
  lookup_and_delete_batch : S → bool → nat → BatchAnswer S K V;
  get_first_key : S → option K;
  lookup_and_delete_elem : S → K → S * option V;
}.

Definition batch_size : nat := 4096.
Definition drain_limit : nat := 16384.

(** What the buffer holds after the kernel wrote its first entries. *)
Definition overlay {A} (written buffer : list A) : list A :=
  (written ++ drop (length written) buffer)%list.

Section aggregates.
Context {S K V : Type} `{BpfMap S K V}.
(** [affinitygraph_futex_key{}] and [affinitygraph_futex_value{}] *)
Context (zero : K * V).

Record Collected := mk_Collected {
  co_state : S;
  co_entries : list (K * V);
}.

(** The batch loop: the entries handed to [append], and whether the batch
    command is supported.  [have_cursor] also selects [in_batch]. *)
Fixpoint batch_loop (fuel : nat) (have_cursor : bool) (drained : nat) (buffer : list (K * V))
    (c : Collected) : option (Collected * bool) :=
  match fuel with
  | O => None
  | Datatypes.S fuel' =>
      if (drained <? drain_limit)%nat then
        let a := lookup_and_delete_batch (co_state c) have_cursor
                   (Nat.min batch_size (drain_limit - drained)) in
        let buffer := overlay (ba_written a) buffer in
        let c := mk_Collected (ba_state a) (co_entries c ++ take (ba_count a) buffer)%list in
        if ba_error a =? 0 then
          if (ba_count a =? 0)%nat then Some (c, true)
          else batch_loop fuel' true (drained + ba_count a) buffer c
        else if ba_error a =? ENOENT then Some (c, true)
        else Some (c, negb (negb have_cursor && ((ba_error a =? EINVAL) || (ba_error a =? EOPNOTSUPP))))
      else Some (c, true)
  end.

(** The fallback: [n] times, take the first key and try to remove it. *)
Fixpoint single_loop (n : nat) (c : Collected) : Collected :=
  match n with
  | O => c
  | Datatypes.S n' =>
      match get_first_key (co_state c) with
      | None => c
      | Some k =>
          match lookup_and_delete_elem (co_state c) k with
          | (s, Some v) => single_loop n' (mk_Collected s (co_entries c ++ [(k, v)])%list)
          | (s, None) => single_loop n' (mk_Collected s (co_entries c))
          end
      end
  end.

(** Every batch that continues the loop advances [drained]. *)
Definition batch_fuel : nat := Datatypes.S drain_limit.

Definition drain_aggregates (s : S) : option Collected :=
  '(c, batch_supported) ← batch_loop batch_fuel false 0 (replicate batch_size zero) (mk_Collected s []);
  Some (if (batch_supported : bool) then c else single_loop drain_limit c).
End aggregates.
Arguments Collected : clear implicits.
Arguments mk_Collected {_ _ _}. Arguments co_state {_ _ _}. Arguments co_entries {_ _ _}.

(** [append] of [drain_futex_aggregates] *)
Definition futex_event (k : affinitygraph_futex_key) (v : affinitygraph_futex_value) :
    affinitygraph_bpf_event :=
  mk_event AFFINITYGRAPH_FUTEX (fk_tgid k) (fk_tid k) (fk_peer_tid k) 0 0 0 (fv_last_timestamp_ns v)
    (fk_start_time_ns k) (fk_peer_start_time_ns k) (fv_count v) 0 0 "" zero_mask.
Definition count_futex (s : BpfReaderStats) (e : affinitygraph_futex_key * affinitygraph_futex_value) :
    BpfReaderStats :=
  mk_stats (bs_capacity_bytes s) (bs_occupancy_bytes s) (bs_max_occupancy_bytes s) (bs_drain_calls s)
    (bs_events_consumed s) (bs_last_batch_events s) (bs_max_batch_events s) (bs_last_drain_ns s)
    (bs_max_drain_ns s) (bs_last_max_lag_ns s) (bs_max_lag_ns s)
    (u64 (bs_futex_aggregate_records s + 1)) (u64 (bs_futex_handoffs s + fv_count e.2))
    (bs_vfs_aggregate_records s) (bs_vfs_handoffs s).
Definition zero_futex : affinitygraph_futex_key * affinitygraph_futex_value :=
  (mk_futex_key 0 0 0 0 0, mk_futex_value 0 0).

Definition drain_futex_aggregates {S} `{BpfMap S affinitygraph_futex_key affinitygraph_futex_value}
    (fd : Z) (s : S) (st : BpfReaderStats) :
    option (list affinitygraph_bpf_event * S * BpfReaderStats) :=
  if fd <? 0 then Some ([], s, st) else
  c ← drain_aggregates zero_futex s;
  Some ((λ e, futex_event e.1 e.2) <$> co_entries c, co_state c, foldl count_futex st (co_entries c)).

(** [append] of [drain_vfs_aggregates] *)
Definition vfs_event (k : affinitygraph_vfs_key) (v : affinitygraph_vfs_value) :
    affinitygraph_bpf_event :=
  mk_event AFFINITYGRAPH_VFS (vk_tgid k) (vk_tid k) (vk_peer_tid k) 0 0 0 (vv_last_timestamp_ns v)
    (vk_start_time_ns k) (vk_peer_start_time_ns k) (vv_total_time_ns v) (vk_resource k) 0 "" zero_mask.
Definition count_vfs (s : BpfReaderStats) (e : affinitygraph_vfs_key * affinitygraph_vfs_value) :
    BpfReaderStats :=
  mk_stats (bs_capacity_bytes s) (bs_occupancy_bytes s) (bs_max_occupancy_bytes s) (bs_drain_calls s)
    (bs_events_consumed s) (bs_last_batch_events s) (bs_max_batch_events s) (bs_last_drain_ns s)
    (bs_max_drain_ns s) (bs_last_max_lag_ns s) (bs_max_lag_ns s) (bs_futex_aggregate_records s)
    (bs_futex_handoffs s) (u64 (bs_vfs_aggregate_records s + 1)) (u64 (bs_vfs_handoffs s + vv_count e.2)).
Definition zero_vfs : affinitygraph_vfs_key * affinitygraph_vfs_value :=
  (mk_vfs_key 0 0 0 0 0 0, mk_vfs_value 0 0 0).

Definition drain_vfs_aggregates {S} `{BpfMap S affinitygraph_vfs_key affinitygraph_vfs_value}
    (fd : Z) (s : S) (st : BpfReaderStats) :
    option (list affinitygraph_bpf_event * S * BpfReaderStats) :=
  if fd <? 0 then Some ([], s, st) else
  c ← drain_aggregates zero_vfs s;
  Some ((λ e, vfs_event e.1 e.2) <$> co_entries c, co_state c, foldl count_vfs st (co_entries c)).
