(* ===== verification/BpfReaderProperties.v ===== *)
(** * Properties of the reader of the kernel's buffers

    The walk over the ring terminates on any memory and delivers exactly the
    committed events, in order, up to the first record still being written;
    draining an aggregate map takes every entry once and leaves the rest. *)
From S2P Require Import Prelude BpfPending BpfProbe BpfReader.
Local Open Scope Z_scope.

(** ** Bytes *)
Lemma le_decode_encode n z : le_decode (le_encode n z) = z `mod` 256 ^ Z.of_nat n.
Proof.
  revert z. induction n as [|n IH]; intros z; cbn [le_encode le_decode].
  - by rewrite Z.mod_1_r.
  - rewrite IH, Nat2Z.inj_succ, Z.pow_succ_r by lia.
    rewrite Z.rem_mul_r by lia. lia.
Qed.

Lemma length_le_encode n z : length (le_encode n z) = n.
Proof. revert z. induction n as [|n IH]; intros z; cbn; [done|]. by rewrite IH. Qed.

Lemma le_decode_encode_small n z : 0 ≤ z < 256 ^ Z.of_nat n → le_decode (le_encode n z) = z.
Proof. intros. rewrite le_decode_encode. by apply Z.mod_small. Qed.

Lemma length_char_bytes s : length (char_bytes s) = String.length s.
Proof. induction s as [|c s IH]; cbn; [done|]. by rewrite IH. Qed.

Lemma c_string_char_bytes s n :
  0 ∉ char_bytes s → c_string (char_bytes s ++ replicate n 0) = s.
Proof.
  induction s as [|c s IH]; cbn.
  - intros _. by destruct n.
  - intros Hn. apply not_elem_of_cons in Hn as [Hc Hs].
    destruct (Z.of_N _ =? 0) eqn:E; bool_hyps; [congruence|].
    by rewrite IH, N2Z.id, Ascii.ascii_N_embedding.
Qed.

(** The events the probes build: members within their widths, a terminated name
    and a full mask. *)
Record event_wf (e : affinitygraph_bpf_event) : Prop := {
  ew_u32 : Forall (λ z, 0 ≤ z < 2 ^ 32)
    [ev_kind e; ev_tgid e; ev_tid e; ev_peer_tid e; ev_parent_tgid e; ev_parent_tid e; ev_mask_bytes e];
  ew_u64 : Forall (λ z, 0 ≤ z < 2 ^ 64)
    [ev_timestamp_ns e; ev_start_time_ns e; ev_peer_start_time_ns e; ev_value_ns e; ev_resource e;
     ev_start_routine e];
  ew_comm : (String.length (ev_comm e) ≤ 16)%nat;
  ew_comm_chars : 0 ∉ char_bytes (ev_comm e);
  ew_mask : length (ev_mask e) = 128%nat;
}.

Lemma length_encode_event e : event_wf e → length (encode_event e) = Z.to_nat sizeof_event.
Proof.
  intros [_ _ Hc _ Hm]. unfold encode_event.
  rewrite !length_app, !length_le_encode, length_char_bytes, length_replicate, Hm.
  change (Z.to_nat sizeof_event) with 224%nat. lia.
Qed.

Lemma field_skip a l off len n :
  length a = n → (n ≤ off)%nat → field off len (a ++ l) = field (off - n) len l.
Proof. intros <- Hle. unfold field. by rewrite drop_app_ge. Qed.
Lemma field_here a l len : length a = len → field 0 len (a ++ l) = a.
Proof. intros <-. unfold field. cbn. apply take_app_length. Qed.

#[local] Opaque le_encode le_decode field.

Lemma decode_encode_event e rest : event_wf e → decode_event (encode_event e ++ rest) = e.
Proof.
  intros [H32 H64 Hc Hch Hm]. repeat rewrite Forall_cons in H32.
  repeat rewrite Forall_cons in H64. destruct_and!.
  pose proof (c_string_char_bytes (ev_comm e) (16 - String.length (ev_comm e)) Hch) as Hcs.
  assert (length (char_bytes (ev_comm e) ++ replicate (16 - String.length (ev_comm e)) 0) = 16%nat)
    as Hcl by (rewrite length_app, length_char_bytes, length_replicate; lia).
  unfold decode_event, encode_event, u32_at, u64_at.
  set (name := (char_bytes _ ++ _)%list) in *. clearbody name.
  destruct e; cbn in *. rewrite <-!app_assoc. f_equal;
    repeat first
      [ rewrite (field_here (le_encode 4 _)) by apply length_le_encode
      | rewrite (field_here (le_encode 8 _)) by apply length_le_encode
      | rewrite (field_skip (le_encode 4 _) _ _ _ 4) by (apply length_le_encode || lia)
      | rewrite (field_skip (le_encode 8 _) _ _ _ 8) by (apply length_le_encode || lia) ];
    cbn [Nat.sub]; try (apply le_decode_encode_small; cbn; lia).
  - by rewrite field_here.
  - by rewrite (field_skip name _ _ _ 16), field_here by (done || lia).
Qed.

(** ** The walk over the ring *)
Lemma record_stride_eq n : record_stride n = (n + 15) / 8 * 8.
Proof.
  unfold record_stride. replace (n + 8 + 7) with (n + 15) by lia.
  rewrite <-Z.ldiff_land. change 7 with (Z.ones 3).
  by rewrite Z.ldiff_ones_r, Z.shiftl_mul_pow2, Z.shiftr_div_pow2 by lia.
Qed.

Definition payload_mask : Z := 2 ^ 32 - 1 - Z.lor busy discard.
Lemma payload_mask_ones : payload_mask = Z.ones 30.
Proof. done. Qed.

Lemma payload_range length : 0 ≤ Z.land length payload_mask < 2 ^ 30.
Proof. rewrite payload_mask_ones, Z.land_ones by lia. apply Z.mod_pos_bound. lia. Qed.

Lemma consume_record_position mem capacity i started length w :
  wk_position (consume_record mem capacity i started length w) =
  u64 (wk_position w + record_stride (Z.land length payload_mask)).
Proof. unfold consume_record. by case_match. Qed.

(** Whatever the memory holds, the walk ends. *)
Lemma walk_terminates mem capacity started last fuel : ∀ i w,
  0 ≤ wk_position w → last + 2 ^ 31 < 2 ^ 64 →
  last - wk_position w ≤ 8 * (Z.of_nat fuel - 1) →
  (0 < fuel)%nat → is_Some (walk mem capacity fuel i started last w).
Proof.
  induction fuel as [|fuel IH]; intros i w Hp Hl Hf Hpos; [lia|]. cbn [walk].
  destruct (_ <? _) eqn:Hlt; bool_hyps; [|by eexists].
  destruct (negb _); [by eexists|].
  set (len := le_decode _). pose proof (payload_range len) as Hr.
  assert (8 ≤ record_stride (Z.land len payload_mask) < 2 ^ 31) as Hs
    by (rewrite record_stride_eq; change (2 ^ 31) with (2 * 2 ^ 30); Z.to_euclidean_division_equations; lia).
  apply IH; rewrite ?consume_record_position; unfold u64;
    rewrite ?Z.mod_small by lia; try lia.
Qed.

(** What the kernel has put in the ring: published events, records a producer
    gave up, and a record a producer has reserved but not committed. *)
Inductive slot :=
  | Committed (e : affinitygraph_bpf_event)
  | Discarded (payload : list Z)
  | Reserved (length : Z).

Definition slot_payload (s : slot) : Z :=
  match s with
  | Committed _ => sizeof_event
  | Discarded l => Zsize l
  | Reserved n => n
  end.
Definition slot_header (s : slot) : Z :=
  match s with
  | Committed _ => sizeof_event
  | Discarded l => discard + Zsize l
  | Reserved n => busy + n
  end.
Definition slot_wf (s : slot) : Prop :=
  0 ≤ slot_payload s < 2 ^ 30 ∧ match s with Committed e => event_wf e | _ => True end.
Definition is_reserved (s : slot) : bool := match s with Reserved _ => true | _ => false end.
Definition span (l : list slot) : Z := foldr (λ s n, record_stride (slot_payload s) + n) 0 l.

(** The slots before the first one still being written, and their events. *)
Fixpoint ready (l : list slot) : list slot :=
  match l with
  | [] => []
  | s :: l' => if is_reserved s then [] else s :: ready l'
  end.
Definition events_of (l : list slot) : list affinitygraph_bpf_event :=
  omap (λ s, match s with Committed e => Some e | _ => None end) l.
Definition worst_lag (started : Z) (m : Z) (l : list affinitygraph_bpf_event) : Z :=
  foldl (λ m e, if ev_timestamp_ns e <=? started
                then Z.max m (started - ev_timestamp_ns e) else m) m l.

Section ring.
Context (mem : nat → Z → Z) (k : Z).
Hypothesis k_nonneg : 0 ≤ k.
Local Abbreviation capacity := (2 ^ k).

(** The documented layout: a four-byte length with two flag bits, four bytes of
    page offset, the payload, padded to a multiple of eight. *)
Inductive laid_out : nat → Z → list slot → Prop :=
  | laid_nil i pos : laid_out i pos []
  | laid_cons i pos s l :
      slot_wf s →
      read_bytes mem capacity i pos 4 = le_encode 4 (slot_header s) →
      (∀ e, s = Committed e →
        read_bytes mem capacity i (pos + 8) (Z.to_nat sizeof_event) = encode_event e) →
      laid_out (S i) (pos + record_stride (slot_payload s)) l →
      laid_out i pos (s :: l).

Lemma read_bytes_wrap i pos off n :
  read_bytes mem capacity i (Z.land pos (capacity - 1) + off) n =
  read_bytes mem capacity i (pos + off) n.
Proof.
  unfold read_bytes. apply list_fmap_ext. intros _ j _. f_equal.
  replace (capacity - 1) with (Z.ones k) by (rewrite Z.ones_equiv; lia).
  rewrite Z.land_ones by done.
  by rewrite <-!Z.add_assoc, Zplus_mod_idemp_l.
Qed.

Lemma slot_header_range s : slot_wf s → 0 ≤ slot_header s < 2 ^ 32.
Proof. intros [H _]. destruct s; cbn in *; unfold busy, discard, sizeof_event in *; lia. Qed.

Lemma land_flag_add b n : 0 ≤ b → 0 ≤ n < 2 ^ b → Z.land (2 ^ b + n) (2 ^ b) = 2 ^ b.
Proof.
  intros Hb Hn. apply Z.bits_inj'. intros i Hi. rewrite Z.land_spec.
  destruct (decide (i = b)) as [->|Hne].
  - rewrite Z.pow2_bits_true, andb_true_r by lia.
    replace (2 ^ b + n) with (n + 1 * 2 ^ b) by lia.
    rewrite Z.testbit_odd, Z.shiftr_div_pow2, Z.div_add, Z.div_small by lia. done.
  - by rewrite (Z.pow2_bits_false b i), andb_false_r by lia.
Qed.

Lemma land_low b n : 0 ≤ b → 0 ≤ n < 2 ^ b → Z.land n (2 ^ b) = 0.
Proof.
  intros Hb Hn. apply Z.bits_inj'. intros i Hi. rewrite Z.land_spec, Z.bits_0.
  destruct (decide (i = b)) as [->|Hne].
  - replace (Z.testbit n b) with false; [done|].
    rewrite Z.testbit_odd, Z.shiftr_div_pow2, Z.div_small by lia. done.
  - by rewrite (Z.pow2_bits_false b i), andb_false_r by lia.
Qed.

(** The header tells the three kinds of slots apart. *)
Lemma header_busy s : slot_wf s → (Z.land (slot_header s) busy =? 0) = negb (is_reserved s).
Proof.
  intros [H _]. destruct s as [e|l|n]; cbn [slot_header slot_payload is_reserved negb] in *;
    unfold busy in *.
  - by rewrite land_low by (unfold sizeof_event in *; lia).
  - rewrite land_low by (unfold discard; lia). done.
  - rewrite land_flag_add by lia. done.
Qed.

Lemma header_discard s : slot_wf s → is_reserved s = false →
  (Z.land (slot_header s) discard =? 0) = match s with Committed _ => true | _ => false end.
Proof.
  intros [H _] Hr. destruct s as [e|l|n]; cbn [slot_header slot_payload is_reserved] in *; [| |done];
    unfold discard in *.
  - by rewrite land_low by (unfold sizeof_event in *; lia).
  - rewrite land_flag_add by lia. done.
Qed.

Lemma header_payload s : slot_wf s → is_reserved s = false →
  Z.land (slot_header s) payload_mask = slot_payload s.
Proof.
  intros [H _] Hr. rewrite payload_mask_ones, Z.land_ones by lia.
  destruct s as [e|l|n]; cbn in *; [by rewrite Z.mod_small| |done].
  unfold discard. replace (2 ^ 30 + Zsize l) with (Zsize l + 1 * 2 ^ 30) by lia.
  rewrite Z_mod_plus_full, Z.mod_small; lia.
Qed.

(** One record of the walk. *)
Lemma consume_slot i started pos acc lag s :
  slot_wf s → is_reserved s = false →
  0 ≤ pos → pos + record_stride (slot_payload s) < 2 ^ 64 →
  (∀ e, s = Committed e →
    read_bytes mem capacity i (pos + 8) (Z.to_nat sizeof_event) = encode_event e) →
  consume_record mem capacity i started (slot_header s) (mk_Walk pos acc lag) =
  mk_Walk (pos + record_stride (slot_payload s)) (acc ++ events_of [s])
    (worst_lag started lag (events_of [s])).
Proof.
  intros Hwf Hr Hpos Hlt Hmem. unfold consume_record. fold payload_mask. cbn [wk_position].
  rewrite header_payload, header_discard by done.
  assert (8 ≤ record_stride (slot_payload s))
    by (rewrite record_stride_eq; destruct Hwf; Z.to_euclidean_division_equations; lia).
  unfold u64. rewrite Z.mod_small by lia.
  destruct s as [e|l|n]; cbn -[decode_event read_bytes]; [|by rewrite app_nil_r|done].
  rewrite read_bytes_wrap, (Hmem e eq_refl), <-(app_nil_r (encode_event e)).
  by rewrite decode_encode_event by apply Hwf.
Qed.

Lemma stride_pos s : slot_wf s → 8 ≤ record_stride (slot_payload s).
Proof.
  intros [H _]. rewrite record_stride_eq. Z.to_euclidean_division_equations; lia.
Qed.

Lemma laid_out_span i pos l : laid_out i pos l → 8 * Zsize l ≤ span l.
Proof.
  induction 1 as [|i pos s l Hs _ _ _ IH]; [done|].
  pose proof (stride_pos s Hs). unfold Zsize in *. cbn [span foldr length]. fold (span l). lia.
Qed.

Lemma walk_exact started l i pos : laid_out i pos l → ∀ fuel acc lag,
  0 ≤ pos → pos + span l < 2 ^ 64 → (length l < fuel)%nat →
  walk mem capacity fuel i started (pos + span l) (mk_Walk pos acc lag) =
  Some (mk_Walk (pos + span (ready l)) (acc ++ events_of (ready l))
          (worst_lag started lag (events_of (ready l)))).
Proof.
  induction 1 as [i pos|i pos s l Hs Hh Hp Hl IH]; intros [|fuel] acc lag Hpos Hlt Hf;
    cbn [length] in Hf; try lia; cbn [walk wk_position].
  - cbn. by rewrite Z.add_0_r, Z.ltb_irrefl, app_nil_r.
  - pose proof (stride_pos s Hs) as Hst. pose proof (laid_out_span _ _ _ Hl) as Hsp.
    cbn [span foldr] in *. fold (span l) in *.
    rewrite (proj2 (Z.ltb_lt _ _)) by (unfold Zsize in *; lia).
    assert (le_decode (read_bytes mem capacity i (Z.land pos (capacity - 1)) 4) = slot_header s)
      as ->.
    { pose proof (read_bytes_wrap i pos 0 4) as Hw. rewrite !Z.add_0_r in Hw. rewrite Hw, Hh.
      apply le_decode_encode_small. apply (slot_header_range s Hs). }
    rewrite header_busy by done. cbn [ready]. rewrite negb_involutive.
    destruct (is_reserved s) eqn:Hr.
    + cbn. by rewrite Z.add_0_r, app_nil_r.
    + rewrite consume_slot by (done || unfold Zsize in *; lia).
      rewrite Z.add_assoc, IH by (unfold Zsize in *; lia).
      cbn [span foldr]. fold (span (ready l)). rewrite Z.add_assoc, <-app_assoc.
      f_equal. f_equal.
      * unfold events_of. by rewrite <-omap_app.
      * unfold events_of, worst_lag. rewrite <-foldl_app. by rewrite <-omap_app.
Qed.
End ring.

(** C13: the ring round trip.  When the ring holds the records [l] between the
    consumer and the producer position, in the documented layout and possibly
    wrapping around its end, [drain] terminates and returns exactly the events
    published before the first record still being written, in order and with
    every member intact; the consumer position it stores is the start of that
    record (the producer position when there is none), and the statistics
    count what was returned and the oldest event. *)
Theorem drain_delivers mem k position l started finished s :
  0 ≤ k → 0 ≤ position → position + span l < 2 ^ 64 → laid_out mem k 0 position l →
  ∃ s', drain mem (2 ^ k) position (position + span l) started finished s =
          Some (events_of (ready l), position + span (ready l), s') ∧
    bs_events_consumed s' = u64 (bs_events_consumed s + Zsize (events_of (ready l))) ∧
    bs_last_batch_events s' = Zsize (events_of (ready l)) ∧
    bs_occupancy_bytes s' = u64_sub (span l) (span (ready l)) ∧
    bs_last_max_lag_ns s' = worst_lag started 0 (events_of (ready l)).
Proof.
  intros Hk Hp Hlt Hl. pose proof (laid_out_span mem k _ _ _ Hl) as Hsp. unfold drain.
  rewrite (walk_exact mem k Hk started l 0 position) by
    (try done; unfold walk_fuel, Zsize in *; Z.to_euclidean_division_equations; lia).
  eexists. split_and!; try done. cbn. unfold u64_sub. f_equal. lia.
Qed.

Definition demo_exec : affinitygraph_bpf_event :=
  task_event AFFINITYGRAPH_TASK_EXEC 7 7 90 "db".
Definition demo_exit : affinitygraph_bpf_event :=
  at_time (task_event AFFINITYGRAPH_TASK_EXIT 7 9 95 "") 120.
Definition slot_bytes (s : slot) : list Z :=
  let body := match s with
              | Committed e => encode_event e
              | Discarded l => l
              | Reserved n => replicate (Z.to_nat n) 0
              end in
  let bytes := (le_encode 4 (slot_header s) ++ replicate 4 0 ++ body)%list in
  (bytes ++ replicate (Z.to_nat (record_stride (slot_payload s)) - length bytes) 0)%list.
(** A ring of 1024 bytes whose records start at offset 900 and wrap around. *)
Definition demo_slots : list slot :=
  [Committed demo_exec; Discarded [1; 2; 3]; Committed demo_exit; Reserved 224; Committed demo_exec].
Definition demo_ring : list Z := Eval vm_compute in
  let bytes := demo_slots ≫= slot_bytes in
  (drop 124 bytes ++ replicate (1024 - length bytes) 0 ++ take 124 bytes)%list.
Definition demo_memory : nat → Z → Z := λ _ off, default 0 (demo_ring !! Z.to_nat off).

Definition event_wfb (e : affinitygraph_bpf_event) : bool :=
  forallb (λ z, (0 <=? z) && (z <? 2 ^ 32))
    [ev_kind e; ev_tgid e; ev_tid e; ev_peer_tid e; ev_parent_tgid e; ev_parent_tid e; ev_mask_bytes e] &&
  forallb (λ z, (0 <=? z) && (z <? 2 ^ 64))
    [ev_timestamp_ns e; ev_start_time_ns e; ev_peer_start_time_ns e; ev_value_ns e; ev_resource e;
     ev_start_routine e] &&
  (String.length (ev_comm e) <=? 16)%nat && bool_decide (0 ∉ char_bytes (ev_comm e)) &&
  (length (ev_mask e) =? 128)%nat.
Lemma event_wfb_sound e : event_wfb e = true → event_wf e.
Proof.
  unfold event_wfb. intros H. bool_hyps. split.
  - apply Forall_forall. intros z Hz. rewrite forallb_elem_of in H. specialize (H z Hz). bool_hyps. lia.
  - apply Forall_forall. intros z Hz. rewrite forallb_elem_of in H3. specialize (H3 z Hz). bool_hyps. lia.
  - by apply Nat.leb_le.
  - done.
  - by apply Nat.eqb_eq.
Qed.

Lemma drain_delivers_witness : ∃ s',
  drain demo_memory 1024 900 (900 + span demo_slots) 200 210 (stats_init 1024) =
    Some ([demo_exec; demo_exit], 900 + 480, s') ∧
  bs_events_consumed s' = 2.
Proof.
  destruct (drain_delivers demo_memory 10 900 demo_slots 200 210 (stats_init 1024))
    as (s' & Hd & Hn & _).
  - lia.
  - lia.
  - vm_compute. reflexivity.
  - repeat (apply laid_cons;
      [split; [vm_compute; split; congruence|]; try exact I;
       apply event_wfb_sound; vm_compute; reflexivity
      |vm_compute; reflexivity
      |intros e [= <-]; vm_compute; reflexivity
      |]); apply laid_nil.
  - exists s'. split; [exact Hd|exact Hn].
Defined.

(** the walk over the ring terminates whatever the memory holds (a corrupted
    length included), as long as the positions stay clear of the end of their
    64-bit range. *)
Theorem drain_terminates mem capacity position last started finished s :
  0 ≤ position → last + 2 ^ 31 < 2 ^ 64 →
  is_Some (drain mem capacity position last started finished s).
Proof.
  intros Hp Hl. unfold drain.
  destruct (walk_terminates mem capacity started last (walk_fuel position last) 0
    (mk_Walk position [] 0)) as [w Hw]; cbn [wk_position]; try done.
  - unfold walk_fuel. Z.to_euclidean_division_equations; lia.
  - unfold walk_fuel. lia.
  - rewrite Hw. cbn. by eexists.
Qed.

Lemma drain_terminates_witness :
  is_Some (drain (λ _ off, (off * 37) `mod` 256) 4096 100 5000 7 9 (stats_init 4096)).
Proof. apply drain_terminates; vm_compute; congruence. Defined.
