(* ===== verification/BpfPipeline.v ===== *)
(** * From the probes to the reader

    Taking entries out of a map and the sums of their counts, the contract of the
    [bpf] commands on a map (class [LawfulBpfMap], with instances for a kernel
    hash map, for a map of one bucket and for a kernel without the batch command),
    and what [drain_aggregates] achieves on every map that honours it. *)
From S2P Require Import Prelude BpfPending BpfProbe BpfReader BpfReaderProperties GraphFacts.
From stdpp Require Import relations.
Local Open Scope Z_scope.

(** ** Taking entries out of a map *)
Definition taken {K V} `{Countable K} (m : gmap K V) (entries : list (K * V)) (m' : gmap K V) : Prop :=
  NoDup entries.*1 ∧ list_to_map entries ##ₘ m' ∧ m = list_to_map entries ∪ m'.

Section taken.
Context {K V : Type} `{Countable K}.
Implicit Types m : gmap K V.

Lemma taken_nil m : taken m [] m.
Proof. split_and!; [apply NoDup_nil_2|apply map_disjoint_empty_l|symmetry; apply map_empty_union]. Qed.

Lemma taken_app m e1 m1 e2 m2 : taken m e1 m1 → taken m1 e2 m2 → taken m (e1 ++ e2) m2.
Proof.
  intros (Hn1 & Hd1 & ->) (Hn2 & Hd2 & ->).
  apply map_disjoint_union_r in Hd1 as [Hd11 Hd12].
  unfold taken. rewrite list_to_map_app. split_and!.
  - rewrite fmap_app. apply NoDup_app. split_and!; [done| |done].
    intros k Hk1 Hk2. apply list_elem_of_fmap in Hk1 as ([k1 v1] & -> & H1).
    apply list_elem_of_fmap in Hk2 as ([k2 v2] & Heq & H2). cbn in *. subst.
    eapply (map_disjoint_spec (list_to_map e1) (list_to_map e2)); [done| |];
      by apply elem_of_list_to_map.
  - by apply map_disjoint_union_l_2.
  - by rewrite map_union_assoc.
Qed.

Lemma taken_one m k v : m !! k = Some v → taken m [(k, v)] (delete k m).
Proof.
  intros Hk. split_and!.
  - apply NoDup_singleton.
  - cbn. apply map_disjoint_insert_l_2; [by rewrite lookup_delete_eq|apply map_disjoint_empty_l].
  - cbn. by rewrite <-insert_union_l, map_empty_union, insert_delete_id.
Qed.

(** The sum of a quantity over the values of a map. *)
Definition total (f : V → Z) m : Z := map_fold (λ _ v n, f v + n) 0 m.

Lemma total_empty f : total f ∅ = 0.
Proof. apply map_fold_empty. Qed.
Lemma total_insert f m k v : m !! k = None → total f (<[k := v]> m) = f v + total f m.
Proof. intros Hk. unfold total. rewrite map_fold_insert_L; [done|intros; lia|done]. Qed.
Lemma total_replace f m k v a :
  m !! k = Some a → total f (<[k := v]> m) = total f m - f a + f v.
Proof.
  intros Hk. rewrite <-(insert_delete_id m k a Hk) at 2.
  rewrite <-(insert_delete_eq m k v), !total_insert by apply lookup_delete_eq. lia.
Qed.

Definition sum_of (f : V → Z) (l : list (K * V)) : Z := foldr (λ e n, f e.2 + n) 0 l.
Lemma sum_of_app f l1 l2 : sum_of f (l1 ++ l2) = sum_of f l1 + sum_of f l2.
Proof. induction l1 as [|e l1 IH]; cbn; [done|]. fold (sum_of f (l1 ++ l2)). rewrite IH.
  fold (sum_of f l1). lia. Qed.

Lemma taken_total f m e m' : taken m e m' → total f m = sum_of f e + total f m'.
Proof.
  intros (Hn & Hd & ->). induction e as [|[k v] e IH]; cbn.
  - by rewrite map_empty_union.
  - cbn in Hn, Hd. apply NoDup_cons in Hn as [Hk Hn].
    apply map_disjoint_insert_l in Hd as [Hk' Hd].
    rewrite <-insert_union_l, total_insert.
    + rewrite IH by done. fold (sum_of f e). lia.
    + apply lookup_union_None. split; [by apply not_elem_of_list_to_map_1|done].
Qed.
End taken.

(** ** Draining a map the kernel implements as documented *)

Definition EFAULT : Z := 14.
Definition ENOSPC : Z := 28.

(** The answer of a kernel that does not know the batch command. *)
Definition refused {S K V} (a : BatchAnswer S K V) : bool :=
  (ba_error a =? EINVAL) || (ba_error a =? EOPNOTSUPP).

(** The contract of the [bpf] commands ([include/uapi/linux/bpf.h]).  The batch
    command, on success and on every error that is neither a fault of the
    buffers (they are the reader's own) nor a refusal of the command, has
    removed exactly the entries it copied, at most the requested number, and
    reports how many; [ENOENT] is the end of the map.  Any other error, such as
    [ENOSPC] for a bucket larger than the room left, may stop a batch before
    the end.  A kernel knows the command or refuses it every time; when it refuses
    it copies and removes nothing, and leaves in the count zero or up to what was
    asked for.  The first key of a map is one it holds, and a removal that
    succeeds removes that entry and returns its value; it may fail (older
    kernels do not offer it for hash maps), and then changes nothing. *)
Class LawfulBpfMap (S K V : Type) `{BpfMap S K V, Countable K} := {
  content : S → gmap K V;
  knows_batch : bool;
  batch_known s c n : refused (lookup_and_delete_batch s c n) = negb knows_batch;
  batch_no_fault s c n : ba_error (lookup_and_delete_batch s c n) ≠ EFAULT;
  batch_processed s c n :
    let a := lookup_and_delete_batch s c n in
    refused a = false →
    length (ba_written a) = ba_count a ∧ (ba_count a ≤ n)%nat ∧
    taken (content s) (ba_written a) (content (ba_state a)) ∧
    (ba_error a = ENOENT → content (ba_state a) = ∅);
  batch_refused s c n :
    let a := lookup_and_delete_batch s c n in
    refused a = true →
    ba_written a = [] ∧ (ba_count a ≤ n)%nat ∧ content (ba_state a) = content s;
  first_key s :
    match get_first_key s with
    | None => content s = ∅
    | Some k =>
        match lookup_and_delete_elem s k with
        | (s', Some v) => content s !! k = Some v ∧ content s' = delete k (content s)
        | (s', None) => content s' = content s
        end
    end;
}.

Section drain_aggregates.
Context {S K V : Type} `{LawfulBpfMap S K V}.

Lemma batch_size_pos : (0 < batch_size ≤ drain_limit)%nat.
Proof. split; [apply Nat.ltb_lt|apply Nat.leb_le]; done. Qed.
#[local] Opaque drain_limit batch_size.

Lemma take_overlay {A} (w b : list A) : take (length w) (overlay w b) = w.
Proof. unfold overlay. by rewrite take_app_length. Qed.

(** A batch that ends the drain before the end of the map. *)
Definition gave_up (a : BatchAnswer S K V) : Prop :=
  ba_error a ≠ ENOENT ∧ (ba_error a = 0 → ba_count a = 0%nat).

(** What can keep a drain from the entries that are left: a batch gave up, or a
    key was found whose removal failed. *)
Inductive stuck (m0 : gmap K V) (final : S) : Prop :=
  | stuck_batch s c n :
      (0 < n)%nat → content s ⊆ m0 → ba_state (lookup_and_delete_batch s c n) = final →
      refused (lookup_and_delete_batch s c n) = false →
      gave_up (lookup_and_delete_batch s c n) → stuck m0 final
  | stuck_key s k :
      content s ⊆ m0 → content final ⊆ content s → get_first_key s = Some k →
      (lookup_and_delete_elem s k).2 = None → stuck m0 final.

(** What a drain achieves from the map [m0]: the entries are taken, at most
    [drain_limit] of them, and all of them when there are fewer and nothing
    kept it from the rest. *)
Definition drained_from (m0 : gmap K V) (entries : list (K * V)) (final : S) : Prop :=
  taken m0 entries (content final) ∧ (length entries ≤ drain_limit)%nat ∧
  ((length entries < drain_limit)%nat → content final = ∅ ∨ stuck m0 final).

(** The entries of the zeroed buffer that a refused first batch makes the reader
    report. *)
Definition invented (s : S) : nat :=
  let a := lookup_and_delete_batch s false batch_size in
  if refused a then ba_count a else 0%nat.

Lemma batch_step_taken have_cursor n buffer c m0 :
  let a := lookup_and_delete_batch (co_state c) have_cursor n in
  taken m0 (co_entries c) (content (co_state c)) → refused a = false →
  take (ba_count a) (overlay (ba_written a) buffer) = ba_written a ∧
  taken m0 (co_entries c ++ ba_written a) (content (ba_state a)).
Proof.
  intros a Ht Hr. destruct (batch_processed _ _ _ Hr) as (Hl & _ & Htk & _).
  split; [|by eapply taken_app]. fold a in Hl. rewrite <-Hl. apply take_overlay.
Qed.

Lemma batch_loop_drains fuel : ∀ have_cursor drained buffer c m0,
  (drained ≤ drain_limit)%nat → (drain_limit - drained < fuel)%nat →
  length (co_entries c) = drained → taken m0 (co_entries c) (content (co_state c)) →
  refused (lookup_and_delete_batch (co_state c) have_cursor
    (Nat.min batch_size (drain_limit - drained))) = false →
  ∃ c', batch_loop fuel have_cursor drained buffer c = Some (c', true) ∧
    drained_from m0 (co_entries c') (co_state c').
Proof.
  induction fuel as [|fuel IH]; intros have_cursor drained buffer c m0 Hd Hf Hlen Ht Hr; [lia|].
  cbn [batch_loop]. destruct (Nat.ltb_spec drained drain_limit) as [Hlt|Hge];
    [|exists c; split; [done|]; split_and!; [done|lia|lia]].
  set (n := Nat.min batch_size (drain_limit - drained)) in *.
  destruct (batch_processed _ _ _ Hr) as (Hl & Hn & _ & Hlast).
  destruct (batch_step_taken have_cursor n buffer c m0 Ht Hr) as [-> Htk].
  assert (content (co_state c) ⊆ m0) as Hsub
    by (destruct Ht as (_ & Hdis & ->); by apply map_union_subseteq_r).
  set (a := lookup_and_delete_batch (co_state c) have_cursor n) in *. cbn zeta in *.
  assert (ba_error a ≠ 0 ∨ ba_count a = 0%nat →
    drained_from m0 (co_entries c ++ ba_written a) (ba_state a)) as Hstop.
  { intros Hs. split_and!; [done|rewrite length_app; lia|]. intros _.
    destruct (decide (ba_error a = ENOENT)) as [He|He]; [by left; apply Hlast|right].
    apply (stuck_batch _ _ (co_state c) have_cursor n); try done; [|split; [done|tauto]].
    unfold n. pose proof batch_size_pos. lia. }
  assert (negb knows_batch = false) as Hknown by (by rewrite <-(batch_known (co_state c) have_cursor n)).
  unfold refused in Hr. apply orb_false_iff in Hr as [Hr1 Hr2].
  destruct (ba_error a =? 0) eqn:E0; bool_hyps.
  - destruct (Nat.eqb_spec (ba_count a) 0) as [Ec|Ec]; [by eexists; split; [done|]; auto|].
    apply IH; cbn; rewrite ?length_app; try done; try lia.
    by rewrite batch_known, Hknown.
  - destruct (ba_error a =? ENOENT); [by eexists; split; [done|]; auto|].
    rewrite !(proj2 (Z.eqb_neq _ _)), andb_false_r by done. by eexists; split; [done|]; auto.
Qed.

Lemma single_loop_drains n : ∀ c m0 before entries,
  co_entries c = (before ++ entries)%list → taken m0 entries (content (co_state c)) →
  (length entries + n ≤ drain_limit)%nat →
  ∃ entries', co_entries (single_loop n c) = (before ++ entries')%list ∧
    taken m0 entries' (content (co_state (single_loop n c))) ∧ (length entries' ≤ length entries + n)%nat ∧
    content (co_state (single_loop n c)) ⊆ content (co_state c) ∧
    ((length entries' < length entries + n)%nat →
     content (co_state (single_loop n c)) = ∅ ∨ stuck m0 (co_state (single_loop n c))).
Proof.
  induction n as [|n IH]; intros c m0 before entries He Ht Hn; cbn.
  { exists entries. split_and!; [done|done|lia|done|lia]. }
  assert (content (co_state c) ⊆ m0) as Hsub
    by (destruct Ht as (_ & Hdis & ->); by apply map_union_subseteq_r).
  pose proof (first_key (co_state c)) as Hk. destruct (get_first_key _) as [k|] eqn:Ek;
    [|exists entries; split_and!; [done|done|lia|done|by left]].
  destruct (lookup_and_delete_elem (co_state c) k) as [s' [v|]] eqn:Ed.
  - destruct Hk as [Hk Hs].
    destruct (IH (mk_Collected s' (co_entries c ++ [(k, v)])) m0 before (entries ++ [(k, v)]))
      as (l & Hl & Htk & Hlen & Hs' & Hend); cbn in *.
    + by rewrite He, app_assoc.
    + eapply taken_app; [done|]. rewrite Hs. by apply taken_one.
    + rewrite length_app. cbn. lia.
    + rewrite length_app in Hlen, Hend. cbn in Hlen, Hend. exists l. split_and!; [done|done|lia| |].
      * etrans; [done|]. rewrite Hs. apply delete_subseteq.
      * intros ?. apply Hend. lia.
  - destruct (IH (mk_Collected s' (co_entries c)) m0 before entries)
      as (l & Hl & Htk & Hlen & Hs' & Hend); cbn in *; [done|by rewrite Hk|lia|].
    rewrite Hk in Hs'. exists l. split_and!; [done|done|lia|done|].
    intros _. right. apply (stuck_key _ _ (co_state c) k); try done. by rewrite Ed.
Qed.

(** C14: draining an aggregate map.  On a map that honours the contract of the
    [bpf] commands, by batches or key by key, the drain terminates within its
    fuel and returns entries each taken exactly once and with its value; every
    other entry stays in the map; it takes at most [drain_limit] entries, and
    when it takes fewer the map is empty, unless a batch gave up before the end
    ([ENOSPC]) or a removal of a key failed.  The only entries it returns that
    the map did not hold are those of its zeroed buffer, ahead of the others,
    when the kernel refuses the first batch and leaves a count in place; a
    kernel that reports zero then, or knows the command, gives none. *)
Theorem aggregates_taken_once (zero : K * V) (s : S) :
  ∃ c entries, drain_aggregates zero s = Some c ∧
    co_entries c = (replicate (invented s) zero ++ entries)%list ∧
    drained_from (content s) entries (co_state c).
Proof.
  unfold drain_aggregates, invented. pose proof batch_size_pos as Hb.
  destruct (refused (lookup_and_delete_batch s false batch_size)) eqn:Hr.
  - destruct (batch_refused _ _ _ Hr) as (Hw & Hc & Hs). unfold batch_fuel. cbn [batch_loop].
    rewrite (proj2 (Nat.ltb_lt _ _)), Nat.sub_0_r, Nat.min_l by lia. cbn [co_state co_entries].
    set (a := lookup_and_delete_batch s false batch_size) in *. rewrite Hw. unfold overlay. cbn.
    assert ((ba_error a =? 0) = false ∧ (ba_error a =? ENOENT) = false) as [-> ->].
    { unfold refused in Hr. bool_hyps. destruct Hr as [Hr|Hr]; bool_hyps; by rewrite Hr. }
    unfold refused in Hr. cbn [negb andb]. rewrite Hr. cbn [negb]. rewrite drop_0, take_replicate, Nat.min_l by done.
    destruct (single_loop_drains drain_limit (mk_Collected (ba_state a) (replicate (ba_count a) zero))
      (content s) (replicate (ba_count a) zero) []) as (l & Hl & Htk & Hlen & _ & Hend);
      [by rewrite app_nil_r|cbn; rewrite Hs; apply taken_nil|cbn; lia|].
    eexists _, l. split; [done|]. split; [done|]. by split_and!.
  - destruct (batch_loop_drains batch_fuel false 0 (replicate batch_size zero) (mk_Collected s [])
      (content s)) as (c & -> & Hd); try done; try lia; try apply taken_nil.
    + unfold batch_fuel. lia.
    + by exists c, (co_entries c).
Qed.
End drain_aggregates.

(** ** A kernel hash map *)
Section hash_map.
Context {K V : Type} `{Countable K}.

Definition hash_batch (m : gmap K V) (_ : bool) (n : nat) : BatchAnswer (gmap K V) K V :=
  let l := map_to_list m in
  mk_BatchAnswer (list_to_map (drop n l)) (if (n <? length l)%nat then 0 else ENOENT)
    (Nat.min n (length l)) (take n l).
Definition hash_first (m : gmap K V) : option K := fst <$> head (map_to_list m).
Definition hash_delete (m : gmap K V) (k : K) : gmap K V * option V := (delete k m, m !! k).

Definition hash_bpf_map : BpfMap (gmap K V) K V :=
  {| lookup_and_delete_batch := hash_batch; get_first_key := hash_first;
     lookup_and_delete_elem := hash_delete |}.

Lemma taken_split (m : gmap K V) n :
  taken m (take n (map_to_list m)) (list_to_map (drop n (map_to_list m))).
Proof.
  pose proof (NoDup_fst_map_to_list m) as Hn. rewrite <-(take_drop n (map_to_list m)), fmap_app in Hn.
  apply NoDup_app in Hn as (Hn1 & Hn2 & Hn3). split_and!; [done| |].
  - apply map_disjoint_spec. intros k x y Hx Hy.
    apply elem_of_list_to_map_2 in Hx, Hy.
    apply (Hn2 k); apply list_elem_of_fmap; by eexists (_, _).
  - by rewrite <-list_to_map_app, take_drop, list_to_map_to_list.
Qed.

Lemma hash_first_removed (m : gmap K V) :
  match hash_first m with
  | None => m = ∅
  | Some k => ∃ v, hash_delete m k = (delete k m, Some v) ∧ m !! k = Some v
  end.
Proof.
  unfold hash_first, hash_delete. destruct (map_to_list m) as [|[k v] l] eqn:E; cbn.
  - by apply map_to_list_empty_iff.
  - assert (m !! k = Some v) as -> by (apply elem_of_map_to_list; rewrite E; by left). eauto.
Qed.
Lemma hash_first_law (m : gmap K V) :
  match hash_first m with
  | None => m = ∅
  | Some k => match hash_delete m k with
              | (m', Some v) => m !! k = Some v ∧ m' = delete k m
              | (m', None) => m' = m
              end
  end.
Proof. pose proof (hash_first_removed m) as Hm. destruct (hash_first m); [|done].
  by destruct Hm as (v & -> & Hv). Qed.

#[refine] Definition hash_lawful : @LawfulBpfMap (gmap K V) K V hash_bpf_map _ _ :=
  {| content := (λ m : gmap K V, m : gmap K V); knows_batch := true |}.
Proof.
  - intros m c n. unfold refused. cbn -[Nat.ltb]. by destruct (n <? _)%nat.
  - intros m c n. cbn -[Nat.ltb]. by destruct (n <? _)%nat.
  - intros m c n a _. cbn -[Nat.ltb]. split_and!; [by rewrite length_take|lia|apply taken_split|].
    intros He. rewrite drop_ge; [done|]. destruct (Nat.ltb_spec n (length (map_to_list m))); [done|lia].
  - intros m c n a. unfold a, refused. cbn -[Nat.ltb]. by destruct (n <? _)%nat.
  - exact hash_first_law.
Defined.

(** A kernel without the batch command that leaves [left] of the requested count
    in place. *)
Definition old_kernel_map (left : nat → nat) : BpfMap (gmap K V) K V :=
  {| lookup_and_delete_batch := λ m _ n, mk_BatchAnswer m EINVAL (left n) [];
     get_first_key := hash_first; lookup_and_delete_elem := hash_delete |}.

(** A map of one bucket: a batch that has no room for all of it answers
    [ENOSPC]. *)
Definition bucket_batch (m : gmap K V) (_ : bool) (n : nat) : BatchAnswer (gmap K V) K V :=
  if (n <? size m)%nat then mk_BatchAnswer m ENOSPC 0 []
  else mk_BatchAnswer ∅ ENOENT (size m) (map_to_list m).
Definition bucket_map : BpfMap (gmap K V) K V :=
  {| lookup_and_delete_batch := bucket_batch; get_first_key := hash_first;
     lookup_and_delete_elem := hash_delete |}.
#[refine] Definition bucket_lawful : @LawfulBpfMap (gmap K V) K V bucket_map _ _ :=
  {| content := (λ m : gmap K V, m : gmap K V); knows_batch := true |}.
Proof.
  - intros m c n. unfold refused. cbn. unfold bucket_batch. by destruct (n <? _)%nat.
  - intros m c n. cbn. unfold bucket_batch. by destruct (n <? _)%nat.
  - intros m c n a _. cbn. unfold bucket_batch. destruct (Nat.ltb_spec n (size m)) as [Hn|Hn]; cbn.
    + split_and!; [done|lia|apply taken_nil|done].
    + split_and!; [apply length_map_to_list|lia| |done].
      split_and!; [apply NoDup_fst_map_to_list|apply map_disjoint_empty_r|].
      by rewrite list_to_map_to_list, map_union_empty.
  - intros m c n a. unfold a, refused. cbn. unfold bucket_batch. by destruct (n <? _)%nat.
  - exact hash_first_law.
Defined.

(** A bucket larger than a batch is never read: the drain stops at once. *)
Lemma oversized_bucket_kept zero (m : gmap K V) :
  (batch_size < size m)%nat →
  @drain_aggregates _ _ _ bucket_map zero m = Some (mk_Collected m []).
Proof.
  intros Hm. pose proof batch_size_pos as Hb. unfold drain_aggregates, batch_fuel. cbn [batch_loop].
  rewrite (proj2 (Nat.ltb_lt _ _)), Nat.sub_0_r, Nat.min_l by lia. cbn [co_state].
  cbn [lookup_and_delete_batch bucket_map]. unfold bucket_batch. by rewrite (proj2 (Nat.ltb_lt _ _) Hm).
Qed.
End hash_map.

#[refine] Definition old_kernel_lawful {K V} `{Countable K} (left : nat → nat)
    (Hleft : ∀ n, (left n ≤ n)%nat) : @LawfulBpfMap (gmap K V) K V (old_kernel_map left) _ _ :=
  {| content := (λ m : gmap K V, m : gmap K V); knows_batch := false |}.
Proof.
  - done.
  - done.
  - done.
  - intros m c n a _. split_and!; [done|exact (Hleft n)|done].
  - exact hash_first_law.
Defined.

(** With removals that work and a batch command that goes on to the end, nothing
    keeps a drain from the entries left. *)
Lemma hash_never_stuck {K V} `{Countable K} (m : gmap K V) final :
  ¬ @stuck _ _ _ hash_bpf_map _ _ hash_lawful m final.
Proof.
  intros [s c n Hpos _ _ _ [He Hz]|s k _ _ Hk Hd].
  - cbn -[Nat.ltb] in He, Hz. destruct (Nat.ltb_spec n (length (map_to_list s))) as [Hn|Hn]; [|done].
    specialize (Hz eq_refl). lia.
  - pose proof (hash_first_removed s) as Hf. cbn in Hk, Hd. rewrite Hk in Hf.
    destruct Hf as (v & _ & Hv). congruence.
Qed.

Lemma old_kernel_never_stuck {K V} `{Countable K} left Hleft (m : gmap K V) final :
  ¬ @stuck _ _ _ (old_kernel_map left) _ _ (old_kernel_lawful left Hleft) m final.
Proof.
  intros [s c n _ _ _ Hr _|s k _ _ Hk Hd]; [done|].
  pose proof (hash_first_removed s) as Hf. cbn in Hk, Hd. rewrite Hk in Hf.
    destruct Hf as (v & _ & Hv). congruence.
Qed.

Lemma taken_size {K V} `{Countable K} (m : gmap K V) entries m' :
  taken m entries m' → (length entries ≤ size m)%nat.
Proof.
  intros (Hn & Hd & ->). rewrite map_size_disj_union by done.
  rewrite map_size_list_to_map by done. lia.
Qed.

Definition demo_futex_map : gmap affinitygraph_futex_key affinitygraph_futex_value :=
  {[mk_futex_key 7 8 9 1 2 := mk_futex_value 5 100; mk_futex_key 7 9 8 2 1 := mk_futex_value 3 120]}.

Lemma demo_drained {S} (B : BpfMap S affinitygraph_futex_key affinitygraph_futex_value)
    (L : @LawfulBpfMap S affinitygraph_futex_key affinitygraph_futex_value B _ _) entries (final : S) :
  drained_from demo_futex_map entries final → ¬ stuck demo_futex_map final → content final = ∅.
Proof.
  intros (Ht & _ & Hend) Hs. apply taken_size in Ht.
  destruct Hend as [|]; [|done|done]. eapply Nat.le_lt_trans; [done|]. by apply Nat.ltb_lt.
Qed.

(** The two entries of the map, by the batch command; key by key on a kernel
    that refuses it and reports zero; and, on one that leaves the count in place,
    behind the zeroed buffer. *)
Lemma aggregates_taken_once_witness :
  (∃ c, @drain_aggregates _ _ _ hash_bpf_map zero_futex demo_futex_map = Some c ∧
     taken demo_futex_map (co_entries c) (co_state c) ∧ co_state c = ∅) ∧
  (∃ c, @drain_aggregates _ _ _ (old_kernel_map (λ _, 0%nat)) zero_futex demo_futex_map = Some c ∧
     taken demo_futex_map (co_entries c) (co_state c) ∧ co_state c = ∅) ∧
  (∃ c entries, @drain_aggregates _ _ _ (old_kernel_map id) zero_futex demo_futex_map = Some c ∧
     co_entries c = (replicate batch_size zero_futex ++ entries)%list ∧
     taken demo_futex_map entries (co_state c) ∧ co_state c = ∅).
Proof.
  split; [|split].
  - destruct (@aggregates_taken_once _ _ _ hash_bpf_map _ _ hash_lawful zero_futex demo_futex_map)
      as (c & l & Hc & He & Hd).
    exists c. split; [exact Hc|]. assert (co_entries c = l) as -> by exact He.
    split; [exact (proj1 Hd)|]. exact (demo_drained _ _ l (co_state c) Hd (hash_never_stuck _ _)).
  - assert (∀ n, (0 ≤ n)%nat) as Hl by (intros; lia).
    destruct (@aggregates_taken_once _ _ _ (old_kernel_map (λ _, 0%nat)) _ _
      (old_kernel_lawful (λ _, 0%nat) Hl) zero_futex demo_futex_map) as (c & l & Hc & He & Hd).
    exists c. split; [exact Hc|]. assert (co_entries c = l) as -> by exact He.
    split; [exact (proj1 Hd)|]. exact (demo_drained _ _ l (co_state c) Hd (old_kernel_never_stuck _ _ _ _)).
  - assert (∀ n, (id n ≤ n)%nat) as Hl by (intros n; exact (le_n n)).
    destruct (@aggregates_taken_once _ _ _ (old_kernel_map id) _ _
      (old_kernel_lawful id Hl) zero_futex demo_futex_map) as (c & l & Hc & He & Hd).
    exists c, l. split; [exact Hc|]. split; [exact He|]. split; [exact (proj1 Hd)|].
    exact (demo_drained _ _ l (co_state c) Hd (old_kernel_never_stuck _ _ _ _)).
Defined.

Lemma single_loop_appends {S K V} `{BpfMap S K V} n : ∀ c : Collected S K V,
  ∃ more, co_entries (single_loop n c) = (co_entries c ++ more)%list.
Proof.
  induction n as [|n IH]; intros c; cbn; [exists []; by rewrite app_nil_r|].
  destruct (get_first_key _) as [k|]; [|exists []; by rewrite app_nil_r].
  destruct (lookup_and_delete_elem _ k) as [s' [v|]].
  - destruct (IH (mk_Collected s' (co_entries c ++ [(k, v)]))) as [more ->].
    eexists. cbn. by rewrite <-app_assoc.
  - apply (IH (mk_Collected s' (co_entries c))).
Qed.

(** when the first batch command is refused as unknown and leaves the
    requested count in place, the reader appends the whole zeroed buffer:
    before falling back to single deletions it has already reported
    [batch_size] entries with all-zero keys that no probe ever recorded. *)
Theorem refused_batch_invents_entries {S K V} `{BpfMap S K V} (zero : K * V) (s : S) :
  lookup_and_delete_batch s false batch_size = mk_BatchAnswer s EINVAL batch_size [] →
  ∃ c more, drain_aggregates zero s = Some c ∧
    co_entries c = (replicate batch_size zero ++ more)%list.
Proof.
  intros Ha. unfold drain_aggregates, batch_fuel. cbn [batch_loop].
  rewrite (proj2 (Nat.ltb_lt _ _)) by (apply Nat.ltb_lt; done).
  replace (Nat.min batch_size (drain_limit - 0)) with batch_size by (apply Nat.eqb_eq; done).
  cbn [co_state]. rewrite Ha. cbn -[single_loop batch_size replicate drain_limit].
  rewrite drop_0, take_ge by (rewrite length_replicate; done).
  destruct (single_loop_appends drain_limit (mk_Collected s (replicate batch_size zero)))
    as [more Hm]. eauto.
Qed.

(** A kernel without the batch command, and an empty aggregate map. *)
Lemma refused_batch_invents_entries_witness :
  ∃ c more, @drain_aggregates _ _ _ (old_kernel_map id) zero_futex ∅ = Some c ∧
    co_entries c = (replicate batch_size zero_futex ++ more)%list.
Proof. apply (@refused_batch_invents_entries _ _ _ (old_kernel_map id)). reflexivity. Defined.
