(* ===== verification/BpfSystem.v ===== *)
(** * The collector as a transition system

    Probes fire, LRU maps forget entries, the supervisor adds targets, and the
    reader takes events from the ring and entries from the aggregate maps, in
    any order.  Each probe is one step; what happens when two probes, or a
    probe and the reader, interleave inside a handoff is stated separately on
    its second half. *)
From stdpp Require Import relations.
From S2P Require Import Prelude BpfPending BpfProbe BpfReader BpfPipeline GraphFacts.
Local Open Scope Z_scope.
Local Open Scope ag_scope.

(** ** Probes as calls *)
Inductive ProbeCall :=
  | Fork (tgid tid : Z) (current child : Task) (now : Z) (room : bool)
  | Exec (task : Task) (now : Z) (room : bool)
  | Exit (task : Task) (now : Z) (room : bool)
  | Rename (task : Task) (name : string) (now emit_now : Z) (room : bool)
  | PthreadCreate (tgid tid : Z) (current : Task) (routine now : Z)
  | PthreadCreateReturn (tgid tid : Z) (current : Task)
  | AffinityEnter (tgid tid : Z) (current : Task) (arg0 arg1 : Z) (user : list Z)
  | AffinityExit (tgid tid ret now : Z) (room : bool)
  | Futex (tgid tid : Z) (current : Task) (arg0 arg1 now : Z)
  | Read (tgid tid : Z) (current : Task) (arg0 : Z) (fds : Z → option Inode) (now : Z)
  | Write_ (tgid tid : Z) (current : Task) (arg0 : Z) (fds : Z → option Inode) (now : Z).

Definition fire (c : ProbeCall) : Probe → Probe :=
  match c with
  | Fork tgid tid current child now room => on_fork tgid tid current child now room
  | Exec task now room => on_exec task now room
  | Exit task now room => on_exit task now room
  | Rename task name now emit_now room => on_rename task name now emit_now room
  | PthreadCreate tgid tid current routine now => on_pthread_create tgid tid current routine now
  | PthreadCreateReturn tgid tid current => on_pthread_create_return tgid tid current
  | AffinityEnter tgid tid current arg0 arg1 user =>
      on_sched_setaffinity_enter tgid tid current arg0 arg1 user
  | AffinityExit tgid tid ret now room => on_sched_setaffinity_exit tgid tid ret now room
  | Futex tgid tid current arg0 arg1 now => on_futex tgid tid current arg0 arg1 now
  | Read tgid tid current arg0 fds now => on_read tgid tid current arg0 fds now
  | Write_ tgid tid current arg0 fds now => on_write tgid tid current arg0 fds now
  end.

(** ** What a call has to record

    The same call on the same program, with room in the ring and in the aggregate
    maps: the kinds of the events and handoffs it then records. *)
Definition roomy (c : ProbeCall) : ProbeCall :=
  match c with
  | Fork tgid tid current child now _ => Fork tgid tid current child now true
  | Exec task now _ => Exec task now true
  | Exit task now _ => Exit task now true
  | Rename task name now emit_now _ => Rename task name now emit_now true
  | AffinityExit tgid tid ret now _ => AffinityExit tgid tid ret now true
  | c => c
  end.
Definition emptied (p : Probe) : Probe :=
  mk_Probe (pr_pids p) [] (pr_health p) (pr_rename_throttle p) (pr_pending_pthreads p) (pr_waiters p)
    ∅ ∅ (pr_resources p) (pr_pending_affinities p).
Definition recorded (p : Probe) : list Z :=
  ((ev_kind <$> pr_ring p) ++
   (if bool_decide (pr_futex_aggregates p = ∅) then [] else [AFFINITYGRAPH_FUTEX]) ++
   (if bool_decide (pr_vfs_aggregates p = ∅) then [] else [AFFINITYGRAPH_VFS]))%list.
Definition offered (c : ProbeCall) (p : Probe) : list Z := recorded (fire (roomy c) (emptied p)).

(** ** What a probe does to the counters, the ring and the aggregates *)
Definition lifecycle_kinds : list Z :=
  [AFFINITYGRAPH_TASK_FORK; AFFINITYGRAPH_TASK_EXIT; AFFINITYGRAPH_TASK_EXEC;
   AFFINITYGRAPH_TASK_RENAME; AFFINITYGRAPH_AFFINITY].

(** The counters of emitted and dropped events. *)
Definition counters (h : affinitygraph_bpf_health) : Z * Z * list Z * list Z :=
  (he_emitted h, he_dropped h, he_emitted_by_kind h, he_dropped_by_kind h).

(** A handoff counted in an aggregate map, or refused by it. *)
Definition counted {K V} `{Countable K} (count : V → Z) (m m' : gmap K V) (ok : bool) : Prop :=
  if ok then u64 (total count m') = u64 (total count m + 1) else m' = m.

(** [ks] is what the probe had to record. *)
Inductive effect (ks : list Z) (p p' : Probe) : Prop :=
  | effect_none :
      ks = [] →
      counters (pr_health p') = counters (pr_health p) → pr_ring p' = pr_ring p →
      pr_futex_aggregates p' = pr_futex_aggregates p →
      pr_vfs_aggregates p' = pr_vfs_aggregates p → effect ks p p'
  | effect_event e room :
      ks = [ev_kind e] → ev_kind e ∈ lifecycle_kinds →
      pr_health p' = account_emit (ev_kind e) room (pr_health p) →
      pr_ring p' = (pr_ring p ++ if room then [e] else [])%list →
      pr_futex_aggregates p' = pr_futex_aggregates p →
      pr_vfs_aggregates p' = pr_vfs_aggregates p → effect ks p p'
  | effect_futex ok :
      ks = [AFFINITYGRAPH_FUTEX] →
      pr_health p' = account_emit AFFINITYGRAPH_FUTEX ok (pr_health p) → pr_ring p' = pr_ring p →
      counted fv_count (pr_futex_aggregates p) (pr_futex_aggregates p') ok →
      pr_vfs_aggregates p' = pr_vfs_aggregates p → effect ks p p'
  | effect_vfs ok :
      ks = [AFFINITYGRAPH_VFS] →
      pr_health p' = account_emit AFFINITYGRAPH_VFS ok (pr_health p) → pr_ring p' = pr_ring p →
      pr_futex_aggregates p' = pr_futex_aggregates p →
      counted vv_count (pr_vfs_aggregates p) (pr_vfs_aggregates p') ok → effect ks p p'.

Lemma effect_emit ks p p0 now room e :
  ks = [ev_kind e] → ev_kind e ∈ lifecycle_kinds → pr_health p0 = pr_health p →
  pr_ring p0 = pr_ring p → pr_futex_aggregates p0 = pr_futex_aggregates p →
  pr_vfs_aggregates p0 = pr_vfs_aggregates p → effect ks p (emit_event now room e p0).
Proof.
  intros Hks Hk Hh Hr Hf Hv. apply (effect_event _ _ _ (at_time e now) room); cbn; rewrite ?Hh, ?Hr; try done.
  destruct room; [done|]. by rewrite app_nil_r.
Qed.

Lemma hash_update_counted {K V} `{Countable K} (count : V → Z) max k v (m : gmap K V) :
  m !! k = None → count v = 1 →
  let r := hash_update max k v m in counted count m r.1 r.2.
Proof.
  intros Hk Hv. unfold hash_update. rewrite bool_decide_eq_false_2 by (rewrite Hk; by intros []).
  destruct (_ <? _); cbn; [|done]. rewrite total_insert, Hv by done. f_equal. lia.
Qed.

Lemma bump_counted {K V} `{Countable K} (count : V → Z) k a v (m : gmap K V) :
  m !! k = Some a → count v = u64 (count a + 1) → counted count m (<[k := v]> m) true.
Proof.
  intros Hk Hv. cbn. rewrite (total_replace count m k v a), Hv by done.
  replace (total count m - count a + u64 (count a + 1))
    with (u64 (count a + 1) + (total count m - count a)) by lia.
  rewrite u64_add_l. f_equal. lia.
Qed.

Lemma account_futex_effect k now p :
  effect [AFFINITYGRAPH_FUTEX] p (account_futex (bool_decide (is_Some (pr_futex_aggregates p !! k))) k now p).
Proof.
  unfold account_futex. case_bool_decide as Hs.
  - destruct Hs as [a Ha]. rewrite Ha. apply (effect_futex _ _ _ true); try done.
    by apply (bump_counted _ k a).
  - apply eq_None_not_Some in Hs.
    pose proof (hash_update_counted fv_count aggregate_max_entries k (mk_futex_value 1 now) _ Hs eq_refl)
      as Hc. destruct (hash_update _ _ _ _) as [m ok]. by apply (effect_futex _ _ _ ok).
Qed.

Lemma account_vfs_effect k elapsed now p :
  effect [AFFINITYGRAPH_VFS] p
    (account_vfs (bool_decide (is_Some (pr_vfs_aggregates p !! k))) k elapsed now p).
Proof.
  unfold account_vfs. case_bool_decide as Hs.
  - destruct Hs as [a Ha]. rewrite Ha. apply (effect_vfs _ _ _ true); try done.
    by apply (bump_counted _ k a).
  - apply eq_None_not_Some in Hs.
    pose proof (hash_update_counted vv_count aggregate_max_entries k (mk_vfs_value elapsed 1 now)
      _ Hs eq_refl) as Hc. destruct (hash_update _ _ _ _) as [m ok]. by apply (effect_vfs _ _ _ ok).
Qed.

(** An effect only looks at the counters, the ring and the aggregates. *)
Lemma effect_after ks ks' p p' p'' :
  effect ks p p' → ks' = ks → pr_health p'' = pr_health p' → pr_ring p'' = pr_ring p' →
  pr_futex_aggregates p'' = pr_futex_aggregates p' →
  pr_vfs_aggregates p'' = pr_vfs_aggregates p' → effect ks' p p''.
Proof.
  intros [|e room|ok|ok] -> Hh Hr Hf Hv;
    [eapply effect_none|eapply (effect_event _ _ _ e room)|eapply (effect_futex _ _ _ ok)
    |eapply (effect_vfs _ _ _ ok)]; congruence || (rewrite ?Hf, ?Hv; done).
Qed.

Lemma effect_idle ks p : ks = [] → effect ks p p.
Proof. intros ->. by apply effect_none. Qed.
#[local] Hint Resolve effect_idle : core.

(** An empty map accepts an entry. *)
Lemma hash_update_empty {K V} `{Countable K} max k (v : V) :
  0 < max → hash_update max k v (∅ : gmap K V) = ({[k := v]}, true).
Proof.
  intros Hm. unfold hash_update. rewrite map_size_empty, (proj2 (Z.ltb_lt _ _)) by lia.
  by rewrite orb_true_r, insert_empty.
Qed.
Lemma account_futex_empty k now p :
  pr_futex_aggregates p = ∅ → pr_ring p = [] → pr_vfs_aggregates p = ∅ →
  recorded (account_futex (bool_decide (is_Some (pr_futex_aggregates p !! k))) k now p) = [AFFINITYGRAPH_FUTEX].
Proof.
  intros Hf Hr Hv. unfold account_futex. rewrite Hf, lookup_empty. 
  rewrite bool_decide_false by (by intros []). rewrite hash_update_empty by done. unfold recorded. cbn.
  rewrite Hr, Hv, (bool_decide_true (∅ = ∅)) by done. by rewrite bool_decide_false by apply map_non_empty_singleton.
Qed.
Lemma account_vfs_empty k elapsed now p :
  pr_vfs_aggregates p = ∅ → pr_ring p = [] → pr_futex_aggregates p = ∅ →
  recorded (account_vfs (bool_decide (is_Some (pr_vfs_aggregates p !! k))) k elapsed now p) = [AFFINITYGRAPH_VFS].
Proof.
  intros Hf Hr Hv. unfold account_vfs. rewrite Hf, lookup_empty. 
  rewrite bool_decide_false by (by intros []). rewrite hash_update_empty by done. unfold recorded. cbn.
  rewrite Hr, Hv, (bool_decide_true (∅ = ∅)) by done. by rewrite bool_decide_false by apply map_non_empty_singleton.
Qed.
(** What is recorded only depends on the ring and the aggregates. *)
Lemma recorded_ext p p' :
  pr_ring p' = pr_ring p → pr_futex_aggregates p' = pr_futex_aggregates p →
  pr_vfs_aggregates p' = pr_vfs_aggregates p → recorded p' = recorded p.
Proof. intros Hr Hf Hv. unfold recorded. by rewrite Hr, Hf, Hv. Qed.
Lemma recorded_nothing p :
  pr_ring p = [] → pr_futex_aggregates p = ∅ → pr_vfs_aggregates p = ∅ → recorded p = [].
Proof. intros Hr Hf Hv. unfold recorded. by rewrite Hr, Hf, Hv, !bool_decide_true. Qed.
Lemma recorded_emit now e p :
  pr_ring p = [] → pr_futex_aggregates p = ∅ → pr_vfs_aggregates p = ∅ →
  recorded (emit_event now true e p) = [ev_kind e].
Proof. intros Hr Hf Hv. unfold recorded. cbn. by rewrite Hr, Hf, Hv, !bool_decide_true. Qed.

(** The guards of a probe do not look at the ring and the aggregates. *)
Ltac offered_simpl :=
  unfold offered; cbn [roomy fire];
  change (tracked_task (emptied ?p)) with (tracked_task p);
  unfold emptied; cbn [pr_pids pr_pending_pthreads pr_rename_throttle pr_waiters pr_resources pr_pending_affinities].

Lemma account_fd_effect ks tgid tid current arg0 fds now p :
  ks = recorded (account_fd tgid tid current arg0 fds now (emptied p)) →
  effect ks p (account_fd tgid tid current arg0 fds now p).
Proof.
  intros ->. unfold account_fd. change (tracked_task (emptied p)) with (tracked_task p).
  change (pr_resources (emptied p)) with (pr_resources p).
  destruct (negb _); [by apply effect_idle, recorded_nothing|].
  destruct (_ <=? _); [by apply effect_idle, recorded_nothing|].
  destruct (fds _) as [inode|]; [|by apply effect_idle, recorded_nothing].
  destruct (_ && _); [by apply effect_idle, recorded_nothing|].
  destruct (pr_resources p !! _) as [r|]; [|apply effect_none; try done; by apply recorded_nothing].
  destruct (_ =? _); [apply effect_none; try done; by apply recorded_nothing|].
  eapply effect_after; [apply account_vfs_effect| |done..].
  etrans; [|by eapply (account_vfs_empty _ _ _ (emptied p))]. by apply recorded_ext.
Qed.

Ltac lifecycle := first [done|by apply recorded_nothing|by apply recorded_emit
  |unfold lifecycle_kinds; cbn; set_solver].

Lemma fire_effect c p : effect (offered c p) p (fire c p).
Proof.
  destruct c; offered_simpl; cbn [fire].
  - unfold on_fork. change (tracked_task (emptied p)) with (tracked_task p). 
    destruct (negb _); [by apply effect_idle, recorded_nothing|]. cbn -[emit_event].
    destruct (negb _); [|destruct (_ !! _)]; apply effect_emit; lifecycle.
  - unfold on_exec. change (tracked_task (emptied p)) with (tracked_task p).
    destruct (negb _); [by apply effect_idle, recorded_nothing|]. cbn -[emit_event].
    destruct (pr_pids p !! _) as [t|]; [destruct (_ =? _)|]; apply effect_emit; lifecycle.
  - unfold on_exit. change (tracked_task (emptied p)) with (tracked_task p).
    destruct (negb _); [by apply effect_idle, recorded_nothing|]. apply effect_emit; lifecycle.
  - unfold on_rename. change (tracked_task (emptied p)) with (tracked_task p).
    destruct (negb _); [by apply effect_idle, recorded_nothing|]. cbn -[emit_event].
    destruct (match _ with Some _ => _ | None => _ end); [apply effect_none|apply effect_emit]; lifecycle.
  - unfold on_pthread_create. change (tracked_task (emptied p)) with (tracked_task p).
    destruct (negb _); apply effect_none; lifecycle.
  - unfold on_pthread_create_return. change (tracked_task (emptied p)) with (tracked_task p).
    destruct (negb _); apply effect_none; lifecycle.
  - unfold on_sched_setaffinity_enter. change (tracked_task (emptied p)) with (tracked_task p).
    destruct (negb _); apply effect_none; lifecycle.
  - unfold on_sched_setaffinity_exit. cbn -[emit_event].
    destruct (_ !! _); [|by apply effect_idle, recorded_nothing]. destruct (_ =? _).
    + match goal with |- context [emit_event ?n room ?e p] =>
        apply (effect_after [ev_kind e] _ p (emit_event n room e p)); [apply effect_emit|..] end; lifecycle.
    + apply effect_none; lifecycle.
  - unfold on_futex. change (tracked_task (emptied p)) with (tracked_task p).
    change (pr_waiters (emptied p)) with (pr_waiters p).
    destruct (negb _); [by apply effect_idle, recorded_nothing|].
    destruct (_ || _); [apply effect_none; lifecycle|].
    destruct (_ !! _) as [w|]; [|apply effect_none; lifecycle].
    destruct (_ =? _); [apply effect_none; lifecycle|].
    eapply effect_after; [apply account_futex_effect| |done..].
    etrans; [|by eapply (account_futex_empty _ _ (emptied p))]. by apply recorded_ext.
  - by apply account_fd_effect.
  - by apply account_fd_effect.
Qed.

(** ** The counters of the health map *)
Definition zsum (l : list Z) : Z := foldr Z.add 0 l.
Definition kind_count (l : list Z) (kind : Z) : Z := default 0 (l !! Z.to_nat kind).

(** The totals are the sums of the counters by kind. *)
Record totals_exact (h : affinitygraph_bpf_health) : Prop := {
  te_emitted_kinds : length (he_emitted_by_kind h) = 8%nat;
  te_dropped_kinds : length (he_dropped_by_kind h) = 8%nat;
  te_emitted : he_emitted h = u64 (zsum (he_emitted_by_kind h));
  te_dropped : he_dropped h = u64 (zsum (he_dropped_by_kind h));
}.

Section kinds.
Context (k : Z) (Hk : 0 ≤ k < 8).

Lemma length_count_kind l : length (count_kind k l) = length l.
Proof. unfold count_kind. destruct (_ <? _); [apply length_alter|done]. Qed.

Lemma kind_count_count_kind l k' :
  length l = 8%nat → 0 ≤ k' →
  kind_count (count_kind k l) k' =
  if decide (k' = k) then u64 (kind_count l k + 1) else kind_count l k'.
Proof.
  intros Hl Hk'. unfold kind_count, count_kind, AFFINITYGRAPH_EVENT_KIND_COUNT.
  rewrite (proj2 (Z.ltb_lt _ _)) by lia. case_decide as He; subst.
  - rewrite list_lookup_alter_eq. destruct (lookup_lt_is_Some_2 l (Z.to_nat k)) as [x Hx]; [lia|].
    by rewrite Hx.
  - by rewrite list_lookup_alter_ne by lia.
Qed.

Lemma zsum_alter l i : (i < length l)%nat → u64 (zsum (alter (λ n, u64 (n + 1)) i l)) = u64 (zsum l + 1).
Proof.
  revert i. induction l as [|x l IH]; intros [|i] Hi; cbn in Hi; try lia; cbn [alter list_alter zsum foldr].
  - rewrite u64_add_l. f_equal. lia.
  - fold (zsum (alter (λ n, u64 (n + 1)) i l)). fold (zsum l).
    rewrite Z.add_comm, <-u64_add_l, IH, u64_add_l by lia. f_equal. lia.
Qed.

Lemma zsum_count_kind l : length l = 8%nat → u64 (zsum (count_kind k l)) = u64 (zsum l + 1).
Proof.
  intros Hl. unfold count_kind, AFFINITYGRAPH_EVENT_KIND_COUNT.
  rewrite (proj2 (Z.ltb_lt _ _)) by lia. apply zsum_alter. lia.
Qed.

Lemma account_emit_exact ok h : totals_exact h → totals_exact (account_emit k ok h).
Proof.
  intros [Hle Hld He Hd]. destruct ok; split; cbn; rewrite ?length_count_kind; try done.
  - by rewrite He, u64_add_l, zsum_count_kind.
  - by rewrite Hd, u64_add_l, zsum_count_kind.
Qed.

Lemma account_emit_kind ok h k' :
  totals_exact h → 0 ≤ k' →
  kind_count (he_emitted_by_kind (account_emit k ok h)) k' =
  if decide (ok = true ∧ k' = k) then u64 (kind_count (he_emitted_by_kind h) k' + 1)
  else kind_count (he_emitted_by_kind h) k'.
Proof.
  intros [Hle _ _ _] Hk'. destruct ok; cbn.
  - rewrite kind_count_count_kind by done. repeat case_decide; naive_solver.
  - rewrite decide_False by naive_solver. done.
Qed.

(** Emitted or dropped: the two counters of the kind go up by one together. *)
Lemma account_emit_sum ok h k' :
  totals_exact h → 0 ≤ k' →
  u64 (kind_count (he_emitted_by_kind (account_emit k ok h)) k' +
       kind_count (he_dropped_by_kind (account_emit k ok h)) k') =
  u64 (kind_count (he_emitted_by_kind h) k' + kind_count (he_dropped_by_kind h) k' +
       Zsize (filter (λ x, x = k') [k])).
Proof.
  intros [Hle Hld _ _] Hk'. rewrite filter_cons, filter_nil.
  destruct ok; cbn [account_emit he_emitted_by_kind he_dropped_by_kind];
    rewrite kind_count_count_kind by done; destruct (decide (k' = k)) as [->|Hne].
  - rewrite decide_True by done. unfold Zsize. cbn [length]. rewrite u64_add_l. f_equal. lia.
  - rewrite decide_False by done. unfold Zsize. cbn [length]. f_equal. lia.
  - rewrite decide_True by done. unfold Zsize. cbn [length]. rewrite Z.add_comm, u64_add_l. f_equal. lia.
  - rewrite decide_False by done. unfold Zsize. cbn [length]. f_equal. lia.
Qed.
End kinds.

Lemma lifecycle_kind_range k : k ∈ lifecycle_kinds → 0 ≤ k < 8 ∧ k ≠ 3 ∧ k ≠ 4.
Proof.
  unfold lifecycle_kinds, AFFINITYGRAPH_TASK_FORK, AFFINITYGRAPH_TASK_EXIT, AFFINITYGRAPH_TASK_EXEC,
    AFFINITYGRAPH_TASK_RENAME, AFFINITYGRAPH_AFFINITY.
  rewrite !elem_of_cons, elem_of_nil. lia.
Qed.

(** ** The transition system *)
Record System := mk_System {
  sy_probe : Probe;
  (** every event ever published in the ring *)
  sy_published : list affinitygraph_bpf_event;
  (** the entries the reader has taken *)
  sy_futex_taken : list (affinitygraph_futex_key * affinitygraph_futex_value);
  sy_vfs_taken : list (affinitygraph_vfs_key * affinitygraph_vfs_value);
  (** the kind of every event and handoff the probes had to record *)
  sy_offered : list Z;
}.
Definition System_init (pids : gmap Z affinitygraph_target) : System :=
  mk_System (Probe_init pids) [] [] [] [].

Inductive step (s : System) : System → Prop :=
  | step_fire c :
      let p' := fire c (sy_probe s) in
      step s (mk_System p' (sy_published s ++ drop (length (pr_ring (sy_probe s))) (pr_ring p'))
                (sy_futex_taken s) (sy_vfs_taken s) (sy_offered s ++ offered c (sy_probe s)))
  (** an LRU map evicts entries *)
  | step_evict throttle waiters resources :
      throttle ⊆ pr_rename_throttle (sy_probe s) → waiters ⊆ pr_waiters (sy_probe s) →
      resources ⊆ pr_resources (sy_probe s) →
      step s (mk_System (sy_probe s) ⟪ pr_rename_throttle := throttle ⟫ ⟪ pr_waiters := waiters ⟫
                ⟪ pr_resources := resources ⟫ (sy_published s) (sy_futex_taken s) (sy_vfs_taken s)
                (sy_offered s))
  (** the supervisor registers a process *)
  | step_target tgid target :
      step s (mk_System (sy_probe s) ⟪ pr_pids := <[tgid := target]> (pr_pids (sy_probe s)) ⟫
                (sy_published s) (sy_futex_taken s) (sy_vfs_taken s) (sy_offered s))
  (** the reader advances the consumer position *)
  | step_consume n :
      step s (mk_System (sy_probe s) ⟪ pr_ring := drop n (pr_ring (sy_probe s)) ⟫
                (sy_published s) (sy_futex_taken s) (sy_vfs_taken s) (sy_offered s))
  (** the reader takes entries of an aggregate map *)
  | step_take_futex entries m' :
      taken (pr_futex_aggregates (sy_probe s)) entries m' →
      step s (mk_System (sy_probe s) ⟪ pr_futex_aggregates := m' ⟫
                (sy_published s) (sy_futex_taken s ++ entries) (sy_vfs_taken s) (sy_offered s))
  | step_take_vfs entries m' :
      taken (pr_vfs_aggregates (sy_probe s)) entries m' →
      step s (mk_System (sy_probe s) ⟪ pr_vfs_aggregates := m' ⟫
                (sy_published s) (sy_futex_taken s) (sy_vfs_taken s ++ entries)
                (sy_offered s)).

(** Everything the health map counts as emitted is somewhere: an event of the
    log, or a handoff counted in an entry taken or still in the map; and everything
    the probes had to record is counted as emitted or as dropped. *)
Record accounted (s : System) : Prop := {
  ac_totals : totals_exact (pr_health (sy_probe s));
  ac_events k : k ∈ lifecycle_kinds →
    kind_count (he_emitted_by_kind (pr_health (sy_probe s))) k =
    u64 (Zsize (filter (λ e, ev_kind e = k) (sy_published s)));
  ac_futex :
    kind_count (he_emitted_by_kind (pr_health (sy_probe s))) AFFINITYGRAPH_FUTEX =
    u64 (sum_of fv_count (sy_futex_taken s) + total fv_count (pr_futex_aggregates (sy_probe s)));
  ac_vfs :
    kind_count (he_emitted_by_kind (pr_health (sy_probe s))) AFFINITYGRAPH_VFS =
    u64 (sum_of vv_count (sy_vfs_taken s) + total vv_count (pr_vfs_aggregates (sy_probe s)));
  ac_offered k : 0 ≤ k < 8 →
    u64 (kind_count (he_emitted_by_kind (pr_health (sy_probe s))) k +
         kind_count (he_dropped_by_kind (pr_health (sy_probe s))) k) =
    u64 (Zsize (filter (λ k', k' = k) (sy_offered s)));
  ac_ring : ∃ consumed, sy_published s = (consumed ++ pr_ring (sy_probe s))%list;
}.

Lemma totals_exact_counters h h' : counters h' = counters h → totals_exact h → totals_exact h'.
Proof. destruct h, h'. cbn. intros [= -> -> -> ->] []. by split. Qed.

Lemma u64_succ a b c : c = u64 a → u64 b = u64 (a + 1) → u64 (c + 1) = u64 b.
Proof. intros -> ->. by rewrite u64_add_l. Qed.

Lemma account_emit_other k k' ok h :
  0 ≤ k < 8 → totals_exact h → 0 ≤ k' → k' ≠ k →
  kind_count (he_emitted_by_kind (account_emit k ok h)) k' = kind_count (he_emitted_by_kind h) k'.
Proof. intros. by rewrite account_emit_kind, decide_False by (done || naive_solver). Qed.

Lemma account_emit_counted {K V} `{Countable K} (count : V → Z) k ok h (m m' : gmap K V) t :
  0 ≤ k < 8 → totals_exact h → counted count m m' ok →
  kind_count (he_emitted_by_kind h) k = u64 (t + total count m) →
  kind_count (he_emitted_by_kind (account_emit k ok h)) k = u64 (t + total count m').
Proof.
  intros Hk Ht Hc Ht'. rewrite account_emit_kind by (done || lia). destruct ok; cbn in Hc.
  - rewrite decide_True by done. eapply u64_succ; [done|].
    rewrite Z.add_comm, <-u64_add_l, Hc, u64_add_l. f_equal. lia.
  - rewrite decide_False, Hc by naive_solver. done.
Qed.

Lemma account_emit_logged k k' room h e log :
  ev_kind e = k → 0 ≤ k < 8 → 0 ≤ k' → totals_exact h →
  kind_count (he_emitted_by_kind h) k' = u64 (Zsize (filter (λ e, ev_kind e = k') log)) →
  kind_count (he_emitted_by_kind (account_emit k room h)) k' =
  u64 (Zsize (filter (λ e, ev_kind e = k') (log ++ if room then [e] else []))).
Proof.
  intros He Hk Hk' Ht Hl. rewrite account_emit_kind by done.
  destruct room; rewrite ?app_nil_r; [|rewrite decide_False by naive_solver; done].
  rewrite filter_app, Zsize_app, filter_cons, filter_nil.
  destruct (decide (true = true ∧ k' = k)) as [[_ ->]|Hne].
  - rewrite decide_True by done. by eapply u64_succ.
  - rewrite decide_False by naive_solver. by rewrite Z.add_0_r.
Qed.

Lemma account_emit_offered k k' ok h offered :
  0 ≤ k < 8 → 0 ≤ k' → totals_exact h →
  u64 (kind_count (he_emitted_by_kind h) k' + kind_count (he_dropped_by_kind h) k') =
  u64 (Zsize (filter (λ x, x = k') offered)) →
  u64 (kind_count (he_emitted_by_kind (account_emit k ok h)) k' +
       kind_count (he_dropped_by_kind (account_emit k ok h)) k') =
  u64 (Zsize (filter (λ x, x = k') (offered ++ [k]))).
Proof.
  intros Hk Hk' Ht Ho. rewrite account_emit_sum by done. rewrite filter_app, Zsize_app.
  by rewrite <-u64_add_l, Ho, u64_add_l.
Qed.

Ltac system_simpl := cbn [sy_probe sy_published sy_futex_taken sy_vfs_taken sy_offered].

Lemma accounted_fire c s :
  let p' := fire c (sy_probe s) in
  accounted s →
  accounted (mk_System p' (sy_published s ++ drop (length (pr_ring (sy_probe s))) (pr_ring p'))
    (sy_futex_taken s) (sy_vfs_taken s) (sy_offered s ++ offered c (sy_probe s))).
Proof.
  destruct s as [p log futex vfs offers]. system_simpl. pose proof (fire_effect c p) as Heff.
  revert Heff. generalize (fire c p), (offered c p). intros p' ks Heff [Ht He Hf Hv Ho [consumed Hr]].
  cbn in Ht, He, Hf, Hv, Ho, Hr.
  assert (0 ≤ AFFINITYGRAPH_FUTEX < 8 ∧ 0 ≤ AFFINITYGRAPH_VFS < 8) as [Hkf Hkv] by done.
  destruct Heff as [-> Hh Hring Hfx Hvx|e room -> Hk Hh Hring Hfx Hvx|ok -> Hh Hring Hc Hvx
    |ok -> Hh Hring Hfx Hc].
  - assert (he_emitted_by_kind (pr_health p') = he_emitted_by_kind (pr_health p) ∧
      he_dropped_by_kind (pr_health p') = he_dropped_by_kind (pr_health p)) as [Hb Hb']
      by (unfold counters in Hh; split; congruence).
    split; system_simpl; rewrite ?Hring, ?Hb, ?Hb', ?Hfx, ?Hvx, ?drop_all, ?app_nil_r;
      eauto using totals_exact_counters.
  - destruct (lifecycle_kind_range _ Hk) as (Hr8 & H3 & H4).
    assert (drop (length (pr_ring p)) (pr_ring p') = if room then [e] else []) as Hd
      by by rewrite Hring, drop_app_length.
    split; system_simpl; rewrite ?Hh, ?Hd, ?Hfx, ?Hvx; try (by apply account_emit_exact);
      try (rewrite account_emit_other; done || lia).
    + intros k Hk'. destruct (lifecycle_kind_range _ Hk') as (Hr8' & _).
      apply account_emit_logged; auto; lia.
    + intros k Hk'. apply account_emit_offered; auto; lia.
    + exists consumed. by rewrite Hring, Hr, <-app_assoc.
  - split; system_simpl; rewrite ?Hh, ?Hring, ?Hvx, ?drop_all, ?app_nil_r; eauto using account_emit_exact.
    + intros k Hk. destruct (lifecycle_kind_range _ Hk) as (? & ? & ?).
      rewrite account_emit_other by (done || lia). auto.
    + by eapply account_emit_counted.
    + by rewrite account_emit_other.
    + intros k Hk. apply account_emit_offered; auto; lia.
  - split; system_simpl; rewrite ?Hh, ?Hring, ?Hfx, ?drop_all, ?app_nil_r; eauto using account_emit_exact.
    + intros k Hk. destruct (lifecycle_kind_range _ Hk) as (? & ? & ?).
      rewrite account_emit_other by (done || lia). auto.
    + by rewrite account_emit_other.
    + by eapply account_emit_counted.
    + intros k Hk. apply account_emit_offered; auto; lia.
Qed.

Lemma accounted_step s s' : step s s' → accounted s → accounted s'.
Proof.
  destruct 1 as [c p'|throttle waiters resources _ _ _|tgid target|n|entries m' Htk|entries m' Htk];
    [exact (accounted_fire c s)|..]; intros [Ht He Hf Hv Ho [consumed Hr]]; split; system_simpl; eauto.
  - exists (consumed ++ take n (pr_ring (sy_probe s)))%list. cbn.
    by rewrite <-app_assoc, take_drop.
  - cbn. rewrite Hf, (taken_total fv_count _ _ _ Htk), sum_of_app. f_equal. lia.
  - cbn. rewrite Hv, (taken_total vv_count _ _ _ Htk), sum_of_app. f_equal. lia.
Qed.

Lemma accounted_init pids : accounted (System_init pids).
Proof.
  split; [by split| |done|done| |by exists []].
  - intros k. unfold lifecycle_kinds. rewrite !elem_of_cons, elem_of_nil.
    intros [->|[->|[->|[->|[->|[]]]]]]; done.
  - intros k Hk. cbn. unfold kind_count. by destruct (Z.to_nat k) as [|[|[|[|[|[|[|[|?]]]]]]]].
Qed.

(** C12: the health map accounts for everything the probes collect.  In every
    state the collector can reach, with probes firing, maps evicting, and the
    reader draining in any order: the totals are the sums over the kinds; each
    lifecycle counter is the number of such events published; and the futex
    and VFS counters are the handoffs counted in the entries the reader has
    taken plus those still in the maps, all modulo 2^64.  What is dropped is
    counted as dropped, never as emitted: for every kind, the emitted and the
    dropped counter add up to the events and handoffs of that kind the probes
    had to record (what the same calls record when the ring and the maps have
    room).  Each call of a probe and each take of the reader is one step here;
    two of them running at once inside a handoff can lose a count
    ([handoff_races]). *)
Theorem reachable_accounted pids s : rtc step (System_init pids) s → accounted s.
Proof.
  intros Hs. apply (rtc_ind_r accounted (System_init pids)) in Hs; [done|apply accounted_init|].
  intros. by eapply accounted_step.
Qed.

(** Two handoffs of a futex, an event published and an exit the ring has no room
    for. *)
Definition demo_leader (t : Z) : Task := mk_Task 7 t (100 + t) "db" (Some 100).
Definition demo_pids : gmap Z affinitygraph_target := {[7 := mk_target 7 0]}.
Definition demo_key : affinitygraph_futex_key := mk_futex_key 7 9 8 109 108.
Definition demo_wait (t : Z) : ProbeCall := Futex 7 t (demo_leader t) 4096 128 500.
Definition demo_wake (t now : Z) : ProbeCall := Futex 7 t (demo_leader t) 4096 129 now.
Definition demo_calls : list ProbeCall :=
  [demo_wait 8; demo_wake 9 510; demo_wait 8; demo_wake 9 520;
   Exit (demo_leader 9) 530 false; Exec (demo_leader 7) 540 true].
Definition fire_all (cs : list ProbeCall) (p : Probe) : Probe := foldl (λ p c, fire c p) p cs.

Fixpoint offered_all (cs : list ProbeCall) (p : Probe) : list Z :=
  match cs with
  | [] => []
  | c :: cs => (offered c p ++ offered_all cs (fire c p))%list
  end.

Lemma fire_steps cs : ∀ s,
  ∃ log, rtc step s (mk_System (fire_all cs (sy_probe s)) log (sy_futex_taken s) (sy_vfs_taken s)
    (sy_offered s ++ offered_all cs (sy_probe s))).
Proof.
  induction cs as [|c cs IH]; intros s.
  - exists (sy_published s). destruct s. cbn. rewrite app_nil_r. apply rtc_refl.
  - destruct (IH (mk_System (fire c (sy_probe s)) (sy_published s ++
      drop (length (pr_ring (sy_probe s))) (pr_ring (fire c (sy_probe s))))
      (sy_futex_taken s) (sy_vfs_taken s) (sy_offered s ++ offered c (sy_probe s)))) as [log Hl].
    exists log. eapply rtc_l; [apply (step_fire s c)|]. cbn [sy_offered] in Hl.
    rewrite <-app_assoc in Hl. exact Hl.
Qed.

Lemma fire_then_take pids cs entries (m' : gmap affinitygraph_futex_key affinitygraph_futex_value) :
  let p := fire_all cs (Probe_init pids) in
  taken (pr_futex_aggregates p) entries m' →
  ∃ log, rtc step (System_init pids) (mk_System p ⟪ pr_futex_aggregates := m' ⟫ log entries []
    (offered_all cs (Probe_init pids))).
Proof.
  intros p Ht. destruct (fire_steps cs (System_init pids)) as [log Hl]. exists log.
  eapply rtc_r; [exact Hl|]. exact (step_take_futex (mk_System p log [] [] _) entries m' Ht).
Qed.

Lemma demo_taken :
  taken (pr_futex_aggregates (fire_all demo_calls (Probe_init demo_pids)))
    [(demo_key, mk_futex_value 2 520)] ∅.
Proof.
  assert (pr_futex_aggregates (fire_all demo_calls (Probe_init demo_pids)) =
    {[demo_key := mk_futex_value 2 520]}) as -> by (vm_compute; reflexivity).
  split_and!; [apply NoDup_singleton|apply map_disjoint_empty_r|]. symmetry. apply map_union_empty.
Qed.

Lemma reachable_accounted_witness :
  ∃ log, accounted (mk_System
    (fire_all demo_calls (Probe_init demo_pids))
      ⟪ pr_futex_aggregates := (∅ : gmap affinitygraph_futex_key affinitygraph_futex_value) ⟫
    log [(demo_key, mk_futex_value 2 520)] []
    [AFFINITYGRAPH_FUTEX; AFFINITYGRAPH_FUTEX; AFFINITYGRAPH_TASK_EXIT; AFFINITYGRAPH_TASK_EXEC]) ∧
  kind_count (he_emitted_by_kind (pr_health (fire_all demo_calls (Probe_init demo_pids))))
    AFFINITYGRAPH_FUTEX = 2 ∧
  kind_count (he_dropped_by_kind (pr_health (fire_all demo_calls (Probe_init demo_pids))))
    AFFINITYGRAPH_TASK_EXIT = 1.
Proof.
  destruct (fire_then_take demo_pids demo_calls _ _ demo_taken) as [log Hl]. exists log.
  assert (offered_all demo_calls (Probe_init demo_pids) =
    [AFFINITYGRAPH_FUTEX; AFFINITYGRAPH_FUTEX; AFFINITYGRAPH_TASK_EXIT; AFFINITYGRAPH_TASK_EXEC]) as Ho
    by (vm_compute; reflexivity).
  rewrite Ho in Hl.
  split_and!; [exact (reachable_accounted demo_pids _ Hl)|vm_compute; reflexivity..].
Defined.

(** the second half of a handoff races.  If the reader takes the aggregate
    between the lookup and the increment, or if two CPUs both find no aggregate
    for a pair, a handoff is reported as emitted, nothing is reported as
    dropped, and no entry counts it. *)
Theorem handoff_races p k now :
  (pr_futex_aggregates p !! k = None →
   let p' := account_futex true k now p in
   pr_futex_aggregates p' = pr_futex_aggregates p ∧
   he_emitted (pr_health p') = u64 (he_emitted (pr_health p) + 1) ∧
   he_dropped (pr_health p') = he_dropped (pr_health p)) ∧
  (∀ a, pr_futex_aggregates p !! k = Some a →
   let p' := account_futex false k now p in
   total fv_count (pr_futex_aggregates p') = total fv_count (pr_futex_aggregates p) - fv_count a + 1 ∧
   he_emitted (pr_health p') = u64 (he_emitted (pr_health p) + 1) ∧
   he_dropped (pr_health p') = he_dropped (pr_health p)).
Proof.
  split.
  - intros Hk. unfold account_futex. rewrite Hk. done.
  - intros a Ha. unfold account_futex, hash_update.
    rewrite bool_decide_eq_true_2 by (by eexists). cbn.
    split_and!; [by rewrite (total_replace fv_count _ k _ a)|done|done].
Qed.
Lemma handoff_races_witness :
  let p := Probe_init demo_pids in
  pr_futex_aggregates (account_futex true demo_key 9 p) = ∅ ∧
  he_emitted (pr_health (account_futex true demo_key 9 p)) = 1.
Proof.
  destruct (proj1 (handoff_races (Probe_init demo_pids) demo_key 9) eq_refl) as (H1 & H2 & _).
  split; [exact H1|exact H2].
Defined.

(** ** What survives between the two halves of a traced operation *)

(** The thread whose throttle entry a call may change. *)
Definition throttle_key (c : ProbeCall) : option thread_key :=
  match c with
  | Fork _ _ _ child _ _ => Some (t_tgid child, t_pid child)
  | Exit task _ _ | Rename task _ _ _ _ => Some (t_tgid task, t_pid task)
  | _ => None
  end.
(** The thread whose pending [sched_setaffinity] a call may change. *)
Definition affinity_key (c : ProbeCall) : option thread_key :=
  match c with
  | AffinityEnter tgid tid _ _ _ _ | AffinityExit tgid tid _ _ _ => Some (tgid, tid)
  | _ => None
  end.

Ltac probe_cases :=
  repeat match goal with
  | |- context [if ?b then _ else _] => destruct b
  | |- context [match ?o with Some _ => _ | None => _ end] => destruct o
  | |- context [let '(_, _) := ?x in _] => destruct x
  end.

Lemma fire_throttle c p k :
  throttle_key c ≠ Some k → pr_rename_throttle (fire c p) !! k = pr_rename_throttle p !! k.
Proof.
  destruct c; cbn [throttle_key fire]; intros Hk;
    unfold on_fork, on_exec, on_exit, on_rename, on_pthread_create, on_pthread_create_return,
      on_sched_setaffinity_enter, on_sched_setaffinity_exit, on_futex, on_read, on_write, account_fd,
      account_futex, account_vfs, emit_event, hash_update;
    probe_cases; cbn;
    first [done|apply lookup_delete_ne; by intros <-|apply lookup_insert_ne; by intros <-].
Qed.

Lemma fire_affinities c p k :
  affinity_key c ≠ Some k → pr_pending_affinities (fire c p) !! k = pr_pending_affinities p !! k.
Proof.
  destruct c; cbn [affinity_key fire]; intros Hk;
    unfold on_fork, on_exec, on_exit, on_rename, on_pthread_create, on_pthread_create_return,
      on_sched_setaffinity_enter, on_sched_setaffinity_exit, on_futex, on_read, on_write, account_fd,
      account_futex, account_vfs, emit_event, hash_update;
    probe_cases; cbn;
    first [done|apply lookup_delete_ne; by intros <-|apply lookup_insert_ne; by intros <-].
Qed.

Lemma fire_all_lookup {A} (f : Probe → gmap thread_key A) (key : ProbeCall → option thread_key) k cs :
  (∀ c p, key c ≠ Some k → f (fire c p) !! k = f p !! k) →
  Forall (λ c, key c ≠ Some k) cs → ∀ p, f (fire_all cs p) !! k = f p !! k.
Proof.
  intros Hf Hcs. induction Hcs as [|c cs Hc _ IH]; intros p; [done|].
  change (fire_all (c :: cs) p) with (fire_all cs (fire c p)). rewrite IH. by apply Hf.
Qed.

(** renames are throttled per thread.  After a rename of a thread was let
    through, and whatever other probes fire in between (no fork, exit or rename
    of the same thread among them), a second rename within half a second
    publishes nothing and is counted as suppressed, not as dropped. *)
Theorem rename_throttled p task name now emit_now room cs task' name' now' emit_now' room' :
  let k := (t_tgid task, t_pid task) in
  let p' := fire_all cs (on_rename task name now emit_now room p) in
  tracked_task p (t_tgid task) task = true → pr_rename_throttle p !! k = None →
  Forall (λ c, throttle_key c ≠ Some k) cs →
  (t_tgid task', t_pid task') = k → tracked_task p' (t_tgid task') task' = true →
  0 ≤ now ≤ now' → now' < now + RENAME_MIN_INTERVAL_NS → now' < 2 ^ 64 →
  on_rename task' name' now' emit_now' room' p' =
  p' ⟪ pr_health := account_suppressed AFFINITYGRAPH_TASK_RENAME (pr_health p') ⟫.
Proof.
  intros k p' Htr Hnone Hcs Hk Htr' Hnow Hnow' Hlt.
  assert (pr_rename_throttle p' !! k = Some now) as Hlast.
  { etrans; [apply (fire_all_lookup pr_rename_throttle throttle_key k cs); auto using fire_throttle|].
    unfold on_rename. rewrite Htr. cbn [negb]. fold k. rewrite Hnone. apply lookup_insert_eq. }
  unfold on_rename at 1. rewrite Htr'. cbn [negb]. rewrite Hk, Hlast.
  rewrite u64_sub_small by lia. by rewrite (proj2 (Z.ltb_lt _ _)) by lia.
Qed.
Lemma rename_throttled_witness :
  let p' := fire_all [demo_wait 8; demo_wake 9 510]
              (on_rename (demo_leader 8) "a" 1000 1001 true (Probe_init demo_pids)) in
  on_rename (demo_leader 8) "b" 400000000 400000001 true p' =
  p' ⟪ pr_health := account_suppressed AFFINITYGRAPH_TASK_RENAME (pr_health p') ⟫.
Proof.
  apply (rename_throttled (Probe_init demo_pids) (demo_leader 8) "a" 1000 1001 true
    [demo_wait 8; demo_wake 9 510] (demo_leader 8)).
  - vm_compute. reflexivity.
  - vm_compute. reflexivity.
  - repeat constructor; discriminate.
  - reflexivity.
  - vm_compute. reflexivity.
  - lia.
  - vm_compute. reflexivity.
  - vm_compute. reflexivity.
Defined.

Lemma filter_ext_elem {A} (P Q : A → Prop) `{∀ x, Decision (P x), ∀ x, Decision (Q x)} (l : list A) :
  (∀ x, x ∈ l → P x ↔ Q x) → filter P l = filter Q l.
Proof.
  induction l as [|x l IH]; intros Hpq; [done|]. rewrite !filter_cons, IH by set_solver.
  specialize (Hpq x ltac:(by left)). repeat case_decide; tauto.
Qed.

(** an affinity change reaches the runtime as the caller made it.  When a
    thread enters [sched_setaffinity] and, after any other probes, the call
    returns 0, the published event names the target thread and its mask
    decodes to exactly the CPUs set in the bytes the caller passed (the first
    128 of them), and nothing stays pending; a failed call publishes nothing. *)
Theorem affinity_change_published p tgid tid current arg0 arg1 user cs ret now :
  let p' := fire_all cs (on_sched_setaffinity_enter tgid tid current arg0 arg1 user p) in
  let p'' := on_sched_setaffinity_exit tgid tid ret now true p' in
  tracked_task p tgid current = true → Z.of_nat (size (pr_pending_affinities p)) < pending_max_entries →
  Forall (λ c, affinity_key c ≠ Some (tgid, tid)) cs →
  0 ≤ arg1 → Z.min arg1 128 ≤ Zsize user →
  pr_pending_affinities p'' !! (tgid, tid) = None ∧
  (ret ≠ 0 → pr_ring p'' = pr_ring p') ∧
  (ret = 0 → ∃ e, pr_ring p'' = (pr_ring p' ++ [e])%list ∧
     ev_kind e = AFFINITYGRAPH_AFFINITY ∧ ev_tgid e = tgid ∧ ev_tid e = tid ∧
     ev_peer_tid e = (if arg0 =? 0 then tid else arg0 `mod` 2 ^ 32) ∧
     cpus_from_mask e =
       filter (λ c, Z.testbit (default 0 (user !! Z.to_nat (c / 8))) (c mod 8) = true)
         (seqZ 0 (Z.min arg1 128 * 8))).
Proof.
  intros p' p'' Htr Hroom Hcs Harg Huser.
  set (bytes := if 128 <? arg1 then 128 else arg1).
  assert (bytes = Z.min arg1 128) as Hbytes by (unfold bytes; destruct (Z.ltb_spec 128 arg1); lia).
  set (read := take (Z.to_nat bytes) user).
  assert (pr_pending_affinities p' !! (tgid, tid) = Some (mk_pending_affinity
    (if arg0 =? 0 then tid else arg0 `mod` 2 ^ 32) bytes (read ++ drop (length read) zero_mask))) as Hp.
  { unfold p'. rewrite (fire_all_lookup pr_pending_affinities affinity_key (tgid, tid) cs)
      by (auto using fire_affinities).
    unfold on_sched_setaffinity_enter, hash_update. rewrite Htr. cbn -[Z.ltb].
    rewrite (proj2 (Z.ltb_lt _ pending_max_entries)), orb_true_r by done. apply lookup_insert_eq. }
  unfold p'', on_sched_setaffinity_exit. rewrite Hp. split_and!.
  - destruct (ret =? 0); apply lookup_delete_eq.
  - intros Hr. by rewrite (proj2 (Z.eqb_neq _ _)).
  - intros ->. eexists. split_and!; try reflexivity. unfold cpus_from_mask. 
    cbn [ev_mask_bytes at_time pf_mask_bytes]. unfold AFFINITYGRAPH_MASK_BYTES.
    replace (Z.min bytes 128) with (Z.min arg1 128) by lia.
    apply filter_ext_elem. intros c Hc%elem_of_seqZ. unfold mask_bit. cbn [ev_mask at_time pf_mask].
    assert (0 ≤ c / 8 < bytes) as Hbyte.
    { rewrite Hbytes. split; [apply Z.div_pos; lia|apply Z.div_lt_upper_bound; lia]. }
    clearbody bytes. assert (Z.to_nat (c / 8) < length read)%nat.
    { unfold read, Zsize in *. rewrite length_take. lia. }
    rewrite lookup_app_l by done. unfold read. rewrite lookup_take_lt; [done|].
    unfold read in *. rewrite length_take in *. lia.
Qed.
Lemma affinity_change_published_witness :
  let p' := fire_all [demo_wait 9]
    (on_sched_setaffinity_enter 7 8 (demo_leader 8) 0 2 [5; 1] (Probe_init demo_pids)) in
  ∃ e, pr_ring (on_sched_setaffinity_exit 7 8 0 900 true p') = (pr_ring p' ++ [e])%list ∧
    cpus_from_mask e = [0; 2; 8].
Proof.
  destruct (affinity_change_published (Probe_init demo_pids) 7 8 (demo_leader 8) 0 2 [5; 1]
    [demo_wait 9] 0 900) as (_ & _ & Hev).
  - vm_compute. reflexivity.
  - vm_compute. reflexivity.
  - repeat constructor; discriminate.
  - lia.
  - vm_compute. discriminate.
  - destruct (Hev eq_refl) as (e & Hr & _ & _ & _ & _ & Hc).
    exists e. split; [exact Hr|]. rewrite Hc. vm_compute. reflexivity.
Defined.

(** ** The table of tracked processes *)
Lemma hash_update_dom {K V} `{Countable K} max k (v : V) (m : gmap K V) :
  dom m ⊆ dom (hash_update max k v m).1 ∧
  (max ≤ Z.of_nat (size m) → dom (hash_update max k v m).1 = dom m).
Proof.
  unfold hash_update. destruct (bool_decide _ || _) eqn:E; cbn; [|done].
  split; [set_solver|]. intros Hfull. bool_hyps. destruct E as [E|E]; bool_hyps; [|lia].
  rewrite dom_insert_L. apply elem_of_dom in E. set_solver.
Qed.

Lemma fire_pids c p :
  dom (pr_pids p) ⊆ dom (pr_pids (fire c p)) ∧
  (pids_max_entries ≤ Z.of_nat (size (pr_pids p)) → dom (pr_pids (fire c p)) = dom (pr_pids p)).
Proof.
  destruct c; cbn [fire];
    unfold on_fork, on_exec, on_exit, on_rename, on_pthread_create, on_pthread_create_return,
      on_sched_setaffinity_enter, on_sched_setaffinity_exit, on_futex, on_read, on_write, account_fd,
      account_futex, account_vfs, emit_event;
    repeat first
      [ match goal with |- context [hash_update pids_max_entries ?k ?v ?m] =>
          pose proof (hash_update_dom pids_max_entries k v m); destruct (hash_update pids_max_entries k v m)
        end
      | progress probe_cases ]; cbn in *; done.
Qed.

Lemma fire_all_pids cs : ∀ p,
  dom (pr_pids p) ⊆ dom (pr_pids (fire_all cs p)) ∧
  (pids_max_entries ≤ Z.of_nat (size (pr_pids p)) → dom (pr_pids (fire_all cs p)) = dom (pr_pids p)).
Proof.
  induction cs as [|c cs IH]; intros p; [done|].
  change (fire_all (c :: cs) p) with (fire_all cs (fire c p)).
  destruct (IH (fire c p)) as [IH1 IH2], (fire_pids c p) as [Hc1 Hc2].
  split; [set_solver|]. intros Hfull. specialize (Hc2 Hfull).
  rewrite IH2, Hc2; [done|]. by rewrite <-size_dom, Hc2, size_dom.
Qed.

(** the table of tracked processes never gives an entry back (no probe
    removes one, not even when the process exits), and once its 1024 entries
    are used, no process forked later is ever tracked, whatever probes fire. *)
Theorem full_target_table_stuck p cs :
  dom (pr_pids p) ⊆ dom (pr_pids (fire_all cs p)) ∧
  (pids_max_entries ≤ Z.of_nat (size (pr_pids p)) → ∀ tgid task,
     pr_pids p !! tgid = None → tracked_task (fire_all cs p) tgid task = false).
Proof.
  destruct (fire_all_pids cs p) as [Hsub Hfull]. split; [done|]. intros Hs tgid task Hn.
  unfold tracked_task. specialize (Hfull Hs). apply not_elem_of_dom in Hn. rewrite <-Hfull in Hn.
  apply not_elem_of_dom in Hn. by rewrite Hn.
Qed.
Definition demo_full_pids : gmap Z affinitygraph_target :=
  list_to_map ((λ t, (t, mk_target 7 0)) <$> seqZ 7 1024).
Lemma full_target_table_stuck_witness :
  tracked_task (fire_all [Exit (mk_Task 8 8 5 "x" (Some 5)) 10 true;
      Fork 7 7 (demo_leader 7) (mk_Task 5000 5000 6 "y" (Some 6)) 11 true]
    (Probe_init demo_full_pids)) 5000 (mk_Task 5000 5000 6 "y" (Some 6)) = false.
Proof.
  refine (proj2 (full_target_table_stuck (Probe_init demo_full_pids) _) _ 5000 _ _).
  - vm_compute. discriminate.
  - vm_compute. reflexivity.
Defined.
