(* ===== verification/RuntimeEvents.v ===== *)
(** * The runtime's loop: events, health, reconciliation ([src/runtime.cpp])

    What the runtime's own thread does between solve windows: it applies the
    swapped-out BPF batch, judges the health samples, reconciles its threads
    with what the process collector sees, and runs the solver.

    [std::unordered_map] is visited in an order the library does not fix.  Where
    the order can be observed (sums of doubles, the order of observations) it is
    the parameter [order]; where it cannot (sets, erasing keys) keys are visited
    in ascending order. *)
From Stdlib Require Import SpecFloat.
From S2P Require Import Prelude Binary64 Core CpuList Actuator Topology DomainPlanner DomainSolver GraphWindow.
From S2P Require Import ThreadProfile Config ConfigProperties Hotspot Incremental IncrementalPropose.
From S2P Require Import Runtime RuntimeSolve BpfPending.
Local Open Scope string_scope.
Local Open Scope Z_scope.
Local Open Scope ag_scope.

(** [static_cast<int>] of a 32-bit unsigned. *)
Definition int_of_u32 (z : Z) : Z := if z <? 2 ^ 31 then z else z - 2 ^ 32.
Definition d1e9 : double := Eval vm_compute in double_of_Z (10 ^ 9).
Definition d1em6 : double := Eval vm_compute in dlit 1 (10 ^ 6).

(** The constructor: a zero interval samples every second. *)
Definition effective_sample_seconds (c : Config) : Z :=
  if sample_interval_seconds c =? 0 then 1 else sample_interval_seconds c.

Definition relations_order : Type :=
  gmap PendingRelationKey PendingRelationValue → list (PendingRelationKey * PendingRelationValue).

(** ** Loops *)
Fixpoint for_each {W A} (l : list A) (f : A → M W unit) : M W unit :=
  match l with [] => mret tt | x :: l' => _ ← f x; for_each l' f end.

(** [try m catch (const std::exception &) h] *)
Definition try_catch {W A} (m : M W A) (h : exn → M W A) : M W A := λ s,
  match m s with Thrown e s' => h e s' | o => o end.
Definition throw {W A} (e : exn) : M W A := λ s, Thrown e s.

Section events.
Context {W : Type} `{AffinityBackend W}.
Context (config : Config) (profile : option ThreadProfile) (log1p : double → double).
(** [module_offset] looks the address up in [/proc/<tgid>/maps]; the file [ProcMaps] models it. *)
Context (module_offset : Z → Z → string) (order : relations_order).

Definition static_profile : bool := static_profile_effective config profile.
Definition eff_seconds : double := double_of_Z (effective_sample_seconds config).

(** ** [handle_bpf_event] *)

(** Both start times are known and differ: the event is of another thread. *)
Definition other_thread (event_start record_start : Z) : bool :=
  negb (event_start =? 0) && negb (record_start =? 0) && negb (event_start =? record_start).

Definition aggregation_seconds (e : affinitygraph_bpf_event) : double :=
  if ev_resource e =? 0 then eff_seconds else dmax (double_of_Z (ev_resource e) / d1e9)%D d1em6.

Definition relation_observation (e : affinitygraph_bpf_event) (from peer : LifecycleRecord) :
    RelationObservation :=
  let futex := ev_kind e =? AFFINITYGRAPH_FUTEX in
  mk_RelationObservation (int_of_u32 (ev_tid e)) (int_of_u32 (ev_peer_tid e))
    (lc_proc_starttime from) (lc_proc_starttime peer) (ev_timestamp_ns e)
    (if futex then (double_of_Z (if (ev_value_ns e =? 0)%Z then 1 else ev_value_ns e) /
                    aggregation_seconds e)%D else d0)
    (if futex then d0 else (double_of_Z (ev_value_ns e) / d1e9 * eff_seconds /
                            aggregation_seconds e)%D) d1.

Definition observe_event (e : affinitygraph_bpf_event) (s : Runtime W) : Runtime W :=
  match rt_lifecycle s !! int_of_u32 (ev_tid e), rt_lifecycle s !! int_of_u32 (ev_peer_tid e) with
  | Some from, Some peer =>
      if other_thread (ev_start_time_ns e) (lc_bpf_start_time_ns from) ||
         other_thread (ev_peer_start_time_ns e) (lc_bpf_start_time_ns peer) then s
      else s ⟨ rt_graph := observe_relation (relation_observation e from peer) (rt_graph s) ⟩
  | _, _ => s
  end.

Definition fork_record (e : affinitygraph_bpf_event) : LifecycleRecord :=
  mk_LifecycleRecord (int_of_u32 (ev_tgid e)) (int_of_u32 (ev_parent_tgid e))
    (int_of_u32 (ev_parent_tid e)) (int_of_u32 (ev_tid e)) (ev_start_routine e) (ev_start_time_ns e) 0
    (ev_timestamp_ns e)
    (if ev_start_routine e =? 0 then "" else module_offset (int_of_u32 (ev_tgid e)) (ev_start_routine e))
    (ev_comm e) [].

Definition handle_bpf_event (e : affinitygraph_bpf_event) : M W unit :=
  if (ev_kind e =? AFFINITYGRAPH_FUTEX) || (ev_kind e =? AFFINITYGRAPH_VFS) then
    if static_profile then mret tt else with_lock (modify (observe_event e))
  else if ev_kind e =? AFFINITYGRAPH_TASK_FORK then thread_started (fork_record e)
  else if ev_kind e =? AFFINITYGRAPH_TASK_EXEC then
    with_lock (
      _ ← modify (λ s : Runtime W,
            s ⟨ rt_target_tgids := {[int_of_u32 (ev_tgid e)]} ∪ rt_target_tgids s ⟩);
      log "task_exec" "")
  else if ev_kind e =? AFFINITYGRAPH_TASK_EXIT then thread_exited (int_of_u32 (ev_tid e))
  else if ev_kind e =? AFFINITYGRAPH_TASK_RENAME then thread_renamed (int_of_u32 (ev_tid e)) (ev_comm e)
  else if ev_kind e =? AFFINITYGRAPH_AFFINITY then
    application_affinity (int_of_u32 (ev_peer_tid e)) (cpus_from_mask e)
  else mret tt.

(** ** [consume_pending_bpf] *)
Definition pair_id (left right : Z) : Z := Z.lor (Z.shiftl (Z.min left right) 32) (Z.max left right).
Definition pair_of (k : PendingRelationKey) : Z := pair_id (prk_tid k) (prk_peer_tid k).
Definition pair_first (pair : Z) : Z := Z.shiftr pair 32.
Definition pair_second (pair : Z) : Z := pair mod 2 ^ 32.

Section ingest.
(** [relation_duration_ns] *)
Context (duration : Z).
Definition batch_seconds : double := (double_of_Z duration / d1e9)%D.

Definition relation_weight (k : PendingRelationKey) (v : PendingRelationValue) : double :=
  if prk_kind k =? AFFINITYGRAPH_FUTEX then
    let rate := (double_of_Z (prv_value_ns v) / batch_seconds)%D in
    (dlit 7 10 * dmin (log1p rate / Config.sync_log_p95 config) d1)%D
  else
    let seconds := (double_of_Z (prv_value_ns v) / d1e9 * eff_seconds / batch_seconds)%D in
    (dlit 3 10 * dmin (log1p seconds / Config.share_log_p95 config) d1)%D.

Definition pair_weights (relations : list (PendingRelationKey * PendingRelationValue)) : gmap Z double :=
  foldl (λ m e, <[pair_of e.1 := (get_or d0 m (pair_of e.1) + relation_weight e.1 e.2)%D]> m) ∅ relations.
End ingest.

(** The pairs of every thread; a pair is listed at both of its threads. *)
Definition incident (weights : gmap Z double) : gmap Z (list (double * Z)) :=
  foldl (λ m e, push_back (pair_second e.1) (e.2, e.1) (push_back (pair_first e.1) (e.2, e.1) m)) ∅
    (items weights).

Definition heavier_pair (a b : double * Z) : bool := heavy_ltb a.1 a.2 b.1 b.2.
Definition top_pairs (candidates : list (double * Z)) : list Z :=
  (take (Z.to_nat (Config.hotspot_edges_per_thread config)) (std_sort heavier_pair candidates)).*2.

Definition retained_pairs (weights : gmap Z double) : gset Z :=
  if bool_decide (solver config = "numa-domain-v1") then dom weights
  else foldl (λ s (e : Z * list (double * Z)), list_to_set (top_pairs e.2) ∪ s) ∅
         (items (incident weights)).

Definition resident_relations (retained : gset Z) : gset (Z * Z) :=
  set_map (λ p, (int_of_u32 (pair_first p), int_of_u32 (pair_second p))) retained.

Definition relation_event (duration : Z) (k : PendingRelationKey) (v : PendingRelationValue) :
    affinitygraph_bpf_event :=
  mk_event (prk_kind k) (prk_tgid k) (prk_tid k) (prk_peer_tid k) 0 0 0 (prv_timestamp_ns v)
    (prk_start_time_ns k) (prk_peer_start_time_ns k) (prv_value_ns v) duration 0 "" zero_mask.

Definition is_exit (e : affinitygraph_bpf_event) : bool := ev_kind e =? AFFINITYGRAPH_TASK_EXIT.

(** The rest of [consume_pending_bpf], on the batch it swapped out: exits are
    kept for the end. *)
Definition ingest (b : Batch) : M W unit :=
  let duration := Z.max (bt_duration_ns b) (u64 (u64 (effective_sample_seconds config) * 1000000000)) in
  let relations := order (bt_relations b) in
  let retained := retained_pairs (pair_weights duration relations) in
  _ ← with_lock (modify (λ s : Runtime W,
        s ⟨ rt_graph := retain_relations (resident_relations retained) (rt_graph s) ⟩));
  _ ← for_each (filter (λ e, pair_of e.1 ∈ retained) relations)
        (λ e, handle_bpf_event (relation_event duration e.1 e.2));
  when (negb (bool_decide (relations = []))) (log "relation_ingest_summary" "").

Definition consume_batch (b : Batch) : M W unit :=
  _ ← for_each (filter (λ e, is_exit e = false) (bt_lifecycle b)) handle_bpf_event;
  _ ← ingest b;
  _ ← for_each (filter (λ e, is_exit e = true) (bt_lifecycle b)) handle_bpf_event;
  if negb (bt_lifecycle_overflow b =? 0) || negb (bt_relation_overflow b =? 0) then
    _ ← log "bpf_pending_overflow" ""; trigger_fatal "BPF user-space pending buffer overflow"
  else mret tt.

Definition consume_pending_bpf (clock : Z) (p : Pending) : M W Pending :=
  let '(b, p') := take_pending clock p in _ ← consume_batch b; mret p'.

(** ** [sample_bpf_health] *)
Definition health_window_ns : Z := 30000000000.

(** Samples before the window are dropped as long as the next one is outside it too. *)
Fixpoint trim_history (now : Z) (l : list (Z * BpfCounters)) : list (Z * BpfCounters) :=
  match l with
  | _ :: (((t, _) :: _) as rest) => if health_window_ns <=? u64_sub now t then trim_history now rest else l
  | _ => l
  end.

(** Counters that went back belong to another collector. *)
Definition regressed (c : BpfCounters) (l : list (Z * BpfCounters)) : bool :=
  match last l with
  | Some (_, b) => (bc_emitted c <? bc_emitted b) || (bc_dropped c <? bc_dropped b)
  | None => false
  end.

Definition loss_ratio (oldest newest : BpfCounters) : double :=
  let emitted := u64_sub (bc_emitted newest) (bc_emitted oldest) in
  let dropped := u64_sub (bc_dropped newest) (bc_dropped oldest) in
  let total := u64 (emitted + dropped) in
  if total =? 0 then d0 else (double_of_Z dropped / double_of_Z total)%D.

Definition health_ok (now : Z) (c : BpfCounters) (h : HealthWindow) : HealthWindow :=
  let history := trim_history now
    ((if regressed c (hw_history h) then [] else hw_history h) ++ [(now, c)])%list in
  match history with
  | [] => h
  | (t, oldest) :: _ =>
      mk_HealthWindow true history (health_window_ns <=? u64_sub now t) (loss_ratio oldest c) 0 0
  end.

Definition health_failed (now : Z) (h : HealthWindow) : HealthWindow :=
  mk_HealthWindow false (hw_history h) (hw_ready h) (hw_loss_ratio h) (hw_consecutive_failures h + 1)
    (if hw_failed_since_ns h =? 0 then now else hw_failed_since_ns h).

Definition health_lost (now : Z) (h : HealthWindow) : bool :=
  (3 <=? hw_consecutive_failures h) || (5000000000 <=? u64_sub now (hw_failed_since_ns h)).
Definition loss_fatal (h : HealthWindow) : bool := hw_ready h && (dlit 1 100 <=? hw_loss_ratio h)%D.

Definition update_health (f : HealthWindow → HealthWindow) : M W HealthWindow :=
  with_lock (
    _ ← modify (λ s : Runtime W, s ⟨ rt_health := f (rt_health s) ⟩); s ← get; mret (rt_health s)).

Definition judge_sample (x : PendingHealthSample) : M W unit :=
  let now := phs_timestamp_ns x in
  if phs_valid x then
    h ← update_health (health_ok now (phs_counters x));
    _ ← log "bpf_health" "";
    when (loss_fatal h) (trigger_fatal "30-second BPF loss ratio reached one percent")
  else
    h ← update_health (health_failed now);
    _ ← log "bpf_health" "";
    when (health_lost now h) (trigger_fatal "BPF health map unavailable").

Definition sample_bpf_health (now : Z) (p : Pending) : M W Pending :=
  let '(samples, latest, p') := take_health p in
  _ ← (if bool_decide (samples = []) then
         when (negb (latest =? 0) && (10000000000 <? u64_sub now latest))
           (trigger_fatal "BPF health worker stopped sampling")
       else for_each samples judge_sample);
  mret p'.

(** ** [reconcile_and_sample] *)

(** The records of the threads the collector saw first. *)
Definition fresh_record (x : ThreadSample) : LifecycleRecord :=
  let i := ts_identity x in
  mk_LifecycleRecord (tgid i) (tgid i) (tgid i) (tid i) 0 0 (starttime i) (ts_timestamp_ns x) ""
    (ts_comm x) [].
Definition with_starttime (x : ThreadSample) (r : LifecycleRecord) : LifecycleRecord :=
  mk_LifecycleRecord (lc_tgid r) (lc_parent_tgid r) (lc_parent_tid r) (lc_tid r) (lc_start_routine r)
    (lc_bpf_start_time_ns r) (starttime (ts_identity x)) (lc_created_ns r) (lc_start_symbol r)
    (lc_name r) (ts_allowed_cpus x).

(** The lifecycle record after the sample, and whether the inherited mask is noted. *)
Definition reconcile_record (x : ThreadSample) (life : option LifecycleRecord) :
    LifecycleRecord * bool :=
  match life with
  | None => (fresh_record x, true)
  | Some r =>
      if negb (lc_proc_starttime r =? 0) && negb (lc_proc_starttime r =? starttime (ts_identity x))
      then (fresh_record x, true)
      else if lc_proc_starttime r =? 0 then (with_starttime x r, true) else (r, false)
  end.

Definition with_record (x : ThreadSample) (r : LifecycleRecord) : ThreadSample :=
  mk_ThreadSample (ts_identity x) (ts_timestamp_ns x) (ts_runtime_ns x) (ts_runqueue_ns x)
    (ts_voluntary_switches x) (ts_involuntary_switches x) (ts_recent_cpu x) (ts_state x) (ts_comm x)
    (ts_cgroups x) (ts_allowed_cpus x) (lc_parent_tid r) (lc_start_routine r) (lc_start_symbol r).

(** What the loop over the samples collects for the profile. *)
Record ProfileBatch := mk_ProfileBatch {
  pb_masks : gmap Z (list Z);
  pb_live : gset Z;
  pb_new_matches : Z;
}.

Definition note_life (x : ThreadSample) (s : Runtime W) : Runtime W * LifecycleRecord :=
  let t := tid (ts_identity x) in
  let '(r, inherited) := reconcile_record x (rt_lifecycle s !! t) in
  let r := with_name (ts_comm x) r in
  let act := if inherited then note_inherited_mask (rt_actuator s) t (lc_parent_tid r) (ts_allowed_cpus x)
             else rt_actuator s in
  (s ⟨ rt_lifecycle := <[t := r]> (rt_lifecycle s) ⟩
     ⟨ rt_actuator := match rt_pending_application_masks s !! t with
                      | Some m => note_application_mask act t m
                      | None => act
                      end ⟩
     ⟨ rt_pending_application_masks := delete t (rt_pending_application_masks s) ⟩, r).

Definition match_profile (x : ThreadSample) (b : ProfileBatch) : M W ProfileBatch :=
  match profile with
  | None => mret b
  | Some p =>
      s ← get;
      let newly := bool_decide (ThreadProfile.assigned (rt_profile_state s) !! ts_identity x = None) in
      let '(assignment, st) := profile_assignment p x (rt_profile_state s) in
      _ ← modify (λ s : Runtime W, s ⟨ rt_profile_state := st ⟩);
      match assignment with
      | Some a =>
          if negb newly then mret b else
          let target := set_intersection (as_target_cpus a) (ts_allowed_cpus x) in
          if bool_decide (target = []) then
            _ ← log "profile_match" "empty_allowed_intersection"; mret b
          else
            _ ← log "profile_match" "";
            mret (mk_ProfileBatch (<[tid (ts_identity x) := target]> (pb_masks b))
                    ({[tid (ts_identity x)]} ∪ pb_live b) (pb_new_matches b + 1))
      | None => mret b
      end
  end.

(** The loop over the samples: the completed samples and the profile's batch. *)
Fixpoint reconcile_samples (samples : list ThreadSample) (b : ProfileBatch) :
    M W (list ThreadSample * ProfileBatch) :=
  match samples with
  | [] => mret ([], b)
  | x :: rest =>
      s ← get;
      let '(s', r) := note_life x s in
      _ ← modify (λ _, s');
      let x' := with_record x r in
      b' ← match_profile x' b;
      '(xs, b'') ← reconcile_samples rest b';
      mret (x' :: xs, b'')
  end.

(** The threads that were not seen are forgotten. *)
Definition drop_unseen (seen : gset Z) (s : Runtime W) : Runtime W :=
  let gone := set_items (dom (rt_lifecycle s) ∖ seen) in
  let s' := s ⟨ rt_lifecycle := filter (λ e, e.1 ∈ seen) (rt_lifecycle s) ⟩ in
  if static_profile then s' else
  s' ⟨ rt_current_plan := foldl (λ m t, delete t m) (rt_current_plan s) gone ⟩
     ⟨ rt_current_masks := foldl (λ m t, delete t m) (rt_current_masks s) gone ⟩
     ⟨ rt_domain_solver := foldl (λ d t, DomainSolver.remove_thread t d) (rt_domain_solver s) gone ⟩.

(** What the collector returns for a process: [None] when
    [/proc/<tgid>/task] does not exist. *)
Definition Collector : Type := Z → option (result (list ThreadSample)).

Fixpoint gather (collect : Collector) (targets : list Z) : M W (list ThreadSample * gset Z) :=
  match targets with
  | [] => mret ([], ∅)
  | g :: rest =>
      match collect g with
      | None => gather collect rest
      | Some (Throw e) => throw e
      | Some (Ok xs) =>
          _ ← when (negb static_profile) (log "numa_maps" "");
          '(ys, existing) ← gather collect rest;
          mret ((xs ++ ys)%list, {[g]} ∪ existing)
      end
  end.

Definition observe_samples (samples : list ThreadSample) : M W unit :=
  if static_profile then mret tt else
  s ← get;
  g ← lift (observe_threads samples (rt_graph s));
  modify (λ s : Runtime W, s ⟨ rt_graph := g ⟩).

Definition reconcile (samples : list ThreadSample) (existing : gset Z) : M W ProfileBatch :=
  with_lock (
    _ ← modify (λ s : Runtime W, s ⟨ rt_target_tgids := existing ⟩);
    '(xs, b) ← reconcile_samples samples (mk_ProfileBatch ∅ ∅ 0);
    _ ← modify (drop_unseen (list_to_set (tid ∘ ts_identity <$> samples)));
    _ ← observe_samples xs;
    mret b).

Definition apply_profile (b : ProfileBatch) : M W unit :=
  if bool_decide (pb_masks b = ∅) then mret tt else
  if bool_decide (mode config = Active) then
    _ ← actuator_apply (mk_PlacementDelta ∅ (pb_masks b)) (pb_live b);
    log "initial_affinity" ""
  else log "initial_affinity" (if bool_decide (mode config = Plan) then "shadow" else "observed").

(** A static profile stops sampling once no new thread matches. *)
Definition quiesce (clock : Z) (b : ProfileBatch) : M W unit :=
  s ← get;
  if (sample_interval_seconds config =? 0) && static_profile && negb (rt_sampling_stopped s) then
    if 0 <? pb_new_matches b
    then modify (λ s : Runtime W, s ⟨ rt_last_new_profile_match_ns := clock ⟩)
    else when (u64 (u64 (static_quiescence_seconds config) * 1000000000) <=?
               u64_sub clock (rt_last_new_profile_match_ns s))
           (_ ← modify (λ s : Runtime W, s ⟨ rt_sampling_stopped := true ⟩); log "sampling_stopped" "")
  else mret tt.

(** The handler: the policy is undone when the collector fails for long. *)
Definition collector_failed (failed_at checked_at : Z) (e : exn) : M W unit :=
  _ ← modify (λ s : Runtime W, s ⟨ rt_collector_failed_since_ns :=
        if rt_collector_failed_since_ns s =? 0 then failed_at else rt_collector_failed_since_ns s ⟩);
  _ ← log "collector_failure" "";
  s ← get;
  if (u64 (u64 (collector_failure_restore_seconds config) * 1000000000) <=?
      u64_sub checked_at (rt_collector_failed_since_ns s)) && negb (rt_paused s)
  then pause else mret tt.

(** [clock], [failed_at], [checked_at]: the three places that read the clock. *)
Definition reconcile_and_sample (collect : Collector) (clock failed_at checked_at : Z) : M W unit :=
  try_catch (
    targets ← with_lock (s ← get; mret (rt_target_tgids s));
    '(samples, existing) ← gather collect (set_items targets);
    if bool_decide (samples = []) then throw (runtime_error "no target task samples") else
    b ← reconcile samples existing;
    _ ← apply_profile b;
    _ ← quiesce clock b;
    modify (λ s : Runtime W, s ⟨ rt_collector_failed_since_ns := 0 ⟩))
    (collector_failed failed_at checked_at).
End events.

(** ** The constructor *)

(** A degraded collector, or a domain selector without BPF, only observes. *)
Definition effective_config (c : Config) (degraded bpf_reader : bool) : Config :=
  if degraded || (bool_decide (solver c = "numa-domain-v1") && negb bpf_reader)
  then ltac:(config_update c mode Observe) else c.

(** The members after construction, with the configuration they run under; the
    log starts after the lines that print the topology. *)
Definition construct {W} (c : Config) (profile : option ThreadProfile) (degraded bpf_reader : bool)
    (root_pid clock : Z) (w : W) : result (Config * Runtime W) :=
  let c' := effective_config c degraded bpf_reader in
  if (sample_interval_seconds c' =? 0) && negb (static_profile_effective c' profile)
  then Throw (runtime_error "sample_interval_seconds=0 requires a static thread profile")
  else Ok (c', mk_Runtime w Actuator_init (IncrementalSolver_init (bool_decide (mode c = Plan)))
    NumaDomainSolver_init
    (GraphWindow_init (graph_horizon_seconds c)
       (mk_Calibration (Config.activity_log_p95 c) (Config.sync_log_p95 c) (Config.share_log_p95 c)))
    ∅ ∅ {[root_pid]} ∅ ∅ ∅ false 0 0 HealthWindow_init (mk_AssignmentState ∅ ∅) 0 clock false ""
    (mk_ActionCounters 0 0 0 0 0) RestoreResult_init false false false []).

(** ** The loop of the runtime's thread ([run], [service_control_socket]) *)

(** A command read from the control socket, its white space removed. *)
Inductive Command := Status | PauseCommand | ResumeCommand | UnknownCommand.

(** What the outside world does during one iteration: the command of a client,
    the clock readings, what the BPF worker does before each swap of the pending
    buffers, and what the collector sees. *)
Record Iteration := mk_Iteration {
  it_command : option Command;
  it_now : Z;
  it_worker : list WorkerAction;
  it_consume_clock : Z;
  it_worker' : list WorkerAction;
  it_collect : Collector;
  it_quiesce_clock : Z;
  it_failed_at : Z;
  it_checked_at : Z;
}.

(** The pending buffers and the local [next_sample]. *)
Record LoopState := mk_LoopState { ls_pending : Pending; ls_next_sample : Z }.

Section run.
Context {W : Type} `{AffinityBackend W}.
Context (config : Config) (hardware : HardwareGraph) (profile : option ThreadProfile).
Context (bpf_reader : bool) (log1p : double → double).
Context (module_offset : Z → Z → string) (order : relations_order).

Definition service_control_socket (c : option Command) : M W unit :=
  match c with
  | Some PauseCommand => pause
  | Some ResumeCommand => resume
  | _ => mret tt
  end.

Definition scanning (s : Runtime W) : bool :=
  negb (rt_sampling_stopped s) || (0 <? static_scan_seconds config).

Definition sample_interval_ns (s : Runtime W) : Z :=
  u64 (u64 (if rt_sampling_stopped s then static_scan_seconds config
            else effective_sample_seconds config) * 1000000000).

(** The body of [if (scanning && now >= next_sample)]. *)
Definition scan (i : Iteration) (p : Pending) : M W LoopState :=
  let now := it_now i in
  p1 ← consume_pending_bpf config profile log1p module_offset order (it_consume_clock i)
         (foldl worker p (it_worker i));
  p2 ← (if bpf_reader then sample_bpf_health now (foldl worker p1 (it_worker' i)) else mret p1);
  _ ← reconcile_and_sample config profile (it_collect i) (it_quiesce_clock i) (it_failed_at i)
        (it_checked_at i);
  _ ← maybe_solve config hardware profile bpf_reader log1p now;
  s ← get;
  mret (mk_LoopState p2 (u64 (now + sample_interval_ns s))).

Definition iterate (l : LoopState) (i : Iteration) : M W LoopState :=
  _ ← service_control_socket (it_command i);
  s ← get;
  if scanning s && (ls_next_sample l <=? it_now i) then scan i (ls_pending l)
  else mret (mk_LoopState (foldl worker (foldl worker (ls_pending l) (it_worker i)) (it_worker' i))
               (ls_next_sample l)).

Fixpoint run (l : LoopState) (steps : list Iteration) : M W LoopState :=
  match steps with [] => mret l | i :: steps' => l' ← iterate l i; run l' steps' end.
End run.
