(* ===== verification/Supervisor.v ===== *)
(** * The supervisor ([src/affinity_run.cpp])

    [affinity-run]: the command line, the BPF session with the links it holds,
    the check of a configuration ([preflight]) and the supervision of a target
    process.  The operating system and libbpf are parameters: an [Env] holds the
    answer of every call, and a computation records, in order, the calls that
    have an effect.  Retries after [EINTR] are one call. *)
From Stdlib Require Import Ascii.
From S2P Require Import Prelude Core CpuList Topology Config ThreadProfile Collector Runtime RuntimeEvents BpfReader.
Local Open Scope string_scope.
Local Open Scope Z_scope.

(** ** [parse] *)
Record Arguments := mk_Arguments {
  ar_action : string;
  ar_config : string;
  ar_bpf_object : string;
  ar_user : string;
  ar_thread_profile : string;
  ar_profile_output : string;
  ar_experiment_id : string;
  ar_test_id : string;
  ar_cpus : string;
  ar_command : list string;
}.

(** The assignment of an option's value; [None] for an unknown option. *)
Definition set_option (a : Arguments) (arg value : string) : option Arguments :=
  let '(mk_Arguments action config object user profile output experiment test cpus command) := a in
  if bool_decide (arg = "--config")
  then Some (mk_Arguments action value object user profile output experiment test cpus command)
  else if bool_decide (arg = "--bpf-object")
  then Some (mk_Arguments action config value user profile output experiment test cpus command)
  else if bool_decide (arg = "--user")
  then Some (mk_Arguments action config object value profile output experiment test cpus command)
  else if bool_decide (arg = "--thread-profile")
  then Some (mk_Arguments action config object user value output experiment test cpus command)
  else if bool_decide (arg = "--profile-output")
  then Some (mk_Arguments action config object user profile value experiment test cpus command)
  else if bool_decide (arg = "--experiment-id")
  then Some (mk_Arguments action config object user profile output value test cpus command)
  else if bool_decide (arg = "--test-id")
  then Some (mk_Arguments action config object user profile output experiment value cpus command)
  else if bool_decide (arg = "--cpus")
  then Some (mk_Arguments action config object user profile output experiment test value command)
  else None.

Fixpoint parse_options (argv : list string) (a : Arguments) : result Arguments :=
  match argv with
  | [] => Ok a
  | arg :: rest =>
      if bool_decide (arg = "--")
      then Ok (mk_Arguments (ar_action a) (ar_config a) (ar_bpf_object a) (ar_user a)
                 (ar_thread_profile a) (ar_profile_output a) (ar_experiment_id a) (ar_test_id a)
                 (ar_cpus a) (ar_command a ++ rest))
      else match rest with
           | value :: rest' =>
               match set_option a arg value with
               | Some a' => parse_options rest' a'
               | None => Throw (runtime_error ("unknown or incomplete option: " +:+ arg))
               end
           | [] => Throw (runtime_error ("unknown or incomplete option: " +:+ arg))
           end
  end.

Definition usage : string :=
  "usage: affinity-run preflight|run --config PATH [--cpus LIST] [--thread-profile PATH] [--profile-output PATH] [--experiment-id ID] [--test-id ID] [--bpf-object PATH] [--user USER] [-- command ...]".

(** [argv] without the name of the program. *)
Definition parse (argv : list string) : result Arguments :=
  match argv with
  | [] => Throw (runtime_error usage)
  | action :: options =>
      a ← parse_options options (mk_Arguments action "" "" "" "" "" "" "" "" []);
      if bool_decide (ar_config a = "") then Throw (runtime_error "--config is required") else Ok a
  end.

Definition subset (requested available : list Z) : bool :=
  forallb (λ cpu, bool_decide (cpu ∈ available)) requested.

(** ** Calls with an effect, and computations that make them *)
Inductive Op :=
  | CreateLogDirectory | ChownLogDirectory
  | OpenObject | LoadObject | AttachProgram (link : nat) | AttachUprobe (link : nat)
  | DestroyLink (link : nat) | CloseObject
  | InitGroups | KeepCapabilities (keep : bool) | SetGid | SetUid | SetCapabilities (nice ptrace : bool)
  | ForkChild | RegisterTarget | ReleaseChild | KillChild | WaitChild
  | CheckAffinity | OpenReader | StartRuntime | WaitDescendants | StopRuntime
  | PrintLine (line : string) | PrintError (line : string).
#[export] Instance Op_eq_dec : EqDecision Op.
Proof. solve_decision. Defined.

Definition Ops (A : Type) : Type := list Op * result A.
Definition call (o : Op) (ok : bool) (e : exn) : Ops unit := ([o], if ok then Ok tt else Throw e).
Definition perform (o : Op) : Ops unit := ([o], Ok tt).
Definition raise {A} (e : exn) : Ops A := ([], Throw e).
Definition lift {A} (r : result A) : Ops A := ([], r).

#[export] Instance Ops_ret : MRet Ops := λ A a, ([], Ok a).
#[export] Instance Ops_bind : MBind Ops := λ A B f m,
  match m with
  | (t, Ok a) => ((t ++ (f a).1)%list, (f a).2)
  | (t, Throw e) => (t, Throw e)
  end.
(** [try { m } catch (...) { cleanup; throw; }] *)
Definition on_error {A} (m : Ops A) (cleanup : list Op) : Ops A :=
  match m with
  | (t, Ok a) => (t, Ok a)
  | (t, Throw e) => ((t ++ cleanup)%list, Throw e)
  end.
Definition op_when (b : bool) (m : Ops unit) : Ops unit := if b then m else mret tt.

(** ** Identities *)
Record Identity := mk_Identity { id_uid : Z; id_gid : Z; id_name : string }.

(** Entries of the user database and of the environment. *)
Record Users := mk_Users {
  us_euid : Z;
  us_egid : Z;
  us_by_name : string → option Identity;
  us_by_uid : Z → option string;
  us_sudo_uid : option string;
  us_sudo_gid : option string;
}.

(** [static_cast<uid_t>(std::stoul(text))] *)
Definition to_uid (text : string) : result Z := v ← stoull (chars text); Ok (v `mod` 2 ^ 32).

Definition resolve_identity (u : Users) (user : string) : result Identity :=
  if negb (bool_decide (user = "")) then
    match us_by_name u user with
    | Some i => Ok i
    | None => Throw (runtime_error ("unknown run user: " +:+ user))
    end
  else if negb (us_euid u =? 0)
  then Ok (mk_Identity (us_euid u) (us_egid u) (default "" (us_by_uid u (us_euid u))))
  else match us_sudo_uid u, us_sudo_gid u with
       | Some uid_text, Some gid_text =>
           uid ← to_uid uid_text;
           gid ← to_uid gid_text;
           Ok (mk_Identity uid gid (default "" (us_by_uid u uid)))
       | _, _ => Throw (runtime_error "root bootstrap requires --user outside sudo")
       end.

(** Which of the privilege calls succeed. *)
Record Privileges := mk_Privileges {
  pv_initgroups : bool;
  pv_keepcaps : bool;
  pv_setgid : bool;
  pv_setuid : bool;
  pv_capset : bool;
  pv_clearcaps : bool;
}.

(** The messages stop where the source appends [strerror(errno)]. *)
Definition drop_identity (euid : Z) (v : Privileges) (i : Identity) (nice ptrace : bool) : Ops bool :=
  if negb (euid =? 0) then mret false else
  _ ← op_when (negb (bool_decide (id_name i = "")))
        (call InitGroups (pv_initgroups v) (runtime_error "initgroups failed"));
  let retain := nice || ptrace in
  _ ← op_when retain (call (KeepCapabilities true) (pv_keepcaps v)
        (runtime_error "cannot retain supervisor capabilities"));
  _ ← call SetGid (pv_setgid v) (runtime_error "failed to drop bootstrap privileges");
  _ ← call SetUid (pv_setuid v) (runtime_error "failed to drop bootstrap privileges");
  _ ← op_when retain
        (_ ← call (SetCapabilities nice ptrace) (pv_capset v)
               (runtime_error "cannot configure supervisor capabilities");
         call (KeepCapabilities false) (pv_clearcaps v)
               (runtime_error "cannot configure supervisor capabilities"));
  mret nice.

(** ** The BPF session *)

(** libbpf's answers: whether it can be opened and which symbols it has, whether
    the object opens and loads, its programs (the section, and whether attaching
    the program succeeds), the descriptors of its maps, and for a library and an
    offset whether the entry and the return probe attach.  [lb_symbol] is the
    address [dlsym] finds in a library, [lb_self_maps] what [/proc/self/maps]
    then reads. *)
Record Libbpf := mk_Libbpf {
  lb_handle : bool;
  lb_has : string → bool;
  lb_open_file : bool;
  lb_load : bool;
  lb_programs : list (string * bool);
  lb_map_fd : string → Z;
  lb_uprobe : list ascii → Z → bool * bool;
  lb_symbol : list ascii → option Z;
  lb_self_maps : list ascii → list (list ascii);
}.

(** [LibbpfApi::open]: the reason it fails. *)
Definition libbpf_symbols : list string :=
  ["bpf_object__open_file"; "bpf_object__load"; "bpf_object__close"; "bpf_object__next_program";
   "bpf_program__section_name"; "bpf_program__attach"; "bpf_program__attach_uprobe_opts";
   "bpf_link__destroy"; "bpf_object__find_map_by_name"; "bpf_map__fd"; "libbpf_get_error"].
Definition api_open (b : Libbpf) : option string :=
  if negb (lb_handle b) then Some "libbpf.so.1 unavailable" else
  match find (λ name, negb (lb_has b name)) libbpf_symbols with
  | Some name => Some ("libbpf is missing " +:+ name)
  | None => None
  end.

(** The members of [BpfSession] that own something: [links_], the object, and
    the two probe programs. *)
Record Session := mk_Session {
  ss_links : list nat;
  ss_object : bool;
  ss_entry : bool;
  ss_return : bool;
  ss_next : nat;
}.
Definition Session_init : Session := mk_Session [] false false false 0.

(** The loop over the programs: the calls made, the session, and the section
    that could not be attached. *)
Fixpoint attach_programs (s : Session) (l : list (string * bool)) : list Op * Session * option string :=
  match l with
  | [] => ([], s, None)
  | (section, ok) :: l' =>
      if bool_decide (section = "uprobe")
      then attach_programs (mk_Session (ss_links s) (ss_object s) true (ss_return s) (ss_next s)) l'
      else if bool_decide (section = "uretprobe")
      then attach_programs (mk_Session (ss_links s) (ss_object s) (ss_entry s) true (ss_next s)) l'
      else if ok then
        let '(t, s', r) := attach_programs
          (mk_Session (ss_links s ++ [ss_next s]) (ss_object s) (ss_entry s) (ss_return s)
             (S (ss_next s))) l' in
        (AttachProgram (ss_next s) :: t, s', r)
      else ([], s, Some section)
  end.

Definition required_maps : list string :=
  ["pids"; "events"; "health"; "futex_aggregates"; "vfs_aggregates"].

(** [load_object]: the calls, the session, whether it succeeded and why. *)
Definition load_object (b : Libbpf) (s : Session) : list Op * Session * (bool * string) :=
  match api_open b with Some reason => ([], s, (false, reason)) | None =>
  if negb (lb_open_file b) then ([], s, (false, "cannot open BPF object"))
  else
    let s := mk_Session (ss_links s) true (ss_entry s) (ss_return s) (ss_next s) in
    if negb (lb_load b) then ([OpenObject; LoadObject], s, (false, "cannot load BPF object"))
    else
      let '(t, s', failed) := attach_programs s (lb_programs b) in
      let t := OpenObject :: LoadObject :: t in
      match failed with
      | Some section => (t, s', (false, "cannot attach BPF section " +:+ section))
      | None =>
          if existsb (λ name, lb_map_fd b name <? 0) required_maps then (t, s', (false, "BPF object is missing required data maps"))
          else (t, s', (true, "CO-RE programs loaded and attached with libbpf"))
      end
  end.

(** *** [resolve_symbol_offset] *)

(** [std::stoull(text, nullptr, 16)] of the hexadecimal fields of a maps line. *)
Definition hex_stoull (l : list ascii) : result Z :=
  let '(neg, body) := sign_of (drop_spaces l) in
  let body := match body with
              | "0"%char :: x :: ((d :: _) as rest) =>
                  if bool_decide (lower x = "x"%char) && is_hex d then rest else body
              | _ => body
              end in
  let digits := (span is_hex body).1 in
  if bool_decide (digits = []) then Throw (invalid_argument "stoull") else
  let v := hex_value digits in
  if 2 ^ 64 - 1 <? v then Throw (out_of_range "stoull") else Ok (if neg then u64 (- v) else v).

Fixpoint skip_blanks (l : list ascii) : list ascii :=
  match l with
  | c :: l' => if bool_decide (c = " "%char) then skip_blanks l' else l
  | [] => []
  end.

(** One line of [/proc/self/maps]: the file offset of [target], if the line maps
    it from [path]. *)
Definition mapping_offset (target : Z) (path : list ascii) (line : list ascii) : result (option Z) :=
  match split_first "-"%char line with
  | None => Ok None
  | Some (start_text, rest) =>
      match split_first " "%char rest with
      | None => Ok None
      | Some (end_text, rest) =>
          start ← hex_stoull start_text;
          last ← hex_stoull end_text;
          if (target <? start) || (last <=? target) then Ok None else
          match split_first "/"%char line with
          | None => Ok None
          | Some (_, tail) =>
              if negb (bool_decide ("/"%char :: tail = path)) then Ok None else
              match split_first " "%char (skip_blanks rest) with
              | None => Ok None
              | Some (_, rest) =>
                  match split_first " "%char (skip_blanks rest) with
                  | None => Ok None
                  | Some (offset_text, _) =>
                      offset ← hex_stoull offset_text;
                      Ok (Some (u64 (target - start + offset)))
                  end
              end
          end
      end
  end.

(** [symbol] is the address [dlsym] finds, [None] when the library cannot be
    opened or lacks the symbol; 0 means unresolved. *)
Fixpoint find_offset (target : Z) (path : list ascii) (maps : list (list ascii)) : result Z :=
  match maps with
  | [] => Ok 0
  | line :: maps' =>
      r ← mapping_offset target path line;
      match (r : option Z) with Some offset => Ok offset | None => find_offset target path maps' end
  end.
Definition resolve_symbol_offset (symbol : option Z) (path : list ascii) (maps : list (list ascii)) :
    result Z :=
  match symbol with None => Ok 0 | Some target => find_offset target path maps end.

(** The C libraries of a list of [/proc/<pid>/maps] lines, each once. *)
Definition contains (needle : string) (l : list ascii) : bool := is_set (find_text (chars needle) l).
Definition add_candidate (acc : list (list ascii)) (line : list ascii) : list (list ascii) :=
  match split_first "/"%char line with
  | None => acc
  | Some (_, rest) =>
      let path := "/"%char :: rest in
      if negb (contains "libc.so" path) && negb (contains "libpthread.so" path) then acc
      else if bool_decide (path ∈ acc) then acc else (acc ++ [path])%list
  end.
Definition uprobe_candidates (maps : list (list ascii)) : list (list ascii) :=
  foldl add_candidate [] maps.

(** The loop of [attach_pthread_uprobe] over the candidates: the calls, the
    session, and whether a library was attached to. *)
Fixpoint attach_candidates (b : Libbpf) (s : Session) (l : list (list ascii)) :
    list Op * Session * result bool :=
  match l with
  | [] => ([], s, Ok false)
  | path :: l' =>
      match resolve_symbol_offset (lb_symbol b path) path (lb_self_maps b path) with
      | Throw x => ([], s, Throw x)
      | Ok offset =>
          let '(entry, ret) := lb_uprobe b path offset in
          if negb entry then attach_candidates b s l'
          else
            let first := ss_next s in
            if negb ret then
              let '(t, s', r) := attach_candidates b
                (mk_Session (ss_links s) (ss_object s) (ss_entry s) (ss_return s) (S first)) l' in
              (AttachUprobe first :: DestroyLink first :: t, s', r)
            else
              ([AttachUprobe first; AttachUprobe (S first)],
               mk_Session (ss_links s ++ [first; S first]) (ss_object s) (ss_entry s) (ss_return s)
                 (S (S first)), Ok true)
      end
  end.
Inductive UprobeStatus := Unavailable | PendingProbe | Attached.
Definition attach_pthread_uprobe (b : Libbpf) (maps : list (list ascii)) (s : Session) :
    list Op * Session * result UprobeStatus :=
  if negb (ss_entry s) || negb (ss_return s) then ([], s, Ok Unavailable)
  else match uprobe_candidates maps with
       | [] => ([], s, Ok PendingProbe)
       | l => let '(t, s', r) := attach_candidates b s l in
              (t, s', attached ← r; Ok (if (attached : bool) then Attached else Unavailable))
       end.

(** [reset]: links are destroyed last first, then the object is closed. *)
Definition reset_session (s : Session) : list Op * Session :=
  (((DestroyLink <$> rev (ss_links s)) ++ if ss_object s then [CloseObject] else [])%list,
   mk_Session [] false false false (ss_next s)).

(** ** The target process *)
Definition EPERM : Z := 1.

(** How the forked child ends: in the target program, or with an exit code and
    the error it reports through the pipe. *)
Inductive ChildEnd :=
  | Executes
  | ExitsWith (code : Z) (reported : option Z).

(** The child's calls and its end.  [released]: it read the release byte;
    [exec_error]: what [execvp] fails with. *)
Definition child_process (euid : Z) (v : Privileges) (i : Identity) (released : bool)
    (exec_error : option Z) : list Op * ChildEnd :=
  if negb released then ([], ExitsWith 126 None) else
  let '(t, dropped) := drop_identity euid v i false false in
  (t, match dropped with
      | Throw _ => ExitsWith 127 (Some EPERM)
      | Ok _ => match exec_error with None => Executes | Some e => ExitsWith 127 (Some e) end
      end).

(** [waitpid]'s status of the child. *)
Inductive WaitStatus := Exited (code : Z) | Signaled (signal : Z) | OtherStatus.
Definition exit_code (s : WaitStatus) : Z :=
  match s with Exited code => code | Signaled signal => 128 + signal | OtherStatus => 1 end.

(** ** The environment *)
Record Env (W : Type) := mk_Env {
  (** [sched_getaffinity] of the supervisor *)
  en_affinity : option (Z → bool);
  en_users : Users;
  en_privileges : Privileges;
  (** the privilege calls of the child *)
  en_child_privileges : Privileges;
  en_exec_error : option Z;
  en_strerror : Z → string;
  en_kernel_release : string;
  en_log_created : bool;
  en_log_chowned : bool;
  en_kernel_btf : bool;
  en_object_exists : bool;
  en_libbpf_found : bool;
  en_libbpf : Libbpf;
  en_pipes : bool;
  en_fork : bool;
  en_registered : bool;
  en_released : bool;
  (** [/proc/<child>/maps] at each attempt to attach the uprobes *)
  en_child_maps : nat → list (list ascii);
  en_child_mask : list Z;
  en_mask_writable : bool;
  (** the ring buffer: type and size, and the two mappings *)
  en_ring_info : option (Z * Z);
  en_ring_mapped : bool * bool;
  (** the files: the configuration, the topology and its calibration, the log,
      the thread profile; then the threads it starts *)
  en_config_file : option string;
  en_variable : string → option string;
  en_discover : list Z → result HardwareGraph;
  en_calibration : option (list (list ascii));
  en_log_opened : result unit;
  en_profile_file : option string;
  en_workers : result unit;
  en_world : W;
  en_child_pid : Z;
  en_clock : Z;
  en_status : WaitStatus;
}.
Arguments mk_Env {_}.
Arguments en_affinity {_}. Arguments en_users {_}. Arguments en_privileges {_}.
Arguments en_child_privileges {_}. Arguments en_exec_error {_}. Arguments en_strerror {_}.
Arguments en_kernel_release {_}.
Arguments en_log_created {_}. Arguments en_log_chowned {_}. Arguments en_kernel_btf {_}.
Arguments en_object_exists {_}. Arguments en_libbpf_found {_}. Arguments en_libbpf {_}.
Arguments en_pipes {_}. Arguments en_fork {_}. Arguments en_registered {_}. Arguments en_released {_}.
Arguments en_child_maps {_}. Arguments en_child_mask {_}. Arguments en_mask_writable {_}.
Arguments en_ring_info {_}. Arguments en_ring_mapped {_}.
Arguments en_config_file {_}. Arguments en_variable {_}. Arguments en_discover {_}.
Arguments en_calibration {_}. Arguments en_log_opened {_}. Arguments en_profile_file {_}.
Arguments en_workers {_}. Arguments en_world {_}. Arguments en_child_pid {_}. Arguments en_clock {_}.
Arguments en_status {_}.

Section supervise.
Context {W : Type} (e : Env W).
Local Abbreviation euid := (us_euid (en_users e)).

Definition current_envelope : result (list Z) :=
  match en_affinity e with
  | Some mask => Ok (filter (λ cpu, mask cpu = true) (seqZ 0 CPU_SETSIZE))
  | None => Throw (runtime_error "sched_getaffinity failed")
  end.

(** The verdict and the reason. *)
Definition bpf_available (object : string) : bool * string :=
  if negb (en_kernel_btf e) then (false, "kernel BTF is missing")
  else if bool_decide (object = "") || negb (en_object_exists e)
  then (false, "compiled CO-RE object is missing")
  else if negb (euid =? 0) then (false, "bootstrap is not root")
  else if negb (en_libbpf_found e) then (false, "libbpf.so.1 is missing")
  else (true, "CO-RE object, kernel BTF, privilege, and libbpf available").

(** [bpf_available(...) && bpf.load_object(...)]: the session may own links and
    the object also when it is not ready. *)
Definition open_session (object : string) : list Op * Session * (bool * string) :=
  let '(available, reason) := bpf_available object in
  if negb available then ([], Session_init, (false, reason))
  else load_object (en_libbpf e) Session_init.

(** ** [preflight] *)
Definition read_config (a : Arguments) : result Config :=
  load_config (ar_config a) (en_config_file e) (ar_cpus a) (en_variable e "AFFINITY_CPUS")
    (en_variable e "AFFINITY_THREAD_PROFILE") (en_affinity e).

Definition what (x : exn) : string :=
  match x with logic_error s | runtime_error s | invalid_argument s | out_of_range s => s end.

Definition override (value current : string) : string :=
  if bool_decide (value = "") then current else value.

(** [ok] and [profile_static_effective] after the thread profile was checked. *)
Definition check_profile (c : Config) : Ops (bool * bool) :=
  if bool_decide (thread_profile_path c = "") then mret (true, false) else
  match load_thread_profile (thread_profile_path c) (en_profile_file e) (cpus c) with
  | Ok p =>
      let static := negb (bool_decide (placements p = [])) &&
                    (negb (dynamic c) || negb (dyn_enabled (profile_dynamic p))) in
      _ ← perform (PrintLine ("thread_profile: ok (" +:+
            text (print_int (Z.of_nat (length (placements p)))) +:+ " placement rule(s), " +:+
            (if static then "static" else "dynamic") +:+
            (if negb (dynamic c) && dyn_enabled (profile_dynamic p) then " (runtime.dynamic=false)" else "")
            +:+ ")"));
      mret (true, static)
  | Throw x =>
      _ ← perform (PrintLine ("thread_profile: fail (" +:+ what x +:+ ")"));
      mret (false, false)
  end.

Definition check_envelope (c : Config) (available : list Z) : Ops bool :=
  if negb (subset (cpus c) available) then
    _ ← perform (PrintLine ("cpu_envelope: fail (outside startup/cgroup mask " +:+
          format_cpu_list available +:+ ")"));
    mret false
  else
    h ← lift (en_discover e (cpus c));
    _ ← lift (load_calibration h (calibration_path c) (en_calibration e));
    _ ← perform (PrintLine ("cpu_envelope: ok (" +:+ format_cpu_list (cpus c) +:+ ")"));
    mret true.

(** The session lives for the check only. *)
Definition check_bpf (a : Arguments) (c : Config) : Ops bool :=
  let '(t, s, (bpf, reason)) := open_session (ar_bpf_object a) in
  _ ← ((t ++ (reset_session s).1)%list, Ok tt) : Ops unit;
  _ ← perform (PrintLine ("bpf: " +:+ (if bpf then "ok" else if bpf_required c then "fail" else "disabled")
        +:+ " (" +:+ reason +:+ ")"));
  mret bpf.

Definition check_sampling (c : Config) (static : bool) : Ops bool :=
  if sample_interval_seconds c =? 0 then
    if static then
      _ ← perform (PrintLine "sampling: ok (static profile; stops after quiescence)"); mret true
    else
      _ ← perform (PrintLine
            "sampling: fail (sample_interval_seconds=0 requires a static thread profile)");
      mret false
  else
    _ ← perform (PrintLine ("sampling: ok (every " +:+ text (print_int (sample_interval_seconds c))
          +:+ "s)"));
    mret true.

Definition preflight (a : Arguments) : Ops Z :=
  c ← lift (read_config a);
  let c := ltac:(config_update c thread_profile_path (override (ar_thread_profile a) (thread_profile_path c))) in
  available ← lift current_envelope;
  _ ← perform (PrintLine "config: ok");
  '(profile_ok, static) ← check_profile c;
  envelope_ok ← check_envelope c available;
  _ ← perform (PrintLine ("kernel: " +:+ en_kernel_release e));
  bpf ← check_bpf a c;
  _ ← perform (PrintLine ("pthread_uprobe: " +:+ if pthread_uprobe c then "auto" else "off"));
  sampling_ok ← check_sampling c static;
  let ok := (profile_ok : bool) && (envelope_ok : bool) && (sampling_ok : bool) &&
            negb (bpf_required c && negb bpf) in
  mret (if (ok : bool) then 0 else 1).

(** ** [supervise] *)
Definition effective_arguments (a : Arguments) (c : Config) : Config :=
  let c := ltac:(config_update c thread_profile_path (override (ar_thread_profile a) (thread_profile_path c))) in
  let c := ltac:(config_update c profile_output_path (override (ar_profile_output a) (profile_output_path c))) in
  let c := ltac:(config_update c Config.experiment_id (override (ar_experiment_id a) (Config.experiment_id c))) in
  ltac:(config_update c Config.test_id (override (ar_test_id a) (Config.test_id c))).

(** Everything before the BPF session is opened. *)
Definition prepare (a : Arguments) (c : Config) : Ops Identity :=
  available ← lift current_envelope;
  if negb (subset (cpus c) available)
  then raise (runtime_error "configured CPU envelope exceeds startup/cgroup affinity")
  else if bool_decide (ar_command a = []) then raise (runtime_error "run requires -- command ...")
  else
    identity ← lift (resolve_identity (en_users e) (ar_user a));
    _ ← op_when (negb (bool_decide (log_directory c = "")))
          (_ ← call CreateLogDirectory (en_log_created e)
                 (runtime_error ("cannot create log directory " +:+ log_directory c));
           op_when (euid =? 0)
             (call ChownLogDirectory (en_log_chowned e)
                (runtime_error ("cannot chown log directory " +:+ log_directory c))));
    mret identity.

(** From the fork to the moment the target executes. *)
Definition launch (c : Config) (identity : Identity) (ready : bool) (reason : string) : Ops unit :=
  if negb ready && bpf_required c
  then raise (runtime_error ("required BPF unavailable: " +:+ reason))
  else
    _ ← op_when (negb ready) (perform (PrintError ("affinity-run: BPF disabled: " +:+ reason)));
    if negb (en_pipes e)
    then raise (runtime_error "cannot create child synchronization pipes")
    else if negb (en_fork e) then raise (runtime_error "fork failed")
    else
      _ ← perform ForkChild;
      _ ← op_when ready (on_error
            (call RegisterTarget (en_registered e) (runtime_error "cannot initialize target TGID map"))
            [KillChild]);
      _ ← on_error (call ReleaseChild (en_released e) (runtime_error "cannot release target child"))
            [KillChild];
      match (child_process euid (en_child_privileges e) identity true (en_exec_error e)).2 with
      | ExitsWith _ (Some error) =>
          _ ← perform WaitChild;
          raise (runtime_error ("target exec failed: " +:+ en_strerror e error))
      | _ => mret tt
      end.

(** At most [n] attempts, as long as the C library is not mapped yet. *)
Fixpoint attach_uprobes (n attempt : nat) (s : Session) : list Op * Session * result unit :=
  match n with
  | O => ([], s, Ok tt)
  | S n' =>
      let '(t, s', status) := attach_pthread_uprobe (en_libbpf e) (en_child_maps e attempt) s in
      match status with
      | Throw x => (t, s', Throw x)
      | Ok PendingProbe =>
          let '(t', s'', r) := attach_uprobes n' (S attempt) s' in ((t ++ t')%list, s'', r)
      | Ok _ => (t, s', Ok tt)
      end
  end.

(** Dropping the bootstrap privileges, and the check that an active supervisor
    may still change the target's affinity. *)
Definition secure (c : Config) (identity : Identity) : Ops bool :=
  let active := bool_decide (mode c = Active) in
  on_error
    (capability ← drop_identity euid (en_privileges e) identity active true;
     _ ← op_when active (call CheckAffinity
           (negb (bool_decide (en_child_mask e = [])) && en_mask_writable e)
           (runtime_error "active supervisor affinity authority check failed"));
     mret capability)
    [KillChild; WaitChild].

(** [make_bpf_reader] and the constructor of the runtime. *)
Definition open_reader : Ops unit :=
  ([OpenReader],
   _ ← make_bpf_reader (lb_map_fd (en_libbpf e) "events") (en_ring_info e) (en_ring_mapped e).1
         (en_ring_mapped e).2 (en_strerror e 0);
   Ok tt).
Definition loaded_profile (c : Config) : option ThreadProfile :=
  if bool_decide (thread_profile_path c = "") then None
  else match load_thread_profile (thread_profile_path c) (en_profile_file e) (cpus c) with
       | Ok p => Some p
       | Throw _ => None
       end.
Definition runtime_constructor (c : Config) (ready : bool) : result unit :=
  h ← en_discover e (cpus c);
  _ ← load_calibration h (calibration_path c) (en_calibration e);
  _ ← en_log_opened e;
  _ ← construct c (loaded_profile c) (negb ready) ready (en_child_pid e) (en_clock e) (en_world e);
  en_workers e.
Definition start_runtime (c : Config) (ready : bool) : Ops unit :=
  _ ← op_when ready open_reader;
  _ ← lift (runtime_constructor c ready);
  perform StartRuntime.

(** Once the target executes: the uprobes, the privileges, the runtime, and the
    end of the target and its descendants. *)
Definition attend (c : Config) (identity : Identity) (ready : bool) : Ops Z :=
  _ ← secure c identity;
  _ ← start_runtime c ready;
  _ ← perform WaitChild;
  _ ← perform WaitDescendants;
  _ ← perform StopRuntime;
  mret (exit_code (en_status e)).

(** The attempts to attach the uprobes, if they are wanted. *)
Definition uprobes (c : Config) (ready : bool) (s : Session) : list Op * Session * result unit :=
  if ready && pthread_uprobe c then attach_uprobes 100 0 s else ([], s, Ok tt).

(** The part of [supervise] during which [bpf] is alive; its destructor resets
    the session however that part ends. *)
Definition with_session (c : Config) (identity : Identity) (s : Session) (ready : bool)
    (reason : string) : Ops Z :=
  match launch c identity ready reason with
  | (t, Throw x) => ((t ++ (reset_session s).1)%list, Throw x)
  | (t, Ok _) =>
      let '(t', s', r) := uprobes c ready s in
      let '(t'', r') := match r with
                        | Throw x => ([], Throw x)
                        | Ok _ => attend c identity ready
                        end in
      ((t ++ t' ++ t'' ++ (reset_session s').1)%list, r')
  end.

(** The session of a run: one that is not ready is reset at once. *)
Definition run_session (object : string) : list Op * Session * (bool * string) :=
  let '(opened, s, (ready, reason)) := open_session object in
  if (ready : bool) then (opened, s, (true, reason))
  else let '(closed, s') := reset_session s in ((opened ++ closed)%list, s', (false, reason)).

Definition supervise (a : Arguments) (config : Config) : Ops Z :=
  let c := effective_arguments a config in
  identity ← prepare a c;
  let '(t, s, (ready, reason)) := run_session (ar_bpf_object a) in
  _ ← (t, Ok tt) : Ops unit;
  with_session c identity s ready reason.

(** ** [main] *)
Definition main (argv : list string) : list Op * Z :=
  let '(t, r) :=
    (a ← lift (parse argv);
     if bool_decide (ar_action a = "preflight") then preflight a
     else if negb (bool_decide (ar_action a = "run"))
     then raise (runtime_error "action must be preflight or run")
     else c ← lift (read_config a); supervise a c) in
  match r with
  | Ok code => (t, code)
  | Throw x => ((t ++ [PrintError ("affinity-run: " +:+ what x)])%list, 2)
  end.
End supervise.
