(* ===== verification/SupervisorProperties.v ===== *)
(** * The supervisor: properties

    The command line, the protocol that every run of the supervisor follows, the
    privileges of the target, and what [preflight] tells about [run]. *)
From Stdlib Require Import Ascii.
From S2P Require Import Prelude Core CpuList Topology Config ThreadProfile Collector Runtime RuntimeEvents BpfReader Supervisor.
Local Open Scope string_scope.
Local Open Scope Z_scope.

(** ** The command line *)

(** The options of a record: every field that is set, then the command. *)
Definition option_words (name value : string) : list string :=
  if bool_decide (value = "") then [] else [name; value].
Definition render (a : Arguments) : list string :=
  (ar_action a :: option_words "--config" (ar_config a) ++ option_words "--bpf-object" (ar_bpf_object a) ++
   option_words "--user" (ar_user a) ++ option_words "--thread-profile" (ar_thread_profile a) ++
   option_words "--profile-output" (ar_profile_output a) ++
   option_words "--experiment-id" (ar_experiment_id a) ++ option_words "--test-id" (ar_test_id a) ++
   option_words "--cpus" (ar_cpus a) ++ ("--" :: ar_command a))%list.

(** A field that is written is assigned; one that is not keeps its empty value. *)
Lemma parse_option_words name value rest a a' :
  name ≠ "--" → set_option a name value = Some a' → (value = "" → a' = a) →
  parse_options (option_words name value ++ rest) a = parse_options rest a'.
Proof.
  intros Hn Hs Hv. unfold option_words. case_bool_decide as E.
  - rewrite (Hv E). done.
  - cbn [app parse_options]. rewrite bool_decide_false, Hs by done. done.
Qed.

(** the command line that spells out a set of arguments is parsed back to
    exactly these arguments, whatever the values are (also ["--"]). *)
Theorem parse_render (a : Arguments) : ar_config a ≠ "" → parse (render a) = Ok a.
Proof.
  destruct a as [action config object user profile output experiment test cpus command].
  simpl ar_config. intros Hc. unfold parse, render; cbn [ar_action ar_config ar_bpf_object ar_user ar_thread_profile
    ar_profile_output ar_experiment_id ar_test_id ar_cpus ar_command].
  do 8 (erewrite parse_option_words; [|done|reflexivity|by intros ->]).
  cbn. case_bool_decide; [|done]. cbn. by case_bool_decide.
Qed.

Definition demo_arguments : Arguments :=
  mk_Arguments "run" "a.toml" "" "db" "" "--" "" "" "0-3" ["mysqld"; "--cpus"].
Lemma parse_render_witness : parse (render demo_arguments) = Ok demo_arguments.
Proof. apply parse_render. done. Defined.

(** ** The protocol *)

(** What the supervisor owns at a point of a run: the links that are attached
    (the latest first), the loaded object, the target and whether it is
    registered with the probes, the privileges given up, the runtime. *)
Inductive ChildState := NoChild | Forked | Released | Killed | Reaped.
Definition child_is (a b : ChildState) : bool :=
  match a, b with
  | NoChild, NoChild | Forked, Forked | Released, Released | Killed, Killed | Reaped, Reaped => true
  | _, _ => false
  end.

Record Protocol := mk_Protocol {
  pr_links : list nat;
  pr_object : bool;
  pr_child : ChildState;
  pr_registered : bool;
  pr_group : bool;
  pr_user : bool;
  pr_runtime : bool;
}.
Definition Protocol_init : Protocol := mk_Protocol [] false NoChild false false false false.

(** The calls the protocol allows, and what they do to the state. *)
Definition allowed (o : Op) (p : Protocol) : option Protocol :=
  let '(mk_Protocol links object child registered group user runtime) := p in
  let when (b : bool) p := if b then Some p else None in
  match o with
  | CreateLogDirectory | ChownLogDirectory =>
      when (negb group && child_is NoChild child) p
  | OpenObject =>
      when (negb object && negb group) (mk_Protocol links true child registered group user runtime)
  | LoadObject => when object p
  | AttachProgram n =>
      when (object && negb group && child_is NoChild child && bool_decide (n ∉ links))
        (mk_Protocol (n :: links) object child registered group user runtime)
  | AttachUprobe n =>
      when (object && negb group && child_is Released child && bool_decide (n ∉ links))
        (mk_Protocol (n :: links) object child registered group user runtime)
  | DestroyLink n =>
      match links with
      | m :: links' => when (object && negb runtime && (n =? m)%nat)
          (mk_Protocol links' object child registered group user runtime)
      | [] => None
      end
  | CloseObject => when (object && negb runtime && bool_decide (links = []))
      (mk_Protocol links false child registered group user runtime)
  | InitGroups => when (negb group) p
  | KeepCapabilities keep => when (Bool.eqb keep (negb user)) p
  | SetGid => when (negb group) (mk_Protocol links object child registered true user runtime)
  | SetUid => when (group && negb user) (mk_Protocol links object child registered group true runtime)
  | SetCapabilities _ _ => when user p
  | ForkChild => when (child_is NoChild child)
      (mk_Protocol links object Forked registered group user runtime)
  | RegisterTarget => when (object && child_is Forked child)
      (mk_Protocol links object child true group user runtime)
  | ReleaseChild => when (child_is Forked child && (negb object || registered))
      (mk_Protocol links object Released registered group user runtime)
  | KillChild => when (child_is Forked child || child_is Released child)
      (mk_Protocol links object Killed registered group user runtime)
  | WaitChild => when (child_is Released child || child_is Killed child)
      (mk_Protocol links object Reaped registered group user runtime)
  | CheckAffinity => when (child_is Released child) p
  | OpenReader => when (object && child_is Released child) p
  | StartRuntime => when (child_is Released child && negb runtime)
      (mk_Protocol links object child registered group user true)
  | WaitDescendants => when (child_is Reaped child) p
  | StopRuntime => when (runtime && child_is Reaped child)
      (mk_Protocol links object child registered group user false)
  | PrintLine _ | PrintError _ => Some p
  end.
Fixpoint follows (t : list Op) (p : Protocol) : option Protocol :=
  match t with [] => Some p | o :: t' => p' ← allowed o p; follows t' p' end.

Lemma follows_app t t' p : follows (t ++ t')%list p = (p' ← follows t p; follows t' p').
Proof.
  revert p. induction t as [|o t IH]; intros p; cbn; [done|].
  destruct (allowed o p); cbn; [apply IH|done].
Qed.
Lemma follows_app_Some t t' p p' p'' :
  follows t p = Some p' → follows t' p' = Some p'' → follows (t ++ t')%list p = Some p''.
Proof. rewrite follows_app. by intros ->. Qed.

(** The state of the protocol while a session is held. *)
Definition holding (s : Session) (child : ChildState) (registered group user runtime : bool) : Protocol :=
  mk_Protocol (rev (ss_links s)) (ss_object s) child registered group user runtime.
(** Links are numbered below the next number, and belong to a loaded object. *)
Definition session_ok (s : Session) : Prop :=
  (∀ n, n ∈ ss_links s → (n < ss_next s)%nat) ∧ (ss_object s = false → ss_links s = []).

Lemma session_ok_init : session_ok Session_init.
Proof. split; [|done]. intros n H. by apply not_elem_of_nil in H. Qed.

Lemma session_ok_next s n :
  session_ok s → (ss_next s ≤ n)%nat →
  session_ok (mk_Session (ss_links s) (ss_object s) (ss_entry s) (ss_return s) n).
Proof. intros [H1 H2] Hn. split; cbn; [|done]. intros m Hm. specialize (H1 _ Hm). lia. Qed.

Lemma session_ok_fresh s n : session_ok s → (ss_next s ≤ n)%nat → n ∉ rev (ss_links s).
Proof. intros [H _] Hn Hin. apply list_elem_of_In, in_rev, list_elem_of_In in Hin. specialize (H _ Hin). lia. Qed.

Lemma attach_programs_follows l s t s' r registered user runtime :
  session_ok s → ss_object s = true → attach_programs s l = (t, s', r) →
  session_ok s' ∧ ss_object s' = true ∧
  follows t (holding s NoChild registered false user runtime) =
    Some (holding s' NoChild registered false user runtime).
Proof.
  revert s t s' r. induction l as [|[section ok] l IH]; intros s t s' r Hs Ho; cbn.
  { intros [= <- <- <-]. done. }
  case_bool_decide; [intros E; by apply IH in E|].
  case_bool_decide; [intros E; by apply IH in E|].
  destruct ok; [|by intros [= <- <- <-]].
  destruct (attach_programs _ l) as [[t1 s1] r1] eqn:E1. intros [= <- <- <-].
  apply IH in E1; [|split; cbn; [|by rewrite Ho]|done].
  - destruct E1 as (?&?&E1). split_and!; [done..|]. cbn. rewrite Ho; cbn.
    rewrite (bool_decide_true (ss_next s ∉ _)) by (apply session_ok_fresh; [done|lia]). cbn.
    rewrite <- E1. unfold holding; cbn. by rewrite rev_app_distr, Ho.
  - intros n [Hn|Hn%list_elem_of_singleton]%elem_of_app; [|lia]. apply Hs in Hn. lia.
Qed.

Lemma attach_candidates_follows b l s t s' r registered user :
  session_ok s → ss_object s = true → attach_candidates b s l = (t, s', r) →
  session_ok s' ∧ ss_object s' = true ∧
  follows t (holding s Released registered false user false) =
    Some (holding s' Released registered false user false).
Proof.
  revert s t s' r. induction l as [|path l IH]; intros s t s' r Hs Ho; cbn.
  { intros [= <- <- <-]. done. }
  destruct (resolve_symbol_offset _ _ _) as [offset|x]; [|by intros [= <- <- <-]].
  assert (Hf := session_ok_fresh s (ss_next s) Hs (le_n _)).
  destruct (lb_uprobe b path offset) as [[] []]; cbn; [| |by apply IH..].
  - intros [= <- <- <-]. split; [split; cbn; [|by rewrite Ho]|split; [done|]].
    + intros n [Hn%Hs|Hn]%elem_of_app; [lia|]. set_unfold in Hn. lia.
    + unfold holding; cbn. rewrite Ho, (bool_decide_true (ss_next s ∉ _)) by done. cbn.
      rewrite (bool_decide_true (S (ss_next s) ∉ _)); cbn; [by rewrite rev_app_distr|].
      apply not_elem_of_cons. split; [lia|]. apply session_ok_fresh; [done|lia].
  - destruct (attach_candidates b _ l) as [[t1 s1] r1] eqn:E1. intros [= <- <- <-].
    apply IH in E1 as (?&?&E1); [|apply session_ok_next; [done|lia]|done].
    split_and!; [done..|]. unfold holding; cbn. rewrite Ho, (bool_decide_true (ss_next s ∉ _)) by done. cbn.
    rewrite Nat.eqb_refl; cbn. revert E1. unfold holding; cbn. by rewrite Ho.
Qed.

Lemma attach_pthread_uprobe_follows b maps s t s' r registered user :
  session_ok s → ss_object s = true → attach_pthread_uprobe b maps s = (t, s', r) →
  session_ok s' ∧ ss_object s' = true ∧
  follows t (holding s Released registered false user false) =
    Some (holding s' Released registered false user false).
Proof.
  intros Hs Ho. unfold attach_pthread_uprobe.
  destruct (_ || _); [by intros [= <- <- <-]|].
  destruct (uprobe_candidates maps) as [|path l]; [by intros [= <- <- <-]|].
  destruct (attach_candidates b s _) as [[t1 s1] r1] eqn:E. intros [= <- <- <-].
  by eapply attach_candidates_follows.
Qed.

Lemma destroy_links_follows links object child registered group user :
  object = true →
  follows (DestroyLink <$> links) (mk_Protocol links object child registered group user false) =
    Some (mk_Protocol [] object child registered group user false).
Proof.
  intros ->. induction links as [|n links IH]; cbn; [done|]. by rewrite Nat.eqb_refl.
Qed.

(** A session that is reset owns nothing any more. *)
Lemma reset_follows s child registered group user :
  session_ok s →
  follows (reset_session s).1 (holding s child registered group user false) =
    Some (mk_Protocol [] false child registered group user false).
Proof.
  intros [_ Hs]. unfold reset_session, holding; cbn.
  destruct (ss_object s) eqn:Ho.
  - eapply follows_app_Some; [by apply destroy_links_follows|done].
  - by rewrite Hs.
Qed.

Lemma load_object_follows b t s ready reason registered user runtime :
  load_object b Session_init = (t, s, (ready, reason)) →
  session_ok s ∧ (ready = true → ss_object s = true) ∧
  follows t (holding Session_init NoChild registered false user runtime) =
    Some (holding s NoChild registered false user runtime).
Proof.
  unfold load_object. destruct (api_open b); [intros [= <- <- <- _]; auto using session_ok_init|].
  destruct (lb_open_file b); cbn; [|intros [= <- <- <- _]; auto using session_ok_init].
  assert (Hs : session_ok (mk_Session [] true false false 0)) by (split; [apply session_ok_init|done]).
  destruct (lb_load b); cbn; [|intros [= <- <- <- _]; done].
  destruct (attach_programs _ _) as [[t1 s1] r1] eqn:E1.
  apply (attach_programs_follows _ _ _ _ _ registered user runtime) in E1 as (?&?&E1); [|done..].
  assert (Hf : follows (OpenObject :: LoadObject :: t1)
    (holding Session_init NoChild registered false user runtime) =
    Some (holding s1 NoChild registered false user runtime)) by (by rewrite <- E1).
  destruct r1; [by intros [= <- <- <- _]|]. by case_match; intros [= <- <- <- _].
Qed.

(** *** The stages of a run *)
(** However [drop_identity] ends, the groups go before the user, and capabilities
    are set for the new user. *)
Lemma drop_identity_follows euid v i nice ptrace s child registered runtime :
  ∃ group user, follows (drop_identity euid v i nice ptrace).1
    (holding s child registered false false runtime) = Some (holding s child registered group user runtime).
Proof.
  unfold drop_identity, call, op_when, mbind, mret, Ops_bind, Ops_ret.
  destruct (negb (euid =? 0)); [by exists false, false|].
  destruct (negb _), (pv_initgroups v), (nice || ptrace), (pv_keepcaps v), (pv_setgid v), (pv_setuid v),
    (pv_capset v), (pv_clearcaps v); cbn; eauto.
Qed.

Section stages.
Context {W : Type} (e : Env W).

(** The target after [launch]. *)
Lemma launch_follows c identity ready reason s :
  ss_object s = ready →
  ∃ child registered,
    follows (launch e c identity ready reason).1 (holding s NoChild false false false false) =
      Some (holding s child registered false false false) ∧
    match (launch e c identity ready reason).2 with
    | Ok _ => child = Released
    | Throw _ => child = NoChild ∨ child = Killed ∨ child = Reaped
    end.
Proof.
  intros <-. unfold launch. generalize ((child_process (us_euid (en_users e)) (en_child_privileges e)
    identity true (en_exec_error e)).2). intros final.
  unfold call, perform, op_when, on_error, raise, mbind, mret, Ops_bind, Ops_ret, holding.
  destruct (negb (ss_object s) && bpf_required c); cbn; [by eauto|].
  destruct (ss_object s) eqn:Ho; cbn;
    (destruct (en_pipes e); cbn; [|by eauto]); (destruct (en_fork e); cbn; [|by eauto]).
  - destruct (en_registered e); cbn; [|by eauto 10]. destruct (en_released e); cbn; [|by eauto 10].
    destruct final as [|? []]; cbn; eauto 10.
  - destruct (en_released e); cbn; [|by eauto 10].
    destruct final as [|? []]; cbn; eauto 10.
Qed.

Lemma attach_uprobes_follows n attempt s t s' r registered user :
  session_ok s → ss_object s = true → attach_uprobes e n attempt s = (t, s', r) →
  session_ok s' ∧ ss_object s' = true ∧
  follows t (holding s Released registered false user false) =
    Some (holding s' Released registered false user false).
Proof.
  revert attempt s t s' r. induction n as [|n IH]; intros attempt s t s' r Hs Ho; cbn.
  { by intros [= <- <- <-]. }
  destruct (attach_pthread_uprobe _ _ s) as [[t1 s1] r1] eqn:E1.
  eapply attach_pthread_uprobe_follows in E1 as (Hs1&Ho1&E1); [|done..].
  destruct r1 as [[]|]; try (intros [= <- <- <-]; eauto; fail).
  destruct (attach_uprobes e n _ s1) as [[t2 s2] r2] eqn:E2. intros [= <- <- <-].
  apply IH in E2 as (?&?&E2); [|done..]. split_and!; [done..|]. eapply follows_app_Some; eauto.
Qed.
Lemma secure_follows c identity s registered :
  ∃ child group user,
    follows (secure e c identity).1 (holding s Released registered false false false) =
      Some (holding s child registered group user false) ∧
    match (secure e c identity).2 with Ok _ => child = Released | Throw _ => child = Reaped end.
Proof.
  unfold secure. set (active := bool_decide (mode c = Active)).
  destruct (drop_identity_follows (us_euid (en_users e)) (en_privileges e) identity active true s
    Released registered false) as (group&user&Hf).
  destruct (drop_identity _ _ _ _ _) as [t [capability|x]]; cbn in *.
  - destruct active; cbn.
    + destruct (_ && _); cbn; [exists Released|exists Reaped]; exists group, user; (split; [|done]).
      all: rewrite ?follows_app, Hf; done.
    + exists Released, group, user. by rewrite app_nil_r.
  - exists Reaped, group, user. split; [|done]. by rewrite follows_app, Hf.
Qed.

Lemma start_runtime_follows c s registered group user :
  follows (start_runtime e c (ss_object s)).1 (holding s Released registered group user false) =
    Some (holding s Released registered group user
            (match (start_runtime e c (ss_object s)).2 with Ok _ => true | Throw _ => false end)).
Proof.
  unfold start_runtime, open_reader, op_when, lift, mbind, Ops_bind, holding.
  destruct (ss_object s), (runtime_constructor e c _); cbn; repeat case_match; simplify_eq; done.
Qed.

(** How a run ends once the target executes. *)
Lemma attend_follows c identity s registered :
  ∃ child group user,
    follows (attend e c identity (ss_object s)).1 (holding s Released registered false false false) =
      Some (holding s child registered group user false) ∧
    match (attend e c identity (ss_object s)).2 with
    | Ok code => child = Reaped ∧ code = exit_code (en_status e)
    | Throw _ => child = match (secure e c identity).2 with Ok _ => Released | Throw _ => Reaped end
    end.
Proof.
  destruct (secure_follows c identity s registered) as (child&group&user&Hf&Hr).
  unfold attend. destruct (secure e c identity) as [t [capability|x]]; cbn in *; subst child;
    [|by exists Reaped, group, user].
  pose proof (start_runtime_follows c s registered group user) as Hs.
  destruct (start_runtime e c _) as [t' [[]|x]]; cbn in *.
  - exists Reaped, group, user. split; [|done]. rewrite follows_app, Hf; cbn. by rewrite follows_app, Hs.
  - exists Released, group, user. split; [|done]. by rewrite follows_app, Hf.
Qed.
(** The target executes, but the uprobes, the reader or the runtime then fail. *)
Definition late_failure (c : Config) (identity : Identity) (s : Session) (ready : bool)
    (reason : string) : Prop :=
  (launch e c identity ready reason).2 = Ok tt ∧
  ((∃ x, (uprobes e c ready s).2 = Throw x) ∨
   (uprobes e c ready s).2 = Ok tt ∧ (∃ capability, (secure e c identity).2 = Ok capability) ∧
   ∃ x, (start_runtime e c ready).2 = Throw x).

(** The end of the part of a run that holds a session. *)
Definition run_ends (child : ChildState) (r : result Z) (late : Prop) : Prop :=
  match r with
  | Ok code => child = Reaped ∧ code = exit_code (en_status e) ∧ ¬ late
  | Throw _ => child = Released ∧ late ∨ (child = NoChild ∨ child = Killed ∨ child = Reaped) ∧ ¬ late
  end.

Lemma uprobes_follow c s t s' r registered user :
  session_ok s → uprobes e c (ss_object s) s = (t, s', r) →
  session_ok s' ∧ ss_object s' = ss_object s ∧
  follows t (holding s Released registered false user false) =
    Some (holding s' Released registered false user false).
Proof.
  unfold uprobes. destruct (ss_object s) eqn:Ho; cbn [andb]; [|intros ? [= <- <- <-]; by rewrite Ho].
  destruct (pthread_uprobe c); [|intros ? [= <- <- <-]; by rewrite Ho].
  intros Hs E. by eapply attach_uprobes_follows in E.
Qed.

Lemma with_session_follows c identity s reason :
  session_ok s →
  ∃ child registered group user,
    follows (with_session e c identity s (ss_object s) reason).1 (holding s NoChild false false false false) =
      Some (mk_Protocol [] false child registered group user false) ∧
    run_ends child (with_session e c identity s (ss_object s) reason).2
      (late_failure c identity s (ss_object s) reason).
Proof.
  intros Hs. unfold with_session, late_failure.
  destruct (launch_follows c identity (ss_object s) reason s eq_refl) as (child&registered&Hl&Hr).
  destruct (launch e c identity _ reason) as [t [[]|x]]; cbn in *.
  2:{ exists child, registered, false, false. split; [by rewrite follows_app, Hl; apply reset_follows|].
      right. split; [done|]. by intros [? _]. }
  subst child. destruct (uprobes e c _ s) as [[t' s'] r] eqn:Eu.
  pose proof Eu as Eu'. apply (uprobes_follow _ _ _ _ _ registered false) in Eu' as (Hs'&Ho&Hu); [|done].
  destruct r as [[]|x]; cbn.
  - destruct (attend_follows c identity s' registered) as (child&group&user&Ha&Hend).
    rewrite Ho in Ha, Hend. destruct (attend e c identity _) as [t'' r'] eqn:Eat; cbn in *.
    exists child, registered, group, user. split.
    { rewrite follows_app, Hl; cbn. rewrite follows_app, Hu; cbn. rewrite follows_app, Ha; cbn.
      by apply reset_follows. }
    unfold attend in Eat. destruct (secure e c identity) as [t1 [cap|x]]; cbn in *.
    + destruct (start_runtime e c _) as [t2 [[]|x]]; cbn in *; simplify_eq; cbn.
      * naive_solver.
      * naive_solver.
    + simplify_eq; cbn. naive_solver.
  - exists Released, registered, false, false. split; [|by left; eauto].
    rewrite follows_app, Hl; cbn. rewrite follows_app, Hu; cbn. by apply reset_follows.
Qed.
Lemma prepare_follows a c : follows (prepare e a c).1 Protocol_init = Some Protocol_init.
Proof.
  unfold prepare, lift, call, op_when, raise, mbind, mret, Ops_bind, Ops_ret.
  destruct (current_envelope e); cbn; [|done].
  destruct (negb (subset _ _)); cbn; [done|]. case_bool_decide; cbn; [done|].
  destruct (resolve_identity _ _); cbn; [|done].
  destruct (us_euid (en_users e) =? 0), (bool_decide (log_directory c = "")), (en_log_created e),
    (en_log_chowned e); done.
Qed.

Lemma open_session_follows object t s ready reason :
  open_session e object = (t, s, (ready, reason)) →
  session_ok s ∧ (ready = true → ss_object s = true) ∧
  follows t Protocol_init = Some (holding s NoChild false false false false).
Proof.
  unfold open_session. destruct (bpf_available e object) as [[] r]; cbn.
  - apply load_object_follows.
  - intros [= <- <- <- <-]. auto using session_ok_init.
Qed.

Lemma run_session_follows object t s ready reason :
  run_session e object = (t, s, (ready, reason)) →
  session_ok s ∧ ss_object s = ready ∧
  follows t Protocol_init = Some (holding s NoChild false false false false).
Proof.
  unfold run_session. destruct (open_session e object) as [[t1 s1] [ready1 reason1]] eqn:E.
  apply open_session_follows in E as (Hs&Ho&Hf).
  destruct ready1; [intros [= <- <- <- <-]; by rewrite Ho|].
  pose proof (reset_follows s1 NoChild false false false Hs) as Hr.
  destruct (reset_session s1) as [t' s'] eqn:Er. intros [= <- <- <- <-].
  unfold reset_session in Er. injection Er as <- <-. cbn in *.
  split_and!; [split; cbn; [by intros n ?%not_elem_of_nil|done]|done|].
  rewrite follows_app, Hf. exact Hr.
Qed.

(** What [supervise] does after [prepare]. *)
Lemma supervise_follows a config :
  ∃ child registered group user,
    follows (supervise e a config).1 Protocol_init = Some (mk_Protocol [] false child registered group user false) ∧
    run_ends child (supervise e a config).2
      (∃ identity t s ready reason, (prepare e a (effective_arguments a config)).2 = Ok identity ∧
         run_session e (ar_bpf_object a) = (t, s, (ready, reason)) ∧
         late_failure (effective_arguments a config) identity s ready reason).
Proof.
  unfold supervise. pose proof (prepare_follows a (effective_arguments a config)) as Hp.
  set (c := effective_arguments a config) in *.
  destruct (prepare e a c) as [t0 [identity|x]]; cbn in *.
  2:{ exists NoChild, false, false, false. split; [done|]. right. split; [auto|]. naive_solver. }
  destruct (run_session e _) as [[t s] [ready reason]] eqn:E; cbn.
  apply run_session_follows in E as (Hs&<-&Hf).
  destruct (with_session_follows c identity s reason Hs) as (child&registered&group&user&Hw&Hr).
  exists child, registered, group, user. split.
  - rewrite follows_app, Hp; cbn. rewrite follows_app, Hf; cbn. done.
  - destruct (with_session e c identity s _ reason) as [? []]; cbn in *; naive_solver.
Qed.

Lemma check_profile_prints c p : follows (check_profile e c).1 p = Some p.
Proof. destruct p. unfold check_profile. by repeat case_match. Qed.
Lemma check_envelope_prints c available p : follows (check_envelope e c available).1 p = Some p.
Proof.
  destruct p. unfold check_envelope, lift, perform, mbind, mret, Ops_bind, Ops_ret.
  destruct (negb _); cbn; [done|]. destruct (en_discover e _); cbn; [|done].
  by destruct (load_calibration _ _ _).
Qed.
Lemma check_sampling_prints c static p : follows (check_sampling c static).1 p = Some p.
Proof. destruct p. unfold check_sampling. by repeat case_match. Qed.
(** The session of the check is given back. *)
Lemma check_bpf_follows a c : follows (check_bpf e a c).1 Protocol_init = Some Protocol_init.
Proof.
  unfold check_bpf. destruct (open_session e _) as [[t s] [ready reason]] eqn:E.
  apply open_session_follows in E as (Hs&_&Hf).
  unfold perform, mbind, mret, Ops_bind, Ops_ret. cbn [fst snd].
  rewrite !follows_app, Hf. cbn [mbind option_bind]. by rewrite reset_follows.
Qed.

Lemma follows_bind {A B} (m : Ops A) (f : A → Ops B) p :
  follows m.1 p = Some p → (∀ a, follows (f a).1 p = Some p) → follows (m ≫= f).1 p = Some p.
Proof. destruct m as [t [a|x]]; cbn; [|done]. intros Hm Hf. rewrite follows_app, Hm. apply Hf. Qed.

Lemma preflight_follows a : follows (preflight e a).1 Protocol_init = Some Protocol_init.
Proof.
  unfold preflight.
  repeat first [apply follows_bind; [|intros ?] | done | apply check_profile_prints
    | apply check_envelope_prints | apply check_sampling_prints | apply check_bpf_follows | case_match].
Qed.
End stages.

Section theorems.
Context {W : Type} (e : Env W).

(** C9: every run of [affinity-run], however it ends, follows the protocol: log
    directories are made before the privileges are given up, the target is
    registered with the probes before it is released, probes are attached under
    the bootstrap privileges and the groups go before the user; at the end every
    link that was attached has been destroyed once, the latest first, the object
    is closed and the runtime is stopped. *)
Theorem main_follows_protocol (argv : list string) :
  ∃ child registered group user,
    follows (main e argv).1 Protocol_init = Some (mk_Protocol [] false child registered group user false).
Proof.
  unfold main. destruct (parse argv) as [a|x]; cbn [lift mbind Ops_bind fst snd]; [|by repeat eexists].
  case_bool_decide.
  { pose proof (preflight_follows e a) as Hp. destruct (preflight e a) as [t [code|x]]; cbn in *;
      rewrite ?follows_app, Hp; by repeat eexists. }
  destruct (negb _); [by repeat eexists|].
  destruct (read_config e a) as [c|x]; cbn [lift mbind Ops_bind fst snd]; [|by repeat eexists].
  destruct (supervise_follows e a c) as (child&registered&group&user&Hf&_).
  exists child, registered, group, user.
  destruct (supervise e a c) as [t [code|x]]; cbn in *; rewrite ?follows_app, Hf; done.
Qed.

(** Where the target is when [supervise] is left. *)
Definition target_after (a : Arguments) (config : Config) : option ChildState :=
  pr_child <$> follows (supervise e a config).1 Protocol_init.

(** C10: a run that returns waited for the target and passes its exit code on; a
    run that throws leaves no target behind, killed or waited for if it was
    forked, unless the target already executes and the uprobes, the BPF reader
    or the runtime fail: then, and only then, it is abandoned while it runs. *)
Theorem target_abandoned_iff (a : Arguments) (config : Config) :
  match (supervise e a config).2 with
  | Ok code => target_after a config = Some Reaped ∧ code = exit_code (en_status e)
  | Throw _ =>
      (target_after a config = Some Released ↔
       ∃ identity t s ready reason,
         (prepare e a (effective_arguments a config)).2 = Ok identity ∧
         run_session e (ar_bpf_object a) = (t, s, (ready, reason)) ∧
         late_failure e (effective_arguments a config) identity s ready reason) ∧
      (target_after a config ≠ Some Released →
       target_after a config = Some NoChild ∨ target_after a config = Some Killed ∨
       target_after a config = Some Reaped)
  end.
Proof.
  unfold target_after. destruct (supervise_follows e a config) as (child&registered&group&user&->&Hr).
  cbn [fmap option_fmap option_map pr_child]. unfold run_ends in Hr.
  destruct (supervise e a config).2; [by destruct Hr as (->&->&_)|].
  destruct Hr as [[-> Hl]|[Hc Hn]]; [by split; [|intros []]|].
  split; [|destruct Hc as [->|Hc]; [by auto|]; destruct Hc as [-> | ->]; by auto].
  split; [|done]. intros [= ->]. destruct Hc as [?|Hc]; [done|]; by destruct Hc.
Qed.

Lemma Ops_bind_Ok {A B} (m : Ops A) (f : A → Ops B) b :
  (m ≫= f).2 = Ok b → ∃ x, m.2 = Ok x ∧ (f x).2 = Ok b.
Proof. destruct m as [t [x|x]]; cbn; [eauto|done]. Qed.

(** What each check has established. *)
Lemma check_profile_static c ok static :
  (check_profile e c).2 = Ok (ok, static) → static = static_profile_effective c (loaded_profile e c).
Proof.
  unfold check_profile, loaded_profile. case_bool_decide; [by intros [= _ <-]|].
  destruct (load_thread_profile _ _ _); by intros [= _ <-].
Qed.
Lemma check_envelope_Ok c available :
  (check_envelope e c available).2 = Ok true →
  subset (cpus c) available = true ∧
  ∃ h h', en_discover e (cpus c) = Ok h ∧ load_calibration h (calibration_path c) (en_calibration e) = Ok h'.
Proof.
  unfold check_envelope. destruct (subset _ _); [|done]. cbn [negb].
  intros (h&Hh&H)%Ops_bind_Ok. apply Ops_bind_Ok in H as (h'&Hh'&_). eauto.
Qed.
Lemma check_bpf_Ok a c :
  (check_bpf e a c).2 = Ok true → ∃ t s reason, run_session e (ar_bpf_object a) = (t, s, (true, reason)).
Proof.
  unfold check_bpf, run_session. destruct (open_session e _) as [[t s] [ready reason]].
  intros [= ->]. eauto.
Qed.
Lemma check_sampling_Ok c static :
  (check_sampling c static).2 = Ok true → (sample_interval_seconds c =? 0) && negb static = false.
Proof. unfold check_sampling. by destruct (_ =? _), static. Qed.
(** Degrading the mode changes nothing the constructor checks. *)
Lemma construct_succeeds c profile degraded reader pid clock (w : W) :
  (sample_interval_seconds c =? 0) && negb (static_profile_effective c profile) = false →
  ∃ r, construct c profile degraded reader pid clock w = Ok r.
Proof.
  intros H. unfold construct, effective_config. destruct (degraded || _); cbn zeta.
  - match goal with |- context [if ?b then Throw _ else _] =>
      replace b with false by (destruct profile; symmetry; exact H) end. eauto.
  - rewrite H. eauto.
Qed.

(** when [preflight] accepts, [run] with the same arguments passes its own
    checks of the CPU envelope and of the required probes, and the runtime can
    only fail to start on its log or its threads. *)
Theorem preflight_predicts (a : Arguments) :
  (preflight e a).2 = Ok 0 →
  ∃ c available, read_config e a = Ok c ∧ current_envelope e = Ok available ∧
    let c' := effective_arguments a c in
    subset (cpus c') available = true ∧
    (bpf_required c' = true → ∃ t s reason, run_session e (ar_bpf_object a) = (t, s, (true, reason))) ∧
    ∀ ready, runtime_constructor e c' ready = (_ ← en_log_opened e; en_workers e).
Proof.
  unfold preflight. intros (c&Hc&H)%Ops_bind_Ok. cbn zeta in H.
  apply Ops_bind_Ok in H as (available&Ha&H). apply Ops_bind_Ok in H as ([]&_&H).
  apply Ops_bind_Ok in H as ([profile_ok static]&Hp&H).
  apply Ops_bind_Ok in H as (envelope_ok&He&H). apply Ops_bind_Ok in H as ([]&_&H).
  apply Ops_bind_Ok in H as (bpf&Hb&H). apply Ops_bind_Ok in H as ([]&_&H).
  apply Ops_bind_Ok in H as (sampling_ok&Hs&H). cbn in H.
  destruct (_ && _) eqn:E in H; [|done].
  apply andb_true_iff in E as [[[-> ->]%andb_true_iff ->]%andb_true_iff E].
  apply check_envelope_Ok in He as [He (h&h'&Hh&Hh')]. apply check_sampling_Ok in Hs.
  apply check_profile_static in Hp. subst static.
  exists c, available. split; [done|]. split; [done|]. split; [exact He|]. split.
  - intros Hreq. cbn in Hreq, E. rewrite Hreq in E. destruct bpf; [|done]. by apply check_bpf_Ok in Hb.
  - intros ready. unfold runtime_constructor. cbn in Hh, Hh'. cbn. rewrite Hh; cbn. rewrite Hh'; cbn.
    destruct (en_log_opened e); cbn; [|done].
    destruct (construct_succeeds (effective_arguments a c) (loaded_profile e (effective_arguments a c))
      (negb ready) ready (en_child_pid e) (en_clock e) (en_world e)) as [r Hr]; [exact Hs|].
    rewrite Hr. done.
Qed.
End theorems.

(** *** The target's privileges *)

(** under a root bootstrap the target program runs only after the groups of
    the user were set, then its group and its user, each successfully, and no
    capability was kept. *)
Theorem target_runs_unprivileged (v : Privileges) (i : Identity) (released : bool)
    (exec_error : option Z) (t : list Op) :
  child_process 0 v i released exec_error = (t, Executes) →
  released = true ∧ pv_setgid v = true ∧ pv_setuid v = true ∧
  t = ((if bool_decide (id_name i = "") then [] else [InitGroups]) ++ [SetGid; SetUid])%list ∧
  (id_name i ≠ "" → pv_initgroups v = true).
Proof.
  unfold child_process, drop_identity, call, op_when, mbind, mret, Ops_bind, Ops_ret.
  destruct released; [|done]. cbn [negb Z.eqb orb].
  destruct (pv_initgroups v), (pv_setgid v), (pv_setuid v); case_bool_decide; cbn;
    destruct exec_error; intros [= <-]; done.
Qed.
Lemma target_runs_unprivileged_witness :
  child_process 0 (mk_Privileges true true true true true true) (mk_Identity 27 27 "mysql") true None =
    ([InitGroups; SetGid; SetUid], Executes) ∧ [InitGroups; SetGid; SetUid] = [InitGroups; SetGid; SetUid].
Proof.
  split; [reflexivity|].
  destruct (target_runs_unprivileged (mk_Privileges true true true true true true)
    (mk_Identity 27 27 "mysql") true None [InitGroups; SetGid; SetUid]) as (_&_&_&Ht&_); [reflexivity|].
  exact Ht.
Defined.

(** *** A small machine *)
Definition demo_libbpf : Libbpf :=
  mk_Libbpf true (λ _, true) true true [("tp_btf/sched_switch", true); ("tp_btf/sched_wakeup", true)]
    (λ _, 5) (λ _ _, (true, true)) (λ _, None) (λ _, []).
Definition demo_env (toml : string) : Env unit :=
  mk_Env (Some (λ cpu, cpu <? 4)) (mk_Users 0 0 (λ _, Some (mk_Identity 27 27 "mysql")) (λ _, None) None None)
    (mk_Privileges true true true true true true) (mk_Privileges true true true true true true) None
    (λ _, "error") "6.8.0" true true true true true demo_libbpf true true true true (λ _, []) [0; 1] true
    (Some (27, 4096)) (true, true) (Some toml) (λ _, None)
    (λ l, Ok (mk_HardwareGraph ((λ id, mk_Cpu id 0 true) <$> l) ∅ ∅ ∅)) None (Ok tt) None (Ok tt) tt
    1234 0 (Exited 3).
Definition demo_line (action : string) : list string :=
  [action; "--config"; "a.toml"; "--cpus"; "0-1"; "--bpf-object"; "ag.o"; "--user"; "mysql"; "--"; "mysqld"].
Definition demo_run (action : string) : Arguments :=
  mk_Arguments action "a.toml" "ag.o" "mysql" "" "" "" "" "0-1" ["mysqld"].

Lemma preflight_predicts_witness :
  (preflight (demo_env "") (demo_run "preflight")).2 = Ok 0 ∧
  ∃ c, read_config (demo_env "") (demo_run "preflight") = Ok c.
Proof.
  assert (H : (preflight (demo_env "") (demo_run "preflight")).2 = Ok 0) by (vm_compute; reflexivity).
  split; [exact H|].
  destruct (preflight_predicts (demo_env "") (demo_run "preflight") H) as (c&_&Hc&_). by exists c.
Defined.

(** The whole run of a target that exits with 3. *)
Example demo_run_trace :
  main (demo_env "") (demo_line "run") =
    ([CreateLogDirectory; ChownLogDirectory; OpenObject; LoadObject; AttachProgram 0; AttachProgram 1;
      ForkChild; RegisterTarget; ReleaseChild; InitGroups; KeepCapabilities true; SetGid; SetUid;
      SetCapabilities false true; KeepCapabilities false; OpenReader; StartRuntime; WaitChild;
      WaitDescendants; StopRuntime; DestroyLink 1; DestroyLink 0; CloseObject], 3).
Proof. vm_compute. reflexivity. Qed.

(** a configuration that samples never, without a static profile, is refused
    by [preflight] but not by [run] before it forks: the target is released and
    executes, the constructor of the runtime throws, and [supervise] is left with
    the target running unsupervised. *)
Theorem zero_interval_abandons_target :
  let e := demo_env "[runtime]
sample_interval_seconds = 0
" in
  (main e (demo_line "preflight")).2 = 1 ∧ (main e (demo_line "run")).2 = 2 ∧
  pr_child <$> follows (main e (demo_line "run")).1 Protocol_init = Some Released.
Proof. vm_compute. done. Qed.
