(* ===== verification/ProcMaps.v ===== *)
(** * Addresses and mappings ([module_offset] of [src/runtime.cpp])

    Both the runtime and the supervisor look an address up in [/proc/<pid>/maps],
    with two different parsers.  This file models the runtime's, and shows that on
    the lines the kernel writes both find the mapping and the same file offset. *)
From Stdlib Require Import Ascii.
From S2P Require Import Prelude Core CpuList Topology Supervisor.
Local Open Scope string_scope.
Local Open Scope Z_scope.
Local Open Scope list_scope.

(** ** [sscanf(line, "%llx-%llx %4s %llx %*s %*s %n", ...)] *)

(** [%llx]: blanks, a sign and [0x] are accepted; a value that does not fit is the
    largest one. *)
Definition hex_body (l : list ascii) : list ascii :=
  match l with
  | z :: x :: rest => if bool_decide (z = "0"%char) && bool_decide (lower x = "x"%char) then rest else l
  | _ => l
  end.
Definition scan_hex (l : list ascii) : option (Z * list ascii) :=
  let '(neg, body) := sign_of (drop_spaces l) in
  let '(digits, rest) := span is_hex (hex_body body) in
  if bool_decide (digits = []) then None else
  let v := hex_value digits in
  Some (if 2 ^ 64 - 1 <? v then 2 ^ 64 - 1 else if (neg : bool) then u64 (- v) else v, rest).
Definition scan_char (c : ascii) (l : list ascii) : option (list ascii) :=
  match l with d :: l' => if bool_decide (d = c) then Some l' else None | [] => None end.
(** [%*s], and [%4s] with a limit *)
Definition scan_word (limit : option nat) (l : list ascii) : option (list ascii) :=
  let l := drop_spaces l in
  let word := (span (λ c, negb (isspace c)) l).1 in
  if bool_decide (word = []) then None
  else Some (drop (match limit with Some n => min n (length word) | None => length word end) l).

(** The bounds, the offset and [line.substr(consumed)]; [None] when fewer than four
    conversions succeed.  [consumed] stays 0 when [%n] is not reached. *)
Definition scan_maps (line : list ascii) : option (Z * Z * Z * list ascii) :=
  '(first, l) ← scan_hex line;
  l ← scan_char "-"%char l;
  '(last, l) ← scan_hex l;
  l ← scan_word (Some 4%nat) l;
  '(offset, l) ← scan_hex l;
  let tail := l ← scan_word None l; l ← scan_word None l; Some (drop_spaces l) in
  Some (first, last, offset, default line tail).

(** ** [module_offset] *)
Definition hex_char (d : Z) : ascii := if d <? 10 then digit_char d else ascii_of_N (Z.to_N (87 + d)).
Fixpoint hex_digits (fuel : nat) (n : Z) (acc : list ascii) : list ascii :=
  match fuel with
  | O => acc
  | S f => let acc' := hex_char (n `mod` 16) :: acc in
           if n `div` 16 =? 0 then acc' else hex_digits f (n `div` 16) acc'
  end.
(** [out << std::hex << value] *)
Definition print_hex (n : Z) : list ascii := hex_digits (Z.to_nat (Z.log2 n) + 1) n [].

Definition located (path : list ascii) (relative : Z) : list ascii :=
  let path := skip_blanks path in
  (if bool_decide (path = []) then chars "anonymous" else path) ++ chars "+0x" ++ print_hex relative.
Fixpoint module_offset_in (maps : list (list ascii)) (address : Z) : list ascii :=
  match maps with
  | [] => chars "0x" ++ print_hex address
  | line :: maps' =>
      match scan_maps line with
      | None => module_offset_in maps' address
      | Some (first, last, offset, path) =>
          if (address <? first) || (last <=? address) then module_offset_in maps' address
          else located path (u64 (u64 (address - first) + offset))
      end
  end.
(** [proc_maps]: the lines of the file, [None] when it cannot be opened. *)
Definition module_offset (proc_maps : Z → option (list (list ascii))) (tgid address : Z) : string :=
  if address =? 0 then "" else text (module_offset_in (default [] (proc_maps tgid)) address).

Example module_offset_example :
  let maps := chars <$> ["55d0c2a00000-55d0c2a21000 r-xp 00002000 08:02 1573 /usr/bin/app";
                         "7f12000000-7f12021000 rw-p 00000000 00:00 0 "] in
  (module_offset (λ _, Some maps) 7 94355106826768, module_offset (λ _, Some maps) 7 545762837760,
   module_offset (λ _, Some maps) 7 255, module_offset (λ _, None) 7 255) =
  ("/usr/bin/app+0x2a10", "anonymous+0x500", "0xff", "0xff").
Proof. vm_compute. reflexivity. Qed.

(** ** Hexadecimal numbers are read back *)
Lemma hex_char_spec d : 0 ≤ d < 16 → is_hex (hex_char d) = true ∧ hex_val (hex_char d) = d.
Proof.
  intros Hd. assert (H : Forall (λ d, is_hex (hex_char d) = true ∧ hex_val (hex_char d) = d) (seqZ 0 16)).
  { vm_compute. by repeat constructor. }
  rewrite Forall_forall in H. apply H, elem_of_seqZ. lia.
Qed.
Lemma is_hex_not_x c : is_hex c = true → lower c ≠ "x"%char.
Proof.
  unfold is_hex. intros [H|H]%orb_true_iff E; [|by rewrite E in H].
  revert E. unfold lower. unfold isdigit in H. destruct ((65 <=? code c) && (code c <=? 90)) eqn:E2; [lia|].
  intros ->. by vm_compute in H.
Qed.
Lemma is_hex_other c d : is_hex c = true → is_hex d = false → c ≠ d.
Proof. congruence. Qed.
Lemma is_hex_space c : is_hex c = true → isspace c = false.
Proof.
  unfold is_hex. intros [H|H]%orb_true_iff; [by apply isdigit_not_space|]. unfold lower, isspace in *.
  destruct ((65 <=? code c) && (code c <=? 90)) eqn:E; lia.
Qed.
Abbreviation hex_text := (Forall (λ c, is_hex c = true)).
Lemma hex_digits_hex fuel n acc : hex_text acc → hex_text (hex_digits fuel n acc).
Proof.
  revert n acc. induction fuel as [|fuel IH]; intros n acc Hacc; cbn; [done|].
  assert (hex_text (hex_char (n `mod` 16) :: acc)).
  { constructor; [|done]. apply hex_char_spec, Z.mod_pos_bound. lia. }
  destruct (_ =? _); auto.
Qed.
Lemma hex_digits_value fuel n acc :
  0 ≤ n < 16 ^ Z.of_nat fuel →
  hex_value (hex_digits fuel n acc) = foldl (λ v c, v * 16 + hex_val c) n acc.
Proof.
  unfold hex_value. revert n acc. induction fuel as [|fuel IH]; intros n acc Hn; cbn [hex_digits].
  { cbn in Hn. by replace n with 0 by lia. }
  destruct (hex_char_spec (n `mod` 16)) as [_ Hv]; [apply Z.mod_pos_bound; lia|].
  pose proof (Z.div_mod n 16 ltac:(lia)). destruct (Z.eqb_spec (n `div` 16) 0) as [E|E].
  - cbn [foldl]. rewrite Hv. f_equal. lia.
  - rewrite IH; [cbn [foldl]; rewrite Hv; f_equal; lia|].
    rewrite Nat2Z.inj_succ, Z.pow_succ_r in Hn by lia. split; [apply Z.div_pos; lia|]. apply Z.div_lt_upper_bound; lia.
Qed.
Lemma hex_digits_nonempty fuel n acc : acc ≠ [] → hex_digits fuel n acc ≠ [].
Proof.
  revert n acc. induction fuel as [|fuel IH]; intros n acc Hacc; cbn; [done|]. destruct (_ =? _); [done|]. by apply IH.
Qed.
(** [%0<w>lx] *)
Definition padded (w : nat) (n : Z) : list ascii := replicate (w - length (print_hex n)) "0"%char ++ print_hex n.
Lemma padded_spec w n : 0 ≤ n →
  hex_text (padded w n) ∧ hex_value (padded w n) = n ∧ padded w n ≠ [].
Proof.
  intros Hn. unfold padded. set (k := (w - _)%nat). clearbody k. unfold print_hex. split_and!.
  - apply Forall_app. split; [by apply Forall_replicate|]. apply hex_digits_hex. constructor.
  - assert (E : ∀ l, hex_value (replicate k "0"%char ++ l) = hex_value l).
    { intros l. induction k as [|k IH]; [done|]. exact IH. }
    rewrite E, hex_digits_value; [done|]. split; [done|].
    apply Z.lt_le_trans with (2 ^ Z.of_nat (Z.to_nat (Z.log2 n) + 1)); [|apply Z.pow_le_mono_l; lia].
    destruct (decide (n = 0)) as [->|]; [cbn; lia|].
    rewrite Nat2Z.inj_add, Z2Nat.id by apply Z.log2_nonneg. apply Z.log2_spec. lia.
  - rewrite Nat.add_1_r. cbn. intros [_ H]%app_eq_nil. revert H.
    destruct (_ =? _); [done|]. by apply hex_digits_nonempty.
Qed.

(** What may stand behind a number on a line. *)
Definition ends_hex (r : list ascii) : Prop :=
  match r with [] => True | c :: _ => is_hex c = false ∧ lower c ≠ "x"%char end.
Lemma span_stop p a r :
  Forall (λ c, p c = true) a → match r with c :: _ => p c = false | [] => True end → span p (a ++ r) = (a, r).
Proof.
  intros Ha Hr. induction Ha as [|c a Hc _ IH]; cbn; [by destruct r as [|c r]; [|cbn; rewrite Hr]|].
  by rewrite Hc, IH.
Qed.
Lemma signless c l : is_hex c = true → sign_of (drop_spaces (c :: l)) = (false, c :: l).
Proof.
  intros Hc. cbn. rewrite is_hex_space by done. cbn.
  rewrite !bool_decide_false by (by apply is_hex_other). done.
Qed.
Lemma hex_body_digits c l r : hex_text (c :: l) → ends_hex r → hex_body ((c :: l) ++ r) = (c :: l) ++ r.
Proof.
  intros [_ Hl]%Forall_cons_1 Hr. cbn.
  assert (E : match l ++ r with x :: _ => lower x ≠ "x"%char | [] => True end).
  { destruct l as [|x l]; cbn; [destruct r; [done|apply Hr]|]. apply is_hex_not_x. by apply Forall_cons_1 in Hl as []. }
  destruct (l ++ r); [done|]. by rewrite (bool_decide_false (lower _ = _)), andb_false_r.
Qed.
Lemma scan_hex_padded w n r : 0 ≤ n < 2 ^ 64 → ends_hex r → scan_hex (padded w n ++ r) = Some (n, r).
Proof.
  intros Hn Hr. destruct (padded_spec w n) as (Hh&Hv&Hne); [lia|]. destruct (padded w n) as [|c l]; [done|].
  unfold scan_hex. rewrite <- app_comm_cons, signless by (by apply Forall_cons_1 in Hh as []).
  rewrite app_comm_cons, hex_body_digits, span_stop; [|done|by destruct r; [|apply Hr]|done..].
  rewrite bool_decide_false, Hv by done. by destruct (Z.ltb_spec (2 ^ 64 - 1) n); [lia|].
Qed.
Lemma scan_hex_space l : scan_hex (" "%char :: l) = scan_hex l.
Proof. reflexivity. Qed.
Lemma hex_stoull_padded w n : 0 ≤ n < 2 ^ 64 → hex_stoull (padded w n) = Ok n.
Proof.
  intros Hn. destruct (padded_spec w n) as (Hh&Hv&Hne); [lia|]. destruct (padded w n) as [|c l]; [done|].
  unfold hex_stoull. pose proof Hh as [Hc _]%Forall_cons_1. rewrite signless by done.
  assert (E : ∀ x rest, c :: l = "0"%char :: x :: rest → lower x ≠ "x"%char).
  { intros x rest [= -> ->]. apply is_hex_not_x. by apply Forall_cons_1 in Hh as [_ [Hx _]%Forall_cons_1]. }
  cbv beta iota zeta. match goal with |- context [span is_hex ?b] => assert (Hb : b = c :: l) end.
  { clear Hh Hv Hne Hc. repeat case_match; try done. simplify_eq.
    exfalso. eapply E; [reflexivity|]. by repeat case_bool_decide. }
  rewrite Hb. replace (span is_hex (c :: l)) with (c :: l, @nil ascii)
    by (symmetry; rewrite <- (app_nil_r (c :: l)) at 1; by apply span_stop). cbn [fst].
  rewrite bool_decide_false, Hv by done. by destruct (Z.ltb_spec (2 ^ 64 - 1) n); [lia|].
Qed.

(** ** The lines of the kernel *)

(** The format of [/proc/<pid>/maps] as [proc(5)] documents it; [mg_blanks] blanks
    align the path, which is empty for an anonymous mapping. *)
Record Mapping := mk_Mapping {
  mg_first : Z; mg_last : Z; mg_perms : list ascii; mg_offset : Z;
  mg_major : Z; mg_minor : Z; mg_inode : Z; mg_blanks : nat; mg_path : list ascii;
}.
Definition device (m : Mapping) : list ascii := padded 2 (mg_major m) ++ ":"%char :: padded 2 (mg_minor m).
(** Everything behind the offset but the path. *)
Definition file_columns (m : Mapping) : list ascii :=
  device m ++ " "%char :: print_nonneg (mg_inode m) ++ " "%char :: replicate (mg_blanks m) " "%char.
Definition maps_line (m : Mapping) : list ascii :=
  padded 8 (mg_first m) ++ "-"%char :: padded 8 (mg_last m) ++ " "%char :: mg_perms m ++
  " "%char :: padded 8 (mg_offset m) ++ " "%char :: file_columns m ++ mg_path m.

Definition visible (c : ascii) : bool := negb (isspace c) && negb (bool_decide (c = "/"%char)).
Record mapping_ok (m : Mapping) : Prop := {
  mo_first : 0 ≤ mg_first m < 2 ^ 64;
  mo_last : 0 ≤ mg_last m < 2 ^ 64;
  mo_perms : length (mg_perms m) = 4%nat ∧ Forall (λ c, visible c = true) (mg_perms m);
  mo_offset : 0 ≤ mg_offset m < 2 ^ 64;
  mo_device : 0 ≤ mg_major m ∧ 0 ≤ mg_minor m ∧ 0 ≤ mg_inode m;
  mo_path : match mg_path m with c :: _ => isspace c = false | [] => True end;
}.
Definition covers (a : Z) (m : Mapping) : bool := (mg_first m <=? a) && (a <? mg_last m).
(** The place in the file that is mapped at [a]. *)
Definition file_offset (a : Z) (m : Mapping) : Z := u64 (a - mg_first m + mg_offset m).

Lemma outside_covers a m : (a <? mg_first m) || (mg_last m <=? a) = negb (covers a m).
Proof. unfold covers. by rewrite negb_andb, <- Z.ltb_antisym, <- Z.leb_antisym. Qed.

(** *** Visible text *)
Lemma visible_not c d : visible c = true → visible d = false → c ≠ d.
Proof. congruence. Qed.
Lemma hex_visible l : hex_text l → Forall (λ c, visible c = true) l.
Proof.
  intros H. eapply Forall_impl; [exact H|]. intros c Hc. unfold visible. rewrite is_hex_space by done.
  rewrite bool_decide_false; [done|]. by apply is_hex_other.
Qed.
Lemma padded_visible w n : 0 ≤ n → Forall (λ c, visible c = true) (padded w n).
Proof. intros Hn. by apply hex_visible, padded_spec. Qed.
Lemma inode_visible n : 0 ≤ n → Forall (λ c, visible c = true) (print_nonneg n) ∧ print_nonneg n ≠ [].
Proof.
  intros Hn. destruct (print_nonneg_spec n Hn) as (c&l&->&Hd&_). split; [|done].
  apply hex_visible. eapply Forall_impl; [exact Hd|]. intros x Hx. unfold is_hex. by rewrite Hx.
Qed.
Lemma visible_absent d l : visible d = false → Forall (λ c, visible c = true) l → d ∉ l.
Proof. rewrite Forall_forall. intros Hd H Hin. specialize (H _ Hin). congruence. Qed.

Lemma scan_word_visible limit w r :
  Forall (λ c, visible c = true) w → w ≠ [] → (∀ n, limit = Some n → n = length w) →
  scan_word limit (" "%char :: w ++ " "%char :: r) = Some (" "%char :: r).
Proof.
  intros Hw Hne Hl. unfold scan_word. cbn [drop_spaces].
  assert (E : drop_spaces (w ++ " "%char :: r) = w ++ " "%char :: r).
  { destruct w as [|c w]; [done|]. cbn. apply Forall_cons_1 in Hw as [Hc _].
    unfold visible in Hc. by destruct (isspace c). }
  change (isspace " "%char) with true. cbv iota. rewrite E, span_stop; [|eapply Forall_impl; [exact Hw|]|done].
  2:{ intros c. unfold visible. by intros [Hc _]%andb_true_iff. }
  cbn [fst]. rewrite bool_decide_false by done. f_equal.
  destruct limit as [n|]; [rewrite (Hl n eq_refl), Nat.min_id|]; by rewrite drop_app_length.
Qed.
Lemma drop_spaces_blanks n l :
  match l with c :: _ => isspace c = false | [] => True end → drop_spaces (replicate n " "%char ++ l) = l.
Proof. intros Hl. induction n as [|n IH]; [|exact IH]. destruct l as [|c l]; [done|]. cbn. by rewrite Hl. Qed.

(** *** The runtime's parser *)
Lemma scan_maps_line m : mapping_ok m →
  scan_maps (maps_line m) = Some (mg_first m, mg_last m, mg_offset m, mg_path m).
Proof.
  intros [Hf Hl [Hp4 Hpv] Ho (Hma&Hmi&Hino) Hpath]. unfold scan_maps, maps_line, file_columns, device.
  rewrite scan_hex_padded by done. cbn [mbind option_bind scan_char]. rewrite bool_decide_true by done.
  cbn [mbind option_bind]. rewrite scan_hex_padded by done. cbn [mbind option_bind].
  rewrite scan_word_visible; [|done|by destruct (mg_perms m)|by intros n [= <-]].
  cbn [mbind option_bind]. rewrite scan_hex_space, scan_hex_padded by done. cbn [mbind option_bind].
  assert (Hd : Forall (λ c, visible c = true) (padded 2 (mg_major m) ++ ":"%char :: padded 2 (mg_minor m))).
  { apply Forall_app. split; [by apply padded_visible|]. constructor; [done|]. by apply padded_visible. }
  rewrite <- (app_assoc (padded 2 (mg_major m) ++ _)). rewrite <- app_comm_cons, <- (app_assoc (print_nonneg _)).
  rewrite scan_word_visible; [|done|by destruct (padded 2 (mg_major m))|done]. cbn [mbind option_bind].
  destruct (inode_visible (mg_inode m) Hino) as [Hiv Hine].
  rewrite <- app_comm_cons, scan_word_visible by done. cbn [mbind option_bind default].
  do 2 f_equal. change (drop_spaces (replicate (mg_blanks m) " "%char ++ mg_path m) = mg_path m).
  by apply drop_spaces_blanks.
Qed.
Lemma skip_blanks_path l : match l with c :: _ => isspace c = false | [] => True end → skip_blanks l = l.
Proof.
  destruct l as [|c l]; [done|]. intros Hc. cbn. rewrite bool_decide_false; [done|]. by intros ->.
Qed.
Lemma u64_file_offset a m : u64 (u64 (a - mg_first m) + mg_offset m) = file_offset a m.
Proof. unfold file_offset, u64. by rewrite Zplus_mod_idemp_l. Qed.
Definition place_name (a : Z) (m : Mapping) : list ascii :=
  (if bool_decide (mg_path m = []) then chars "anonymous" else mg_path m) ++ chars "+0x" ++ print_hex (file_offset a m).
Lemma module_offset_lines a ms : Forall mapping_ok ms →
  module_offset_in (maps_line <$> ms) a =
  match find (covers a) ms with Some m => place_name a m | None => chars "0x" ++ print_hex a end.
Proof.
  induction 1 as [|m ms Hm _ IH]; [done|]. cbn [fmap list_fmap module_offset_in find].
  rewrite scan_maps_line, IH, outside_covers by done. destruct (covers a m); cbn [negb]; [|done]. unfold located, place_name.
  rewrite skip_blanks_path by apply Hm. by rewrite u64_file_offset.
Qed.

(** *** The supervisor's parser *)

(** A path is absolute or has no slash, as [[heap]] or none at all. *)
Definition path_form (m : Mapping) : Prop :=
  match mg_path m with c :: _ => c = "/"%char ∨ "/"%char ∉ mg_path m | [] => True end.
(** The columns before the path. *)
Definition columns (m : Mapping) : list ascii :=
  padded 8 (mg_first m) ++ "-"%char :: padded 8 (mg_last m) ++ " "%char :: mg_perms m ++
  " "%char :: padded 8 (mg_offset m) ++ " "%char :: file_columns m.
Lemma maps_line_columns m : maps_line m = columns m ++ mg_path m.
Proof. unfold maps_line, columns. repeat (rewrite <- ?app_assoc; cbn [app]). done. Qed.
Lemma columns_slashless m : mapping_ok m → "/"%char ∉ columns m.
Proof.
  intros [Hf Hl [_ Hpv] Ho (Hma&Hmi&Hino) _]. unfold columns, file_columns, device.
  destruct (inode_visible (mg_inode m) Hino) as [Hiv _].
  pose proof (visible_absent "/"%char) as Habs.
  assert (Hb : "/"%char ∉ replicate (mg_blanks m) " "%char).
  { intros H. by apply elem_of_replicate in H as [H _]. }
  repeat (rewrite ?not_elem_of_app, ?not_elem_of_cons); split_and!; try done;
    apply Habs; (done || apply padded_visible; lia).
Qed.
Lemma split_path m : mapping_ok m → path_form m →
  split_first "/"%char (maps_line m) =
    match mg_path m with
    | c :: tail => if bool_decide (c = "/"%char) then Some (columns m, tail) else None
    | [] => None
    end.
Proof.
  intros Hm Hform. rewrite maps_line_columns. pose proof (columns_slashless m Hm) as Hc. unfold path_form in Hform.
  destruct (mg_path m) as [|c tail]; [by rewrite app_nil_r, split_first_None|]. case_bool_decide as E.
  - subst c. by apply split_first_app.
  - destruct Hform as [|Hno]; [done|]. apply split_first_None. by rewrite not_elem_of_app.
Qed.

Lemma padded_absent w n d : 0 ≤ n → is_hex d = false → d ∉ padded w n.
Proof.
  intros Hn Hd Hin. destruct (padded_spec w n Hn) as (Hh&_&_). rewrite Forall_forall in Hh.
  specialize (Hh _ Hin). congruence.
Qed.
Lemma skip_visible w r : Forall (λ c, visible c = true) w → w ≠ [] → skip_blanks (w ++ r) = w ++ r.
Proof.
  destruct w as [|c w]; [done|]. intros [Hc _]%Forall_cons_1 _. cbn. rewrite bool_decide_false; [done|].
  by apply visible_not.
Qed.
Lemma mapping_offset_line a path m :
  mapping_ok m → path_form m → head path = Some "/"%char →
  mapping_offset a path (maps_line m) =
    Ok (if covers a m && bool_decide (mg_path m = path) then Some (file_offset a m) else None).
Proof.
  intros Hm Hform Hslash. pose proof (split_path m Hm Hform) as Hsplit. pose proof Hm as [Hf Hl [Hp4 Hpv] Ho _ _].
  unfold mapping_offset. rewrite Hsplit. unfold maps_line. rewrite split_first_app by (apply padded_absent; [lia|done]).
  rewrite split_first_app by (apply padded_absent; [lia|done]). rewrite !hex_stoull_padded by done. cbn [mbind result_bind].
  rewrite outside_covers. destruct (covers a m); cbn [negb andb]; [|done].
  destruct (mg_path m) as [|c tail] eqn:Hpath; [by destruct path|].
  case_bool_decide as Ec; cycle 1. { rewrite bool_decide_false; [done|]. intros <-. cbn in Hslash. congruence. }
  subst c. destruct (bool_decide _); cbn [negb]; [|done].
  rewrite skip_visible by (by destruct (mg_perms m)).
  rewrite split_first_app by (by apply visible_absent).
  destruct (padded_spec 8 (mg_offset m)) as (Hh&_&Hne); [lia|].
  rewrite skip_visible by (by try apply hex_visible).
  rewrite split_first_app by (apply padded_absent; [lia|done]).
  rewrite hex_stoull_padded by done. done.
Qed.
(** The first mapping of the library that covers the address, 0 when there is none. *)
Lemma find_offset_lines a path ms :
  Forall mapping_ok ms → Forall path_form ms → head path = Some "/"%char →
  find_offset a path (maps_line <$> ms) =
    Ok (match find (λ m, covers a m && bool_decide (mg_path m = path)) ms with
        | Some m => file_offset a m | None => 0 end).
Proof.
  intros Hok Hform Hslash. induction Hok as [|m ms Hm _ IH]; [done|]. apply Forall_cons_1 in Hform as [Hf Hform].
  cbn [fmap list_fmap find_offset find]. rewrite mapping_offset_line by done. cbn [mbind result_bind].
  destruct (_ && _); [done|]. by apply IH.
Qed.
Lemma find_refined {A} (f g : A → bool) l x :
  find f l = Some x → g x = true → find (λ y, f y && g y) l = Some x.
Proof.
  induction l as [|y l IH]; cbn; [done|]. destruct (f y); cbn; [|done]. by intros [= ->] ->.
Qed.

(** C30: the runtime and the supervisor locate an address alike: on the lines of
    [/proc/<pid>/maps] the runtime names the first mapping that covers it, and when
    that is a file, the supervisor, asked for the same file, resolves the same
    offset into it, the one the runtime prints; no parser fails on such a line. *)
Theorem locators_agree tgid a ms m :
  a ≠ 0 → Forall mapping_ok ms → Forall path_form ms → find (covers a) ms = Some m →
  module_offset (λ _, Some (maps_line <$> ms)) tgid a = text (place_name a m) ∧
  (head (mg_path m) = Some "/"%char →
   resolve_symbol_offset (Some a) (mg_path m) (maps_line <$> ms) = Ok (file_offset a m) ∧
   module_offset (λ _, Some (maps_line <$> ms)) tgid a =
     text (mg_path m ++ chars "+0x" ++ print_hex (file_offset a m))).
Proof.
  intros Ha Hok Hform Hfind. unfold module_offset. rewrite (proj2 (Z.eqb_neq a 0) Ha).
  change (default [] (Some (maps_line <$> ms))) with (maps_line <$> ms).
  rewrite module_offset_lines, Hfind by done. split; [done|]. intros Hslash. split.
  - cbn [resolve_symbol_offset]. rewrite find_offset_lines by done.
    by rewrite (find_refined _ _ _ _ Hfind) by (by apply bool_decide_true).
  - unfold place_name. rewrite bool_decide_false; [done|]. intros E. by rewrite E in Hslash.
Qed.
Definition demo_mappings : list Mapping :=
  [mk_Mapping 4194304 4198400 (chars "r--p") 0 8 2 1573 3 (chars "/usr/bin/app");
   mk_Mapping 4198400 4227072 (chars "r-xp") 4096 8 2 1573 3 (chars "/usr/bin/app");
   mk_Mapping 140000000 140004096 (chars "rw-p") 0 0 0 0 0 []].
Lemma locators_agree_witness :
  resolve_symbol_offset (Some 4198657) (chars "/usr/bin/app") (maps_line <$> demo_mappings) = Ok 4353 ∧
  module_offset (λ _, Some (maps_line <$> demo_mappings)) 7 4198657 = "/usr/bin/app+0x1101".
Proof.
  refine (proj2 (locators_agree 7 4198657 demo_mappings
    (mk_Mapping 4198400 4227072 (chars "r-xp") 4096 8 2 1573 3 (chars "/usr/bin/app")) _ _ _ eq_refl) eq_refl).
  - lia.
  - repeat constructor; cbn; lia.
  - by repeat constructor.
Defined.
