(* ===== verification/Json.v ===== *)
(** * JSON text ([src/runtime.cpp]: the helpers that write it)

    The documents the runtime writes, as values with the text they are written
    as; numbers in the two formats of the source ([std::to_string] and the
    default format of a stream); and a reader that tells what a document says. *)
From Stdlib Require Import SpecFloat Ascii.
From S2P Require Import Prelude Binary64 CpuList Topology ThreadProfile.
Local Open Scope string_scope.
Local Open Scope Z_scope.

(** ** [json_escape] *)
Definition dq : ascii := ascii_of_nat 34.
Definition backslash : ascii := ascii_of_nat 92.
Definition line_feed : ascii := ascii_of_nat 10.

Definition escape_char (c : ascii) : list ascii :=
  if bool_decide (c = dq) || bool_decide (c = backslash) then [backslash; c]
  else if bool_decide (c = line_feed) then [backslash; "n"%char]
  else if (32 <=? nat_of_ascii c)%nat then [c] else [].
Definition json_escape (l : list ascii) : list ascii := l ≫= escape_char.

(** ** Numbers *)

(** [num / den] rounded to the nearest integer, ties to even. *)
Definition round_half_even (num den : Z) : Z :=
  let q := num `div` den in
  let r := num `mod` den in
  if 2 * r <? den then q else if den <? 2 * r then q + 1 else if Z.even q then q else q + 1.

(** A positive finite value as a fraction. *)
Definition fraction (m : positive) (e : Z) : Z * Z :=
  if 0 <=? e then (Zpos m * 2 ^ e, 1) else (Zpos m, 2 ^ (- e)).

(** The last [n] decimal digits, with leading zeros. *)
Fixpoint pad_digits (n : nat) (v : Z) (acc : list ascii) : list ascii :=
  match n with O => acc | S n' => pad_digits n' (v `div` 10) (digit_char (v `mod` 10) :: acc) end.

Definition signed (s : bool) (l : list ascii) : list ascii := if s then "-"%char :: l else l.
Definition special (s : bool) : list ascii := signed s (chars "inf").

(** [std::to_string(double)]: six decimals. *)
Definition fixed6 (num den : Z) : list ascii :=
  let v := round_half_even (num * 1000000) den in
  (print_nonneg (v `div` 1000000) ++ "."%char :: pad_digits 6 (v `mod` 1000000) [])%list.
Definition to_string_double (d : double) : list ascii :=
  match d with
  | S754_zero s => signed s (chars "0.000000")
  | S754_infinity s => special s
  | S754_nan => chars "nan"
  | S754_finite s m e => let '(num, den) := fraction m e in signed s (fixed6 num den)
  end.

(** [out << double] with [p] significant digits, the shorter of the two notations;
    a stream prints six unless [std::setprecision] says otherwise.
    [exponent10] is the decimal exponent of [num / den]. *)
Definition at_least_pow10 (num den x : Z) : bool :=
  if 0 <=? x then den * 10 ^ x <=? num else den <=? num * 10 ^ (- x).
Fixpoint search_exponent (n : nat) (x num den : Z) : Z :=
  match n with
  | O => x
  | S n' => if at_least_pow10 num den x then x else search_exponent n' (x - 1) num den
  end.
Definition exponent10 (num den : Z) : Z := search_exponent 633 308 num den.
(** The digits and the exponent after rounding. *)
Definition significant_at (x : Z) (p : nat) (num den : Z) : Z * Z :=
  let shift := x - (Z.of_nat p - 1) in
  let v := if 0 <=? shift then round_half_even num (den * 10 ^ shift)
           else round_half_even (num * 10 ^ (- shift)) den in
  if v =? 10 ^ Z.of_nat p then (10 ^ (Z.of_nat p - 1), x + 1) else (v, x).
Definition significant (p : nat) (num den : Z) : Z * Z := significant_at (exponent10 num den) p num den.
Fixpoint drop_zeros (l : list ascii) : list ascii :=
  match l with
  | [] => []
  | c :: l' => match drop_zeros l' with
               | [] => if bool_decide (c = "0"%char) then [] else [c]
               | r => c :: r
               end
  end.
Definition with_fraction (whole part : list ascii) : list ascii :=
  match drop_zeros part with [] => whole | r => (whole ++ "."%char :: r)%list end.
Definition general_digits (p : nat) (vx : Z * Z) : list ascii :=
  let '(v, x) := vx in
  let digits := pad_digits p v [] in
  if (-4 <=? x) && (x <? Z.of_nat p) then
    if 0 <=? x then with_fraction (take (Z.to_nat (x + 1)) digits) (drop (Z.to_nat (x + 1)) digits)
    else with_fraction ["0"%char] (replicate (Z.to_nat (- x - 1)) "0"%char ++ digits)
  else
    (with_fraction (take 1 digits) (drop 1 digits) ++
     "e"%char :: (if x <? 0 then "-"%char else "+"%char) ::
     (if Z.abs x <? 100 then pad_digits 2 (Z.abs x) [] else print_nonneg (Z.abs x)))%list.
Definition general (p : nat) (num den : Z) : list ascii := general_digits p (significant p num den).
Definition print_precise (p : nat) (d : double) : list ascii :=
  match d with
  | S754_zero s => signed s ["0"%char]
  | S754_infinity s => special s
  | S754_nan => chars "nan"
  | S754_finite s m e => let '(num, den) := fraction m e in signed s (general p num den)
  end.
Definition print_double : double → list ascii := print_precise 6.

Example print_examples :
  (λ d, (text (to_string_double d), text (print_double d))) <$>
    [dlit 1 10; dlit 123456789 100; dlit 15 1000000; double_of_Z 1000000; d0; dlit 2 3] =
  [("0.100000", "0.1"); ("1234567.890000", "1.23457e+06"); ("0.000015", "1.5e-05");
   ("1000000.000000", "1e+06"); ("0.000000", "0"); ("0.666667", "0.666667")].
Proof. vm_compute. reflexivity. Qed.
Example precise_examples :
  (λ d, text (print_precise 17 d)) <$> [dlit 1 10; dlit 123456789 100; dlit 15 1000000; d1; dlit 1 3; double_of_Z (10 ^ 17)] =
  ["0.10000000000000001"; "1234567.8899999999"; "1.5e-05"; "1"; "0.33333333333333331"; "1e+17"].
Proof. vm_compute. reflexivity. Qed.

(** ** Documents *)
Inductive json :=
  | JNum (token : list ascii)
  (** a string written through [json_escape], and one written as it is *)
  | JStr (s : list ascii)
  | JRaw (s : list ascii)
  | JBool (b : bool)
  | JArr (l : list json)
  | JObj (l : list (string * json)).

Definition quoted (l : list ascii) : list ascii := (dq :: l ++ [dq])%list.
Fixpoint commas (l : list (list ascii)) : list ascii :=
  match l with
  | [] => []
  | [x] => x
  | x :: l' => (x ++ ","%char :: commas l')%list
  end.
Fixpoint render (v : json) : list ascii :=
  match v with
  | JNum t => t
  | JStr s => quoted (json_escape s)
  | JRaw s => quoted s
  | JBool b => chars (if b then "true" else "false")
  | JArr l => ("["%char :: commas (render <$> l) ++ ["]"%char])%list
  | JObj l => ("{"%char :: commas ((λ kv, quoted (chars kv.1) ++ ":"%char :: render kv.2)%list <$> l) ++
               ["}"%char])%list
  end.

(** Values with a number in them. *)
Definition jint (n : Z) : json := JNum (print_int n).
Definition jdouble (d : double) : json := JNum (print_double d).
Definition jprecise (d : double) : json := JNum (print_precise 17 d).
Definition jfixed (d : double) : json := JNum (to_string_double d).

(** ** Reading a document back *)

(** The characters [json_escape] keeps. *)
Definition printable (c : ascii) : bool := bool_decide (c = line_feed) || (32 <=? nat_of_ascii c)%nat.
Definition plain (c : ascii) : bool :=
  (32 <=? nat_of_ascii c)%nat && negb (bool_decide (c = dq)) && negb (bool_decide (c = backslash)).
Definition number_char (c : ascii) : bool :=
  isdigit c || existsb (λ d, bool_decide (c = d)) (chars "+-.eE").

(** The numbers of the JSON grammar: a sign, an integer part without a superfluous
    zero, a fraction and an exponent. *)
Definition integer_part (l : list ascii) : bool :=
  match l with
  | [] => false
  | c :: l' => bool_decide (l' = []) || negb (bool_decide (c = "0"%char))
  end.
Definition exponent_digits (l : list ascii) : bool :=
  let l := match l with c :: l' => if bool_decide (c = "+"%char) || bool_decide (c = "-"%char) then l' else l | [] => [] end in
  negb (bool_decide (l = [])) && forallb isdigit l.
Definition exponent_part (l : list ascii) : bool :=
  match l with
  | [] => true
  | c :: l' => (bool_decide (c = "e"%char) || bool_decide (c = "E"%char)) && exponent_digits l'
  end.
Definition fraction_part (l : list ascii) : bool :=
  match l with
  | [] => true
  | c :: l' =>
      if bool_decide (c = "."%char) then
        let '(f, r) := span isdigit l' in negb (bool_decide (f = [])) && exponent_part r
      else exponent_part l
  end.
Definition json_number (l : list ascii) : bool :=
  let '(i, r) := span isdigit (match l with c :: l' => if bool_decide (c = "-"%char) then l' else l | [] => [] end) in
  integer_part i && fraction_part r.

(** A string up to its closing quote; the escapes are the ones [json_escape]
    writes. *)
Fixpoint read_string (l : list ascii) : option (list ascii * list ascii) :=
  match l with
  | [] => None
  | c :: l' =>
      if bool_decide (c = dq) then Some ([], l')
      else if bool_decide (c = backslash) then
        match l' with
        | e :: l'' =>
            '(s, r) ← read_string l'';
            if bool_decide (e = "n"%char) then Some (line_feed :: s, r)
            else if bool_decide (e = dq) || bool_decide (e = backslash) then Some (e :: s, r) else None
        | [] => None
        end
      else if (32 <=? nat_of_ascii c)%nat then '(s, r) ← read_string l'; Some (c :: s, r)
      else None
  end.

(** What follows the character [c], if it comes first. *)
Definition after (c : ascii) (l : list ascii) : option (list ascii) :=
  match l with d :: l' => if bool_decide (d = c) then Some l' else None | [] => None end.

(** Numbers are read as the text they are written with. *)
Definition parse_scalar (l : list ascii) : option (json * list ascii) :=
  match after dq l, strip_prefix (chars "true") l, strip_prefix (chars "false") l with
  | Some r, _, _ => '(s, r) ← read_string r; Some (JStr s, r)
  | None, Some r, _ => Some (JBool true, r)
  | None, None, Some r => Some (JBool false, r)
  | None, None, None => let '(t, r) := span number_char l in
                        if json_number t then Some (JNum t, r) else None
  end.
Fixpoint parse (n : nat) (l : list ascii) {struct n} : option (json * list ascii) :=
  match n with
  | O => None
  | S n' =>
      match after "["%char l, after "{"%char l with
      | Some r, _ =>
          match after "]"%char r with
          | Some r' => Some (JArr [], r')
          | None => '(vs, r) ← parse_items n' r; Some (JArr vs, r)
          end
      | None, Some r =>
          match after "}"%char r with
          | Some r' => Some (JObj [], r')
          | None => '(ms, r) ← parse_members n' r; Some (JObj ms, r)
          end
      | None, None => parse_scalar l
      end
  end
with parse_items (n : nat) (l : list ascii) {struct n} : option (list json * list ascii) :=
  match n with
  | O => None
  | S n' =>
      '(v, r) ← parse n' l;
      match after ","%char r, after "]"%char r with
      | Some r', _ => '(vs, r'') ← parse_items n' r'; Some (v :: vs, r'')
      | None, Some r' => Some ([v], r')
      | None, None => None
      end
  end
with parse_members (n : nat) (l : list ascii) {struct n} : option (list (string * json) * list ascii) :=
  match n with
  | O => None
  | S n' =>
      '(k, r) ← (after dq l ≫= read_string);
      '(v, r) ← (after ":"%char r ≫= parse n');
      match after ","%char r, after "}"%char r with
      | Some r', _ => '(ms, r'') ← parse_members n' r'; Some ((text k, v) :: ms, r'')
      | None, Some r' => Some ([(text k, v)], r')
      | None, None => None
      end
  end.
(** The document a whole text is. *)
Definition parse_document (l : list ascii) : option json :=
  match parse (S (length l)) l with Some (v, []) => Some v | _ => None end.

(** ** Well-formed documents *)
Section json_induction.
Context (P : json → Prop).
Hypothesis (Hnum : ∀ t, P (JNum t)) (Hstr : ∀ s, P (JStr s)) (Hraw : ∀ s, P (JRaw s)).
Hypothesis (Hbool : ∀ b, P (JBool b)).
Hypothesis (Harr : ∀ l, Forall P l → P (JArr l)).
Hypothesis (Hobj : ∀ l : list (string * json), Forall (λ kv, P kv.2) l → P (JObj l)).
Fixpoint json_nested_ind (v : json) : P v :=
  match v with
  | JNum t => Hnum t
  | JStr s => Hstr s
  | JRaw s => Hraw s
  | JBool b => Hbool b
  | JArr l => Harr l (list_ind (Forall P) (Forall_nil_2 P) (λ v l H, Forall_cons_2 P v l (json_nested_ind v) H) l)
  | JObj l => Hobj l (list_ind (Forall (λ kv, P kv.2)) (Forall_nil_2 _)
                (λ kv l H, Forall_cons_2 _ kv l (json_nested_ind kv.2) H) l)
  end.
End json_induction.

(** Numbers are those of the grammar (an infinity or a NaN is not), and what is
    written without escapes needs none. *)
Fixpoint well_formed (v : json) : bool :=
  match v with
  | JNum t => json_number t && forallb number_char t
  | JStr _ | JBool _ => true
  | JRaw s => forallb plain s
  | JArr l => forallb well_formed l
  | JObj l => forallb (λ kv, forallb plain (chars kv.1) && well_formed kv.2) l
  end.

(** Every character of its strings has seven bits. *)
Definition seven_bit (c : ascii) : bool := (nat_of_ascii c <? 128)%nat.
Fixpoint ascii_document (v : json) : bool :=
  match v with
  | JNum _ | JBool _ => true
  | JStr s | JRaw s => forallb seven_bit s
  | JArr l => forallb ascii_document l
  | JObj l => forallb (λ kv, forallb seven_bit (chars kv.1) && ascii_document kv.2) l
  end.

(** What a reader gets: strings without the control characters. *)
Fixpoint meaning (v : json) : json :=
  match v with
  | JStr s => JStr (filter (λ c, printable c = true) s)
  | JRaw s => JStr s
  | JArr l => JArr (meaning <$> l)
  | JObj l => JObj ((λ kv, (kv.1, meaning kv.2)) <$> l)
  | v => v
  end.

(** The fuel a document needs. *)
Fixpoint cost (v : json) : nat :=
  match v with
  | JArr l => S (foldr (λ v n, S (cost v) + n) 0 l)
  | JObj l => S (foldr (λ kv n, S (cost kv.2) + n) 0 l)
  | _ => 1
  end%nat.
