(* ===== verification/JsonProperties.v ===== *)
(** * JSON text: properties

    What is written is read back: a document is valid when its numbers are
    finite, and it says what was meant except for control characters. *)
From Stdlib Require Import SpecFloat Ascii.
From S2P Require Import Prelude Binary64 CpuList Topology ThreadProfile Json.
Local Open Scope string_scope.
Local Open Scope Z_scope.
Local Open Scope list_scope.

(** ** Strings *)
Lemma plain_spec c :
  plain c = true ↔ (32 <=? nat_of_ascii c)%nat = true ∧ c ≠ dq ∧ c ≠ backslash.
Proof. unfold plain. rewrite !andb_true_iff, !negb_true_iff, !bool_decide_eq_false. naive_solver. Qed.

Lemma read_string_plain c l :
  plain c = true → read_string (c :: l) = '(s, r) ← read_string l; Some (c :: s, r).
Proof.
  intros (H&H1&H2)%plain_spec. cbn [read_string]. by rewrite !bool_decide_false, H by done.
Qed.
Lemma read_plain s r : forallb plain s = true → read_string (s ++ dq :: r) = Some (s, r).
Proof.
  induction s as [|c s IH]; [done|]. cbn [forallb]. intros [Hc Hs]%andb_true_iff.
  cbn [app]. by rewrite read_string_plain, IH.
Qed.
Lemma read_escaped s r :
  read_string (json_escape s ++ dq :: r) = Some (filter (λ c, printable c = true) s, r).
Proof.
  induction s as [|c s IH]; [done|]. change (json_escape (c :: s)) with (escape_char c ++ json_escape s).
  rewrite <- app_assoc. unfold escape_char. destruct (bool_decide (c = dq) || _) eqn:E1.
  { assert (Hp : printable c = true).
    { apply orb_true_iff in E1 as [E1|E1]; apply bool_decide_eq_true in E1; subst c; reflexivity. }
    rewrite filter_cons_True by done. cbn [app read_string].
    rewrite (bool_decide_false (backslash = dq)), (bool_decide_true (backslash = backslash)), IH by done.
    cbn. rewrite E1, bool_decide_false; [done|]. intros ->. done. }
  apply orb_false_iff in E1 as [E1%bool_decide_eq_false E2%bool_decide_eq_false].
  case_bool_decide as E3.
  { subst c. rewrite filter_cons_True by done. cbn [app read_string].
    rewrite (bool_decide_false (backslash = dq)), (bool_decide_true (backslash = backslash)), IH by done. done. }
  destruct (32 <=? nat_of_ascii c)%nat eqn:E4.
  - rewrite filter_cons_True by (unfold printable; by rewrite E4, orb_true_r). cbn [app].
    rewrite read_string_plain, IH by (by apply plain_spec). done.
  - rewrite filter_cons_False by (unfold printable; by rewrite E4, bool_decide_false). done.
Qed.

(** ** Values *)
Definition stops (l : list ascii) : Prop := match l with [] => True | c :: _ => number_char c = false end.

Lemma span_stops t r : forallb number_char t = true → stops r → span number_char (t ++ r) = (t, r).
Proof.
  intros Ht Hr. induction t as [|c t IH]; cbn.
  - destruct r as [|c r]; [done|]. cbn in *. by rewrite Hr.
  - cbn in Ht. apply andb_true_iff in Ht as [Hc Ht]. by rewrite Hc, IH.
Qed.

(** The first character of a value is none of the closing ones. *)
Definition opening (c : ascii) : bool :=
  bool_decide (c = dq) || bool_decide (c = "["%char) || bool_decide (c = "{"%char) ||
  bool_decide (c = "t"%char) || bool_decide (c = "f"%char) || number_char c.
Lemma render_head v : well_formed v = true → ∃ c l, render v = c :: l ∧ opening c = true.
Proof.
  destruct v as [t|s|s|b|l|l]; cbn [well_formed render]; try (by eexists _, _).
  - destruct t as [|c t]; [done|]. intros [_ [H _]%andb_true_iff]%andb_true_iff. exists c, t. split; [done|].
    unfold opening. by rewrite H, !orb_true_r.
  - destruct b; by eexists _, _.
Qed.
Lemma after_other c d l : opening c = true → opening d = false → after d (c :: l) = None.
Proof. intros Hc Hd. cbn. rewrite bool_decide_false; [done|]. intros ->. congruence. Qed.

Lemma after_app c d l r : c ≠ d → after d ((c :: l) ++ r) = None.
Proof. intros H. cbn. by rewrite bool_decide_false. Qed.
Lemma number_char_not c d : number_char c = true → number_char d = false → c ≠ d.
Proof. congruence. Qed.
Lemma parse_number n t r :
  well_formed (JNum t) = true → stops r → parse (S n) (t ++ r) = Some (JNum t, r).
Proof.
  intros Hw Hr. pose proof Hw as [Hne Ht]%andb_true_iff.
  destruct t as [|c t]; [done|]. pose proof Ht as [Hc _]%andb_true_iff.
  cbn [parse]. rewrite !(after_app c) by (by apply number_char_not). unfold parse_scalar.
  rewrite (after_app c dq) by (by apply number_char_not).
  assert (Hs : ∀ w d l, chars w = d :: l → number_char d = false →
    strip_prefix (chars w) ((c :: t) ++ r) = None).
  { intros w d l -> Hd. cbn. rewrite bool_decide_false; [done|]. intros <-. congruence. }
  rewrite (Hs "true" "t"%char (chars "rue")), (Hs "false" "f"%char (chars "alse")) by done.
  rewrite span_stops by done. by rewrite Hne.
Qed.
Lemma parse_quoted n s s' r :
  read_string (s ++ dq :: r) = Some (s', r) → parse (S n) (quoted s ++ r) = Some (JStr s', r).
Proof.
  intros H. unfold quoted. cbn [parse].
  change ((dq :: s ++ [dq]) ++ r) with (dq :: (s ++ [dq]) ++ r). rewrite <- app_assoc. cbn [app].
  unfold parse_scalar. cbn [after]. repeat (rewrite bool_decide_false by done). 
  rewrite (bool_decide_true (dq = dq)) by done. by rewrite H.
Qed.
Lemma parse_boolean n b r : parse (S n) (render (JBool b) ++ r) = Some (JBool b, r).
Proof. by destruct b. Qed.

(** The items of an array and the members of an object. *)
Definition parses (v : json) : Prop := ∀ n r,
  well_formed v = true → (cost v ≤ n)%nat → stops r → parse n (render v ++ r) = Some (meaning v, r).

Lemma parse_items_commas l n r :
  l ≠ [] → Forall parses l → forallb well_formed l = true →
  (foldr (λ v n, S (cost v) + n) 0 l ≤ n)%nat →
  parse_items n (commas (render <$> l) ++ "]"%char :: r) = Some (meaning <$> l, r).
Proof.
  revert n. induction l as [|v l IH]; intros n Hne Hp Hw Hn; [done|].
  apply Forall_cons_1 in Hp as [Hv Hp]. cbn [forallb] in Hw. apply andb_true_iff in Hw as [Hwv Hwl].
  cbn [foldr] in Hn. destruct n as [|n]; [lia|]. cbn [parse_items].
  destruct l as [|v' l].
  - cbn [fmap list_fmap commas]. rewrite Hv by (done || lia). done.
  - change (commas (render <$> v :: v' :: l)) with (render v ++ ","%char :: commas (render <$> v' :: l)).
    rewrite <- app_assoc. cbn [app]. rewrite Hv by (done || lia). cbn [mbind option_bind after].
    rewrite bool_decide_true by done. rewrite IH by (done || lia). done.
Qed.

Lemma text_of_chars k : text (chars k) = k.
Proof. apply String.string_of_list_ascii_of_string. Qed.
Definition render_member (kv : string * json) : list ascii :=
  quoted (chars kv.1) ++ ":"%char :: render kv.2.
Lemma parse_member_text k v l :
  render_member (k, v) ++ l = dq :: chars k ++ dq :: ":"%char :: render v ++ l.
Proof. unfold render_member, quoted. cbn [fst snd app]. by rewrite <- !app_assoc. Qed.

Lemma parse_members_commas (l : list (string * json)) n r :
  l ≠ [] → Forall (λ kv, parses kv.2) l →
  forallb (λ kv, forallb plain (chars kv.1) && well_formed kv.2) l = true →
  (foldr (λ kv n, S (cost kv.2) + n) 0 l ≤ n)%nat →
  parse_members n (commas (render_member <$> l) ++ "}"%char :: r) =
    Some ((λ kv, (kv.1, meaning kv.2)) <$> l, r).
Proof.
  revert n. induction l as [|[k v] l IH]; intros n Hne Hp Hw Hn; [done|].
  apply Forall_cons_1 in Hp as [Hv Hp]. cbn [forallb fst snd] in Hw.
  apply andb_true_iff in Hw as [[Hk Hwv]%andb_true_iff Hwl].
  cbn [foldr fst snd] in Hn, Hv. destruct n as [|n]; [lia|]. cbn [parse_members].
  destruct l as [|kv' l].
  - cbn [fmap list_fmap commas]. rewrite parse_member_text. cbn [after].
    rewrite bool_decide_true by done. cbn [mbind option_bind]. rewrite read_plain by done.
    cbn [mbind option_bind after]. rewrite bool_decide_true by done. cbn [mbind option_bind].
    rewrite Hv by (done || lia). cbn [mbind option_bind after]. rewrite bool_decide_false by done.
    rewrite bool_decide_true by done. by rewrite text_of_chars.
  - change (commas (render_member <$> (k, v) :: kv' :: l))
      with (render_member (k, v) ++ ","%char :: commas (render_member <$> kv' :: l)).
    rewrite <- app_assoc. rewrite parse_member_text. cbn [after app].
    rewrite bool_decide_true by done. cbn [mbind option_bind]. rewrite read_plain by done.
    cbn [mbind option_bind after]. rewrite bool_decide_true by done. cbn [mbind option_bind].
    rewrite Hv by (done || lia). cbn [mbind option_bind after]. rewrite bool_decide_true by done.
    rewrite IH by (done || lia). cbn [mbind option_bind]. by rewrite text_of_chars.
Qed.

Lemma commas_head {A} (f : A → list ascii) (a : A) l c t r :
  f a = c :: t → ∃ t', commas (f <$> a :: l) ++ r = c :: t'.
Proof. intros H. destruct l; cbn; rewrite H; cbn; by eexists. Qed.

(** Every value is parsed back, whatever follows it. *)
Lemma parse_render_value v : parses v.
Proof.
  induction v as [t|s|s|b|l IH|l IH] using json_nested_ind; intros n r Hw Hn Hr;
    (destruct n as [|n]; [cbn in Hn; lia|]).
  - by apply parse_number.
  - apply parse_quoted, read_escaped.
  - by apply parse_quoted, read_plain.
  - apply parse_boolean.
  - cbn [render]. destruct l as [|v l]; [done|].
    destruct (render_head v) as (c&t&Hc&Ho); [by apply andb_true_iff in Hw as []|].
    cbn [cost foldr] in Hn. pose proof (parse_items_commas (v :: l) n r) as Hi.
    destruct (commas_head render v l c t ("]"%char :: r) Hc) as [t' Ht].
    cbn [app]. rewrite <- app_assoc. cbn [app parse after]. rewrite bool_decide_true by done.
    rewrite Ht in *. cbn [after]. rewrite bool_decide_false by (intros ->; done).
    rewrite Hi by (done || (cbn [foldr]; lia)). done.
  - cbn [render]. destruct l as [|[k v] l]; [done|].
    cbn [cost foldr] in Hn. pose proof (parse_members_commas ((k, v) :: l) n r) as Hi.
    destruct (commas_head render_member (k, v) l dq (chars k ++ dq :: ":"%char :: render v) ("}"%char :: r)) as [t' Ht].
    { pose proof (parse_member_text k v []) as E. by rewrite !app_nil_r in E. }
    change (λ kv : string * json, quoted (chars kv.1) ++ ":"%char :: render kv.2) with render_member.
    cbn [app]. rewrite <- app_assoc. cbn [app parse after].
    rewrite (bool_decide_false ("{"%char = "["%char)), (bool_decide_true ("{"%char = "{"%char)) by done.
    rewrite Ht in *. cbn [after]. rewrite bool_decide_false by done.
    rewrite Hi by (done || (cbn [foldr fst snd] in *; lia)). done.
Qed.

Lemma cost_length v : well_formed v = true → (cost v ≤ length (render v))%nat.
Proof.
  induction v as [t|s|s|b|l IH|l IH] using json_nested_ind; cbn [well_formed cost render].
  - destruct t; cbn; [done|lia].
  - intros _. cbn. lia.
  - intros _. cbn. lia.
  - intros _. destruct b; cbn; lia.
  - intros Hw. cbn [length]. rewrite length_app. cbn [length].
    enough (foldr (λ v n, S (cost v) + n) 0 l ≤ S (length (commas (render <$> l))))%nat by lia.
    induction IH as [|v l Hv _ IHl]; [cbn; lia|]. cbn [forallb] in Hw. apply andb_true_iff in Hw as [Hw1 Hw2].
    specialize (Hv Hw1). specialize (IHl Hw2). destruct l as [|v' l]; [cbn in *; lia|].
    change (commas (render <$> v :: v' :: l)) with (render v ++ ","%char :: commas (render <$> v' :: l)).
    rewrite length_app. cbn [length foldr] in *. lia.
  - change (λ kv : string * json, quoted (chars kv.1) ++ ":"%char :: render kv.2) with render_member.
    intros Hw. cbn [length]. rewrite length_app. cbn [length].
    enough (foldr (λ kv n, S (cost kv.2) + n) 0 l ≤ S (length (commas (render_member <$> l))))%nat by lia.
    assert (Hm : ∀ kv, (length (render kv.2) ≤ length (render_member kv))%nat).
    { intros kv. unfold render_member. rewrite length_app. cbn. lia. }
    induction IH as [|kv l Hv _ IHl]; [cbn; lia|]. cbn [forallb] in Hw.
    apply andb_true_iff in Hw as [[_ Hw1]%andb_true_iff Hw2].
    specialize (Hv Hw1). specialize (IHl Hw2). specialize (Hm kv). destruct l as [|kv' l]; [cbn in *; lia|].
    change (commas (render_member <$> kv :: kv' :: l))
      with (render_member kv ++ ","%char :: commas (render_member <$> kv' :: l)).
    rewrite length_app. cbn [length foldr] in *. lia.
Qed.

(** A well-formed document is read back whole. *)
Lemma document_read_back v : well_formed v = true → parse_document (render v) = Some (meaning v).
Proof.
  intros Hw. unfold parse_document. pose proof (cost_length v Hw) as Hc.
  pose proof (parse_render_value v (S (length (render v))) [] Hw) as H. rewrite app_nil_r in H.
  rewrite H by (done || lia). done.
Qed.

(** ** Numbers *)
Local Abbreviation token := (Forall (λ c, number_char c = true)).

Lemma digits_token l : Forall (λ c, isdigit c = true) l → token l.
Proof. intros H. eapply Forall_impl; [exact H|]. intros c Hc. unfold number_char. by rewrite Hc. Qed.
Lemma pad_digits_token n v acc : token acc → token (pad_digits n v acc).
Proof.
  revert v acc. induction n as [|n IH]; intros v acc H; cbn; [done|]. apply IH. constructor; [|done].
  unfold number_char. rewrite isdigit_digit_char; [done|]. apply Z.mod_pos_bound. lia.
Qed.
Lemma pad_digits_nonempty n v acc : acc ≠ [] → pad_digits n v acc ≠ [].
Proof. revert v acc. induction n as [|n IH]; intros v acc H; cbn; [done|]. by apply IH. Qed.
Lemma print_nonneg_token n : token (print_nonneg n) ∧ print_nonneg n ≠ [].
Proof.
  unfold print_nonneg. split; [apply digits_token, dec_digits_digits; constructor|].
  rewrite Nat.add_1_r. cbn. destruct (_ =? _); [done|]. by apply dec_digits_nonempty.
Qed.
Lemma signed_token s l : token l ∧ l ≠ [] → token (signed s l) ∧ signed s l ≠ [].
Proof. intros [H1 H2]. destruct s; cbn; [|done]. split; [by constructor|done]. Qed.
Lemma drop_zeros_token l : token l → token (drop_zeros l).
Proof.
  induction 1 as [|c l Hc Hl IH]; cbn; [constructor|].
  destruct (drop_zeros l); [case_bool_decide|]; [by constructor|by repeat constructor|by constructor].
Qed.
Lemma with_fraction_token w p : token w → w ≠ [] → token p → token (with_fraction w p) ∧ with_fraction w p ≠ [].
Proof.
  intros Hw Hne Hp%drop_zeros_token. unfold with_fraction. destruct (drop_zeros p) as [|c r]; [done|].
  split; [|by destruct w]. apply Forall_app. split; [done|]. by constructor.
Qed.
Lemma general_token p num den : token (general (S p) num den) ∧ general (S p) num den ≠ [].
Proof.
  unfold general, general_digits. destruct (significant (S p) num den) as [v x].
  assert (Hd : token (pad_digits (S p) v [])) by (apply pad_digits_token; constructor).
  assert (Hne : ∀ k, (1 ≤ k)%nat → take k (pad_digits (S p) v []) ≠ []).
  { intros [|k]; [lia|]. intros _. cbn [pad_digits].
    pose proof (pad_digits_nonempty p (v `div` 10) [digit_char (v `mod` 10)]) as Hp.
    by destruct (pad_digits p _ _); [destruct Hp|]. }
  destruct (_ && _) eqn:Ex; [destruct (0 <=? x) eqn:E0|].
  - apply with_fraction_token; [by apply Forall_take|apply Hne; lia|by apply Forall_drop].
  - apply with_fraction_token; [by repeat constructor|done|]. apply Forall_app. split; [|done].
    by apply Forall_replicate.
  - destruct (with_fraction_token (take 1 (pad_digits (S p) v [])) (drop 1 (pad_digits (S p) v []))) as [H1 H2];
      [by apply Forall_take|apply Hne; lia|by apply Forall_drop|].
    split; [|by destruct (with_fraction _ _)]. apply Forall_app. split; [done|]. constructor; [done|].
    constructor; [by destruct (x <? 0)|].
    destruct (_ <? 100); [apply pad_digits_token; constructor|apply print_nonneg_token].
Qed.
Lemma fixed6_token num den : token (fixed6 num den) ∧ fixed6 num den ≠ [].
Proof.
  unfold fixed6. destruct (print_nonneg_token (round_half_even (num * 1000000) den `div` 1000000)) as [H1 H2].
  split; [|by destruct (print_nonneg _)]. apply Forall_app. split; [done|]. constructor; [done|].
  apply pad_digits_token. constructor.
Qed.

(** *** The grammar *)
Local Abbreviation digits := (Forall (λ c, isdigit c = true)).
Lemma span_digits l r :
  digits l → match r with [] => True | c :: _ => isdigit c = false end → span isdigit (l ++ r) = (l, r).
Proof.
  intros Hl Hr. induction Hl as [|c l Hc _ IH]; cbn.
  - destruct r as [|c r]; [done|]. cbn. by rewrite Hr.
  - by rewrite Hc, IH.
Qed.
(** An integer part followed by a fraction and an exponent. *)
Lemma json_number_parts s i r :
  digits i → integer_part i = true → match r with [] => True | c :: _ => isdigit c = false end →
  fraction_part r = true → json_number (signed s (i ++ r)) = true.
Proof.
  intros Hi Hp Hr Hf. unfold json_number.
  assert (match signed s (i ++ r) with
          | c :: l' => if bool_decide (c = "-"%char) then l' else signed s (i ++ r) | [] => [] end = i ++ r) as ->.
  { unfold signed. destruct s; [by rewrite bool_decide_true|]. destruct i as [|c i]; [done|].
    apply Forall_cons_1 in Hi as [Hc _]. cbn [app]. rewrite bool_decide_false; [done|]. by apply isdigit_ne. }
  rewrite span_digits by done. by rewrite Hp.
Qed.
Lemma fraction_digits f r :
  digits f → f ≠ [] → match r with [] => True | c :: _ => isdigit c = false end → exponent_part r = true →
  fraction_part ("."%char :: f ++ r) = true.
Proof.
  intros Hf Hne Hr He. cbn. rewrite bool_decide_true, span_digits by done. by rewrite bool_decide_false.
Qed.
Lemma forallb_isdigit l : digits l → forallb isdigit l = true.
Proof. rewrite forallb_forall, Forall_forall. intros H c Hc. by apply H, list_elem_of_In. Qed.

(** No superfluous zero. *)
Lemma digit_char_zero d : 0 ≤ d < 10 → digit_char d = "0"%char → d = 0.
Proof. intros Hd E. pose proof (code_digit_char d Hd) as H. rewrite E in H. change (code "0") with 48 in H. lia. Qed.
Lemma dec_digits_head fuel n acc :
  0 < n < 10 ^ Z.of_nat fuel → ∃ c l, dec_digits fuel n acc = c :: l ∧ c ≠ "0"%char.
Proof.
  revert n acc. induction fuel as [|fuel IH]; intros n acc Hn; cbn [dec_digits]; [cbn in Hn; lia|].
  pose proof (Z.div_mod n 10 ltac:(lia)). pose proof (Z.mod_pos_bound n 10 ltac:(lia)).
  destruct (Z.eqb_spec (n `div` 10) 0) as [E|E].
  - eexists _, _. split; [done|]. intros Hz%digit_char_zero; lia.
  - apply IH. rewrite Nat2Z.inj_succ, Z.pow_succ_r in Hn by lia. lia.
Qed.
Lemma print_nonneg_fuel n : 0 ≤ n → n < 10 ^ Z.of_nat (Z.to_nat (Z.log2 n) + 1).
Proof.
  intros Hn. destruct (Z.eq_dec n 0) as [->|]; [by vm_compute|].
  pose proof (Z.log2_spec n ltac:(lia)) as [_ H]. pose proof (Z.log2_nonneg n).
  rewrite Nat2Z.inj_add, Z2Nat.id by lia. change (Z.of_nat 1) with 1. rewrite <- Z.add_1_r in H.
  eapply Z.lt_le_trans; [exact H|]. apply Z.pow_le_mono_l. lia.
Qed.
Lemma print_nonneg_integer n : 0 ≤ n → digits (print_nonneg n) ∧ integer_part (print_nonneg n) = true.
Proof.
  intros Hn. split; [apply dec_digits_digits; constructor|].
  destruct (Z.eq_dec n 0) as [->|]; [by vm_compute|].
  destruct (dec_digits_head (Z.to_nat (Z.log2 n) + 1) n []) as (c & l & E & Hc).
  { split; [lia|]. by apply print_nonneg_fuel. }
  unfold print_nonneg. rewrite E. cbn. rewrite (bool_decide_false (c = "0"%char)) by done. by rewrite orb_true_r.
Qed.
Lemma pad_digits_digits n v acc : digits acc → digits (pad_digits n v acc).
Proof.
  revert v acc. induction n as [|n IH]; intros v acc H; cbn; [done|]. apply IH. constructor; [|done].
  apply isdigit_digit_char, Z.mod_pos_bound. lia.
Qed.
Lemma pad_digits_head n v acc : 10 ^ Z.of_nat n ≤ v < 10 ^ Z.of_nat (S n) →
  ∃ c l, pad_digits (S n) v acc = c :: l ∧ c ≠ "0"%char.
Proof.
  revert v acc. induction n as [|n IH]; intros v acc Hv.
  - cbn in Hv. eexists _, _. split; [done|]. rewrite Z.mod_small by lia. intros Hz%digit_char_zero; lia.
  - change (pad_digits (S (S n)) v acc) with (pad_digits (S n) (v `div` 10) (digit_char (v `mod` 10) :: acc)). apply IH.
    rewrite Nat2Z.inj_succ, Z.pow_succ_r in Hv by lia.
    rewrite (Nat2Z.inj_succ (S n)), Z.pow_succ_r in Hv by lia.
    split; [apply Z.div_le_lower_bound; lia|apply Z.div_lt_upper_bound; lia].
Qed.
Lemma length_pad_digits n v acc : length (pad_digits n v acc) = (n + length acc)%nat.
Proof. revert v acc. induction n as [|n IH]; intros v acc; cbn; [done|]. rewrite IH. cbn. lia. Qed.
Lemma drop_zeros_digits l : digits l → digits (drop_zeros l).
Proof.
  induction 1 as [|c l Hc Hl IH]; cbn; [constructor|].
  destruct (drop_zeros l); [case_bool_decide|]; [by constructor|by repeat constructor|by constructor].
Qed.
Lemma with_fraction_number s w p r :
  digits w → integer_part w = true → digits p →
  match r with [] => True | c :: _ => isdigit c = false end → exponent_part r = true → fraction_part r = true →
  json_number (signed s (with_fraction w p ++ r)) = true.
Proof.
  intros Hw Hi Hp%drop_zeros_digits Hr He Hf. unfold with_fraction. destruct (drop_zeros p) as [|c f].
  - by apply json_number_parts.
  - rewrite <- app_assoc. rewrite <- app_comm_cons. apply json_number_parts; [done..|].
    by apply (fraction_digits (c :: f)).
Qed.

(** The search stops at the exponent unless there is none in its range. *)
Lemma search_exponent_spec n x num den :
  let y := search_exponent n x num den in
  y = x - Z.of_nat n ∨
  (x - Z.of_nat n < y ≤ x ∧ at_least_pow10 num den y = true ∧ (y < x → at_least_pow10 num den (y + 1) = false)).
Proof.
  revert x. induction n as [|n IH]; intros x; cbn [search_exponent]; [left; lia|].
  destruct (at_least_pow10 num den x) eqn:E; [right; split_and!; [lia..|done|lia]|].
  destruct (IH (x - 1)) as [H|(H1 & H2 & H3)]; [left; lia|]. right. split_and!; [lia..|done|].
  intros Hy. destruct (decide (search_exponent n (x - 1) num den = x - 1)) as [->|]; [|apply H3; lia].
  by replace (x - 1 + 1) with x by lia.
Qed.
Lemma round_half_even_bounds num den lo hi :
  0 < den → lo * den ≤ num ≤ hi * den → lo ≤ round_half_even num den ≤ hi.
Proof.
  intros Hd Hn. pose proof (Z.div_mod num den ltac:(lia)) as E. pose proof (Z.mod_pos_bound num den Hd) as Hm.
  assert (lo ≤ num `div` den) by (apply Z.div_le_lower_bound; lia).
  assert (num `div` den ≤ hi) by (apply Z.div_le_upper_bound; lia).
  unfold round_half_even. destruct (Z.eq_dec (num `div` den) hi) as [Eq|Ne].
  - assert (num `mod` den = 0) as -> by nia. destruct (Z.ltb_spec (2 * 0) den); lia.
  - destruct (_ <? _); [lia|]. destruct (_ <? _); [lia|]. destruct (Z.even _); lia.
Qed.
(** The digits start with a non-zero one where the notation is not scientific. *)
Lemma significant_head p num den v x :
  0 < den → (S p ≤ 308)%nat → significant (S p) num den = (v, x) → 0 ≤ x ≤ Z.of_nat p →
  10 ^ Z.of_nat p ≤ v < 10 ^ Z.of_nat (S p).
Proof.
  intros Hden Hp. unfold significant, significant_at, exponent10.
  set (y := search_exponent 633 308 num den). pose proof (search_exponent_spec 633 308 num den) as Hs.
  cbv zeta in Hs. fold y in Hs.
  replace (Z.of_nat (S p) - 1) with (Z.of_nat p) by lia.
  assert (Hpow : 0 < 10 ^ Z.of_nat p) by (apply Z.pow_pos_nonneg; lia).
  assert (Hsucc : 10 ^ Z.of_nat (S p) = 10 * 10 ^ Z.of_nat p) by (rewrite Nat2Z.inj_succ, Z.pow_succ_r by lia; done).
  set (w := if 0 <=? y - Z.of_nat p then _ else _).
  destruct (Z.eqb_spec w (10 ^ Z.of_nat (S p))) as [E|E]; intros [= <- <-] Hx; [lia|].
  destruct Hs as [Hs|(Hr & Ht & Hf)]; [lia|]. specialize (Hf ltac:(lia)).
  unfold at_least_pow10 in Ht, Hf. rewrite (proj2 (Z.leb_le 0 y)) in Ht by lia.
  rewrite (proj2 (Z.leb_le 0 (y + 1))) in Hf by lia.
  apply Z.leb_le in Ht. apply Z.leb_gt in Hf.
  assert (10 ^ Z.of_nat p ≤ w ≤ 10 ^ Z.of_nat (S p)) as Hw; [|lia].
  assert (H10 : 10 ^ (y + 1) = 10 * 10 ^ y) by (rewrite Z.add_1_r, Z.pow_succ_r by lia; done).
  unfold w. destruct (Z.leb_spec 0 (y - Z.of_nat p)) as [Hy|Hy].
  - replace y with (Z.of_nat p) in * by lia. rewrite Z.sub_diag, Z.pow_0_r, Z.mul_1_r.
    apply round_half_even_bounds; [lia|]. rewrite Hsucc. nia.
  - assert (Hk : 10 ^ Z.of_nat p = 10 ^ y * 10 ^ (- (y - Z.of_nat p))) by (rewrite <- Z.pow_add_r by lia; f_equal; lia).
    assert (0 < 10 ^ (- (y - Z.of_nat p))) by (apply Z.pow_pos_nonneg; lia).
    apply round_half_even_bounds; [lia|]. rewrite Hsucc, Hk. nia.
Qed.
Lemma exponent_sign_digits (b : bool) l : digits l → l ≠ [] →
  exponent_part ("e"%char :: (if b then "-"%char else "+"%char) :: l) = true.
Proof.
  intros Hl Hne. apply forallb_isdigit in Hl.
  destruct b; change (negb (bool_decide (l = [])) && forallb isdigit l = true); by rewrite Hl, bool_decide_false.
Qed.
Lemma exponent_is_fraction l : exponent_part ("e"%char :: l) = true → fraction_part ("e"%char :: l) = true.
Proof. done. Qed.
Lemma general_number s p num den :
  0 < den → (S p ≤ 308)%nat → json_number (signed s (general (S p) num den)) = true.
Proof.
  intros Hden Hp. unfold general. destruct (significant (S p) num den) as [v x] eqn:Es. unfold general_digits.
  assert (Hd : digits (pad_digits (S p) v [])) by (apply pad_digits_digits; constructor).
  pose proof (length_pad_digits (S p) v []) as Hlen. destruct (_ && _) eqn:Ex.
  - apply andb_true_iff in Ex as [E1 E2]. apply Z.leb_le in E1. apply Z.ltb_lt in E2.
    rewrite <- (app_nil_r (if 0 <=? x then _ else _)).
    destruct (Z.leb_spec 0 x) as [E0|E0].
    + destruct (pad_digits_head p v []) as (c & l & E & Hc).
      { eapply significant_head; [exact Hden|exact Hp|exact Es|lia]. }
      rewrite E in *. apply with_fraction_number; try done; [by apply Forall_take| |by apply Forall_drop].
      destruct (Z.to_nat (x + 1)) as [|k] eqn:Ek; [lia|]. cbn.
      rewrite (bool_decide_false (c = "0"%char)) by done. by rewrite orb_true_r.
    + apply with_fraction_number; try done; [by repeat constructor|].
      apply Forall_app. split; [|done]. by apply Forall_replicate.
  - set (ex := if Z.abs x <? 100 then _ else _).
    assert (He : digits ex ∧ ex ≠ []).
    { unfold ex. destruct (_ <? 100).
      - split; [apply pad_digits_digits; constructor|]. by destruct (pad_digits 2 _ _) eqn:E2;
          [apply (f_equal length) in E2; rewrite length_pad_digits in E2|].
      - split; [apply dec_digits_digits; constructor|apply print_nonneg_token]. }
    destruct (pad_digits (S p) v []) as [|c l]; [cbn in Hlen; lia|].
    apply with_fraction_number; try done; [by apply Forall_take|by apply Forall_drop|..].
    + by apply exponent_sign_digits; apply He.
    + by apply exponent_is_fraction, exponent_sign_digits; apply He.
Qed.
Lemma fixed6_number s num den : 0 < den → 0 ≤ num → json_number (signed s (fixed6 num den)) = true.
Proof.
  intros Hd Hn. unfold fixed6.
  assert (0 ≤ round_half_even (num * 1000000) den).
  { pose proof (Z.div_pos (num * 1000000) den ltac:(lia) Hd). unfold round_half_even.
    destruct (_ <? _); [lia|]. destruct (_ <? _); [lia|]. destruct (Z.even _); lia. }
  destruct (print_nonneg_integer (round_half_even (num * 1000000) den `div` 1000000)) as [H1 H2];
    [by apply Z.div_pos|].
  apply json_number_parts; [done..|]. rewrite <- (app_nil_r (pad_digits _ _ _)).
  apply fraction_digits; [apply pad_digits_digits; constructor| |done|done].
  intros E%(f_equal length). by rewrite length_pad_digits in E.
Qed.
Lemma fraction_positive m e : 0 < (fraction m e).2 ∧ 0 ≤ (fraction m e).1.
Proof.
  unfold fraction. destruct (Z.leb_spec 0 e); cbn; [split; [lia|]|split; [apply Z.pow_pos_nonneg; lia|lia]].
  apply Z.mul_nonneg_nonneg; [lia|]. apply Z.pow_nonneg. lia.
Qed.

Lemma token_well_formed t : token t → json_number t = true → well_formed (JNum t) = true.
Proof.
  intros H1 H2. cbn. rewrite H2. apply forallb_forall. intros c Hc.
  rewrite Forall_forall in H1. by apply H1, list_elem_of_In.
Qed.
Lemma jint_well_formed n : well_formed (jint n) = true.
Proof.
  unfold jint, print_int. rewrite <- (app_nil_r (print_nonneg (- n))), <- (app_nil_r (print_nonneg n)).
  destruct (Z.ltb_spec n 0).
  - destruct (print_nonneg_integer (- n)) as [H1 H2]; [lia|]. apply token_well_formed.
    + rewrite app_nil_r. by apply (signed_token true), print_nonneg_token.
    + by apply (json_number_parts true).
  - destruct (print_nonneg_integer n) as [H1 H2]; [lia|]. apply token_well_formed.
    + rewrite app_nil_r. apply print_nonneg_token.
    + by apply (json_number_parts false).
Qed.
(** Exactly the finite values are numbers, in either format. *)
Lemma print_precise_well_formed p d : (S p ≤ 308)%nat → well_formed (JNum (print_precise (S p) d)) = disfinite d.
Proof.
  intros Hp. destruct d as [s|s| |s m e]; [by destruct s..|done|].
  unfold print_precise. pose proof (fraction_positive m e) as [Hd _]. destruct (fraction m e) as [num den].
  apply token_well_formed; [apply signed_token, general_token|]. by apply general_number.
Qed.
Lemma jdouble_well_formed d : well_formed (jdouble d) = disfinite d.
Proof. apply print_precise_well_formed. lia. Qed.
Lemma jprecise_well_formed d : well_formed (jprecise d) = disfinite d.
Proof. apply print_precise_well_formed. lia. Qed.
Lemma jfixed_well_formed d : well_formed (jfixed d) = disfinite d.
Proof.
  destruct d as [s|s| |s m e]; [by destruct s..|done|].
  unfold jfixed, to_string_double. pose proof (fraction_positive m e) as [Hd Hn]. destruct (fraction m e) as [num den].
  apply token_well_formed; [apply signed_token, fixed6_token|]. by apply fixed6_number.
Qed.
(** Six decimals are within half a unit of the last one. *)
Lemma round_half_even_close num den :
  0 < den → 2 * Z.abs (round_half_even num den * den - num) ≤ den.
Proof.
  intros Hd. unfold round_half_even. pose proof (Z.div_mod num den ltac:(lia)) as E.
  pose proof (Z.mod_pos_bound num den Hd). set (q := num `div` den) in *. set (r := num `mod` den) in *.
  destruct (2 * r <? den) eqn:E1; [nia|]. destruct (den <? 2 * r) eqn:E2; [nia|]. destruct (Z.even q); nia.
Qed.
