(* ===== verification/ProfileWriter.v ===== *)
(** * Writing a thread profile ([src/thread_profile.cpp], [src/runtime.cpp])

    [write_thread_profile] and the export of the profile when the runtime is
    destroyed.  The text is a list of pieces, cut where the source switches
    between literal text, structural marks and quoted strings; its characters are
    those of the source's string literals. *)
From Stdlib Require Import SpecFloat Ascii.
From S2P Require Import Prelude Binary64 CpuList Topology Json ThreadProfile.
Local Open Scope string_scope.
Local Open Scope Z_scope.

(** ** Pieces *)
Inductive piece :=
  | Sep (l : list ascii)   (* literal text *)
  | Mark (c : ascii)       (* a brace or a bracket *)
  | Key (k : string)       (* the quoted name of a member *)
  | Val (s : list ascii).  (* a quoted string *)

Definition flat_piece (p : piece) : list ascii :=
  match p with
  | Sep l => l
  | Mark c => [c]
  | Key k => quoted_key k
  | Val s => (quote :: s ++ [quote])%list
  end.
Fixpoint flat (ps : list piece) : list ascii :=
  match ps with [] => [] | p :: ps' => (flat_piece p ++ flat ps')%list end.

Definition lit (s : string) : piece := Sep (chars s).
Definition colon : piece := lit ": ".
Definition comma : piece := lit ", ".
(** [",\n  "] and its likes *)
Definition break (before after : string) : piece := Sep (chars before ++ newline :: chars after)%list.
Definition str (s : string) : piece := Val (esc (chars s)).
Definition num (n : Z) : piece := Sep (print_int n).
Definition boolean (b : bool) : piece := lit (if b then "true" else "false").
(** [optional_json] *)
Definition opt (v : option string) : piece := match v with Some s => str s | None => lit "null" end.

(** ** The text *)
Definition affinity_pieces (a : ThreadProfileAffinity) : list piece :=
  [Mark "{"; Key "cpus"; colon; Val (chars (format_cpu_list (pa_cpus a))); Mark "}"].
Fixpoint affinities_pieces (l : list ThreadProfileAffinity) : list piece :=
  match l with
  | [] => []
  | [a] => affinity_pieces a
  | a :: l' => (affinity_pieces a ++ lit "," :: affinities_pieces l')%list
  end.
Definition match_pieces (m : ThreadProfileMatch) : list piece :=
  [Mark "{"; Key "comm"; colon; opt (pm_comm m); comma;
   Key "comm_prefix"; colon; opt (pm_comm_prefix m); comma;
   Key "cgroup"; colon; opt (pm_cgroup m); comma;
   Key "cgroup_prefix"; colon; opt (pm_cgroup_prefix m); comma;
   Key "tid"; colon; match pm_tid m with Some t => num t | None => lit "null" end; Mark "}"].
Definition rule_pieces (r : ThreadProfileRule) : list piece :=
  (Mark "{" :: Key "id" :: colon :: str (rule_id r) :: comma ::
   Key "match" :: colon :: match_pieces (rule_match r) ++ comma ::
   Key "allowed_cpus" :: colon :: Val (chars (format_cpu_list (rule_allowed_cpus r))) :: comma ::
   Key "dynamic" :: colon :: boolean (rule_dynamic r) :: comma ::
   Key "affinities" :: colon :: Mark "[" :: affinities_pieces (rule_affinities r) ++ [Mark "]"; Mark "}"])%list.
Fixpoint rules_pieces (l : list ThreadProfileRule) : list piece :=
  match l with
  | [] => []
  | r :: l' =>
      (lit "    " :: rule_pieces r ++ break (match l' with [] => "" | _ => "," end) "" :: rules_pieces l')%list
  end.

(** The members before [placements]; the written version is always 2. *)
Definition source_pieces (p : ThreadProfile) : list piece :=
  [Mark "{"; Key "commit"; colon; str (source_commit p); comma;
   Key "experiment_id"; colon; str (experiment_id p); comma; Key "test_id"; colon; str (test_id p); Mark "}"].
Definition applicability_pieces (p : ThreadProfile) : list piece :=
  [Mark "{"; Key "description"; colon; str (profile_description p); comma;
   Key "similarity"; colon; Mark "{"; Key "metric"; colon; Val []; comma; Key "threshold"; colon; lit "null"; comma;
   Key "reported_gap"; colon; lit "null"; Mark "}"; Mark "}"].
Definition dynamic_pieces (d : ThreadProfileDynamic) : list piece :=
  [Mark "{"; Key "enabled"; colon; boolean (dyn_enabled d); comma;
   Key "small_step_threads"; colon; num (small_step_threads d); comma;
   Key "large_change_ratio"; colon; Sep (print_double (large_change_ratio d)); comma;
   Key "large_step_threads"; colon; num (large_step_threads d); comma;
   Key "cooldown_seconds"; colon; num (cooldown_seconds d); Mark "}"].
Definition profile_pieces (p : ThreadProfile) : list piece :=
  (Mark "{" :: break "" "  " :: Key "schema_version" :: colon :: num 2 :: break "," "  " ::
   Key "profile_id" :: colon :: str (profile_id p) :: break "," "  " ::
   Key "generated_at" :: colon :: str (generated_at p) :: break "," "  " ::
   Key "status" :: colon :: str (profile_status p) :: break "," "  " ::
   Key "source" :: colon :: source_pieces p ++ break "," "  " ::
   Key "applicability" :: colon :: applicability_pieces p ++ break "," "  " ::
   Key "dynamic" :: colon :: dynamic_pieces (profile_dynamic p) ++ break "," "  " ::
   Key "placements" :: colon :: Mark "[" :: break "" "" ::
   rules_pieces (placements p) ++ lit "  " :: Mark "]" :: break "" "" :: Mark "}" :: [break "" ""])%list.
Definition profile_text (p : ThreadProfile) : list ascii := flat (profile_pieces p).

(** ** The file *)

(** The operations on the file system.  The stream's state is not checked after
    the writes, so the file may hold less than the text. *)
Record ProfileFs := mk_ProfileFs {
  fs_make_parent : string → result unit;        (* create_directories(parent_path) *)
  fs_opens : string → bool;                     (* the temporary file opens *)
  fs_stored : list ascii → list ascii;          (* what reaches the disk *)
  fs_renames : string → string → result unit;   (* rename *)
}.
Definition write_thread_profile (fs : ProfileFs) (p : ThreadProfile) (path : string)
    (files : gmap string (list ascii)) : gmap string (list ascii) * result unit :=
  match fs_make_parent fs path with
  | Throw e => (files, Throw e)
  | Ok _ =>
      let temporary := path +:+ ".tmp" in
      if negb (fs_opens fs temporary)
      then (files, Throw (runtime_error ("cannot write thread profile: " +:+ temporary)))
      else
        let stored := fs_stored fs (profile_text p) in
        let files := <[temporary := stored]> files in
        match fs_renames fs temporary path with
        | Throw e => (files, Throw e)
        | Ok _ => (<[path := stored]> (delete temporary files), Ok tt)
        end
  end.

(** ** The export of [~Runtime] *)
Definition exported_profile (p : ThreadProfile) (now experiment test : string) : ThreadProfile :=
  mk_ThreadProfile (schema_version p) (profile_id p) now "candidate" (source_commit p) experiment test
    (profile_description p) (profile_dynamic p) (placements p).
Definition export_path (log_directory profile_output_path : string) : string :=
  if bool_decide (profile_output_path = "") then log_directory +:+ "/profiles/thread-profile-candidate.json"
  else profile_output_path.
(** The text of the exception becomes a log line, never an exception of the
    destructor. *)
Definition export_profile (fs : ProfileFs) (profile : option ThreadProfile)
    (now experiment test log_directory profile_output_path : string) (files : gmap string (list ascii)) :
    gmap string (list ascii) * option (result unit) :=
  match profile with
  | None => (files, None)
  | Some p =>
      let '(files, r) := write_thread_profile fs (exported_profile p now experiment test)
                           (export_path log_directory profile_output_path) files in
      (files, Some r)
  end.
