(* ===== verification/ProfilePieces.v ===== *)
(** * The loader's scans over text made of pieces

    The loader of [ThreadProfile] searches raw text.  On the text of well-formed
    pieces each of its scans ([search_field], [find_text], [close_scan],
    [objects_scan]) is a scan of the pieces. *)
From Stdlib Require Import SpecFloat Ascii.
From S2P Require Import Prelude Binary64 CpuList Topology Json ThreadProfile ProfileProperties ProfileWriter.
Local Open Scope string_scope.
Local Open Scope Z_scope.

(** ** Well-formed pieces *)

(** No quote and no backslash: the scans do not see it as the start of a string. *)
Definition unquoted (c : ascii) : bool := negb (bool_decide (c = quote)) && negb (bool_decide (c = backslash)).
Definition is_mark (c : ascii) : bool :=
  bool_decide (c = "{"%char) || bool_decide (c = "}"%char) || bool_decide (c = "["%char) || bool_decide (c = "]"%char).
Definition sep_char (c : ascii) : bool := unquoted c && negb (is_mark c).
Definition after_key (ps : list piece) : Prop :=
  match ps with Sep (c :: _) :: _ => c = ":"%char | _ => False end.
Definition after_val (ps : list piece) : Prop :=
  match ps with
  | [] => True
  | Sep (c :: _) :: _ => c = ","%char
  | Mark c :: _ => c = "}"%char
  | _ => False
  end.
Fixpoint wf (ps : list piece) : Prop :=
  match ps with
  | [] => True
  | Sep l :: ps' => forallb sep_char l = true ∧ wf ps'
  | Mark c :: ps' => is_mark c = true ∧ wf ps'
  | Key k :: ps' => forallb unquoted (chars k) = true ∧ after_key ps' ∧ wf ps'
  | Val s :: ps' => forallb unquoted s = true ∧ after_val ps' ∧ wf ps'
  end.
(** A name that can be searched for. *)
Definition name_ok (key : string) : Prop :=
  forallb unquoted (chars key) = true ∧
  match chars key with c :: _ => c ≠ ":"%char ∧ c ≠ ","%char ∧ c ≠ "}"%char | [] => False end.

Lemma unquoted_not_quote l : forallb unquoted l = true → quote ∉ l.
Proof.
  intros H Hin. rewrite forallb_forall in H. apply list_elem_of_In, H in Hin. by vm_compute in Hin.
Qed.
Lemma sep_unquoted l : forallb sep_char l = true → forallb unquoted l = true.
Proof. rewrite !forallb_forall. intros H c Hc%H. by apply andb_true_iff in Hc as [? _]. Qed.
Lemma mark_not_quote c : is_mark c = true → c ≠ quote ∧ c ≠ backslash.
Proof. intros H. split; intros ->; by vm_compute in H. Qed.
Lemma sep_not_mark l c : forallb sep_char l = true → is_mark c = true → c ∉ l.
Proof.
  intros H Hc Hin. rewrite forallb_forall in H. apply list_elem_of_In, H in Hin.
  apply andb_true_iff in Hin as [_ Hin]. by rewrite Hc in Hin.
Qed.

(** What stands behind the closing quote. *)
Definition closes (r : list ascii) : Prop :=
  match r with [] => True | c :: _ => c = ":"%char ∨ c = ","%char ∨ c = "}"%char end.
Lemma after_key_flat ps : after_key ps → ∃ r, flat ps = (":"%char :: r)%list.
Proof. destruct ps as [|[[|c l]| | |] ps]; cbn; try done. intros ->. by eexists. Qed.
Lemma after_val_flat ps : after_val ps → closes (flat ps) ∧ strip_prefix [":"%char] (drop_spaces (flat ps)) = None.
Proof.
  destruct ps as [|[[|c l]|c| |] ps]; cbn; try done; intros ->; cbn; split; auto.
Qed.

(** A quoted key against a quoted string: equality. *)
Lemma strip_quoted k s r :
  quote ∉ k → quote ∉ s →
  strip_prefix (k ++ [quote])%list (s ++ quote :: r)%list = if bool_decide (k = s) then Some r else None.
Proof.
  revert s. induction k as [|c k IH]; intros [|d s] Hk Hs.
  - done.
  - cbn. apply not_elem_of_cons in Hs as [Hd _]. by rewrite bool_decide_eq_false_2.
  - cbn. apply not_elem_of_cons in Hk as [Hc _]. by rewrite bool_decide_eq_false_2.
  - apply not_elem_of_cons in Hk as [Hc Hk]. apply not_elem_of_cons in Hs as [Hd Hs].
    cbn [app strip_prefix]. destruct (decide (c = d)) as [->|Hne].
    + rewrite bool_decide_eq_true_2 by done. rewrite IH by done.
      by rewrite (bool_decide_ext (k = s) (d :: k = d :: s)) by naive_solver.
    + rewrite !bool_decide_eq_false_2; [done|naive_solver|done].
Qed.
Lemma strip_closing key r : name_ok key → closes r → strip_prefix (quoted_key key) (quote :: r) = None.
Proof.
  intros [_ Hn] Hr. unfold quoted_key. cbn [app strip_prefix]. rewrite bool_decide_eq_true_2 by done.
  destruct (chars key) as [|c k]; [done|]. destruct r as [|d r]; [done|]. cbn [app strip_prefix].
  rewrite bool_decide_eq_false_2; [done|]. destruct Hr as [->|[->| ->]]; naive_solver.
Qed.

(** ** [search_field] over pieces *)
Fixpoint tsearch {A} (key : string) (value : list ascii → option A) (ps : list piece) : option A :=
  match ps with
  | [] => None
  | Key k :: ps' =>
      match (if String.eqb key k
             then rest ← strip_prefix [":"%char] (drop_spaces (flat ps')); value (drop_spaces rest)
             else None) with
      | Some a => Some a
      | None => tsearch key value ps'
      end
  | _ :: ps' => tsearch key value ps'
  end.
Lemma search_skip {A} key (value : list ascii → option A) l r :
  quote ∉ l → search_field key value (l ++ r)%list = search_field key value r.
Proof.
  induction l as [|c l IH]; intros Hl; [done|]. apply not_elem_of_cons in Hl as [Hc Hl].
  cbn [app search_field quoted_key strip_prefix]. rewrite bool_decide_eq_false_2 by done.
  cbn [mbind option_bind]. by apply IH.
Qed.
(** The string itself, then the search behind it. *)
Lemma search_string {A} key (value : list ascii → option A) s r :
  name_ok key → quote ∉ s → closes r →
  search_field key value (quote :: s ++ quote :: r)%list =
  match (if bool_decide (chars key = s)
         then rest ← strip_prefix [":"%char] (drop_spaces r); value (drop_spaces rest) else None) with
  | Some a => Some a
  | None => search_field key value r
  end.
Proof.
  intros Hk Hs Hr. cbn [search_field].
  assert (strip_prefix (quoted_key key) (quote :: s ++ quote :: r)%list =
    if bool_decide (chars key = s) then Some r else None) as ->.
  { unfold quoted_key. cbn [app strip_prefix]. rewrite bool_decide_eq_true_2 by done.
    apply strip_quoted; [|done]. apply unquoted_not_quote, Hk. }
  assert (search_field key value (s ++ quote :: r)%list = search_field key value r) as ->.
  { rewrite search_skip by done. cbn [search_field]. by rewrite (strip_closing key r Hk Hr). }
  by destruct (bool_decide _).
Qed.
Lemma chars_inj a b : chars a = chars b → a = b.
Proof.
  intros H. rewrite <- (String.string_of_list_ascii_of_string a), <- (String.string_of_list_ascii_of_string b).
  by f_equal.
Qed.
Lemma chars_eqb a b : bool_decide (chars a = chars b) = String.eqb a b.
Proof.
  destruct (String.eqb_spec a b) as [->|H]; [by apply bool_decide_eq_true_2|].
  apply bool_decide_eq_false_2. intros E. by apply H, chars_inj.
Qed.
Lemma flat_key k ps : flat (Key k :: ps) = (quote :: chars k ++ quote :: flat ps)%list.
Proof. cbn. unfold quoted_key. cbn. by rewrite <- app_assoc. Qed.
Lemma flat_val s ps : flat (Val s :: ps) = (quote :: s ++ quote :: flat ps)%list.
Proof. cbn. by rewrite <- app_assoc. Qed.

Lemma search_pieces {A} key (value : list ascii → option A) ps :
  name_ok key → wf ps → search_field key value (flat ps) = tsearch key value ps.
Proof.
  intros Hk. induction ps as [|[l|c|k|s] ps IH]; [done|..]; cbn [wf tsearch].
  - intros [Hl Hw]. cbn [flat flat_piece]. rewrite search_skip; [by apply IH|]. by apply unquoted_not_quote, sep_unquoted.
  - intros [Hc Hw]. cbn [flat flat_piece]. rewrite search_skip; [by apply IH|].
    apply mark_not_quote in Hc as [Hc _]. set_solver.
  - intros (Hq & Ha & Hw). destruct (after_key_flat _ Ha) as [r Hr].
    rewrite flat_key, search_string, chars_eqb; [by rewrite IH|done|by apply unquoted_not_quote|rewrite Hr; by left].
  - intros (Hq & Ha & Hw). destruct (after_val_flat _ Ha) as [Hc Hn].
    rewrite flat_val, search_string, Hn; [|done|by apply unquoted_not_quote|done].
    cbn [mbind option_bind]. rewrite IH by done. by destruct (bool_decide _).
Qed.

(** ** [text.find] over pieces *)
Fixpoint tfind (key : string) (ps : list piece) : option (list piece) :=
  match ps with
  | [] => None
  | Key k :: ps' => if String.eqb key k then Some ps else tfind key ps'
  | Val s :: ps' => if bool_decide (chars key = s) then Some ps else tfind key ps'
  | _ :: ps' => tfind key ps'
  end.
Lemma find_skip needle l r : quote ∉ l → find_text (quote :: needle) (l ++ r)%list = find_text (quote :: needle) r.
Proof.
  induction l as [|c l IH]; intros Hl; [done|]. apply not_elem_of_cons in Hl as [Hc Hl].
  cbn [app find_text strip_prefix]. rewrite bool_decide_eq_false_2 by done. by apply IH.
Qed.
Lemma find_string key s r :
  name_ok key → quote ∉ s → closes r →
  find_text (quoted_key key) (quote :: s ++ quote :: r)%list =
  if bool_decide (chars key = s) then Some (quote :: s ++ quote :: r)%list else find_text (quoted_key key) r.
Proof.
  intros Hk Hs Hr. cbn [find_text].
  assert (strip_prefix (quoted_key key) (quote :: s ++ quote :: r)%list =
    if bool_decide (chars key = s) then Some r else None) as ->.
  { unfold quoted_key. cbn [app strip_prefix]. rewrite bool_decide_eq_true_2 by done.
    apply strip_quoted; [|done]. apply unquoted_not_quote, Hk. }
  destruct (bool_decide _); [done|]. unfold quoted_key at 1. cbn [app]. rewrite find_skip by done.
  change (quote :: chars key ++ [quote])%list with (quoted_key key). cbn [find_text].
  by rewrite (strip_closing key r Hk Hr).
Qed.
Lemma find_pieces key ps :
  name_ok key → wf ps → find_text (quoted_key key) (flat ps) = flat <$> tfind key ps.
Proof.
  intros Hk. induction ps as [|[l|c|k|s] ps IH]; [done|..]; cbn [wf tfind].
  - intros [Hl Hw]. cbn [flat flat_piece]. unfold quoted_key. cbn [app]. rewrite find_skip; [by apply IH|].
    by apply unquoted_not_quote, sep_unquoted.
  - intros [Hc Hw]. cbn [flat flat_piece]. change (quoted_key key) with (quote :: chars key ++ [quote])%list.
    rewrite find_skip; [by apply IH|].
    apply mark_not_quote in Hc as [Hc _]. set_solver.
  - intros (Hq & Ha & Hw). destruct (after_key_flat _ Ha) as [r Hr].
    rewrite flat_key, find_string, chars_eqb; [|done|by apply unquoted_not_quote|rewrite Hr; by left].
    rewrite IH by done. destruct (String.eqb key k); [|done]. cbn [fmap option_fmap option_map]. by rewrite flat_key.
  - intros (Hq & Ha & Hw). destruct (after_val_flat _ Ha) as [Hc Hn].
    rewrite flat_val, find_string; [|done|by apply unquoted_not_quote|done].
    rewrite IH by done. destruct (bool_decide _); [|done]. cbn [fmap option_fmap option_map]. by rewrite flat_val.
Qed.

Lemma wf_tail q ps : wf (q :: ps) → wf ps.
Proof. destruct q; cbn; tauto. Qed.
Lemma tfind_wf key ps ps' : wf ps → tfind key ps = Some ps' → wf ps'.
Proof.
  induction ps as [|q ps IH]; [done|]. intros Hw. pose proof (wf_tail _ _ Hw) as Ht.
  destruct q as [| |k|s]; cbn [tfind]; try by apply IH.
  - destruct (String.eqb key k); [by intros [= <-]|by apply IH].
  - destruct (bool_decide _); [by intros [= <-]|by apply IH].
Qed.

(** ** The scan for the closing mark *)
Fixpoint tclose (open close : ascii) (depth : Z) (ps : list piece) : option (list piece) :=
  match ps with
  | [] => None
  | Mark c :: ps' =>
      let depth := if bool_decide (c = open) then depth + 1 else depth in
      if bool_decide (c = close) then
        if depth - 1 =? 0 then Some [] else cons (Mark c) <$> tclose open close (depth - 1) ps'
      else cons (Mark c) <$> tclose open close depth ps'
  | p :: ps' => cons p <$> tclose open close depth ps'
  end.
Section close.
Context (open close : ascii) (Ho : is_mark open = true) (Hc : is_mark close = true).

Lemma close_plain prev depth acc l r :
  forallb sep_char l = true → prev ≠ backslash →
  ∃ prev', prev' ≠ backslash ∧
    close_scan open close prev false depth acc (l ++ r)%list = close_scan open close prev' false depth (rev l ++ acc)%list r.
Proof.
  revert prev acc. induction l as [|c l IH]; intros prev acc; cbn [forallb]; [by exists prev|].
  intros [Hs Hl]%andb_true_iff Hp. unfold sep_char, unquoted in Hs. bool_hyps.
  destruct (IH c (c :: acc) Hl) as (prev' & Hp' & E); [done|]. exists prev'. split; [done|].
  cbn [app close_scan rev]. rewrite !(bool_decide_eq_false_2 (c = _)) by (done || (intros ->; congruence)).
  cbn [andb]. rewrite E, <- app_assoc. done.
Qed.
Lemma close_quoted prev depth acc s r :
  forallb unquoted s = true → prev ≠ backslash →
  close_scan open close prev true depth acc (s ++ quote :: r)%list =
  close_scan open close quote false depth (quote :: rev s ++ acc)%list r.
Proof.
  revert prev acc. induction s as [|c s IH]; intros prev acc; cbn [forallb].
  - intros _ Hp. cbn [app close_scan rev]. rewrite (bool_decide_eq_true_2 (quote = quote)) by done.
    rewrite (bool_decide_eq_false_2 (prev = _)) by done. cbn [andb negb].
    rewrite !bool_decide_eq_false_2; [done|..]; intros E; rewrite <- E in *; by vm_compute in Ho, Hc.
  - intros [Hs Hl]%andb_true_iff Hp. unfold unquoted in Hs. bool_hyps.
    cbn [app close_scan rev]. rewrite (bool_decide_eq_false_2 (c = quote)) by done. cbn [andb].
    rewrite IH by done. by rewrite <- app_assoc.
Qed.
Lemma close_string prev depth acc s r :
  forallb unquoted s = true → prev ≠ backslash →
  close_scan open close prev false depth acc (quote :: s ++ quote :: r)%list =
  close_scan open close quote false depth (rev (quote :: s ++ [quote])%list ++ acc)%list r.
Proof.
  intros Hs Hp. cbn [close_scan]. rewrite (bool_decide_eq_true_2 (quote = quote)) by done.
  rewrite (bool_decide_eq_false_2 (prev = _)) by done. cbn [andb negb].
  rewrite close_quoted by done. cbn [rev]. rewrite rev_app_distr. cbn. by rewrite <- app_assoc.
Qed.
Lemma close_pieces prev depth acc ps :
  wf ps → prev ≠ backslash →
  close_scan open close prev false depth acc (flat ps) =
  (λ inner, rev acc ++ flat inner)%list <$> tclose open close depth ps.
Proof.
  revert prev depth acc. induction ps as [|[l|c|k|s] ps IH]; intros prev depth acc; [done|..]; cbn [wf tclose].
  - intros [Hl Hw] Hp. cbn [flat flat_piece]. destruct (close_plain prev depth acc l (flat ps) Hl Hp) as (p' & Hp' & ->).
    rewrite IH by done. rewrite rev_app_distr, rev_involutive. destruct (tclose _ _ _ ps); [|done]. cbn.
    by rewrite <- app_assoc.
  - intros [Hm Hw] Hp. destruct (mark_not_quote c Hm) as [Hcq Hcb]. cbn [flat flat_piece app close_scan].
    rewrite (bool_decide_eq_false_2 (c = quote)) by done. cbn [andb].
    repeat case_match; rewrite ?IH by done; cbn; rewrite ?app_nil_r; try done;
      destruct (tclose _ _ _ ps); cbn; rewrite <- ?app_assoc; done.
  - intros (Hq & _ & Hw) Hp. rewrite flat_key, close_string by done. rewrite IH by done.
    rewrite rev_app_distr, rev_involutive. destruct (tclose _ _ _ ps); [|done]. cbn [fmap option_fmap option_map].
    rewrite flat_key, <- app_assoc. cbn. by rewrite <- app_assoc.
  - intros (Hq & _ & Hw) Hp. rewrite flat_val, close_string by done. rewrite IH by done.
    rewrite rev_app_distr, rev_involutive. destruct (tclose _ _ _ ps); [|done]. cbn [fmap option_fmap option_map].
    rewrite flat_val, <- app_assoc. cbn. by rewrite <- app_assoc.
Qed.

(** [object_after], when the name is found as the key of a container. *)
Lemma object_pieces key ps l ps' inner :
  name_ok key → forallb sep_char (chars key) = true → wf ps →
  tfind key ps = Some (Key key :: Sep l :: Mark open :: ps') →
  tclose open close 1 ps' = Some inner →
  object_after (flat ps) key open close = Ok (flat inner).
Proof.
  intros Hk Hkm Hw Hf Hi. pose proof (wf_tail _ _ (tfind_wf _ _ _ Hw Hf)) as Hw'. unfold object_after. rewrite find_pieces, Hf by done. cbn [fmap option_fmap option_map].
  cbn [wf] in Hw'. destruct Hw' as (Hl & _ & Hw').
  assert (E : flat (Key key :: Sep l :: Mark open :: ps') =
    ((quoted_key key ++ l) ++ open :: flat ps')%list) by (cbn [flat flat_piece]; by rewrite <- app_assoc).
  rewrite E, split_first_app; cycle 1.
  { rewrite elem_of_app. intros [Hin|Hin]; [|by apply (sep_not_mark l open)].
    unfold quoted_key in Hin. destruct (mark_not_quote open Ho) as [Hq _].
    rewrite elem_of_cons, elem_of_app, list_elem_of_singleton in Hin.
    destruct Hin as [?|[Hin|?]]; [done| |done]. by apply (sep_not_mark (chars key) open). }
  rewrite close_pieces, Hi; [done|done|]. by destruct (mark_not_quote open Ho).
Qed.
End close.

(** ** [objects] over pieces *)
Fixpoint tobjects (depth : Z) (cur ps : list piece) : list (list piece) :=
  match ps with
  | [] => []
  | Mark c :: ps' =>
      if bool_decide (c = "{"%char) then tobjects (depth + 1) (if depth =? 0 then [Mark c] else cur ++ [Mark c])%list ps'
      else if bool_decide (c = "}"%char) then
        if depth - 1 =? 0 then (cur ++ [Mark c])%list :: tobjects (depth - 1) (cur ++ [Mark c])%list ps'
        else tobjects (depth - 1) (cur ++ [Mark c])%list ps'
      else tobjects depth (cur ++ [Mark c])%list ps'
  | p :: ps' => tobjects depth (cur ++ [p])%list ps'
  end.
Lemma flat_app a b : flat (a ++ b)%list = (flat a ++ flat b)%list.
Proof. induction a as [|p a IH]; cbn; [done|]. by rewrite IH, app_assoc. Qed.

Lemma objects_plain first prev depth cur l r :
  forallb sep_char l = true → prev ≠ backslash →
  ∃ first' prev', prev' ≠ backslash ∧
    objects_scan first prev false depth cur (l ++ r)%list = objects_scan first' prev' false depth (rev l ++ cur)%list r.
Proof.
  revert first prev cur. induction l as [|c l IH]; intros first prev cur; cbn [forallb]; [by exists first, prev|].
  intros [Hs Hl]%andb_true_iff Hp. unfold sep_char, unquoted in Hs. bool_hyps.
  destruct (IH false c (c :: cur) Hl) as (f' & prev' & Hp' & E); [done|]. exists f', prev'. split; [done|].
  cbn [app objects_scan rev]. rewrite !(bool_decide_eq_false_2 (c = _)) by (done || (intros ->; by vm_compute in *)).
  cbn [andb]. rewrite E, <- app_assoc. done.
Qed.
Lemma objects_quoted prev depth cur s r :
  forallb unquoted s = true → prev ≠ backslash →
  objects_scan false prev true depth cur (s ++ quote :: r)%list =
  objects_scan false quote false depth (quote :: rev s ++ cur)%list r.
Proof.
  revert prev cur. induction s as [|c s IH]; intros prev cur; cbn [forallb].
  - intros _ Hp. cbn [app objects_scan rev]. rewrite (bool_decide_eq_true_2 (quote = quote)) by done.
    by rewrite (bool_decide_eq_false_2 (prev = _)).
  - intros [Hs Hl]%andb_true_iff Hp. unfold unquoted in Hs. bool_hyps.
    cbn [app objects_scan rev]. rewrite (bool_decide_eq_false_2 (c = quote)) by done. cbn [andb].
    rewrite IH by done. by rewrite <- app_assoc.
Qed.
Lemma objects_string first prev depth cur s r :
  forallb unquoted s = true → prev ≠ backslash →
  objects_scan first prev false depth cur (quote :: s ++ quote :: r)%list =
  objects_scan false quote false depth (rev (quote :: s ++ [quote])%list ++ cur)%list r.
Proof.
  intros Hs Hp. cbn [objects_scan]. rewrite (bool_decide_eq_true_2 (quote = quote)) by done.
  rewrite (bool_decide_eq_false_2 (prev = _)) by done. rewrite orb_true_r. cbn [andb negb].
  rewrite objects_quoted by done. cbn [rev]. rewrite rev_app_distr. cbn. by rewrite <- app_assoc.
Qed.
Lemma rev_flat_snoc cur p : rev (flat (cur ++ [p])%list) = (rev (flat_piece p) ++ rev (flat cur))%list.
Proof. rewrite flat_app. cbn. by rewrite app_nil_r, rev_app_distr. Qed.
Lemma objects_scan_pieces first prev depth cur ps :
  wf ps → prev ≠ backslash →
  objects_scan first prev false depth (rev (flat cur)) (flat ps) = flat <$> tobjects depth cur ps.
Proof.
  revert first prev depth cur. induction ps as [|[l|c|k|s] ps IH]; intros first prev depth cur; [done|..];
    cbn [wf tobjects].
  - intros [Hl Hw] Hp. destruct (objects_plain first prev depth (rev (flat cur)) l (flat ps) Hl Hp)
      as (f' & p' & Hp' & E). cbn [flat flat_piece]. rewrite E.
    change l with (flat_piece (Sep l)) at 1. by rewrite <- rev_flat_snoc, IH.
  - intros [Hm Hw] Hp. destruct (mark_not_quote c Hm) as [Hcq Hcb]. cbn [flat flat_piece app objects_scan].
    rewrite (bool_decide_eq_false_2 (c = quote)) by done. cbn [andb].
    assert (E : (c :: rev (flat cur))%list = rev (flat (cur ++ [Mark c])%list)) by by rewrite rev_flat_snoc.
    rewrite !E. destruct (bool_decide (c = "{"%char)).
    + destruct (depth =? 0); [|by rewrite IH]. change [c] with (rev (flat [Mark c])). by rewrite IH.
    + destruct (bool_decide _); [|by rewrite IH]. destruct (depth - 1 =? 0); [|by rewrite IH].
      cbn [fmap list_fmap]. by rewrite IH, rev_involutive.
  - intros (Hq & _ & Hw) Hp. rewrite flat_key, objects_string by done.
    change (quote :: chars k ++ [quote])%list with (flat_piece (Key k)). by rewrite <- rev_flat_snoc, IH.
  - intros (Hq & _ & Hw) Hp. rewrite flat_val, objects_string by done.
    change (quote :: s ++ [quote])%list with (flat_piece (Val s)). by rewrite <- rev_flat_snoc, IH.
Qed.
Lemma objects_pieces ps : wf ps → objects (flat ps) = flat <$> tobjects 0 [] ps.
Proof. intros Hw. by apply (objects_scan_pieces true quote 0 []). Qed.
