(* ===== verification/ProfileRoundTrip.v ===== *)
(** * A written profile is read back

    The round trip of a whole profile through [write_thread_profile] and
    [load_thread_profile], member by member, and what it takes. *)
From Stdlib Require Import SpecFloat Ascii.
From S2P Require Import Prelude Binary64 CpuList Topology Json ThreadProfile ProfileProperties ProfileWriter ProfilePieces.
Local Open Scope string_scope.
Local Open Scope Z_scope.

(** ** Values *)
Lemma span_app p a r :
  match r with c :: _ => p c = false | [] => True end →
  span p (a ++ r)%list = let '(x, y) := span p a in (x, (y ++ r)%list).
Proof.
  intros Hr. induction a as [|c a IH]; cbn.
  - destruct r as [|c r]; [done|]. cbn. by rewrite Hr.
  - destruct (p c); [|done]. rewrite IH. by destruct (span p a).
Qed.
(** Behind a number stands a comma or a brace. *)
Definition ends_number (r : list ascii) : Prop :=
  match r with [] => True | c :: _ => c = ","%char ∨ c = "}"%char end.
Lemma ends_number_digit r : ends_number r → match r with c :: _ => isdigit c = false | [] => True end.
Proof. destruct r; [done|]. by intros [->| ->]. Qed.
(** [number_value] behind the sign. *)
Definition digits_value_of (sign body : list ascii) : option (list ascii) :=
  let '(ip, rest) := span isdigit body in
  if bool_decide (ip = []) then None else
  let fraction :=
    match rest with
    | c :: r => if bool_decide (c = "."%char) then
                  let '(fp, _) := span isdigit r in if bool_decide (fp = []) then [] else c :: fp
                else []
    | [] => []
    end in
  Some ((sign ++ ip ++ fraction)%list).
Lemma digits_value_of_app sign body r : ends_number r → digits_value_of sign (body ++ r)%list = digits_value_of sign body.
Proof.
  intros Hr. pose proof (ends_number_digit r Hr) as Hd. unfold digits_value_of. rewrite span_app by done.
  destruct (span isdigit body) as [ip y]. case_bool_decide; [done|]. destruct y as [|d y].
  - destruct r as [|e r]; [done|]. by destruct Hr as [->| ->].
  - cbn [app]. case_bool_decide; [|done]. rewrite span_app by done. by destruct (span isdigit y).
Qed.
Lemma number_value_app t r : t ≠ [] → ends_number r → number_value (t ++ r)%list = number_value t.
Proof.
  intros Ht Hr. destruct t as [|c t]; [done|].
  pose proof (digits_value_of_app [c] t r Hr) as H1. pose proof (digits_value_of_app [] (c :: t) r Hr) as H2.
  unfold number_value. cbn [app] in *. destruct (bool_decide _); [exact H1|exact H2].
Qed.
Lemma span_all p l : Forall (λ c, p c = true) l → span p l = (l, []).
Proof. induction 1 as [|c l Hc _ IH]; cbn; [done|]. by rewrite Hc, IH. Qed.
Lemma print_int_digits n : 0 ≤ n → ∃ c l, print_int n = (c :: l)%list ∧ Forall (λ c, isdigit c = true) (c :: l) ∧
  digits_value 0 (c :: l) = n.
Proof.
  intros Hn. unfold print_int. destruct (Z.ltb_spec n 0); [lia|]. destruct (print_nonneg_spec n Hn) as (c & l & ? & ? & ?).
  by exists c, l.
Qed.
Lemma digit_not_sign c : isdigit c = true → c ≠ "-"%char ∧ c ≠ "+"%char.
Proof. intros H. split; intros ->; by vm_compute in H. Qed.
Lemma number_value_int n : 0 ≤ n → number_value (print_int n) = Some (print_int n).
Proof.
  intros Hn. destruct (print_int_digits n Hn) as (c & l & -> & Hd & _). unfold number_value.
  destruct (digit_not_sign c (Forall_inv Hd)). rewrite bool_decide_eq_false_2 by naive_solver.
  rewrite span_all by done. cbn. by rewrite app_nil_r.
Qed.
Lemma stoll_int n : 0 ≤ n < 2 ^ 63 → stoll (print_int n) = Ok n.
Proof.
  intros Hn. destruct (print_int_digits n) as (c & l & -> & Hd & Hv); [lia|]. unfold stoll.
  destruct (digit_not_sign c (Forall_inv Hd)). rewrite !bool_decide_eq_false_2 by done. rewrite Hv.
  destruct (Z.ltb_spec n (- 2 ^ 63)); [lia|]. destruct (Z.ltb_spec (2 ^ 63 - 1) n); [lia|]. done.
Qed.
Lemma to_int_id n : 0 ≤ n < 2 ^ 31 → to_int n = n.
Proof. intros. unfold to_int. rewrite Z.mod_small; lia. Qed.
Lemma drop_spaces_head c l : isspace c = false → drop_spaces (c :: l) = (c :: l)%list.
Proof. intros H. cbn. by rewrite H. Qed.
Lemma drop_spaces_int n r : 0 ≤ n → drop_spaces (print_int n ++ r)%list = (print_int n ++ r)%list.
Proof.
  intros Hn. destruct (print_int_digits n Hn) as (c & l & -> & Hd & _).
  apply drop_spaces_head, isdigit_not_space, (Forall_inv Hd).
Qed.
Lemma digit_sep c : isdigit c = true → sep_char c = true.
Proof.
  intros H. unfold sep_char, unquoted, is_mark.
  rewrite !bool_decide_eq_false_2; [done|..]; intros ->; by vm_compute in H.
Qed.
Lemma print_int_sep n : 0 ≤ n → forallb sep_char (print_int n) = true.
Proof.
  intros Hn. destruct (print_int_digits n Hn) as (c & l & -> & Hd & _). apply forallb_forall.
  intros x Hx%list_elem_of_In. rewrite Forall_forall in Hd. by apply digit_sep, Hd.
Qed.

(** ** Strings that survive *)

(** The names the loader looks for with a bare [text.find]. *)
Definition reserved : list string := ["source"; "applicability"; "dynamic"; "placements"; "match"; "affinities"].
Definition token_ok (s : string) : bool := forallb plain_char (chars s) && negb (bool_decide (s ∈ reserved)).
Definition opt_ok (v : option string) : bool := match v with Some s => token_ok s | None => true end.

Lemma plain_unquoted l : forallb plain_char l = true → forallb unquoted l = true.
Proof.
  rewrite !forallb_forall. intros H c Hc%H. unfold plain_char in Hc. unfold unquoted.
  apply andb_true_iff in Hc as [[_ ?]%andb_true_iff ?]. by apply andb_true_iff.
Qed.
Lemma str_token s : token_ok s = true → str s = Val (chars s) ∧ forallb plain_char (chars s) = true ∧ s ∉ reserved.
Proof. intros [Hp Hr]%andb_true_iff. unfold str. rewrite esc_plain by done. bool_hyps. done. Qed.
Lemma text_chars s : text (chars s) = s.
Proof. apply String.string_of_list_ascii_of_string. Qed.
Lemma string_value_plain s r : forallb plain_char s = true →
  string_value (drop_spaces (quote :: s ++ quote :: r)%list) = Some (Some (text s)).
Proof.
  intros Hs. rewrite drop_spaces_head by done. unfold string_value.
  assert (strip_prefix (chars "null") (quote :: s ++ quote :: r)%list = None) as -> by reflexivity.
  by rewrite bool_decide_eq_true_2, split_first_plain.
Qed.

Lemma str_value s ps : token_ok s = true → string_value (drop_spaces (flat (str s :: ps))) = Some (Some s).
Proof. intros (-> & Hp & _)%str_token. by rewrite flat_val, string_value_plain, text_chars. Qed.
Lemma opt_value v ps : opt_ok v = true → string_value (drop_spaces (flat (opt v :: ps))) = Some v.
Proof. destruct v as [s|]; [apply str_value|done]. Qed.
Lemma wf_str s ps : token_ok s = true → after_val ps → wf ps → wf (str s :: ps).
Proof. intros (-> & Hp & _)%str_token ? ?. split_and!; [by apply plain_unquoted|done|done]. Qed.
Lemma wf_opt v ps : opt_ok v = true → after_val ps → wf ps → wf (opt v :: ps).
Proof. destruct v as [s|]; [apply wf_str|]. intros _ _ ?. split; [done|done]. Qed.
Lemma wf_key k ps : forallb unquoted (chars k) = true → after_key ps → wf ps → wf (Key k :: ps).
Proof. by intros ???. Qed.
Lemma wf_sep l ps : forallb sep_char l = true → wf ps → wf (Sep l :: ps).
Proof. by intros ??. Qed.
(** [colon], [comma], [lit] and [break] *)
Lemma wf_text p ps : match p with Sep l => forallb sep_char l = true | _ => False end → wf ps → wf (p :: ps).
Proof. destruct p; [|done..]. by intros ??. Qed.
Lemma wf_empty ps : after_val ps → wf ps → wf (Val [] :: ps).
Proof. by intros ??. Qed.
Lemma wf_mark c ps : is_mark c = true → wf ps → wf (Mark c :: ps).
Proof. by intros ??. Qed.
Lemma tfind_str key s ps : token_ok s = true → key ∈ reserved → tfind key (str s :: ps) = tfind key ps.
Proof.
  intros (-> & _ & Hr)%str_token Hk. cbn [tfind]. rewrite bool_decide_eq_false_2; [done|].
  intros ->%chars_inj. done.
Qed.
Lemma tfind_opt key v ps : opt_ok v = true → key ∈ reserved → tfind key (opt v :: ps) = tfind key ps.
Proof. destruct v as [s|]; [apply tfind_str|done]. Qed.
Lemma tfind_text key p ps : match p with Sep _ | Mark _ => True | _ => False end → tfind key (p :: ps) = tfind key ps.
Proof. by destruct p. Qed.
Lemma tfind_miss key k ps : String.eqb key k = false → tfind key (Key k :: ps) = tfind key ps.
Proof. cbn. by intros ->. Qed.
Lemma tfind_empty key ps : chars key ≠ [] → tfind key (Val [] :: ps) = tfind key ps.
Proof. intros H. cbn. by rewrite bool_decide_eq_false_2. Qed.
Lemma tfind_hit key ps : tfind key (Key key :: ps) = Some (Key key :: ps).
Proof. cbn. by rewrite String.eqb_refl. Qed.
Lemma tsearch_other {A} key (value : list ascii → option A) p ps :
  match p with Key _ => False | _ => True end → tsearch key value (p :: ps) = tsearch key value ps.
Proof. by destruct p. Qed.
Lemma tsearch_miss {A} key k (value : list ascii → option A) ps :
  String.eqb key k = false → tsearch key value (Key k :: ps) = tsearch key value ps.
Proof. cbn. by intros ->. Qed.
Lemma tsearch_hit {A} key (value : list ascii → option A) ps a :
  value (drop_spaces (flat ps)) = Some a → tsearch key value (Key key :: colon :: ps) = Some a.
Proof.
  intros H. cbn [tsearch]. rewrite String.eqb_refl.
  assert (strip_prefix [":"%char] (drop_spaces (flat (colon :: ps))) = Some (" "%char :: flat ps)%list) as -> by reflexivity.
  cbn [mbind option_bind]. assert (drop_spaces (" "%char :: flat ps) = drop_spaces (flat ps)) as -> by reflexivity.
  by rewrite H.
Qed.
Lemma num_value n ps : 0 ≤ n → ends_number (flat ps) →
  number_value (drop_spaces (flat (num n :: ps))) = Some (print_int n).
Proof.
  intros Hn He. cbn [num flat flat_piece]. rewrite drop_spaces_int, number_value_app, number_value_int; try done.
  by destruct (print_int_digits n Hn) as (? & ? & -> & _).
Qed.
Lemma boolean_value b ps : bool_value (drop_spaces (flat (boolean b :: ps))) = Some b.
Proof. by destruct b. Qed.

(** ** Rules *)

(** CPU numbers in the form the loader produces. *)
Definition cpus_ok (l : list Z) : Prop := l ≠ [] ∧ Forall (λ c, 0 ≤ c ≤ max_cpu) l ∧ sort_unique l = l.
Record writable_rule (envelope : list Z) (r : ThreadProfileRule) : Prop := {
  wr_id : token_ok (rule_id r) = true;
  wr_comm : opt_ok (pm_comm (rule_match r)) = true;
  wr_comm_prefix : opt_ok (pm_comm_prefix (rule_match r)) = true;
  wr_cgroup : opt_ok (pm_cgroup (rule_match r)) = true;
  wr_cgroup_prefix : opt_ok (pm_cgroup_prefix (rule_match r)) = true;
  wr_tid : ∀ t, pm_tid (rule_match r) = Some t → 0 ≤ t < 2 ^ 31;
  wr_allowed : cpus_ok (rule_allowed_cpus r);
  wr_affinity : ∀ a, a ∈ rule_affinities r → cpus_ok (pa_cpus a);
  wr_valid : validate_rule r envelope = Ok tt;
}.
(** A validated rule has one affinity. *)
Lemma one_affinity envelope r : validate_rule r envelope = Ok tt → ∃ a, rule_affinities r = [a].
Proof.
  intros H%validate_rule_ok. destruct (rk_affinity _ _ H) as (a & Ha & _). by exists a.
Qed.

(** The piece of a CPU list. *)
Definition cpus (l : list Z) : piece := Val (chars (format_cpu_list l)).
Lemma cpus_char l c : cpus_ok l → c ∈ chars (format_cpu_list l) → isdigit c = true ∨ c = "-"%char ∨ c = ","%char.
Proof. intros (_ & Hr & _). by apply format_cpu_list_chars. Qed.
Lemma cpus_plain l : cpus_ok l → forallb plain_char (chars (format_cpu_list l)) = true.
Proof.
  intros Hl. apply forallb_forall. intros c Hc%list_elem_of_In. destruct (cpus_char l c Hl Hc) as [Hd|[->| ->]]; [|done..].
  unfold plain_char. rewrite !bool_decide_eq_false_2 by (intros ->; by vm_compute in Hd).
  rewrite !andb_true_r. unfold isdigit in Hd. apply andb_true_iff in Hd as [Hd _]. lia.
Qed.
Lemma wf_cpus l ps : cpus_ok l → after_val ps → wf ps → wf (cpus l :: ps).
Proof. intros Hl ? ?. split_and!; [by apply plain_unquoted, cpus_plain|done|done]. Qed.
Lemma cpus_value l ps : cpus_ok l → string_value (drop_spaces (flat (cpus l :: ps))) = Some (Some (format_cpu_list l)).
Proof. intros Hl. unfold cpus. by rewrite flat_val, string_value_plain, text_chars by by apply cpus_plain. Qed.
Lemma cpus_parse l : cpus_ok l → parse_cpu_list (format_cpu_list l) = Ok l.
Proof. intros (Hne & Hr & Hs). by rewrite parse_formatted, Hs. Qed.
Lemma tfind_cpus key l ps : cpus_ok l → (∃ c k, chars key = (c :: k)%list ∧ isdigit c = false ∧ c ≠ "-"%char ∧ c ≠ ","%char) →
  tfind key (cpus l :: ps) = tfind key ps.
Proof.
  intros Hl (c & k & Hk & Hc & Hd & He). cbn [tfind cpus]. rewrite bool_decide_eq_false_2; [done|]. intros E.
  destruct (cpus_char l c Hl) as [?|[?|?]]; [|congruence..]. rewrite <- E, Hk. by left.
Qed.

Definition tid_piece (t : option Z) : piece := match t with Some t => num t | None => lit "null" end.
Definition tid_ok (t : option Z) : Prop := ∀ n, t = Some n → 0 ≤ n < 2 ^ 31.
Lemma wf_tid t ps : tid_ok t → wf ps → wf (tid_piece t :: ps).
Proof. intros Ht Hw. destruct t as [n|]; split; try done. apply print_int_sep. destruct (Ht n); [done|lia]. Qed.
Lemma tfind_tid key t ps : tfind key (tid_piece t :: ps) = tfind key ps.
Proof. by destruct t. Qed.
Lemma wf_num n ps : 0 ≤ n → wf ps → wf (num n :: ps).
Proof. intros Hn Hw. split; [by apply print_int_sep|done]. Qed.
Lemma wf_boolean b ps : wf ps → wf (boolean b :: ps).
Proof. intros Hw. by destruct b. Qed.

Ltac solve_wf := repeat lazymatch goal with
  | |- wf [] => exact I
  | |- wf (str _ :: _) => apply wf_str; [assumption|first [exact eq_refl | exact I]|]
  | |- wf (opt _ :: _) => apply wf_opt; [assumption|exact eq_refl|]
  | |- wf (cpus _ :: _) => apply wf_cpus; [assumption|exact eq_refl|]
  | |- wf (tid_piece _ :: _) => apply wf_tid; [assumption|]
  | |- wf (boolean _ :: _) => apply wf_boolean
  | |- wf (num _ :: _) => apply wf_num; [lia|]
  | |- wf (Key _ :: _) => apply wf_key; [exact eq_refl|exact eq_refl|]
  | |- wf (Mark _ :: _) => apply wf_mark; [exact eq_refl|]
  | |- wf (Val [] :: _) => apply wf_empty; [exact eq_refl|]
  | |- wf (?p :: _) => apply wf_text; [exact eq_refl|]
  end.
Ltac solve_name := split; [reflexivity|split_and!; discriminate].
Ltac tskip := repeat lazymatch goal with
  | |- context [tsearch ?k _ (Key ?k :: _)] => fail
  | |- context [tsearch _ _ (opt ?v :: _)] => rewrite tsearch_other by (destruct v; exact I)
  | |- context [tsearch _ _ (tid_piece ?v :: _)] => rewrite tsearch_other by (destruct v; exact I)
  | |- context [tsearch _ _ (Key _ :: _)] => rewrite tsearch_miss by exact eq_refl
  | |- context [tsearch _ _ (_ :: _)] => rewrite tsearch_other by exact I
  end.
Ltac solve_reserved := apply (bool_decide_unpack _); vm_compute; exact I.
Ltac tfinds := repeat lazymatch goal with
  | |- tfind _ (str _ :: _) = _ => rewrite tfind_str by (assumption || solve_reserved)
  | |- tfind _ (opt _ :: _) = _ => rewrite tfind_opt by (assumption || solve_reserved)
  | |- tfind _ (tid_piece _ :: _) = _ => rewrite tfind_tid
  | |- tfind _ (boolean _ :: _) = _ => rewrite tfind_text by exact I
  | |- tfind _ (cpus _ :: _) = _ => rewrite tfind_cpus; [|assumption|by eexists _, _]
  | |- tfind ?k (Key ?k :: _) = _ => rewrite tfind_hit; exact eq_refl
  | |- tfind _ (Key _ :: _) = _ => rewrite tfind_miss by exact eq_refl
  | |- tfind _ (Val [] :: _) = _ => rewrite tfind_empty by discriminate
  | |- tfind _ (_ :: _) = _ => rewrite tfind_text by exact I
  end.

(** The pieces of a rule with one affinity, in one list. *)
Definition match_inner (m : ThreadProfileMatch) : list piece :=
  [Key "comm"; colon; opt (pm_comm m); comma; Key "comm_prefix"; colon; opt (pm_comm_prefix m); comma;
   Key "cgroup"; colon; opt (pm_cgroup m); comma; Key "cgroup_prefix"; colon; opt (pm_cgroup_prefix m); comma;
   Key "tid"; colon; tid_piece (pm_tid m)].
Definition affinity_inner (a : ThreadProfileAffinity) : list piece :=
  [Mark "{"; Key "cpus"; colon; cpus (pa_cpus a); Mark "}"].
Definition rule_rest (r : ThreadProfileRule) (a : ThreadProfileAffinity) : list piece :=
  (comma :: Key "allowed_cpus" :: colon :: cpus (rule_allowed_cpus r) :: comma ::
   Key "dynamic" :: colon :: boolean (rule_dynamic r) :: comma ::
   Key "affinities" :: colon :: Mark "[" :: affinity_inner a ++ [Mark "]"; Mark "}"])%list.
Lemma rule_pieces_eq r a : rule_affinities r = [a] →
  rule_pieces r = (Mark "{" :: Key "id" :: colon :: str (rule_id r) :: comma :: Key "match" :: colon :: Mark "{" ::
    match_inner (rule_match r) ++ Mark "}" :: rule_rest r a)%list.
Proof. intros E. unfold rule_pieces. rewrite E. reflexivity. Qed.

Section rule.
Context (envelope : list Z) (r : ThreadProfileRule) (a : ThreadProfileAffinity).
Context (Hw : writable_rule envelope r) (Ha : rule_affinities r = [a]).

Local Lemma rule_facts :
  cpus_ok (rule_allowed_cpus r) ∧ cpus_ok (pa_cpus a) ∧ tid_ok (pm_tid (rule_match r)).
Proof. destruct Hw. split_and!; [done| |done]. apply wr_affinity0. rewrite Ha. by left. Qed.

Lemma wf_match_inner ps : after_val ps → wf ps → wf (match_inner (rule_match r) ++ ps)%list.
Proof.
  destruct rule_facts as (_ & _ & Ht), Hw. intros Hps Hwf. unfold match_inner. cbn [app]. solve_wf. exact Hwf.
Qed.
Lemma wf_rule_rest : wf (rule_rest r a).
Proof. destruct rule_facts as (Hc & Hp & _). unfold rule_rest, affinity_inner. cbn [app]. solve_wf. Qed.
Lemma wf_rule : wf (rule_pieces r).
Proof.
  rewrite (rule_pieces_eq r a Ha). pose proof wf_rule_rest as Hr. destruct Hw. solve_wf.
  apply wf_match_inner; [done|]. solve_wf. exact Hr.
Qed.

(** [match] *)
Lemma rule_match_object : object_after (flat (rule_pieces r)) "match" "{" "}" = Ok (flat (match_inner (rule_match r))).
Proof.
  pose proof wf_rule as Hwf. rewrite (rule_pieces_eq r a Ha) in Hwf |- *. destruct Hw.
  eapply object_pieces; [done|done|solve_name|reflexivity|exact Hwf| |].
  - tfinds.
  - unfold match_inner. destruct (pm_comm _), (pm_comm_prefix _), (pm_cgroup _), (pm_cgroup_prefix _), (pm_tid _); reflexivity.
Qed.
(** The members of the match object. *)
Lemma match_member key v :
  name_ok key → opt_ok v = true →
  tsearch key string_value (match_inner (rule_match r)) = Some v →
  string_field (flat (match_inner (rule_match r))) key = v.
Proof.
  intros Hk Hv Hs. unfold string_field. rewrite search_pieces; [|done|].
  - rewrite Hs. by destruct v.
  - rewrite <- (app_nil_r (match_inner _)). by apply wf_match_inner.
Qed.
Lemma match_members :
  string_field (flat (match_inner (rule_match r))) "comm" = pm_comm (rule_match r) ∧
  string_field (flat (match_inner (rule_match r))) "comm_prefix" = pm_comm_prefix (rule_match r) ∧
  string_field (flat (match_inner (rule_match r))) "cgroup" = pm_cgroup (rule_match r) ∧
  string_field (flat (match_inner (rule_match r))) "cgroup_prefix" = pm_cgroup_prefix (rule_match r).
Proof.
  destruct Hw as [_ H1 H2 H3 H4 _ _ _ _].
  split_and!; (apply match_member; [solve_name|done|]); unfold match_inner; tskip; by apply tsearch_hit, opt_value.
Qed.
Lemma match_tid :
  match search_field "tid" tid_value (flat (match_inner (rule_match r))) with
  | None => Ok None
  | Some ds => v ← stoi ds; Ok (Some v)
  end = Ok (pm_tid (rule_match r)).
Proof.
  destruct rule_facts as (_ & _ & Ht). rewrite search_pieces; [|solve_name|].
  2:{ rewrite <- (app_nil_r (match_inner _)). by apply wf_match_inner. }
  unfold match_inner. tskip. destruct (pm_tid (rule_match r)) as [t|]; [|done].
  destruct (Ht t eq_refl) as [H0 Hm].
  rewrite (tsearch_hit _ _ _ (print_int t)); cycle 1.
  { cbn [tid_piece num flat flat_piece]. rewrite app_nil_r, <- (app_nil_r (print_int t)), drop_spaces_int, app_nil_r by lia.
    destruct (print_int_digits t H0) as (c & l & E & Hd & _). unfold tid_value. by rewrite E, span_all. }
  unfold print_int. destruct (Z.ltb_spec t 0); [lia|]. by rewrite stoi_print.
Qed.

(** The members of the rule. *)
Lemma rule_member key v :
  name_ok key → tsearch key string_value (rule_pieces r) = Some (Some v) → string_field (flat (rule_pieces r)) key = Some v.
Proof. intros Hk Hs. unfold string_field. rewrite search_pieces, Hs; [done|done|apply wf_rule]. Qed.
Lemma rule_members :
  string_field (flat (rule_pieces r)) "id" = Some (rule_id r) ∧
  string_field (flat (rule_pieces r)) "allowed_cpus" = Some (format_cpu_list (rule_allowed_cpus r)) ∧
  bool_field (flat (rule_pieces r)) "dynamic" = Ok (rule_dynamic r).
Proof.
  destruct rule_facts as (Hc & _ & _). pose proof wf_rule as Hwf. pose proof (wr_id _ _ Hw) as Hid. split_and!.
  - apply rule_member; [solve_name|]. rewrite (rule_pieces_eq r a Ha). tskip. by apply tsearch_hit, str_value.
  - apply rule_member; [solve_name|]. rewrite (rule_pieces_eq r a Ha). unfold match_inner, rule_rest. cbn [app].
    tskip. by apply tsearch_hit, cpus_value.
  - unfold bool_field. rewrite search_pieces; [|solve_name|done].
    rewrite (rule_pieces_eq r a Ha). unfold match_inner, rule_rest. cbn [app]. tskip.
    by erewrite tsearch_hit by apply boolean_value.
Qed.
Lemma rule_affinities_object :
  object_after (flat (rule_pieces r)) "affinities" "[" "]" = Ok (flat (affinity_inner a)).
Proof.
  destruct rule_facts as (Hc & _ & _). pose proof wf_rule as Hwf. pose proof wf_rule_rest as Hwr.
  rewrite (rule_pieces_eq r a Ha) in Hwf |- *. destruct Hw.
  eapply object_pieces; [done|done|solve_name|reflexivity|exact Hwf| |].
  - unfold match_inner, rule_rest. cbn [app]. tfinds.
  - reflexivity.
Qed.
Lemma rule_affinities_loaded : foldlM load_affinity [] (objects (flat (affinity_inner a))) = Ok [a].
Proof.
  destruct rule_facts as (_ & Hp & _). assert (wf (affinity_inner a)) by (unfold affinity_inner; solve_wf).
  rewrite objects_pieces by done. change (tobjects 0 [] (affinity_inner a)) with [affinity_inner a].
  cbn [fmap list_fmap foldlM]. unfold load_affinity.
  assert (string_field (flat (affinity_inner a)) "cpus" = Some (format_cpu_list (pa_cpus a))) as ->.
  { unfold string_field. rewrite search_pieces; [|solve_name|done]. unfold affinity_inner. tskip.
    by erewrite tsearch_hit by by apply cpus_value. }
  cbn [default from_option id]. rewrite cpus_parse by done. cbn. by destruct a.
Qed.
(** The loader appends the rule. *)
Lemma load_rule_written ids rules :
  rule_id r ∉ ids → load_rule envelope (ids, rules) (flat (rule_pieces r)) = Ok ({[rule_id r]} ∪ ids, (rules ++ [r])%list).
Proof.
  intros Hid. unfold load_rule. rewrite rule_match_object. cbn [mbind result_bind].
  pose proof match_tid as Ht. destruct (match search_field "tid" _ _ with Some _ => _ | None => _ end); [|done].
  injection Ht as ->. cbn [mbind result_bind].
  destruct match_members as (-> & -> & -> & ->). destruct rule_members as (-> & -> & ->).
  cbn [default from_option id mbind result_bind]. rewrite cpus_parse by apply Hw. cbn [mbind result_bind].
  rewrite rule_affinities_object. cbn [mbind result_bind]. rewrite rule_affinities_loaded. cbn [mbind result_bind].
  rewrite bool_decide_eq_false_2 by done. cbn [throw_if mbind result_bind].
  assert (E : mk_ThreadProfileRule (rule_id r)
    (mk_ThreadProfileMatch (pm_comm (rule_match r)) (pm_comm_prefix (rule_match r)) (pm_cgroup (rule_match r))
       (pm_cgroup_prefix (rule_match r)) (pm_tid (rule_match r))) (rule_allowed_cpus r) [a] (rule_dynamic r) = r).
  { rewrite <- Ha. destruct r as [? m ???]. by destruct m. }
  rewrite E, (wr_valid _ _ Hw). done.
Qed.
End rule.

(** ** Profiles *)

(** The ratio is printed without an exponent: the reader takes the whole text. *)
Definition ratio_plain (d : double) : bool :=
  match print_double d with [] => false | c :: _ => isdigit c end &&
  forallb sep_char (print_double d) && bool_decide (number_value (print_double d) = Some (print_double d)).
Record writable (envelope : list Z) (p : ThreadProfile) : Prop := {
  wp_profile_id : token_ok (profile_id p) = true;
  wp_generated_at : token_ok (generated_at p) = true;
  wp_status : token_ok (profile_status p) = true;
  wp_commit : token_ok (source_commit p) = true;
  wp_experiment : token_ok (experiment_id p) = true;
  wp_test : token_ok (test_id p) = true;
  wp_description : token_ok (profile_description p) = true;
  wp_metadata : metadata_ok p = true;
  wp_large : large_step_threads (profile_dynamic p) < 2 ^ 31;
  wp_cooldown : cooldown_seconds (profile_dynamic p) < 2 ^ 31;
  wp_ratio : ratio_plain (large_change_ratio (profile_dynamic p)) = true;
  wp_rules : Forall (writable_rule envelope) (placements p);
  wp_ids : NoDup (rule_id <$> placements p);
}.

Section rules.
Context (envelope : list Z).

Lemma wf_rules l ps : Forall (writable_rule envelope) l → wf ps → wf (rules_pieces l ++ ps)%list.
Proof.
  intros Hl Hps. induction Hl as [|r l Hr Hl IH]; [done|]. cbn [rules_pieces app].
  destruct (one_affinity envelope r (wr_valid _ _ Hr)) as [a Ha].
  apply wf_sep; [reflexivity|]. rewrite <- app_assoc, (rule_pieces_eq r a Ha). cbn [app].
  pose proof (wr_id _ _ Hr). solve_wf. rewrite <- app_assoc. cbn [app].
  apply (wf_match_inner envelope r a Hr Ha); [done|].
  destruct (rule_facts envelope r a Hr Ha) as (Hc & Hp & _). unfold rule_rest, affinity_inner. cbn [app]. solve_wf.
  by destruct l.
Qed.
(** The scans step over a rule. *)
Definition passive (open close : ascii) (p : piece) : bool :=
  match p with Mark c => negb (bool_decide (c = open)) && negb (bool_decide (c = close)) | _ => true end.
Lemma tclose_passive open close depth l ps : forallb (passive open close) l = true →
  tclose open close depth (l ++ ps)%list = (λ i, l ++ i)%list <$> tclose open close depth ps.
Proof.
  induction l as [|q l IH]; [intros _; cbn [app]; by destruct (tclose open close depth ps)|]. cbn [forallb app]. intros [Hq Hl]%andb_true_iff.
  destruct q as [| c| |]; cbn [tclose]; rewrite ?IH by done; try by destruct (tclose _ _ _ ps).
  cbn in Hq. bool_hyps. rewrite !bool_decide_eq_false_2 by done. rewrite IH by done. by destruct (tclose _ _ _ ps).
Qed.
Lemma tclose_other open close depth p ps : match p with Mark _ => False | _ => True end →
  tclose open close depth (p :: ps) = cons p <$> tclose open close depth ps.
Proof. by destruct p. Qed.
Lemma tobjects_other depth cur p ps : match p with Mark _ => False | _ => True end →
  tobjects depth cur (p :: ps) = tobjects depth (cur ++ [p])%list ps.
Proof. by destruct p. Qed.
(** A rule up to its affinities. *)
Definition rule_front (r : ThreadProfileRule) : list piece :=
  (Mark "{" :: Key "id" :: colon :: str (rule_id r) :: comma :: Key "match" :: colon :: Mark "{" ::
   match_inner (rule_match r) ++
   [Mark "}"; comma; Key "allowed_cpus"; colon; cpus (rule_allowed_cpus r); comma;
    Key "dynamic"; colon; boolean (rule_dynamic r); comma; Key "affinities"; colon])%list.
Lemma rule_front_eq r a : rule_affinities r = [a] →
  rule_pieces r = (rule_front r ++ Mark "[" :: affinity_inner a ++ [Mark "]"; Mark "}"])%list.
Proof. intros Ha. rewrite (rule_pieces_eq r a Ha). unfold rule_front, match_inner. reflexivity. Qed.
Lemma rule_front_passive r : forallb (passive "[" "]") (rule_front r) = true.
Proof.
  unfold rule_front, match_inner.
  destruct (pm_comm _), (pm_comm_prefix _), (pm_cgroup _), (pm_cgroup_prefix _), (pm_tid _); exact eq_refl.
Qed.
Lemma tclose_rule r a ps : rule_affinities r = [a] →
  tclose "[" "]" 1 (rule_pieces r ++ ps)%list = (λ i, rule_pieces r ++ i)%list <$> tclose "[" "]" 1 ps.
Proof.
  intros Ha. rewrite (rule_front_eq r a Ha), <- app_assoc, tclose_passive by apply rule_front_passive.
  assert (E : tclose "[" "]" 1 ((Mark "[" :: affinity_inner a ++ [Mark "]"; Mark "}"]) ++ ps)%list =
    (λ i, Mark "[" :: affinity_inner a ++ Mark "]" :: Mark "}" :: i)%list <$> tclose "[" "]" 1 ps).
  { rewrite <- app_comm_cons, <- app_assoc. cbn [app].
    assert (H1 : ∀ x, tclose "[" "]" 1 (Mark "[" :: x) = cons (Mark "[") <$> tclose "[" "]" 2 x) by reflexivity.
    assert (H2 : ∀ x, tclose "[" "]" 2 (Mark "]" :: Mark "}" :: x) =
      cons (Mark "]") <$> (cons (Mark "}") <$> tclose "[" "]" 1 x)) by reflexivity.
    rewrite H1, (tclose_passive _ _ _ (affinity_inner a)), H2 by exact eq_refl. by destruct (tclose _ _ 1 ps). }
  rewrite E. destruct (tclose _ _ _ ps); [|done]. cbn [fmap option_fmap option_map]. by rewrite <- app_assoc.
Qed.
Lemma tobjects_rule r a cur ps : rule_affinities r = [a] →
  tobjects 0 cur (rule_pieces r ++ ps)%list = rule_pieces r :: tobjects 0 (rule_pieces r) ps.
Proof.
  intros Ha. rewrite (rule_pieces_eq r a Ha). unfold match_inner, rule_rest, affinity_inner.
  destruct (pm_comm _), (pm_comm_prefix _), (pm_cgroup _), (pm_cgroup_prefix _), (pm_tid _); reflexivity.
Qed.
Lemma tclose_rules l ps : Forall (writable_rule envelope) l →
  tclose "[" "]" 1 (rules_pieces l ++ ps)%list = (λ i, rules_pieces l ++ i)%list <$> tclose "[" "]" 1 ps.
Proof.
  intros Hl. induction Hl as [|r l Hr Hl IH]; cbn [rules_pieces app]; [by destruct (tclose _ _ _ ps)|].
  destruct (one_affinity envelope r (wr_valid _ _ Hr)) as [a Ha].
  rewrite tclose_other by exact I. rewrite <- app_assoc, (tclose_rule r a _ Ha). cbn [app].
  rewrite tclose_other by exact I. rewrite IH.
  destruct (tclose _ _ _ ps); [|done]. cbn [fmap option_fmap option_map]. by rewrite <- app_assoc.
Qed.
Lemma tobjects_rules l cur ps : Forall (writable_rule envelope) l → (∀ cur, tobjects 0 cur ps = []) →
  tobjects 0 cur (rules_pieces l ++ ps)%list = rule_pieces <$> l.
Proof.
  intros Hl Hps. revert cur. induction Hl as [|r l Hr Hl IH]; intros cur; cbn [rules_pieces app]; [apply Hps|].
  destruct (one_affinity envelope r (wr_valid _ _ Hr)) as [a Ha].
  rewrite tobjects_other by exact I. rewrite <- app_assoc, (tobjects_rule r a _ _ Ha). cbn [app].
  rewrite tobjects_other by exact I. by rewrite IH.
Qed.
Lemma load_rules_written l ids rules :
  Forall (writable_rule envelope) l → NoDup (rule_id <$> l) → (∀ i, i ∈ rule_id <$> l → i ∉ ids) →
  ∃ ids', foldlM (load_rule envelope) (ids, rules) (flat <$> (rule_pieces <$> l)) = Ok (ids', (rules ++ l)%list).
Proof.
  intros Hl. revert ids rules. induction Hl as [|r l Hr Hl IH]; intros ids rules Hnd Hids.
  { exists ids. cbn. by rewrite app_nil_r. }
  destruct (one_affinity envelope r (wr_valid _ _ Hr)) as [a Ha].
  cbn [fmap list_fmap foldlM]. rewrite (load_rule_written envelope r a Hr Ha) by (apply Hids; by left).
  cbn [mbind result_bind]. inversion Hnd as [|x xs Hx Hxs]; subst.
  destruct (IH ({[rule_id r]} ∪ ids) (rules ++ [r])%list Hxs) as [ids' H'].
  { intros i Hi. rewrite not_elem_of_union, not_elem_of_singleton. split; [by intros ->|]. apply Hids. by right. }
  exists ids'. rewrite <- app_assoc in H'. exact H'.
Qed.
End rules.

Section profile.
Context (envelope : list Z) (p : ThreadProfile) (Hw : writable envelope p).

Definition source_inner : list piece :=
  [Key "commit"; colon; str (source_commit p); comma; Key "experiment_id"; colon; str (experiment_id p); comma;
   Key "test_id"; colon; str (test_id p)].
Definition applicability_inner : list piece :=
  [Key "description"; colon; str (profile_description p); comma;
   Key "similarity"; colon; Mark "{"; Key "metric"; colon; Val []; comma; Key "threshold"; colon; lit "null"; comma;
   Key "reported_gap"; colon; lit "null"; Mark "}"].
Definition dynamic_inner : list piece :=
  let d := profile_dynamic p in
  [Key "enabled"; colon; boolean (dyn_enabled d); comma; Key "small_step_threads"; colon; num (small_step_threads d); comma;
   Key "large_change_ratio"; colon; Sep (print_double (large_change_ratio d)); comma;
   Key "large_step_threads"; colon; num (large_step_threads d); comma;
   Key "cooldown_seconds"; colon; num (cooldown_seconds d)].
Definition placements_inner : list piece := (break "" "" :: rules_pieces (placements p) ++ [lit "  "])%list.

Local Lemma profile_facts :
  1 ≤ small_step_threads (profile_dynamic p) < 2 ^ 31 ∧ 1 ≤ large_step_threads (profile_dynamic p) < 2 ^ 31 ∧
  0 ≤ cooldown_seconds (profile_dynamic p) < 2 ^ 31 ∧
  forallb sep_char (print_double (large_change_ratio (profile_dynamic p))) = true.
Proof.
  pose proof (wp_metadata _ _ Hw) as Hm. pose proof (wp_large _ _ Hw). pose proof (wp_cooldown _ _ Hw).
  pose proof (wp_ratio _ _ Hw) as Hr. unfold ratio_plain in Hr. rewrite !andb_true_iff in Hr.
  unfold metadata_ok in Hm. rewrite negb_true_iff, !orb_false_iff in Hm.
  split_and!; try lia. tauto.
Qed.
Lemma wf_profile : wf (profile_pieces p).
Proof.
  destruct profile_facts as (Hs & Hl & Hc & Hr). destruct Hw.
  unfold profile_pieces, source_pieces, applicability_pieces, dynamic_pieces. cbn [app]. solve_wf.
  apply wf_sep; [exact Hr|]. solve_wf. apply (wf_rules envelope); [done|]. solve_wf.
Qed.

(** *** The containers *)
Ltac open_profile := unfold profile_pieces, source_pieces, applicability_pieces, dynamic_pieces; cbn [app].
Ltac find_container :=
  destruct profile_facts as (Hs & Hl & Hc & Hr); pose proof wf_profile as Hwf; destruct Hw; unfold profile_text;
  eapply object_pieces; [exact eq_refl|exact eq_refl|solve_name|exact eq_refl|exact Hwf|open_profile; tfinds|].
Lemma source_object : object_after (profile_text p) "source" "{" "}" = Ok (flat source_inner).
Proof. find_container. exact eq_refl. Qed.
Lemma applicability_object : object_after (profile_text p) "applicability" "{" "}" = Ok (flat applicability_inner).
Proof. find_container. exact eq_refl. Qed.
Lemma dynamic_object : object_after (profile_text p) "dynamic" "{" "}" = Ok (flat dynamic_inner).
Proof. find_container. exact eq_refl. Qed.
Lemma placements_object : object_after (profile_text p) "placements" "[" "]" = Ok (flat placements_inner).
Proof.
  find_container. rewrite tclose_other by exact I. rewrite (tclose_rules envelope) by done. exact eq_refl.
Qed.

(** *** The members *)
Lemma profile_members :
  int_field (profile_text p) "schema_version" = Ok 2 ∧
  string_field (profile_text p) "profile_id" = Some (profile_id p) ∧
  string_field (profile_text p) "generated_at" = Some (generated_at p) ∧
  string_field (profile_text p) "status" = Some (profile_status p).
Proof.
  pose proof wf_profile as Hwf. destruct Hw. unfold int_field, string_field, profile_text.
  rewrite !search_pieces by (solve_name || exact Hwf). open_profile. split_and!.
  - tskip. rewrite (tsearch_hit _ _ _ (print_int 2)) by exact eq_refl. exact eq_refl.
  - tskip. by erewrite tsearch_hit by by apply str_value.
  - tskip. by erewrite tsearch_hit by by apply str_value.
  - tskip. by erewrite tsearch_hit by by apply str_value.
Qed.
Lemma source_members :
  string_field (flat source_inner) "commit" = Some (source_commit p) ∧
  string_field (flat source_inner) "experiment_id" = Some (experiment_id p) ∧
  string_field (flat source_inner) "test_id" = Some (test_id p) ∧
  string_field (flat applicability_inner) "description" = Some (profile_description p).
Proof.
  destruct Hw. assert (Hwf : wf source_inner) by (unfold source_inner; solve_wf).
  assert (Hwa : wf applicability_inner) by (unfold applicability_inner; solve_wf).
  unfold string_field. rewrite !search_pieces by (solve_name || done). unfold source_inner, applicability_inner.
  split_and!; tskip; by erewrite tsearch_hit by by apply str_value.
Qed.
Lemma int_member key n ps :
  0 ≤ n < 2 ^ 31 → ends_number (flat ps) →
  match tsearch key number_value (Key key :: colon :: num n :: ps) with
  | None => Throw (missing key)
  | Some m => v ← stoll m; Ok (to_int v)
  end = Ok n.
Proof.
  intros Hn He. rewrite (tsearch_hit _ _ _ (print_int n)) by (apply num_value; [lia|done]).
  rewrite stoll_int by lia. cbn. by rewrite to_int_id.
Qed.
Lemma dynamic_members :
  let d := profile_dynamic p in
  bool_field (flat dynamic_inner) "enabled" = Ok (dyn_enabled d) ∧
  int_field (flat dynamic_inner) "small_step_threads" = Ok (small_step_threads d) ∧
  double_field (flat dynamic_inner) "large_change_ratio" = stod (print_double (large_change_ratio d)) ∧
  int_field (flat dynamic_inner) "large_step_threads" = Ok (large_step_threads d) ∧
  int_field (flat dynamic_inner) "cooldown_seconds" = Ok (cooldown_seconds d).
Proof.
  destruct profile_facts as (Hs & Hl & Hc & Hr). pose proof (wp_ratio _ _ Hw) as Hd. cbv zeta.
  assert (Hwf : wf dynamic_inner).
  { unfold dynamic_inner. cbv zeta. solve_wf. apply wf_sep; [exact Hr|]. solve_wf. }
  unfold bool_field, int_field, double_field. rewrite !search_pieces by (solve_name || exact Hwf).
  unfold dynamic_inner. cbv zeta. split_and!; tskip.
  - by erewrite tsearch_hit by apply boolean_value.
  - apply int_member; [lia|by left].
  - unfold ratio_plain in Hd. bool_hyps.
    set (t := print_double _) in *. rewrite (tsearch_hit _ _ _ t); [done|].
    cbn [flat flat_piece]. destruct t as [|c t]; [done|]. rewrite <- app_comm_cons, drop_spaces_head by by apply isdigit_not_space.
    rewrite app_comm_cons, number_value_app; [done|done|by left].
  - apply int_member; [lia|by left].
  - apply int_member; [lia|done].
Qed.
End profile.

(** ** The round trip *)

(** The writer upgrades the version. *)
Definition as_version_2 (p : ThreadProfile) : ThreadProfile :=
  mk_ThreadProfile 2 (profile_id p) (generated_at p) (profile_status p) (source_commit p) (experiment_id p)
    (test_id p) (profile_description p) (profile_dynamic p) (placements p).
(** With another ratio. *)
Definition with_ratio (d : double) (p : ThreadProfile) : ThreadProfile :=
  let y := profile_dynamic p in
  mk_ThreadProfile 2 (profile_id p) (generated_at p) (profile_status p) (source_commit p) (experiment_id p)
    (test_id p) (profile_description p)
    (mk_ThreadProfileDynamic (dyn_enabled y) (small_step_threads y) d (large_step_threads y) (cooldown_seconds y))
    (placements p).
Lemma with_own_ratio p : with_ratio (large_change_ratio (profile_dynamic p)) p = as_version_2 p.
Proof. unfold with_ratio, as_version_2. by destruct (profile_dynamic p). Qed.
Definition ratio_in_range (d : double) : bool := negb (d <=? d0)%D && negb (d1 <? d)%D.
(** The ratio is the only part of the metadata that the text can change. *)
Lemma metadata_with_ratio p d rules :
  metadata_ok p = true →
  metadata_ok (mk_ThreadProfile 2 (profile_id p) (generated_at p) (profile_status p) (source_commit p) (experiment_id p)
    (test_id p) (profile_description p)
    (mk_ThreadProfileDynamic (dyn_enabled (profile_dynamic p)) (small_step_threads (profile_dynamic p)) d
       (large_step_threads (profile_dynamic p)) (cooldown_seconds (profile_dynamic p))) rules) = ratio_in_range d.
Proof.
  unfold metadata_ok, ratio_in_range. cbn [schema_version profile_id generated_at profile_status profile_dynamic
    small_step_threads large_step_threads large_change_ratio cooldown_seconds].
  rewrite negb_true_iff, !orb_false_iff. intros ((((((((_ & ->) & ->) & ->) & ->) & ->) & _) & _) & ->).
  cbn. by destruct (d <=? d0)%D, (d1 <? d)%D.
Qed.
Definition unsupported : exn := runtime_error "thread profile has unsupported metadata".
Lemma load_written path envelope p :
  writable envelope p →
  load_thread_profile path (Some (text (profile_text p))) envelope =
    (d ← stod (print_double (large_change_ratio (profile_dynamic p)));
     if ratio_in_range d then Ok (with_ratio d p) else Throw unsupported).
Proof.
  intros Hw. unfold load_thread_profile. cbv zeta.
  assert (chars (text (profile_text p)) = profile_text p) as -> by apply String.list_ascii_of_string_of_list_ascii.
  destruct (profile_members envelope p Hw) as (-> & -> & -> & ->). cbn [mbind result_bind].
  rewrite (source_object envelope p Hw). cbn [mbind result_bind].
  rewrite (applicability_object envelope p Hw). cbn [mbind result_bind].
  rewrite (dynamic_object envelope p Hw). cbn [mbind result_bind].
  destruct (dynamic_members envelope p Hw) as (-> & -> & -> & -> & ->). cbn [mbind result_bind].
  destruct (stod _) as [d|e]; cbn [mbind result_bind]; [|done].
  destruct (source_members envelope p Hw) as (-> & -> & -> & ->). cbn [default from_option id].
  rewrite (metadata_with_ratio p d [] (wp_metadata _ _ Hw)).
  destruct (ratio_in_range d); cbn [negb throw_if mbind result_bind]; [|done].
  rewrite (placements_object envelope p Hw). cbn [mbind result_bind].
  assert (Hwf : wf (placements_inner p)).
  { unfold placements_inner. apply wf_text; [exact eq_refl|]. apply (wf_rules envelope); [apply Hw|]. solve_wf. }
  rewrite objects_pieces by exact Hwf. unfold placements_inner. rewrite tobjects_other by exact I.
  rewrite (tobjects_rules envelope); [|apply Hw|done].
  destruct (load_rules_written envelope (placements p) ∅ [] (wp_rules _ _ Hw) (wp_ids _ _ Hw)) as [ids' ->]; [set_solver|].
  done.
Qed.

(** *** Ratios of at most three decimals

    For a number below ten the search for the decimal exponent can start at 0. *)
Lemma search_exponent_skip n k x num den :
  (∀ y, x - Z.of_nat n < y ≤ x → at_least_pow10 num den y = false) →
  search_exponent (n + k) x num den = search_exponent k (x - Z.of_nat n) num den.
Proof.
  revert x. induction n as [|n IH]; intros x Hx; cbn [Nat.add search_exponent].
  { f_equal. lia. }
  rewrite Hx by lia. rewrite IH; [f_equal; lia|]. intros y Hy. apply Hx. lia.
Qed.
Lemma exponent10_below_ten num den :
  0 < den → num < 10 * den → exponent10 num den = search_exponent 325 0 num den.
Proof.
  intros Hd Hn. unfold exponent10. change 633%nat with (308 + 325)%nat. rewrite search_exponent_skip; [done|].
  intros y Hy. unfold at_least_pow10. rewrite (proj2 (Z.leb_le 0 y)) by lia. apply Z.leb_gt.
  assert (10 ^ 1 ≤ 10 ^ y) by (apply Z.pow_le_mono_r; lia). nia.
Qed.
Definition print_below_ten (d : double) : option (list ascii) :=
  match d with
  | S754_finite s m e =>
      let '(num, den) := fraction m e in
      if (0 <? den) && (num <? 10 * den)
      then Some (signed s (general_digits 6 (significant_at (search_exponent 325 0 num den) 6 num den)))
      else None
  | _ => None
  end.
Lemma print_below_ten_ok d l : print_below_ten d = Some l → print_double d = l.
Proof.
  unfold print_below_ten, print_double, print_precise, general, significant. destruct d as [| | |s m e]; try done.
  destruct (fraction m e) as [num den]. destruct (_ && _) eqn:E; [|done]. intros [= <-]. bool_hyps.
  by rewrite exponent10_below_ten.
Qed.
Definition three_decimals (k : Z) : bool :=
  match print_below_ten (dlit k 1000) with
  | Some l => bool_decide (stod l = Ok (dlit k 1000)) && ratio_in_range (dlit k 1000)
  | None => false
  end.
Lemma three_decimals_all : forallb three_decimals (seqZ 1 1000) = true.
Proof. vm_compute. reflexivity. Qed.
(** A ratio with at most three decimals denotes the same double when it is read back. *)
Lemma ratio_exact k :
  1 ≤ k ≤ 1000 →
  stod (print_double (dlit k 1000)) = Ok (dlit k 1000) ∧ ratio_in_range (dlit k 1000) = true.
Proof.
  intros Hk. pose proof three_decimals_all as H. rewrite forallb_forall in H. specialize (H k).
  rewrite <- list_elem_of_In, elem_of_seqZ in H. specialize (H ltac:(lia)). unfold three_decimals in H.
  destruct (print_below_ten (dlit k 1000)) as [l|] eqn:E; [|done]. apply print_below_ten_ok in E as ->.
  by bool_hyps.
Qed.

(** A failed write leaves every file but the temporary one as it was. *)
Lemma write_failed fs p path files files' e :
  write_thread_profile fs p path files = (files', Throw e) →
  ∀ other, other ≠ path +:+ ".tmp" → files' !! other = files !! other.
Proof.
  unfold write_thread_profile. destruct (fs_make_parent fs path); [|by intros [= <- _]].
  destruct (fs_opens _ _); cbn [negb]; [|by intros [= <- _]]. destruct (fs_renames _ _ _); [done|].
  intros [= <- _] other Ho. by rewrite lookup_insert_ne.
Qed.
Lemma temporary_differs path : path ≠ path +:+ ".tmp".
Proof. induction path as [|c path IH]; [done|]. cbn. by intros [= E]. Qed.

(** C37: the profile the runtime exports when it stops is loaded by the next run as
    the same profile (rules, CPUs, matches, dynamic settings), now a candidate of
    this experiment and of schema version 2, with the ratio that its six printed
    digits denote; that is the same ratio when it is a multiple of 0.001, and a
    ratio whose digits fall outside (0, 1] is refused.  The conditions are those of
    [writable]: the strings are printable without quotes and backslashes and are
    not the name of a container, the metadata is what the loader accepts and its
    integers fit, rule ids are distinct, thread ids are not negative, CPU lists are
    ascending, every rule is valid for the resource envelope of the next run, and
    the ratio is printed without an exponent; and the text reaches the disk as it
    was written. *)
Theorem exported_profile_reloads fs p now experiment test directory output envelope files files' :
  let q := exported_profile p now experiment test in
  writable envelope q → fs_stored fs (profile_text q) = profile_text q →
  export_profile fs (Some p) now experiment test directory output files = (files', Some (Ok tt)) →
  let path := export_path directory output in
  let loaded := load_thread_profile path (text <$> (files' !! path)) envelope in
  let ratio := large_change_ratio (profile_dynamic q) in
  loaded = (d ← stod (print_double ratio); if ratio_in_range d then Ok (with_ratio d q) else Throw unsupported) ∧
  (∀ k, 1 ≤ k ≤ 1000 → ratio = dlit k 1000 → loaded = Ok (as_version_2 q)).
Proof.
  intros q Hq Hs. unfold export_profile. fold q. set (path := export_path _ _). unfold write_thread_profile.
  destruct (fs_make_parent fs path); [|done]. destruct (fs_opens _ _); [|done]. cbn [negb].
  destruct (fs_renames _ _ _); [|done]. intros [= <-]. cbv zeta. rewrite lookup_insert_eq, Hs. cbn [fmap option_fmap option_map].
  rewrite load_written by done. split; [done|]. intros k Hk Hr. destruct (ratio_exact k Hk) as [He Hin].
  rewrite <- Hr in He, Hin. rewrite He. cbn [mbind result_bind]. by rewrite Hin, with_own_ratio.
Qed.

(** an export that fails leaves the profile of an earlier run in place. *)
Theorem failed_export_keeps_profile fs p now experiment test directory output files files' e :
  export_profile fs p now experiment test directory output files = (files', Some (Throw e)) →
  files' !! export_path directory output = files !! export_path directory output.
Proof.
  unfold export_profile. destruct p as [p|]; [|done].
  destruct (write_thread_profile _ _ _ _) as [f r] eqn:E. intros [= <- ->].
  eapply write_failed; [exact E|]. apply temporary_differs.
Qed.

(** ** A profile on a healthy disk *)
Definition healthy_fs : ProfileFs := mk_ProfileFs (λ _, Ok tt) (λ _, true) id (λ _ _, Ok tt).
Definition demo_pool : ThreadProfileRule :=
  mk_ThreadProfileRule "pool" (mk_ThreadProfileMatch None (Some "Pipe") None None (Some 17)) [0; 1; 2; 3]
    [mk_ThreadProfileAffinity [2; 3]] false.
Definition demo_saved : ThreadProfile :=
  mk_ThreadProfile 1 "p" "now" "tested" "c" "" "" "d" (mk_ThreadProfileDynamic false 1 (dlit 3 10) 4 10) [demo_pool].
Lemma demo_pool_writable : writable_rule [0; 1; 2; 3] demo_pool.
Proof.
  assert (Hc : ∀ l, bool_decide (l ≠ [] ∧ Forall (λ c, 0 ≤ c ≤ max_cpu) l ∧ sort_unique l = l) = true → cpus_ok l)
    by (intros l H; by apply bool_decide_eq_true in H).
  constructor; [vm_compute; reflexivity..| | | |vm_compute; reflexivity].
  - intros t [= <-]. lia.
  - apply Hc. vm_compute. reflexivity.
  - intros a Ha. apply Hc. apply list_elem_of_singleton in Ha as ->. vm_compute. reflexivity.
Qed.
Lemma demo_writable : writable [0; 1; 2; 3] (exported_profile demo_saved "later" "e1" "t1").
Proof.
  constructor; [vm_compute; reflexivity..| |].
  - apply Forall_cons; split; [exact demo_pool_writable|apply Forall_nil; exact I].
  - apply (bool_decide_unpack _). vm_compute. exact I.
Qed.
Definition demo_export : gmap string (list ascii) * option (result unit) :=
  export_profile healthy_fs (Some demo_saved) "later" "e1" "t1" "/log" "" ∅.
Lemma exported_profile_reloads_witness :
  demo_export.2 = Some (Ok tt) ∧
  load_thread_profile "/log/profiles/thread-profile-candidate.json"
    (text <$> (demo_export.1 !! "/log/profiles/thread-profile-candidate.json")) [0; 1; 2; 3] =
  Ok (as_version_2 (exported_profile demo_saved "later" "e1" "t1")).
Proof.
  split; [vm_compute; reflexivity|].
  refine (proj2 (exported_profile_reloads healthy_fs demo_saved "later" "e1" "t1" "/log" "" [0; 1; 2; 3] ∅ demo_export.1
    demo_writable eq_refl _) 300 _ _); [vm_compute; reflexivity|lia|vm_compute; reflexivity].
Defined.
Definition broken_fs : ProfileFs := mk_ProfileFs (λ _, Ok tt) (λ _, true) id (λ _ _, Throw (runtime_error "rename")).
Lemma failed_export_keeps_profile_witness :
  (export_profile broken_fs (Some demo_saved) "later" "e1" "t1" "/log" "" {[ "/old" := chars "x" ]}).1 !!
    export_path "/log" "" = None.
Proof.
  rewrite (failed_export_keeps_profile broken_fs (Some demo_saved) "later" "e1" "t1" "/log" ""
    {[ "/old" := chars "x" ]} _ (runtime_error "rename")); vm_compute; reflexivity.
Defined.

(** ** What does not survive *)
Definition with_id (i : string) (p : ThreadProfile) : ThreadProfile :=
  mk_ThreadProfile 2 i (generated_at p) (profile_status p) (source_commit p) (experiment_id p)
    (test_id p) (profile_description p) (profile_dynamic p) (placements p).
(** A ratio of 0.00002 is printed as [2e-05], of which the reader takes the 2, which
    is out of range; one of 0.00001 comes back as 1. *)
Theorem small_ratio_changes :
  load_thread_profile "f" (Some (text (profile_text (with_ratio (dlit 1 100000) demo_saved)))) [0; 1; 2; 3] =
    Ok (with_ratio d1 demo_saved) ∧
  load_thread_profile "f" (Some (text (profile_text (with_ratio (dlit 2 100000) demo_saved)))) [0; 1; 2; 3] =
    Throw (runtime_error "thread profile has unsupported metadata").
Proof. split; vm_compute; reflexivity. Qed.
(** A profile whose id is the name of a container cannot be read back. *)
Theorem container_name_unreadable :
  load_thread_profile "f" (Some (text (profile_text (with_id "dynamic" demo_saved)))) [0; 1; 2; 3] =
    Throw (missing "enabled").
Proof. vm_compute. reflexivity. Qed.
