(* ===== verification/RuntimeLog.v ===== *)
(** * The runtime's documents ([src/runtime.cpp]: [log], [status_json])

    The lines of [runtime.jsonl] that carry the inputs and the outcome of a
    solve window, and the document the control socket answers with. *)
From Stdlib Require Import Ascii.
From S2P Require Import Prelude Binary64 Core CpuList Topology DomainPlanner DomainSolver Hotspot Incremental Json.
Local Open Scope string_scope.
Local Open Scope Z_scope.

(** ** The helpers *)
Definition jstring (s : string) : json := JStr (chars s).
Definition jraw (s : string) : json := JRaw (chars s).
(** a member whose name is a number *)
Definition jkey (t : Z) : string := text (print_int t).
Definition jsize {A} (l : list A) : json := jint (Z.of_nat (length l)).

Definition cpu_array_json (cpus : list Z) : json := JArr (jint <$> cpus).
Definition assignments_json (assignments : gmap Z Z) : json :=
  JObj ((λ e, (jkey e.1, jint e.2)) <$> items assignments).
Definition masks_json (masks : gmap Z (list Z)) : json :=
  JObj ((λ e, (jkey e.1, jraw (format_cpu_list e.2))) <$> items masks).

Definition domain_action_json (a : NumaDomainAction) : json :=
  JObj [("tgid", jint (tgid (na_identity a))); ("tid", jint (tid (na_identity a)));
        ("starttime", jint (starttime (na_identity a)));
        ("from_mask", jraw (format_cpu_list (na_from_mask a)));
        ("target_mask", jraw (format_cpu_list (na_target_mask a)));
        ("target_nodes", cpu_array_json (na_target_nodes a));
        ("forced_migration", JBool (na_forced_migration a))].
Definition domain_actions_json (actions : list NumaDomainAction) : json :=
  JArr (domain_action_json <$> actions).

Definition family_metric_json (m : FamilyMetric) : json :=
  JObj [("name", jstring (fm_name m)); ("thread_count", jint (fm_thread_count m));
        ("demand", jdouble (fm_demand m)); ("internal_relation", jdouble (fm_internal_relation m));
        ("external_relation", jdouble (fm_external_relation m));
        ("self_containment", jdouble (fm_self_containment m));
        ("relative_internal", jdouble (fm_relative_internal m));
        ("demand_eligible", JBool (fm_demand_eligible m));
        ("internal_relation_eligible", JBool (fm_internal_relation_eligible m));
        ("self_containment_eligible", JBool (fm_self_containment_eligible m));
        ("relative_internal_eligible", JBool (fm_relative_internal_eligible m));
        ("cohesive_eligible", JBool (fm_cohesive_eligible m));
        ("confirmation", jint (fm_confirmation m)); ("seed_confirmation", jint (fm_seed_confirmation m));
        ("cohesive_anchor", JBool (fm_cohesive_anchor m)); ("cross_pending", JBool (fm_cross_pending m));
        ("cross_seed", JBool (fm_cross_seed m)); ("anchor", JBool (fm_anchor m))].
Definition family_metrics_json (families : list FamilyMetric) : json :=
  JArr (family_metric_json <$> families).

Definition family_pair_json (p : FamilyPairMetric) : json :=
  JObj [("left", jstring (fp_left p)); ("right", jstring (fp_right p));
        ("cross_relation", jdouble (fp_cross_relation p)); ("denominator", jdouble (fp_denominator p));
        ("merge_ratio", jdouble (fp_merge_ratio p)); ("endpoints_eligible", JBool (fp_endpoints_eligible p));
        ("qualifies", JBool (fp_qualifies p)); ("confirmation", jint (fp_confirmation p));
        ("confirmed", JBool (fp_confirmed p))].
Definition family_pairs_json (pairs : list FamilyPairMetric) : json := JArr (family_pair_json <$> pairs).

Definition domain_json (d : NumaDomain) : json :=
  JObj [("id", jstring (nd_id d)); ("families", JArr (jstring <$> nd_families d));
        ("thread_count", jsize (nd_tids d)); ("previous_nodes", cpu_array_json (nd_previous_nodes d));
        ("target_nodes", cpu_array_json (nd_target_nodes d));
        ("target_mask", jraw (format_cpu_list (nd_target_mask d))); ("demand", jdouble (nd_demand d));
        ("online_cpu_count", jint (nd_online_cpu_count d)); ("capacity_limit", jdouble (nd_capacity_limit d));
        ("capacity_headroom", jdouble (nd_capacity_headroom d));
        ("relation_latency", jdouble (nd_relation_latency d));
        ("background_demand", jdouble (nd_background_demand d));
        ("initial_migrations", jint (nd_initial_migrations d));
        ("expand_confirmation", jint (nd_expand_confirmation d));
        ("shrink_confirmation", jint (nd_shrink_confirmation d)); ("node_decision", jraw (nd_node_decision d));
        ("confirmation", jint (nd_confirmation d)); ("valid", JBool (nd_valid d));
        ("invalid_reason", jstring (nd_invalid_reason d))].
Definition domains_json (domains : list NumaDomain) : json := JArr (domain_json <$> domains).

Definition action_json (a : PlacementAction) : json :=
  JObj [("tgid", jint (tgid (pa_identity a))); ("tid", jint (tid (pa_identity a)));
        ("starttime", jint (starttime (pa_identity a))); ("from_cpu", jint (pa_from_cpu a));
        ("target_cpu", jint (pa_target_cpu a)); ("initial_pin", JBool (pa_initial_pin a));
        ("emergency", JBool (pa_emergency a)); ("capacity_regret", jdouble (pa_capacity_regret a));
        ("relation_regret", jdouble (pa_relation_regret a)); ("load_regret", jdouble (pa_load_regret a))].
Definition actions_json (actions : list PlacementAction) : json := JArr (action_json <$> actions).

(** [counts] starts at kind 0, which is not printed. *)
Definition kind_names : list string :=
  ["task_fork"; "task_exit"; "futex"; "vfs"; "task_exec"; "task_rename"; "affinity"].
Definition bpf_kind_counts_json (counts : list Z) : json :=
  JObj (zip_with (λ name n, (name, jint n)) kind_names (drop 1 counts)).

(** ** [log] *)
Definition log_document (now : Z) (type : string) (fields : list (string * json)) : json :=
  JObj (("timestamp_ns", jint now) :: ("type", jraw type) :: fields).
(** The text of a line, without its line feed. *)
Definition log_line (now : Z) (type : string) (fields : list (string * json)) : list ascii :=
  render (log_document now type fields).

(** *** The topology, once at the start *)
Definition topology_cpu_fields (c : Cpu) : list (string * json) :=
  [("cpu", jint (cpu_id c)); ("node", jint (cpu_node_id c)); ("online", JBool (cpu_online c));
   ("in_envelope", JBool true)].

(** *** The inputs of a window *)
Definition window_name (root_pid instance sequence : Z) : string :=
  text (print_int root_pid ++ "-"%char :: print_int instance ++ "-"%char :: print_int sequence)%list.
Definition window_begin_fields (window_id : string) (sequence : Z) (mode : string) : list (string * json) :=
  [("window_id", jraw window_id); ("sequence", jint sequence); ("mode", jraw mode)].
Definition thread_window_fields (window_id : string) (r : ThreadWindowRecord) : list (string * json) :=
  [("window_id", jraw window_id); ("tgid", jint (tgid (twr_identity r))); ("tid", jint (tid (twr_identity r)));
   ("starttime", jint (starttime (twr_identity r))); ("comm", jstring (twr_comm r));
   ("parent_tid", jint (twr_parent_tid r)); ("start_routine", jint (twr_start_routine r));
   ("start_symbol", jstring (twr_start_symbol r)); ("group", jstring (twr_group r));
   ("demand", jfixed (twr_demand r)); ("confidence", jfixed (twr_confidence r));
   ("current_cpu", jint (twr_current_cpu r)); ("allowed_cpus", cpu_array_json (twr_allowed_cpus r));
   ("state", JRaw [twr_state r]); ("sample_count", jint (twr_sample_count r));
   ("runtime_delta_ns", jint (twr_runtime_delta_ns r)); ("runqueue_delta_ns", jint (twr_runqueue_delta_ns r));
   ("voluntary_switches_delta", jint (twr_voluntary_switches_delta r));
   ("involuntary_switches_delta", jint (twr_involuntary_switches_delta r))].

Definition relation_edge_fields (window_id : string) (e : RelationEdge) : list (string * json) :=
  [("window_id", jraw window_id); ("from_tid", jint (re_from_tid e)); ("to_tid", jint (re_to_tid e));
   ("activity", jfixed (re_activity e)); ("sync", jfixed (re_sync e)); ("share", jfixed (re_share e));
   ("stability", jfixed (re_stability e)); ("score", jfixed (re_score e));
   ("handoff_rate", jfixed (re_handoff_rate e)); ("shared_vfs_seconds", jfixed (re_shared_vfs_seconds e));
   ("active_overlap", jfixed (re_active_overlap e)); ("observation_count", jint (re_observation_count e));
   ("coverage", jfixed (re_coverage e)); ("cv", jfixed (re_coefficient_of_variation e))].

(** The edges that are logged: the heaviest 4096, the heaviest first. *)
Definition edge_before (a b : RelationEdge) : bool :=
  if negb (re_score a =? re_score b)%D then (re_score b <? re_score a)%D
  else if negb (re_from_tid a =? re_from_tid b)%Z then (re_from_tid a <? re_from_tid b)%Z
  else (re_to_tid a <? re_to_tid b)%Z.
Definition relation_log_limit : nat := 4096.
Definition logged_edges (edges : list RelationEdge) : list RelationEdge :=
  take relation_log_limit (std_sort edge_before edges).
Definition edge_summary_fields (window_id : string) (edges : list RelationEdge) : list (string * json) :=
  [("window_id", jraw window_id); ("total", jsize edges); ("logged", jsize (logged_edges edges));
   ("truncated", JBool (length (logged_edges edges) <? length edges)%nat)].

(** The lines of a window up to its edges; [now] is the clock of each line. *)
Definition window_input_lines (now : Z) (root_pid instance sequence : Z) (mode : string)
    (records : list ThreadWindowRecord) (edges : list RelationEdge) : list (list ascii) :=
  let w := window_name root_pid instance sequence in
  (log_line now "solve_window_begin" (window_begin_fields w sequence mode) ::
   ((λ r, log_line now "thread_window" (thread_window_fields w r)) <$> records) ++
   log_line now "relation_edge_summary" (edge_summary_fields w edges) ::
   ((λ e, log_line now "relation_edge" (relation_edge_fields w e)) <$> logged_edges edges))%list.

(** *** The outcome of a window *)
Definition count_if {A} (p : A → bool) (l : list A) : json := jsize (filter (λ a, p a = true) l).
Definition controlled_families (domains : list NumaDomain) : gset string :=
  list_to_set (domains ≫= nd_families).
Definition controlled_threads (domains : list NumaDomain) : Z :=
  foldl (λ n d, n + Z.of_nat (length (nd_tids d))) 0 domains.
Definition selector_output_fields (window_id : string) (p : NumaDomainProposal) (duration_ns : Z) :
    list (string * json) :=
  [("window_id", jraw window_id); ("strategy_id", jraw "numa-domain-v1"); ("evaluated", JBool true);
   ("valid", JBool (np_valid p)); ("ready", JBool (np_ready p));
   ("invalid_reason", jstring (np_invalid_reason p)); ("solve_duration_ns", jint duration_ns);
   ("input_families", jint (np_input_family_count p));
   ("input_cross_family_pairs", jint (np_input_cross_family_pair_count p));
   ("selected_family_pairs", jint (np_selected_family_pair_count p));
   ("cohesive_eligible_families", count_if fm_cohesive_eligible (np_families p));
   ("cohesive_anchors", count_if fm_cohesive_anchor (np_families p));
   ("cross_seed_families", count_if fm_cross_seed (np_families p));
   ("qualified_pairs", count_if fp_qualifies (np_family_pairs p));
   ("confirmed_pairs", count_if fp_confirmed (np_family_pairs p)); ("domains", jsize (np_domains p));
   ("controlled_families", jint (Z.of_nat (size (controlled_families (np_domains p)))));
   ("controlled_threads", jint (controlled_threads (np_domains p)));
   ("planned_masks", jint (Z.of_nat (size (np_planned_masks p)))); ("mask_updates", jsize (np_actions p));
   ("inherited_threads", jint (Z.of_nat (size (np_inherited_tids p))));
   ("released_threads", jint (Z.of_nat (size (np_released_tids p))));
   ("forced_migrations", count_if na_forced_migration (np_actions p));
   ("family_metrics", family_metrics_json (np_families p));
   ("family_pairs", family_pairs_json (np_family_pairs p)); ("domain_details", domains_json (np_domains p))].
Definition plan_fields (window_id : string) (p : NumaDomainProposal) (duration_ns : Z) :
    list (string * json) :=
  [("window_id", jraw window_id); ("strategy_id", jraw "numa-domain-v1");
   ("affinity_granularity", jraw "numa_node_mask"); ("valid", JBool (np_valid p));
   ("invalid_reason", jstring (np_invalid_reason p)); ("solve_duration_ns", jint duration_ns);
   ("mask_updates", jsize (np_actions p)); ("inherited_threads", jint (Z.of_nat (size (np_inherited_tids p))));
   ("forced_migrations", count_if na_forced_migration (np_actions p));
   ("family_metrics", family_metrics_json (np_families p));
   ("family_pairs", family_pairs_json (np_family_pairs p)); ("domains", domains_json (np_domains p));
   ("planned_masks", masks_json (np_planned_masks p)); ("actions", domain_actions_json (np_actions p))].
