(* ===== verification/RuntimeStatus.v ===== *)
(** * The status document ([Runtime::status_json])

    What the control socket answers to [status]: the members of the runtime and
    the verdicts [policy_armed] and [active_effective] drawn from them. *)
From Stdlib Require Import SpecFloat Ascii.
From S2P Require Import Prelude Binary64 Core CpuList Actuator Topology DomainPlanner DomainSolver GraphWindow ThreadProfile.
From S2P Require Import Config ConfigProperties Hotspot Incremental IncrementalPropose Runtime BpfReader Json RuntimeLog.
Local Open Scope string_scope.
Local Open Scope Z_scope.

(** The members that no other operation of the runtime's thread uses. *)
Record StatusMembers := mk_StatusMembers {
  sm_supervisor_pid : Z;
  sm_root_pid : Z;
  sm_health_error : Z;
  sm_emitted : Z;
  sm_dropped : Z;
  sm_reader_stats : BpfReaderStats;
  sm_collector_degraded : bool;
  sm_affinity_capability : bool;
  sm_uprobe_status : string;
}.

Section status.
Context {W : Type}.
Context (config : Config) (profile : option ThreadProfile) (bpf_reader : bool).
Context (m : StatusMembers) (s : Runtime W).

Definition numa_domains : bool := bool_decide (solver config = "numa-domain-v1").
(** [!bpf_reader_ || (valid && ready && loss < 0.01)] *)
Definition health_passed : bool :=
  negb bpf_reader || (hw_valid (rt_health s) && hw_ready (rt_health s) &&
                      (hw_loss_ratio (rt_health s) <? dlit 1 100)%D).
Definition active_mode : bool :=
  bool_decide (mode config = Active) && negb (rt_paused s) && rt_selector_ready s.
Definition policy_armed : bool := active_mode && health_passed && bool_decide (rt_fatal_error s = "").
Definition active_effective : bool :=
  active_mode &&
  (if numa_domains then negb (bool_decide (rt_current_masks s = ∅)) && ds_effective (rt_domain_solver s)
   else (bool_decide (rt_active_cohort s = ∅) && bool_decide (rt_current_plan s = ∅) &&
         bool_decide (i_pinned (rt_solver s) = ∅)) || i_effective (rt_solver s)) &&
  health_passed && bool_decide (rt_fatal_error s = "").

Definition mode_name : string :=
  match mode config with Active => "active" | Plan => "plan" | Observe => "observe" end.
Definition reader_fields (r : BpfReaderStats) : list (string * json) :=
  [("ring_capacity_bytes", jint (bs_capacity_bytes r)); ("ring_occupancy_bytes", jint (bs_occupancy_bytes r));
   ("ring_max_occupancy_bytes", jint (bs_max_occupancy_bytes r));
   ("consumer_drain_calls", jint (bs_drain_calls r)); ("consumer_events", jint (bs_events_consumed r));
   ("consumer_last_batch", jint (bs_last_batch_events r)); ("consumer_max_batch", jint (bs_max_batch_events r));
   ("consumer_last_drain_ns", jint (bs_last_drain_ns r)); ("consumer_max_drain_ns", jint (bs_max_drain_ns r));
   ("consumer_last_lag_ns", jint (bs_last_max_lag_ns r)); ("consumer_max_lag_ns", jint (bs_max_lag_ns r));
   ("futex_aggregate_records", jint (bs_futex_aggregate_records r));
   ("futex_handoffs", jint (bs_futex_handoffs r));
   ("vfs_aggregate_records", jint (bs_vfs_aggregate_records r)); ("vfs_handoffs", jint (bs_vfs_handoffs r))].

Definition plan_fields_of_status : list (string * json) :=
  let planned := if numa_domains then size (rt_current_masks s) else size (rt_current_plan s) in
  let cohort := if numa_domains then size (rt_current_masks s) else size (rt_active_cohort s) in
  [("planned_threads", jint (Z.of_nat planned)); ("active_cohort_threads", jint (Z.of_nat cohort));
   ("selector_ready", JBool (rt_selector_ready s)); ("policy_armed", JBool policy_armed);
   ("planned_assignments", assignments_json (rt_current_plan s));
   ("planned_masks", masks_json (rt_current_masks s));
   ("family_metrics", family_metrics_json (ds_families (rt_domain_solver s)));
   ("active_domains", domains_json (ds_domains (rt_domain_solver s)));
   ("active_effective", JBool active_effective);
   ("solver_phase", jraw (if numa_domains then "numa_domain"
                          else incremental_phase_name (i_phase (rt_solver s))));
   ("placement_generation", jint (if numa_domains then ds_generation (rt_domain_solver s)
                                  else i_generation (rt_solver s)));
   ("pinned_threads", jint (Z.of_nat (if numa_domains then size (rt_current_masks s)
                                      else size (i_pinned (rt_solver s)))))].
Definition counter_fields : list (string * json) :=
  let c := rt_counters s in
  let r := rt_last_restore s in
  [("action_requested", jint (ct_requested c)); ("action_committed", jint (ct_committed c));
   ("action_vanished", jint (ct_vanished c)); ("action_failures", jint (ct_failures c));
   ("action_rolled_back", jint (ct_rolled_back c)); ("restore_requested", jint (rr_requested r));
   ("restore_restored", jint (rr_restored r)); ("restore_vanished", jint (rr_vanished r));
   ("restore_failed", jint (rr_failed r)); ("fatal_error", jstring (rt_fatal_error s))].

Definition status_json : json :=
  JObj ([("supervisor_pid", jint (sm_supervisor_pid m)); ("root_pid", jint (sm_root_pid m));
         ("target_tgids", cpu_array_json (set_items (rt_target_tgids s)));
         ("effective_mode", jraw mode_name);
         ("effective_dynamic", JBool (negb (static_profile_effective config profile)));
         ("sampling_stopped", JBool (rt_sampling_stopped s));
         ("static_scan_seconds", jint (static_scan_seconds config)); ("bpf", JBool bpf_reader);
         ("bpf_health_valid", JBool (hw_valid (rt_health s))); ("bpf_health_error", jint (sm_health_error m));
         ("bpf_emitted", jint (sm_emitted m)); ("bpf_dropped", jint (sm_dropped m));
         ("bpf_window_ready", JBool (hw_ready (rt_health s)));
         ("bpf_window_loss_ratio", jdouble (hw_loss_ratio (rt_health s)))] ++
        reader_fields (sm_reader_stats m) ++
        [("collector_degraded", JBool (sm_collector_degraded m));
         ("affinity_capability", JBool (sm_affinity_capability m));
         ("pthread_uprobe", jstring (sm_uprobe_status m)); ("paused", JBool (rt_paused s));
         ("threads", jint (Z.of_nat (size (rt_lifecycle s))))] ++
        plan_fields_of_status ++ counter_fields)%list.
End status.
