(* ===== verification/DomainReplay.v ===== *)
(** * The replay of the domain selector ([src/affinity_domain_replay.cpp])

    [affinity-domain-replay] reads the windows of a runtime log and runs the
    domain selector over them, twice.  The JSON reader (boost's [ptree]) is a
    parameter: [read_json] parses a line, and the values of a parsed line are
    what its accessors return. *)
From Stdlib Require Import Ascii.
From S2P Require Import Prelude Binary64 Core CpuList Topology DomainPlanner DomainSolver Config ConfigProperties.
Local Open Scope string_scope.
Local Open Scope Z_scope.

(** [get_optional<T>(path)] for the types the tool reads, the integers of an
    array, and the exception of [get<T>(path)] when there is no such value. *)
Record ptree := mk_ptree {
  pt_string : string → option string;
  pt_int : string → option Z;
  pt_u64 : string → option Z;
  pt_double : string → option double;
  pt_bool : string → option bool;
  pt_ints : string → option (list (option Z));
  pt_missing : string → exn;
}.

Definition get_value {A} (value : option A) (x : exn) : result A :=
  match value with Some a => Ok a | None => Throw x end.

Definition read_int_array (tree : ptree) (path : string) : result (list Z) :=
  match pt_ints tree path with
  | None => Ok []
  | Some values =>
      foldlM (λ acc v, n ← get_value v (pt_missing tree path); Ok (acc ++ [n])%list) [] values
  end.

(** ** The log *)
Record ReplayFrame := mk_ReplayFrame {
  rf_window_id : string;
  rf_timestamp_ns : Z;
  rf_planned : bool;
  rf_relation_input_complete : bool;
  rf_threads : list ThreadDemand;
  rf_edges : list RelationEdge;
  rf_allowed_masks : gmap Z (list Z);
}.
Definition ReplayFrame_init (window_id : string) : ReplayFrame :=
  mk_ReplayFrame window_id 0 false true [] [] ∅.

(** What a line adds to its window. *)
Inductive Entry :=
  | WindowBegin (timestamp_ns : Z)
  | ThreadWindow (thread : ThreadDemand) (allowed_cpus : list Z)
  | EdgeSummary (truncated : bool)
  | EdgeEntry (edge : RelationEdge)
  | PlanEntry.
(** What a line says. *)
Inductive LogItem :=
  | TopologyCpu (cpu : Cpu)
  | TopologyEdge (from to : Z) (distance : double)
  | Window (window_id : string) (entry : Entry)
  | OtherItem.

Definition read_thread (t : ptree) : result ThreadDemand :=
  tgid ← get_value (pt_int t "tgid") (pt_missing t "tgid");
  tid ← get_value (pt_int t "tid") (pt_missing t "tid");
  start ← get_value (pt_u64 t "starttime") (pt_missing t "starttime");
  group ← get_value (pt_string t "group") (pt_missing t "group");
  demand ← get_value (pt_double t "demand") (pt_missing t "demand");
  confidence ← get_value (pt_double t "confidence") (pt_missing t "confidence");
  cpu ← get_value (pt_int t "current_cpu") (pt_missing t "current_cpu");
  Ok (mk_ThreadDemand (mk_ThreadIdentity tgid tid start) group demand confidence cpu).

Definition read_edge (t : ptree) : result RelationEdge :=
  from ← get_value (pt_int t "from_tid") (pt_missing t "from_tid");
  to ← get_value (pt_int t "to_tid") (pt_missing t "to_tid");
  score ← get_value (pt_double t "score") (pt_missing t "score");
  Ok (mk_RelationEdge from to (default d0 (pt_double t "activity")) (default d0 (pt_double t "sync"))
        (default d0 (pt_double t "share")) (default d0 (pt_double t "stability")) score
        d0 d0 d0 0 d0 d0).

(** The chain of tests on ["type"]. *)
Definition read_item (t : ptree) : result LogItem :=
  let type := default "" (pt_string t "type") in
  let window := get_value (pt_string t "window_id") (pt_missing t "window_id") in
  if bool_decide (type = "topology_cpu") && default true (pt_bool t "in_envelope") then
    cpu ← get_value (pt_int t "cpu") (pt_missing t "cpu");
    node ← get_value (pt_int t "node") (pt_missing t "node");
    Ok (TopologyCpu (mk_Cpu cpu node (default true (pt_bool t "online"))))
  else if bool_decide (type = "topology_edge") then
    from ← get_value (pt_int t "from_node") (pt_missing t "from_node");
    to ← get_value (pt_int t "to_node") (pt_missing t "to_node");
    Ok (TopologyEdge from to (default d0 (pt_double t "numa_distance")))
  else if bool_decide (type = "solve_window_begin") then
    w ← window;
    timestamp ← get_value (pt_u64 t "timestamp_ns") (pt_missing t "timestamp_ns");
    Ok (Window w (WindowBegin timestamp))
  else if bool_decide (type = "thread_window") then
    w ← window;
    thread ← read_thread t;
    allowed ← read_int_array t "allowed_cpus";
    Ok (Window w (ThreadWindow thread allowed))
  else if bool_decide (type = "relation_edge_summary") then
    w ← window;
    Ok (Window w (EdgeSummary (default false (pt_bool t "truncated"))))
  else if bool_decide (type = "relation_edge") then
    w ← window;
    edge ← read_edge t;
    Ok (Window w (EdgeEntry edge))
  else if bool_decide (type = "plan") &&
          bool_decide (default "" (pt_string t "strategy_id") = "numa-domain-v1") then
    w ← window;
    Ok (Window w PlanEntry)
  else Ok OtherItem.

(** *** Storing what was read *)
Definition add_entry (entry : Entry) (f : ReplayFrame) : ReplayFrame :=
  let '(mk_ReplayFrame w timestamp planned complete threads edges allowed) := f in
  match entry with
  | WindowBegin timestamp' => mk_ReplayFrame w timestamp' planned complete threads edges allowed
  | ThreadWindow thread cpus =>
      mk_ReplayFrame w timestamp planned complete (threads ++ [thread]) edges
        (<[td_tid thread := cpus]> allowed)
  | EdgeSummary truncated => mk_ReplayFrame w timestamp planned (negb truncated) threads edges allowed
  | EdgeEntry edge => mk_ReplayFrame w timestamp planned complete threads (edges ++ [edge]) allowed
  | PlanEntry => mk_ReplayFrame w timestamp true complete threads edges allowed
  end.

(** [hardware], [frames] and the local [frame_index]. *)
Record ReadState := mk_ReadState {
  rs_hardware : HardwareGraph;
  rs_frames : list ReplayFrame;
  rs_index : gmap string nat;
}.
Definition ReadState_init : ReadState := mk_ReadState (mk_HardwareGraph [] ∅ ∅ ∅) [] ∅.

(** [frame_for]: the position of the window's frame, added at the end if new. *)
Definition frame_for (window_id : string) (st : ReadState) : nat * ReadState :=
  match rs_index st !! window_id with
  | Some i => (i, st)
  | None =>
      (length (rs_frames st),
       mk_ReadState (rs_hardware st) (rs_frames st ++ [ReplayFrame_init window_id])
         (<[window_id := length (rs_frames st)]> (rs_index st)))
  end.

Definition store (st : ReadState) (item : LogItem) : ReadState :=
  let h := rs_hardware st in
  match item with
  | TopologyCpu cpu =>
      mk_ReadState (mk_HardwareGraph (hw_cpus h ++ [cpu]) (cpu_latency h) (node_distance h)
        (node_calibration h)) (rs_frames st) (rs_index st)
  | TopologyEdge from to distance =>
      mk_ReadState (mk_HardwareGraph (hw_cpus h) (cpu_latency h) (<[(from, to) := distance]> (node_distance h))
        (node_calibration h)) (rs_frames st) (rs_index st)
  | Window w entry =>
      let '(i, st) := frame_for w st in
      mk_ReadState (rs_hardware st) (alter (add_entry entry) i (rs_frames st)) (rs_index st)
  | OtherItem => st
  end.

(** [std::unique] by id: of neighbours with one id the first stays. *)
Fixpoint unique_ids (l : list Cpu) : list Cpu :=
  match l with
  | [] => []
  | a :: l' => a :: match unique_ids l' with
                    | b :: l'' => if cpu_id a =? cpu_id b then l'' else b :: l''
                    | [] => []
                    end
  end.

(** What is checked and tidied after the last line. *)
Definition finish (st : ReadState) : result (HardwareGraph * list ReplayFrame) :=
  let h := rs_hardware st in
  let cpus := unique_ids (std_sort (λ a b, cpu_id a <? cpu_id b) (hw_cpus h)) in
  let frames := filter (λ f, rf_planned f = true) (rs_frames st) in
  if bool_decide (cpus = []) then Throw (runtime_error "runtime log has no topology") else
  match frames with
  | [] => Throw (runtime_error "runtime log has no NUMA domain plans")
  | _ =>
      match find (λ f, negb (rf_relation_input_complete f)) frames with
      | Some f => Throw (runtime_error ("runtime log truncates relation edges for window " +:+
                    rf_window_id f +:+ "; exact selector replay is invalid"))
      | None => Ok (mk_HardwareGraph cpus (cpu_latency h) (node_distance h) (node_calibration h), frames)
      end
  end.

Section read.
Context (read_json : list ascii → result ptree).

Definition error_text (x : exn) : string :=
  match x with logic_error s | runtime_error s | invalid_argument s | out_of_range s => s end.

Definition read_log_line (acc : nat * ReadState) (line : list ascii) : result (nat * ReadState) :=
  let '(number, st) := acc in
  let number := S number in
  if bool_decide (line = []) then Ok (number, st) else
  match read_json line with
  | Throw x => Throw (runtime_error ("invalid runtime JSON at line " +:+
                 text (print_int (Z.of_nat number)) +:+ ": " +:+ error_text x))
  | Ok tree => item ← read_item tree; Ok (number, store st item)
  end.

Definition read_runtime_log (path : string) (log : option (list (list ascii))) :
    result (HardwareGraph * list ReplayFrame) :=
  match log with
  | None => Throw (runtime_error ("cannot open runtime log: " +:+ path))
  | Some lines => '(_, st) ← foldlM read_log_line (0%nat, ReadState_init) lines; finish st
  end.
End read.

(** ** The replay *)
Definition replay_options (c : Config) : NumaDomainOptions :=
  mk_NumaDomainOptions (family_minimum_demand c) (family_minimum_internal_relation c)
    (family_minimum_self_containment c) (family_minimum_relative_internal c)
    (domain_merge_ratio c) (Z.to_nat (u64 (family_edges_per_family c)))
    (family_stability_confirmations c) (domain_stability_confirmations c)
    (domain_plan_confirmations c) (u64 (maximum_threads_per_domain c))
    (domain_capacity_ratio c) (domain_expand_ratio c) (domain_expand_confirmations c)
    (domain_shrink_ratio c) (domain_shrink_confirmations c)
    (u64 (u64 (domain_minimum_dwell_seconds c) * 1000000000)).

Record FrameResult := mk_FrameResult {
  fr_window_id : string;
  fr_ready : bool;
  fr_valid : bool;
  fr_solve_ms : double;
  fr_families : list FamilyMetric;
  fr_family_pairs : list FamilyPairMetric;
  fr_domains : list NumaDomain;
}.

Section replay.
Context (hardware : HardwareGraph) (options : NumaDomainOptions).
(** the time the [i]-th solve takes *)
Context (elapsed : nat → double).

(** Whether the frame's plan is taken over: what the runtime does in plan mode. *)
Definition takes_over (p : NumaDomainProposal) (s : NumaDomainSolver) : bool :=
  negb (np_valid p) ||
  (np_ready p && (negb (bool_decide (np_actions p = [])) || negb (bool_decide (np_released_tids p = ∅)) ||
                  negb (bool_decide (np_planned_masks p = ds_placement s)))).

Definition replay_frame (frame : ReplayFrame) (s : NumaDomainSolver) :
    result (NumaDomainProposal * NumaDomainSolver) :=
  '(p, s) ← propose hardware (rf_threads frame) (rf_edges frame) (rf_allowed_masks frame) options
              (rf_timestamp_ns frame) s;
  s ← (if (takes_over p s : bool) then commit p (rf_timestamp_ns frame) ∅ s else Ok (discard p s));
  Ok (p, s).

Definition frame_result (frame : ReplayFrame) (p : NumaDomainProposal) (ms : double) : FrameResult :=
  mk_FrameResult (rf_window_id frame) (np_ready p) (np_valid p) ms (np_families p) (np_family_pairs p)
    (np_domains p).

Fixpoint replay_frames (i : nat) (frames : list ReplayFrame) (s : NumaDomainSolver) :
    result (list FrameResult) :=
  match frames with
  | [] => Ok []
  | f :: frames' =>
      '(p, s') ← replay_frame f s;
      rest ← replay_frames (S i) frames' s';
      Ok (frame_result f p (elapsed i) :: rest)
  end.
Definition replay (frames : list ReplayFrame) : result (list FrameResult) :=
  replay_frames 0 frames NumaDomainSolver_init.
End replay.

(** ** [same_results] *)
Definition same_family (a b : FamilyMetric) : bool :=
  bool_decide (fm_name a = fm_name b) && Bool.eqb (fm_anchor a) (fm_anchor b) &&
  Bool.eqb (fm_cohesive_anchor a) (fm_cohesive_anchor b) && Bool.eqb (fm_cross_seed a) (fm_cross_seed b) &&
  Bool.eqb (fm_cross_pending a) (fm_cross_pending b) && (fm_confirmation a =? fm_confirmation b) &&
  (fm_seed_confirmation a =? fm_seed_confirmation b).
Definition same_pair (a b : FamilyPairMetric) : bool :=
  bool_decide (fp_left a = fp_left b) && bool_decide (fp_right a = fp_right b) &&
  (fp_cross_relation a =? fp_cross_relation b)%D && (fp_merge_ratio a =? fp_merge_ratio b)%D &&
  Bool.eqb (fp_qualifies a) (fp_qualifies b) && (fp_confirmation a =? fp_confirmation b)%Z &&
  Bool.eqb (fp_confirmed a) (fp_confirmed b).
Definition same_domain (a b : NumaDomain) : bool :=
  bool_decide (nd_id a = nd_id b) && bool_decide (nd_families a = nd_families b) &&
  bool_decide (nd_tids a = nd_tids b) && bool_decide (nd_target_nodes a = nd_target_nodes b) &&
  bool_decide (nd_target_mask a = nd_target_mask b) && Bool.eqb (nd_valid a) (nd_valid b).
(** Two vectors of one size whose elements agree position by position. *)
Fixpoint same_all {A} (same : A → A → bool) (l r : list A) : bool :=
  match l, r with
  | [], [] => true
  | a :: l', b :: r' => same a b && same_all same l' r'
  | _, _ => false
  end.
Definition same_frame (l r : FrameResult) : bool :=
  bool_decide (fr_window_id l = fr_window_id r) && Bool.eqb (fr_ready l) (fr_ready r) &&
  Bool.eqb (fr_valid l) (fr_valid r) && same_all same_family (fr_families l) (fr_families r) &&
  same_all same_pair (fr_family_pairs l) (fr_family_pairs r) &&
  same_all same_domain (fr_domains l) (fr_domains r).
Definition same_results (l r : list FrameResult) : bool := same_all same_frame l r.
