(* ===== verification/DomainReplayProperties.v ===== *)
(** * The replay of the domain selector: properties

    What is read from a log, that the replay follows the selector of the runtime
    in plan mode, and what its verdict on determinism means. *)
From Stdlib Require Import SpecFloat Ascii.
From S2P Require Import Prelude Binary64 Core CpuList Actuator Topology DomainPlanner DomainSolver DomainTheorems GraphWindow.
From S2P Require Import Config ConfigProperties Runtime RuntimeSolve RuntimeFacts RuntimeProperties DomainReplay.
Local Open Scope string_scope.
Local Open Scope Z_scope.

(** ** Reading *)

(** The windows of a log in the order they are first mentioned, and what the log
    says of one of them. *)
Definition mention (ws : list string) (item : LogItem) : list string :=
  match item with
  | Window w _ => if bool_decide (w ∈ ws) then ws else (ws ++ [w])%list
  | _ => ws
  end.
Definition windows_of (items : list LogItem) : list string := foldl mention [] items.
Definition entry_of (w : string) (item : LogItem) : option Entry :=
  match item with Window w' entry => if bool_decide (w' = w) then Some entry else None | _ => None end.
Definition window_frame (items : list LogItem) (w : string) : ReplayFrame :=
  foldl (λ f entry, add_entry entry f) (ReplayFrame_init w) (omap (entry_of w) items).

Lemma windows_snoc items item : windows_of (items ++ [item]) = mention (windows_of items) item.
Proof. unfold windows_of. by rewrite foldl_app. Qed.
Lemma window_frame_snoc items item w :
  window_frame (items ++ [item]) w =
    match entry_of w item with
    | Some entry => add_entry entry (window_frame items w)
    | None => window_frame items w
    end.
Proof.
  unfold window_frame. rewrite omap_app, foldl_app. cbn. by destruct (entry_of w item).
Qed.

Lemma windows_NoDup items : NoDup (windows_of items).
Proof.
  induction items as [|item items IH] using rev_ind; [constructor|].
  rewrite windows_snoc. destruct item; cbn; try done. case_bool_decide; [done|].
  apply NoDup_app. split_and!; [done| |apply NoDup_singleton]. set_solver.
Qed.
(** A window that was never mentioned has no entries. *)
Lemma window_frame_new items w : w ∉ windows_of items → window_frame items w = ReplayFrame_init w.
Proof.
  induction items as [|item items IH] using rev_ind; [done|].
  rewrite windows_snoc, window_frame_snoc.
  destruct item as [|?|w' entry|]; cbn; try done.
  repeat case_bool_decide; subst; try done; set_solver.
Qed.

Lemma window_frame_other items w entry w' :
  w ≠ w' → window_frame (items ++ [Window w entry]) w' = window_frame items w'.
Proof. intros Hw. rewrite window_frame_snoc. cbn. by rewrite bool_decide_false. Qed.
Lemma window_frame_same items w entry :
  window_frame (items ++ [Window w entry]) w = add_entry entry (window_frame items w).
Proof. rewrite window_frame_snoc. cbn. by rewrite bool_decide_true. Qed.

(** Adding an entry to a window that has a frame, or needs one. *)
Lemma alter_window items w entry i :
  windows_of items !! i = Some w →
  alter (add_entry entry) i (window_frame items <$> windows_of items) =
    window_frame (items ++ [Window w entry]) <$> windows_of items.
Proof.
  intros Hi. apply list_eq. intros j. rewrite list_lookup_fmap. destruct (decide (i = j)) as [<-|Hij].
  - rewrite list_lookup_alter_eq, list_lookup_fmap, Hi. cbn. by rewrite window_frame_same.
  - rewrite list_lookup_alter_ne, list_lookup_fmap by done.
    destruct (windows_of items !! j) as [w'|] eqn:Hj; [|done]. cbn. rewrite window_frame_other; [done|].
    intros <-. by apply Hij, (NoDup_lookup _ _ _ _ (windows_NoDup items) Hi).
Qed.
Lemma append_window items w entry :
  w ∉ windows_of items →
  alter (add_entry entry) (length (windows_of items))
    ((window_frame items <$> windows_of items) ++ [ReplayFrame_init w])%list =
    window_frame (items ++ [Window w entry]) <$> (windows_of items ++ [w])%list.
Proof.
  intros Hw. rewrite fmap_app. cbn. rewrite window_frame_same, window_frame_new by done.
  replace (length (windows_of items)) with (length (window_frame items <$> windows_of items))
    by apply length_fmap.
  rewrite alter_app_r_alt by lia. rewrite Nat.sub_diag. cbn. f_equal.
  apply list_fmap_ext. intros i w' Hi. rewrite window_frame_other; [done|].
  intros <-. by apply list_elem_of_lookup_2 in Hi.
Qed.

(** The index and the frames after any number of lines. *)
Lemma stored_frames items :
  let st := foldl store ReadState_init items in
  rs_frames st = window_frame items <$> windows_of items ∧
  ∀ w i, rs_index st !! w = Some i ↔ windows_of items !! i = Some w.
Proof.
  induction items as [|item items [IHf IHi]] using rev_ind; [done|]. cbn zeta in *.
  rewrite foldl_app, windows_snoc. cbn [foldl]. set (st := foldl store _ items) in *.
  destruct item as [| |w entry|]; try (split; [|exact IHi]; cbn; rewrite IHf; by apply list_fmap_ext; intros;
    rewrite window_frame_snoc).
  unfold store, frame_for, mention. destruct (rs_index st !! w) as [i|] eqn:Hw.
  - apply IHi in Hw. rewrite bool_decide_true by (by eapply list_elem_of_lookup_2). cbn.
    split; [|done]. rewrite IHf. by apply alter_window.
  - assert (Hn : w ∉ windows_of items).
    { intros [i Hi]%list_elem_of_lookup. apply IHi in Hi. congruence. }
    rewrite bool_decide_false by done. cbn. split.
    + rewrite IHf, length_fmap. by apply append_window.
    + intros w' i. rewrite IHf, length_fmap. destruct (decide (w = w')) as [<-|Hne].
      * rewrite lookup_insert_eq. split.
        -- intros [= <-]. by rewrite lookup_app_r, Nat.sub_diag by done.
        -- intros [Hi|[Hl Hi]]%lookup_app_Some; [by apply list_elem_of_lookup_2 in Hi|].
           apply list_lookup_singleton_Some in Hi as [Hi _]. f_equal. lia.
      * rewrite lookup_insert_ne, IHi by done. split; [by apply lookup_app_l_Some|].
        intros [Hi|[_ Hi]]%lookup_app_Some; [done|]. by apply list_lookup_singleton_Some in Hi as [_ ?].
Qed.

(** The lines that are not empty, parsed. *)
Definition line_items (read_json : list ascii → result ptree) (lines : list (list ascii))
    (items : list LogItem) : Prop :=
  Forall2 (λ line item, ∃ tree, read_json line = Ok tree ∧ read_item tree = Ok item)
    (filter (λ line, line ≠ []) lines) items.

Lemma read_lines_items read_json lines n st n' st' :
  foldlM (read_log_line read_json) (n, st) lines = Ok (n', st') →
  ∃ items, line_items read_json lines items ∧ st' = foldl store st items.
Proof.
  revert n st. induction lines as [|line lines IH]; intros n st; cbn.
  { intros [= <- <-]. exists []. split; [constructor|done]. }
  case_bool_decide as Hl; cbn.
  - intros H. apply IH in H as (items&Hi&->). exists items. split; [|done].
    unfold line_items. rewrite filter_cons_False by naive_solver. done.
  - destruct (read_json line) as [tree|] eqn:Ht; cbn; [|done].
    destruct (read_item tree) as [item|] eqn:Hr; cbn; [|done].
    intros H. apply IH in H as (items&Hi&->). exists (item :: items). split; [|done].
    unfold line_items. rewrite filter_cons_True by done. constructor; [eauto|done].
Qed.

Lemma unique_ids_subseteq l c : c ∈ unique_ids l → c ∈ l.
Proof.
  revert c. induction l as [|a l IH]; intros c; cbn; [done|].
  destruct (unique_ids l) as [|b l'']; [set_solver|]. destruct (_ =? _); set_solver.
Qed.
Lemma unique_ids_keeps l c : c ∈ l → ∃ c', c' ∈ unique_ids l ∧ cpu_id c' = cpu_id c.
Proof.
  induction l as [|a l IH]; cbn; [set_solver|]. intros [<-|Hc]%elem_of_cons; [exists c; set_solver|].
  destruct (IH Hc) as (c'&Hc'&He). destruct (unique_ids l) as [|b l'']; [set_solver|].
  destruct (cpu_id a =? cpu_id b) eqn:Eab; [|set_solver].
  apply elem_of_cons in Hc' as [->|Hc']; [|exists c'; set_solver]. exists a. split; [set_solver|lia].
Qed.
(** On a range sorted by id each id is left once. *)
Lemma unique_ids_sorted l :
  StronglySorted (λ a b, cpu_id a ≤ cpu_id b) l → StronglySorted (λ a b, cpu_id a < cpu_id b) (unique_ids l).
Proof.
  induction 1 as [|a l Hs IH Ha]; cbn; [constructor|].
  destruct (unique_ids l) as [|b l''] eqn:E; [repeat constructor|].
  assert (Hb : b ∈ l) by (apply unique_ids_subseteq; rewrite E; set_solver).
  inversion IH as [|?? Hs'' Hlt]; subst. rewrite Forall_forall in Ha. apply Ha in Hb.
  destruct (cpu_id a =? cpu_id b) eqn:Eab.
  - constructor; [done|]. rewrite Forall_forall in *. intros c Hc. specialize (Hlt c Hc). lia.
  - constructor; [done|]. constructor; [lia|].
    rewrite Forall_forall in *. intros c Hc. specialize (Hlt c Hc). lia.
Qed.

(** The CPUs of a log, and the range that is sorted by id. *)
Definition cpu_of (item : LogItem) : option Cpu :=
  match item with TopologyCpu c => Some c | _ => None end.
Lemma stored_cpus items st :
  hw_cpus (rs_hardware (foldl store st items)) = (hw_cpus (rs_hardware st) ++ omap cpu_of items)%list.
Proof.
  revert st. induction items as [|item items IH]; intros st; cbn; [by rewrite app_nil_r|].
  rewrite IH. destruct item as [| |w entry|]; cbn; [by rewrite <- app_assoc|done| |done].
  unfold frame_for. by destruct (rs_index st !! w).
Qed.
Lemma sorted_by_id l :
  StronglySorted (λ a b, cpu_id a ≤ cpu_id b) (std_sort (λ a b, cpu_id a <? cpu_id b) l).
Proof.
  assert (H : StronglySorted (λ a b, (cpu_id b <? cpu_id a) = false)
    (std_sort (λ a b, cpu_id a <? cpu_id b) l)).
  { apply (std_sort_sorted _ (λ _, True)); [intros; lia..|by apply Forall_true]. }
  induction H as [|a l' Hs IH Ha]; constructor; [done|].
  eapply Forall_impl; [exact Ha|]. cbn. intros. lia.
Qed.

(** the log that is accepted is read exactly: the frames are the windows
    with a plan, in the order they are first mentioned, each with every thread,
    mask, edge and time stamp the log has for it, however the lines of different
    windows are interleaved; no frame has its edges cut; and each CPU of the
    topology is there once, in ascending order. *)
Theorem log_read_exact read_json path lines h frames :
  read_runtime_log read_json path (Some lines) = Ok (h, frames) →
  ∃ items, line_items read_json lines items ∧
    frames = filter (λ f, rf_planned f = true) (window_frame items <$> windows_of items) ∧
    frames ≠ [] ∧ Forall (λ f, rf_relation_input_complete f = true) frames ∧
    StronglySorted (λ a b, cpu_id a < cpu_id b) (hw_cpus h) ∧
    ∀ id, id ∈ cpu_id <$> hw_cpus h ↔ ∃ node online, TopologyCpu (mk_Cpu id node online) ∈ items.
Proof.
  unfold read_runtime_log. intros H. apply result_bind_Ok in H as ([n st]&Hl&H).
  apply read_lines_items in Hl as (items&Hi&->). exists items. split; [done|].
  destruct (stored_frames items) as [Hf _]. unfold finish in H. rewrite Hf, stored_cpus in H.
  cbn [rs_hardware ReadState_init hw_cpus app] in H.
  set (sorted := std_sort _ (omap cpu_of items)) in H. case_bool_decide; [done|].
  destruct (filter _ _) as [|f frames'] eqn:Ef; [done|].
  destruct (find _ _) as [|] eqn:Ec; [done|]. injection H as <- <-. split; [done|]. split; [done|].
  split.
  { apply Forall_forall. intros g Hg%list_elem_of_In. apply (find_none _ _ Ec) in Hg. by destruct (rf_relation_input_complete g). }
  split; [apply unique_ids_sorted, sorted_by_id|]. cbn [hw_cpus]. intros id.
  assert (Hin : ∀ c, c ∈ sorted ↔ TopologyCpu c ∈ items).
  { intros c. unfold sorted. rewrite elem_of_std_sort, list_elem_of_omap. split.
    - intros (item&Hitem&Hc). destruct item; naive_solver.
    - intros Hc. by exists (TopologyCpu c). }
  rewrite list_elem_of_fmap. split.
  - intros (c&->&Hc%unique_ids_subseteq%Hin). destruct c as [id node online]. by exists node, online.
  - intros (node&online&Hc%Hin%unique_ids_keeps). destruct Hc as (c'&Hc'&He). by exists c'.
Qed.

(** ** Replaying *)

(** A frame always yields a proposal, and leaves none outstanding. *)
Lemma replay_frame_total hardware options frame s :
  ds_outstanding s = None →
  ∃ p s', replay_frame hardware options frame s = Ok (p, s') ∧ ds_outstanding s' = None.
Proof.
  intros Hout. unfold replay_frame.
  destruct (propose_run hardware (rf_threads frame) (rf_edges frame) (rf_allowed_masks frame) options
    (rf_timestamp_ns frame) s Hout) as (ev&acts&p&s1&Hp&Hpr).
  assert (Ho : ds_outstanding s1 = Some p) by apply Hpr. rewrite Hp. cbn.
  destruct (takes_over p s1).
  - unfold commit. rewrite Ho, Z.eqb_refl. cbn. destruct (foldl _ _ (np_domains p)) as [[changed evidence] m].
    cbn. by eauto.
  - cbn. unfold discard. rewrite Ho, Z.eqb_refl. by eauto.
Qed.

(** Two replays of the same frames differ in the measured times only. *)
Lemma replay_frames_twice hardware options el el' i i' frames s :
  ds_outstanding s = None →
  ∃ rs rs', replay_frames hardware options el i frames s = Ok rs ∧
    replay_frames hardware options el' i' frames s = Ok rs' ∧
    fr_window_id <$> rs = rf_window_id <$> frames ∧
    Forall2 (λ r r', ∃ ms, r' = mk_FrameResult (fr_window_id r) (fr_ready r) (fr_valid r) ms (fr_families r)
      (fr_family_pairs r) (fr_domains r)) rs rs'.
Proof.
  revert i i' s. induction frames as [|f frames IH]; intros i i' s Hs.
  { exists [], []. cbn. auto. }
  destruct (replay_frame_total hardware options f s Hs) as (p&s'&Hp&Hs').
  destruct (IH (S i) (S i') s' Hs') as (rs&rs'&H1&H2&H3&H4).
  exists (frame_result f p (el i) :: rs), (frame_result f p (el' i') :: rs').
  cbn [replay_frames]. rewrite Hp. cbn [mbind result_bind]. rewrite H1, H2. cbn. split_and!; [done..| |].
  - by rewrite H3.
  - constructor; [by eexists|done].
Qed.

(** No ratio that [same_results] compares is a NaN. *)
Definition comparable (r : FrameResult) : Prop :=
  Forall (λ p, not_nan (fp_cross_relation p) ∧ not_nan (fp_merge_ratio p)) (fr_family_pairs r).

Lemma same_all_Forall2 {A} (same : A → A → bool) l r :
  same_all same l r = true ↔ Forall2 (λ a b, same a b = true) l r.
Proof.
  revert r. induction l as [|a l IH]; intros [|b r]; cbn.
  - split; [constructor|done].
  - split; [done|inversion 1].
  - split; [done|inversion 1].
  - rewrite andb_true_iff, IH. split; [intros []; by constructor|inversion 1; done].
Qed.
Lemma same_all_refl {A} (same : A → A → bool) l : same_all same l l = true ↔ Forall (λ a, same a a = true) l.
Proof.
  rewrite same_all_Forall2. induction l as [|a l IH]; [split; constructor|].
  rewrite Forall2_cons, Forall_cons, IH. done.
Qed.
Lemma same_family_refl a : same_family a a = true.
Proof. unfold same_family. by rewrite bool_decide_true, !Bool.eqb_reflx, !Z.eqb_refl. Qed.
Lemma same_domain_refl a : same_domain a a = true.
Proof. unfold same_domain. by rewrite !bool_decide_true, Bool.eqb_reflx. Qed.
Lemma same_pair_refl a : same_pair a a = true ↔ not_nan (fp_cross_relation a) ∧ not_nan (fp_merge_ratio a).
Proof.
  unfold same_pair. rewrite !bool_decide_true, !Bool.eqb_reflx, Z.eqb_refl by done. cbn [andb].
  rewrite !andb_true_r, andb_true_iff. split; [intros [H1 H2]; split; by eapply deqb_not_nan|].
  intros [H1 H2]. by rewrite !deqb_drank.
Qed.
Lemma same_frame_times r ms :
  same_frame r (mk_FrameResult (fr_window_id r) (fr_ready r) (fr_valid r) ms (fr_families r)
    (fr_family_pairs r) (fr_domains r)) = true ↔ comparable r.
Proof.
  unfold same_frame, comparable. cbn. rewrite bool_decide_true, !Bool.eqb_reflx by done. cbn.
  assert (Hf : same_all same_family (fr_families r) (fr_families r) = true)
    by (apply same_all_refl, Forall_true; apply same_family_refl).
  assert (Hd : same_all same_domain (fr_domains r) (fr_domains r) = true)
    by (apply same_all_refl, Forall_true; apply same_domain_refl).
  rewrite Hf, Hd, andb_true_r. cbn. rewrite same_all_refl.
  apply Forall_iff. intros a. apply same_pair_refl.
Qed.

(** the replay returns a result for every window that was read, and its
    verdict on determinism does not depend on the measured times: two replays
    are reported equal exactly when no compared ratio is a NaN, which never
    equals itself. *)
Theorem replay_verdict hardware options el el' frames :
  ∃ rs rs', replay hardware options el frames = Ok rs ∧ replay hardware options el' frames = Ok rs' ∧
    fr_window_id <$> rs = rf_window_id <$> frames ∧
    (same_results rs rs' = true ↔ Forall comparable rs).
Proof.
  destruct (replay_frames_twice hardware options el el' 0 0 frames NumaDomainSolver_init eq_refl)
    as (rs&rs'&H1&H2&H3&H4).
  exists rs, rs'. split_and!; [done..|]. unfold same_results. rewrite same_all_Forall2. clear - H4.
  induction H4 as [|r r' rs rs' [ms ->] _ IH]; [split; constructor|].
  by rewrite Forall2_cons, Forall_cons, same_frame_times, IH.
Qed.

(** ** The replay and the runtime *)
Section online.
Context {W : Type} `{AffinityBackend W}.
Context (config : Config) (hardware : HardwareGraph).

(** The windows of a runtime, one after the other. *)
Definition online_window (frame : ReplayFrame) : M W unit :=
  solve_numa_domains config hardware true (rf_threads frame) (rf_edges frame) (rf_allowed_masks frame)
    (rf_timestamp_ns frame).
Fixpoint online_windows (frames : list ReplayFrame) : M W unit :=
  match frames with [] => mret tt | f :: frames' => _ ← online_window f; online_windows frames' end.
(** The selector after a replay. *)
Definition replayed_solver (frames : list ReplayFrame) (s : NumaDomainSolver) : result NumaDomainSolver :=
  foldlM (λ s f, snd <$> replay_frame hardware (replay_options config) f s) s frames.

Lemma online_window_replayed frame s :
  mode config = Plan → bpf_gate_passed true s = true → ds_outstanding (rt_domain_solver s) = None →
  ∃ p s', online_window frame s = Returned tt s' ∧
    replay_frame hardware (replay_options config) frame (rt_domain_solver s) = Ok (p, rt_domain_solver s') ∧
    ds_outstanding (rt_domain_solver s') = None ∧ rt_health s' = rt_health s.
Proof.
  intros Hm Hg Hout. destruct (replay_frame_total hardware (replay_options config) frame _ Hout)
    as (p&d&Hr&Hd). exists p. revert Hr.
  unfold replay_frame, online_window, solve_numa_domains, domain_propose.
  change (domain_options config) with (replay_options config).
  unfold log, window_end, modify, get, mbind, M_bind, mret, M_ret. runtime_simpl.
  unfold bpf_gate_passed in *. runtime_simpl. rewrite Hg. cbn [negb].
  destruct (propose _ _ _ _ _ _ _) as [[p' d1]|] eqn:Hp; cbn [mbind result_bind]; [|done].
  unfold takes_over, valid_window, invalid_window, shadow_window, domain_commit, domain_discard, copy_masks,
    set_selector_ready, is_active, log, window_end, modify, get, mbind, M_bind, mret, M_ret.
  rewrite Hm, (bool_decide_true (Plan = Plan)), (bool_decide_false (Plan = Active)) by done. runtime_simpl.
  destruct (np_valid p'); cbn [negb orb andb]; [destruct (np_ready p'); cbn [negb orb andb]|]; runtime_simpl.
  1: destruct (bool_decide (np_actions p' = [])), (bool_decide (np_released_tids p' = ∅)),
       (bool_decide (np_planned_masks p' = ds_placement d1)); cbn [negb orb andb].
  all: runtime_simpl; first [destruct (commit p' _ _ d1); cbn [result_bind]; [|done]|cbn [result_bind]].
  all: intros [= -> ->]; eexists; split; [reflexivity|done].
Qed.

(** C22: the replay is the runtime's selector in plan mode: over any sequence of
    windows whose evidence is complete, the runtime returns from every window
    and its selector ends in the very state the replay reaches from the same
    inputs, so their proposals agree window by window. *)
Theorem replay_follows_runtime frames (s : Runtime W) :
  mode config = Plan → bpf_gate_passed true s = true → ds_outstanding (rt_domain_solver s) = None →
  ∃ s', online_windows frames s = Returned tt s' ∧
    replayed_solver frames (rt_domain_solver s) = Ok (rt_domain_solver s').
Proof.
  intros Hm. revert s. induction frames as [|f frames IH]; intros s Hg Hout; [by exists s|].
  destruct (online_window_replayed f s Hm Hg Hout) as (p&s1&Hw&Hr&Hout1&Hh).
  destruct (IH s1) as (s'&Hs'&Hrs); [by unfold bpf_gate_passed in *; rewrite Hh|done|].
  exists s'. split; [by cbn; unfold mbind, M_bind; rewrite Hw|].
  unfold replayed_solver in *. cbn. by rewrite Hr.
Qed.
End online.

(** *** A small log *)
Definition demo_frame (w : string) (timestamp : Z) : ReplayFrame :=
  mk_ReplayFrame w timestamp true true demo_team [demo_edge 11 12 (double_of_Z 5)] demo_world.
Definition demo_plan_config : Config := ltac:(config_update demo_numa_config mode Plan).

(** After two windows the pair is placed, in the runtime as in the replay. *)
Lemma replay_follows_runtime_witness :
  ∃ s', online_windows demo_plan_config demo_board [demo_frame "1" 1000; demo_frame "2" 2000]
          (demo_runtime demo_world) = Returned tt s' ∧
    replayed_solver demo_plan_config demo_board [demo_frame "1" 1000; demo_frame "2" 2000]
      NumaDomainSolver_init = Ok (rt_domain_solver s').
Proof.
  exact (replay_follows_runtime demo_plan_config demo_board [demo_frame "1" 1000; demo_frame "2" 2000]
    (demo_runtime demo_world) eq_refl eq_refl eq_refl).
Defined.
Example demo_replayed :
  match replay demo_board (replay_options demo_plan_config) (λ _, d1) [demo_frame "1" 1000; demo_frame "2" 2000] with
  | Ok rs => ((λ r, (fr_window_id r, fr_ready r)) <$> rs, same_results rs rs)
  | Throw _ => ([], false)
  end = ([("1", true); ("2", true)], true).
Proof. vm_compute. reflexivity. Qed.

(** Lines of two windows, interleaved; the second window has no plan. *)
Definition value_of {A} (l : list (string * A)) (k : string) : option A :=
  option_map snd (List.find (λ e, String.eqb e.1 k) l).
Definition demo_tree (strings : list (string * string)) (ints : list (string * Z)) : ptree :=
  mk_ptree (value_of strings) (value_of ints) (value_of ints) (λ k, double_of_Z <$> value_of ints k)
    (λ _, None) (λ _, None) (λ k, runtime_error k).
Definition demo_json (line : list ascii) : result ptree :=
  match line with
  | "c"%char :: _ => Ok (demo_tree [("type", "topology_cpu")] [("cpu", 0); ("node", 0)])
  | "b"%char :: w :: _ => Ok (demo_tree [("type", "solve_window_begin"); ("window_id", text [w])]
                                [("timestamp_ns", 7)])
  | "r"%char :: w :: _ => Ok (demo_tree [("type", "relation_edge"); ("window_id", text [w])]
                                [("from_tid", 11); ("to_tid", 12); ("score", 1)])
  | "p"%char :: w :: _ => Ok (demo_tree [("type", "plan"); ("window_id", text [w]);
                                         ("strategy_id", "numa-domain-v1")] [])
  | _ => Throw (runtime_error "unexpected")
  end.
Definition demo_log : list (list ascii) :=
  chars <$> ["c"; "b2"; "b1"; "r2"; "r1"; ""; "p1"].
Lemma log_read_exact_witness :
  let f := mk_ReplayFrame "1" 7 true true [] [mk_RelationEdge 11 12 d0 d0 d0 d0 (double_of_Z 1) d0 d0 d0 0 d0 d0] ∅ in
  read_runtime_log demo_json "log" (Some demo_log) = Ok (mk_HardwareGraph [mk_Cpu 0 0 true] ∅ ∅ ∅, [f]) ∧
  ∃ items, line_items demo_json demo_log items.
Proof.
  cbn zeta.
  assert (H : read_runtime_log demo_json "log" (Some demo_log) =
    Ok (mk_HardwareGraph [mk_Cpu 0 0 true] ∅ ∅ ∅,
        [mk_ReplayFrame "1" 7 true true [] [mk_RelationEdge 11 12 d0 d0 d0 d0 (double_of_Z 1) d0 d0 d0 0 d0 d0] ∅]))
    by (vm_compute; reflexivity).
  split; [exact H|]. destruct (log_read_exact demo_json "log" demo_log _ _ H) as (items&Hi&_). by exists items.
Defined.
