(* ===== verification/RuntimeLogProperties.v ===== *)
(** * The runtime's documents: properties

    Every line and the status document are valid JSON as long as the numbers in
    them are finite; and what the replay of a log reads of a window. *)
From Stdlib Require Import SpecFloat Ascii.
From S2P Require Import Prelude Binary64 Core CpuList Actuator Topology DomainPlanner DomainSolver GraphWindow ThreadProfile.
From S2P Require Import Config ConfigProperties Hotspot Incremental Runtime RuntimeSolve RuntimeProperties.
From S2P Require Import BpfReader Json JsonProperties RuntimeLog RuntimeStatus DomainReplay DomainReplayProperties.
Local Open Scope string_scope.
Local Open Scope Z_scope.

(** ** Plain text *)
Lemma number_char_plain c : number_char c = true → plain c = true.
Proof.
  unfold number_char. intros [H|H]%orb_true_iff.
  - apply plain_spec. unfold isdigit in H. apply andb_true_iff in H as [H1 H2].
    split_and!; [|intros ->; by vm_compute in H1, H2..].
    unfold code in H1. apply Nat.leb_le. unfold nat_of_ascii. lia.
  - cbn [existsb chars String.list_ascii_of_string] in H. repeat (apply orb_true_iff in H as [H|H]);
      try done; apply bool_decide_eq_true in H; subst c; reflexivity.
Qed.
Lemma print_int_plain n : forallb plain (print_int n) = true.
Proof.
  pose proof (jint_well_formed n) as H. apply andb_true_iff in H as [_ H].
  rewrite forallb_forall in *. intros c Hc. by apply number_char_plain, H.
Qed.
Lemma run_text_plain r : forallb plain (run_text r) = true.
Proof.
  unfold run_text. rewrite forallb_app, print_int_plain. destruct (_ =? _); [done|]. cbn [forallb].
  by rewrite print_int_plain.
Qed.
Lemma join_runs_plain l : forallb plain (join_runs l) = true.
Proof.
  induction l as [|r [|r' l] IH]; [done|apply run_text_plain|].
  change (join_runs (r :: r' :: l)) with (run_text r ++ ","%char :: join_runs (r' :: l))%list.
  rewrite forallb_app, run_text_plain. cbn [forallb]. by rewrite IH.
Qed.
Lemma chars_of_text l : chars (text l) = l.
Proof. apply String.list_ascii_of_string_of_list_ascii. Qed.
Lemma format_cpu_list_plain l : forallb plain (chars (format_cpu_list l)) = true.
Proof. unfold format_cpu_list. destruct l; [done|]. rewrite chars_of_text. apply join_runs_plain. Qed.

(** ** Well-formed documents *)
Lemma object_well_formed (l : list (string * json)) :
  Forall (λ kv, forallb plain (chars kv.1) = true ∧ well_formed kv.2 = true) l → well_formed (JObj l) = true.
Proof.
  intros H. cbn. apply forallb_forall. intros kv Hkv%list_elem_of_In. rewrite Forall_forall in H.
  by apply andb_true_iff, H.
Qed.
Lemma array_well_formed l : Forall (λ v, well_formed v = true) l → well_formed (JArr l) = true.
Proof. intros H. cbn. apply forallb_forall. intros v Hv%list_elem_of_In. rewrite Forall_forall in H. by apply H. Qed.
Lemma mapped_array_well_formed {A} (f : A → json) l :
  (∀ a, a ∈ l → well_formed (f a) = true) → well_formed (JArr (f <$> l)) = true.
Proof. intros H. apply array_well_formed, Forall_fmap, Forall_forall. apply H. Qed.
Lemma jdouble_finite d : disfinite d = true → well_formed (jdouble d) = true.
Proof. by rewrite jdouble_well_formed. Qed.
Lemma jfixed_finite d : disfinite d = true → well_formed (jfixed d) = true.
Proof. by rewrite jfixed_well_formed. Qed.
Lemma jmask_well_formed l : well_formed (jraw (format_cpu_list l)) = true.
Proof. apply format_cpu_list_plain. Qed.
Lemma cpu_array_well_formed l : well_formed (cpu_array_json l) = true.
Proof. apply mapped_array_well_formed. intros. apply jint_well_formed. Qed.
Lemma jkey_plain t : forallb plain (chars (jkey t)) = true.
Proof. unfold jkey. rewrite chars_of_text. apply print_int_plain. Qed.
Lemma masks_well_formed m : well_formed (masks_json m) = true.
Proof.
  apply object_well_formed, Forall_fmap, Forall_forall. intros e _. cbn [compose fst snd].
  split; [apply jkey_plain|apply jmask_well_formed].
Qed.
Lemma assignments_well_formed m : well_formed (assignments_json m) = true.
Proof.
  apply object_well_formed, Forall_fmap, Forall_forall. intros e _. cbn [compose fst snd].
  split; [apply jkey_plain|apply jint_well_formed].
Qed.
Create HintDb documents discriminated.
#[export] Hint Resolve jint_well_formed jdouble_finite jfixed_finite jmask_well_formed cpu_array_well_formed
  masks_well_formed assignments_well_formed : documents.
(** Members with literal names, one after the other. *)
Ltac members :=
  repeat first [apply Forall_nil_2 | apply Forall_cons_2; [split; [reflexivity|cbn [snd]]|]].
Ltac document := apply object_well_formed; members; first [reflexivity | solve [eauto with documents] | idtac].

Definition family_doubles (m : FamilyMetric) : list double :=
  [fm_demand m; fm_internal_relation m; fm_external_relation m; fm_self_containment m; fm_relative_internal m].
Definition pair_doubles (p : FamilyPairMetric) : list double :=
  [fp_cross_relation p; fp_denominator p; fp_merge_ratio p].
Definition domain_doubles (d : NumaDomain) : list double :=
  [nd_demand d; nd_capacity_limit d; nd_capacity_headroom d; nd_relation_latency d; nd_background_demand d].
Local Abbreviation all_finite := (Forall (λ d, disfinite d = true)).

Lemma family_metric_well_formed m : all_finite (family_doubles m) → well_formed (family_metric_json m) = true.
Proof. unfold family_doubles. rewrite !Forall_cons. intros (?&?&?&?&?&_). document. Qed.
Lemma family_pair_well_formed p : all_finite (pair_doubles p) → well_formed (family_pair_json p) = true.
Proof. unfold pair_doubles. rewrite !Forall_cons. intros (?&?&?&_). document. Qed.
Lemma domain_well_formed d :
  all_finite (domain_doubles d) → forallb plain (chars (nd_node_decision d)) = true →
  well_formed (domain_json d) = true.
Proof.
  unfold domain_doubles. rewrite !Forall_cons. intros (?&?&?&?&?&_) Hn. document.
  by apply mapped_array_well_formed.
Qed.
Lemma domain_action_well_formed a : well_formed (domain_action_json a) = true.
Proof. document. Qed.

(** The proposal's numbers are finite and the names of its node decisions plain. *)
Record printable_proposal (p : NumaDomainProposal) : Prop := {
  pp_families : ∀ m, m ∈ np_families p → all_finite (family_doubles m);
  pp_pairs : ∀ m, m ∈ np_family_pairs p → all_finite (pair_doubles m);
  pp_domains : ∀ d, d ∈ np_domains p → all_finite (domain_doubles d);
  pp_decisions : ∀ d, d ∈ np_domains p → forallb plain (chars (nd_node_decision d)) = true;
}.
Lemma proposal_parts p :
  printable_proposal p →
  well_formed (family_metrics_json (np_families p)) = true ∧
  well_formed (family_pairs_json (np_family_pairs p)) = true ∧
  well_formed (domains_json (np_domains p)) = true ∧
  well_formed (domain_actions_json (np_actions p)) = true.
Proof.
  intros [Hf Hp Hd Hn]. split_and!; apply mapped_array_well_formed; intros; 
    eauto using family_metric_well_formed, family_pair_well_formed, domain_well_formed, domain_action_well_formed.
Qed.
Lemma plan_line_well_formed now w p ns :
  forallb plain (chars w) = true → printable_proposal p →
  well_formed (log_document now "plan" (plan_fields w p ns)) = true.
Proof.
  intros Hw (?&?&?&?)%proposal_parts. unfold log_document, plan_fields, count_if, jsize. document.
Qed.
Lemma selector_output_well_formed now w p ns :
  forallb plain (chars w) = true → printable_proposal p →
  well_formed (log_document now "selector_output" (selector_output_fields w p ns)) = true.
Proof.
  intros Hw (?&?&?&?)%proposal_parts. unfold log_document, selector_output_fields, count_if, jsize. document.
Qed.
Lemma thread_line_well_formed now w r :
  forallb plain (chars w) = true → plain (twr_state r) = true →
  disfinite (twr_demand r) = true → disfinite (twr_confidence r) = true →
  well_formed (log_document now "thread_window" (thread_window_fields w r)) = true.
Proof.
  intros Hw Hs Hd Hc. unfold log_document, thread_window_fields. document. cbn. by rewrite Hs.
Qed.

(** the lines that record the outcome of a solve window are valid JSON and
    say what the proposal holds (strings without their control characters), as
    long as its numbers are finite. *)
Theorem outcome_lines_read_back now w p ns :
  forallb plain (chars w) = true → printable_proposal p →
  parse_document (log_line now "plan" (plan_fields w p ns)) =
    Some (meaning (log_document now "plan" (plan_fields w p ns))) ∧
  parse_document (log_line now "selector_output" (selector_output_fields w p ns)) =
    Some (meaning (log_document now "selector_output" (selector_output_fields w p ns))).
Proof.
  intros Hw Hp. split; apply document_read_back; [by apply plan_line_well_formed|].
  by apply selector_output_well_formed.
Qed.

(** ** What a replay reads *)

(** The reader of JSON lines, by what its accessors return for a line that was
    written as the object [l]. *)
Record reads (t : ptree) (l : list (string * json)) : Prop := {
  rd_string k s : value_of l k = Some (JStr s) → pt_string t k = Some (text s);
  rd_int k n : value_of l k = Some (jint n) → 0 ≤ n < 2 ^ 31 → pt_int t k = Some n;
  rd_u64 k n : value_of l k = Some (jint n) → 0 ≤ n < 2 ^ 64 → pt_u64 t k = Some n;
  rd_double k token d : value_of l k = Some (JNum token) → stod token = Ok d → pt_double t k = Some d;
  rd_ints k ns : value_of l k = Some (cpu_array_json ns) → Forall (λ n, 0 ≤ n < 2 ^ 31) ns →
    pt_ints t k = Some (Some <$> ns);
  rd_bool k b : value_of l k = Some (JBool b) → pt_bool t k = Some b;
}.
(** The contract is that of a JSON parser: it accepts the texts of the grammar
    whose strings are ASCII (it may reject other bytes, which need not be UTF-8),
    and an accessor converts the text of the value it finds. *)
Definition member_meanings (l : list (string * json)) : list (string * json) :=
  (λ kv, (kv.1, meaning kv.2)) <$> l.
Class JsonReader (read_json : list ascii → result ptree) : Prop :=
  json_reads : ∀ l, well_formed (JObj l) = true → ascii_document (JObj l) = true →
    ∃ t, read_json (render (JObj l)) = Ok t ∧ reads t (member_meanings l).

Lemma object_ascii (l : list (string * json)) :
  Forall (λ kv, forallb seven_bit (chars kv.1) = true ∧ ascii_document kv.2 = true) l →
  ascii_document (JObj l) = true.
Proof.
  intros H. cbn. apply forallb_forall. intros kv Hkv%list_elem_of_In. rewrite Forall_forall in H.
  by apply andb_true_iff, H.
Qed.
Lemma cpu_array_ascii l : ascii_document (cpu_array_json l) = true.
Proof. cbn. apply forallb_forall. intros v Hv%list_elem_of_In. by apply list_elem_of_fmap in Hv as (n & -> & _). Qed.
Ltac ascii_members :=
  apply object_ascii; members; first [reflexivity | assumption | apply cpu_array_ascii | idtac].

Lemma meaning_cpu_array ns : meaning (cpu_array_json ns) = cpu_array_json ns.
Proof. unfold cpu_array_json. cbn. f_equal. rewrite <- list_fmap_compose. by apply list_fmap_ext. Qed.
Lemma read_ints t k ns :
  pt_ints t k = Some (Some <$> ns) → read_int_array t k = Ok ns.
Proof.
  intros H. unfold read_int_array. rewrite H. clear H.
  assert (∀ acc, foldlM (λ acc v, n ← get_value v (pt_missing t k); Ok (acc ++ [n])%list) acc (Some <$> ns) =
    Ok (acc ++ ns)%list) as E; [|by rewrite E].
  induction ns as [|n ns IH]; intros acc; cbn; [by rewrite app_nil_r|]. rewrite IH. by rewrite <- app_assoc.
Qed.

(** Comparisons of literals. *)
Ltac literals :=
  repeat match goal with
  | |- context [bool_decide (?a = ?b)] =>
      first [rewrite (bool_decide_true (a = b)) by done | rewrite (bool_decide_false (a = b)) by done]
  end; cbn [andb get_value mbind result_bind].

(** The group as a reader sees it. *)
Definition readable (s : string) : string := text (filter (λ c, printable c = true) (chars s)).

Definition record_ranges (r : ThreadWindowRecord) : Prop :=
  Forall (λ n, 0 ≤ n < 2 ^ 31)
    (tgid (twr_identity r) :: tid (twr_identity r) :: twr_current_cpu r :: twr_allowed_cpus r) ∧
  0 ≤ starttime (twr_identity r) < 2 ^ 64.

(** of a thread's line the replay reads back the identity, the group, the
    CPU and the mask, but the demand and the confidence only as the six decimals
    they are written with; its strings are ASCII. *)
Theorem thread_line_read_back read_json `{JsonReader read_json} now w r demand confidence :
  forallb plain (chars w) = true → plain (twr_state r) = true →
  Forall (λ s, forallb seven_bit (chars s) = true)
    [w; twr_comm r; twr_start_symbol r; twr_group r; text [twr_state r]] →
  disfinite (twr_demand r) = true → disfinite (twr_confidence r) = true → record_ranges r →
  stod (to_string_double (twr_demand r)) = Ok demand →
  stod (to_string_double (twr_confidence r)) = Ok confidence →
  ∃ t, read_json (log_line now "thread_window" (thread_window_fields w r)) = Ok t ∧
    read_item t = Ok (Window w (ThreadWindow
      (mk_ThreadDemand (twr_identity r) (readable (twr_group r)) demand confidence (twr_current_cpu r))
      (twr_allowed_cpus r))).
Proof.
  intros Hw Hs Has Hd Hc [Hr Hst] Ed Ec. rewrite !Forall_cons in Has. destruct Has as (A1&A2&A3&A4&A5&_).
  assert (Hasc : ascii_document (log_document now "thread_window" (thread_window_fields w r)) = true)
    by ascii_members.
  destruct (json_reads _ (thread_line_well_formed now w r Hw Hs Hd Hc) Hasc) as (t&Ht&[Hstr Hint Hu64 Hdbl Hints _]).
  rewrite !Forall_cons in Hr. destruct Hr as (Hr1&Hr2&Hr3&Hr4).
  exists t. split; [exact Ht|].
  pose proof (Hstr "type" (chars "thread_window") eq_refl) as Hty.
  pose proof (Hstr "window_id" (chars w) eq_refl) as Hwid. rewrite text_of_chars in Hwid.
  unfold read_item. rewrite Hty, Hwid. cbn [default]. literals.
  unfold read_thread. rewrite (Hint "tgid" _ eq_refl), (Hint "tid" _ eq_refl), (Hint "current_cpu" _ eq_refl),
    (Hu64 "starttime" _ eq_refl), (Hstr "group" _ eq_refl), (Hdbl "demand" _ _ eq_refl Ed),
    (Hdbl "confidence" _ _ eq_refl Ec) by done.
  pose proof (Hints "allowed_cpus" (twr_allowed_cpus r)) as Ha. rewrite <- meaning_cpu_array in Ha.
  cbn [get_value mbind result_bind]. rewrite (read_ints _ _ _ (Ha eq_refl Hr4)).
  by destruct (twr_identity r).
Qed.

(** The weights of an edge. *)
Definition edge_doubles (e : RelationEdge) : list double :=
  [re_activity e; re_sync e; re_share e; re_stability e; re_score e; re_handoff_rate e;
   re_shared_vfs_seconds e; re_active_overlap e; re_coverage e; re_coefficient_of_variation e].

(** of an edge's line the replay reads the two threads exactly, and every
    weight as the six decimals it is written with. *)
Theorem edge_line_read_back read_json `{JsonReader read_json} now w e activity sync share stability score :
  forallb plain (chars w) = true → forallb seven_bit (chars w) = true → all_finite (edge_doubles e) →
  0 ≤ re_from_tid e < 2 ^ 31 → 0 ≤ re_to_tid e < 2 ^ 31 →
  stod (to_string_double (re_activity e)) = Ok activity → stod (to_string_double (re_sync e)) = Ok sync →
  stod (to_string_double (re_share e)) = Ok share → stod (to_string_double (re_stability e)) = Ok stability →
  stod (to_string_double (re_score e)) = Ok score →
  ∃ t, read_json (log_line now "relation_edge" (relation_edge_fields w e)) = Ok t ∧
    read_item t = Ok (Window w (EdgeEntry (mk_RelationEdge (re_from_tid e) (re_to_tid e) activity sync share
      stability score d0 d0 d0 0 d0 d0))).
Proof.
  intros Hw Has Hf Hfrom Hto E1 E2 E3 E4 E5.
  assert (Hwf : well_formed (log_document now "relation_edge" (relation_edge_fields w e)) = true).
  { unfold edge_doubles in Hf. rewrite !Forall_cons in Hf. destruct Hf as (?&?&?&?&?&?&?&?&?&?&_).
    unfold log_document, relation_edge_fields. document. }
  assert (Ha : ascii_document (log_document now "relation_edge" (relation_edge_fields w e)) = true) by ascii_members.
  destruct (json_reads _ Hwf Ha) as (t&Ht&[Hstr Hint _ Hdbl _ _]). exists t. split; [exact Ht|].
  pose proof (Hstr "type" (chars "relation_edge") eq_refl) as Hty.
  pose proof (Hstr "window_id" (chars w) eq_refl) as Hwid. rewrite text_of_chars in Hwid.
  unfold read_item. rewrite Hty, Hwid. cbn [default]. literals.
  unfold read_edge. rewrite (Hint "from_tid" _ eq_refl), (Hint "to_tid" _ eq_refl),
    (Hdbl "activity" _ _ eq_refl E1), (Hdbl "sync" _ _ eq_refl E2), (Hdbl "share" _ _ eq_refl E3),
    (Hdbl "stability" _ _ eq_refl E4), (Hdbl "score" _ _ eq_refl E5) by done.
  done.
Qed.

(** *** A reader *)
Definition integer_of (token : list ascii) : option Z :=
  match stoi token with Ok n => Some n | Throw _ => None end.
Definition member_reader (l : list (string * json)) : ptree :=
  let number k := match value_of l k with Some (JNum t) => Some t | _ => None end in
  mk_ptree
    (λ k, match value_of l k with Some (JStr s) => Some (text s) | Some (JNum t) => Some (text t) | _ => None end)
    (λ k, number k ≫= integer_of)
    (λ k, digits_value 0 <$> number k)
    (λ k, t ← number k; match stod t with Ok d => Some d | Throw _ => None end)
    (λ k, match value_of l k with Some (JBool b) => Some b | _ => None end)
    (λ k, match value_of l k with
          | Some (JArr vs) => Some ((λ v, match v with JNum t => integer_of t | _ => None end) <$> vs)
          | _ => None
          end)
    (λ k, runtime_error k).
Definition document_reader (line : list ascii) : result ptree :=
  match parse_document line with
  | Some (JObj l) => Ok (member_reader l)
  | _ => Throw (runtime_error "not an object")
  end.
Lemma integer_of_print n : 0 ≤ n < 2 ^ 31 → integer_of (print_int n) = Some n.
Proof.
  intros Hn. unfold integer_of, print_int. replace (n <? 0) with false by lia. by rewrite stoi_print.
Qed.
#[export] Instance document_reader_reads : JsonReader document_reader.
Proof.
  intros l Hl _. exists (member_reader (member_meanings l)). split.
  { unfold document_reader. by rewrite document_read_back. }
  split; cbn; intros k.
  - by intros s ->.
  - intros n -> Hn. cbn. by apply integer_of_print.
  - intros n -> Hn. cbn. unfold print_int. replace (n <? 0) with false by lia.
    destruct (print_nonneg_spec n) as (c&t&->&_&Hv); [lia|]. by rewrite Hv.
  - intros token d -> Hd. cbn. by rewrite Hd.
  - intros ns -> Hns. cbn. f_equal. rewrite <- list_fmap_compose. apply list_fmap_ext. intros i n Hi.
    cbn. apply integer_of_print. rewrite Forall_forall in Hns. by eapply Hns, list_elem_of_lookup_2.
  - by intros b ->.
Qed.

(** ** The replay of a logged window *)
Definition demo_record (t : Z) (demand : double) : ThreadWindowRecord :=
  mk_ThreadWindowRecord (mk_ThreadIdentity 1 t 5) "db" 1 0 "" "a" demand d1 0 [0; 1; 98; 99] "S"%char 9 0 0 0 0.
Definition demo_records : list ThreadWindowRecord :=
  [demo_record 11 (dlit 49999998 100000000); demo_record 12 (dlit 1 2)].
Definition demo_relation : RelationEdge := demo_edge 11 12 (double_of_Z 5).
(** The window as the runtime solved it. *)
Definition demo_online : ReplayFrame :=
  mk_ReplayFrame "7-1" 1000 true true
    ((λ r, mk_ThreadDemand (twr_identity r) (twr_group r) (twr_demand r) (twr_confidence r) (twr_current_cpu r))
       <$> demo_records)
    [demo_relation] (list_to_map ((λ r, (tid (twr_identity r), twr_allowed_cpus r)) <$> demo_records)).
Definition demo_proposal : NumaDomainProposal :=
  match replay_frame demo_board (replay_options demo_plan_config) demo_online NumaDomainSolver_init with
  | Ok (p, _) => p
  | Throw _ => mk_NumaDomainProposal 0 (mk_PlacementDelta ∅ ∅) ∅ ∅ [] [] [] [] ∅ 0 0 0 d0 d0 false false ""
  end.
(** The lines of the window in the log, after those of the topology. *)
Definition demo_lines : list (list ascii) :=
  (((λ c, log_line 1 "topology_cpu" (topology_cpu_fields c)) <$> hw_cpus demo_board) ++
   window_input_lines 1000 7 1 1 "plan" demo_records [demo_relation] ++
   [log_line 1000 "plan" (plan_fields (window_name 7 1 1) demo_proposal 0)])%list.

(** the replay of a log need not do what the runtime did, even when no edge
    was cut.  Two threads with the demands 0.49999998 and 0.5 stay below the
    minimum of their family, so the runtime plans nothing; the log says 0.500000
    twice, and the replay of the same window binds both threads to a node. *)
Theorem six_decimals_change_plan :
  np_ready demo_proposal = false ∧ np_domains demo_proposal = [] ∧
  match read_runtime_log document_reader "log" (Some demo_lines) with
  | Ok (h, [f]) =>
      rf_relation_input_complete f = true ∧ td_demand <$> rf_threads f = [dlit 1 2; dlit 1 2] ∧
      match replay_frame h (replay_options demo_plan_config) f NumaDomainSolver_init with
      | Ok (p, _) => np_ready p = true ∧ items (np_planned_masks p) = [(11, [0; 1]); (12, [0; 1])]
      | Throw _ => False
      end
  | _ => False
  end.
Proof. vm_compute. done. Qed.

Lemma demo_proposal_printable : printable_proposal demo_proposal.
Proof.
  split; intros m; revert m; apply Forall_forall; vm_compute; repeat constructor.
Qed.
Lemma outcome_lines_read_back_witness :
  parse_document (log_line 5 "plan" (plan_fields (window_name 7 1 1) demo_proposal 3)) =
    Some (meaning (log_document 5 "plan" (plan_fields (window_name 7 1 1) demo_proposal 3))).
Proof.
  exact (proj1 (outcome_lines_read_back 5 (window_name 7 1 1) demo_proposal 3 eq_refl demo_proposal_printable)).
Defined.
Lemma thread_line_read_back_witness :
  ∃ t, document_reader (log_line 5 "thread_window"
         (thread_window_fields "7-1-1" (demo_record 11 (dlit 49999998 100000000)))) = Ok t ∧
    read_item t = Ok (Window "7-1-1" (ThreadWindow
      (mk_ThreadDemand (mk_ThreadIdentity 1 11 5) "a" (dlit 1 2) d1 0) [0; 1; 98; 99])).
Proof.
  refine (thread_line_read_back document_reader 5 "7-1-1" (demo_record 11 (dlit 49999998 100000000))
    (dlit 1 2) d1 eq_refl eq_refl _ eq_refl eq_refl _ _ _).
  - repeat constructor.
  - split; [|cbn; lia]. cbn. repeat (apply Forall_cons_2; [lia|]). apply Forall_nil_2.
  - vm_compute. reflexivity.
  - vm_compute. reflexivity.
Defined.
Lemma edge_line_read_back_witness :
  ∃ t, document_reader (log_line 5 "relation_edge" (relation_edge_fields "7-1-1" demo_relation)) = Ok t ∧
    read_item t = Ok (Window "7-1-1" (EdgeEntry (mk_RelationEdge 11 12 d0 d0 d0 d0 (double_of_Z 5) d0 d0 d0 0 d0 d0))).
Proof.
  refine (edge_line_read_back document_reader 5 "7-1-1" demo_relation d0 d0 d0 d0 (double_of_Z 5) eq_refl eq_refl _ _ _ _ _ _ _ _).
  - repeat constructor.
  - cbn. lia.
  - cbn. lia.
  - vm_compute. reflexivity.
  - vm_compute. reflexivity.
  - vm_compute. reflexivity.
  - vm_compute. reflexivity.
  - vm_compute. reflexivity.
Defined.

(** ** The status *)
Section status_facts.
Context {W : Type} (config : Config) (profile : option ThreadProfile) (bpf_reader : bool).
Context (m : StatusMembers) (s : Runtime W).

(** What the answer's documents need to be valid. *)
Record printable_status : Prop := {
  ps_loss : disfinite (hw_loss_ratio (rt_health s)) = true;
  ps_families : ∀ f, f ∈ ds_families (rt_domain_solver s) → all_finite (family_doubles f);
  ps_domains : ∀ d, d ∈ ds_domains (rt_domain_solver s) → all_finite (domain_doubles d);
  ps_decisions : ∀ d, d ∈ ds_domains (rt_domain_solver s) → forallb plain (chars (nd_node_decision d)) = true;
}.

(** the status document is valid JSON, whatever the runtime's strings are,
    and it never reports an effective policy that it does not report as armed:
    an effective one is active, not paused, healthy and without a fatal error. *)
Theorem status_consistent :
  printable_status →
  parse_document (render (status_json config profile bpf_reader m s)) =
    Some (meaning (status_json config profile bpf_reader m s)) ∧
  (active_effective config bpf_reader s = true →
   policy_armed config bpf_reader s = true ∧ mode config = Active ∧ rt_paused s = false ∧
   rt_fatal_error s = "").
Proof.
  intros [Hl Hf Hd Hn]. split.
  - apply document_read_back.
    assert (H1 : well_formed (family_metrics_json (ds_families (rt_domain_solver s))) = true)
      by (apply mapped_array_well_formed; eauto using family_metric_well_formed).
    assert (H2 : well_formed (domains_json (ds_domains (rt_domain_solver s))) = true)
      by (apply mapped_array_well_formed; eauto using domain_well_formed).
    unfold status_json, plan_fields_of_status, counter_fields, reader_fields, mode_name. cbn [app].
    document.
    + by destruct (mode config).
    + destruct (numa_domains config); [done|]. by destruct (i_phase _).
  - unfold active_effective, policy_armed, active_mode. intros H. bool_hyps. split_and!; [|done..].
    repeat match goal with H : _ = _ |- _ => progress rewrite H end. done.
Qed.
End status_facts.

(** The runtime that has bound a family. *)
Definition demo_members : StatusMembers :=
  mk_StatusMembers 1 2 0 9 0 (stats_init 4096) false true "attached:/lib/libc.so.6 (symbol name)".
Lemma status_consistent_witness :
  active_effective demo_numa_config true demo_bound = true ∧
  policy_armed demo_numa_config true demo_bound = true.
Proof.
  split; [vm_compute; reflexivity|].
  refine (proj1 (proj2 (status_consistent demo_numa_config None true demo_members demo_bound _) _)).
  - split; [reflexivity|..]; apply Forall_forall; vm_compute; repeat constructor.
  - vm_compute. reflexivity.
Defined.
