(* ===== verification/StartupLog.v ===== *)
(** * The lines at the start of a log ([Runtime::Runtime] of [src/runtime.cpp])

    The runtime writes its mode and its topology once.  A replay of the log plans
    on what it reads of them: this is all the selector looks at. *)
From Stdlib Require Import SpecFloat Ascii.
From S2P Require Import Prelude Binary64 Core CpuList Actuator Topology DomainPlanner DomainSolver GraphWindow ThreadProfile.
From S2P Require Import Config ConfigProperties Json JsonProperties RuntimeLog DomainReplay DomainReplayProperties RuntimeLogProperties.
Local Open Scope string_scope.
Local Open Scope Z_scope.
Local Open Scope list_scope.

Definition effective_mode (m : Mode) : string :=
  match m with Active => "active" | Plan => "plan" | Observe => "observe" end.
Definition runtime_start_fields (root_pid : Z) (m : Mode) (degraded capability : bool) (uprobe : string) :
    list (string * json) :=
  [("root_pid", jint root_pid); ("effective_mode", jraw (effective_mode m));
   ("collector_degraded", JBool degraded); ("affinity_capability", JBool capability);
   ("pthread_uprobe", jstring uprobe)].
Definition calibration_fields (c : NodeCalibration) : list (string * json) :=
  [("handoff_mean_ns", jfixed (handoff_mean_ns c)); ("handoff_p95_ns", jfixed (handoff_p95_ns c));
   ("memory_load_mean_ns", jfixed (memory_load_mean_ns c)); ("memory_load_cv", jfixed (memory_load_cv c));
   ("stream_2t_triad_mbps", jfixed (stream_2t_triad_mbps c));
   ("stream_32t_triad_mbps", jfixed (stream_32t_triad_mbps c))].
Definition topology_edge_fields (h : HardwareGraph) (e : Z * Z * double) : list (string * json) :=
  [("from_node", jint e.1.1); ("to_node", jint e.1.2); ("numa_distance", jfixed e.2)] ++
  match node_calibration h !! e.1 with Some c => calibration_fields c | None => [] end.

(** The lines in their order; [clock i] is the time of the [i]-th. *)
Definition startup_events (h : HardwareGraph) (root_pid : Z) (m : Mode) (degraded capability : bool)
    (uprobe : string) : list (string * list (string * json)) :=
  ("runtime_start", runtime_start_fields root_pid m degraded capability uprobe) ::
  ((λ c, ("topology_cpu", topology_cpu_fields c)) <$> hw_cpus h) ++
  ((λ e, ("topology_edge", topology_edge_fields h e)) <$> items (node_distance h)).
Definition event_lines (clock : nat → Z) (events : list (string * list (string * json))) : list (list ascii) :=
  imap (λ i e, log_line (clock i) e.1 e.2) events.

(** ** What the selector sees of the hardware *)
Section topology.
Context (cpus : list Cpu) (distance : gmap (Z * Z) double).
Context (lat lat' : gmap (Z * Z) double) (cal cal' : gmap (Z * Z) NodeCalibration).
Abbreviation h := (mk_HardwareGraph cpus lat distance cal).
Abbreviation h' := (mk_HardwareGraph cpus lat' distance cal').

Lemma evaluate_nodes_topology demand ratio members all placed fams cross ns :
  evaluate_nodes h demand ratio members all placed fams cross ns =
  evaluate_nodes h' demand ratio members all placed fams cross ns.
Proof. reflexivity. Qed.
Lemma visit_topology demand ratio members all placed fams cross rest :
  ∀ prefix best, visit h demand ratio members all placed fams cross prefix rest best =
                 visit h' demand ratio members all placed fams cross prefix rest best.
Proof.
  induction rest as [|n rest IH]; intros prefix best; cbn [visit]; [|by rewrite !IH].
  unfold consider. by rewrite evaluate_nodes_topology.
Qed.
Lemma choose_nodes_topology demand ratio members all placed fams cross :
  choose_nodes h demand ratio members all placed fams cross = choose_nodes h' demand ratio members all placed fams cross.
Proof.
  unfold choose_nodes. change (nodes h) with (nodes h'). by rewrite visit_topology.
Qed.
Lemma plan_domain_topology o now threads by_family cross allowed nodes_map st c :
  plan_domain h o now threads by_family cross allowed nodes_map st c =
  plan_domain h' o now threads by_family cross allowed nodes_map st c.
Proof.
  unfold plan_domain. rewrite choose_nodes_topology.
  change (node_lifecycle h) with (node_lifecycle h').
  change (mask_for_nodes h) with (mask_for_nodes h').
  by rewrite evaluate_nodes_topology.
Qed.
Lemma plan_domains_topology s o now threads allowed ev :
  plan_domains s h o now threads allowed ev = plan_domains s h' o now threads allowed ev.
Proof.
  unfold plan_domains. generalize (mk_PlanState [] [] ∅ true "" (ds_expand_confirmations s)
    (ds_shrink_confirmations s) (last_changed_ns s)).
  induction (items (ev_components ev)) as [|c l IH]; intros st; cbn [foldl]; [done|].
  by rewrite plan_domain_topology.
Qed.
(** The selector uses the CPUs and the distances of the hardware, nothing else. *)
Lemma propose_topology threads edges allowed o now s :
  propose h threads edges allowed o now s = propose h' threads edges allowed o now s.
Proof.
  unfold propose. destruct (throw_if _ _); cbn [mbind result_bind]; [|reflexivity].
  destruct (gather_evidence _ _ _ _) as [ev|]; cbn [mbind result_bind]; [|reflexivity].
  rewrite plan_domains_topology. reflexivity.
Qed.
End topology.

(** ** Reading the lines back *)
Definition calibration_doubles (c : NodeCalibration) : list double :=
  [handoff_mean_ns c; handoff_p95_ns c; memory_load_mean_ns c; memory_load_cv c; stream_2t_triad_mbps c;
   stream_32t_triad_mbps c].
(** What is left of a distance in the log: the value of its six decimals. *)
Definition logged (d : double) : double := match stod (to_string_double d) with Ok v => v | Throw _ => d end.
(** Identifiers are small, the numbers finite, and the six decimals of a distance
    the text of a double. *)
Record loggable (h : HardwareGraph) : Prop := {
  lg_cpus : Forall (λ c, 0 ≤ cpu_id c < 2 ^ 31 ∧ 0 ≤ cpu_node_id c < 2 ^ 31) (hw_cpus h);
  lg_nodes : ∀ k d, node_distance h !! k = Some d → 0 ≤ k.1 < 2 ^ 31 ∧ 0 ≤ k.2 < 2 ^ 31;
  lg_distances : ∀ k d, node_distance h !! k = Some d →
    disfinite d = true ∧ ∃ v, stod (to_string_double d) = Ok v;
  lg_calibration : ∀ k c, node_calibration h !! k = Some c → forallb disfinite (calibration_doubles c) = true;
}.
Lemma logged_object now type fields :
  forallb plain (chars type) = true →
  Forall (λ kv, forallb plain (chars kv.1) = true ∧ well_formed kv.2 = true) fields →
  well_formed (log_document now type fields) = true.
Proof.
  intros Ht Hf. apply object_well_formed.
  repeat (apply Forall_cons_2; [split; [reflexivity|]|]); [apply jint_well_formed|exact Ht|exact Hf].
Qed.
Lemma calibration_fields_ok c : forallb disfinite (calibration_doubles c) = true →
  Forall (λ kv, forallb plain (chars kv.1) = true ∧ well_formed kv.2 = true) (calibration_fields c).
Proof.
  unfold calibration_doubles. cbn [forallb]. rewrite !andb_true_iff. intros (?&?&?&?&?&?&_). members; by apply jfixed_finite.
Qed.

Section read_back.
Context (read_json : list ascii → result ptree) `{JsonReader read_json}.

(** What one line is read as. *)
Definition line_item (now : Z) (e : string * list (string * json)) (item : LogItem) : Prop :=
  ∃ t, read_json (log_line now e.1 e.2) = Ok t ∧ read_item t = Ok item.

Lemma start_line_read now root_pid m degraded capability uprobe :
  forallb seven_bit (chars uprobe) = true →
  line_item now ("runtime_start", runtime_start_fields root_pid m degraded capability uprobe) OtherItem.
Proof.
  intros Hu. assert (Hw : well_formed (log_document now "runtime_start"
                 (runtime_start_fields root_pid m degraded capability uprobe)) = true).
  { apply logged_object; [done|]. members; try done; [apply jint_well_formed|by destruct m]. }
  assert (Ha : ascii_document (log_document now "runtime_start"
                 (runtime_start_fields root_pid m degraded capability uprobe)) = true)
    by (ascii_members; by destruct m).
  destruct (json_reads _ Hw Ha) as (t&Ht&[Hstr _ _ _ _ _]). exists t. split; [exact Ht|].
  unfold read_item. rewrite (Hstr "type" (chars "runtime_start") eq_refl). cbn [default]. literals. done.
Qed.
Lemma cpu_line_read now c :
  0 ≤ cpu_id c < 2 ^ 31 → 0 ≤ cpu_node_id c < 2 ^ 31 →
  line_item now ("topology_cpu", topology_cpu_fields c) (TopologyCpu c).
Proof.
  intros Hi Hn. assert (Hw : well_formed (log_document now "topology_cpu" (topology_cpu_fields c)) = true).
  { apply logged_object; [done|]. members; try done; apply jint_well_formed. }
  assert (Ha : ascii_document (log_document now "topology_cpu" (topology_cpu_fields c)) = true) by ascii_members.
  destruct (json_reads _ Hw Ha) as (t&Ht&[Hstr Hint _ _ _ Hbool]). exists t. split; [exact Ht|].
  unfold read_item. rewrite (Hstr "type" (chars "topology_cpu") eq_refl), (Hbool "in_envelope" true eq_refl).
  cbn [default]. literals.
  rewrite (Hint "cpu" _ eq_refl Hi), (Hint "node" _ eq_refl Hn), (Hbool "online" _ eq_refl). by destruct c.
Qed.
Lemma edge_line_read h now k d : loggable h → node_distance h !! k = Some d →
  line_item now ("topology_edge", topology_edge_fields h (k, d)) (TopologyEdge k.1 k.2 (logged d)).
Proof.
  intros Hl Hk. destruct (lg_nodes h Hl k d Hk) as [Hf Ht']. destruct (lg_distances h Hl k d Hk) as [Hfin [v Hd]].
  assert (Hw : well_formed (log_document now "topology_edge" (topology_edge_fields h (k, d))) = true).
  { apply logged_object; [done|]. unfold topology_edge_fields. apply Forall_app. split.
    - members; [apply jint_well_formed..|by apply jfixed_finite].
    - destruct (node_calibration h !! _) as [c|] eqn:Hc; [|constructor]. by eapply calibration_fields_ok, lg_calibration. }
  assert (Ha : ascii_document (log_document now "topology_edge" (topology_edge_fields h (k, d))) = true).
  { unfold topology_edge_fields. destruct (node_calibration h !! _); ascii_members. }
  destruct (json_reads _ Hw Ha) as (t&Ht&[Hstr Hint _ Hdbl _ _]). exists t. split; [exact Ht|].
  unfold read_item, logged. rewrite (Hstr "type" (chars "topology_edge") eq_refl), Hd. cbn [default]. literals.
  by rewrite (Hint "from_node" _ eq_refl Hf), (Hint "to_node" _ eq_refl Ht'), (Hdbl "numa_distance" _ _ eq_refl Hd).
Qed.

(** What the lines of the start are read as. *)
Definition startup_items (h : HardwareGraph) : list LogItem :=
  OtherItem :: (TopologyCpu <$> hw_cpus h) ++
  ((λ e : Z * Z * double, TopologyEdge e.1.1 e.1.2 (logged e.2)) <$> items (node_distance h)).
Lemma startup_lines_read h root_pid m degraded capability uprobe :
  loggable h → forallb seven_bit (chars uprobe) = true →
  Forall2 (λ e item, ∀ now, line_item now e item)
    (startup_events h root_pid m degraded capability uprobe) (startup_items h).
Proof.
  intros Hl Hu. constructor; [intros now; by apply start_line_read|]. apply Forall2_app.
  - pose proof (lg_cpus h Hl) as Hc. induction Hc as [|c l [Hi Hn] _ IH]; [constructor|].
    constructor; [|exact IH]. intros now. by apply cpu_line_read.
  - assert (Hk : ∀ k d, (k, d) ∈ items (node_distance h) → node_distance h !! k = Some d)
      by (intros k d; by rewrite elem_of_items).
    induction (items (node_distance h)) as [|[k d] l IH]; [constructor|].
    constructor; [intros now; apply edge_line_read; [done|apply Hk; set_solver]|]. apply IH. set_solver.
Qed.
Lemma log_line_nonempty now type fields : log_line now type fields ≠ [].
Proof. done. Qed.
Lemma read_event_lines events items : Forall2 (λ e item, ∀ now, line_item now e item) events items →
  ∀ clock n st, foldlM (read_log_line read_json) (n, st) (event_lines clock events) =
    Ok ((n + length events)%nat, foldl store st items).
Proof.
  unfold event_lines. induction 1 as [|e item events items He _ IH]; intros clock n st; cbn [imap foldlM foldl length].
  { by rewrite Nat.add_0_r. }
  destruct (He (clock 0%nat)) as (t&Ht&Hi).
  assert (E : read_log_line read_json (n, st) (log_line (clock 0%nat) e.1 e.2) = Ok (S n, store st item)).
  { unfold read_log_line. rewrite bool_decide_false by apply log_line_nonempty. by rewrite Ht, Hi. }
  rewrite E. cbn [mbind result_bind]. clear E. pose proof (IH (clock ∘ S) (S n) (store st item)) as E. unfold compose in *. rewrite E. do 2 f_equal. lia.
Qed.

(** *** The state after them *)
Lemma store_cpus l st :
  foldl store st (TopologyCpu <$> l) =
  mk_ReadState (mk_HardwareGraph (hw_cpus (rs_hardware st) ++ l) (cpu_latency (rs_hardware st))
    (node_distance (rs_hardware st)) (node_calibration (rs_hardware st))) (rs_frames st) (rs_index st).
Proof.
  revert st. induction l as [|c l IH]; intros st; cbn [fmap list_fmap foldl].
  - rewrite app_nil_r. by destruct st as [[] ? ?].
  - rewrite IH. cbn. by rewrite <- app_assoc.
Qed.
Lemma store_edges (l : list (Z * Z * double)) st :
  foldl store st ((λ e : Z * Z * double, TopologyEdge e.1.1 e.1.2 (logged e.2)) <$> l) =
  mk_ReadState (mk_HardwareGraph (hw_cpus (rs_hardware st)) (cpu_latency (rs_hardware st))
    (foldl (λ m e, <[e.1 := logged e.2]> m) (node_distance (rs_hardware st)) l) (node_calibration (rs_hardware st)))
    (rs_frames st) (rs_index st).
Proof.
  revert st. induction l as [|[[a b] d] l IH]; intros st; cbn [fmap list_fmap foldl].
  - by destruct st as [[] ? ?].
  - by rewrite IH.
Qed.
End read_back.

(** A map is rebuilt from its entries. *)
Lemma insert_items (f : double → double) (m : gmap (Z * Z) double) :
  foldl (λ m e, <[e.1 := f e.2]> m) ∅ (items m) = f <$> m.
Proof.
  assert (E : ∀ l acc, NoDup l.*1 → ∀ k,
    foldl (λ (m : gmap (Z * Z) double) e, <[e.1 := f e.2]> m) acc l !! k =
    match (list_to_map l : gmap (Z * Z) double) !! k with Some v => Some (f v) | None => acc !! k end).
  { induction l as [|[k0 v0] l IH]; intros acc Hnd k; cbn [foldl]; [done|].
    cbn in Hnd. apply NoDup_cons in Hnd as [Hk0 Hnd]. rewrite IH by done. cbn.
    destruct (decide (k0 = k)) as [->|Hne].
    - rewrite !lookup_insert_eq. by rewrite (not_elem_of_list_to_map_1 l k Hk0).
    - by rewrite !lookup_insert_ne. }
  apply map_eq. intros k. rewrite E by apply NoDup_items_fst. rewrite lookup_empty, lookup_fmap.
  assert (Hl : (list_to_map (items m) : gmap (Z * Z) double) = m).
  { rewrite (list_to_map_proper (items m) (map_to_list m)); [apply list_to_map_to_list|apply NoDup_items_fst|apply items_perm]. }
  rewrite Hl. by destruct (m !! k).
Qed.

(** The distances of the kernel are integers of eight bits; their six decimals
    are zeros. *)
Definition kernel_distances (h : HardwareGraph) : Prop :=
  ∀ k d, node_distance h !! k = Some d → ∃ n, 0 ≤ n ≤ 255 ∧ d = double_of_Z n.
Definition integer_logged (n : Z) : bool :=
  bool_decide (stod (to_string_double (double_of_Z n)) = Ok (double_of_Z n)).
Lemma integers_logged : forallb integer_logged (seqZ 0 256) = true.
Proof. vm_compute. reflexivity. Qed.
Lemma logged_integer n : 0 ≤ n ≤ 255 → logged (double_of_Z n) = double_of_Z n.
Proof.
  intros Hn. pose proof integers_logged as H. rewrite forallb_forall in H. specialize (H n).
  rewrite <- list_elem_of_In, elem_of_seqZ in H. specialize (H ltac:(lia)).
  unfold integer_logged in H. apply bool_decide_eq_true in H. unfold logged. by rewrite H.
Qed.
Lemma kernel_distances_logged h : kernel_distances h → logged <$> node_distance h = node_distance h.
Proof.
  intros Hk. apply map_eq. intros k. rewrite lookup_fmap. destruct (node_distance h !! k) as [d|] eqn:E; [|done].
  destruct (Hk k d E) as (n & Hn & ->). cbn. by rewrite logged_integer.
Qed.
Definition with_distances (distance : gmap (Z * Z) double) (h : HardwareGraph) : HardwareGraph :=
  mk_HardwareGraph (hw_cpus h) (cpu_latency h) distance (node_calibration h).

(** Sorted CPUs stay as they are. *)
Lemma sort_insert_last (c : Cpu) l : Forall (λ x, cpu_id x < cpu_id c) l →
  sort_insert (λ a b, cpu_id a <? cpu_id b) c l = l ++ [c].
Proof.
  induction 1 as [|x l Hx _ IH]; cbn; [done|]. destruct (Z.ltb_spec (cpu_id c) (cpu_id x)); [lia|]. by rewrite IH.
Qed.
Definition ascending (l : list Cpu) : Prop := StronglySorted (λ a b, cpu_id a < cpu_id b) l.
Lemma ascending_app l r : ascending (l ++ r) → ascending l ∧ ascending r ∧ Forall (λ c, Forall (λ x, cpu_id x < cpu_id c) l) r.
Proof.
  induction l as [|a l IH]; cbn; intros H.
  - split_and!; [constructor|done|]. by apply Forall_true.
  - inversion H as [|?? Hs Ha]; subst. destruct (IH Hs) as (Hl&Hr&Hlr).
    apply Forall_app in Ha as [Ha Har]. split_and!; [by constructor|done|].
    rewrite Forall_forall in *. intros c Hc. constructor; [by apply Har|by apply Hlr].
Qed.
Lemma std_sort_ascending l : ascending l → std_sort (λ a b, cpu_id a <? cpu_id b) l = l.
Proof.
  unfold std_sort. intros Hl. change l with ([] ++ l) at 2.
  assert (Hn : ascending ([] ++ l)) by exact Hl. clear Hl. revert Hn. generalize (@nil Cpu) as acc.
  induction l as [|c l IH]; intros acc Hacc; cbn [foldl]; [by rewrite app_nil_r|].
  destruct (ascending_app _ _ Hacc) as (_&_&Hc). apply Forall_cons_1 in Hc as [Hc _].
  rewrite sort_insert_last by done. rewrite IH; by rewrite <- app_assoc.
Qed.
Lemma unique_ids_ascending l : ascending l → unique_ids l = l.
Proof.
  induction 1 as [|a l _ IH Ha]; cbn; [done|]. rewrite IH. destruct l as [|b l]; [done|].
  apply Forall_cons_1 in Ha as [Ha _]. by destruct (Z.eqb_spec (cpu_id a) (cpu_id b)); [lia|].
Qed.

(** C23: the topology survives the log up to the six decimals of its distances.  Of
    the lines the runtime writes at its start a replay rebuilds the CPUs exactly,
    and stays with them if they are in ascending order, and each node distance as
    the value of its six decimals; it drops the measured latencies and bandwidths.
    The selector does not look at those: on every frame it proposes, commits or
    discards as it would on the runtime's own hardware with the distances as
    logged; with the distances of a kernel (integers of eight bits) these are the
    runtime's own, and so is every decision.  The numbers are finite, the
    identifiers fit, the uprobe status is ASCII, and the reader is any that meets
    the contract [JsonReader]. *)
Theorem startup_read_back read_json `{JsonReader read_json} h root_pid m degraded capability uprobe clock :
  loggable h → forallb seven_bit (chars uprobe) = true →
  ∃ n st, foldlM (read_log_line read_json) (0%nat, ReadState_init)
            (event_lines clock (startup_events h root_pid m degraded capability uprobe)) = Ok (n, st) ∧
    rs_frames st = [] ∧ hw_cpus (rs_hardware st) = hw_cpus h ∧
    (ascending (hw_cpus h) →
       unique_ids (std_sort (λ a b, cpu_id a <? cpu_id b) (hw_cpus (rs_hardware st))) = hw_cpus h) ∧
    node_distance (rs_hardware st) = logged <$> node_distance h ∧
    (∀ options frame s, replay_frame (rs_hardware st) options frame s =
       replay_frame (with_distances (logged <$> node_distance h) h) options frame s) ∧
    (kernel_distances h → node_distance (rs_hardware st) = node_distance h ∧
       ∀ options frame s, replay_frame (rs_hardware st) options frame s = replay_frame h options frame s).
Proof.
  intros Hl Hu. eexists _, _. split; [by apply read_event_lines, startup_lines_read|].
  unfold startup_items. cbn [foldl store]. rewrite foldl_app, store_cpus, store_edges.
  cbn [rs_hardware rs_frames hw_cpus cpu_latency node_distance node_calibration ReadState_init app].
  rewrite insert_items.
  assert (Hp : ∀ options frame s,
    replay_frame (mk_HardwareGraph (hw_cpus h) ∅ (logged <$> node_distance h) ∅) options frame s =
    replay_frame (with_distances (logged <$> node_distance h) h) options frame s).
  { intros options frame s. unfold replay_frame, with_distances.
    by rewrite (propose_topology (hw_cpus h) (logged <$> node_distance h) ∅ (cpu_latency h) ∅ (node_calibration h)). }
  split_and!; [done..| |done|done|].
  - intros Hs. by rewrite std_sort_ascending, unique_ids_ascending.
  - intros Hk. split; [by apply kernel_distances_logged|]. intros options frame s. rewrite Hp.
    unfold with_distances. rewrite kernel_distances_logged by done. by destruct h.
Qed.
Definition calibrated_board : HardwareGraph :=
  mk_HardwareGraph [mk_Cpu 0 0 true; mk_Cpu 1 0 true; mk_Cpu 8 1 true] {[ (0, 8) := dlit 1735 10 ]}
    {[ (0, 0) := double_of_Z 10; (0, 1) := dlit 215 10; (1, 0) := dlit 215 10; (1, 1) := double_of_Z 10 ]}
    {[ (0, 1) := mk_NodeCalibration (dlit 1735 10) (double_of_Z 180) (double_of_Z 96) (dlit 3 100) (double_of_Z 11000)
                   (double_of_Z 52000) ]}.
Lemma calibrated_board_loggable : loggable calibrated_board.
Proof.
  assert (Hd : Forall (λ e, (0 ≤ e.1.1 < 2 ^ 31 ∧ 0 ≤ e.1.2 < 2 ^ 31) ∧
                            disfinite e.2 = true ∧ ∃ v, stod (to_string_double e.2) = Ok v)
                 (items (node_distance calibrated_board))).
  { assert (Hi : items (node_distance calibrated_board) =
      [((0, 0), double_of_Z 10); ((0, 1), dlit 215 10); ((1, 0), dlit 215 10); ((1, 1), double_of_Z 10)])
      by (vm_compute; reflexivity).
    rewrite Hi. repeat (apply Forall_cons_2; [split; [cbn [fst snd]; lia|split; [vm_compute; reflexivity|eexists; vm_compute; reflexivity]]|]).
    apply Forall_nil_2. }
  rewrite Forall_forall in Hd. split.
  - repeat constructor; cbn; lia.
  - intros k d Hk. apply (Hd (k, d)). by apply elem_of_items.
  - intros k d Hk. apply (Hd (k, d)). by apply elem_of_items.
  - intros k c Hc. apply elem_of_items in Hc. vm_compute in Hc. apply list_elem_of_singleton in Hc as [= -> ->].
    reflexivity.
Qed.
(** The distance 21.5 comes back, one third as 0.333333. *)
Example logged_decimals : logged (dlit 215 10) = dlit 215 10 ∧ logged (dlit 1 3) = dlit 333333 1000000.
Proof. split; vm_compute; reflexivity. Qed.
Lemma startup_read_back_witness :
  ∃ n st, foldlM (read_log_line document_reader) (0%nat, ReadState_init)
            (event_lines (λ i, 1000 + Z.of_nat i) (startup_events calibrated_board 7 Plan false true "attached")) = Ok (n, st) ∧
    node_distance (rs_hardware st) = logged <$> node_distance calibrated_board ∧
    unique_ids (std_sort (λ a b, cpu_id a <? cpu_id b) (hw_cpus (rs_hardware st))) = hw_cpus calibrated_board.
Proof.
  destruct (startup_read_back document_reader calibrated_board 7 Plan false true "attached" (λ i, 1000 + Z.of_nat i))
    as (n&st&Hf&_&_&Hc&Hd&_).
  - apply calibrated_board_loggable.
  - reflexivity.
  - exists n, st. split; [exact Hf|]. split; [exact Hd|]. apply Hc. repeat constructor.
Defined.
