(* ===== verification/Replay.v ===== *)
(** * The replay of snapshots ([src/affinity_replay.cpp])

    [affinity-replay] reads a strategy and one snapshot, or a sequence of
    snapshots, runs the snapshot solver or the incremental solver over them, and
    judges the result.  Boost's [ptree] is a parameter, as in [DomainReplay]. *)
From Stdlib Require Import SpecFloat Ascii.
From S2P Require Import Prelude Binary64 Core CpuList Topology Hotspot Incremental IncrementalPropose SnapshotSolver DomainReplay.
From S2P Require Import ThreadProfile Collector.
Local Open Scope string_scope.
Local Open Scope Z_scope.

(** ** Strategies *)

(** [struct SolveOptions], all of it. *)
Record Strategy := mk_Strategy {
  sg_maximum_migrated_active_threads_ratio : double;
  sg_active_threshold : double;
  sg_inactive_threshold : double;
  sg_minimum_confidence : double;
  sg_strategy_id : string;
  sg_demand_floor : double;
  sg_max_threads_per_cpu : Z;
  sg_slot_slack : Z;
  sg_count_penalty : double;
  sg_low_demand_spread : double;
  sg_same_cpu_contention_penalty : double;
  sg_group_spread_penalty : double;
  sg_thread_count_tie_break : bool;
  sg_fm_passes : Z;
  sg_lpt_refinement_passes : Z;
  sg_initial_node_thread_slack_ratio : double;
  sg_hotspot_edges_per_thread : Z;
  sg_hotspot_edge_quantile : double;
  sg_hotspot_component_boost : double;
  sg_maximum_managed_threads : Z;
  sg_managed_thread_hysteresis_ratio : double;
  sg_hotspot_replan_growth_ratio : double;
  sg_hotspot_replan_min_threads : Z;
  sg_hotspot_stability_threshold : double;
  sg_hotspot_stability_confirmations : Z;
  sg_seed : Z;
}.
Definition Strategy_default : Strategy :=
  mk_Strategy (dlit 25 100) (dlit 5 100) d0 (dlit 8 10) "legacy-v1" d0 (-1) 2 d0 d0 d0 d0 false 4 0
    (dlit 5 10) 4 (dlit 95 100) (double_of_Z 4) 32 d1 (dlit 25 100) 8 (dlit 65 100) 3 0.
Definition Strategy_eta (s : Strategy) : Strategy :=
  mk_Strategy (sg_maximum_migrated_active_threads_ratio s) (sg_active_threshold s) (sg_inactive_threshold
    s) (sg_minimum_confidence s) (sg_strategy_id s) (sg_demand_floor s) (sg_max_threads_per_cpu s)
    (sg_slot_slack s) (sg_count_penalty s) (sg_low_demand_spread s) (sg_same_cpu_contention_penalty s)
    (sg_group_spread_penalty s) (sg_thread_count_tie_break s) (sg_fm_passes s) (sg_lpt_refinement_passes
    s) (sg_initial_node_thread_slack_ratio s) (sg_hotspot_edges_per_thread s) (sg_hotspot_edge_quantile
    s) (sg_hotspot_component_boost s) (sg_maximum_managed_threads s) (sg_managed_thread_hysteresis_ratio
    s) (sg_hotspot_replan_growth_ratio s) (sg_hotspot_replan_min_threads s)
    (sg_hotspot_stability_threshold s) (sg_hotspot_stability_confirmations s) (sg_seed s).
Ltac strategy_update s f v :=
  let t := eval cbv beta delta [Strategy_eta] in (Strategy_eta s) in
  let p := eval pattern (f s) in t in
  match p with ?F _ => let r := eval cbv beta in (F v) in exact r end.
Notation "s ⦃ f := v ⦄" := (ltac:(strategy_update s f v))
  (at level 1, f constr at level 0, v at level 200, left associativity, only parsing).

(** The fields [Solver::solve] uses. *)
Definition solve_options (s : Strategy) : SolveOptions :=
  mk_SolveOptions (sg_maximum_migrated_active_threads_ratio s) (sg_active_threshold s) (sg_strategy_id s)
    (sg_demand_floor s) (sg_max_threads_per_cpu s) (sg_slot_slack s) (sg_count_penalty s)
    (sg_low_demand_spread s) (sg_same_cpu_contention_penalty s) (sg_group_spread_penalty s)
    (sg_thread_count_tie_break s) (sg_fm_passes s) (sg_lpt_refinement_passes s).

(** [unquote]: the quotes are optional. *)
Definition unquote_value (value : list ascii) : string :=
  let value := trim value in
  match value with
  | q :: ((_ :: _) as rest) =>
      if bool_decide (q = ascii_of_nat 34) && bool_decide (last rest = Some (ascii_of_nat 34))
      then text (removelast rest) else text value
  | _ => text value
  end.

Definition set_double (value : list ascii) (k : double → Strategy) : result Strategy :=
  v ← stod value; Ok (k v).
Definition set_int (value : list ascii) (k : Z → Strategy) : result Strategy := v ← stoi value; Ok (k v).

(** The chain of key comparisons. *)
Definition assign_strategy (key : string) (value : list ascii) (s : Strategy) : result Strategy :=
  let on k := String.eqb key k in
  if on "schema" then
    if String.eqb (unquote_value value) "affinitygraph.strategy.v1" then Ok s
    else Throw (runtime_error "unsupported strategy schema")
  else if on "id" then Ok (s ⦃ sg_strategy_id := unquote_value value ⦄)
  else if on "demand_floor" then set_double value (λ v, s ⦃ sg_demand_floor := v ⦄)
  else if on "max_threads_per_cpu" then set_int value (λ v, s ⦃ sg_max_threads_per_cpu := v ⦄)
  else if on "slot_slack" then set_int value (λ v, s ⦃ sg_slot_slack := v ⦄)
  else if on "count_penalty" then set_double value (λ v, s ⦃ sg_count_penalty := v ⦄)
  else if on "low_demand_spread" then set_double value (λ v, s ⦃ sg_low_demand_spread := v ⦄)
  else if on "same_cpu_contention_penalty" then set_double value (λ v, s ⦃ sg_same_cpu_contention_penalty := v ⦄)
  else if on "group_spread_penalty" then set_double value (λ v, s ⦃ sg_group_spread_penalty := v ⦄)
  else if on "tie_break_policy" then
    Ok (s ⦃ sg_thread_count_tie_break := String.eqb (unquote_value value) "thread_count" ⦄)
  else if on "fm_passes" then set_int value (λ v, s ⦃ sg_fm_passes := v ⦄)
  else if on "initial_node_thread_slack_ratio" then
    set_double value (λ v, s ⦃ sg_initial_node_thread_slack_ratio := v ⦄)
  else if on "lpt_refinement_passes" then set_int value (λ v, s ⦃ sg_lpt_refinement_passes := v ⦄)
  else if on "hotspot_edges_per_thread" then set_int value (λ v, s ⦃ sg_hotspot_edges_per_thread := v ⦄)
  else if on "hotspot_edge_quantile" then set_double value (λ v, s ⦃ sg_hotspot_edge_quantile := v ⦄)
  else if on "hotspot_component_boost" then set_double value (λ v, s ⦃ sg_hotspot_component_boost := v ⦄)
  else if on "maximum_managed_threads" then set_int value (λ v, s ⦃ sg_maximum_managed_threads := v ⦄)
  else if on "managed_thread_hysteresis_ratio" then
    set_double value (λ v, s ⦃ sg_managed_thread_hysteresis_ratio := v ⦄)
  else if on "hotspot_replan_growth_ratio" then set_double value (λ v, s ⦃ sg_hotspot_replan_growth_ratio := v ⦄)
  else if on "hotspot_replan_min_threads" then set_int value (λ v, s ⦃ sg_hotspot_replan_min_threads := v ⦄)
  else if on "hotspot_stability_threshold" then set_double value (λ v, s ⦃ sg_hotspot_stability_threshold := v ⦄)
  else if on "hotspot_stability_confirmations" then
    set_int value (λ v, s ⦃ sg_hotspot_stability_confirmations := v ⦄)
  else if on "seed" then v ← stoull value; Ok (s ⦃ sg_seed := v ⦄)
  else if on "maximum_migrated_active_threads_ratio" || on "maximum_migrated_threads_ratio" then
    set_double value (λ v, s ⦃ sg_maximum_migrated_active_threads_ratio := v ⦄)
  else if on "active_threshold" then set_double value (λ v, s ⦃ sg_active_threshold := v ⦄)
  else if on "inactive_threshold" then set_double value (λ v, s ⦃ sg_inactive_threshold := v ⦄)
  else if on "minimum_confidence" then set_double value (λ v, s ⦃ sg_minimum_confidence := v ⦄)
  else Throw (runtime_error ("unapproved strategy key: " +:+ key)).

(** One line; [seen] holds the keys so far. *)
Definition strategy_line (acc : gset string * Strategy) (raw : list ascii) : result (gset string * Strategy) :=
  let '(seen, s) := acc in
  let line := trim (match split_first "#"%char raw with Some (a, _) => a | None => raw end) in
  match line with
  | [] => Ok (seen, s)
  | c :: _ =>
      if bool_decide (c = "["%char) then Ok (seen, s) else
      match split_first "="%char line with
      | None => Throw (runtime_error ("invalid strategy line: " +:+ text line))
      | Some (lhs, rhs) =>
          let key := text (trim lhs) in
          if bool_decide (key ∈ seen) then Throw (runtime_error ("duplicate strategy key: " +:+ key))
          else s' ← assign_strategy key (trim rhs) s; Ok ({[key]} ∪ seen, s')
      end
  end.

Definition unapproved (s : Strategy) : bool :=
  (sg_demand_floor s <? d0)%D || (d1 <? sg_demand_floor s)%D || (sg_max_threads_per_cpu s <? -1) ||
  (sg_slot_slack s <? 0) || (sg_maximum_migrated_active_threads_ratio s <? d0)%D ||
  (d1 <? sg_maximum_migrated_active_threads_ratio s)%D || (sg_fm_passes s <? 0) ||
  (sg_minimum_confidence s <? d0)%D || (d1 <? sg_minimum_confidence s)%D ||
  (sg_inactive_threshold s <? d0)%D || (sg_active_threshold s <? sg_inactive_threshold s)%D ||
  (sg_initial_node_thread_slack_ratio s <? d0)%D || (d1 <? sg_initial_node_thread_slack_ratio s)%D ||
  (sg_hotspot_edges_per_thread s <? 1) || (sg_hotspot_edge_quantile s <? d0)%D ||
  (d1 <? sg_hotspot_edge_quantile s)%D || (sg_hotspot_component_boost s <? d0)%D ||
  (sg_maximum_managed_threads s <? 0) || (sg_managed_thread_hysteresis_ratio s <? d0)%D ||
  (sg_hotspot_replan_growth_ratio s <? d0)%D || (d1 <? sg_hotspot_replan_growth_ratio s)%D ||
  (sg_hotspot_replan_min_threads s <? 1) || (sg_hotspot_stability_threshold s <? d0)%D ||
  (d1 <? sg_hotspot_stability_threshold s)%D || (sg_hotspot_stability_confirmations s <? 1).

Definition read_strategy (path : string) (contents : option (list (list ascii))) : result Strategy :=
  match contents with
  | None => Throw (runtime_error ("cannot open strategy: " +:+ path))
  | Some lines =>
      '(_, s) ← foldlM strategy_line (∅, Strategy_default) lines;
      if bool_decide (sg_strategy_id s = "") then Throw (runtime_error "strategy id is required")
      else if (unapproved s : bool) then Throw (runtime_error "strategy value outside approved range")
      else Ok s
  end.

(** ** Snapshots *)

(** A document: its values and the elements of its arrays. *)
Record Tree := mk_Tree { tr_values : ptree; tr_children : string → option (list ptree) }.

Definition required {A} (value : option A) (path : string) : result A :=
  match value with Some a => Ok a | None => Throw (runtime_error ("snapshot missing " +:+ path)) end.
(** The loop over the elements of an array. *)
Fixpoint read_all {A} (read : ptree → result A) (l : list ptree) : result (list A) :=
  match l with
  | [] => Ok []
  | t :: l' => a ← read t; rest ← read_all read l'; Ok (a :: rest)
  end.

Definition snapshot_cpu (t : ptree) : result Cpu :=
  id ← required (pt_int t "id") "id";
  node ← required (pt_int t "node") "node";
  Ok (mk_Cpu id node (default true (pt_bool t "online"))).
(** An entry of one of the two distance tables; the value is read first. *)
Definition snapshot_pair (from to value : string) (t : ptree) : result (Z * Z * double) :=
  v ← required (pt_double t value) value;
  a ← required (pt_int t from) from;
  b ← required (pt_int t to) to;
  Ok (a, b, v).
Definition snapshot_thread (t : ptree) : result ThreadDemand :=
  tgid ← required (pt_int t "tgid") "tgid";
  tid ← required (pt_int t "tid") "tid";
  start ← required (pt_u64 t "starttime") "starttime";
  group ← required (pt_string t "group") "group";
  demand ← required (pt_double t "demand") "demand";
  confidence ← required (pt_double t "confidence") "confidence";
  cpu ← required (pt_int t "current_cpu") "current_cpu";
  Ok (mk_ThreadDemand (mk_ThreadIdentity tgid tid start) group demand confidence cpu).
(** [item.get(key, 0U)] *)
Definition unsigned_or_zero (v : option Z) : Z :=
  match v with Some n => if n <? 2 ^ 32 then n else 0 | None => 0 end.
Definition snapshot_edge (t : ptree) : result RelationEdge :=
  from ← required (pt_int t "from_tid") "from_tid";
  to ← required (pt_int t "to_tid") "to_tid";
  score ← required (pt_double t "score") "score";
  let weight key := default d0 (pt_double t key) in
  Ok (mk_RelationEdge from to (weight "activity") (weight "sync") (weight "share") (weight "stability")
        score (weight "handoff_rate") (weight "shared_vfs_seconds") (weight "active_overlap")
        (unsigned_or_zero (pt_u64 t "observation_count")) (weight "coverage") (weight "cv")).

Definition pair_table (l : list (Z * Z * double)) : gmap (Z * Z) double :=
  foldl (λ m e, <[e.1 := e.2]> m) ∅ l.

Record Snapshot := mk_Snapshot {
  ss_window_id : string;
  ss_hardware : HardwareGraph;
  ss_threads : list ThreadDemand;
  ss_relations : list RelationEdge;
}.
Definition optional_array {A} (read : ptree → result A) (l : option (list ptree)) : result (list A) :=
  match l with None => Ok [] | Some l => read_all read l end.
Definition mandatory_array {A} (read : ptree → result A) (root : Tree) (path : string) : result (list A) :=
  match tr_children root path with
  | None => Throw (pt_missing (tr_values root) path)
  | Some l => read_all read l
  end.
Definition read_snapshot (root : Tree) : result Snapshot :=
  schema ← required (pt_string (tr_values root) "schema") "schema";
  if negb (String.eqb schema "affinitygraph.snapshot.v1")
  then Throw (runtime_error "unsupported snapshot schema") else
  window_id ← required (pt_string (tr_values root) "window_id") "window_id";
  cpus ← mandatory_array snapshot_cpu root "topology.cpus";
  latencies ← optional_array (snapshot_pair "from_cpu" "to_cpu" "latency")
                (tr_children root "topology.cpu_latencies");
  distances ← optional_array (snapshot_pair "from_node" "to_node" "distance")
                (tr_children root "topology.node_distances");
  threads ← mandatory_array snapshot_thread root "threads";
  edges ← optional_array snapshot_edge (tr_children root "edges");
  if bool_decide (cpus = []) then Throw (runtime_error "snapshot has empty CPU envelope") else
  Ok (mk_Snapshot window_id (mk_HardwareGraph cpus (pair_table latencies) (pair_table distances) ∅) threads edges).

(** [values[ceil(quantile * size) - 1]] of the sorted values; the access is not
    checked. *)
Definition percentile (values : list double) (quantile : double) : option double :=
  match values with
  | [] => Some d0
  | _ =>
      let sorted := std_sort dltb values in
      let index := dceil_Z (quantile * double_of_Z (Zsize values))%D - 1 in
      if index <? 0 then None else sorted !! Z.to_nat index
  end.

(** ** The verdict on a snapshot *)
Record Tally := mk_Tally {
  ta_counts : gmap Z Z;
  ta_cpu_demand : gmap Z double;
  ta_group_cpus : gmap string (gset Z);
  ta_node_demand : gmap Z double;
  ta_active : Z;
  ta_active_migrations : Z;
  ta_inactive_migrations : Z;
  ta_migration_distance : double;
}.
Section verdict.
Context (options : Strategy) (hardware : HardwareGraph) (threads : list ThreadDemand).
Context (edges : list RelationEdge) (placement : Placement).

(** [cpu_node[cpu]]: the last listed CPU with that id, else 0. *)
Definition replay_cpu_node (cpu : Z) : Z :=
  foldl (λ n c, if cpu_id c =? cpu then cpu_node_id c else n) 0 (hw_cpus hardware).
Definition replay_by_tid : gmap Z ThreadDemand := foldl (λ m t, <[td_tid t := t]> m) ∅ threads.

Definition tally_thread (a : Tally) (t : ThreadDemand) : Tally :=
  match pl_tid_to_cpu placement !! td_tid t with
  | None => a
  | Some cpu =>
      let node := replay_cpu_node cpu in
      let active := (sg_active_threshold options <=? td_demand t)%D in
      let moved := negb (cpu =? td_current_cpu t) in
      mk_Tally (<[cpu := default 0 (ta_counts a !! cpu) + 1]> (ta_counts a))
        (<[cpu := (default d0 (ta_cpu_demand a !! cpu) + td_demand t)%D]> (ta_cpu_demand a))
        (<[td_group t := {[cpu]} ∪ default ∅ (ta_group_cpus a !! td_group t)]> (ta_group_cpus a))
        (<[node := (default d0 (ta_node_demand a !! node) + td_demand t)%D]> (ta_node_demand a))
        (ta_active a + if active then 1 else 0)
        (ta_active_migrations a + if active && moved then 1 else 0)
        (ta_inactive_migrations a + if negb active && moved then 1 else 0)
        (if moved then (ta_migration_distance a + latency hardware (td_current_cpu t) cpu)%D
         else ta_migration_distance a)
  end.
Definition tally : Tally :=
  foldl tally_thread
    (mk_Tally (foldl (λ m c, <[cpu_id c := 0]> m) ∅ (hw_cpus hardware))
       (foldl (λ m c, <[cpu_id c := d0]> m) ∅ (hw_cpus hardware)) ∅ ∅ 0 0 0 d0) threads.

Definition slot_cap : Z :=
  if 0 <? sg_max_threads_per_cpu options then sg_max_threads_per_cpu options
  else dceil_Z (double_of_Z (Zsize threads) / double_of_Z (Zsize (hw_cpus hardware)))%D + sg_slot_slack options.
(** [std::max_element] of the counts, 0 when there are none. *)
Definition max_count : Z :=
  match items (ta_counts tally) with
  | [] => 0
  | e :: l => foldl (λ m e, if m <? e.2 then e.2 else m) e.2 l
  end.
Definition node_overload_of : double :=
  foldl (λ d e, (d + dmax d0 (e.2 - double_of_Z (Zsize (cpus_in_node hardware e.1))))%D) d0
    (items (ta_node_demand tally)).

Definition complete : bool := Nat.eqb (size (pl_tid_to_cpu placement)) (length threads).
Definition inside : bool :=
  forallb (λ e, bool_decide (e.2 ∈ cpu_id <$> hw_cpus hardware)) (items (pl_tid_to_cpu placement)).
Definition active_budget : bool :=
  (ta_active tally =? 0) ||
  (double_of_Z (ta_active_migrations tally) / double_of_Z (ta_active tally) <=?
     sg_maximum_migrated_active_threads_ratio options + d1em12)%D.
Definition gates_pass (deterministic : bool) (solve_ms : double) : bool :=
  complete && inside && (pl_overload placement <=? d1em12)%D && (node_overload_of <=? d1em12)%D &&
  (max_count <=? slot_cap) && active_budget && deterministic && (solve_ms <? double_of_Z 1000)%D.

(** The weight of the edges inside a group, and the part of it inside a node. *)
Definition group_edge (acc : double * double) (e : RelationEdge) : result (double * double) :=
  match replay_by_tid !! re_from_tid e, replay_by_tid !! re_to_tid e with
  | Some a, Some b =>
      if negb (String.eqb (td_group a) (td_group b)) then Ok acc else
      match pl_tid_to_cpu placement !! re_from_tid e, pl_tid_to_cpu placement !! re_to_tid e with
      | Some from, Some to =>
          Ok ((acc.1 + re_score e)%D,
              if replay_cpu_node from =? replay_cpu_node to then (acc.2 + re_score e)%D else acc.2)
      | _, _ => Throw (out_of_range "map::at")
      end
  | _, _ => Ok acc
  end.
Definition group_weights : result (double * double) := foldlM group_edge (d0, d0) edges.
(** The assignments that are written, each with its thread. *)
Definition assignment_row (e : Z * Z) : result (ThreadIdentity * Z) :=
  match replay_by_tid !! e.1 with
  | Some t => Ok (td_identity t, e.2)
  | None => Throw (out_of_range "map::at")
  end.
Fixpoint assignment_rows (l : list (Z * Z)) : result (list (ThreadIdentity * Z)) :=
  match l with
  | [] => Ok []
  | e :: l' => row ← assignment_row e; rest ← assignment_rows l'; Ok (row :: rest)
  end.

(** ** The measures *)
Definition count_values : list double := (λ e, double_of_Z e.2) <$> items (ta_counts tally).
Definition demand_values : list double :=
  (λ e, default d0 (ta_cpu_demand tally !! e.1)) <$> items (ta_counts tally).
Definition dsum (l : list double) : double := foldl dadd d0 l.
Definition count_mean : double := (dsum count_values / double_of_Z (Zsize count_values))%D.
(** The coefficient of variation of the counts. *)
Definition count_cv : double :=
  let m := count_mean in
  let variance := dsum ((λ v, ((v - m) * (v - m))%D) <$> count_values) in
  if (d0 <? m)%D then (dsqrt (variance / double_of_Z (Zsize count_values)) / m)%D else d0.
(** Their Gini coefficient; [2 * size * size] is computed in [size_t]. *)
Definition count_gini : double :=
  let m := count_mean in
  let n := Zsize count_values in
  let sum := foldl (λ s a, foldl (λ s b, (s + dabs (a - b))%D) s count_values) d0 count_values in
  if (d0 <? m)%D then (sum / (double_of_Z (u64 (2 * n * n)) * m))%D else d0.
(** [*std::max_element(...)], which the code dereferences unchecked. *)
Definition max_demand : option double :=
  match demand_values with
  | [] => None
  | v :: l => Some (foldl (λ m e, if (m <? e)%D then e else m) v l)
  end.
Definition mean_group_cpu_spread : double :=
  let groups := ta_group_cpus tally in
  let sum := foldl (λ s e, (s + double_of_nat (size e.2))%D) d0 (items groups) in
  if bool_decide (groups = ∅) then sum else (sum / double_of_nat (size groups))%D.

Record Metrics := mk_Metrics {
  me_max_threads_per_cpu : Z;
  me_p95_threads_per_cpu : option double;
  me_thread_count_cv : double;
  me_thread_count_gini : double;
  me_max_cpu_demand : option double;
  me_relation_weighted_latency : double;
  me_same_cpu_edge_weight : double;
  me_active_migrations : Z;
  me_inactive_migrations : Z;
  me_migration_cost : double;
  me_migration_distance : double;
  me_group_locality : double;
  me_group_nonlocality : double;
  me_mean_group_cpu_spread : double;
  me_cpu_demand_overload : double;
  me_node_demand_overload : double;
  me_solve_ms : double;
}.
Definition metrics_of (weights : double * double) (solve_ms : double) : Metrics :=
  let '(total, local) := weights in
  mk_Metrics max_count (percentile count_values (dlit 95 100)) count_cv count_gini max_demand
    (pl_relation_cost placement) (pl_same_cpu_edge_weight placement) (ta_active_migrations tally)
    (ta_inactive_migrations tally) (pl_migration_cost placement) (ta_migration_distance tally)
    (if (d0 <? total)%D then (local / total)%D else d1)
    (if (d0 <? total)%D then (d1 - local / total)%D else d0) mean_group_cpu_spread
    (pl_overload placement) node_overload_of solve_ms.

(** What [write_result] writes; [rr_gates] is in the order of the file. *)
Record ReplayResult := mk_ReplayResult {
  rr_window_id : string;
  rr_strategy_id : string;
  rr_assignments : list (ThreadIdentity * Z);
  rr_gates : list (string * bool);
  rr_passed : bool;
  rr_metrics : Metrics;
}.
Definition gate_list (deterministic : bool) (solve_ms : double) : list (string * bool) :=
  [("assignment_complete", complete); ("cpu_in_envelope", inside); ("singleton", true);
   ("cpu_demand_overload_zero", (pl_overload placement <=? d1em12)%D);
   ("node_demand_overload_zero", (node_overload_of <=? d1em12)%D);
   ("thread_slot_limit", (max_count <=? slot_cap)%Z); ("active_migration_budget", active_budget);
   ("deterministic", deterministic); ("solve_below_1s", (solve_ms <? double_of_Z 1000)%D)].
(** [opened]: the output file could be opened. *)
Definition write_result (path window_id : string) (opened deterministic : bool) (solve_ms : double) :
    result ReplayResult :=
  weights ← group_weights;
  if negb opened then Throw (runtime_error ("cannot open output: " +:+ path)) else
  rows ← assignment_rows (items (pl_tid_to_cpu placement));
  Ok (mk_ReplayResult window_id (sg_strategy_id options) rows (gate_list deterministic solve_ms)
        (gates_pass deterministic solve_ms) (metrics_of weights solve_ms)).
End verdict.

(** The comparison with the second solve; a NaN is not equal to itself. *)
Definition same_placement (a b : Placement) : bool :=
  bool_decide (pl_tid_to_cpu a = pl_tid_to_cpu b) && (pl_overload a =? pl_overload b)%D &&
  (pl_relation_cost a =? pl_relation_cost b)%D && (pl_migration_cost a =? pl_migration_cost b)%D.

(** The snapshot branch of [main], after the strategy was read. *)
Definition replay_snapshot (options : Strategy) (root : Tree) (path : string) (opened : bool) (solve_ms : double) :
    result ReplayResult :=
  s ← read_snapshot root;
  let run := solve (ss_hardware s) (ss_threads s) (ss_relations s) (solve_options options) in
  placement ← run;
  repeated ← run;
  write_result options (ss_hardware s) (ss_threads s) (ss_relations s) placement path (ss_window_id s) opened
    (same_placement repeated placement) solve_ms.
