(* ===== verification/ReplaySequence.v ===== *)
(** * The replay of a sequence of snapshots ([src/affinity_replay.cpp])

    [run_sequence] feeds the managed threads of each snapshot to one incremental
    solver and commits every proposal that is ready; [main] runs it twice and
    compares the runs.  [load] stands for boost's [read_json] on a file, [clock]
    for the measured solve time of each frame. *)
From Stdlib Require Import SpecFloat Ascii.
From S2P Require Import Prelude Binary64 Core CpuList Topology Hotspot Incremental IncrementalPropose SnapshotSolver DomainReplay.
From S2P Require Import ThreadProfile Collector Replay.
Local Open Scope string_scope.
Local Open Scope Z_scope.

(** ** Paths *)
Fixpoint drop_slashes (l : list ascii) : list ascii :=
  match l with
  | c :: l' => if bool_decide (c = "/"%char) then drop_slashes l' else l
  | [] => []
  end.
Fixpoint drop_name (l : list ascii) : list ascii :=
  match l with
  | c :: l' => if bool_decide (c = "/"%char) then l else drop_name l'
  | [] => []
  end.
(** [parent_path()]: without the last component; the root is its own parent. *)
Definition parent_path (path : list ascii) : list ascii :=
  match drop_name (reverse path) with
  | [] => []
  | l => match drop_slashes l with [] => ["/"%char] | rest => reverse rest end
  end.
Definition is_relative (path : list ascii) : bool :=
  match path with c :: _ => negb (bool_decide (c = "/"%char)) | [] => true end.
(** [base / snapshot] for a relative [snapshot] *)
Definition append_path (base snapshot : list ascii) : list ascii :=
  match last base with
  | None => snapshot
  | Some c => (base ++ (if bool_decide (c = "/"%char) then [] else ["/"%char]) ++ snapshot)%list
  end.
Definition resolve_snapshot (path snapshot : list ascii) : list ascii :=
  if is_relative snapshot then append_path (parent_path path) snapshot else snapshot.

(** ** The options *)
Definition sequence_options (s : Strategy) : IncrementalOptions :=
  let d := IncrementalOptions_default in
  mk_IncrementalOptions (sg_maximum_migrated_active_threads_ratio s) (initial_migrated_threads_ratio d) 3
    (initial_proposal_confirmations d) (minimum_dwell_ns d) (sg_fm_passes s)
    (sg_initial_node_thread_slack_ratio s) (candidate_multiplier d) (candidate_hard_limit d)
    (rotating_scan_size d) (demand_dirty_threshold d) (edge_dirty_absolute_threshold d)
    (edge_dirty_relative_threshold d) (minimum_relative_gain d)
    (if 0 <? sg_max_threads_per_cpu s then sg_max_threads_per_cpu s else 0) (sg_slot_slack s)
    (future_demand_floor d) (group_peak_demand_ratio d) (group_peak_demand_cap d) (group_peak_decay d)
    (node_balance_threshold d) (sg_hotspot_edges_per_thread s) (sg_hotspot_edge_quantile s)
    (sg_hotspot_component_boost s) (sg_maximum_managed_threads s) (sg_managed_thread_hysteresis_ratio s)
    (sg_hotspot_replan_growth_ratio s) (sg_hotspot_replan_min_threads s)
    (sg_hotspot_stability_threshold s) (sg_hotspot_stability_confirmations s).

(** [struct SequenceFrameResult] *)
Record SequenceFrameResult := mk_SequenceFrameResult {
  fr_timestamp_ns : Z;
  fr_window_id : string;
  fr_phase : string;
  fr_demand_active : Z;
  fr_managed : Z;
  fr_retained_managed : Z;
  fr_replaced_managed : Z;
  fr_managed_jaccard : double;
  fr_managed_internal_hotspot_coverage : double;
  fr_managed_incident_hotspot_coverage : double;
  fr_eligible : Z;
  fr_pinned : Z;
  fr_dirty : Z;
  fr_candidates : Z;
  fr_budget : Z;
  fr_actions : Z;
  fr_cpu_slot_cap : Z;
  fr_maximum_cpu_threads : Z;
  fr_predicted_demand_threads : Z;
  fr_relation_edges_input : Z;
  fr_hotspot_edges : Z;
  fr_hotspot_similarity : double;
  fr_hotspot_stability_confirmation : Z;
  fr_hotspot_replan_triggered : bool;
  fr_relation_node_locality : double;
  (** [None] when the unchecked access of [percentile] is outside the vector *)
  fr_p95_relation_node_locality : option double;
  fr_same_cpu_relation_ratio : double;
  fr_hotspot_node_locality : double;
  fr_hotspot_same_cpu_ratio : double;
  fr_cross_node_hotspot_weight : double;
  fr_minimum_node_utilization : double;
  fr_maximum_node_utilization : double;
  fr_generation : Z;
  fr_effective : bool;
  fr_solve_ms : double;
  fr_placement : gmap Z Z;
}.

Section sequence.
Context (strategy : Strategy).

(** ** The cohort of a frame *)
Definition candidate (cohort : gset Z) (t : ThreadDemand) : bool :=
  negb (td_confidence t <? sg_minimum_confidence strategy)%D &&
  ((sg_active_threshold strategy <=? td_demand t)%D ||
   (bool_decide (td_tid t ∈ cohort) && (sg_inactive_threshold strategy <=? td_demand t)%D)).
Definition active_candidates (cohort : gset Z) (threads : list ThreadDemand) : list ThreadDemand :=
  filter (λ t, candidate cohort t = true) threads.
Definition active_threads (cohort : gset Z) (s : Snapshot) : list ThreadDemand :=
  select_managed_threads (active_candidates cohort (ss_threads s)) (ss_relations s) cohort
    (sequence_options strategy).
Definition cohort_of (threads : list ThreadDemand) : gset Z :=
  foldl (λ s t, {[td_tid t]} ∪ s) ∅ threads.

Definition jaccard (previous next : gset Z) : double :=
  if bool_decide (previous ∪ next = ∅) then d1
  else (double_of_nat (size (previous ∩ next)) / double_of_nat (size (previous ∪ next)))%D.

(** The weight of the hotspots of all candidates: total, inside the cohort, and
    with an end in it. *)
Definition coverage_edge (next : gset Z) (w : double * double * double) (e : RelationEdge) :
    double * double * double :=
  let '(total, internal, incident) := w in
  let from := bool_decide (re_from_tid e ∈ next) in
  let to := bool_decide (re_to_tid e ∈ next) in
  ((total + re_score e)%D, (if from && to then (internal + re_score e)%D else internal),
   (if from || to then (incident + re_score e)%D else incident)).
Definition coverage (candidates : list ThreadDemand) (edges : list RelationEdge) (next : gset Z) :
    double * double :=
  let '(total, internal, incident) :=
    foldl (coverage_edge next) (d0, d0, d0)
      (select_hotspot_edges (by_tid candidates) (sequence_options strategy) edges) in
  let ratio w := if (d0 <? total)%D then (w / total)%D else d1 in
  (ratio internal, ratio incident).

(** ** The measures of a frame *)
Section measures.
Context (hardware : HardwareGraph) (placement : gmap Z Z).

Definition most_threads : Z :=
  (foldl (λ acc e,
     let n := default 0 (acc.1 !! e.2) + 1 in
     (<[e.2 := n]> acc.1, if acc.2 <? n then n else acc.2)) (∅ : gmap Z Z, 0) (items placement)).2.

Definition node_cpus : gmap Z Z :=
  foldl (λ m c, if cpu_online c then bump (cpu_node_id c) m else m) ∅ (hw_cpus hardware).
Definition placed_demand (threads : list ThreadDemand) : gmap Z double :=
  foldl (λ m t, match placement !! td_tid t with
                | Some cpu => add_load (replay_cpu_node hardware cpu) (td_demand t) m
                | None => m
                end) ∅ threads.
Definition node_utilization (threads : list ThreadDemand) : double * double :=
  let '(lo, hi) :=
    foldl (λ acc e,
      let u := (get_or d0 (placed_demand threads) e.1 / double_of_Z e.2)%D in
      (dmin acc.1 u, dmax acc.2 u)) (dinf, d0) (items node_cpus) in
  (if disfinite lo then lo else d0, hi).

Definition eligible_edge_scores (edges : list RelationEdge) : list double :=
  re_score <$> filter (λ e, bool_decide (is_Some (placement !! re_from_tid e)) &&
                            bool_decide (is_Some (placement !! re_to_tid e)) && (d0 <? re_score e)%D = true) edges.

Record RelationWeights := mk_RelationWeights {
  rw_total : double; rw_local : double; rw_p95 : double; rw_p95_local : double; rw_same_cpu : double
}.
Definition relation_edge (p95 : double) (w : RelationWeights) (e : RelationEdge) : RelationWeights :=
  match placement !! re_from_tid e, placement !! re_to_tid e with
  | Some from, Some to =>
      if (re_score e <=? d0)%D then w else
      let local := replay_cpu_node hardware from =? replay_cpu_node hardware to in
      let heavy := (p95 <=? re_score e + d1em12)%D in
      let add (b : bool) v := if b then (v + re_score e)%D else v in
      mk_RelationWeights (add true (rw_total w)) (add local (rw_local w)) (add heavy (rw_p95 w))
        (add (heavy && local) (rw_p95_local w)) (add (from =? to) (rw_same_cpu w))
  | _, _ => w
  end.
Definition relation_weights (edges : list RelationEdge) (p95 : double) : RelationWeights :=
  foldl (relation_edge p95) (mk_RelationWeights d0 d0 d0 d0 d0) edges.

Record HotspotWeights := mk_HotspotWeights {
  hw_total : double; hw_local : double; hw_same_cpu : double; hw_cross : double
}.
Definition hotspot_edge (w : HotspotWeights) (e : RelationEdge) : HotspotWeights :=
  match placement !! re_from_tid e, placement !! re_to_tid e with
  | Some from, Some to =>
      let local := replay_cpu_node hardware from =? replay_cpu_node hardware to in
      let add (b : bool) v := if b then (v + re_score e)%D else v in
      mk_HotspotWeights (add true (hw_total w)) (add local (hw_local w)) (add (from =? to) (hw_same_cpu w))
        (add (negb local) (hw_cross w))
  | _, _ => w
  end.
Definition hotspot_weights (selected : list RelationEdge) : HotspotWeights :=
  foldl hotspot_edge (mk_HotspotWeights d0 d0 d0 d0) selected.
End measures.

(** [weight > 0 ? part / weight : otherwise] *)
Definition share_of (part weight otherwise : double) : double :=
  if (d0 <? weight)%D then (part / weight)%D else otherwise.

(** The row that is appended to the results. *)
Definition frame_result (timestamp_ns : Z) (s : Snapshot) (previous : gset Z)
    (candidates managed : list ThreadDemand) (proposal : SolverProposal) (solver : IncrementalSolver)
    (solve_ms : double) : SequenceFrameResult :=
  let next := cohort_of managed in
  let hardware := ss_hardware s in
  let edges := ss_relations s in
  let placement := i_placement solver in
  let retained := previous ∩ next in
  let '(internal, incident) := coverage candidates edges next in
  let weights := relation_weights hardware placement edges in
  let w := weights d0 in
  let hot := hotspot_weights hardware placement
               (select_hotspot_edges (by_tid managed) (sequence_options strategy) edges) in
  let '(lo, hi) := node_utilization hardware placement managed in
  mk_SequenceFrameResult timestamp_ns (ss_window_id s) (incremental_phase_name (i_phase solver))
    (Zsize candidates) (Zsize managed) (Z.of_nat (size retained))
    (Z.of_nat (size previous) - Z.of_nat (size retained)) (jaccard previous next) internal incident
    (sp_eligible_threads proposal) (Z.of_nat (size (i_pinned solver))) (sp_dirty_threads proposal)
    (sp_candidate_threads proposal) (sp_migration_budget proposal) (Zsize (sp_actions proposal))
    (sp_cpu_slot_cap proposal) (most_threads placement) (sp_predicted_demand_threads proposal)
    (sp_relation_edges_input proposal) (sp_hotspot_edges proposal) (sp_hotspot_similarity proposal)
    (sp_hotspot_stability_confirmation proposal) (sp_hotspot_replan_triggered proposal)
    (share_of (rw_local w) (rw_total w) d1)
    (p95 ← percentile (eligible_edge_scores placement edges) (dlit 95 100);
     Some (share_of (rw_p95_local (weights p95)) (rw_p95 (weights p95)) d1))
    (share_of (rw_same_cpu w) (rw_total w) d0)
    (share_of (hw_local hot) (hw_total hot) d1) (share_of (hw_same_cpu hot) (hw_total hot) d0)
    (hw_cross hot) lo hi (i_generation solver) (i_effective solver) solve_ms placement.

(** ** One frame *)
Record SequenceState := mk_SequenceState {
  sq_solver : IncrementalSolver;
  sq_cohort : gset Z;
  sq_topology : list Cpu;
  sq_results : list SequenceFrameResult;
}.
Definition SequenceState_init : SequenceState :=
  mk_SequenceState (IncrementalSolver_init true) ∅ [] [].

(** From a snapshot that was read to the row. *)
Definition step_frame (st : SequenceState) (timestamp_ns : Z) (s : Snapshot) (solve_ms : double) :
    result SequenceState :=
  let cpus := hw_cpus (ss_hardware s) in
  if negb (bool_decide (sq_topology st = [])) && negb (bool_decide (cpus = sq_topology st))
  then Throw (runtime_error "sequence changes CPU topology") else
  let topology := if bool_decide (sq_topology st = []) then cpus else sq_topology st in
  let cohort := sq_cohort st in
  let candidates := active_candidates cohort (ss_threads s) in
  let managed := active_threads cohort s in
  let next := cohort_of managed in
  let solver := foldl (λ x t, remove_thread t x) (sq_solver st) (set_items (cohort ∖ next)) in
  match propose (ss_hardware s) managed (ss_relations s) (sequence_options strategy) timestamp_ns None solver with
  | (_, Throw e) => Throw e
  | (solver, Ok proposal) =>
      let solver := if sp_ready proposal then commit proposal timestamp_ns ∅ solver else solver in
      Ok (mk_SequenceState solver next topology
            (sq_results st ++ [frame_result timestamp_ns s cohort candidates managed proposal solver solve_ms])%list)
  end.

Context (load : list ascii → result Tree) (clock : nat → double) (path : list ascii).

(** The time and the snapshot of an entry of [frames]. *)
Definition frame_input (frame : ptree) : result (Z * Snapshot) :=
  timestamp_ns ← required (pt_u64 frame "timestamp_ns") "timestamp_ns";
  snapshot ← required (pt_string frame "snapshot") "snapshot";
  tree ← load (resolve_snapshot path (chars snapshot));
  s ← read_snapshot tree;
  Ok (timestamp_ns, s).
Definition run_frame (st : SequenceState) (frame : ptree) : result SequenceState :=
  '(timestamp_ns, s) ← frame_input frame;
  step_frame st timestamp_ns s (clock (length (sq_results st))).

Definition run_sequence : result (list SequenceFrameResult) :=
  root ← load path;
  schema ← required (pt_string (tr_values root) "schema") "schema";
  if negb (String.eqb schema "affinitygraph.replay-sequence.v1")
  then Throw (runtime_error "unsupported replay sequence schema") else
  match tr_children root "frames" with
  | None => Throw (pt_missing (tr_values root) "frames")
  | Some frames =>
      st ← foldlM run_frame SequenceState_init frames;
      if bool_decide (sq_results st = []) then Throw (runtime_error "replay sequence has no frames")
      else Ok (sq_results st)
  end.
End sequence.

(** ** The comparison of two runs *)
Definition same_frame (a b : SequenceFrameResult) : bool :=
  (fr_timestamp_ns a =? fr_timestamp_ns b) && String.eqb (fr_phase a) (fr_phase b) &&
  (fr_actions a =? fr_actions b) && (fr_generation a =? fr_generation b) &&
  Bool.eqb (fr_effective a) (fr_effective b) && bool_decide (fr_placement a = fr_placement b).
Fixpoint same_sequence (a b : list SequenceFrameResult) : bool :=
  match a, b with
  | [], [] => true
  | x :: a', y :: b' => same_frame x y && same_sequence a' b'
  | _, _ => false
  end.

(** The summary [write_sequence_result] puts before the frames. *)
Definition sequence_summary (frames : list SequenceFrameResult) : option (double * bool) :=
  p95 ← percentile (fr_solve_ms <$> frames) (dlit 95 100); Some (p95, (p95 <? double_of_Z 1000)%D).

(** ** The command line and [main] *)
Record ReplayArgs := mk_ReplayArgs {
  ra_snapshot : string; ra_sequence : string; ra_strategy : string; ra_output : string
}.
Definition replay_usage : exn :=
  runtime_error "usage: affinity-replay (--snapshot FILE | --sequence FILE) --strategy FILE --output FILE".
(** The loop over the arguments: a later option replaces an earlier one. *)
Fixpoint read_args (argv : list string) (a : ReplayArgs) : result ReplayArgs :=
  match argv with
  | [] => Ok a
  | [_] => Throw replay_usage
  | option :: value :: rest =>
      if String.eqb option "--snapshot"
      then read_args rest (mk_ReplayArgs value (ra_sequence a) (ra_strategy a) (ra_output a))
      else if String.eqb option "--sequence"
      then read_args rest (mk_ReplayArgs (ra_snapshot a) value (ra_strategy a) (ra_output a))
      else if String.eqb option "--strategy"
      then read_args rest (mk_ReplayArgs (ra_snapshot a) (ra_sequence a) value (ra_output a))
      else if String.eqb option "--output"
      then read_args rest (mk_ReplayArgs (ra_snapshot a) (ra_sequence a) (ra_strategy a) value)
      else Throw replay_usage
  end.
Definition empty_text (s : string) : bool := String.eqb s "".
Definition checked_args (argv : list string) : result ReplayArgs :=
  a ← read_args argv (mk_ReplayArgs "" "" "" "");
  if Bool.eqb (empty_text (ra_snapshot a)) (empty_text (ra_sequence a)) || empty_text (ra_strategy a) ||
     empty_text (ra_output a)
  then Throw replay_usage else Ok a.

(** What is written to the output file. *)
Inductive ReplayReport :=
  | SnapshotReport (r : ReplayResult)
  | SequenceReport (strategy_id : string) (deterministic : bool) (summary : option (double * bool))
      (frames : list SequenceFrameResult).

(** The files, whether an output can be opened, and the measured times: of the
    snapshot's solve and of the frames of the two runs. *)
Record ReplayEnv := mk_ReplayEnv {
  re_strategy_file : string → option (list (list ascii));
  re_load : list ascii → result Tree;
  re_opens : string → bool;
  re_solve_ms : double;
  re_first_clock : nat → double;
  re_second_clock : nat → double;
}.
Definition replay_main (env : ReplayEnv) (argv : list string) : result ReplayReport :=
  a ← checked_args argv;
  options ← read_strategy (ra_strategy a) (re_strategy_file env (ra_strategy a));
  if negb (empty_text (ra_sequence a)) then
    frames ← run_sequence options (re_load env) (re_first_clock env) (chars (ra_sequence a));
    repeated ← run_sequence options (re_load env) (re_second_clock env) (chars (ra_sequence a));
    if negb (re_opens env (ra_output a)) then Throw (runtime_error ("cannot open output: " +:+ ra_output a)) else
    Ok (SequenceReport (sg_strategy_id options) (same_sequence frames repeated) (sequence_summary frames) frames)
  else
    root ← re_load env (chars (ra_snapshot a));
    r ← replay_snapshot options root (ra_output a) (re_opens env (ra_output a)) (re_solve_ms env);
    Ok (SnapshotReport r).
(** The exit status. *)
Definition replay_status (r : result ReplayReport) : Z := match r with Ok _ => 0 | Throw _ => 1 end.
