(* ===== verification/EventLines.v ===== *)
(** * The lines of the runtime's log ([src/runtime.cpp])

    One constructor per call of [log], with what the line is made of; [line_of] is
    its type and its fields. *)
From Stdlib Require Import SpecFloat Ascii.
From S2P Require Import Prelude Binary64 Core CpuList Actuator Topology DomainPlanner DomainSolver GraphWindow ThreadProfile.
From S2P Require Import Config ConfigProperties Hotspot Incremental IncrementalPropose Runtime RuntimeSolve BpfProbe BpfReader.
From S2P Require Import Json JsonProperties RuntimeLog RuntimeStatus DomainReplay DomainReplayProperties RuntimeLogProperties StartupLog.
From S2P Require Import Replay ReplaySequence.
Local Open Scope string_scope.
Local Open Scope Z_scope.
Local Open Scope list_scope.

(** ** Parts of several lines *)
Definition size_json {A} `{Countable A} (s : gset A) : json := jint (Z.of_nat (size s)).
Definition restore_fields (r : RestoreResult) : list (string * json) :=
  [("requested", jint (rr_requested r)); ("restored", jint (rr_restored r)); ("vanished", jint (rr_vanished r));
   ("failed", jint (rr_failed r))].
(** As [pause] and the destructor write it. *)
Definition restore_all_fields (r : RestoreResult) : list (string * json) :=
  [("restore_requested", jint (rr_requested r)); ("restore_restored", jint (rr_restored r));
   ("restore_vanished", jint (rr_vanished r)); ("restore_failed", jint (rr_failed r));
   ("restored", JBool (rr_success r))].
Definition kind_fields (h : affinitygraph_bpf_health) : list (string * json) :=
  [("emitted_by_kind", bpf_kind_counts_json (he_emitted_by_kind h));
   ("dropped_by_kind", bpf_kind_counts_json (he_dropped_by_kind h));
   ("suppressed_by_kind", bpf_kind_counts_json (he_suppressed_by_kind h))].
(** [health.dropped / total] of the destructor, 0 without events. *)
Definition final_loss (h : affinitygraph_bpf_health) : double :=
  let total := double_of_Z (u64 (he_emitted h + he_dropped h)) in
  if (total =? d0)%D then d0 else (double_of_Z (he_dropped h) / total)%D.

(** *** The window's inputs *)
Definition threshold_fields (o : NumaDomainOptions) : list (string * json) :=
  [("family_minimum_demand", jfixed (DomainSolver.family_minimum_demand o));
   ("family_minimum_internal_relation", jfixed (DomainSolver.family_minimum_internal_relation o));
   ("family_minimum_self_containment", jfixed (DomainSolver.family_minimum_self_containment o));
   ("family_minimum_relative_internal", jfixed (DomainSolver.family_minimum_relative_internal o));
   ("domain_merge_ratio", jfixed (DomainSolver.domain_merge_ratio o));
   ("family_edges_per_family", jint (Z.of_nat (DomainSolver.family_edges_per_family o)));
   ("family_stability_confirmations", jint (DomainSolver.family_stability_confirmations o));
   ("domain_stability_confirmations", jint (DomainSolver.domain_stability_confirmations o));
   ("plan_confirmations", jint (DomainSolver.plan_confirmations o));
   ("maximum_threads_per_domain", jint (DomainSolver.maximum_threads_per_domain o));
   ("capacity_ratio", jfixed (DomainSolver.capacity_ratio o)); ("expand_ratio", jfixed (DomainSolver.expand_ratio o));
   ("shrink_ratio", jfixed (DomainSolver.shrink_ratio o))].
Record SelectorInput := mk_SelectorInput {
  si_hardware : HardwareGraph;
  si_demands : list ThreadDemand;
  si_edges : list RelationEdge;
  si_allowed : gmap Z (list Z);
  si_managed : Z;
  si_reader : bool;
  si_health_valid : bool;
  si_window_ready : bool;
  si_loss : double;
  si_gate_passed : bool;
  si_options : NumaDomainOptions;
}.
Definition online (h : HardwareGraph) : list Cpu := filter (λ c, cpu_online c = true) (hw_cpus h).
Definition total_demand (demands : list ThreadDemand) : double := foldl (λ s d, (s + td_demand d)%D) d0 demands.
Definition total_relation (edges : list RelationEdge) : double := foldl (λ s e, (s + re_score e)%D) d0 edges.
Definition selector_input_fields (window_id : string) (i : SelectorInput) : list (string * json) :=
  [("window_id", jraw window_id); ("strategy_id", jraw "numa-domain-v1"); ("threads", jsize (si_demands i));
   ("families", size_json (list_to_set (td_group <$> si_demands i) : gset string));
   ("relation_edges", jsize (si_edges i)); ("total_demand", jfixed (total_demand (si_demands i)));
   ("total_relation", jfixed (total_relation (si_edges i)));
   ("allowed_masks", jint (Z.of_nat (size (si_allowed i))));
   ("empty_allowed_masks", count_if (λ e, bool_decide (e.2 = [])) (items (si_allowed i)));
   ("online_cpus", jsize (online (si_hardware i)));
   ("online_nodes", size_json (list_to_set (cpu_node_id <$> online (si_hardware i)) : gset Z));
   ("current_managed_threads", jint (si_managed i)); ("bpf_reader", JBool (si_reader i));
   ("bpf_health_valid", JBool (si_health_valid i)); ("bpf_window_ready", JBool (si_window_ready i));
   ("bpf_window_loss_ratio", jfixed (si_loss i)); ("bpf_gate_passed", JBool (si_gate_passed i));
   ("thresholds", JObj (threshold_fields (si_options i)))].

(** *** The cohort of the incremental selector *)

(** The weight of the candidates' hotspots inside the next cohort, and with an end
    in it. *)
Definition cohort_coverage (o : IncrementalOptions) (candidates : list ThreadDemand) (edges : list RelationEdge)
    (next : gset Z) : double * double :=
  let '(total, internal, incident) :=
    foldl (coverage_edge next) (d0, d0, d0) (select_hotspot_edges (by_tid candidates) o edges) in
  let ratio w := if (d0 <? total)%D then (w / total)%D else d1 in
  (ratio internal, ratio incident).
Definition active_cohort_fields (window_id : string) (config : Config) (cohort : gset Z)
    (candidates active : list ThreadDemand) (edges : list RelationEdge) : list (string * json) :=
  let next := cohort_of active in
  let '(internal, incident) := cohort_coverage (RuntimeSolve.selector_options config) candidates edges next in
  [("window_id", jraw window_id); ("active_threads", jsize active); ("demand_active_threads", jsize candidates);
   ("cooled_threads", size_json (cohort ∖ next)); ("retained_managed_threads", size_json (cohort ∩ next));
   ("managed_jaccard", jfixed (jaccard cohort next));
   ("managed_internal_hotspot_coverage", jfixed internal);
   ("managed_incident_hotspot_coverage", jfixed incident);
   ("enter_threshold", jfixed (active_demand_threshold config));
   ("exit_threshold", jfixed (inactive_demand_threshold config))].
Definition incremental_plan_fields (window_id : string) (p : SolverProposal) (duration_ns : Z) : list (string * json) :=
  [("window_id", jraw window_id); ("strategy_id", jraw "incremental-hotspot-v1");
   ("phase", jraw (incremental_phase_name (sp_phase p))); ("eligible_threads", jint (sp_eligible_threads p));
   ("pinned_threads", jint (sp_pinned_threads p)); ("dirty_threads", jint (sp_dirty_threads p));
   ("candidate_threads", jint (sp_candidate_threads p));
   ("cooldown_skipped_threads", jint (sp_cooldown_skipped_threads p));
   ("migration_budget", jint (sp_migration_budget p)); ("cpu_slot_cap", jint (sp_cpu_slot_cap p));
   ("maximum_cpu_threads", jint (sp_maximum_cpu_threads p));
   ("predicted_demand_threads", jint (sp_predicted_demand_threads p));
   ("relation_edges_input", jint (sp_relation_edges_input p)); ("hotspot_edges", jint (sp_hotspot_edges p));
   ("hotspot_similarity", jfixed (sp_hotspot_similarity p));
   ("hotspot_stability_confirmation", jint (sp_hotspot_stability_confirmation p));
   ("hotspot_replan_triggered", JBool (sp_hotspot_replan_triggered p));
   ("global_replan_active", JBool (sp_global_replan_active p)); ("solve_duration_ns", jint duration_ns);
   ("confirmation", jint (sp_confirmation p)); ("initial_plan_confirmed", JBool (sp_initial_plan_confirmed p));
   ("node_overload", jfixed (sp_node_overload p)); ("relation_cost", jfixed (sp_relation_cost p));
   ("actions", actions_json (sp_actions p))].

(** ** The lines *)
Inductive Line :=
  (** the constructor and the destructor *)
  | Started (root_pid : Z) (m : Mode) (degraded capability : bool) (uprobe : string)
  | TopologyCpuLine (c : Cpu)
  | TopologyEdgeLine (h : HardwareGraph) (e : Z * Z * double)
  | ProfileLoaded (path status : string)
  | ProfileNotLoaded (path error : string)
  | FinalHealth (s : BpfHealthSnapshot)
  | ProfileExported (path : string)
  | ProfileNotExported (error : string)
  | Stopped (r : RestoreResult)
  (** lifecycle and BPF events *)
  | ThreadStart (r : LifecycleRecord)
  | ThreadName (tid : Z) (name : string)
  | ThreadExit (tid : Z)
  | ApplicationAffinity (tid : Z) (cpus : list Z) (pending : bool)
  | TaskExec (tgid tid : Z)
  | RelationIngest (input_records input_pairs retained_records retained_pairs edges_per_tid : Z)
      (numa_domains : bool) (input_weight retained_weight : double)
  | PendingOverflow (lifecycle relations : Z)
  | Paused (r : RestoreResult)
  | Resumed
  | HardFailure (component message : string)
  | HealthUnavailable (error failures : Z)
  | HealthWindow (s oldest : affinitygraph_bpf_health) (ready : bool) (loss : double) (r : BpfReaderStats)
  (** the scan of [/proc] *)
  | NumaMaps (tgid : Z) (pages : gmap Z Z)
  | ProfileMatchEmpty (tid : Z) (rule_id : string)
  | ProfileMatch (tid starttime : Z) (rule_id : string) (instance : Z) (target : list Z)
  | InitialAffinity (r : ApplyResult)
  | InitialAffinityShadow (requested : Z) (m : Mode)
  | SamplingStopped (quiescence rescan : Z)
  | CollectorFailure (message : string)
  (** a solve window *)
  | WindowBegin (window_id : string) (sequence : Z) (m : Mode)
  | ThreadWindowLine (window_id : string) (r : ThreadWindowRecord)
  | EdgeSummary (window_id : string) (edges : list RelationEdge)
  | EdgeLine (window_id : string) (e : RelationEdge)
  | SelectorOutput (window_id : string) (p : NumaDomainProposal) (duration_ns : Z)
  | DomainPlan (window_id : string) (p : NumaDomainProposal) (duration_ns : Z)
  | SelectorInputLine (window_id : string) (i : SelectorInput)
  | SelectorNotEvaluated (window_id : string)
  | ShadowCommitMasks (window_id : string) (generation : Z) (masks : gmap Z (list Z))
  | ActuatorInput (window_id : string) (threads : Z) (p : NumaDomainProposal)
  | DomainRestore (window_id : string) (r : RestoreResult)
  | ActuatorRestoreFailed (window_id : string) (r : RestoreResult)
  | DomainAction (window_id : string) (r : ApplyResult) (actions : list NumaDomainAction)
  | ActuatorApplied (window_id : string) (r : ApplyResult)
  | ActionCommitMasks (window_id : string) (generation : Z) (masks : gmap Z (list Z))
  | CohortRestore (window_id : string) (r : RestoreResult)
  | ActiveCohortLine (window_id : string) (config : Config) (cohort : gset Z) (candidates active : list ThreadDemand)
      (edges : list RelationEdge)
  | IncrementalPlan (window_id : string) (p : SolverProposal) (duration_ns : Z)
  | ShadowCommitActions (window_id : string) (generation : Z) (actions : list PlacementAction)
  | IncrementalAction (window_id : string) (r : ApplyResult) (actions : list PlacementAction)
  | ActionCommitPhase (window_id : string) (generation : Z) (phase : IncrementalPhase)
  | WindowEnd (window_id outcome : string).

Definition line_of (l : Line) : string * list (string * json) :=
  match l with
  | Started root_pid m degraded capability uprobe =>
      ("runtime_start", runtime_start_fields root_pid m degraded capability uprobe)
  | TopologyCpuLine c => ("topology_cpu", topology_cpu_fields c)
  | TopologyEdgeLine h e => ("topology_edge", topology_edge_fields h e)
  | ProfileLoaded path status =>
      ("profile_load", [("path", jstring path); ("status", jraw status); ("success", JBool true)])
  | ProfileNotLoaded path error =>
      ("profile_load", [("path", jstring path); ("success", JBool false); ("error", jstring error)])
  | FinalHealth s =>
      let h := sn_counters s in
      ("bpf_health", [("valid", JBool (sn_valid s)); ("error", jint (sn_error s)); ("emitted", jint (he_emitted h));
                      ("dropped", jint (he_dropped h)); ("loss_ratio", jfixed (final_loss h))] ++ kind_fields h ++
                     [("final", JBool true)])
  | ProfileExported path => ("profile_export", [("path", jstring path); ("status", jraw "candidate")])
  | ProfileNotExported error => ("profile_export", [("success", JBool false); ("error", jstring error)])
  | Stopped r => ("runtime_stop", restore_all_fields r)
  | ThreadStart r =>
      ("thread_start", [("tgid", jint (lc_tgid r)); ("tid", jint (lc_tid r)); ("parent_tid", jint (lc_parent_tid r));
                        ("start_routine", jint (lc_start_routine r)); ("start_symbol", jstring (lc_start_symbol r))])
  | ThreadName tid name => ("thread_name", [("tid", jint tid); ("name", jstring name)])
  | ThreadExit tid => ("thread_exit", [("tid", jint tid); ("reason", jraw "sched_process_exit")])
  | ApplicationAffinity tid cpus pending =>
      ("application_affinity", [("tid", jint tid); ("mask", jraw (format_cpu_list cpus)); ("pending", JBool pending)])
  | TaskExec tgid tid => ("task_exec", [("tgid", jint tgid); ("tid", jint tid)])
  | RelationIngest input_records input_pairs retained_records retained_pairs edges_per_tid numa input_weight retained_weight =>
      ("relation_ingest_summary",
       [("input_records", jint input_records); ("input_pairs", jint input_pairs);
        ("retained_records", jint retained_records); ("retained_pairs", jint retained_pairs);
        ("edges_per_tid", jint edges_per_tid);
        ("pruning_scope", jraw (if numa then "family_solver" else "tid_ingest"));
        ("weight_coverage", jfixed (if (d0 <? input_weight)%D then (retained_weight / input_weight)%D else d1))])
  | PendingOverflow lifecycle relations =>
      ("bpf_pending_overflow", [("lifecycle", jint lifecycle); ("relations", jint relations)])
  | Paused r => ("pause", restore_all_fields r)
  | Resumed => ("resume", [])
  | HardFailure component message => ("hard_failure", [("component", jraw component); ("message", jstring message)])
  | HealthUnavailable error failures =>
      ("bpf_health", [("valid", JBool false); ("error", jint error); ("consecutive_failures", jint failures)])
  | HealthWindow s oldest ready loss r =>
      ("bpf_health",
       [("valid", JBool true); ("emitted", jint (he_emitted s)); ("dropped", jint (he_dropped s));
        ("window_ready", JBool ready); ("window_emitted", jint (u64 (he_emitted s - he_emitted oldest)));
        ("window_dropped", jint (u64 (he_dropped s - he_dropped oldest))); ("window_loss_ratio", jfixed loss)] ++
       kind_fields s ++ reader_fields r)
  | NumaMaps tgid pages =>
      ("numa_maps", [("scope", jraw "process"); ("tgid", jint tgid); ("pages", assignments_json pages)])
  | ProfileMatchEmpty tid rule_id =>
      ("profile_match", [("tid", jint tid); ("rule_id", jstring rule_id); ("outcome", jraw "empty_allowed_intersection")])
  | ProfileMatch tid starttime rule_id instance target =>
      ("profile_match", [("tid", jint tid); ("starttime", jint starttime); ("rule_id", jstring rule_id);
                         ("instance", jint instance); ("target_cpus", jraw (format_cpu_list target))])
  | InitialAffinity r =>
      ("initial_affinity", [("requested", jint (ar_requested r)); ("committed", jint (ar_committed r));
                            ("success", JBool (ar_success r)); ("rollback_success", JBool (ar_rollback_success r))])
  | InitialAffinityShadow requested m =>
      ("initial_affinity", [("requested", jint requested);
                            ("outcome", jraw (match m with Plan => "shadow" | _ => "observed" end))])
  | SamplingStopped quiescence rescan =>
      ("sampling_stopped", [("quiescence_seconds", jint quiescence); ("sample_interval_seconds", jint 0);
                            ("rescan_seconds", jint rescan)])
  | CollectorFailure message => ("collector_failure", [("message", jstring message)])
  | SelectorInputLine w i => ("selector_input", selector_input_fields w i)
  | WindowBegin w sequence m => ("solve_window_begin", window_begin_fields w sequence (effective_mode m))
  | ThreadWindowLine w r => ("thread_window", thread_window_fields w r)
  | EdgeSummary w edges => ("relation_edge_summary", edge_summary_fields w edges)
  | EdgeLine w e => ("relation_edge", relation_edge_fields w e)
  | SelectorOutput w p duration_ns => ("selector_output", selector_output_fields w p duration_ns)
  | DomainPlan w p duration_ns => ("plan", plan_fields w p duration_ns)
  | SelectorNotEvaluated w =>
      ("selector_output", [("window_id", jraw w); ("strategy_id", jraw "numa-domain-v1"); ("evaluated", JBool false);
                           ("ready", JBool false); ("valid", JBool false); ("outcome", jraw "waiting_required_bpf");
                           ("domains", jint 0); ("controlled_threads", jint 0); ("actions", jint 0)])
  | ShadowCommitMasks w generation masks =>
      ("shadow_commit", [("window_id", jraw w); ("generation", jint generation); ("planned_masks", masks_json masks)])
  | ActuatorInput w threads p =>
      ("actuator_input", [("window_id", jraw w); ("strategy_id", jraw "numa-domain-v1"); ("live_threads", jint threads);
                          ("release_threads", size_json (np_released_tids p)); ("mask_updates", jsize (np_actions p));
                          ("forced_migrations", count_if na_forced_migration (np_actions p));
                          ("target_masks", masks_json (tid_to_mask (np_delta p)));
                          ("actions", domain_actions_json (np_actions p))])
  | DomainRestore w r => ("domain_restore", ("window_id", jraw w) :: restore_fields r)
  | ActuatorRestoreFailed w r =>
      ("actuator_output", [("window_id", jraw w); ("stage", jraw "restore"); ("success", JBool false)] ++ restore_fields r)
  | DomainAction w r actions =>
      ("action", [("window_id", jraw w); ("success", JBool (ar_success r)); ("requested", jint (ar_requested r));
                  ("committed", jint (ar_committed r)); ("vanished", jint (ar_vanished r));
                  ("rolled_back", jint (ar_rolled_back r)); ("mask_updates", jsize actions);
                  ("forced_migrations", count_if na_forced_migration actions); ("actions", domain_actions_json actions)])
  | ActuatorApplied w r =>
      ("actuator_output", [("window_id", jraw w); ("stage", jraw "apply"); ("success", JBool (ar_success r));
                           ("requested", jint (ar_requested r)); ("applied", jint (ar_applied r));
                           ("committed", jint (ar_committed r)); ("vanished", jint (ar_vanished r));
                           ("rolled_back", jint (ar_rolled_back r));
                           ("rollback_success", JBool (ar_rollback_success r)); ("error", jint (ar_error r))])
  | ActionCommitMasks w generation masks =>
      ("action_commit", [("window_id", jraw w); ("generation", jint generation); ("planned_masks", masks_json masks)])
  | CohortRestore w r => ("cohort_restore", ("window_id", jraw w) :: restore_fields r)
  | ActiveCohortLine w config cohort candidates active edges =>
      ("active_cohort", active_cohort_fields w config cohort candidates active edges)
  | IncrementalPlan w p duration_ns => ("plan", incremental_plan_fields w p duration_ns)
  | ShadowCommitActions w generation actions =>
      ("shadow_commit", [("window_id", jraw w); ("generation", jint generation); ("actions", actions_json actions)])
  | IncrementalAction w r actions =>
      ("action", [("window_id", jraw w); ("success", JBool (ar_success r)); ("requested", jint (ar_requested r));
                  ("applied", jint (ar_applied r)); ("committed", jint (ar_committed r));
                  ("vanished", jint (ar_vanished r)); ("rolled_back", jint (ar_rolled_back r));
                  ("rollback_success", JBool (ar_rollback_success r)); ("error", jint (ar_error r));
                  ("actions", actions_json actions)])
  | ActionCommitPhase w generation phase =>
      ("action_commit", [("window_id", jraw w); ("generation", jint generation);
                         ("phase", jraw (incremental_phase_name phase))])
  | WindowEnd w outcome =>
      ("solve_window_end", [("window_id", jraw w); ("complete", JBool true); ("outcome", jraw outcome)])
  end.
