(* ===== verification/EventLineProperties.v ===== *)
(** * The lines of the log: properties

    The log of any sequence of events is a file of lines, one per event, and each
    line is read back as the event's document. *)
From Stdlib Require Import SpecFloat Ascii.
From S2P Require Import Prelude Binary64 Core CpuList Actuator Topology DomainPlanner DomainSolver GraphWindow ThreadProfile.
From S2P Require Import Config ConfigProperties Hotspot Incremental IncrementalPropose Runtime RuntimeSolve BpfProbe BpfReader.
From S2P Require Import Json JsonProperties RuntimeLog RuntimeStatus DomainReplay DomainReplayProperties RuntimeLogProperties StartupLog.
From S2P Require Import Replay ReplaySequence EventLines.
Local Open Scope string_scope.
Local Open Scope Z_scope.
Local Open Scope list_scope.

(** ** What a line contains that is not checked when it is written *)

(** The strings that are written without escapes. *)
Definition raw_texts (l : Line) : list string :=
  match l with
  | ProfileLoaded _ status => [status]
  | HardFailure component _ => [component]
  | WindowEnd w outcome => [w; outcome]
  | SelectorInputLine w _ | SelectorNotEvaluated w | ShadowCommitMasks w _ _ | ActuatorInput w _ _
  | DomainRestore w _ | ActuatorRestoreFailed w _ | DomainAction w _ _ | ActuatorApplied w _ | ActionCommitMasks w _ _
  | CohortRestore w _ | ActiveCohortLine w _ _ _ _ _ | IncrementalPlan w _ _ | ShadowCommitActions w _ _
  | IncrementalAction w _ _ | ActionCommitPhase w _ _ | WindowBegin w _ _ | EdgeSummary w _ | EdgeLine w _ => [w]
  | ThreadWindowLine w r => [w; text [twr_state r]]
  | SelectorOutput w p _ | DomainPlan w p _ => w :: (nd_node_decision <$> np_domains p)
  | _ => []
  end.
Definition action_doubles (a : PlacementAction) : list double :=
  [pa_capacity_regret a; pa_relation_regret a; pa_load_regret a].
Definition threshold_doubles (o : NumaDomainOptions) : list double :=
  [DomainSolver.family_minimum_demand o; DomainSolver.family_minimum_internal_relation o;
   DomainSolver.family_minimum_self_containment o; DomainSolver.family_minimum_relative_internal o;
   DomainSolver.domain_merge_ratio o; DomainSolver.capacity_ratio o; DomainSolver.expand_ratio o;
   DomainSolver.shrink_ratio o].
Definition proposal_doubles (p : NumaDomainProposal) : list double :=
  (np_families p ≫= family_doubles) ++ (np_family_pairs p ≫= pair_doubles) ++ (np_domains p ≫= domain_doubles).
(** The numbers that could be infinite or a NaN. *)
Definition line_doubles (l : Line) : list double :=
  match l with
  | TopologyEdgeLine h e =>
      e.2 :: match node_calibration h !! e.1 with Some c => calibration_doubles c | None => [] end
  | ThreadWindowLine _ r => [twr_demand r; twr_confidence r]
  | EdgeLine _ e => edge_doubles e
  | SelectorOutput _ p _ | DomainPlan _ p _ => proposal_doubles p
  | FinalHealth s => [final_loss (sn_counters s)]
  | RelationIngest _ _ _ _ _ _ input retained => [if (d0 <? input)%D then (retained / input)%D else d1]
  | HealthWindow _ _ _ loss _ => [loss]
  | SelectorInputLine _ i =>
      [total_demand (si_demands i); total_relation (si_edges i); si_loss i] ++ threshold_doubles (si_options i)
  | ActiveCohortLine _ config cohort candidates active edges =>
      let c := cohort_coverage (RuntimeSolve.selector_options config) candidates edges (cohort_of active) in
      [jaccard cohort (cohort_of active); c.1; c.2; active_demand_threshold config; inactive_demand_threshold config]
  | IncrementalPlan _ p _ =>
      [sp_hotspot_similarity p; sp_node_overload p; sp_relation_cost p] ++ (sp_actions p ≫= action_doubles)
  | ShadowCommitActions _ _ actions | IncrementalAction _ _ actions => actions ≫= action_doubles
  | _ => []
  end.
Definition readable_line (l : Line) : bool :=
  forallb (λ s, forallb plain (chars s)) (raw_texts l) && forallb disfinite (line_doubles l).

(** ** Each line is a document *)
Abbreviation member_ok := (λ kv : string * json, forallb plain (chars kv.1) = true ∧ well_formed kv.2 = true).
Lemma jraw_plain s : forallb plain (chars s) = true → well_formed (jraw s) = true.
Proof. done. Qed.
Lemma size_well_formed {A} `{Countable A} (s : gset A) : well_formed (size_json s) = true.
Proof. apply jint_well_formed. Qed.
Lemma jsize_well_formed {A} (l : list A) : well_formed (jsize l) = true.
Proof. apply jint_well_formed. Qed.
Lemma count_if_well_formed {A} (p : A → bool) l : well_formed (count_if p l) = true.
Proof. apply jint_well_formed. Qed.
Lemma kind_counts_well_formed counts : well_formed (bpf_kind_counts_json counts) = true.
Proof.
  unfold bpf_kind_counts_json. apply object_well_formed.
  assert (Hk : forallb (λ s, forallb plain (chars s)) kind_names = true) by reflexivity.
  revert Hk. generalize kind_names (drop 1 counts). intros names.
  induction names as [|name names IH]; intros l Hk; [constructor|]. destruct l as [|n l]; [constructor|].
  cbn in Hk. apply andb_true_iff in Hk as [Hn Hk]. constructor; [|by apply IH]. split; [done|apply jint_well_formed].
Qed.
Lemma actions_well_formed actions :
  forallb disfinite (actions ≫= action_doubles) = true → well_formed (actions_json actions) = true.
Proof.
  intros H. apply mapped_array_well_formed. intros a Ha.
  assert (Hf : forallb disfinite (action_doubles a) = true).
  { rewrite forallb_forall in *. intros d Hd. apply H, list_elem_of_In, list_elem_of_bind. exists a.
    split; [by apply list_elem_of_In|done]. }
  unfold action_doubles in Hf. cbn [forallb] in Hf. rewrite !andb_true_iff in Hf. destruct Hf as (?&?&?&_). document.
Qed.
Lemma domain_actions_well_formed actions : well_formed (domain_actions_json actions) = true.
Proof. apply mapped_array_well_formed. intros a _. apply domain_action_well_formed. Qed.
#[local] Hint Resolve jraw_plain size_well_formed jsize_well_formed count_if_well_formed kind_counts_well_formed
  actions_well_formed domain_actions_well_formed : documents.
Ltac fields := members; first [reflexivity | solve [eauto with documents] | idtac].

Lemma restore_fields_ok r : Forall member_ok (restore_fields r).
Proof. fields. Qed.
Lemma restore_all_fields_ok r : Forall member_ok (restore_all_fields r).
Proof. fields. Qed.
Lemma kind_fields_ok h : Forall member_ok (kind_fields h).
Proof. fields. Qed.
Lemma reader_fields_ok r : Forall member_ok (reader_fields r).
Proof. fields. Qed.
Lemma threshold_fields_ok o : forallb disfinite (threshold_doubles o) = true → well_formed (JObj (threshold_fields o)) = true.
Proof.
  unfold threshold_doubles. cbn [forallb]. rewrite !andb_true_iff. intros (?&?&?&?&?&?&?&?&_). apply object_well_formed. fields.
Qed.
Lemma phase_name_plain ph : forallb plain (chars (incremental_phase_name ph)) = true.
Proof. by destruct ph. Qed.
#[local] Hint Resolve threshold_fields_ok phase_name_plain : documents.

(** The fields of a document. *)
Lemma document_fields now type fields : well_formed (log_document now type fields) = true → Forall member_ok fields.
Proof.
  intros H. unfold log_document in H. cbn [well_formed forallb] in H.
  apply andb_true_iff in H as [_ H]. apply andb_true_iff in H as [_ H].
  apply Forall_forall. intros kv Hkv. rewrite forallb_forall in H. by apply andb_true_iff, H, list_elem_of_In.
Qed.
Lemma effective_mode_plain m : forallb plain (chars (effective_mode m)) = true.
Proof. by destruct m. Qed.
#[local] Hint Resolve effective_mode_plain : documents.
Lemma bind_finite {A} (f : A → list double) l a :
  forallb disfinite (l ≫= f) = true → a ∈ l → Forall (λ d, disfinite d = true) (f a).
Proof.
  rewrite forallb_forall, Forall_forall. intros H Ha d Hd. apply H, list_elem_of_In, list_elem_of_bind. eauto.
Qed.
Lemma proposal_printable p :
  forallb disfinite (proposal_doubles p) = true →
  forallb (λ s, forallb plain (chars s)) (nd_node_decision <$> np_domains p) = true → printable_proposal p.
Proof.
  unfold proposal_doubles. rewrite !forallb_app, !andb_true_iff. intros (Hf & Hp & Hd) Hn. split; intros m Hm.
  - by apply (bind_finite family_doubles (np_families p)).
  - by apply (bind_finite pair_doubles (np_family_pairs p)).
  - by apply (bind_finite domain_doubles (np_domains p)).
  - rewrite forallb_forall in Hn. apply Hn, list_elem_of_In, list_elem_of_fmap. eauto.
Qed.

Ltac proposal_line :=
  lazymatch goal with
  | |- Forall _ (plan_fields _ _ ?ns) => by eapply document_fields, (plan_line_well_formed 0), proposal_printable
  | |- Forall _ (selector_output_fields _ _ ?ns) =>
      by eapply document_fields, (selector_output_well_formed 0), proposal_printable
  | _ => idtac
  end.

Lemma line_members_ok l : readable_line l = true → Forall member_ok (line_of l).2.
Proof.
  unfold readable_line. intros [Ht Hd]%andb_true_iff.
  destruct l; cbn [raw_texts line_doubles line_of snd forallb] in *; rewrite ?forallb_app in *; cbn [forallb] in *;
    rewrite ?andb_true_iff in *; destruct_and?;
    rewrite ?Forall_app; repeat match goal with |- _ ∧ _ => split end;
    proposal_line; try apply restore_fields_ok; try apply restore_all_fields_ok; try apply kind_fields_ok; try apply reader_fields_ok;
    try (by fields).
  - unfold topology_edge_fields. apply Forall_app. split; [by fields|].
    destruct (node_calibration h !! e.1); [by apply calibration_fields_ok|constructor].
  - destruct numa_domains; by fields.
  - destruct m; by fields.
  - unfold edge_doubles in Hd. cbn [forallb] in Hd. rewrite !andb_true_iff in Hd. destruct_and!.
    unfold relation_edge_fields. by fields.
  - unfold active_cohort_fields. destruct (cohort_coverage _ _ _ _) as [internal incident]. by fields.
Qed.
Definition event_line (now : Z) (l : Line) : list ascii := log_line now (line_of l).1 (line_of l).2.
Definition event_document (now : Z) (l : Line) : json := log_document now (line_of l).1 (line_of l).2.
Lemma line_type_plain l : forallb plain (chars (line_of l).1) = true.
Proof. by destruct l. Qed.
Lemma event_document_well_formed now l : readable_line l = true → well_formed (event_document now l) = true.
Proof. intros H. apply logged_object; [apply line_type_plain|by apply line_members_ok]. Qed.

(** ** One line per event *)
Lemma escape_one_line s : line_feed ∉ json_escape s.
Proof.
  induction s as [|c s IH]; [apply not_elem_of_nil|]. change (json_escape (c :: s)) with (escape_char c ++ json_escape s).
  rewrite not_elem_of_app. split; [|done]. unfold escape_char. case_bool_decide as Eq; cbn [orb].
  { subst c. rewrite !not_elem_of_cons. split_and!; [done..|apply not_elem_of_nil]. }
  case_bool_decide as Eb; cbn [orb].
  { subst c. rewrite !not_elem_of_cons. split_and!; [done..|apply not_elem_of_nil]. }
  case_bool_decide as El; [rewrite !not_elem_of_cons; split_and!; [done..|apply not_elem_of_nil]|].
  destruct (32 <=? nat_of_ascii c)%nat; [|apply not_elem_of_nil]. rewrite not_elem_of_cons.
  split; [congruence|apply not_elem_of_nil].
Qed.
Lemma forallb_one_line (p : ascii → bool) l : p line_feed = false → forallb p l = true → line_feed ∉ l.
Proof. rewrite forallb_forall. intros Hp H Hin%list_elem_of_In. specialize (H _ Hin). congruence. Qed.
Lemma quoted_one_line s : line_feed ∉ s → line_feed ∉ quoted s.
Proof.
  intros H. unfold quoted. rewrite not_elem_of_cons, not_elem_of_app, not_elem_of_cons.
  split_and!; [done..|apply not_elem_of_nil].
Qed.
Lemma commas_one_line {A} (f : A → list ascii) l : (∀ a, a ∈ l → line_feed ∉ f a) → line_feed ∉ commas (f <$> l).
Proof.
  induction l as [|a l IH]; intros H; [apply not_elem_of_nil|]. destruct l as [|b l]; [apply H; set_solver|].
  cbn [fmap list_fmap commas]. rewrite not_elem_of_app, not_elem_of_cons.
  split_and!; [apply H; set_solver|done|]. apply IH. set_solver.
Qed.
Lemma render_one_line v : well_formed v = true → line_feed ∉ render v.
Proof.
  induction v as [t|s|s|b|l IH|l IH] using json_nested_ind; cbn [well_formed render]; intros Hw.
  - apply andb_true_iff in Hw as [_ Hw]. by apply (forallb_one_line number_char).
  - apply quoted_one_line, escape_one_line.
  - apply quoted_one_line. by apply (forallb_one_line plain).
  - by apply (forallb_one_line (λ c, negb (bool_decide (c = line_feed)))); [|destruct b].
  - rewrite not_elem_of_cons, not_elem_of_app, not_elem_of_cons.
    split_and!; [done|apply commas_one_line|done|apply not_elem_of_nil].
    rewrite forallb_forall in Hw. rewrite Forall_forall in IH. intros v Hv. apply IH; [done|]. by apply Hw, list_elem_of_In.
  - rewrite not_elem_of_cons, not_elem_of_app, not_elem_of_cons.
    split_and!; [done|apply commas_one_line|done|apply not_elem_of_nil].
    rewrite forallb_forall in Hw. rewrite Forall_forall in IH. intros kv Hv.
    pose proof (Hw kv (proj1 (list_elem_of_In _ _) Hv)) as [Hk Hwv]%andb_true_iff.
    rewrite not_elem_of_app, not_elem_of_cons. split_and!; [|done|by apply IH].
    apply quoted_one_line. by apply (forallb_one_line plain).
Qed.

(** The file after a sequence of events. *)
Definition log_file (events : list (Z * Line)) : list ascii :=
  events ≫= λ e, event_line e.1 e.2 ++ [line_feed].
Lemma log_file_split events : forallb (λ e, readable_line e.2) events = true →
  getlines line_feed (log_file events) = (λ e, event_line e.1 e.2) <$> events.
Proof.
  unfold getlines. induction events as [|[now l] events IH]; intros H; [done|].
  cbn [forallb snd] in H. apply andb_true_iff in H as [Hl H].
  change (log_file ((now, l) :: events)) with ((event_line now l ++ [line_feed]) ++ log_file events).
  rewrite <- app_assoc. cbn [app]. rewrite getlines_aux_app by (by apply render_one_line, event_document_well_formed).
  cbn [fmap list_fmap]. f_equal. by apply IH.
Qed.

(** Without control characters nothing is dropped: a string is read as it was. *)
Fixpoint control_free (v : json) : bool :=
  match v with
  | JStr s => forallb printable s
  | JArr l => forallb control_free l
  | JObj l => forallb (λ kv, control_free kv.2) l
  | _ => true
  end.
Fixpoint as_strings (v : json) : json :=
  match v with
  | JStr s | JRaw s => JStr s
  | JArr l => JArr (as_strings <$> l)
  | JObj l => JObj ((λ kv, (kv.1, as_strings kv.2)) <$> l)
  | v => v
  end.
Lemma filter_all (s : list ascii) : forallb printable s = true → filter (λ c, printable c = true) s = s.
Proof.
  induction s as [|c s IH]; [done|]. cbn [forallb]. intros [Hc Hs]%andb_true_iff.
  by rewrite filter_cons_True, IH.
Qed.
Lemma meaning_control_free v : control_free v = true → meaning v = as_strings v.
Proof.
  induction v as [t|s|s|b|l IH|l IH] using json_nested_ind; cbn [control_free meaning as_strings]; intros Hc; try done.
  - by rewrite filter_all.
  - f_equal. rewrite forallb_forall in Hc. rewrite Forall_forall in IH. apply list_fmap_ext. intros i v Hv.
    apply list_elem_of_lookup_2 in Hv. apply IH; [done|]. by apply Hc, list_elem_of_In.
  - f_equal. rewrite forallb_forall in Hc. rewrite Forall_forall in IH. apply list_fmap_ext. intros i kv Hv.
    apply list_elem_of_lookup_2 in Hv. f_equal. apply IH; [done|]. by apply (Hc kv), list_elem_of_In.
Qed.

(** C38: the log is a file of JSON lines.  For every sequence of calls of [log], of any
    of its kinds, with finite numbers and with the names that are written without
    escapes plain, splitting the file at its line feeds gives one line per call, in
    order; each line is a text of the JSON grammar, and [parse_document], the reader
    of that grammar in this development, reads it as the call's type and fields:
    numbers as the text they are written with, and strings without their control
    characters other than line feeds, which [json_escape] drops; a line whose strings
    have none is read exactly as it was written. *)
Theorem log_file_read_back events :
  forallb (λ e, readable_line e.2) events = true →
  parse_document <$> getlines line_feed (log_file events) =
    (λ e, Some (meaning (event_document e.1 e.2))) <$> events ∧
  (∀ e, e ∈ events → well_formed (event_document e.1 e.2) = true ∧
     (control_free (event_document e.1 e.2) = true →
      meaning (event_document e.1 e.2) = as_strings (event_document e.1 e.2))).
Proof.
  intros H. assert (Hw : ∀ e, e ∈ events → well_formed (event_document e.1 e.2) = true).
  { intros e He. apply event_document_well_formed. rewrite forallb_forall in H. by apply (H e), list_elem_of_In. }
  split; [|intros e He; split; [by apply Hw|apply meaning_control_free]].
  rewrite log_file_split by done. rewrite <- list_fmap_compose. apply list_fmap_ext.
  intros i [now l] Hi. unfold compose. cbn [fst snd]. apply (document_read_back (event_document now l)).
  by apply (Hw (now, l)), (list_elem_of_lookup_2 _ i).
Qed.
Definition demo_log_events : list (Z * Line) :=
  [(1, HardFailure "bpf" (text (dq :: backslash :: line_feed :: chars " lost")));
   (2, ThreadName 7 "worker"); (3, Resumed); (4, ApplicationAffinity 7 [0; 1; 2; 5] false);
   (5, WindowEnd "7-1-1" "planned"); (6, WindowBegin "7-1-1" 1 Plan); (7, EdgeLine "7-1-1" demo_relation);
   (8, ThreadWindowLine "7-1-1" (demo_record 11 (dlit 1 2)));
   (9, TopologyEdgeLine calibrated_board ((0, 1), dlit 215 10)); (10, DomainPlan "7-1-1" demo_proposal 3)].
Lemma log_file_read_back_witness :
  length (getlines line_feed (log_file demo_log_events)) = 10%nat ∧
  parse_document <$> getlines line_feed (log_file demo_log_events) =
    (λ e, Some (meaning (event_document e.1 e.2))) <$> demo_log_events.
Proof. split; [vm_compute; reflexivity|]. apply log_file_read_back. vm_compute. reflexivity. Defined.
