(* ===== verification/ReplayReport.v ===== *)
(** * The reports of the replay tools ([src/affinity_replay.cpp], [src/affinity_domain_replay.cpp])

    The text of the three JSON reports with its white space, and [main] of
    [affinity-domain-replay].  Numbers are printed with [std::setprecision(17)]. *)
From Stdlib Require Import SpecFloat Ascii.
From S2P Require Import Prelude Binary64 Core CpuList Actuator Topology DomainPlanner DomainSolver Config ConfigProperties.
From S2P Require Import Json RuntimeLog DomainReplay Replay ReplaySequence.
Local Open Scope string_scope.
Local Open Scope Z_scope.
Local Open Scope list_scope.

(** ** Layout *)
Definition spaces (n : nat) : list ascii := replicate n " "%char.
(** One item per line, indented by [n]. *)
Fixpoint lines (n : nat) (l : list (list ascii)) : list ascii :=
  match l with
  | [] => []
  | [x] => spaces n ++ x ++ [line_feed]
  | x :: l' => spaces n ++ x ++ ","%char :: line_feed :: lines n l'
  end.
(** Items on one line. *)
Fixpoint inline (l : list (list ascii)) : list ascii :=
  match l with
  | [] => []
  | [x] => x
  | x :: l' => x ++ ","%char :: " "%char :: inline l'
  end.
Definition field (key : string) (value : list ascii) : list ascii :=
  quoted (chars key) ++ ":"%char :: " "%char :: value.
Definition flat_field (kv : string * json) : list ascii := field kv.1 (render kv.2).
(** The closing bracket of a block is indented by [n]. *)
Definition object_block (n : nat) (fields : list (list ascii)) : list ascii :=
  "{"%char :: line_feed :: lines (n + 2) fields ++ spaces n ++ ["}"%char].
Definition array_block (n : nat) (items : list (list ascii)) : list ascii :=
  "["%char :: line_feed :: lines (n + 2) items ++ spaces n ++ ["]"%char].
Definition object_line (fields : list (string * json)) : list ascii :=
  "{"%char :: inline (flat_field <$> fields) ++ ["}"%char].

(** ** The report of a snapshot *)
Definition assignment_fields (row : ThreadIdentity * Z) : list (string * json) :=
  [("tgid", jint (tgid row.1)); ("tid", jint (tid row.1)); ("starttime", jint (starttime row.1));
   ("cpu", jint row.2)].
Definition gate_fields (r : ReplayResult) : list (string * json) :=
  ((λ g, (g.1, JBool g.2)) <$> rr_gates r) ++ [("passed", JBool (rr_passed r))].
(** [None] when one of the two unchecked accesses fails. *)
Definition metric_fields (m : Metrics) : option (list (string * json)) :=
  p95 ← me_p95_threads_per_cpu m;
  demand ← me_max_cpu_demand m;
  Some [("max_threads_per_cpu", jint (me_max_threads_per_cpu m));
        ("p95_threads_per_cpu", jprecise p95);
        ("thread_count_cv", jprecise (me_thread_count_cv m));
        ("thread_count_gini", jprecise (me_thread_count_gini m));
        ("max_cpu_demand", jprecise demand);
        ("relation_weighted_latency", jprecise (me_relation_weighted_latency m));
        ("same_cpu_edge_weight", jprecise (me_same_cpu_edge_weight m));
        ("active_migrations", jint (me_active_migrations m));
        ("inactive_migrations", jint (me_inactive_migrations m));
        ("migration_cost", jprecise (me_migration_cost m));
        ("migration_distance", jprecise (me_migration_distance m));
        ("group_locality", jprecise (me_group_locality m));
        ("group_nonlocality", jprecise (me_group_nonlocality m));
        ("mean_group_cpu_spread", jprecise (me_mean_group_cpu_spread m));
        ("cpu_demand_overload", jprecise (me_cpu_demand_overload m));
        ("node_demand_overload", jprecise (me_node_demand_overload m));
        ("solve_ms", jprecise (me_solve_ms m))].
Definition snapshot_block (r : ReplayResult) (metrics : list (string * json)) : list ascii :=
  object_block 0
    [field "schema" (render (jraw "affinitygraph.replay-result.v1"));
     field "window_id" (render (jstring (rr_window_id r)));
     field "strategy_id" (render (jstring (rr_strategy_id r)));
     field "assignments" (array_block 2 (object_line <$> (assignment_fields <$> rr_assignments r)));
     field "gates" (object_block 2 (flat_field <$> gate_fields r));
     field "metrics" (object_block 2 (flat_field <$> metrics))] ++ [line_feed].
Definition snapshot_report (r : ReplayResult) : option (list ascii) :=
  metrics ← metric_fields (rr_metrics r); Some (snapshot_block r metrics).

(** ** The report of a sequence *)
Definition sequence_fields (f : SequenceFrameResult) (p95_locality : double) : list (string * json) :=
  [("timestamp_ns", jint (fr_timestamp_ns f)); ("window_id", jstring (fr_window_id f));
   ("phase", jraw (fr_phase f)); ("demand_active", jint (fr_demand_active f)); ("managed", jint (fr_managed f));
   ("retained_managed", jint (fr_retained_managed f)); ("replaced_managed", jint (fr_replaced_managed f));
   ("managed_jaccard", jprecise (fr_managed_jaccard f));
   ("managed_internal_hotspot_coverage", jprecise (fr_managed_internal_hotspot_coverage f));
   ("managed_incident_hotspot_coverage", jprecise (fr_managed_incident_hotspot_coverage f));
   ("eligible", jint (fr_eligible f)); ("pinned", jint (fr_pinned f)); ("dirty", jint (fr_dirty f));
   ("candidates", jint (fr_candidates f)); ("budget", jint (fr_budget f)); ("actions", jint (fr_actions f));
   ("cpu_slot_cap", jint (fr_cpu_slot_cap f)); ("maximum_cpu_threads", jint (fr_maximum_cpu_threads f));
   ("predicted_demand_threads", jint (fr_predicted_demand_threads f));
   ("relation_edges_input", jint (fr_relation_edges_input f)); ("hotspot_edges", jint (fr_hotspot_edges f));
   ("hotspot_similarity", jprecise (fr_hotspot_similarity f));
   ("hotspot_stability_confirmation", jint (fr_hotspot_stability_confirmation f));
   ("hotspot_replan_triggered", JBool (fr_hotspot_replan_triggered f));
   ("relation_node_locality", jprecise (fr_relation_node_locality f));
   ("p95_relation_node_locality", jprecise p95_locality);
   ("same_cpu_relation_ratio", jprecise (fr_same_cpu_relation_ratio f));
   ("hotspot_node_locality", jprecise (fr_hotspot_node_locality f));
   ("hotspot_same_cpu_ratio", jprecise (fr_hotspot_same_cpu_ratio f));
   ("cross_node_hotspot_weight", jprecise (fr_cross_node_hotspot_weight f));
   ("minimum_node_utilization", jprecise (fr_minimum_node_utilization f));
   ("maximum_node_utilization", jprecise (fr_maximum_node_utilization f));
   ("generation", jint (fr_generation f)); ("effective", JBool (fr_effective f));
   ("solve_ms", jprecise (fr_solve_ms f)); ("assignments", assignments_json (fr_placement f))].
Definition sequence_row (f : SequenceFrameResult) : option (list (string * json)) :=
  p95 ← fr_p95_relation_node_locality f; Some (sequence_fields f p95).

(** The two reports over frames have one form: fields, then the frames. *)
Definition frames_block (head : list (string * json)) (rows : list (list (string * json))) : list ascii :=
  object_block 0 ((flat_field <$> head) ++ [field "frames" (array_block 2 (object_line <$> rows))]) ++ [line_feed].
Definition summary_head (schema : string) (strategy_id : json) (deterministic : bool) (p95 : double) :
    list (string * json) :=
  [("schema", jraw schema); ("strategy_id", strategy_id); ("deterministic", JBool deterministic);
   ("solve_p95_ms", jprecise p95); ("solve_below_1s", JBool (p95 <? double_of_Z 1000)%D)].
Definition sequence_report (strategy_id : string) (deterministic : bool) (frames : list SequenceFrameResult) :
    option (list ascii) :=
  p95 ← percentile (fr_solve_ms <$> frames) (dlit 95 100);
  rows ← mapM sequence_row frames;
  Some (frames_block (summary_head "affinitygraph.replay-sequence-result.v1" (jstring strategy_id) deterministic p95) rows).

(** What [affinity-replay] writes. *)
Definition report_text (r : ReplayReport) : option (list ascii) :=
  match r with
  | SnapshotReport r => snapshot_report r
  | SequenceReport strategy_id deterministic _ frames => sequence_report strategy_id deterministic frames
  end.

(** ** The report of the domain selector *)
Definition anchor_json (m : FamilyMetric) : json :=
  JObj [("name", jstring (fm_name m)); ("cohesive", JBool (fm_cohesive_anchor m));
        ("cross_pending", JBool (fm_cross_pending m)); ("cross_seed", JBool (fm_cross_seed m))].
Definition anchors_json (families : list FamilyMetric) : json :=
  JArr (anchor_json <$> filter (λ m, fm_anchor m = true) families).
Definition pair_report_json (p : FamilyPairMetric) : json :=
  JObj [("left", jstring (fp_left p)); ("right", jstring (fp_right p));
        ("cross_relation", jprecise (fp_cross_relation p)); ("denominator", jprecise (fp_denominator p));
        ("merge_ratio", jprecise (fp_merge_ratio p)); ("endpoints_eligible", JBool (fp_endpoints_eligible p));
        ("qualifies", JBool (fp_qualifies p)); ("confirmation", jint (fp_confirmation p));
        ("confirmed", JBool (fp_confirmed p))].
Definition domain_report_json (d : NumaDomain) : json :=
  JObj [("id", jstring (nd_id d)); ("families", JArr (jstring <$> nd_families d));
        ("thread_count", jsize (nd_tids d)); ("demand", jprecise (nd_demand d));
        ("capacity_limit", jprecise (nd_capacity_limit d)); ("capacity_headroom", jprecise (nd_capacity_headroom d));
        ("background_demand", jprecise (nd_background_demand d));
        ("initial_migrations", jint (nd_initial_migrations d)); ("node_decision", jraw (nd_node_decision d));
        ("target_nodes", JArr (jint <$> nd_target_nodes d))].
Definition domain_frame_fields (f : FrameResult) : list (string * json) :=
  [("window_id", jstring (DomainReplay.fr_window_id f)); ("ready", JBool (fr_ready f)); ("valid", JBool (fr_valid f));
   ("solve_ms", jprecise (DomainReplay.fr_solve_ms f)); ("anchors", anchors_json (fr_families f));
   ("family_pairs", JArr (pair_report_json <$> fr_family_pairs f));
   ("domains", JArr (domain_report_json <$> fr_domains f))].
Definition domain_report (deterministic : bool) (frames : list FrameResult) : option (list ascii) :=
  p95 ← percentile (DomainReplay.fr_solve_ms <$> frames) (dlit 95 100);
  Some (frames_block (summary_head "affinitygraph.domain-replay-result.v1" (jraw "numa-domain-v1") deterministic p95)
          (domain_frame_fields <$> frames)).

(** ** [main] of [affinity-domain-replay] *)
Record DomainArgs := mk_DomainArgs { da_runtime_log : string; da_config : string; da_output : string }.
Definition domain_usage : exn :=
  runtime_error "usage: affinity-domain-replay --runtime-log FILE --config FILE --output FILE".
Fixpoint read_domain_args (argv : list string) (a : DomainArgs) : result DomainArgs :=
  match argv with
  | [] => Ok a
  | [_] => Throw domain_usage
  | option :: value :: rest =>
      if String.eqb option "--runtime-log" then read_domain_args rest (mk_DomainArgs value (da_config a) (da_output a))
      else if String.eqb option "--config" then read_domain_args rest (mk_DomainArgs (da_runtime_log a) value (da_output a))
      else if String.eqb option "--output" then read_domain_args rest (mk_DomainArgs (da_runtime_log a) (da_config a) value)
      else Throw domain_usage
  end.
Definition checked_domain_args (argv : list string) : result DomainArgs :=
  a ← read_domain_args argv (mk_DomainArgs "" "" "");
  if empty_text (da_runtime_log a) || empty_text (da_config a) || empty_text (da_output a)
  then Throw domain_usage else Ok a.

(** The files and the environment, whether an output can be opened, and the
    measured times of the two replays. *)
Record DomainReplayEnv := mk_DomainReplayEnv {
  de_config : string → option string;
  de_affinity_cpus : option string;
  de_thread_profile : option string;
  de_kernel : option (Z → bool);
  de_log : string → option (list (list ascii));
  de_opens : string → bool;
  de_first_clock : nat → double;
  de_second_clock : nat → double;
}.
Section domain_main.
Context (read_json : list ascii → result ptree) (env : DomainReplayEnv).

(** The flag and the frames that are written. *)
Definition domain_main (argv : list string) : result (bool * list FrameResult) :=
  a ← checked_domain_args argv;
  config ← load_config (da_config a) (de_config env (da_config a)) "" (de_affinity_cpus env) (de_thread_profile env)
             (de_kernel env);
  '(hardware, frames) ← read_runtime_log read_json (da_runtime_log a) (de_log env (da_runtime_log a));
  let options := replay_options config in
  results ← replay hardware options (de_first_clock env) frames;
  repeated ← replay hardware options (de_second_clock env) frames;
  if negb (de_opens env (da_output a)) then Throw (runtime_error ("cannot open output: " +:+ da_output a)) else
  Ok (same_results results repeated, results).
Definition domain_status (r : result (bool * list FrameResult)) : Z := match r with Ok _ => 0 | Throw _ => 1 end.
End domain_main.
