(* ===== verification/ReplayProperties.v ===== *)
(** * The replay of snapshots: properties

    What the verdict on a snapshot means, and that the tool never fails on a
    placement its own solver made. *)
From Stdlib Require Import SpecFloat Ascii.
From S2P Require Import Prelude Binary64 Core CpuList Topology Hotspot Incremental IncrementalPropose.
From S2P Require Import DomainSolver DomainSolverFacts SnapshotSolver SnapshotProperties DomainReplay Replay.
Local Open Scope string_scope.
Local Open Scope Z_scope.

Section verdict.
Context (options : Strategy) (hardware : HardwareGraph) (threads : list ThreadDemand).
Context (edges : list RelationEdge) (placement : Placement).

(** The threads a placement puts on a CPU. *)
Definition threads_on (cpu : Z) : list ThreadDemand :=
  filter (λ t, pl_tid_to_cpu placement !! td_tid t = Some cpu) threads.

Lemma tally_counts_from l a cpu :
  default 0 (ta_counts (foldl (tally_thread options hardware placement) a l) !! cpu) =
  default 0 (ta_counts a !! cpu) +
  Z.of_nat (length (filter (λ t, pl_tid_to_cpu placement !! td_tid t = Some cpu) l)).
Proof.
  revert a. induction l as [|t l IH]; intros a; cbn [foldl]; [cbn; lia|]. rewrite IH, filter_cons.
  unfold tally_thread. destruct (pl_tid_to_cpu placement !! td_tid t) as [c|] eqn:E; [|by rewrite decide_False].
  cbn [ta_counts]. destruct (decide (c = cpu)) as [->|Hc].
  - rewrite decide_True, lookup_insert_eq by done. cbn [from_option id length]. lia.
  - rewrite decide_False, lookup_insert_ne by (done || congruence). done.
Qed.
(** The counts are the number of threads on each CPU. *)
Lemma tally_counts cpu :
  default 0 (ta_counts (tally options hardware threads placement) !! cpu) = Z.of_nat (length (threads_on cpu)).
Proof.
  unfold tally. rewrite tally_counts_from. cbn [ta_counts].
  assert (H : ∀ (m : gmap Z Z), default 0 (m !! cpu) = 0 →
    default 0 (foldl (λ m c, <[cpu_id c := 0]> m) m (hw_cpus hardware) !! cpu) = 0).
  { induction (hw_cpus hardware) as [|c l IH]; intros m Hm; cbn; [done|]. apply IH.
    destruct (decide (cpu_id c = cpu)) as [->|]; [by rewrite lookup_insert_eq|by rewrite lookup_insert_ne]. }
  rewrite H by done. done.
Qed.

Lemma foldl_max_ge (l : list (Z * Z)) m :
  m ≤ foldl (λ m e, if m <? e.2 then e.2 else m) m l ∧
  ∀ e, e ∈ l → e.2 ≤ foldl (λ m e, if m <? e.2 then e.2 else m) m l.
Proof.
  revert m. induction l as [|x l IH]; intros m; cbn [foldl]; [split; [lia|set_solver]|].
  destruct (IH (if m <? x.2 then x.2 else m)) as [H1 H2].
  assert (m ≤ (if m <? x.2 then x.2 else m) ∧ x.2 ≤ if m <? x.2 then x.2 else m) as [??]
    by (destruct (m <? x.2) eqn:E; lia).
  split; [lia|]. intros e [->|He]%elem_of_cons; [lia|by apply H2].
Qed.
Lemma max_count_ge cpu : Z.of_nat (length (threads_on cpu)) ≤ max_count options hardware threads placement.
Proof.
  rewrite <- tally_counts. unfold max_count.
  set (m := ta_counts _). assert (0 ≤ match items m with [] => 0 | e :: l => foldl (λ m e, if m <? e.2 then e.2 else m) e.2 l end).
  { destruct (items m) as [|[c n] l] eqn:E; [lia|]. destruct (foldl_max_ge l n) as [Hn _].
    pose proof (tally_counts c) as Hc. fold m in Hc.
    assert (Hm : m !! c = Some n) by (apply elem_of_items; rewrite E; set_solver).
    rewrite Hm in Hc. cbn in Hc |- *. lia. }
  destruct (m !! cpu) as [n|] eqn:Hm; cbn [from_option id]; [|done].
  apply elem_of_items in Hm. destruct (items m) as [|e l]; [set_solver|].
  destruct (foldl_max_ge l e.2) as [H1 H2].
  apply elem_of_cons in Hm as [<-|Hm]; [done|]. by apply (H2 (cpu, n)).
Qed.

(** a result that passes the gates places every thread on a CPU of the
    envelope, and no CPU gets more threads than the slot cap; the count is of
    threads, not of the entries of a map. *)
Theorem gates_sound deterministic solve_ms :
  NoDup (td_tid <$> threads) → (∀ t, is_Some (pl_tid_to_cpu placement !! t) → t ∈ td_tid <$> threads) →
  gates_pass options hardware threads placement deterministic solve_ms = true →
  (∀ t, t ∈ threads → ∃ cpu, pl_tid_to_cpu placement !! td_tid t = Some cpu ∧ cpu ∈ cpu_id <$> hw_cpus hardware) ∧
  (∀ cpu, Z.of_nat (length (threads_on cpu)) ≤ slot_cap options hardware threads).
Proof.
  intros Hnd Hdom H. unfold gates_pass in H. bool_hyps. split.
  - intros t Ht. 
    assert (Hp : is_Some (pl_tid_to_cpu placement !! td_tid t)).
    { apply elem_of_dom.
      assert (Hsub : dom (pl_tid_to_cpu placement) ⊆ (list_to_set (td_tid <$> threads) : gset Z)).
      { intros x Hx%elem_of_dom. apply elem_of_list_to_set. by apply Hdom. }
      assert (Heq : dom (pl_tid_to_cpu placement) ≡ (list_to_set (td_tid <$> threads) : gset Z)).
      { apply set_subseteq_size_equiv; [done|]. rewrite size_dom, size_list_to_set, length_fmap by done.
        unfold complete in *. match goal with H : Nat.eqb _ _ = true |- _ => apply Nat.eqb_eq in H; lia end. }
      rewrite Heq. apply elem_of_list_to_set, list_elem_of_fmap. eauto. }
    destruct Hp as [cpu Hc]. exists cpu. split; [exact Hc|].
    match goal with H : inside _ _ = true |- _ => unfold inside in H; rewrite forallb_forall in H; 
      specialize (H (td_tid t, cpu)) end.
    apply elem_of_items, list_elem_of_In in Hc.
    match goal with H : In _ _ → _ |- _ => by apply H, bool_decide_eq_true in Hc end.
  - intros cpu. pose proof (max_count_ge cpu). lia.
Qed.
(** Where every thread is placed the weights are computed. *)
Lemma group_weights_ok :
  (∀ t, t ∈ td_tid <$> threads → is_Some (pl_tid_to_cpu placement !! t)) →
  ∃ w, group_weights hardware threads edges placement = Ok w.
Proof.
  intros Hp.
  assert (Hg : ∀ acc e, ∃ acc', group_edge hardware threads placement acc e = Ok acc').
  { intros acc e. unfold group_edge.
    destruct (replay_by_tid threads !! re_from_tid e) as [a|] eqn:Ea; [|eauto].
    destruct (replay_by_tid threads !! re_to_tid e) as [b|] eqn:Eb; [|eauto]. destruct (negb _); [eauto|].
    apply by_tid_of_Some in Ea as [Ha <-]. apply by_tid_of_Some in Eb as [Hb <-].
    destruct (Hp (td_tid a)) as [from ->]; [apply list_elem_of_fmap; eauto|].
    destruct (Hp (td_tid b)) as [to ->]; [apply list_elem_of_fmap; eauto|]. eauto. }
  unfold group_weights. generalize (d0, d0). induction edges as [|e es IH]; intros acc; [by exists acc|].
  cbn [foldlM]. destruct (Hg acc e) as [acc' ->]. apply IH.
Qed.
Lemma assignment_rows_ok l :
  (∀ e, e ∈ l → e.1 ∈ td_tid <$> threads) →
  ∃ rows, assignment_rows threads l = Ok rows ∧
    Forall2 (λ e row, ∃ t, t ∈ threads ∧ td_tid t = e.1 ∧ row = (td_identity t, e.2)) l rows.
Proof.
  induction l as [|e l IH]; intros Hl; cbn [assignment_rows]; [exists []; by split|].
  destruct IH as (rows&Hr&Hf); [set_solver|].
  assert (Hs : is_Some (replay_by_tid threads !! e.1)).
  { apply by_tid_of_dom. destruct (list_elem_of_fmap_1 _ _ _ (Hl e ltac:(set_solver))) as (t&->&Ht). eauto. }
  destruct Hs as [t Ht]. exists ((td_identity t, e.2) :: rows). unfold assignment_row. rewrite Ht.
  cbn. rewrite Hr. split; [done|]. apply by_tid_of_Some in Ht as [? ?]. constructor; [|done]. by exists t.
Qed.
End verdict.

(** A result that passed has every gate of the file set. *)
Lemma passed_iff_gates options h threads p d ms :
  gates_pass options h threads p d ms = forallb snd (gate_list options h threads p d ms).
Proof. unfold gates_pass. cbn [gate_list forallb snd]. by rewrite andb_true_r, <- !andb_assoc. Qed.

(** A list names as many elements as it is long exactly when it repeats none. *)
Lemma size_list_to_set_le (l : list Z) : (size (list_to_set l : gset Z) ≤ length l)%nat.
Proof.
  induction l as [|x l IH]; [done|]. cbn [list_to_set length].
  rewrite (size_union_alt ({[x]} : gset Z) (list_to_set l)), size_singleton.
  assert (size (list_to_set l ∖ {[x]} : gset Z) ≤ size (list_to_set l : gset Z))%nat
    by (apply subseteq_size; set_solver).
  lia.
Qed.
Lemma size_list_to_set_NoDup (l : list Z) :
  size (list_to_set l : gset Z) = length l ↔ NoDup l.
Proof.
  split; [|apply size_list_to_set]. induction l as [|x l IH]; [constructor|].
  cbn [list_to_set length]. pose proof (size_list_to_set_le l). destruct (decide (x ∈ l)) as [Hx|Hx].
  - replace ({[x]} ∪ list_to_set l) with (list_to_set l : gset Z) by set_solver. lia.
  - rewrite size_union, size_singleton by set_solver. intros H'. constructor; [done|]. apply IH. lia.
Qed.

(** C21: for every snapshot that is read and that the solver can place, when
    the output can be opened, the replay writes a result (no [map::at] fails): it
    has one row per thread id that occurs in the snapshot, with a thread of that
    id and the CPU the solver chose for it, which is a CPU of the snapshot; the
    gate for the envelope holds, the one for completeness holds exactly when no
    two threads of the snapshot share an id, and [passed] is written exactly when
    all gates are. *)
Theorem replay_snapshot_exact options root path solve_ms s placement :
  read_snapshot root = Ok s →
  solve (ss_hardware s) (ss_threads s) (ss_relations s) (solve_options options) = Ok placement →
  ∃ r, replay_snapshot options root path true solve_ms = Ok r ∧ rr_window_id r = ss_window_id s ∧
    NoDup ((λ row, tid row.1) <$> rr_assignments r) ∧
    (∀ t, t ∈ (λ row, tid row.1) <$> rr_assignments r ↔ t ∈ td_tid <$> ss_threads s) ∧
    (∀ id cpu, (id, cpu) ∈ rr_assignments r → cpu ∈ cpu_id <$> hw_cpus (ss_hardware s) ∧
       ∃ t, t ∈ ss_threads s ∧ td_identity t = id ∧ pl_tid_to_cpu placement !! td_tid t = Some cpu) ∧
    (complete (ss_threads s) placement = true ↔ NoDup (td_tid <$> ss_threads s)) ∧
    inside (ss_hardware s) placement = true ∧
    rr_passed r = forallb snd (rr_gates r).
Proof.
  intros Hs Hp. unfold replay_snapshot. rewrite Hs. cbn [mbind result_bind]. rewrite Hp.
  cbn [mbind result_bind]. unfold write_result.
  pose proof (solve_places (ss_hardware s) (ss_threads s) (ss_relations s) (solve_options options)) as Ho.
  rewrite Hp in Ho. destruct Ho as [Hdom Hus].
  assert (Hin : ∀ t, is_Some (pl_tid_to_cpu placement !! t) ↔ t ∈ td_tid <$> ss_threads s).
  { intros t. rewrite <- elem_of_dom, Hdom. unfold tids_of. by rewrite elem_of_list_to_set. }
  destruct (group_weights_ok (ss_hardware s) (ss_threads s) (ss_relations s) placement) as [w ->].
  { intros t. apply Hin. }
  destruct (assignment_rows_ok (ss_threads s) (items (pl_tid_to_cpu placement))) as (rows&->&Hrows).
  { intros [t c] He%elem_of_items. apply Hin. by exists c. }
  cbn [mbind result_bind negb]. eexists. split; [done|].
  cbn [rr_window_id rr_assignments rr_passed rr_gates].
  assert (Htids : (λ row, tid row.1) <$> rows = (items (pl_tid_to_cpu placement)).*1).
  { clear -Hrows. induction Hrows as [|e row l rows' (t&_&Ht&->) _ IH]; [done|]. cbn. by rewrite IH, <-Ht. }
  assert (Hcpu : ∀ t c, pl_tid_to_cpu placement !! t = Some c → c ∈ cpu_id <$> hw_cpus (ss_hardware s)).
  { intros t c Hc. apply Hus in Hc as (cpu&Hcpu&<-&_). apply list_elem_of_fmap. eauto. }
  split_and!; [done|..|apply passed_iff_gates].
  - rewrite Htids. apply NoDup_items_fst.
  - intros t. rewrite Htids, <-Hin, list_elem_of_fmap. split.
    + intros ([t' c] & -> & He%elem_of_items). by exists c.
    + intros [c He%elem_of_items]. by exists (t, c).
  - intros id cpu Hrow. apply list_elem_of_lookup in Hrow as [i Hi].
    destruct (Forall2_lookup_r _ _ _ _ _ Hrows Hi) as ([t c]&He&u&Hu&Htid&[= -> ->]).
    apply list_elem_of_lookup_2, elem_of_items in He. cbn in *. split; [by eapply Hcpu|]. exists u. by subst.
  - unfold complete. rewrite Nat.eqb_eq, <-size_list_to_set_NoDup, <-size_dom, Hdom, length_fmap. done.
  - apply forallb_forall. intros [t c] He%list_elem_of_In%elem_of_items. by eapply bool_decide_eq_true, Hcpu.
Qed.

(** ** A snapshot of two threads on two nodes *)
Definition value_at {A} (l : list (string * A)) (k : string) : option A :=
  option_map snd (List.find (λ e, String.eqb e.1 k) l).
Definition demo_ptree (strings : list (string * string)) (ints : list (string * Z)) : ptree :=
  mk_ptree (value_at strings) (value_at ints) (value_at ints) (λ k, double_of_Z <$> value_at ints k)
    (λ _, None) (λ _, None) (λ k, runtime_error k).
Definition demo_thread (tid group cpu : Z) : ptree :=
  demo_ptree [("group", if group =? 0 then "a" else "b")]
    [("tgid", 10); ("tid", tid); ("starttime", 7); ("demand", 1); ("confidence", 1); ("current_cpu", cpu)].
Definition demo_snapshot : Tree :=
  mk_Tree (demo_ptree [("schema", "affinitygraph.snapshot.v1"); ("window_id", "w1")] [])
    (value_at [("topology.cpus", [demo_ptree [] [("id", 0); ("node", 0)]; demo_ptree [] [("id", 1); ("node", 0)]]);
               ("threads", [demo_thread 11 0 0; demo_thread 12 0 1]);
               ("edges", [demo_ptree [] [("from_tid", 11); ("to_tid", 12); ("score", 2)]])]).
Definition demo_read : Snapshot :=
  match read_snapshot demo_snapshot with Ok s => s | Throw _ => mk_Snapshot "" (mk_HardwareGraph [] ∅ ∅ ∅) [] [] end.
Definition demo_placed : Placement :=
  match solve (ss_hardware demo_read) (ss_threads demo_read) (ss_relations demo_read) (solve_options Strategy_default) with
  | Ok p => p
  | Throw _ => mk_Placement ∅ d0 d0 d0 d0
  end.
Lemma demo_distinct : NoDup (td_tid <$> ss_threads demo_read).
Proof. apply (bool_decide_unpack _). vm_compute. exact I. Qed.

Lemma gates_sound_witness :
  gates_pass Strategy_default (ss_hardware demo_read) (ss_threads demo_read) demo_placed true d0 = true ∧
  ∀ cpu, Z.of_nat (length (threads_on (ss_threads demo_read) demo_placed cpu)) ≤ 3.
Proof.
  assert (H : gates_pass Strategy_default (ss_hardware demo_read) (ss_threads demo_read) demo_placed true d0 = true)
    by (vm_compute; reflexivity).
  split; [exact H|].
  refine (proj2 (gates_sound Strategy_default (ss_hardware demo_read) (ss_threads demo_read) demo_placed true d0
    demo_distinct _ H)).
  intros t Ht%elem_of_dom. apply (list_elem_of_In _ _).
  assert (Hd : dom (pl_tid_to_cpu demo_placed) = {[11; 12]}) by (apply (bool_decide_unpack _); vm_compute; exact I).
  rewrite Hd in Ht. apply elem_of_union in Ht as [->%elem_of_singleton| ->%elem_of_singleton]; vm_compute; tauto.
Defined.
(** The same snapshot with one thread listed twice. *)
Definition demo_repeated : Tree :=
  mk_Tree (demo_ptree [("schema", "affinitygraph.snapshot.v1"); ("window_id", "w2")] [])
    (value_at [("topology.cpus", [demo_ptree [] [("id", 0); ("node", 0)]; demo_ptree [] [("id", 1); ("node", 0)]]);
               ("threads", [demo_thread 11 0 0; demo_thread 11 0 0; demo_thread 12 0 1]); ("edges", [])]).
Definition snapshot_placed (root : Tree) (s : Snapshot) (p : Placement) : Prop :=
  read_snapshot root = Ok s ∧
  solve (ss_hardware s) (ss_threads s) (ss_relations s) (solve_options Strategy_default) = Ok p.
Lemma replay_snapshot_exact_witness :
  (∃ r, replay_snapshot Strategy_default demo_snapshot "out" true d1 = Ok r ∧
     (∀ t, t ∈ (λ row, tid row.1) <$> rr_assignments r ↔ t ∈ [11; 12]) ∧
     complete (ss_threads demo_read) demo_placed = true) ∧
  ∃ s p, snapshot_placed demo_repeated s p ∧ complete (ss_threads s) p ≠ true.
Proof.
  split.
  - destruct (replay_snapshot_exact Strategy_default demo_snapshot "out" d1 demo_read demo_placed)
      as (r&H&_&_&Hl&_&Hc&_); [vm_compute; reflexivity..|].
    exists r. split; [exact H|]. split; [exact Hl|]. apply Hc. exact demo_distinct.
  - destruct (read_snapshot demo_repeated) as [s|] eqn:Hs; [|vm_compute in Hs; discriminate Hs].
    destruct (solve (ss_hardware s) (ss_threads s) (ss_relations s) (solve_options Strategy_default))
      as [p|] eqn:Hp; [|exfalso; vm_compute in Hs; injection Hs as <-; vm_compute in Hp; discriminate Hp].
    exists s, p. split; [by split|].
    destruct (replay_snapshot_exact Strategy_default demo_repeated "out" d1 s p Hs Hp)
      as (r&_&_&_&_&_&Hc&_).
    rewrite Hc. vm_compute in Hs. injection Hs as <-. intros Hnd. apply NoDup_cons in Hnd as [Hn _].
    apply Hn. apply (bool_decide_unpack _). vm_compute. exact I.
Defined.
(** All gates pass on it, and each thread stays where it was. *)
Example demo_result_passes :
  match replay_snapshot Strategy_default demo_snapshot "out" true d1 with
  | Ok r => rr_passed r = true ∧ (λ e, (tid e.1, e.2)) <$> rr_assignments r = [(11, 0); (12, 1)]
  | Throw _ => False
  end.
Proof. vm_compute. split; reflexivity. Qed.

(** ** Strategies *)

(** [lo <= x <= hi], or [x] is not a number: no comparison rejects a NaN. *)
Definition approved_range (lo hi x : double) : Prop := not_nan x → dltb x lo = false ∧ dltb hi x = false.
(** a strategy that is read has an id, its integers are in the approved ranges,
    and each of its ratios is in the approved range or is not a number; [nan] is
    indeed accepted for a ratio. *)
Theorem strategy_approved path contents s :
  read_strategy path contents = Ok s →
  sg_strategy_id s ≠ "" ∧ -1 ≤ sg_max_threads_per_cpu s ∧ 0 ≤ sg_slot_slack s ∧ 0 ≤ sg_fm_passes s ∧
  1 ≤ sg_hotspot_edges_per_thread s ∧ 0 ≤ sg_maximum_managed_threads s ∧
  1 ≤ sg_hotspot_replan_min_threads s ∧ 1 ≤ sg_hotspot_stability_confirmations s ∧
  Forall (approved_range d0 d1)
    [sg_demand_floor s; sg_maximum_migrated_active_threads_ratio s; sg_minimum_confidence s;
     sg_initial_node_thread_slack_ratio s; sg_hotspot_edge_quantile s; sg_hotspot_replan_growth_ratio s;
     sg_hotspot_stability_threshold s] ∧
  dltb (sg_active_threshold s) (sg_inactive_threshold s) = false.
Proof.
  unfold read_strategy. destruct contents as [lines|]; [|done].
  destruct (foldlM _ _ _) as [[seen s']|]; [|done]. cbn [mbind result_bind]. case_bool_decide as Hid; [done|].
  destruct (unapproved s') eqn:Hu; [done|]. intros [= ->]. unfold unapproved in Hu. rewrite !orb_false_iff in Hu.
  destruct_and!. split_and!; try done; try lia. repeat constructor; done.
Qed.
Lemma strategy_approved_witness :
  match read_strategy "f" (Some [chars "schema = affinitygraph.strategy.v1"; chars "fm_passes = 7 # passes"]) with
  | Ok s => 0 ≤ sg_fm_passes s
  | Throw _ => False
  end.
Proof.
  destruct (read_strategy "f" _) as [s|] eqn:E.
  - destruct (strategy_approved "f" _ s E) as (_ & _ & _ & H & _). exact H.
  - vm_compute in E. discriminate E.
Defined.
Theorem nan_strategy_accepted :
  match read_strategy "f" (Some [chars "demand_floor = nan"]) with
  | Ok s => sg_demand_floor s = S754_nan
  | Throw _ => False
  end.
Proof. vm_compute. reflexivity. Qed.
(** A key is given at most once. *)
Example duplicate_key_rejected :
  read_strategy "f" (Some [chars "fm_passes = 1"; chars "fm_passes = 2"]) =
  Throw (runtime_error "duplicate strategy key: fm_passes").
Proof. vm_compute. reflexivity. Qed.
