(* ===== verification/ReplaySequenceProperties.v ===== *)
(** * The replay of a sequence: properties

    The invariant of the loop over the frames and what every row of a finished
    run says about its snapshot. *)
From Stdlib Require Import SpecFloat Ascii.
From S2P Require Import Prelude Binary64 Core CpuList Topology Hotspot HotspotProperties Incremental IncrementalPropose.
From S2P Require Import IncrementalFacts IncrementalInvariant IncrementalProperties SnapshotSolver DomainReplay Replay ReplaySequence ReplayProperties.
Local Open Scope string_scope.
Local Open Scope Z_scope.

(** The frames that moved threads. *)
Definition acted (l : list SequenceFrameResult) : list SequenceFrameResult := filter (λ r, 0 < fr_actions r) l.
Lemma acted_snoc l r : Zsize (acted (l ++ [r])%list) = Zsize (acted l) + if decide (0 < fr_actions r) then 1 else 0.
Proof. unfold acted, Zsize. rewrite filter_app, length_app, filter_cons. destruct (decide _); cbn; lia. Qed.

Lemma elem_of_cohort_of l x : x ∈ cohort_of l ↔ x ∈ td_tid <$> l.
Proof.
  assert (H : ∀ s, x ∈ foldl (λ (s : gset Z) t, {[td_tid t]} ∪ s) s l ↔ x ∈ s ∨ x ∈ td_tid <$> l).
  { induction l as [|t l IH]; intros s; cbn; [set_solver|].
    rewrite IH, elem_of_union, elem_of_singleton, elem_of_cons. tauto. }
  unfold cohort_of. rewrite H, elem_of_empty. tauto.
Qed.
Lemma size_cohort_of l : NoDup (td_tid <$> l) → size (cohort_of l) = length l.
Proof.
  intros H. rewrite <- (length_fmap td_tid l), <- (size_list_to_set (C := gset Z) _ H).
  f_equal. apply set_eq. intros x. by rewrite elem_of_cohort_of, elem_of_list_to_set.
Qed.

Section sequence.
Context (strategy : Strategy).

Lemma active_threads_sublist cohort s : active_threads strategy cohort s `sublist_of` active_candidates strategy cohort (ss_threads s).
Proof. unfold active_threads, select_managed_threads. destruct (_ || _); [done|]. apply sublist_filter. Qed.
Lemma active_threads_in cohort s : td_tid <$> active_threads strategy cohort s `sublist_of` td_tid <$> ss_threads s.
Proof. apply fmap_sublist. etrans; [apply active_threads_sublist|]. apply sublist_filter. Qed.

(** ** The loop invariant *)
Record sequence_inv (st : SequenceState) : Prop := {
  qi_solver : inv (sq_solver st);
  qi_idle : i_outstanding (sq_solver st) = None;
  qi_cohort : dom (i_threads (sq_solver st)) = sq_cohort st;
  qi_generation : i_generation (sq_solver st) = Zsize (acted (sq_results st));
}.
Lemma sequence_inv_init : sequence_inv SequenceState_init.
Proof. by constructor. Qed.

(** What a row says; [before] holds the rows before it. *)
Record row_ok (before : list SequenceFrameResult) (input : Z * Snapshot) (r : SequenceFrameResult) : Prop := {
  rk_time : fr_timestamp_ns r = input.1 ∧ fr_window_id r = ss_window_id input.2;
  rk_placed : ∀ t, is_Some (fr_placement r !! t) → t ∈ td_tid <$> ss_threads input.2;
  rk_pinned : fr_pinned r = Z.of_nat (size (fr_placement r));
  rk_managed : fr_managed r ≤ fr_demand_active r;
  rk_budget : fr_actions r ≤ Z.max 0 (fr_budget r);
  rk_generation : fr_generation r = Zsize (acted (before ++ [r])%list);
  rk_effective : NoDup (td_tid <$> ss_threads input.2) →
    fr_pinned r ≤ fr_managed r ∧
    (fr_effective r = true ↔
       fr_phase r = incremental_phase_name Optimizing ∧ 0 < fr_managed r ∧ fr_pinned r = fr_managed r);
}.

(** The solver after the proposal, committed when it is ready. *)
Lemma settle_inv s s' p now :
  inv s → batch_ok s p → i_outstanding s = (if sp_ready p then Some p else None) →
  s' = (if sp_ready p then commit p now ∅ s else s) →
  inv s' ∧ i_outstanding s' = None ∧ i_threads s' = i_threads s ∧
  i_generation s' = i_generation s + if decide (0 < Zsize (sp_actions p)) then 1 else 0.
Proof.
  intros Hs Hb Ho ->. assert (Hready : sp_ready p = true ↔ 0 < Zsize (sp_actions p)).
  { rewrite (bk_ready _ _ Hb). unfold Zsize. destruct (sp_actions p); cbn; [|split; [lia|done]].
    split; [done|lia]. }
  destruct (sp_ready p) eqn:Er; cycle 1.
  { rewrite decide_False by (rewrite <- Hready; done). split_and!; [done..|lia]. }
  rewrite decide_True by by apply Hready. split_and!.
  - apply commit_inv; [done|]. intros a Ha _. by apply (bk_live _ _ Hb).
  - unfold commit. rewrite Ho, Z.eqb_refl. done.
  - by destruct (commit_fields p now ∅ s Ho) as [-> _].
  - unfold commit. rewrite Ho, Z.eqb_refl. cbn [i_generation].
    assert (∀ l x, i_generation (foldl (commit_action now ∅) x l) = i_generation x) as Hf.
    { induction l as [|a l IH]; intros x; [done|]. cbn [foldl]. rewrite IH. unfold commit_action.
      by destruct (is_committed ∅ a). }
    unfold commit_phase. destruct (_ && _); cbn [i_generation]; by rewrite Hf.
Qed.

Lemma phase_name_optimizing ph : incremental_phase_name ph = incremental_phase_name Optimizing ↔ ph = Optimizing.
Proof. split; [by destruct ph|by intros ->]. Qed.

Lemma frame_row_ok st ts s p solver ms :
  let managed := active_threads strategy (sq_cohort st) s in
  let r := frame_result strategy ts s (sq_cohort st) (active_candidates strategy (sq_cohort st) (ss_threads s))
             managed p solver ms in
  inv solver → dom (i_threads solver) = cohort_of managed →
  Zsize (sp_actions p) ≤ Z.max 0 (sp_migration_budget p) →
  i_generation solver = Zsize (acted (sq_results st)) + (if decide (0 < Zsize (sp_actions p)) then 1 else 0) →
  row_ok (sq_results st) (ts, s) r.
Proof.
  intros managed r Hi Hd Hb Hg. subst r. unfold frame_result.
  destruct (coverage _ _ _ _) as [ci cc]. destruct (node_utilization _ _ _) as [lo hi].
  pose proof (inv_pinned _ Hi) as Hpin. pose proof (inv_placed _ Hi) as Hpl. rewrite Hd in Hpl.
  assert (Hsz : Z.of_nat (size (i_pinned solver)) = Z.of_nat (size (i_placement solver))).
  { by rewrite Hpin, size_dom. }
  constructor; cbn [fr_timestamp_ns fr_window_id fr_placement fr_pinned fr_managed fr_demand_active fr_actions
    fr_budget fr_generation fr_effective fr_phase fst snd]; [done| |done| |done| |].
  - intros t Ht%elem_of_dom. apply Hpl, elem_of_cohort_of in Ht.
    eapply sublist_subseteq; [apply active_threads_in|exact Ht].
  - unfold Zsize. pose proof (sublist_length _ _ (active_threads_sublist (sq_cohort st) s)). subst managed. lia.
  - rewrite acted_snoc. exact Hg.
  - intros Hnd. assert (Hn : size (i_threads solver) = length managed).
    { rewrite <- size_dom, Hd. apply size_cohort_of. eapply sublist_NoDup; [exact Hnd|apply active_threads_in]. }
    assert (Hle : (size (i_placement solver) ≤ size (i_threads solver))%nat).
    { rewrite <- !size_dom. apply subseteq_size, Hi. }
    split; [unfold Zsize; lia|]. rewrite phase_name_optimizing.
    unfold i_effective, Zsize. rewrite !andb_true_iff, bool_decide_eq_true, negb_true_iff, bool_decide_eq_false,
      Nat.eqb_eq, <- map_size_empty_iff.
    split; [intros ((? & ?) & ?)|intros (? & ? & ?)]; split_and!; try done; lia.
Qed.

(** One frame keeps the invariant and appends one good row. *)
Lemma step_frame_ok st ts s ms st' :
  sequence_inv st → step_frame strategy st ts s ms = Ok st' →
  sequence_inv st' ∧ ∃ r, sq_results st' = (sq_results st ++ [r])%list ∧ row_ok (sq_results st) (ts, s) r.
Proof.
  intros [Hi Ho Hc Hg]. unfold step_frame. destruct (negb _ && negb _); [done|]. cbv zeta.
  set (managed := active_threads strategy (sq_cohort st) s).
  set (gone := set_items _).
  pose proof (remove_threads_inv gone _ Hi) as Hi1.
  destruct (remove_threads_kept gone (sq_solver st)) as (Ho1 & Hg1 & _). rewrite Ho in Ho1. rewrite Hg in Hg1.
  set (s1 := foldl _ _ _) in *. clearbody s1.
  destruct (propose _ _ _ _ _ _ s1) as [s2 [p|]] eqn:Ep; [|done]. intros [= <-].
  pose proof (propose_inv _ _ _ _ _ _ _ _ _ Hi1 Ep) as Hi2.
  pose proof (propose_threads _ _ _ _ _ _ _ _ _ Hi1 Ho1 Ep) as Hd2.
  destruct (propose_batch _ _ _ _ _ _ _ _ _ Hi1 Ho1 Ep) as (Hb & Ho2 & _ & Hg2).
  destruct (settle_inv s2 _ p ts Hi2 Hb Ho2 eq_refl) as (Hi3 & Ho3 & Ht3 & Hg3).
  set (s3 := if sp_ready p then commit _ _ _ _ else _) in *. clearbody s3. rewrite Hg2, Hg1 in Hg3.
  assert (Hd3 : dom (i_threads s3) = cohort_of managed).
  { rewrite Ht3, Hd2. apply set_eq. intros x. by rewrite elem_of_cohort_of, elem_of_list_to_set. }
  pose proof (frame_row_ok st ts s p s3 ms Hi3 Hd3 (bk_budget _ _ Hb) Hg3) as Hrow. fold managed in Hrow.
  split; [|eexists; split; [done|exact Hrow]].
  constructor; cbn [sq_solver sq_cohort sq_results]; [done..|].
  rewrite <- (rk_generation _ _ _ Hrow). unfold frame_result. by destruct (coverage _ _ _ _), (node_utilization _ _ _).
Qed.

Context (load : list ascii → result Tree) (clock : nat → double) (path : list ascii).

Lemma run_frames_ok frames st st' inputs :
  sequence_inv st → length inputs = length (sq_results st) →
  (∀ i r x, sq_results st !! i = Some r → inputs !! i = Some x → row_ok (take i (sq_results st)) x r) →
  foldlM (run_frame strategy load clock path) st frames = Ok st' →
  ∃ more, Forall2 (λ f x, frame_input load path f = Ok x) frames more ∧
    length (inputs ++ more)%list = length (sq_results st') ∧
    (∀ i r x, sq_results st' !! i = Some r → (inputs ++ more)%list !! i = Some x →
       row_ok (take i (sq_results st')) x r).
Proof.
  revert st inputs. induction frames as [|f fs IH]; intros st inputs Hi Hl Hrows.
  { intros [= <-]. exists []. rewrite app_nil_r. by split_and!. }
  cbn [foldlM]. destruct (run_frame strategy load clock path st f) as [st1|] eqn:Es; [|done].
  unfold run_frame in Es. destruct (frame_input load path f) as [[ts s]|] eqn:Ef; [|done].
  cbn [mbind result_bind] in Es |- *.
  destruct (step_frame_ok _ _ _ _ _ Hi Es) as (Hi1 & r & Hr & Hrow). intros Hf.
  destruct (IH st1 (inputs ++ [(ts, s)])%list Hi1) as (more & Hm & Hlen & Hall); [| |exact Hf|].
  - rewrite Hr, !length_app, Hl. done.
  - rewrite Hr. intros i r' x Hi' Hx. destruct (decide (i < length (sq_results st))%nat) as [Hlt|Hge].
    + rewrite take_app_le by lia. rewrite lookup_app_l in Hi' by lia. rewrite lookup_app_l in Hx by lia. eauto.
    + assert (i = length (sq_results st)) as ->.
      { apply lookup_lt_Some in Hi'. rewrite length_app in Hi'. cbn in Hi'. lia. }
      rewrite list_lookup_middle in Hi' by done. rewrite list_lookup_middle in Hx by done. simplify_eq.
      by rewrite take_app_length.
  - exists ((ts, s) :: more). rewrite <- app_assoc in Hlen, Hall. split_and!; [by constructor|done|done].
Qed.

(** C24: a run that finishes has one row per entry of [frames], in order.  In every
    row only threads of that frame's snapshot are placed, the actions stay within
    the migration budget, the generation is the number of frames so far that had
    actions (so no proposal is left over for a later frame), and, where thread ids
    are distinct, the solver is effective exactly when it optimizes a non-empty
    cohort that is wholly pinned. *)
Theorem run_sequence_rows results :
  run_sequence strategy load clock path = Ok results →
  results ≠ [] ∧ ∃ root frames inputs,
    load path = Ok root ∧ tr_children root "frames" = Some frames ∧
    Forall2 (λ f x, frame_input load path f = Ok x) frames inputs ∧
    length inputs = length results ∧
    ∀ i r x, results !! i = Some r → inputs !! i = Some x → row_ok (take i results) x r.
Proof.
  unfold run_sequence. destruct (load path) as [root|]; [|done]. cbn [mbind result_bind].
  destruct (required _ _) as [schema|]; [|done]. cbn [mbind result_bind]. destruct (negb _); [done|].
  destruct (tr_children root "frames") as [frames|] eqn:Ef; [|done].
  destruct (foldlM _ _ _) as [st|] eqn:Er; [|done]. cbn [mbind result_bind].
  case_bool_decide as Hne; [done|]. intros [= <-]. split; [done|]. exists root, frames.
  destruct (run_frames_ok frames SequenceState_init st [] sequence_inv_init eq_refl) as (more & Hm & Hl & Hall);
    [done|exact Er|].
  exists more. by split_and!.
Qed.
End sequence.

(** ** The two runs *)
Lemma same_frame_timeless strategy ts s previous candidates managed p solver ms ms' :
  same_frame (frame_result strategy ts s previous candidates managed p solver ms)
    (frame_result strategy ts s previous candidates managed p solver ms') = true.
Proof.
  unfold frame_result. destruct (coverage _ _ _ _), (node_utilization _ _ _). unfold same_frame.
  cbn [fr_timestamp_ns fr_phase fr_actions fr_generation fr_effective fr_placement].
  rewrite !Z.eqb_refl, String.eqb_refl, Bool.eqb_reflx, bool_decide_eq_true_2; done.
Qed.
Lemma same_sequence_snoc l l' r r' :
  same_sequence l l' = true → same_frame r r' = true → same_sequence (l ++ [r])%list (l' ++ [r'])%list = true.
Proof.
  intros H Hr. revert l' H. induction l as [|x l IH]; intros [|y l']; cbn; try done.
  - intros _. by rewrite Hr.
  - intros [-> H]%andb_true_iff. by apply IH.
Qed.

(** States that differ only in the measured times. *)
Record timeless (a b : SequenceState) : Prop := {
  tl_solver : sq_solver a = sq_solver b;
  tl_cohort : sq_cohort a = sq_cohort b;
  tl_topology : sq_topology a = sq_topology b;
  tl_results : same_sequence (sq_results a) (sq_results b) = true;
}.
Definition timeless_result (a b : result SequenceState) : Prop :=
  match a, b with
  | Ok x, Ok y => timeless x y
  | Throw e, Throw f => e = f
  | _, _ => False
  end.
Lemma step_frame_timeless strategy a b ts s ms ms' :
  timeless a b → timeless_result (step_frame strategy a ts s ms) (step_frame strategy b ts s ms').
Proof.
  intros [Hs Hc Ht Hr]. unfold step_frame. rewrite Hs, Hc, Ht. destruct (negb _ && negb _); [done|]. cbv zeta.
  destruct (propose _ _ _ _ _ _ _) as [s2 [p|e]]; [|done].
  constructor; cbn [sq_solver sq_cohort sq_topology sq_results]; [done..|].
  by apply same_sequence_snoc, same_frame_timeless.
Qed.
Lemma run_frames_timeless strategy load clock clock' path frames a b :
  timeless a b → timeless_result (foldlM (run_frame strategy load clock path) a frames)
    (foldlM (run_frame strategy load clock' path) b frames).
Proof.
  revert a b. induction frames as [|f fs IH]; intros a b Hab; cbn [foldlM]; [done|].
  assert (Hf : timeless_result (run_frame strategy load clock path a f) (run_frame strategy load clock' path b f)).
  { unfold run_frame. destruct (frame_input load path f) as [[ts s]|]; [|done]. by apply step_frame_timeless. }
  destruct (run_frame strategy load clock path a f), (run_frame strategy load clock' path b f); try done.
  by apply IH.
Qed.
Lemma run_sequence_timeless strategy load clock clock' path :
  match run_sequence strategy load clock path, run_sequence strategy load clock' path with
  | Ok a, Ok b => same_sequence a b = true
  | Throw e, Throw f => e = f
  | _, _ => False
  end.
Proof.
  unfold run_sequence. destruct (load path) as [root|]; [|done]. cbn [mbind result_bind].
  destruct (required _ _) as [schema|]; [|done]. cbn [mbind result_bind]. destruct (negb _); [done|].
  destruct (tr_children root "frames") as [frames|]; [|done].
  pose proof (run_frames_timeless strategy load clock clock' path frames SequenceState_init SequenceState_init) as H.
  specialize (H ltac:(by constructor)).
  destruct (foldlM (run_frame strategy load clock path) _ _) as [a|], (foldlM _ _ _) as [b|];
    cbn [mbind result_bind timeless_result] in *; try done.
  destruct H as [_ _ _ H]. destruct (sq_results a), (sq_results b); done.
Qed.

(** a sequence report is never empty and always says [deterministic: true]: the
    second run, with its own clock, ends in the same rows up to the solve times,
    because no decision of the cohort selection or of the solver depends on the
    measured time. *)
Theorem sequence_report_deterministic env argv :
  match replay_main env argv with
  | Ok (SequenceReport _ deterministic _ frames) => deterministic = true ∧ frames ≠ []
  | _ => True
  end.
Proof.
  unfold replay_main. destruct (checked_args argv) as [a|]; [|done]. cbn [mbind result_bind].
  destruct (read_strategy _ _) as [options|]; [|done]. cbn [mbind result_bind].
  destruct (negb (empty_text (ra_sequence a))).
  - pose proof (run_sequence_timeless options (re_load env) (re_first_clock env) (re_second_clock env)
      (chars (ra_sequence a))) as H.
    destruct (run_sequence _ _ (re_first_clock env) _) as [x|] eqn:Ex; [|done].
    destruct (run_sequence _ _ (re_second_clock env) _) as [y|]; [|done]. cbn [mbind result_bind].
    destruct (negb _); [done|]. split; [done|]. revert Ex. unfold run_sequence.
    destruct (re_load env _) as [root|]; [|done]. cbn [mbind result_bind].
    destruct (required _ _); [|done]. cbn [mbind result_bind]. destruct (negb _); [done|].
    destruct (tr_children root "frames"); [|done]. destruct (foldlM _ _ _); [|done]. cbn [mbind result_bind].
    case_bool_decide; [done|]. by intros [= <-].
  - destruct (re_load env _) as [root|]; [|done]. cbn [mbind result_bind].
    by destruct (replay_snapshot _ _ _ _ _).
Qed.

(** ** A sequence of four frames of the same snapshot *)
Definition demo_frame (n : Z) : ptree := demo_ptree [("snapshot", "s.json")] [("timestamp_ns", n)].
Definition demo_sequence : Tree :=
  mk_Tree (demo_ptree [("schema", "affinitygraph.replay-sequence.v1")] [])
    (value_at [("frames", [demo_frame 1; demo_frame 2; demo_frame 3; demo_frame 4])]).
Definition demo_load (path : list ascii) : result Tree :=
  if bool_decide (path = chars "d/seq.json") then Ok demo_sequence
  else if bool_decide (path = chars "d/s.json") then Ok demo_snapshot
  else Throw (runtime_error "no such file").
Definition demo_rows : list SequenceFrameResult :=
  match run_sequence Strategy_default demo_load (λ _, d1) (chars "d/seq.json") with Ok l => l | Throw _ => [] end.
Example demo_rows_phases :
  (λ r, (fr_phase r, fr_actions r, fr_generation r, fr_effective r)) <$> demo_rows =
  [("initial_pinning", 0, 0, false); ("optimizing", 2, 1, true); ("optimizing", 0, 1, true); ("optimizing", 0, 1, true)].
Proof. vm_compute. reflexivity. Qed.
Lemma run_sequence_rows_witness :
  demo_rows ≠ [] ∧ ∃ root, demo_load (chars "d/seq.json") = Ok root.
Proof.
  assert (H : run_sequence Strategy_default demo_load (λ _, d1) (chars "d/seq.json") = Ok demo_rows)
    by (vm_compute; reflexivity).
  destruct (run_sequence_rows Strategy_default demo_load (λ _, d1) (chars "d/seq.json") demo_rows H)
    as (Hne & root & frames & inputs & Hr & _).
  split; [exact Hne|]. exists root. exact Hr.
Defined.
