(* ===== verification/ReplayReportProperties.v ===== *)
(** * The reports of the replay tools: properties

    Without the white space between its tokens, a report is the compact document
    the JSON reader takes back; and what [affinity-domain-replay] writes follows
    from its inputs. *)
From Stdlib Require Import SpecFloat Ascii.
From S2P Require Import Prelude Binary64 Core CpuList Actuator Topology ThreadProfile DomainPlanner DomainSolver Config ConfigProperties.
From S2P Require Import Json JsonProperties RuntimeLog DomainReplay DomainReplayProperties RuntimeLogProperties.
From S2P Require Import Replay ReplaySequence ReplayProperties ReplaySequenceProperties ReplayReport.
Local Open Scope string_scope.
Local Open Scope Z_scope.
Local Open Scope list_scope.

(** ** White space *)
Definition blank (c : ascii) : bool := bool_decide (c = " "%char) || bool_decide (c = line_feed).
(** Where a scanner of the text is. *)
Inductive place := Outside | Inside | Escaped.
Definition advance (p : place) (c : ascii) : place :=
  match p with
  | Outside => if bool_decide (c = dq) then Inside else Outside
  | Inside => if bool_decide (c = backslash) then Escaped else if bool_decide (c = dq) then Outside else Inside
  | Escaped => Inside
  end.
(** The text without the white space outside its strings. *)
Fixpoint compact (p : place) (l : list ascii) : list ascii :=
  match l with
  | [] => []
  | c :: l' =>
      if (match p with Outside => blank c | _ => false end) then compact p l' else c :: compact (advance p c) l'
  end.
Abbreviation squeeze := (compact Outside).

(** [text] is [compacted] with white space between the tokens. *)
Definition lays_out (text compacted : list ascii) : Prop :=
  ∀ r, squeeze (text ++ r) = compacted ++ squeeze r.

Lemma lays_out_app a b a' b' : lays_out a a' → lays_out b b' → lays_out (a ++ b) (a' ++ b').
Proof. intros Ha Hb r. by rewrite <- !app_assoc, Ha, Hb. Qed.
Lemma lays_out_blank w : forallb blank w = true → lays_out w [].
Proof.
  intros Hw r. induction w as [|c w IH]; [done|]. cbn in Hw |- *. apply andb_true_iff in Hw as [-> Hw]. by apply IH.
Qed.
(** A character that stays, outside strings. *)
Definition solid (c : ascii) : bool := negb (blank c) && negb (bool_decide (c = dq)).
Lemma lays_out_solid l : forallb solid l = true → lays_out l l.
Proof.
  intros Hl r. induction l as [|c l IH]; [done|]. cbn in Hl |- *. apply andb_true_iff in Hl as [Hc Hl].
  apply andb_true_iff in Hc as [Hb%negb_true_iff Hq%negb_true_iff]. rewrite Hb, Hq. f_equal. by apply IH.
Qed.

(** *** Strings *)
Lemma compact_plain s r : forallb plain s = true → compact Inside (s ++ r) = s ++ compact Inside r.
Proof.
  induction s as [|c s IH]; [done|]. cbn [forallb]. intros [(_&Hq&Hb)%plain_spec Hs]%andb_true_iff.
  cbn. rewrite !bool_decide_false by done. by rewrite IH.
Qed.
Lemma compact_escape_char c r : compact Inside (escape_char c ++ r) = escape_char c ++ compact Inside r.
Proof.
  unfold escape_char. destruct (bool_decide (c = dq) || bool_decide (c = backslash)) eqn:E.
  { cbn. by rewrite bool_decide_true. }
  apply orb_false_iff in E as [Hq Hb]. destruct (bool_decide (c = line_feed)); [cbn; by rewrite bool_decide_true|].
  destruct (32 <=? nat_of_ascii c)%nat; [|done].
  cbn. by rewrite Hq, Hb.
Qed.
Lemma compact_escaped s r : compact Inside (json_escape s ++ r) = json_escape s ++ compact Inside r.
Proof.
  induction s as [|c s IH]; [done|]. change (json_escape (c :: s)) with (escape_char c ++ json_escape s).
  by rewrite <- !app_assoc, compact_escape_char, IH.
Qed.
Lemma lays_out_quoted s :
  (∀ r, compact Inside (s ++ r) = s ++ compact Inside r) → lays_out (quoted s) (quoted s).
Proof.
  intros Hs r. unfold quoted. cbn [app compact]. rewrite <- !app_assoc. cbn.
  f_equal. rewrite Hs. done.
Qed.
Lemma lays_out_key k : forallb plain (chars k) = true → lays_out (quoted (chars k)) (quoted (chars k)).
Proof. intros Hk. apply lays_out_quoted. intros r. by apply compact_plain. Qed.

(** *** Values *)
Lemma lays_out_commas {A} (f g : A → list ascii) (l : list A) :
  Forall (λ a, lays_out (f a) (g a)) l → lays_out (commas (f <$> l)) (commas (g <$> l)).
Proof.
  induction 1 as [|a l Ha Hl IH]; [by apply lays_out_blank|]. destruct l as [|a' l]; [done|].
  cbn [fmap list_fmap commas]. apply lays_out_app; [done|].
  apply (lays_out_app [","%char] _ [","%char]); [by apply lays_out_solid|]. exact IH.
Qed.
Lemma number_solid t : forallb number_char t = true → forallb solid t = true.
Proof.
  rewrite !forallb_forall. intros H c Hc. specialize (H c Hc). unfold solid, blank.
  rewrite !bool_decide_false; [done|..]; intros ->; done.
Qed.
Lemma render_lays_out v : well_formed v = true → lays_out (render v) (render v).
Proof.
  induction v as [t|s|s|b|l IH|l IH] using json_nested_ind; cbn [well_formed render]; intros Hw.
  - apply andb_true_iff in Hw as [_ Hw]. by apply lays_out_solid, number_solid.
  - apply lays_out_quoted, compact_escaped.
  - apply lays_out_quoted. intros r. by apply compact_plain.
  - apply lays_out_solid. by destruct b.
  - apply (lays_out_app ["["%char] _ ["["%char]); [by apply lays_out_solid|].
    apply lays_out_app; [|by apply lays_out_solid]. apply lays_out_commas.
    rewrite forallb_forall in Hw. rewrite Forall_forall in *. intros v Hv. apply IH; [done|].
    by apply Hw, list_elem_of_In.
  - apply (lays_out_app ["{"%char] _ ["{"%char]); [by apply lays_out_solid|].
    apply lays_out_app; [|by apply lays_out_solid]. apply lays_out_commas.
    rewrite forallb_forall in Hw. rewrite Forall_forall in *. intros kv Hv.
    destruct (andb_true_iff (forallb plain (chars kv.1)) (well_formed kv.2)) as [Hkv _].
    destruct (Hkv (Hw kv (proj1 (list_elem_of_In _ _) Hv))) as [Hk Hwv].
    apply lays_out_app; [by apply lays_out_key|].
    apply (lays_out_app [":"%char] _ [":"%char]); [by apply lays_out_solid|]. by apply IH.
Qed.

(** *** Blocks *)
Lemma spaces_blank n : forallb blank (spaces n) = true.
Proof. by induction n. Qed.
Lemma lays_out_lines n l l' : Forall2 lays_out l l' → lays_out (lines n l) (commas l').
Proof.
  induction 1 as [|a a' l l' Ha Hl IH]; [by apply lays_out_blank|].
  assert (Hi : lays_out (spaces n) []) by apply lays_out_blank, spaces_blank.
  destruct Hl as [|b b' l l' Hb Hl].
  - cbn [lines commas]. apply (lays_out_app _ _ [] _ Hi). rewrite <- (app_nil_r a').
    by apply lays_out_app, lays_out_blank.
  - change (lines n (a :: b :: l)) with (spaces n ++ a ++ [","%char] ++ [line_feed] ++ lines n (b :: l)).
    apply (lays_out_app _ _ [] _ Hi), lays_out_app; [done|]. apply (lays_out_app _ _ [","%char]); [by apply lays_out_solid|].
    by apply (lays_out_app _ _ []); [apply lays_out_blank|].
Qed.
Lemma lays_out_inline l l' : Forall2 lays_out l l' → lays_out (inline l) (commas l').
Proof.
  induction 1 as [|a a' l l' Ha Hl IH]; [by apply lays_out_blank|].
  destruct Hl as [|b b' l l' Hb Hl]; [done|].
  change (inline (a :: b :: l)) with (a ++ [","%char] ++ spaces 1 ++ inline (b :: l)).
  apply lays_out_app; [done|]. apply (lays_out_app _ _ [","%char]); [by apply lays_out_solid|].
  by apply (lays_out_app _ _ []); [apply lays_out_blank|].
Qed.
Lemma lays_out_field key v v' :
  forallb plain (chars key) = true → lays_out v v' →
  lays_out (field key v) (quoted (chars key) ++ ":"%char :: v').
Proof.
  intros Hk Hv. apply lays_out_app; [by apply lays_out_key|].
  apply (lays_out_app [":"%char] _ [":"%char]); [by apply lays_out_solid|].
  by apply (lays_out_app (spaces 1) _ []); [apply lays_out_blank|].
Qed.
Lemma lays_out_bracket (o c : ascii) w l w' l' :
  solid o = true → solid c = true → forallb blank w = true → forallb blank w' = true → lays_out l l' →
  lays_out (o :: w ++ l ++ w' ++ [c]) (o :: l' ++ [c]).
Proof.
  intros Ho Hc Hw Hw' Hl.
  apply (lays_out_app [o] _ [o]); [apply lays_out_solid; cbn; by rewrite Ho|].
  apply (lays_out_app w _ []); [by apply lays_out_blank|]. apply lays_out_app; [done|].
  apply (lays_out_app w' _ []); [by apply lays_out_blank|]. apply lays_out_solid. cbn. by rewrite Hc.
Qed.
(** Objects and arrays over several lines. *)
Lemma lays_out_object_block n l l' :
  Forall2 lays_out l l' → lays_out (object_block n l) ("{"%char :: commas l' ++ ["}"%char]).
Proof.
  intros H. apply (lays_out_bracket "{"%char "}"%char [line_feed] _ (spaces n)); [done..|apply spaces_blank|].
  by apply lays_out_lines.
Qed.
Lemma lays_out_array_block n l l' :
  Forall2 lays_out l l' → lays_out (array_block n l) ("["%char :: commas l' ++ ["]"%char]).
Proof.
  intros H. apply (lays_out_bracket "["%char "]"%char [line_feed] _ (spaces n)); [done..|apply spaces_blank|].
  by apply lays_out_lines.
Qed.

Definition members_ok (l : list (string * json)) : bool :=
  forallb (λ kv, forallb plain (chars kv.1) && well_formed kv.2) l.
Lemma flat_fields_lay_out fields :
  members_ok fields = true → Forall2 lays_out (flat_field <$> fields) (render_member <$> fields).
Proof.
  unfold members_ok. induction fields as [|[k v] l IH]; cbn; [constructor|].
  intros [[Hk Hv]%andb_true_iff Hl]%andb_true_iff. constructor; [|by apply IH].
  apply lays_out_field; [done|]. by apply render_lays_out.
Qed.
Lemma object_line_lays_out fields : members_ok fields = true → lays_out (object_line fields) (render (JObj fields)).
Proof.
  intros H. apply (lays_out_bracket "{"%char "}"%char [] _ []); [done..|].
  by apply lays_out_inline, flat_fields_lay_out.
Qed.
Lemma object_block_lays_out n fields :
  members_ok fields = true → lays_out (object_block n (flat_field <$> fields)) (render (JObj fields)).
Proof. intros H. by apply lays_out_object_block, flat_fields_lay_out. Qed.
Lemma rows_lay_out n rows :
  forallb members_ok rows = true → lays_out (array_block n (object_line <$> rows)) (render (JArr (JObj <$> rows))).
Proof.
  intros H. apply lays_out_array_block. induction rows as [|row rows IH]; [constructor|].
  cbn [forallb] in H. apply andb_true_iff in H as [Hr H]. constructor; [by apply object_line_lays_out|by apply IH].
Qed.

(** A laid out document is read back. *)
Lemma laid_out_read_back text v :
  well_formed v = true → lays_out text (render v) → parse_document (squeeze (text ++ [line_feed])) = Some (meaning v).
Proof. intros Hw Hl. rewrite Hl. cbn. rewrite app_nil_r. by apply document_read_back. Qed.

(** ** The reports *)
Definition frames_json (head : list (string * json)) (rows : list (list (string * json))) : json :=
  JObj (head ++ [("frames", JArr (JObj <$> rows))]).
Lemma frames_block_read_back head rows :
  members_ok head = true → forallb members_ok rows = true →
  parse_document (squeeze (frames_block head rows)) = Some (meaning (frames_json head rows)).
Proof.
  intros Hh Hr. apply laid_out_read_back.
  - change (members_ok (head ++ [("frames", JArr (JObj <$> rows))]) = true). unfold members_ok in *.
    rewrite forallb_app, Hh. cbn. rewrite andb_true_r. clear Hh.
    induction rows as [|row rows IH]; [done|]. cbn in *. apply andb_true_iff in Hr as [-> Hr]. by apply IH.
  - unfold frames_json. cbn [render]. change (λ kv, quoted (chars kv.1) ++ _) with render_member.
    rewrite fmap_app. apply lays_out_object_block, Forall2_app; [by apply flat_fields_lay_out|].
    constructor; [|constructor]. apply lays_out_field; [done|]. by apply rows_lay_out.
Qed.

(** The percentile is one of the values. *)
Lemma percentile_in values q v : percentile values q = Some v → v = d0 ∨ v ∈ values.
Proof.
  unfold percentile. destruct values as [|a l]; [intros [= <-]; by left|]. destruct (_ <? 0); [done|].
  intros Hv%list_elem_of_lookup_2. right. by apply elem_of_std_sort in Hv.
Qed.
Lemma percentile_finite values q v :
  forallb disfinite values = true → percentile values q = Some v → disfinite v = true.
Proof.
  rewrite forallb_forall. intros Hf [->|Hv]%percentile_in; [done|]. by apply Hf, list_elem_of_In.
Qed.
Lemma summary_head_ok schema strategy_id deterministic p95 :
  forallb plain (chars schema) = true → well_formed strategy_id = true → disfinite p95 = true →
  members_ok (summary_head schema strategy_id deterministic p95) = true.
Proof.
  intros Hs Hi Hp. unfold members_ok, summary_head. cbn [forallb fst snd]. rewrite Hi, jprecise_well_formed, Hp.
  unfold jraw. cbn [well_formed]. by rewrite Hs.
Qed.
Lemma jprecise_finite d : disfinite d = true → well_formed (jprecise d) = true.
Proof. by rewrite jprecise_well_formed. Qed.
#[local] Hint Resolve jprecise_finite : documents.

(** *** The domain selector's report *)
Definition readable_pair (p : FamilyPairMetric) : bool := forallb disfinite (pair_doubles p).
Definition readable_domain (d : NumaDomain) : bool :=
  forallb disfinite [nd_demand d; nd_capacity_limit d; nd_capacity_headroom d; nd_background_demand d] &&
  forallb plain (chars (nd_node_decision d)).
Definition readable_frame (f : FrameResult) : bool :=
  disfinite (DomainReplay.fr_solve_ms f) && forallb readable_pair (fr_family_pairs f) &&
  forallb readable_domain (fr_domains f).

Lemma pair_report_ok p : readable_pair p = true → well_formed (pair_report_json p) = true.
Proof.
  unfold readable_pair, pair_doubles. cbn [forallb]. rewrite !andb_true_iff. intros (?&?&?&_). document.
Qed.
Lemma domain_report_ok d : readable_domain d = true → well_formed (domain_report_json d) = true.
Proof.
  unfold readable_domain. cbn [forallb]. rewrite !andb_true_iff. intros ((?&?&?&?&_)&Hn). document.
  by apply mapped_array_well_formed.
Qed.
Lemma forallb_in {A} (f : A → bool) l a : forallb f l = true → a ∈ l → f a = true.
Proof. rewrite forallb_forall. intros H Ha. by apply H, list_elem_of_In. Qed.
Lemma domain_frame_ok f : readable_frame f = true → members_ok (domain_frame_fields f) = true.
Proof.
  unfold readable_frame. rewrite !andb_true_iff. intros [[Hs Hp] Hd].
  change (well_formed (JObj (domain_frame_fields f)) = true). document.
  - apply mapped_array_well_formed. intros m _. document.
  - apply mapped_array_well_formed. intros p Hin. by apply pair_report_ok, (forallb_in _ _ _ Hp).
  - apply mapped_array_well_formed. intros d Hin. by apply domain_report_ok, (forallb_in _ _ _ Hd).
Qed.

(** The document a report is. *)
Definition domain_document (deterministic : bool) (p95 : double) (frames : list FrameResult) : json :=
  frames_json (summary_head "affinitygraph.domain-replay-result.v1" (jraw "numa-domain-v1") deterministic p95)
    (domain_frame_fields <$> frames).
Lemma domain_report_document deterministic frames text :
  forallb readable_frame frames = true → domain_report deterministic frames = Some text →
  ∃ p95, percentile (DomainReplay.fr_solve_ms <$> frames) (dlit 95 100) = Some p95 ∧
    parse_document (squeeze text) = Some (meaning (domain_document deterministic p95 frames)).
Proof.
  intros Hf. unfold domain_report. destruct (percentile _ _) as [p95|] eqn:Hp; [|done]. intros [= <-].
  exists p95. split; [done|]. apply frames_block_read_back.
  - apply summary_head_ok; [done..|]. eapply percentile_finite; [|exact Hp]. apply forallb_forall.
    intros v (f&->&Hin)%list_elem_of_In%list_elem_of_fmap. pose proof (forallb_in _ _ _ Hf Hin) as Hr.
    unfold readable_frame in Hr. by apply andb_true_iff in Hr as [[Hr _]%andb_true_iff _].
  - apply forallb_forall. intros row (f&->&Hin)%list_elem_of_In%list_elem_of_fmap.
    by apply domain_frame_ok, (forallb_in _ _ _ Hf).
Qed.

(** A frame that can be printed can be compared with itself. *)
Lemma readable_comparable f : readable_frame f = true → comparable f.
Proof.
  unfold readable_frame, comparable. intros [[_ Hp]%andb_true_iff _]%andb_true_iff.
  apply Forall_forall. intros p Hin. pose proof (forallb_in _ _ _ Hp Hin) as H.
  unfold readable_pair in H. cbn in H. rewrite !andb_true_iff in H. destruct H as (H1&_&H3&_).
  split; intros E; [rewrite E in H1|rewrite E in H3]; done.
Qed.

(** when [affinity-domain-replay] exits with 0 it has read a log, and it reports
    one frame per window the log gave, in their order.  If the numbers of the frames are finite, the report says
    that the two replays agree and, read as JSON, it is exactly the document of
    those frames. *)
Theorem domain_report_read_back read_json env argv deterministic frames text :
  domain_main read_json env argv = Ok (deterministic, frames) →
  domain_report deterministic frames = Some text →
  forallb readable_frame frames = true →
  deterministic = true ∧
  (∃ path hardware windows, read_runtime_log read_json path (de_log env path) = Ok (hardware, windows) ∧
     DomainReplay.fr_window_id <$> frames = rf_window_id <$> windows) ∧
  ∃ p95, percentile (DomainReplay.fr_solve_ms <$> frames) (dlit 95 100) = Some p95 ∧
    parse_document (squeeze text) = Some (meaning (domain_document true p95 frames)).
Proof.
  intros Hm Ht Hf. destruct (domain_report_document _ _ _ Hf Ht) as (p95&Hp&Hd).
  enough (deterministic = true ∧ ∃ path hardware windows,
    read_runtime_log read_json path (de_log env path) = Ok (hardware, windows) ∧
    DomainReplay.fr_window_id <$> frames = rf_window_id <$> windows) as [-> Hw] by eauto.
  revert Hm. unfold domain_main. destruct (checked_domain_args argv) as [a|]; [|done]. cbn [mbind result_bind].
  destruct (load_config _ _ _ _ _ _) as [config|]; [|done]. cbn [mbind result_bind].
  destruct (read_runtime_log _ _ _) as [[hardware windows]|] eqn:Hl; [|done]. cbn [mbind result_bind].
  destruct (replay_verdict hardware (replay_options config) (de_first_clock env) (de_second_clock env) windows)
    as (rs&rs'&-> & -> &Hids&Hsame). cbn [mbind result_bind].
  destruct (negb _); [done|]. intros [= <- <-]. split; [|by eauto].
  apply Hsame. apply Forall_forall. intros f Hin. by apply readable_comparable, (forallb_in _ _ _ Hf).
Qed.

(** *** The reports of [affinity-replay] *)
Definition metric_doubles (m : Metrics) : list double :=
  [me_thread_count_cv m; me_thread_count_gini m; me_relation_weighted_latency m; me_same_cpu_edge_weight m;
   me_migration_cost m; me_migration_distance m; me_group_locality m; me_group_nonlocality m;
   me_mean_group_cpu_spread m; me_cpu_demand_overload m; me_node_demand_overload m; me_solve_ms m].
Definition finite_option (d : option double) : bool := match d with Some v => disfinite v | None => true end.
Definition readable_metrics (m : Metrics) : bool :=
  forallb disfinite (metric_doubles m) && finite_option (me_p95_threads_per_cpu m) &&
  finite_option (me_max_cpu_demand m).
Definition row_doubles (f : SequenceFrameResult) : list double :=
  [fr_managed_jaccard f; fr_managed_internal_hotspot_coverage f; fr_managed_incident_hotspot_coverage f;
   fr_hotspot_similarity f; fr_relation_node_locality f; fr_same_cpu_relation_ratio f; fr_hotspot_node_locality f;
   fr_hotspot_same_cpu_ratio f; fr_cross_node_hotspot_weight f; fr_minimum_node_utilization f;
   fr_maximum_node_utilization f; fr_solve_ms f].
Definition readable_row (f : SequenceFrameResult) : bool :=
  forallb disfinite (row_doubles f) && finite_option (fr_p95_relation_node_locality f) &&
  forallb plain (chars (fr_phase f)).
Definition readable_report (r : ReplayReport) : bool :=
  match r with
  | SnapshotReport r => readable_metrics (rr_metrics r) && forallb (λ g, forallb plain (chars g.1)) (rr_gates r)
  | SequenceReport _ _ _ frames => forallb readable_row frames
  end.

Definition snapshot_document (r : ReplayResult) (metrics : list (string * json)) : json :=
  JObj [("schema", jraw "affinitygraph.replay-result.v1"); ("window_id", jstring (rr_window_id r));
        ("strategy_id", jstring (rr_strategy_id r)); ("assignments", JArr (JObj <$> (assignment_fields <$> rr_assignments r)));
        ("gates", JObj (gate_fields r)); ("metrics", JObj metrics)].
Definition sequence_document (strategy_id : string) (deterministic : bool) (p95 : double)
    (rows : list (list (string * json))) : json :=
  frames_json (summary_head "affinitygraph.replay-sequence-result.v1" (jstring strategy_id) deterministic p95) rows.
(** What a report says. *)
Definition says (r : ReplayReport) (v : json) : Prop :=
  match r with
  | SnapshotReport r => ∃ metrics, metric_fields (rr_metrics r) = Some metrics ∧ v = snapshot_document r metrics
  | SequenceReport strategy_id deterministic _ frames =>
      ∃ p95 rows, percentile (fr_solve_ms <$> frames) (dlit 95 100) = Some p95 ∧
        mapM sequence_row frames = Some rows ∧ v = sequence_document strategy_id deterministic p95 rows
  end.

Lemma metric_fields_ok m fields :
  readable_metrics m = true → metric_fields m = Some fields → members_ok fields = true.
Proof.
  unfold readable_metrics, metric_doubles, metric_fields. cbn [forallb]. rewrite !andb_true_iff.
  intros [[(?&?&?&?&?&?&?&?&?&?&?&?&_) Hp] Hm].
  destruct (me_p95_threads_per_cpu m) as [p|]; [|done]. destruct (me_max_cpu_demand m) as [d|]; [|done].
  cbn in Hp, Hm. intros [= <-].
  match goal with |- members_ok ?l = true => change (well_formed (JObj l) = true) end. document.
Qed.
Lemma sequence_row_ok f fields : readable_row f = true → sequence_row f = Some fields → members_ok fields = true.
Proof.
  unfold readable_row, row_doubles, sequence_row. cbn [forallb]. rewrite !andb_true_iff.
  intros [[(?&?&?&?&?&?&?&?&?&?&?&?&_) Hp] Hm].
  destruct (fr_p95_relation_node_locality f) as [p|]; [|done]. cbn in Hp. intros [= <-].
  change (well_formed (JObj (sequence_fields f p)) = true). unfold sequence_fields. document.
Qed.
Lemma assignment_rows_lay_out n rows :
  lays_out (array_block n (object_line <$> (assignment_fields <$> rows)))
    (render (JArr (JObj <$> (assignment_fields <$> rows)))).
Proof.
  apply rows_lay_out, forallb_forall. intros l (row&->&_)%list_elem_of_In%list_elem_of_fmap.
  change (well_formed (JObj (assignment_fields row)) = true). document.
Qed.
Lemma gate_fields_ok r :
  forallb (λ g, forallb plain (chars g.1)) (rr_gates r) = true → members_ok (gate_fields r) = true.
Proof.
  intros Hg. unfold members_ok, gate_fields. rewrite forallb_app. cbn [forallb fst snd well_formed andb].
  rewrite andb_true_r. induction (rr_gates r) as [|g l IH]; [done|].
  cbn [fmap list_fmap forallb fst snd well_formed] in *. apply andb_true_iff in Hg as [Hp Hg].
  rewrite Hp. by apply IH.
Qed.
Lemma snapshot_report_document r text :
  readable_report (SnapshotReport r) = true → snapshot_report r = Some text →
  ∃ metrics, metric_fields (rr_metrics r) = Some metrics ∧
    parse_document (squeeze text) = Some (meaning (snapshot_document r metrics)).
Proof.
  cbn [readable_report]. intros [Hm Hg]%andb_true_iff. unfold snapshot_report.
  destruct (metric_fields _) as [metrics|] eqn:E; [|done]. intros [= <-]. exists metrics. split; [done|].
  pose proof (metric_fields_ok _ _ Hm E) as Hmf. pose proof (gate_fields_ok r Hg) as Hgf. apply laid_out_read_back.
  - apply object_well_formed. members; [reflexivity..| | |]; [|done..].
    apply mapped_array_well_formed. intros l (row&->&_)%list_elem_of_fmap. document.
  - unfold snapshot_document. cbn [render]. change (λ kv, quoted (chars kv.1) ++ _) with render_member.
    apply lays_out_object_block.
    repeat first [apply Forall2_nil_2 | apply Forall2_cons_2; [apply lays_out_field; [done|cbn [snd]]|]].
    + by apply render_lays_out.
    + by apply render_lays_out.
    + by apply render_lays_out.
    + apply assignment_rows_lay_out.
    + by apply object_block_lays_out.
    + by apply object_block_lays_out.
Qed.
Lemma sequence_report_document strategy_id deterministic frames text :
  forallb readable_row frames = true → sequence_report strategy_id deterministic frames = Some text →
  ∃ p95 rows, percentile (fr_solve_ms <$> frames) (dlit 95 100) = Some p95 ∧ mapM sequence_row frames = Some rows ∧
    parse_document (squeeze text) = Some (meaning (sequence_document strategy_id deterministic p95 rows)).
Proof.
  intros Hf. unfold sequence_report. destruct (percentile _ _) as [p95|] eqn:Hp; [|done]. cbn [mbind option_bind].
  destruct (mapM _ _) as [rows|] eqn:Hr; [|done]. intros [= <-]. exists p95, rows. split_and!; [done..|].
  apply frames_block_read_back.
  - apply summary_head_ok; [done..|]. eapply percentile_finite; [|exact Hp]. apply forallb_forall.
    intros v (f&->&Hin)%list_elem_of_In%list_elem_of_fmap. pose proof (forallb_in _ _ _ Hf Hin) as Hw.
    unfold readable_row, row_doubles in Hw. cbn [forallb] in Hw. rewrite !andb_true_iff in Hw. tauto.
  - apply forallb_forall. intros row Hrow%list_elem_of_In.
    apply list_elem_of_lookup in Hrow as [i Hrow].
    destruct (Forall2_lookup_r _ _ _ _ _ (mapM_Some_1 _ _ _ Hr) Hrow) as (f&Hin%list_elem_of_lookup_2&Hrw).
    apply (sequence_row_ok f); [by apply (forallb_in _ _ _ Hf)|done].
Qed.

(** the report [affinity-replay] writes for a snapshot or for a sequence is JSON
    whenever its numbers are finite: read back, it says the assignments, gates
    and metrics of the snapshot, or the summary and every row of the sequence. *)
Theorem replay_report_read_back r text :
  report_text r = Some text → readable_report r = true →
  ∃ v, says r v ∧ parse_document (squeeze text) = Some (meaning v).
Proof.
  destruct r as [r|strategy_id deterministic summary frames]; cbn [report_text]; intros Ht Hr.
  - destruct (snapshot_report_document r text Hr Ht) as (metrics&Hm&Hd).
    eexists. split; [by exists metrics|done].
  - destruct (sequence_report_document _ _ _ _ Hr Ht) as (p95&rows&Hp&Hrows&Hd).
    eexists. split; [by exists p95, rows|done].
Qed.
Definition demo_sequence_text : list ascii :=
  default [] (report_text (SequenceReport "s" true None demo_rows)).
Lemma replay_report_read_back_witness :
  ∃ v, says (SequenceReport "s" true None demo_rows) v ∧ parse_document (squeeze demo_sequence_text) = Some (meaning v).
Proof.
  apply replay_report_read_back; vm_compute; reflexivity.
Defined.

(** *** A run on two windows, of which one was planned *)
Definition demo_replay_env : DomainReplayEnv :=
  mk_DomainReplayEnv (λ _, Some demo_toml) None (Some "p.json") None (λ _, Some demo_log) (λ _, true) (λ _, d1)
    (λ _, dlit 1 2).
Definition demo_domain_run : result (bool * list FrameResult) :=
  Eval vm_compute in domain_main demo_json demo_replay_env
    ["--runtime-log"; "run.jsonl"; "--config"; "ag.toml"; "--output"; "out.json"].
Definition demo_domain_frames : list FrameResult := match demo_domain_run with Ok r => r.2 | Throw _ => [] end.
Definition demo_domain_text : list ascii := default [] (domain_report true demo_domain_frames).
Example demo_domain_text_starts :
  text (take 113 demo_domain_text) =
  text (chars "{" ++ line_feed :: chars "  " ++ quoted (chars "schema") ++ chars ": " ++
        quoted (chars "affinitygraph.domain-replay-result.v1") ++ ","%char :: line_feed :: chars "  " ++
        quoted (chars "strategy_id") ++ chars ": " ++ quoted (chars "numa-domain-v1") ++ ","%char :: line_feed ::
        chars "  " ++ quoted (chars "deterministic") ++ chars ": true").
Proof. vm_compute. reflexivity. Qed.
Lemma domain_report_read_back_witness :
  DomainReplay.fr_window_id <$> demo_domain_frames = ["1"] ∧
  ∃ p95, parse_document (squeeze demo_domain_text) = Some (meaning (domain_document true p95 demo_domain_frames)).
Proof.
  split; [vm_compute; reflexivity|].
  assert (H1 : domain_main demo_json demo_replay_env
    ["--runtime-log"; "run.jsonl"; "--config"; "ag.toml"; "--output"; "out.json"] = Ok (true, demo_domain_frames))
    by (vm_compute; reflexivity).
  assert (H2 : domain_report true demo_domain_frames = Some demo_domain_text) by (vm_compute; reflexivity).
  assert (H3 : forallb readable_frame demo_domain_frames = true) by (vm_compute; reflexivity).
  destruct (domain_report_read_back _ _ _ _ _ _ H1 H2 H3) as (_&_&p95&_&Hd). exists p95. exact Hd.
Defined.
