(* ===== verification/RuntimeEventFacts.v ===== *)
(** * Facts on the runtime's loop

    Every operation of the loop keeps the runtime's invariant and throws
    nothing; the rules compose along the code. *)
From Stdlib Require Import SpecFloat.
From S2P Require Import Prelude Binary64 Core CpuList Actuator Topology DomainPlanner DomainSolver.
From S2P Require Import GraphWindow GraphFacts GraphProperties ThreadProfile Config ConfigProperties Hotspot.
From S2P Require Import Incremental IncrementalPropose Runtime RuntimeSolve RuntimeFacts BpfPending RuntimeEvents.
Local Open Scope string_scope.
Local Open Scope Z_scope.
Local Open Scope ag_scope.

(** ** The invariant *)
Section invariant.
Context {W : Type} `{AffinityBackendLaws W}.
Context (D : Runtime W → Prop) (log1p : double → double).

(** What the members satisfy, whoever holds the mutex. *)
Record core_ok (d : NumaDomainSolver) (a : Actuator) (g : GraphWindow) : Prop := {
  co_outstanding : ds_outstanding d = None;
  co_act : act_ok a;
  co_window : window_inv log1p g;
}.
Definition core (s : Runtime W) : Prop := core_ok (rt_domain_solver s) (rt_actuator s) (rt_graph s).
(** Between two critical sections. *)
Definition idle (s : Runtime W) : Prop := rt_locked s = false ∧ core s.

(** From [P], [m] throws nothing, leaves [Q] when it returns, and [D] if it
    blocks. *)
Definition safe {A} (P Q : Runtime W → Prop) (m : M W A) : Prop :=
  ∀ s, P s → wp m (λ _, Q) D s.

Lemma safe_ret {A} P (a : A) : safe P P (mret a).
Proof. by intros s Hs. Qed.
Lemma safe_get P : safe P P get.
Proof. by intros s Hs. Qed.
Lemma safe_bind {A B} P Q R (m : M W A) (f : A → M W B) :
  safe P Q m → (∀ a, safe Q R (f a)) → safe P R (m ≫= f).
Proof.
  intros Hm Hf s Hs. apply wp_bind. eapply wp_mono; [by apply Hm| |done]. intros a s'. apply Hf.
Qed.
Lemma safe_if {A} P Q (b : bool) (m m' : M W A) :
  safe P Q m → safe P Q m' → safe P Q (if b then m else m').
Proof. intros. by destruct b. Qed.
Lemma safe_when P b m : safe P P m → safe P P (when b m).
Proof. intros. destruct b; [done|apply safe_ret]. Qed.
Lemma safe_for_each {A} P (l : list A) f : (∀ x, safe P P (f x)) → safe P P (for_each l f).
Proof.
  intros Hf. induction l as [|x l IH]; [apply safe_ret|]. by eapply safe_bind; [apply Hf|intros _].
Qed.
Lemma safe_lock {A} (m : M W A) : safe core core m → safe idle idle (with_lock m).
Proof.
  intros Hm s [Hl Hs]. unfold wp, with_lock. rewrite Hl.
  specialize (Hm (s ⟨ rt_locked := true ⟩) Hs). unfold wp in Hm. by destruct (m _).
Qed.

(** An update that leaves the invariant's members alone. *)
Definition neutral (f : Runtime W → Runtime W) : Prop :=
  ∀ s, rt_domain_solver (f s) = rt_domain_solver s ∧ rt_actuator (f s) = rt_actuator s ∧
       rt_graph (f s) = rt_graph s ∧ rt_locked (f s) = rt_locked s.
Lemma neutral_core f : neutral f → safe core core (modify f).
Proof. intros Hf s Hs. destruct (Hf s) as (H1 & H2 & H3 & _). unfold wp, core, modify. by rewrite H1, H2, H3. Qed.
Lemma neutral_idle f : neutral f → safe idle idle (modify f).
Proof.
  intros Hf s [Hl Hs]. destruct (Hf s) as (H1 & H2 & H3 & H4). unfold wp, idle, core, modify.
  by rewrite H1, H2, H3, H4.
Qed.
Lemma log_core type o : safe core core (log type o).
Proof. by apply neutral_core. Qed.
Lemma log_idle type o : safe idle idle (log type o).
Proof. by apply neutral_idle. Qed.

(** ** Stopping *)

(** Nothing bound, nothing planned. *)
Record disarmed (s : Runtime W) : Prop := {
  dis_paused : rt_paused s = true;
  dis_actuator : rt_actuator s = Actuator_init;
  dis_domain : rt_domain_solver s = NumaDomainSolver_init;
  dis_masks : rt_current_masks s = ∅ ∧ rt_current_plan s = ∅ ∧ rt_active_cohort s = ∅;
  dis_ready : rt_selector_ready s = false;
}.

(** Every mask the actuator of [s] holds is written back in [s']: each thread is
    restored, vanished or counted as failed, no other thread is written, and when
    none failed each live one has the mask saved for it. *)
Record masks_restored (s s' : Runtime W) : Prop := {
  mr_requested : rr_requested (rt_last_restore s') = Z.of_nat (size (acted_tids (rt_actuator s)));
  mr_counts : rr_restored (rt_last_restore s') + rr_vanished (rt_last_restore s') +
    rr_failed (rt_last_restore s') = rr_requested (rt_last_restore s');
  mr_others : ∀ t, t ∉ acted_tids (rt_actuator s) → backend_get (rt_world s') t = backend_get (rt_world s) t;
  mr_masks : rr_success (rt_last_restore s') = true → ∀ t, t ∈ acted_tids (rt_actuator s) →
    alive (rt_world s) t = true →
    ∃ mask, restore_masks (rt_actuator s) !! t = Some mask ∧ backend_get (rt_world s') t = mask;
}.

Lemma pause_idle s :
  idle s → ∃ s', pause s = Returned tt s' ∧ idle s' ∧ disarmed s' ∧
    rt_fatal_error s' = rt_fatal_error s ∧ rt_health s' = rt_health s ∧ masks_restored s s'.
Proof.
  intros [Hl [Ho Ha Hg]].
  destruct (restore_all_loop_counts (restore_masks (rt_actuator s)) (rt_world s)
    (mk_RestoreResult (Z.of_nat (size (acted_tids (rt_actuator s)))) 0 0 0)
    (set_items (acted_tids (rt_actuator s)))) as (w' & r & Hr & Hreq & Hsum).
  { intros t Ht%elem_of_set_items. by apply Ha. }
  destruct (restore_all_loop_gets _ _ _ _ _ _ (NoDup_set_items _) Hr) as (_ & Hfr & _ & Hg').
  rewrite length_set_items in Hsum.
  unfold pause, with_lock, modify, mbind, M_bind. runtime_simpl. rewrite Hl.
  unfold actuator_restore_all, restore_all. runtime_simpl. rewrite Hr.
  unfold modify, log, reset_members. runtime_simpl. eexists. split; [reflexivity|].
  split_and!; [split; [done|]|by split|done|done|].
  - split; cbn; [done| |done]. by intros t ?%elem_of_empty.
  - split; cbn in *; [done|lia| |].
    + intros t Ht. apply Hfr. by rewrite elem_of_set_items.
    + intros Hs t Ht Hal. destruct (Ha t Ht) as [mask Hm]. exists mask. split; [done|].
      unfold rr_success in Hs. apply Z.eqb_eq in Hs. apply (Hg' Hs t mask); [by apply elem_of_set_items|done..].
Qed.

Lemma trigger_fatal_idle msg s :
  idle s → ∃ s', trigger_fatal msg s = Returned tt s' ∧ idle s' ∧ rt_health s' = rt_health s ∧
    if decide (rt_fatal_error s = "") then rt_fatal_error s' = msg ∧ rt_terminated s' = true ∧ disarmed s' ∧ masks_restored s s'
    else rt_fatal_error s' = rt_fatal_error s.
Proof.
  intros [Hl Hc]. unfold trigger_fatal, with_lock, record_fatal, mbind, M_bind. runtime_simpl. rewrite Hl.
  destruct (decide (rt_fatal_error s = "")) as [He|He].
  - rewrite bool_decide_false by (by intros []). unfold log at 1, modify at 1.
    match goal with |- context [pause ?x] =>
      destruct (pause_idle x) as (s' & -> & Hi & [? ? ? ? ?] & Hm & Hh & [? ? ? ?]); [done|] end.
    unfold terminate, modify. runtime_simpl. eexists. split; [reflexivity|]. split_and!; [done..|by split|by split].
  - rewrite bool_decide_true by done. eexists. split; [reflexivity|]. by split.
Qed.

Lemma pause_safe : safe idle idle pause.
Proof. intros s Hs. destruct (pause_idle s Hs) as (s' & Hp & Hi & _). unfold wp. by rewrite Hp. Qed.
Lemma trigger_fatal_safe msg : safe idle idle (trigger_fatal msg).
Proof. intros s Hs. destruct (trigger_fatal_idle msg s Hs) as (s' & Hp & Hi & _). unfold wp. by rewrite Hp. Qed.
End invariant.

#[export] Hint Resolve safe_ret safe_get log_core log_idle pause_safe trigger_fatal_safe : ag.

(** Walks through a computation that keeps the invariant [P]. *)
Ltac safe_walk :=
  repeat first
    [ progress eauto with ag
    | lazymatch goal with
      | |- safe _ _ _ (_ ≫= _) => eapply safe_bind; [|intros]
      | |- safe _ _ _ (if _ then _ else _) => apply safe_if
      | |- safe _ _ _ (when _ _) => apply safe_when
      | |- safe _ _ _ (for_each _ _) => apply safe_for_each; intros
      | |- safe _ _ _ (with_lock _) => apply safe_lock
      | |- safe _ (core _) _ (modify _) => apply neutral_core; by intros ?
      | |- safe _ (idle _) _ (modify _) => apply neutral_idle; by intros ?
      end ].

(** ** Events *)
Section events.
Context {W : Type} `{AffinityBackendLaws W} (D : Runtime W → Prop).
Context (config : Config) (profile : option ThreadProfile) (log1p : double → double).
Context (module_offset : Z → Z → string) (order : relations_order).
Abbreviation safe_idle m := (safe D (idle log1p) (idle log1p) m).
Abbreviation safe_core m := (safe D (core log1p) (core log1p) m).

Lemma note_application_mask_ok a t m : act_ok a → act_ok (note_application_mask a t m).
Proof. intros Ha x Hx. cbn in *. rewrite lookup_insert. case_decide; [by eexists|by apply Ha]. Qed.
Lemma note_inherited_mask_ok a t p m : act_ok a → act_ok (note_inherited_mask a t p m).
Proof.
  intros Ha x Hx. unfold note_inherited_mask in *. destruct (restore_masks a !! t); [by apply Ha|].
  cbn in *. rewrite lookup_insert. case_decide; [by eexists|by apply Ha].
Qed.

Lemma thread_started_safe r : safe_idle (thread_started r).
Proof. unfold thread_started. safe_walk. Qed.
Lemma thread_renamed_safe t n : safe_idle (thread_renamed t n).
Proof. unfold thread_renamed. safe_walk. Qed.
Lemma thread_exited_safe t : safe_idle (thread_exited t).
Proof. unfold thread_exited. safe_walk. intros s [Ho Ha Hg]. by split. Qed.
Lemma application_affinity_safe t cpus : safe_idle (application_affinity t cpus).
Proof.
  unfold application_affinity. safe_walk. intros s [Ho Ha Hg]. unfold wp, modify, note_affinity.
  destruct (rt_lifecycle s !! t); split; try done. by apply note_application_mask_ok.
Qed.
Hint Resolve thread_started_safe thread_renamed_safe thread_exited_safe application_affinity_safe : ag.

Lemma observe_event_safe e : safe_core (modify (observe_event config e)).
Proof.
  intros s [Ho Ha Hg]. unfold wp, modify, observe_event. repeat (case_match; try done).
  split; [done|done|]. by apply observe_relation_ok.
Qed.
Hint Resolve observe_event_safe : ag.

Lemma handle_bpf_event_safe e : safe_idle (handle_bpf_event config profile module_offset e).
Proof. unfold handle_bpf_event. safe_walk. Qed.
Hint Resolve handle_bpf_event_safe : ag.

Lemma ingest_safe b : safe_idle (ingest config profile log1p module_offset order b).
Proof.
  unfold ingest. safe_walk. intros s [Ho Ha Hg]. split; [done|done|]. by apply retain_relations_ok.
Qed.
Hint Resolve ingest_safe : ag.

Lemma consume_pending_bpf_safe clock p :
  safe_idle (consume_pending_bpf config profile log1p module_offset order clock p).
Proof. unfold consume_pending_bpf, consume_batch. cbn [take_pending]. safe_walk. Qed.

(** ** Health *)
Lemma sample_bpf_health_safe now p : safe_idle (sample_bpf_health now p).
Proof.
  unfold sample_bpf_health. cbn [take_health]. safe_walk.
  unfold judge_sample, update_health. safe_walk.
Qed.
End events.

(** Without [D], [m] returns. *)
Lemma safe_returns {W A} `{AffinityBackendLaws W} P Q (m : M W A) s :
  safe (λ _, False) P Q m → P s → ∃ a s', m s = Returned a s' ∧ Q s'.
Proof. intros Hm Hs. specialize (Hm s Hs). unfold wp in Hm. destruct (m s); [by eauto|done|done]. Qed.

(** ** The fatal error *)

(** An event records no fatal error, writes no mask and acts on no thread. *)
Definition undisturbed {W} (s s' : Runtime W) : Prop :=
  (rt_fatal_error s', rt_world s', acted_tids (rt_actuator s')) =
  (rt_fatal_error s, rt_world s, acted_tids (rt_actuator s)).
#[export] Instance undisturbed_frame {W} : Frame (W := W) undisturbed.
Proof. split; [split|done|done]; [done|]. unfold undisturbed. intros s1 s2 s3. congruence. Qed.

Section fatal.
Context {W : Type} `{AffinityBackendLaws W}.
Context (config : Config) (profile : option ThreadProfile) (log1p : double → double).
Context (module_offset : Z → Z → string) (order : relations_order).

Lemma frames_for_each {A} R `{!Frame (W := W) R} (l : list A) f :
  (∀ x, frames R (f x)) → frames R (for_each l f).
Proof.
  intros Hf. induction l as [|x l IH]; cbn [for_each]; [by apply frames_ret|].
  by apply frames_bind; [|apply Hf|intros _].
Qed.

Lemma handle_bpf_event_quiet e :
  frames (W := W) undisturbed (handle_bpf_event config profile module_offset e).
Proof.
  unfold handle_bpf_event, thread_started, thread_exited, thread_renamed, application_affinity. frames_walk.
  - apply frames_modify. intros s. unfold observe_event. by repeat case_match.
  - apply frames_modify. intros s. unfold note_affinity. by case_match.
Qed.

Lemma ingest_quiet b :
  frames (W := W) undisturbed (ingest config profile log1p module_offset order b).
Proof.
  unfold ingest, when. frames_walk. apply frames_for_each; [apply _|]. intros x. apply handle_bpf_event_quiet.
Qed.
End fatal.

(** ** Reconciliation *)
Section reconcile.
Context {W : Type} `{AffinityBackendLaws W} (D : Runtime W → Prop).
Context (config : Config) (profile : option ThreadProfile) (log1p : double → double).
Abbreviation safe_idle m := (safe D (idle log1p) (idle log1p) m).
Abbreviation safe_core m := (safe D (core log1p) (core log1p) m).

(** [m] may throw, and keeps [P] also then. *)
Definition robust {A} (P : Runtime W → Prop) (m : M W A) : Prop :=
  ∀ s, P s → match m s with
             | Returned _ s' | Thrown _ s' => P s'
             | Deadlocked s' => D s'
             end.
Lemma safe_robust {A} P (m : M W A) : safe D P P m → robust P m.
Proof. intros Hm s Hs. specialize (Hm s Hs). unfold wp in Hm. by destruct (m s). Qed.
Lemma robust_throw {A} P e : robust P (throw (A := A) e).
Proof. by intros s Hs. Qed.
Lemma robust_bind {A B} P (m : M W A) (f : A → M W B) :
  robust P m → (∀ a, robust P (f a)) → robust P (m ≫= f).
Proof.
  intros Hm Hf s Hs. specialize (Hm s Hs). unfold mbind, M_bind. destruct (m s) as [a s'|e s'|s']; try done.
  by apply Hf.
Qed.
Lemma safe_try {A} P (m : M W A) h :
  robust P m → (∀ e, safe D P P (h e)) → safe D P P (try_catch m h).
Proof.
  intros Hm Hh s Hs. specialize (Hm s Hs). unfold wp, try_catch. destruct (m s) as [a s'|e s'|s']; try done.
  by apply Hh.
Qed.

Lemma note_life_core x (s : Runtime W) : core log1p s → core log1p (note_life x s).1.
Proof.
  intros [Ho Ha Hg]. unfold note_life.
  destruct (reconcile_record x (rt_lifecycle s !! tid (ts_identity x))) as [r []]; cbn [fst];
    split; cbn; try done; case_match; auto using note_application_mask_ok, note_inherited_mask_ok.
Qed.

Lemma match_profile_safe x b : safe_core (match_profile profile x b).
Proof.
  unfold match_profile. destruct profile as [p|]; [|safe_walk].
  eapply safe_bind; [apply safe_get|intros s0].
  destruct (profile_assignment p x (rt_profile_state s0)) as [[a|] st]; safe_walk.
Qed.

Lemma reconcile_samples_safe xs : ∀ b, safe_core (reconcile_samples profile xs b).
Proof.
  induction xs as [|x xs IH]; intros b; cbn [reconcile_samples]; [safe_walk|].
  intros s Hs. apply wp_bind, wp_get. pose proof (note_life_core x s Hs) as Hn.
  destruct (note_life x s) as [s' r]. apply wp_bind, wp_modify. cbn [fst] in Hn. revert Hn. generalize s'.
  change (safe_core (b' ← match_profile profile (with_record x r) b;
    '(ys, b'') ← reconcile_samples profile xs b'; mret (with_record x r :: ys, b''))).
  eapply safe_bind; [apply match_profile_safe|intros b']. eapply safe_bind; [apply IH|].
  intros [ys b'']. apply safe_ret.
Qed.

Lemma drop_unseen_safe seen : safe_core (modify (drop_unseen config profile seen)).
Proof.
  intros s [Ho Ha Hg]. unfold wp, modify, drop_unseen.
  destruct (static_profile config profile); split; cbn; try done.
  destruct (remove_threads_fields (set_items (dom (rt_lifecycle s) ∖ seen)) (rt_domain_solver s)) as [-> _].
  done.
Qed.

Lemma observe_samples_safe xs : safe_core (observe_samples config profile xs).
Proof.
  unfold observe_samples. apply safe_if; [apply safe_ret|]. intros s [Ho Ha Hg].
  destruct (observe_threads_ok log1p xs (rt_graph s) Hg) as (g & Hog & Hg').
  apply wp_bind, wp_get, wp_bind. unfold wp, lift. rewrite Hog. by split.
Qed.
Hint Resolve reconcile_samples_safe drop_unseen_safe observe_samples_safe : ag.

Lemma reconcile_safe samples existing : safe_idle (reconcile config profile samples existing).
Proof.
  unfold reconcile. apply safe_lock. eapply safe_bind; [by apply neutral_core|intros _].
  eapply safe_bind; [apply reconcile_samples_safe|intros [xs b]]. safe_walk.
Qed.

Lemma apply_profile_safe b : safe_idle (apply_profile config b).
Proof.
  unfold apply_profile. safe_walk. intros s [Hl [Ho Ha Hg]]. unfold wp, actuator_apply, apply.
  pose proof (apply_delta_act_ok (rt_world s) (rt_actuator s) (delta_masks (mk_PlacementDelta ∅ (pb_masks b)))
    (pb_live b) Ha) as Hok.
  destruct (apply_delta _ _ _ _) as [[w a] r]. split; [done|]. by split.
Qed.

Lemma quiesce_safe clock b : safe_idle (quiesce config profile clock b).
Proof. unfold quiesce. safe_walk. Qed.

Lemma collector_failed_safe t1 t2 e : safe_idle (collector_failed config t1 t2 e).
Proof. unfold collector_failed. safe_walk. Qed.

Lemma gather_robust collect l : robust (idle log1p) (gather config profile collect l).
Proof.
  induction l as [|g l IH]; cbn [gather]; [apply safe_robust; safe_walk|].
  destruct (collect g) as [[xs|e]|]; [|apply robust_throw|done].
  apply robust_bind; [apply safe_robust; safe_walk|intros _]. apply robust_bind; [done|].
  intros [ys existing]. apply safe_robust, safe_ret.
Qed.

Lemma reconcile_and_sample_safe collect c1 c2 c3 :
  safe_idle (reconcile_and_sample config profile collect c1 c2 c3).
Proof.
  unfold reconcile_and_sample. apply safe_try; [|apply collector_failed_safe].
  apply robust_bind; [apply safe_robust; safe_walk|intros targets].
  apply robust_bind; [apply gather_robust|intros [samples existing]].
  destruct (bool_decide (samples = [])); [apply robust_throw|]. apply safe_robust.
  eapply safe_bind; [apply reconcile_safe|intros b]. eapply safe_bind; [apply apply_profile_safe|intros _].
  eapply safe_bind; [apply quiesce_safe|intros _]. by apply neutral_idle.
Qed.
End reconcile.

(** ** Solving *)
Section solving.
Context {W : Type} `{AffinityBackendLaws W}.
Context (config : Config) (hardware : HardwareGraph) (profile : option ThreadProfile).
Context (bpf_reader : bool) (log1p : double → double).

(** The window of the legacy selector is out of reach. *)
Definition domain_only : Prop :=
  mode config = Observe ∨ static_profile_effective config profile = true ∨
  solver config = "numa-domain-v1".

Lemma read_graph_ok g :
  window_inv log1p g →
  ∃ ds rs es delta g', read_graph config log1p g = Ok (ds, rs, es, delta, g') ∧ window_inv log1p g'.
Proof.
  intros Hg. unfold read_graph. destruct (demands_inv log1p g Hg) as (_ & Hg1 & _).
  destruct (demands g) as [ds g1]. cbn [snd] in Hg1.
  destruct (thread_records_ok log1p g1 Hg1) as (rs & g2 & -> & Hg2). cbn [mbind result_bind].
  destruct (edges_inv log1p g2 Hg2) as (_ & Hg3 & _). destruct (edges log1p g2) as [es g3]. cbn [snd] in Hg3.
  match goal with |- context [take_delta ?a ?b ?c ?d ?e] =>
    destruct (take_delta_spec log1p b c d e Hg3) as (Hg4 & _); destruct (take_delta a b c d e) as [delta g4] end.
  by exists ds, rs, es, delta, g4.
Qed.

Lemma solve_window_safe now (s : Runtime W) :
  domain_only → core log1p s → rt_locked s = true →
  wp (solve_window config hardware profile bpf_reader log1p now) (λ _, core log1p) (window_blocked config) s.
Proof.
  intros Hd [Ho Ha Hg] Hl. unfold solve_window. repeat wp_step.
  destruct (read_graph_ok _ Hg) as (ds & rs & es & delta & g & Hr & Hg').
  unfold wp at 1, lift. rewrite Hr. repeat wp_step. unfold log_inputs. repeat wp_step.
  match goal with |- wp _ _ _ ?st => set (s1 := st) end.
  case_bool_decide as Hobs; [by apply wp_log|].
  destruct (static_profile_effective config profile) eqn:Hst; [by apply wp_log|].
  assert (solver config = "numa-domain-v1") as Hsol by (destruct Hd as [?|[?|?]]; congruence).
  rewrite bool_decide_true by done.
  eapply wp_mono; [apply (solve_numa_domains_wp config hardware bpf_reader ds es (allowed_of rs) now s1)| |done];
    [done..|]. intros _ s' [H1 H2 H3 H4 H5 H6 _ _ _]. split; [done|done|]. by rewrite H5.
Qed.

Lemma maybe_solve_safe now :
  domain_only →
  safe (window_blocked config) (idle log1p) (idle log1p) (maybe_solve (W := W) config hardware profile bpf_reader log1p now).
Proof.
  intros Hd. unfold maybe_solve. eapply safe_bind; [apply safe_get|intros s0]. apply safe_if; [apply safe_ret|].
  eapply safe_bind; [by apply neutral_idle|intros _]. intros s [Hl Hs]. unfold wp, with_lock. rewrite Hl.
  pose proof (solve_window_safe now (s ⟨ rt_locked := true ⟩) Hd Hs eq_refl) as Hw. unfold wp in Hw.
  by destruct (solve_window _ _ _ _ _ _ _).
Qed.
End solving.

(** ** The loop *)
Section run.
Context {W : Type} `{AffinityBackendLaws W}.
Context (config : Config) (hardware : HardwareGraph) (profile : option ThreadProfile).
Context (bpf_reader : bool) (log1p : double → double).
Context (module_offset : Z → Z → string) (order : relations_order).
Context (Hd : domain_only config profile).
Hint Resolve consume_pending_bpf_safe sample_bpf_health_safe reconcile_and_sample_safe maybe_solve_safe : ag.

Lemma scan_safe i p :
  safe (W := W) (window_blocked config) (idle log1p) (idle log1p)
    (scan config hardware profile bpf_reader log1p module_offset order i p).
Proof. unfold scan. safe_walk. Qed.

Lemma iterate_safe l i :
  safe (W := W) (window_blocked config) (idle log1p) (idle log1p)
    (iterate config hardware profile bpf_reader log1p module_offset order l i).
Proof.
  unfold iterate. eapply safe_bind.
  - destruct (it_command i) as [[]|]; cbn [service_control_socket]; safe_walk. unfold resume. safe_walk.
  - intros _. eapply safe_bind; [apply safe_get|intros s]. apply safe_if; [apply scan_safe|apply safe_ret].
Qed.

Lemma run_safe steps : ∀ l,
  safe (W := W) (window_blocked config) (idle log1p) (idle log1p)
    (run config hardware profile bpf_reader log1p module_offset order l steps).
Proof.
  induction steps as [|i steps IH]; intros l; cbn [run]; [apply safe_ret|].
  by eapply safe_bind; [apply iterate_safe|intros l'].
Qed.
End run.

(** ** Ingesting relations *)
Lemma pair_id_halves l r :
  0 ≤ l < 2 ^ 32 → 0 ≤ r < 2 ^ 32 →
  pair_first (pair_id l r) = Z.min l r ∧ pair_second (pair_id l r) = Z.max l r.
Proof.
  intros Hl Hr. unfold pair_first, pair_second, pair_id. split.
  - rewrite Z.shiftr_lor, Z.shiftr_shiftl_l by lia. rewrite (Z.shiftr_div_pow2 (Z.max l r)) by lia.
    rewrite Z.div_small by lia. cbn. rewrite Z.lor_0_r. apply Z.shiftl_0_r.
  - rewrite <- Z.land_ones, Z.land_lor_distr_l, !Z.land_ones, Z.shiftl_mul_pow2 by lia.
    rewrite Z.mod_mul by lia. rewrite Z.mod_small by lia. done.
Qed.

(** Thread identifiers fit an [int], and the table only has relations. *)
Definition relation_key_ok (k : PendingRelationKey) : Prop :=
  (prk_kind k = AFFINITYGRAPH_FUTEX ∨ prk_kind k = AFFINITYGRAPH_VFS) ∧
  0 ≤ prk_tid k < 2 ^ 31 ∧ 0 ≤ prk_peer_tid k < 2 ^ 31.
Definition key_pair (k : PendingRelationKey) : Z * Z := edge_key (prk_tid k) (prk_peer_tid k).

Lemma int_of_u32_small z : 0 ≤ z < 2 ^ 31 → int_of_u32 z = z.
Proof. intros. unfold int_of_u32. destruct (Z.ltb_spec z (2 ^ 31)); lia. Qed.

Lemma resident_pair k :
  relation_key_ok k →
  (int_of_u32 (pair_first (pair_of k)), int_of_u32 (pair_second (pair_of k))) = key_pair k.
Proof.
  intros (_ & Ht & Hp). unfold pair_of. destruct (pair_id_halves (prk_tid k) (prk_peer_tid k)) as [-> ->]; [lia..|].
  rewrite !int_of_u32_small by lia. done.
Qed.

Lemma elem_of_push_back {K A} `{Countable K} (k t : K) (x y : A) m :
  y ∈ get_or [] (push_back k x m) t ↔ y ∈ get_or [] m t ∨ t = k ∧ y = x.
Proof.
  rewrite get_or_push_back. case_decide; subst; [|naive_solver].
  rewrite elem_of_app, list_elem_of_singleton. naive_solver.
Qed.

Lemma elem_of_incident weights t w p :
  (w, p) ∈ get_or [] (incident weights) t ↔
  weights !! p = Some w ∧ (pair_first p = t ∨ pair_second p = t).
Proof.
  rewrite <- elem_of_items. unfold incident. induction (items weights) as [|[q x] l IH] using rev_ind.
  - cbn. set_solver.
  - rewrite foldl_app. cbn [foldl fst snd]. rewrite !elem_of_push_back, IH, elem_of_app, list_elem_of_singleton.
    naive_solver.
Qed.

Lemma pair_weights_dom config log1p duration relations p :
  p ∈ dom (pair_weights config log1p duration relations) ↔ ∃ e, e ∈ relations ∧ pair_of e.1 = p.
Proof.
  unfold pair_weights. induction relations as [|e l IH] using rev_ind; [cbn; set_solver|].
  rewrite foldl_app. cbn [foldl]. rewrite dom_insert, elem_of_union, elem_of_singleton, IH.
  setoid_rewrite elem_of_app. setoid_rewrite list_elem_of_singleton. naive_solver.
Qed.

Lemma elem_of_top_pairs config l p : p ∈ top_pairs config l → ∃ w, (w, p) ∈ l.
Proof.
  unfold top_pairs. intros ([w q] & -> & Hq)%list_elem_of_fmap. exists w.
  eapply elem_of_std_sort, subseteq_take, Hq.
Qed.

Lemma elem_of_retained config weights p :
  p ∈ retained_pairs config weights ↔
  if bool_decide (solver config = "numa-domain-v1") then p ∈ dom weights
  else ∃ t, p ∈ top_pairs config (get_or [] (incident weights) t).
Proof.
  unfold retained_pairs. case_bool_decide; [done|].
  rewrite (foldl_union_elem (λ e : Z * list (double * Z), list_to_set (top_pairs config e.2))).
  rewrite elem_of_empty. split.
  - intros [[]|([t l] & Hl%elem_of_items & Hp%elem_of_list_to_set)]. exists t. unfold get_or. by rewrite Hl.
  - intros [t Hp]. right. unfold get_or in Hp. destruct (incident weights !! t) as [l|] eqn:El.
    + exists (t, l). by rewrite elem_of_items, elem_of_list_to_set.
    + cbn in Hp. apply elem_of_top_pairs in Hp as [w Hw]. by apply elem_of_nil in Hw.
Qed.

Lemma retained_subset config weights : retained_pairs config weights ⊆ dom weights.
Proof.
  intros p. rewrite elem_of_retained. case_bool_decide; [done|]. intros [t Hp].
  apply elem_of_top_pairs in Hp as [w Hw]. apply elem_of_incident in Hw as [Hw _]. by eapply elem_of_dom_2.
Qed.

Section relations.
Context {W : Type} `{AffinityBackendLaws W}.
Context (config : Config) (profile : option ThreadProfile) (log1p : double → double).
Context (module_offset : Z → Z → string) (order : relations_order).

(** What a relation event does: nothing, or one more observation of its pair. *)
Lemma handle_relation duration k v (s : Runtime W) :
  relation_key_ok k → rt_locked s = false →
  ∃ s', handle_bpf_event config profile module_offset (relation_event duration k v) s = Returned tt s' ∧
    rt_locked s' = false ∧
    (rt_graph s' = rt_graph s ∨
     ∃ x, edge_key (ro_from_tid x) (ro_to_tid x) = key_pair k ∧ rt_graph s' = observe_relation x (rt_graph s)).
Proof.
  intros (Hk & Ht & Hp) Hl. unfold handle_bpf_event. cbn [relation_event ev_kind].
  rewrite (proj2 (orb_true_iff _ _)) by (destruct Hk; [left|right]; by apply Z.eqb_eq).
  destruct (static_profile config profile); [by exists s; auto|].
  unfold with_lock. rewrite Hl. unfold modify. eexists. split; [reflexivity|]. split; [done|]. runtime_simpl.
  unfold observe_event. cbn [relation_event ev_tid ev_peer_tid]. runtime_simpl.
  repeat (case_match; try (by left)). right. eexists. split; [|reflexivity].
  cbn. by rewrite !int_of_u32_small.
Qed.

(** Only pairs of the batch are left in the window. *)
Definition only_pairs (P : Z * Z → Prop) (g : GraphWindow) : Prop :=
  ∀ k, is_Some (relation_histories g !! k) → P k.

Lemma handle_relations duration l : ∀ (s : Runtime W) (P : Z * Z → Prop),
  Forall (λ e : PendingRelationKey * PendingRelationValue, relation_key_ok e.1 ∧ P (key_pair e.1)) l →
  rt_locked s = false → only_pairs P (rt_graph s) →
  ∃ s', for_each l (λ e, handle_bpf_event config profile module_offset (relation_event duration e.1 e.2)) s =
        Returned tt s' ∧ rt_locked s' = false ∧ only_pairs P (rt_graph s').
Proof.
  induction l as [|[k v] l IH]; intros s P Hl Hs Hp; cbn [for_each]; [by exists s|].
  apply Forall_cons in Hl as [[Hk HP] Hl]. unfold mbind, M_bind. cbn [fst snd] in *.
  destruct (handle_relation duration k v s Hk Hs) as (s1 & -> & Hs1 & Hg).
  apply IH; [done|done|]. destruct Hg as [->|(x & Hx & ->)]; [done|].
  intros k'. unfold observe_relation. rewrite Hx. destruct (_ =? _); [apply Hp|]. cbn.
  rewrite lookup_insert. case_decide; [by subst|apply Hp].
Qed.

Lemma ingest_only_pairs b (s : Runtime W) :
  (∀ m, order m ≡ₚ map_to_list m) → map_Forall (λ k _, relation_key_ok k) (bt_relations b) →
  rt_locked s = false →
  ∃ s', ingest config profile log1p module_offset order b s = Returned tt s' ∧
    only_pairs (λ p, ∃ k, is_Some (bt_relations b !! k) ∧ key_pair k = p) (rt_graph s').
Proof.
  intros Hord Hok Hl. unfold ingest, mbind, M_bind, with_lock. rewrite Hl. unfold modify. runtime_simpl.
  set (duration := Z.max _ _). set (relations := order (bt_relations b)).
  set (retained := retained_pairs _ _).
  assert (∀ k v, (k, v) ∈ relations ↔ bt_relations b !! k = Some v) as Hin.
  { intros k v. unfold relations. by rewrite Hord, elem_of_map_to_list. }
  assert (∀ p, p ∈ retained → ∃ k v, bt_relations b !! k = Some v ∧ pair_of k = p) as Hret.
  { intros p Hp%retained_subset%pair_weights_dom. destruct Hp as ([k v] & Hkv & <-). exists k, v. by rewrite <- Hin. }
  match goal with |- context [for_each ?l _ ?st] => set (s1 := st); set (batch := l) end.
  destruct (handle_relations duration batch s1 (λ p, ∃ k, is_Some (bt_relations b !! k) ∧ key_pair k = p))
    as (s2 & -> & Hs2 & Hp2).
  - apply Forall_forall. intros [k v] [_ Hkv%Hin]%list_elem_of_filter. split; [by apply (Hok k v)|]. eauto.
  - done.
  - intros k [l Hl']. cbn in Hl'. apply map_lookup_filter_Some in Hl' as [Hl' Hk%bool_decide_eq_true_1].
    rewrite elem_of_difference, elem_of_dom in Hk. cbn in Hk.
    destruct (decide (k ∈ resident_relations retained)) as [Hr|]; [|naive_solver].
    unfold resident_relations in Hr. apply elem_of_map in Hr as (p & -> & Hp).
    destruct (Hret p Hp) as (key & v & Hkey & <-). exists key. split; [eauto|].
    symmetry. apply resident_pair. by apply (Hok key v).
  - unfold when. destruct (negb _); [unfold log, modify|]; by eexists.
Qed.
End relations.

(** ** Exits *)
Section exits.
Context {W : Type} `{AffinityBackendLaws W}.
Context (config : Config) (profile : option ThreadProfile) (log1p : double → double).
Context (module_offset : Z → Z → string) (order : relations_order).

Lemma handle_exit e (s : Runtime W) :
  is_exit e = true → rt_locked s = false →
  ∃ s', handle_bpf_event config profile module_offset e s = Returned tt s' ∧ rt_locked s' = false ∧
    rt_lifecycle s' = delete (int_of_u32 (ev_tid e)) (rt_lifecycle s).
Proof.
  intros He Hl. unfold is_exit in He. apply Z.eqb_eq in He. unfold handle_bpf_event. rewrite He. cbn [Z.eqb orb].
  cbn. unfold thread_exited, with_lock. rewrite Hl. cbn. by eexists.
Qed.

Lemma handle_exits l : ∀ s : Runtime W,
  Forall (λ e, is_exit e = true) l → rt_locked s = false →
  ∃ s', for_each l (handle_bpf_event config profile module_offset) s = Returned tt s' ∧
    ∀ t, rt_lifecycle s' !! t =
      if decide (t ∈ int_of_u32 ∘ ev_tid <$> l) then None else rt_lifecycle s !! t.
Proof.
  induction l as [|e l IH]; intros s Hl Hs; cbn [for_each].
  - exists s. split; [done|]. intros t. by rewrite decide_False by (by intros ?%elem_of_nil).
  - apply Forall_cons in Hl as [He Hl]. unfold mbind, M_bind.
    destruct (handle_exit e s He Hs) as (s1 & -> & Hs1 & Hd). destruct (IH s1 Hl Hs1) as (s2 & -> & Hg).
    exists s2. split; [done|]. intros t. rewrite Hg, Hd. cbn [fmap list_fmap]. unfold compose at 2.
    destruct (decide (t = int_of_u32 (ev_tid e))) as [->|Hne].
    + rewrite lookup_delete_eq. rewrite (decide_True (P := _ ∈ _ :: _)) by left. by case_decide.
    + rewrite lookup_delete_ne by done. apply decide_ext. rewrite elem_of_cons. naive_solver.
Qed.
End exits.

(** ** Reconciled records *)
Section records.
Context {W : Type} `{AffinityBackendLaws W}.
Context (config : Config) (profile : option ThreadProfile).

(** The record describes the sampled thread. *)
Definition describes (x : ThreadSample) (r : LifecycleRecord) : Prop :=
  lc_proc_starttime r = starttime (ts_identity x) ∧ lc_name r = ts_comm x.

Lemma reconcile_record_describes x life :
  describes x (with_name (ts_comm x) (reconcile_record x life).1).
Proof.
  split; [|done]. unfold reconcile_record. destruct life as [r|]; [|done].
  destruct (lc_proc_starttime r =? 0) eqn:E0, (lc_proc_starttime r =? starttime (ts_identity x)) eqn:E1;
    bool_hyps; cbn; done.
Qed.

(** Which members matching the profile changes. *)
Lemma match_profile_Returned x b (s : Runtime W) :
  ∃ b' s', match_profile profile x b s = Returned b' s' ∧ rt_lifecycle s' = rt_lifecycle s ∧
    rt_pending_application_masks s' = rt_pending_application_masks s ∧
    rt_target_tgids s' = rt_target_tgids s ∧ rt_graph s' = rt_graph s.
Proof.
  unfold match_profile. destruct profile as [p|]; [|by eexists _, _].
  unfold mbind, M_bind, get. destruct (profile_assignment p x (rt_profile_state s)) as [[a|] st];
    unfold log, modify, mret, M_ret; repeat case_match; by eexists _, _.
Qed.

Lemma reconcile_samples_spec xs : ∀ b (s : Runtime W),
  NoDup (tid ∘ ts_identity <$> xs) →
  ∃ ys b' s', reconcile_samples profile xs b s = Returned (ys, b') s' ∧
    rt_target_tgids s' = rt_target_tgids s ∧ rt_graph s' = rt_graph s ∧
    (∀ x, x ∈ xs → ∃ r, rt_lifecycle s' !! tid (ts_identity x) = Some r ∧ describes x r) ∧
    (∀ t, t ∉ tid ∘ ts_identity <$> xs → rt_lifecycle s' !! t = rt_lifecycle s !! t).
Proof.
  induction xs as [|x xs IH]; intros b s Hnd; cbn [reconcile_samples].
  - exists [], b, s. split_and!; try done. by intros x ?%elem_of_nil.
  - cbn in Hnd. apply NoDup_cons in Hnd as [Hx Hnd]. unfold mbind, M_bind, get.
    destruct (note_life x s) as [s1 r] eqn:En.
    assert (rt_lifecycle s1 = <[tid (ts_identity x) := r]> (rt_lifecycle s) ∧ describes x r ∧
      rt_target_tgids s1 = rt_target_tgids s ∧ rt_graph s1 = rt_graph s) as (Hl1 & Hr & Ht1 & Hg1).
    { pose proof (reconcile_record_describes x (rt_lifecycle s !! tid (ts_identity x))) as Hd.
      unfold note_life in En. destruct (reconcile_record x _) as [r0 i]. injection En as <- <-. done. }
    unfold modify. destruct (match_profile_Returned (with_record x r) b s1) as (b1 & s2 & -> & Hl2 & _ & Ht2 & Hg2).
    destruct (IH b1 s2 Hnd) as (ys & b2 & s3 & -> & Ht3 & Hg3 & Hin & Hout).
    eexists _, _, _. split; [reflexivity|]. split_and!; [congruence|congruence| |].
    + intros y [->|Hy]%elem_of_cons; [|by apply Hin]. exists r. rewrite Hout by done.
      by rewrite Hl2, Hl1, lookup_insert_eq.
    + intros t [Hne Ht]%not_elem_of_cons. rewrite Hout, Hl2, Hl1 by done. by rewrite lookup_insert_ne.
Qed.

Lemma observe_samples_Returned log1p xs (s : Runtime W) :
  window_inv log1p (rt_graph s) →
  ∃ s', observe_samples config profile xs s = Returned tt s' ∧
    rt_lifecycle s' = rt_lifecycle s ∧ rt_target_tgids s' = rt_target_tgids s.
Proof.
  intros Hg. unfold observe_samples. destruct (static_profile config profile); [by eexists|].
  unfold mbind, M_bind, get, lift. destruct (observe_threads_ok log1p xs (rt_graph s) Hg) as (g & -> & _).
  by eexists.
Qed.
End records.
