(* ===== verification/RuntimeEventProperties.v ===== *)
(** * Properties of the runtime's loop *)
From Stdlib Require Import SpecFloat Ascii.
From S2P Require Import Prelude Binary64 Core CpuList Actuator Topology DomainPlanner DomainSolver.
From S2P Require Import GraphWindow GraphFacts GraphProperties ThreadProfile Config ConfigProperties Hotspot.
From S2P Require Import Incremental IncrementalPropose Runtime RuntimeSolve RuntimeFacts RuntimeProperties.
From S2P Require Import BpfPending RuntimeEvents RuntimeEventFacts.
Local Open Scope string_scope.
Local Open Scope Z_scope.
Local Open Scope ag_scope.

(** ** The whole loop *)
Lemma construct_Ok {W} `{AffinityBackendLaws W} c profile degraded bpf root clock (w : W) config s log1p :
  construct c profile degraded bpf root clock w = Ok (config, s) →
  idle log1p s ∧ (solver c = "numa-domain-v1" → domain_only config profile).
Proof.
  unfold construct. destruct (_ && _); [done|]. intros [= <- <-]. split.
  - split; [done|]. split; cbn; [done|by intros t ?%elem_of_empty|].
    apply (window_inv_reachable log1p _ _ _ (rtc_refl _ _)).
  - intros Hs. unfold domain_only, effective_config. destruct (_ || _); [by left|]. by right; right.
Qed.

(** C5: no exception ends the runtime's thread.  From construction on, whatever
    the BPF worker queues, the collector returns or fails with, the control
    socket commands and the clock says, the loop with the domain selector never
    throws; between iterations the mutex is free, no proposal is outstanding
    and the actuator can undo what it did; it stops early only where a failed
    restore makes it wait for its own mutex. *)
Theorem run_never_throws {W} `{AffinityBackendLaws W} c profile degraded bpf root clock (w : W) config s
    hardware log1p module_offset order l steps
    (Hc : construct c profile degraded bpf root clock w = Ok (config, s))
    (Hs : solver c = "numa-domain-v1") :
  match run config hardware profile bpf log1p module_offset order l steps s with
  | Returned _ s' => rt_locked s' = false ∧ ds_outstanding (rt_domain_solver s') = None ∧
      act_ok (rt_actuator s')
  | Thrown _ _ => False
  | Deadlocked s' => mode config = Active ∧ rr_success (rt_last_restore s') = false
  end.
Proof.
  destruct (construct_Ok _ _ _ _ _ _ _ _ _ log1p Hc) as [Hi Hd].
  pose proof (run_safe config hardware profile bpf log1p module_offset order (Hd Hs) steps l s Hi) as Hr.
  unfold wp in Hr. destruct (run _ _ _ _ _ _ _ _ _ _) as [l' s'|e s'|s']; [|done|].
  - destruct Hr as [? [? ? ?]]. done.
  - destruct Hr as [Ha ?]. split; [|done]. unfold is_active in Ha. by bool_hyps.
Qed.

(** A run: the first scan finds the workload's threads, the second one their
    relation; the third one comes after the threads are gone. *)
Definition demo_task (t ts rt : Z) : ThreadSample :=
  mk_ThreadSample (mk_ThreadIdentity 7 t 50) ts rt 0 0 0 0 "R"%char "worker" [] [0; 1; 98] 7 0 "".
Definition demo_collect (ts rt : Z) : Collector :=
  λ g, if g =? 7 then Some (Ok [demo_task 11 ts rt; demo_task 12 ts rt]) else None.
Definition demo_futex (a b n ts : Z) : affinitygraph_bpf_event :=
  mk_event AFFINITYGRAPH_FUTEX 7 a b 0 0 0 ts 0 0 n 0 0 "" zero_mask.
Definition demo_steps : list Iteration :=
  [mk_Iteration None 1000000000 [] 1000000000 [] (demo_collect 1000000000 0) 0 0 0;
   mk_Iteration (Some Status) 2000000000 [Drain 1500000000 [] [demo_futex 11 12 5 1500000000] []] 2000000000
     [] (demo_collect 2000000000 900000000) 0 0 0;
   mk_Iteration (Some PauseCommand) 3000000000 [] 3000000000 [] (λ _, None) 0 3000000000 3000000000].
Definition demo_start : Runtime (gmap Z (list Z)) :=
  match construct demo_numa_config None false true 7 0 demo_world with
  | Ok (_, s) => s
  | Throw _ => demo_runtime demo_world
  end.
Definition demo_run (steps : list Iteration) (s : Runtime (gmap Z (list Z))) :=
  run demo_numa_config demo_board None true id_log1p (λ _ _, "") map_to_list (mk_LoopState Pending_init 0)
    steps s.

Lemma run_never_throws_witness :
  match demo_run demo_steps demo_start with
  | Returned _ s' => rt_locked s' = false
  | _ => False
  end.
Proof.
  pose proof (run_never_throws demo_numa_config None false true 7 0 demo_world demo_numa_config demo_start
    demo_board id_log1p (λ _ _, "") map_to_list (mk_LoopState Pending_init 0) demo_steps eq_refl eq_refl) as H.
  unfold demo_run. destruct (run _ _ _ _ _ _ _ _ _ _) eqn:E.
  - exact (proj1 H).
  - exact H.
  - vm_compute in E. discriminate E.
Defined.

(** ** Nothing is lost silently *)
Section loss.
Context {W : Type} `{AffinityBackendLaws W}.
Context (config : Config) (profile : option ThreadProfile) (log1p : double → double).
Context (module_offset : Z → Z → string) (order : relations_order).

(** The runtime stopped for [message]. *)
Definition stopped_for (message : string) (s : Runtime W) : Prop :=
  rt_fatal_error s = message ∧ rt_terminated s = true ∧ disarmed s.

Lemma trigger_fatal_stops message s :
  idle log1p s → rt_fatal_error s = "" →
  ∃ s', trigger_fatal message s = Returned tt s' ∧ stopped_for message s' ∧ rt_health s' = rt_health s ∧
    masks_restored s s'.
Proof.
  intros Hi Hf. destruct (trigger_fatal_idle log1p message s Hi) as (s' & Ht & _ & Hh & Hs).
  rewrite decide_True in Hs by done. destruct Hs as (H1 & H2 & H3 & H4). by exists s'.
Qed.




End loss.


(** ** Health *)

(** One collector's counters over time: times and counters only grow, and stay
    far from wrapping around. *)
Definition health_le (a b : Z * BpfCounters) : Prop :=
  a.1 ≤ b.1 ∧ bc_emitted a.2 ≤ bc_emitted b.2 ∧ bc_dropped a.2 ≤ bc_dropped b.2.
Definition health_range (a : Z * BpfCounters) : Prop :=
  0 ≤ a.1 < 2 ^ 64 ∧ 0 ≤ bc_emitted a.2 < 2 ^ 63 ∧ 0 ≤ bc_dropped a.2 < 2 ^ 63.
Record history_sound (l : list (Z * BpfCounters)) : Prop := {
  hs_sorted : StronglySorted health_le l;
  hs_range : Forall health_range l;
}.

Lemma sorted_snoc_inv {A} (R : relation A) l x :
  StronglySorted R l → Forall (λ y, R y x) l → StronglySorted R (l ++ [x])%list.
Proof.
  induction 1 as [|y l Hs IH Hy]; intros Hx; cbn; [by repeat constructor|].
  apply Forall_cons in Hx as [Hyx Hx]. constructor; [by apply IH|]. apply Forall_app. by repeat constructor.
Qed.

Lemma sorted_last {A} (R : relation A) `{!Reflexive R} l x :
  StronglySorted R l → last l = Some x → Forall (λ y, R y x) l.
Proof.
  induction 1 as [|y l Hs IH Hy]; [done|]. destruct l as [|z l]; cbn.
  - intros [= ->]. by repeat constructor.
  - intros Hl. constructor; [|by apply IH]. rewrite Forall_forall in Hy. apply Hy. by apply last_Some_elem_of.
Qed.

Lemma trim_history_spec now l :
  l ≠ [] →
  ∃ pre t c rest, trim_history now l = (t, c) :: rest ∧ l = (pre ++ (t, c) :: rest)%list ∧
    ∀ t1 c1 rest', rest = (t1, c1) :: rest' → u64_sub now t1 < health_window_ns.
Proof.
  induction l as [|[t c] l IH]; [done|intros _]. destruct l as [|[t1 c1] l]; [by exists [], t, c, []|].
  cbn [trim_history]. destruct (health_window_ns <=? u64_sub now t1) eqn:E; bool_hyps.
  - destruct IH as (pre & t' & c' & rest & He & Hl & Hr); [done|]. exists ((t, c) :: pre), t', c', rest.
    split_and!; [exact He|cbn; by rewrite Hl|done].
  - exists [], t, c, ((t1, c1) :: l). split_and!; [done..|]. by intros ? ? ? [= <- _ _].
Qed.

Lemma sorted_app_r {A} (R : relation A) l k : StronglySorted R (l ++ k)%list → StronglySorted R k.
Proof. induction l as [|x l IH]; [done|]. intros Hs. inversion Hs. auto. Qed.

(** The new sample at the end, after a reset where the counters went back. *)
Lemma extended_sound now c l :
  history_sound l → health_range (now, c) → Forall (λ x : Z * BpfCounters, x.1 ≤ now) l →
  let l' := ((if regressed c l then [] else l) ++ [(now, c)])%list in
  history_sound l' ∧ Forall (λ x, health_le x (now, c)) l'.
Proof.
  intros Hs Hr Ht. cbn zeta. set (k := if regressed c l then [] else l).
  assert (history_sound k ∧ Forall (λ x, health_le x (now, c)) k) as [[H1 H2] H3].
  { subst k. destruct (regressed c l) eqn:E; [by repeat constructor|]. split; [done|].
    unfold regressed in E. destruct (last l) as [[tb b]|] eqn:El; [|by apply last_None in El as ->].
    assert (Forall (λ y, health_le y (tb, b)) l) as Hb.
    { apply sorted_last; [|apply Hs|done]. by intros ?. }
    bool_hyps. rewrite Forall_forall in Ht, Hb |- *. intros x Hx.
    specialize (Ht x Hx). destruct (Hb x Hx) as (? & ? & ?). unfold health_le. cbn in *. lia. }
  split; [split|].
  - by apply sorted_snoc_inv.
  - apply Forall_app. split; [done|by apply Forall_singleton].
  - apply Forall_app. split; [done|]. by apply Forall_singleton.
Qed.

(** the health window judges the right interval.  With one collector's
    counters over time, each valid sample leaves a window that ends with it,
    whose oldest sample is at least 30 seconds old exactly when the window
    counts as ready, and of which no later sample is; the loss ratio is that of
    the events lost and emitted in between, none of the unsigned subtractions
    wraps around, and the window is again sound. *)
Theorem health_window_exact now c h
    (Hs : history_sound (hw_history h)) (Hr : health_range (now, c))
    (Ht : Forall (λ x : Z * BpfCounters, x.1 ≤ now) (hw_history h)) :
  let h' := health_ok now c h in
  history_sound (hw_history h') ∧ last (hw_history h') = Some (now, c) ∧
  ∃ t0 c0 rest, hw_history h' = (t0, c0) :: rest ∧ health_le (t0, c0) (now, c) ∧
    hw_ready h' = bool_decide (health_window_ns ≤ now - t0) ∧
    (∀ t1 c1 rest', rest = (t1, c1) :: rest' → now - t1 < health_window_ns) ∧
    let dropped := bc_dropped c - bc_dropped c0 in
    let total := bc_emitted c - bc_emitted c0 + dropped in
    hw_loss_ratio h' = if total =? 0 then d0 else (double_of_Z dropped / double_of_Z total)%D.
Proof.
  cbn zeta. unfold health_ok. destruct (extended_sound now c (hw_history h) Hs Hr Ht) as [[Hso Hra] Hle].
  set (l := if regressed c (hw_history h) then [] else hw_history h) in *.
  destruct (trim_history_spec now (l ++ [(now, c)])%list) as (pre & t0 & c0 & rest & -> & Heq & Hyoung);
    [by destruct l|].
  rewrite Heq in Hso, Hra, Hle. apply Forall_app in Hra as [_ Hra]. apply Forall_app in Hle as [_ Hle].
  pose proof (Forall_inv Hra) as Hr0. pose proof (Forall_inv Hle) as Hle0. cbn [hw_history hw_ready hw_loss_ratio].
  split; [split; [by eapply sorted_app_r|done]|]. split.
  { assert (last (pre ++ (t0, c0) :: rest)%list = Some (now, c)) as Hl by (by rewrite <- Heq, last_snoc).
    by rewrite last_app_cons in Hl. }
  exists t0, c0, rest. unfold health_range, health_le in *. cbn [fst snd] in *. split_and!; [done|lia..| | |].
  - rewrite u64_sub_small by lia. destruct (Z.leb_spec health_window_ns (now - t0)).
    + by rewrite bool_decide_true.
    + by rewrite bool_decide_false by lia.
  - intros t1 c1 rest' ->. specialize (Hyoung t1 c1 rest' eq_refl).
    assert (health_range (t1, c1) ∧ health_le (t1, c1) (now, c)) as [H1 H2].
    { split; [exact (Forall_inv (Forall_inv_tail Hra))|exact (Forall_inv (Forall_inv_tail Hle))]. }
    unfold health_range, health_le in *. cbn [fst snd] in *. by rewrite u64_sub_small in Hyoung by lia.
  - unfold loss_ratio. rewrite !u64_sub_small by lia. unfold u64. by rewrite Z.mod_small by lia.
Qed.

Definition demo_health : HealthWindow :=
  mk_HealthWindow true [(1000000000, mk_BpfCounters 10 0); (2000000000, mk_BpfCounters 20 1)] false d0 0 0.
Lemma health_window_exact_witness :
  let h' := health_ok 32000000000 (mk_BpfCounters 119 2) demo_health in
  history_sound (hw_history h') ∧ hw_ready h' = true ∧ hw_loss_ratio h' = dlit 1 100.
Proof.
  split; [|vm_compute; split; reflexivity].
  refine (proj1 (health_window_exact 32000000000 (mk_BpfCounters 119 2) demo_health _ _ _)).
  - split; [|repeat constructor; cbn; lia].
    repeat constructor; cbn; lia.
  - repeat split; cbn; lia.
  - repeat constructor; cbn; lia.
Defined.

(** every health sample is judged.  A valid sample extends the window and
    stops the runtime iff the window is ready and has lost one percent; an
    invalid one counts as a failure and stops it iff it is the third in a row or
    comes five seconds after the first; otherwise the runtime goes on, without
    an affinity call. *)
Theorem judge_sample_exact {W} `{AffinityBackendLaws W} log1p x (s : Runtime W)
    (Hi : idle log1p s) (Hf : rt_fatal_error s = "") :
  let now := phs_timestamp_ns x in
  let h := if phs_valid x then health_ok now (phs_counters x) (rt_health s) else health_failed now (rt_health s) in
  let fatal := if phs_valid x then loss_fatal h else health_lost now h in
  ∃ s', judge_sample x s = Returned tt s' ∧ rt_health s' = h ∧
    if fatal
    then stopped_for (if phs_valid x then "30-second BPF loss ratio reached one percent"
                      else "BPF health map unavailable") s'
    else rt_fatal_error s' = "" ∧ same_kernel s s'.
Proof.
  cbn zeta. unfold judge_sample, update_health, with_lock, mbind, M_bind, log, modify, get, when, mret, M_ret.
  destruct Hi as [Hl Hc]. destruct (phs_valid x); rewrite Hl; runtime_simpl.
  - destruct (loss_fatal _); [|by eexists]. cbv beta iota. runtime_simpl.
    match goal with |- context [trigger_fatal ?m ?st] =>
      destruct (trigger_fatal_stops log1p m st) as (s' & -> & Hs & Hh & _); [done|done|] end.
    by exists s'.
  - destruct (health_lost _ _); [|by eexists]. cbv beta iota. runtime_simpl.
    match goal with |- context [trigger_fatal ?m ?st] =>
      destruct (trigger_fatal_stops log1p m st) as (s' & -> & Hs & Hh & _); [done|done|] end.
    by exists s'.
Qed.

Lemma judge_sample_exact_witness :
  ∃ s', judge_sample (mk_PendingHealthSample 9000000000 false (mk_BpfCounters 0 0))
    (demo_start ⟨ rt_health := mk_HealthWindow false [] false d0 2 8000000000 ⟩) = Returned tt s' ∧
    stopped_for "BPF health map unavailable" s'.
Proof.
  destruct (judge_sample_exact (W := gmap Z (list Z)) id_log1p
    (mk_PendingHealthSample 9000000000 false (mk_BpfCounters 0 0))
    (demo_start ⟨ rt_health := mk_HealthWindow false [] false d0 2 8000000000 ⟩)) as (s' & Hj & _ & Hs).
  - exact (proj1 (construct_Ok demo_numa_config None false true 7 0 demo_world demo_numa_config demo_start
      id_log1p eq_refl)).
  - reflexivity.
  - exists s'. split; [exact Hj|exact Hs].
Defined.

(** ** Ingesting a batch *)

(** one silent interval erases a relation.  Ingesting a batch keeps only the
    pairs it contains: a pair of threads without an event in it has no history
    left afterwards, however much of the 60-second window it had filled. *)
Theorem silent_interval_erases_relation {W} `{AffinityBackendLaws W} config profile log1p module_offset
    order b (s : Runtime W) k
    (Hord : ∀ m, order m ≡ₚ map_to_list m)
    (Hok : map_Forall (λ key _, relation_key_ok key) (bt_relations b))
    (Hsilent : map_Forall (λ key _, key_pair key ≠ k) (bt_relations b))
    (Hl : rt_locked s = false) :
  ∃ s', ingest config profile log1p module_offset order b s = Returned tt s' ∧
    relation_histories (rt_graph s') !! k = None.
Proof.
  destruct (ingest_only_pairs config profile log1p module_offset order b s Hord Hok Hl) as (s' & Hi & Hp).
  exists s'. split; [done|]. apply eq_None_not_Some. intros Hk.
  destruct (Hp k Hk) as (key & [v Hkey] & Hkp). by apply (Hsilent key v Hkey).
Qed.

(** After the first two scans of the run the window has the relation of the two
    workers; a batch about two other threads erases it. *)
Definition demo_related : Runtime (gmap Z (list Z)) :=
  Eval vm_compute in state_of (demo_run (take 2 demo_steps) demo_start).
Definition demo_other : Batch :=
  mk_Batch [] {[ relation_key (demo_futex 21 22 1 0) := mk_PendingRelationValue 2500000000 1 ]} 0 0 0.
Lemma silent_interval_erases_relation_witness :
  is_Some (relation_histories (rt_graph demo_related) !! (11, 12)) ∧
  ∃ s', ingest demo_numa_config None id_log1p (λ _ _, "") map_to_list demo_other demo_related = Returned tt s' ∧
    relation_histories (rt_graph s') !! (11, 12) = None.
Proof.
  split; [vm_compute; eexists; reflexivity|].
  refine (silent_interval_erases_relation demo_numa_config None id_log1p (λ _ _, "") map_to_list demo_other
    demo_related (11, 12) (λ m, reflexivity _) _ _ eq_refl).
  - intros key v Hkey. destruct (proj1 (lookup_singleton_Some (relation_key (demo_futex 21 22 1 0)) key
      (mk_PendingRelationValue 2500000000 1) v) Hkey) as [<- _].
    split; [left; reflexivity|]. cbn. lia.
  - intros key v Hkey. destruct (proj1 (lookup_singleton_Some (relation_key (demo_futex 21 22 1 0)) key
      (mk_PendingRelationValue 2500000000 1) v) Hkey) as [<- _]. discriminate.
Defined.

Lemma incident_sorted weights t :
  map_Forall (λ _ x, not_nan x) weights →
  StronglySorted (λ a b, heavier_pair b a = false) (std_sort heavier_pair (get_or [] (incident weights) t)).
Proof.
  intros Hn. apply (std_sort_sorted heavier_pair (λ a, not_nan a.1)).
  - intros a b. apply heavy_ltb_asym.
  - intros a b c. apply heavy_ltb_negtrans.
  - apply Forall_forall. intros [x q] [Hq _]%elem_of_incident. by apply (Hn q).
Qed.

(** what the ingest keeps.  The domain selector keeps every pair of the
    batch; the legacy selector drops a pair only if both of its threads have
    their full number of pairs at least as heavy, all of them kept. *)
Theorem dropped_pair_outweighed config weights p w t
    (Hw : weights !! p = Some w) (Hnan : map_Forall (λ _ x, not_nan x) weights)
    (Hd : p ∉ retained_pairs config weights) (Ht : pair_first p = t ∨ pair_second p = t) :
  solver config ≠ "numa-domain-v1" ∧
  ∃ heavier, length heavier = Z.to_nat (Config.hotspot_edges_per_thread config) ∧
    ∀ w' q, (w', q) ∈ heavier → weights !! q = Some w' ∧ (pair_first q = t ∨ pair_second q = t) ∧
      q ∈ retained_pairs config weights ∧ (w' <? w)%D = false.
Proof.
  rewrite elem_of_retained in Hd. case_bool_decide as Hs; [by destruct Hd; eapply elem_of_dom_2|]. split; [done|].
  set (l := get_or [] (incident weights) t). set (k := Z.to_nat (Config.hotspot_edges_per_thread config)).
  assert ((w, p) ∈ std_sort heavier_pair l) as Hin by (by apply elem_of_std_sort, elem_of_incident).
  assert (∀ x, x ∈ take k (std_sort heavier_pair l) → ∃ t, x.2 ∈ top_pairs config (get_or [] (incident weights) t))
    as Htop by (intros x Hx; exists t; by apply list_elem_of_fmap_2).
  rewrite <- (take_drop k (std_sort heavier_pair l)), elem_of_app in Hin.
  destruct Hin as [Hin|Hin]; [by destruct Hd; apply (Htop (w, p))|].
  exists (take k (std_sort heavier_pair l)). split.
  - rewrite length_take. apply list_elem_of_lookup_1 in Hin as [i Hi%lookup_lt_Some].
    rewrite length_drop in Hi. lia.
  - intros w' q Hq. pose proof (sorted_take_drop _ _ _ _ _ (incident_sorted weights t Hnan) Hq Hin) as Hle.
    assert ((w', q) ∈ l) as Hql by (eapply elem_of_std_sort, subseteq_take, Hq).
    apply elem_of_incident in Hql as [Hwq Htq]. split_and!; [done|done| |].
    + rewrite elem_of_retained, bool_decide_false by done. by apply (Htop (w', q)).
    + cbn in Hle. unfold heavier_pair, heavy_ltb in Hle. cbn in Hle. destruct (w' <? w)%D eqn:E; [|done].
      by rewrite deqb_sym, (dltb_deqb_false _ _ E) in Hle.
Qed.

Definition demo_weights : gmap Z double :=
  {[ pair_id 1 2 := d1; pair_id 1 3 := dlit 1 2; pair_id 3 4 := d1 ]}.
Definition demo_narrow : Config := ltac:(config_update Config_default Config.hotspot_edges_per_thread 1).
Lemma dropped_pair_outweighed_witness :
  ∃ heavier, length heavier = 1%nat ∧
    ∀ w' q, (w', q) ∈ heavier → demo_weights !! q = Some w' ∧ (pair_first q = 1 ∨ pair_second q = 1) ∧
      q ∈ retained_pairs demo_narrow demo_weights ∧ (w' <? dlit 1 2)%D = false.
Proof.
  refine (proj2 (dropped_pair_outweighed demo_narrow demo_weights (pair_id 1 3) (dlit 1 2) 1 _ _ _ _)).
  - vm_compute. reflexivity.
  - intros k x Hk. unfold demo_weights in Hk.
    repeat (rewrite lookup_insert in Hk; destruct (decide _); [injection Hk as <-; discriminate|]).
    rewrite lookup_singleton in Hk. destruct (decide _); [injection Hk as <-; discriminate|discriminate].
  - apply (bool_decide_eq_false_1 (_ ∈ _)). vm_compute. reflexivity.
  - left. vm_compute. reflexivity.
Defined.

(** ** Threads that come and go *)

(** an exit wins over the fork that follows it.  Exits are applied after
    every other event of the batch, so a thread that reuses the identifier of
    one that exited in the same batch is forgotten, whatever the order in which
    the kernel reported the two events. *)
Theorem exit_forgets_successor {W} `{AffinityBackendLaws W} config profile log1p module_offset order b e
    (s : Runtime W) (Hi : idle log1p s) (He : e ∈ bt_lifecycle b) (Hx : is_exit e = true)
    (Hno : bt_lifecycle_overflow b = 0 ∧ bt_relation_overflow b = 0) :
  ∃ s', consume_batch config profile log1p module_offset order b s = Returned tt s' ∧
    rt_lifecycle s' !! int_of_u32 (ev_tid e) = None.
Proof.
  unfold consume_batch, mbind, M_bind.
  destruct (safe_returns (idle log1p) (idle log1p) (for_each (filter (λ e, is_exit e = false) (bt_lifecycle b))
    (handle_bpf_event config profile module_offset)) s) as ([] & s1 & -> & Hi1); [|done|].
  { apply safe_for_each. intros. apply handle_bpf_event_safe. }
  destruct (safe_returns _ _ _ s1 (ingest_safe (λ _, False) config profile log1p module_offset order b) Hi1)
    as ([] & s2 & -> & [Hl2 _]).
  destruct (handle_exits config profile module_offset (filter (λ e, is_exit e = true) (bt_lifecycle b)) s2)
    as (s3 & -> & Hg); [|done|].
  { apply Forall_forall. by intros ? [? ?]%list_elem_of_filter. }
  destruct Hno as [-> ->]. exists s3. split; [done|]. rewrite Hg, decide_True; [done|].
  apply (list_elem_of_fmap_2 (int_of_u32 ∘ ev_tid)). by apply list_elem_of_filter.
Qed.

(** Thread 11 exits and a new thread 11 is forked, in this order. *)
Definition demo_exit : affinitygraph_bpf_event :=
  mk_event AFFINITYGRAPH_TASK_EXIT 7 11 0 0 0 0 3000000000 50 0 0 0 0 "" zero_mask.
Definition demo_fork : affinitygraph_bpf_event :=
  mk_event AFFINITYGRAPH_TASK_FORK 7 11 0 7 7 0 3100000000 90 0 0 0 4096 "handler" zero_mask.
Lemma exit_forgets_successor_witness :
  ∃ s', consume_batch demo_numa_config None id_log1p (λ _ _, "") map_to_list
          (mk_Batch [demo_exit; demo_fork] ∅ 0 0 0) demo_start = Returned tt s' ∧ rt_lifecycle s' !! 11 = None.
Proof.
  refine (exit_forgets_successor demo_numa_config None id_log1p (λ _ _, "") map_to_list
    (mk_Batch [demo_exit; demo_fork] ∅ 0 0 0) demo_exit demo_start _ _ eq_refl _).
  - exact (proj1 (construct_Ok demo_numa_config None false true 7 0 demo_world demo_numa_config demo_start
      id_log1p eq_refl)).
  - left.
  - split; reflexivity.
Defined.

(** an identifier keeps its old mask.  The actuator is not told that a
    thread exited: when the kernel gives the identifier of a thread the policy
    had bound to another one, pausing writes the mask of the first thread to the
    second, which the policy never touched. *)
Theorem reused_tid_gets_old_mask {W} `{AffinityBackendLaws W} t m w (s : Runtime W)
    (Hl : rt_locked s = false) (Hok : act_ok (rt_actuator s))
    (Ha : t ∈ acted_tids (rt_actuator s)) (Hm : restore_masks (rt_actuator s) !! t = Some m) :
  ∃ s1 s2, thread_exited t s = Returned tt s1 ∧ rt_lifecycle s1 !! t = None ∧
    pause (s1 ⟨ rt_world := w ⟩) = Returned tt s2 ∧
    (rr_success (rt_last_restore s2) = true → alive w t = true → backend_get (rt_world s2) t = m).
Proof.
  destruct (restore_all_loop_counts (restore_masks (rt_actuator s)) w
    (mk_RestoreResult (Z.of_nat (size (acted_tids (rt_actuator s)))) 0 0 0)
    (set_items (acted_tids (rt_actuator s)))) as (w' & r & Hr & _).
  { intros x Hx%elem_of_set_items. by apply Hok. }
  destruct (restore_all_loop_gets _ _ _ _ _ _ (NoDup_set_items _) Hr) as (_ & _ & _ & Hg).
  unfold thread_exited, with_lock at 1, mbind, M_bind. rewrite Hl. unfold log at 1, modify. cbn.
  eexists _, _. split; [reflexivity|]. split; [apply lookup_delete_eq|]. runtime_simpl.
  unfold pause, with_lock, modify, mbind, M_bind. runtime_simpl.
  unfold actuator_restore_all, restore_all. runtime_simpl. rewrite Hr.
  unfold modify, log, reset_members. runtime_simpl. split; [reflexivity|]. runtime_simpl.
  intros Hs Hal. apply Hg; [|by apply elem_of_set_items|done|done].
  unfold rr_success in Hs. by apply Z.eqb_eq in Hs.
Qed.

Lemma reused_tid_gets_old_mask_witness :
  ∃ s1 s2, thread_exited 11 demo_idle = Returned tt s1 ∧ rt_lifecycle s1 !! 11 = None ∧
    pause (s1 ⟨ rt_world := <[11 := [98]]> (rt_world demo_idle) ⟩) = Returned tt s2 ∧
    (rr_success (rt_last_restore s2) = true →
     alive (<[11 := [98]]> (rt_world demo_idle)) 11 = true → backend_get (rt_world s2) 11 = [0; 1; 98]).
Proof.
  refine (reused_tid_gets_old_mask 11 [0; 1; 98] (<[11 := [98]]> (rt_world demo_idle)) demo_idle eq_refl _ _ _).
  - intros t Ht. apply elem_of_set_items in Ht. vm_compute in Ht.
    repeat (apply elem_of_cons in Ht as [->|Ht]; [vm_compute; eexists; reflexivity|]).
    exfalso. exact (proj1 (elem_of_nil t) Ht).
  - apply (bool_decide_eq_true_1 (_ ∈ _)). vm_compute. reflexivity.
  - vm_compute. reflexivity.
Defined.

(** C36: reconciliation leaves exactly the sampled threads.  With one sample per
    thread, [reconcile] returns, the runtime then knows the sampled threads and
    no other, each under the start time and the name just sampled, whether the
    thread was known, unknown, only announced by the kernel, or a new owner of a
    known identifier; and the targets are the processes that still exist. *)
Theorem reconcile_exact {W} `{AffinityBackendLaws W} config profile log1p samples existing (s : Runtime W)
    (Hi : idle log1p s) (Hnd : NoDup (tid ∘ ts_identity <$> samples)) :
  ∃ b s', reconcile config profile samples existing s = Returned b s' ∧
    rt_target_tgids s' = existing ∧
    dom (rt_lifecycle s') = list_to_set (tid ∘ ts_identity <$> samples) ∧
    ∀ x, x ∈ samples → ∃ r, rt_lifecycle s' !! tid (ts_identity x) = Some r ∧ describes x r.
Proof.
  destruct Hi as [Hl [_ _ Hg]]. unfold reconcile, with_lock, mbind, M_bind. rewrite Hl. unfold modify at 1.
  match goal with |- context [reconcile_samples _ _ ?b0 ?s0] =>
    destruct (reconcile_samples_spec profile samples b0 s0 Hnd) as (ys & b & s1 & -> & Ht1 & Hg1 & Hin & Hout) end.
  cbn in Ht1, Hg1. unfold modify. set (s2 := drop_unseen config profile _ s1).
  assert (rt_lifecycle s2 = filter (λ e, e.1 ∈ list_to_set (C := gset Z) (tid ∘ ts_identity <$> samples))
      (rt_lifecycle s1) ∧ rt_graph s2 = rt_graph s1 ∧ rt_target_tgids s2 = rt_target_tgids s1) as (Hl2 & Hg2 & Ht2).
  { unfold s2, drop_unseen. by destruct (static_profile config profile). }
  destruct (observe_samples_Returned config profile log1p ys s2) as (s3 & -> & Hl3 & Ht3); [congruence|].
  eexists _, _. split; [reflexivity|]. runtime_simpl. rewrite Ht3, Hl3, Ht2, Hl2, Ht1. split; [done|]. split.
  - apply set_eq. intros t. rewrite elem_of_dom, elem_of_list_to_set. split.
    + intros [r [_ Hr]%map_lookup_filter_Some]. by apply elem_of_list_to_set in Hr.
    + intros Ht. pose proof Ht as (x & -> & Hx)%list_elem_of_fmap. destruct (Hin x Hx) as (r & Hr & _).
      exists r. apply map_lookup_filter_Some. by rewrite elem_of_list_to_set.
  - intros x Hx. destruct (Hin x Hx) as (r & Hr & Hd). exists r. split; [|done].
    apply map_lookup_filter_Some. split; [done|]. cbn. apply elem_of_list_to_set.
    by apply (list_elem_of_fmap_2 (tid ∘ ts_identity)).
Qed.

Lemma reconcile_exact_witness :
  ∃ b s', reconcile demo_numa_config None [demo_task 11 9 0; demo_task 13 9 0] {[7]} demo_start = Returned b s' ∧
    dom (rt_lifecycle s') = {[11; 13]}.
Proof.
  destruct (reconcile_exact demo_numa_config None id_log1p [demo_task 11 9 0; demo_task 13 9 0] {[7]} demo_start)
    as (b & s' & Hr & _ & Hd & _).
  - exact (proj1 (construct_Ok demo_numa_config None false true 7 0 demo_world demo_numa_config demo_start
      id_log1p eq_refl)).
  - apply (bool_decide_eq_true_1 (NoDup _)). vm_compute. reflexivity.
  - exists b, s'. split; [exact Hr|]. rewrite Hd. vm_compute. reflexivity.
Defined.
