(* ===== verification/Control.v ===== *)
(** * The control socket and its client ([src/affinityctl.cpp], [src/runtime.cpp])

    [affinityctl] and the exchange it has with [service_control_socket]: the bytes
    the server reads, the command they are, the answer, and the interleavings of
    the two processes on one connection. *)
From Stdlib Require Import SpecFloat Ascii.
From S2P Require Import Prelude Binary64 Core CpuList Actuator Topology DomainPlanner DomainSolver GraphWindow ThreadProfile.
From S2P Require Import Config ConfigProperties Hotspot Incremental IncrementalPropose Runtime BpfReader BpfPending RuntimeEvents Json RuntimeLog RuntimeStatus.
Local Open Scope string_scope.
Local Open Scope Z_scope.
Local Open Scope ag_scope.

(** ** The server *)

(** [sizeof(sockaddr_un::sun_path)] *)
Definition sun_path_size : Z := 108.
Definition path_fits (path : string) : bool := negb (sun_path_size <=? Z.of_nat (length (chars path))).
(** [open_control_socket]: the results of [socket], [bind] and [listen]; a socket
    that cannot be set up leaves the runtime without one. *)
Definition open_control_socket (socket_ok bind_ok listen_ok : bool) (path : string) : bool :=
  socket_ok && path_fits path && bind_ok && listen_ok.

(** The buffer holds 31 bytes; white space is removed. *)
Definition read_command (sent : list ascii) : list ascii :=
  filter (λ c, isspace c = false) (take 31 sent).
Definition parse_command (command : list ascii) : Command :=
  if bool_decide (command = chars "status") || bool_decide (command = chars "dump") then Status
  else if bool_decide (command = chars "pause") then PauseCommand
  else if bool_decide (command = chars "resume") then ResumeCommand
  else UnknownCommand.

Section serve.
Context {W : Type} `{AffinityBackend W}.
Context (config : Config) (profile : option ThreadProfile) (bpf_reader : bool) (m : StatusMembers).

Definition unknown_response : json := JObj [("error", jraw "unknown command")].
(** [service_control_socket], for a client that has sent [sent] so far: the answer. *)
Definition serve (sent : list ascii) : M W (list ascii) :=
  let command := parse_command (read_command sent) in
  _ ← service_control_socket (Some command);
  response ← match command with
             | UnknownCommand => mret unknown_response
             | _ => s ← with_lock get; mret (status_json config profile bpf_reader m s)
             end;
  mret (render response ++ [line_feed])%list.
End serve.

(** ** The client *)
Definition default_socket : string := "/tmp/affinitygraph.sock".
Definition known_command (c : string) : bool :=
  String.eqb c "status" || String.eqb c "pause" || String.eqb c "resume" || String.eqb c "dump".
(** The command and the path, or the exit status. *)
Definition ctl_args (argv : list string) : Z + string * string :=
  match argv with
  | [] => inl 2
  | _ :: _ :: _ :: _ :: _ => inl 2
  | command :: rest =>
      if negb (known_command command) then inl 2 else
      inr (command, match rest with
                    | [option; path] => if String.eqb option "--socket" then path else default_socket
                    | _ => default_socket
                    end)
  end.
(** Up to [connect]: the bytes to send, or the exit status. *)
Definition ctl_connect (socket_ok : bool) (connects : string → bool) (argv : list string) : Z + list ascii :=
  match ctl_args argv with
  | inl status => inl status
  | inr (command, path) =>
      if negb socket_ok then inl 1
      else if negb (path_fits path) then inl 2
      else if negb (connects path) then inl 1
      else inr (chars command ++ [line_feed])%list
  end.

(** ** One connection *)
Inductive ClientPhase :=
  | Connected          (* connect returned, nothing sent *)
  | Waiting            (* the command is sent, read blocks *)
  | Finished (status : Z) (output : list ascii)
  | Killed.            (* SIGPIPE: the write found the connection closed *)
Inductive ServerPhase :=
  | Accepting
  | Received (bytes : list ascii)                          (* read returned *)
  | Closed (bytes : list ascii) (response : list ascii).   (* answered and closed *)
Record Connection (W : Type) := mk_Connection {
  cn_client : ClientPhase;
  cn_sent : list ascii;
  cn_server : ServerPhase;
  cn_runtime : Runtime W;
}.
Arguments mk_Connection {_}. Arguments cn_client {_}. Arguments cn_sent {_}.
Arguments cn_server {_}. Arguments cn_runtime {_}.

Section exchange.
Context {W : Type} `{AffinityBackend W}.
Context (config : Config) (profile : option ThreadProfile) (bpf_reader : bool) (m : StatusMembers).
Context (message : list ascii).

(** The server's socket does not block: it reads what is there.  Closing a socket
    with unread bytes may reset the connection, which the client's [read] reports
    after the answer. *)
Inductive exchange : Connection W → Connection W → Prop :=
  | client_writes server s :
      (∀ bytes response, server ≠ Closed bytes response) →
      exchange (mk_Connection Connected [] server s) (mk_Connection Waiting message server s)
  | client_dies sent bytes response s :
      exchange (mk_Connection Connected sent (Closed bytes response) s)
        (mk_Connection Killed sent (Closed bytes response) s)
  | server_reads client sent s :
      exchange (mk_Connection client sent Accepting s) (mk_Connection client sent (Received sent) s)
  | server_answers client sent bytes s answer s' :
      serve config profile bpf_reader m bytes s = Returned answer s' →
      exchange (mk_Connection client sent (Received bytes) s) (mk_Connection client sent (Closed bytes answer) s')
  | client_reads sent bytes response s :
      exchange (mk_Connection Waiting sent (Closed bytes response) s)
        (mk_Connection (Finished 0 response) sent (Closed bytes response) s)
  | client_reset sent bytes response s :
      bytes ≠ sent →
      exchange (mk_Connection Waiting sent (Closed bytes response) s)
        (mk_Connection (Finished 1 response) sent (Closed bytes response) s).
End exchange.
