(* ===== verification/ControlProperties.v ===== *)
(** * The control socket: properties

    What a client gets, for every interleaving with the runtime's thread. *)
From Stdlib Require Import SpecFloat Ascii.
From S2P Require Import Prelude Binary64 Core CpuList Actuator Topology DomainPlanner DomainSolver GraphWindow ThreadProfile.
From S2P Require Import Config ConfigProperties Hotspot Incremental IncrementalPropose Runtime RuntimeFacts BpfReader BpfPending RuntimeEvents RuntimeEventFacts.
From S2P Require Import GraphFacts GraphProperties Json JsonProperties RuntimeLog RuntimeStatus RuntimeProperties RuntimeEventProperties Control.
Local Open Scope string_scope.
Local Open Scope Z_scope.
Local Open Scope ag_scope.

(** Every command the client accepts is one the server knows. *)
Lemma client_command_known c :
  known_command c = true →
  parse_command (read_command (chars c ++ [line_feed])%list) =
    (if String.eqb c "pause" then PauseCommand else if String.eqb c "resume" then ResumeCommand else Status).
Proof.
  unfold known_command. rewrite !orb_true_iff, !String.eqb_eq. intros [[[->| ->]| ->]| ->]; vm_compute; reflexivity.
Qed.

Section exchange.
Context {W : Type} `{AffinityBackendLaws W}.
Context (config : Config) (profile : option ThreadProfile) (bpf_reader : bool) (m : StatusMembers).
Context (log1p : double → double).
Abbreviation answers s := (render (status_json config profile bpf_reader m s) ++ [line_feed])%list.

Lemma read_locked (s : Runtime W) : rt_locked s = false →
  with_lock get s = Returned (s ⟨ rt_locked := true ⟩) s.
Proof. intros Hl. unfold with_lock, get. rewrite Hl. destruct s. cbn in *. by subst. Qed.

(** The command takes effect, and the answer describes the state after it. *)
Lemma serve_known sent (s : Runtime W) :
  idle log1p s → parse_command (read_command sent) ≠ UnknownCommand →
  ∃ s', service_control_socket (Some (parse_command (read_command sent))) s = Returned tt s' ∧ idle log1p s' ∧
    serve config profile bpf_reader m sent s = Returned (answers s') s'.
Proof.
  intros Hi Hk. unfold serve. cbv zeta.
  assert (Hs : ∃ s', service_control_socket (Some (parse_command (read_command sent))) s = Returned tt s' ∧ idle log1p s').
  { destruct (parse_command _); cbn [service_control_socket]; [|..|done].
    - by exists s.
    - destruct (pause_idle log1p s Hi) as (s' & Hp & Hi' & _). eauto.
    - eexists. split; [reflexivity|]. exact Hi. }
  destruct Hs as (s' & Hs & Hi'). exists s'. split_and!; [done|done|].
  unfold mbind, M_bind. rewrite Hs. destruct (parse_command _); try done;
    rewrite read_locked by apply Hi'; reflexivity.
Qed.
(** Nothing sent yet: an unknown command. *)
Lemma serve_nothing (s : Runtime W) :
  serve config profile bpf_reader m [] s = Returned (render unknown_response ++ [line_feed])%list s.
Proof. reflexivity. Qed.

Context (command : string) (Hc : known_command command = true).
Abbreviation message := (chars command ++ [line_feed])%list.
Abbreviation refusal := (render unknown_response ++ [line_feed])%list.
Abbreviation begin s := (mk_Connection Connected [] Accepting s).
Abbreviation served s' := (mk_Connection (Finished 0 (answers s')) message (Closed message (answers s')) s').
Abbreviation lost s := (mk_Connection Killed [] (Closed [] refusal) s).
Abbreviation refused status s := (mk_Connection (Finished status refusal) message (Closed [] refusal) s).
Abbreviation effect s s' :=
  (service_control_socket (Some (parse_command (read_command message))) s = Returned tt s').
Abbreviation xchg := (exchange config profile bpf_reader m message).

Lemma message_known : parse_command (read_command message) ≠ UnknownCommand.
Proof. rewrite (client_command_known command Hc). by repeat case_match. Qed.
Lemma message_nonempty : [] ≠ message.
Proof. by destruct (chars command). Qed.

(** The states a connection goes through. *)
Inductive on_the_way (s : Runtime W) : Connection W → Prop :=
  | way_begin : on_the_way s (begin s)
  | way_sent : on_the_way s (mk_Connection Waiting message Accepting s)
  | way_read_early : on_the_way s (mk_Connection Connected [] (Received []) s)
  | way_read_late : on_the_way s (mk_Connection Waiting message (Received []) s)
  | way_read : on_the_way s (mk_Connection Waiting message (Received message) s)
  | way_closed_early : on_the_way s (mk_Connection Connected [] (Closed [] refusal) s)
  | way_closed_late : on_the_way s (mk_Connection Waiting message (Closed [] refusal) s)
  | way_lost : on_the_way s (lost s)
  | way_refused status : status = 0 ∨ status = 1 → on_the_way s (refused status s)
  | way_closed s' : effect s s' → on_the_way s (mk_Connection Waiting message (Closed message (answers s')) s')
  | way_served s' : effect s s' → on_the_way s (served s').
#[local] Hint Constructors on_the_way : core.

Lemma on_the_way_step s z z' : idle log1p s → on_the_way s z → xchg z z' → on_the_way s z'.
Proof.
  intros Hi Hz He. destruct (serve_known message s Hi message_known) as (s1 & Hs1 & _ & Ha).
  destruct Hz; inversion He; subst; auto;
    match goal with
    | Hr : serve _ _ _ _ [] _ = _ |- _ => rewrite serve_nothing in Hr; injection Hr as <- <-; auto
    | Hr : serve _ _ _ _ _ _ = Returned ?a ?b |- on_the_way _ (mk_Connection _ _ (Closed _ ?a) ?b) =>
        replace b with s1 by congruence; replace a with (answers s1) by congruence; auto
    | Hs : effect s ?s' |- _ => by apply (way_served s s')
    | _ => congruence
    end.
Qed.
Lemma on_the_way_rtc s z : idle log1p s → rtc xchg (begin s) z → on_the_way s z.
Proof.
  intros Hi Hr. assert (Hb : on_the_way s (begin s)) by auto.
  induction Hr as [|x y z Hxy _ IH]; [done|]. apply IH. by eapply on_the_way_step.
Qed.
(** Only three kinds of states are final. *)
Lemma on_the_way_final s z : idle log1p s → on_the_way s z → (∀ z', ¬ xchg z z') →
  z = lost s ∨ (∃ status, (status = 0 ∨ status = 1) ∧ z = refused status s) ∨ ∃ s', effect s s' ∧ z = served s'.
Proof.
  intros Hi Hz Hstuck. destruct (serve_known message s Hi message_known) as (s1 & _ & _ & Ha).
  destruct Hz; eauto; exfalso; eapply Hstuck;
    first [by apply server_reads | apply client_dies | apply client_reads
          | apply server_answers, serve_nothing | apply server_answers, Ha].
Qed.
Lemma exchange_lost s : rtc xchg (begin s) (lost s).
Proof.
  eapply rtc_l; [apply server_reads|]. eapply rtc_l; [apply server_answers, serve_nothing|].
  apply rtc_once, client_dies.
Qed.
Lemma exchange_refused s status : status = 0 ∨ status = 1 → rtc xchg (begin s) (refused status s).
Proof.
  intros Hst. eapply rtc_l; [apply server_reads|]. eapply rtc_l; [by apply client_writes|].
  eapply rtc_l; [apply server_answers, serve_nothing|]. apply rtc_once.
  destruct Hst as [->| ->]; [apply client_reads|]. apply client_reset, message_nonempty.
Qed.
Lemma exchange_served s : idle log1p s → ∃ s', effect s s' ∧ rtc xchg (begin s) (served s').
Proof.
  intros Hi. destruct (serve_known message s Hi message_known) as (s1 & Hs1 & _ & Ha). exists s1. split; [done|].
  eapply rtc_l; [by apply client_writes|]. eapply rtc_l; [apply server_reads|].
  eapply rtc_l; [apply server_answers, Ha|]. apply rtc_once, client_reads.
Qed.

(** C11: an exchange between [affinityctl] and the runtime ends in one of three ways.
    When the command is sent before the runtime reads, the command takes effect,
    the client prints the status after it and exits with 0.  When the runtime
    reads first it finds nothing, answers [unknown command] and closes: the
    command is lost and the runtime unchanged.  The client then dies of [SIGPIPE]
    if it writes after the close, and otherwise prints the refusal of a command
    that exists.  All three happen. *)
Theorem exchange_outcomes s :
  idle log1p s →
  (∀ z, rtc xchg (begin s) z → (∀ z', ¬ xchg z z') →
     z = lost s ∨ (∃ status, (status = 0 ∨ status = 1) ∧ z = refused status s) ∨
     ∃ s', effect s s' ∧ z = served s') ∧
  rtc xchg (begin s) (lost s) ∧ rtc xchg (begin s) (refused 0 s) ∧
  ∃ s', effect s s' ∧ rtc xchg (begin s) (served s').
Proof.
  intros Hi. split_and!; [|apply exchange_lost|apply exchange_refused; by left|by apply exchange_served].
  intros z Hr. apply on_the_way_final; [done|]. by apply on_the_way_rtc.
Qed.
End exchange.

Definition demo_members : StatusMembers :=
  mk_StatusMembers 1 7 0 0 0 (stats_init 4096) false true "ok".
Lemma exchange_outcomes_witness :
  ∃ s', service_control_socket (Some PauseCommand) demo_start = Returned tt s' ∧
  rtc (exchange demo_numa_config None true demo_members (chars "pause" ++ [line_feed])%list)
    (mk_Connection Connected [] Accepting demo_start)
    (mk_Connection (Finished 0 (render (status_json demo_numa_config None true demo_members s') ++ [line_feed])%list)
       (chars "pause" ++ [line_feed])%list
       (Closed (chars "pause" ++ [line_feed])%list
          (render (status_json demo_numa_config None true demo_members s') ++ [line_feed])%list) s').
Proof.
  refine (proj2 (proj2 (proj2 (exchange_outcomes demo_numa_config None true demo_members id_log1p "pause" eq_refl demo_start _)))).
  exact (proj1 (construct_Ok demo_numa_config None false true 7 0 demo_world demo_numa_config demo_start id_log1p eq_refl)).
Defined.
