(* ===== verification/RuntimeStop.v ===== *)
(** * The end of the runtime ([Runtime::~Runtime])

    The destructor runs after both worker threads have been joined: the last
    events are consumed, the profile is exported and every mask is restored.
    Closing the descriptors and removing the socket are not modelled. *)
From Stdlib Require Import SpecFloat Ascii.
From S2P Require Import Prelude Binary64 Core CpuList Actuator Topology DomainPlanner DomainSolver.
From S2P Require Import GraphWindow GraphFacts GraphProperties ThreadProfile Config ConfigProperties Hotspot.
From S2P Require Import Incremental IncrementalPropose Runtime RuntimeSolve RuntimeFacts RuntimeProperties.
From S2P Require Import BpfPending RuntimeEvents RuntimeEventFacts RuntimeEventProperties ProfileWriter ProfileRoundTrip.
Local Open Scope string_scope.
Local Open Scope Z_scope.
Local Open Scope ag_scope.

Section destructor.
Context {W : Type} `{AffinityBackend W}.
Context (config : Config) (profile : option ThreadProfile) (bpf_reader : bool) (log1p : double → double).
Context (module_offset : Z → Z → string) (order : relations_order).

(** [consume_pending_bpf(); sample_bpf_health(monotonic_ns());] *)
Definition last_events (clock now : Z) (p : Pending) : M W Pending :=
  p1 ← consume_pending_bpf config profile log1p module_offset order clock p;
  sample_bpf_health now p1.
Definition final_health : M W unit :=
  when bpf_reader (_ ← with_lock get; log "bpf_health" "final").
(** The exception of a failed export becomes a log line. *)
Definition export_step (fs : ProfileFs) (timestamp : string) (files : gmap string (list ascii)) :
    M W (gmap string (list ascii)) :=
  let '(files', r) := export_profile fs profile timestamp (Config.experiment_id config) (Config.test_id config)
                        (log_directory config) (profile_output_path config) files in
  _ ← match r with
      | None => mret tt
      | Some (Ok _) => log "profile_export" "candidate"
      | Some (Throw _) => log "profile_export" "failed"
      end;
  mret files'.
Definition destroy (fs : ProfileFs) (timestamp : string) (files : gmap string (list ascii)) (clock now : Z) (p : Pending) :
    M W (gmap string (list ascii) * RestoreResult) :=
  _ ← last_events clock now p;
  _ ← final_health;
  files' ← export_step fs timestamp files;
  restored ← actuator_restore_all;
  _ ← log "runtime_stop" (if rr_success restored then "restored" else "failed");
  mret (files', restored).
End destructor.

(** ** What the destructor guarantees *)
Section guarantees.
Context {W : Type} `{AffinityBackendLaws W}.
Context (config : Config) (profile : option ThreadProfile) (bpf_reader : bool) (log1p : double → double).
Context (module_offset : Z → Z → string) (order : relations_order).

Lemma last_events_safe D clock now p :
  safe (W := W) D (idle log1p) (idle log1p) (last_events config profile log1p module_offset order clock now p).
Proof.
  unfold last_events. eapply safe_bind; [apply consume_pending_bpf_safe|]. intros p1. apply sample_bpf_health_safe.
Qed.
(** Logging and the export leave the members alone. *)
Definition same_binding (s s' : Runtime W) : Prop :=
  rt_actuator s' = rt_actuator s ∧ rt_world s' = rt_world s ∧ rt_locked s' = rt_locked s.
Lemma final_health_runs (s : Runtime W) : rt_locked s = false →
  ∃ s', final_health bpf_reader s = Returned tt s' ∧ same_binding s s'.
Proof.
  intros Hl. unfold final_health, when. destruct bpf_reader; [|by eexists].
  unfold mbind, M_bind, with_lock, get. rewrite Hl. by eexists.
Qed.
Lemma export_step_runs fs timestamp files (s : Runtime W) :
  ∃ files' s', export_step config profile fs timestamp files s = Returned files' s' ∧ same_binding s s' ∧
    files' = (export_profile fs profile timestamp (Config.experiment_id config) (Config.test_id config)
                (log_directory config) (profile_output_path config) files).1.
Proof.
  unfold export_step. destruct (export_profile _ _ _ _ _ _ _ _) as [files' [[r|e]|]];
    unfold mbind, M_bind; by eexists _, _.
Qed.
Lemma restore_all_runs (s : Runtime W) : act_ok (rt_actuator s) →
  ∃ r s', actuator_restore_all s = Returned r s' ∧ rt_actuator s' = Actuator_init ∧
    rr_requested r = Z.of_nat (size (acted_tids (rt_actuator s))) ∧
    rr_restored r + rr_vanished r + rr_failed r = rr_requested r ∧
    (rr_failed r = 0 → ∀ t mask, t ∈ acted_tids (rt_actuator s) → alive (rt_world s) t = true →
       restore_masks (rt_actuator s) !! t = Some mask → backend_get (rt_world s') t = mask).
Proof.
  intros Ha. destruct (restore_all_loop_counts (restore_masks (rt_actuator s)) (rt_world s)
    (mk_RestoreResult (Z.of_nat (size (acted_tids (rt_actuator s)))) 0 0 0)
    (set_items (acted_tids (rt_actuator s)))) as (w' & r & Hr & Hreq & Hsum).
  { intros t Ht%elem_of_set_items. by apply Ha. }
  destruct (restore_all_loop_gets _ _ _ _ _ _ (NoDup_set_items _) Hr) as (_ & _ & _ & Hg).
  unfold actuator_restore_all, restore_all. rewrite Hr. eexists r, _. split; [reflexivity|].
  rewrite length_set_items in Hsum. cbn in *. split_and!; [done|done|lia|].
  intros Hf t mask Ht Hal Hm. apply (Hg Hf t mask); [by apply elem_of_set_items|done|done].
Qed.

Lemma destroy_runs fs timestamp files clock now p (s : Runtime W) :
  idle log1p s →
  ∃ p1 s1 files' r s', last_events config profile log1p module_offset order clock now p s = Returned p1 s1 ∧
    destroy config profile bpf_reader log1p module_offset order fs timestamp files clock now p s = Returned (files', r) s' ∧
    files' = (export_profile fs profile timestamp (Config.experiment_id config) (Config.test_id config)
                (log_directory config) (profile_output_path config) files).1 ∧
    rt_actuator s' = Actuator_init ∧ rr_requested r = Z.of_nat (size (acted_tids (rt_actuator s1))) ∧
    rr_restored r + rr_vanished r + rr_failed r = rr_requested r ∧
    (rr_failed r = 0 → ∀ t mask, t ∈ acted_tids (rt_actuator s1) → alive (rt_world s1) t = true →
       restore_masks (rt_actuator s1) !! t = Some mask → backend_get (rt_world s') t = mask) ∧
    (∀ t, t ∈ acted_tids (rt_actuator s1) → is_Some (restore_masks (rt_actuator s1) !! t)).
Proof.
  intros Hi. destruct (safe_returns _ _ _ s (last_events_safe (λ _, False) clock now p) Hi) as (p1 & s1 & H1 & Hl1 & Hc1).
  destruct (final_health_runs s1 Hl1) as (s2 & H2 & Ha2 & Hw2 & _).
  destruct (export_step_runs fs timestamp files s2) as (files' & s3 & H3 & (Ha3 & Hw3 & _) & Hf).
  rewrite Ha2 in Ha3. rewrite Hw2 in Hw3. pose proof (co_act _ _ _ _ Hc1) as Hok1.
  pose proof Hok1 as Hok. rewrite <- Ha3 in Hok.
  destruct (restore_all_runs s3 Hok) as (r & s4 & H4 & Ha4 & Hreq & Hsum & Hg). rewrite Ha3, Hw3 in *.
  eexists p1, s1, files', r, _. split; [exact H1|]. split.
  { unfold destroy. unfold mbind, M_bind. rewrite H1, H2, H3, H4. unfold log, modify. reflexivity. }
  cbn. split_and!; [done..|]. intros t Ht. by apply Hok1.
Qed.
End guarantees.

(** C7: with the domain selector the runtime never leaves through an exception.
    From construction, through any number of iterations of its loop, nothing is
    thrown; the loop fails to come back only where, in active mode, a failed
    restore makes it wait for its own mutex.  When it comes back the destructor
    does too, without a throw or a wait: whatever the last events are and whether
    or not the profile can be exported, every thread the actuator still holds
    after those events is restored, vanished or counted as failed, when none
    failed each live one has the mask recorded for it, and the actuator is
    empty. *)
Theorem stop_restores {W} `{AffinityBackendLaws W} c profile degraded bpf root start (w : W) config s
    hardware log1p module_offset order l steps fs timestamp files clock now
    (Hc : construct c profile degraded bpf root start w = Ok (config, s))
    (Hs : solver c = "numa-domain-v1") :
  match run config hardware profile bpf log1p module_offset order l steps s with
  | Thrown _ _ => False
  | Deadlocked s' => mode config = Active ∧ rr_success (rt_last_restore s') = false
  | Returned l' s0 => ∃ p1 s1 files' r s',
      last_events config profile log1p module_offset order clock now (ls_pending l') s0 = Returned p1 s1 ∧
      destroy config profile bpf log1p module_offset order fs timestamp files clock now (ls_pending l') s0 =
        Returned (files', r) s' ∧
      rt_actuator s' = Actuator_init ∧ rr_requested r = Z.of_nat (size (acted_tids (rt_actuator s1))) ∧
      rr_restored r + rr_vanished r + rr_failed r = rr_requested r ∧
      (rr_failed r = 0 → ∀ t, t ∈ acted_tids (rt_actuator s1) → alive (rt_world s1) t = true →
         ∃ mask, restore_masks (rt_actuator s1) !! t = Some mask ∧ backend_get (rt_world s') t = mask)
  end.
Proof.
  destruct (construct_Ok _ _ _ _ _ _ _ _ _ log1p Hc) as [Hi Hd].
  pose proof (run_safe config hardware profile bpf log1p module_offset order (Hd Hs) steps l s Hi) as Hsafe.
  unfold wp in Hsafe. destruct (run _ _ _ _ _ _ _ _ _ _) as [l' s0|e s0|s0]; [|done|].
  - destruct (destroy_runs config profile bpf log1p module_offset order fs timestamp files clock now
      (ls_pending l') s0 Hsafe) as (p1 & s1 & files' & r & s' & H1 & H2 & _ & H3 & H4 & H5 & H6 & H7).
    exists p1, s1, files', r, s'. split_and!; [done..|]. intros Hf t Ht Hal.
    destruct (H7 t Ht) as [mask Hm]. eauto.
  - destruct Hsafe as [Ha ?]. split; [|done]. unfold is_active in Ha. by bool_hyps.
Qed.
Definition demo_loop : outcome (gmap Z (list Z)) LoopState := demo_run demo_steps demo_start.
Lemma stop_restores_witness :
  ∃ l s0 files' r s', demo_loop = Returned l s0 ∧
    destroy demo_numa_config None true id_log1p (λ _ _, "") map_to_list healthy_fs "now" ∅ 4 5
      (ls_pending l) s0 = Returned (files', r) s' ∧ rt_actuator s' = Actuator_init.
Proof.
  pose proof (stop_restores demo_numa_config None false true 7 0 demo_world demo_numa_config demo_start demo_board
    id_log1p (λ _ _, "") map_to_list (mk_LoopState Pending_init 0) demo_steps healthy_fs "now" ∅ 4 5
    eq_refl eq_refl) as Hst.
  unfold demo_loop, demo_run. destruct (run _ _ _ _ _ _ _ _ _ _) as [l s0|e s0|s0] eqn:E.
  - destruct Hst as (p1 & s1 & files' & r & s' & _ & H2 & H3 & _).
    exists l, s0, files', r, s'. split; [reflexivity|]. split; [exact H2|exact H3].
  - destruct Hst.
  - vm_compute in E. discriminate E.
Defined.
